(* ===== verification/_CoqProject ===== *)
-Q . S2P
Prelude.v
Machine.v
SandboxStatus.v
Kahn.v
Bfs.v
PyText.v
Json.v
Datetime.v
Acceptance.v
PlanNode.v
Plan.v
NodeFacts.v
PlanProgress.v
Allocator.v
PlanDispatch.v
DispatchSafety.v
IterationReview.v
IterationLoop.v
SprintSafety.v
BarrierRepair.v
AgentGraph.v
GraphRun.v
GraphPatterns.v
GraphOrchestrator.v
GraphSafety.v
SubAgentRun.v
RunRegistry.v
RunStore.v
SessionRegistry.v
Conversation.v
ConversationManager.v
Termination.v
SpawnManager.v
Breaker.v
LlmBreaker.v
PoolBreaker.v
Breakers.v
PoolLifecycle.v
ResourcePool.v
RateLimiter.v
LlmErrors.v
LoadBalancer.v
FailoverChain.v
PooledClient.v
Glob.v
Utf8.v
Truncation.v
DoomLoop.v
TaskDecomposer.v
Scheduler.v
SchedulerSafety.v
ToolHooks.v
PermissionRules.v
PermissionManager.v
PermissionSafety.v
ToolPipeline.v
HitlTypes.v
HitlStore.v
HitlCoordinator.v
HitlSafety.v
HitlWaiters.v
WtpEnvelope.v
WtpSupervisor.v
WtpTools.v
WtpClarify.v
