(* ===== verification/Prelude.v ===== *)
(** * A verification library for the core of MemStack

    MemStack (the Python package under src/src/) is a multi-tenant platform
    on which LLM agents work for users: an agent runs in a sandbox, calls
    tools, asks the user for permission, delegates to sub-agents, and several
    agents can be composed into a workspace plan or an agent graph.  This
    library models the parts of its domain and infrastructure layers that
    decide something - status machines, schedulers, registries, permission
    rules, circuit breakers - as executable Rocq definitions, one operation
    per method, and proves what they promise.

    ** The parts, and how they depend on one another

    - Shared theory, without a counterpart in the sources: [Prelude] (this
      file: results and the state-and-error monad, insertion-ordered
      dictionaries, stable sorting, JSON-like values, automation), [Machine]
      (status machines), [Kahn] (Kahn's algorithm), [Bfs] (breadth-first
      traversal), [Breaker] (what a circuit breaker promises), [Glob]
      (fnmatch of the standard library), [Utf8] (its UTF-8 codec), [Json]
      (its json.dumps and json.loads, with their round trip), [Datetime] (its
      calendar and ISO format), [PyText] (its str, repr and int).
    - Sandboxes, domain/model/sandbox: [SandboxStatus].
    - Workspace plans, domain/model/workspace_plan: [Acceptance] (criteria,
      reports, checkpoints), [PlanNode], [Plan] (over [Kahn]).
    - The execution of plans, infrastructure/agent/workspace_plan:
      [NodeFacts] (what the supervisor reads from a node's metadata),
      [PlanProgress], [Allocator] (the class [TaskAllocator] and the scorer
      that implements it), [PlanDispatch] and [DispatchSafety] (a
      supervisor's tick from the invalidation of stale work to the workers it
      launches), [IterationReview] (the filter of review findings and the
      reviewer's verdict), [IterationLoop], [SprintSafety] and [BarrierRepair]
      (what happens when all nodes are done: the next sprint, and the repair
      of its barriers by a later tick).
    - Agent graphs, domain/model/agent/graph and
      infrastructure/agent/orchestration: [AgentGraph] (over [Kahn]),
      [GraphRun], [GraphPatterns] (the coordinators behind the class
      [PatternCoordinator]), [GraphOrchestrator] (over repository and
      spawner classes), [GraphSafety] (its interleavings).
    - Sub-agent runs, infrastructure/agent/subagent and orchestration:
      [SubAgentRun], [RunRegistry] (over [Bfs] and the class
      [RunRepository]), [RunStore] (the stores behind that class, over [Json]
      and [Datetime]), [SessionRegistry], [SpawnManager] (over [Bfs] and the class
      [RunTracker], which the registry implements), [TaskDecomposer] (over
      [Json]: a query split into sub-tasks by an LLM), [Scheduler] and
      [SchedulerSafety] (the parallel scheduler that runs them, and its
      interleavings).
    - Conversations, domain/model/agent/conversation and
      application/services: [Conversation] (the entity and its dictionaries),
      [ConversationManager] (over the class [ConversationRepository]; titles,
      access, the cached lists of the agent service), [Termination] (when a
      conversation ends, and when it waits for a human).
    - Questions to the user, domain/model/agent/hitl and
      infrastructure/agent/hitl: [HitlTypes] (requests and the answers that
      fit them), [HitlStore] (the entity and its table: answers, claims and
      leases), [HitlCoordinator] (over both and [Json]: the futures tools
      wait on), [HitlSafety] (its interleavings) and [HitlWaiters] (the
      sessions of a worker that wait).
    - The workspace protocol between a leader and its workers,
      domain/model/workspace and infrastructure/agent/{workspace,tools}:
      [WtpEnvelope] (over [Json]: envelopes, and the texts and messages they
      travel as), [WtpSupervisor] (the reader of the stream and its
      watchdog), [WtpTools] (the tools of both roles) and [WtpClarify] (over
      all of them: the questions of workers, in the system they are asked in).
    - Circuit breakers: [LlmBreaker] (infrastructure/llm/resilience) and
      [PoolBreaker] (infrastructure/agent/pool), both instances of
      [Breaker]; [Breakers] proves what clients see of either.
    - Agent pool: [PoolLifecycle].
    - Sandbox resources, domain/model/sandbox: [ResourcePool] (who holds
      which resource, and who waits for one).
    - Access to LLM providers, infrastructure/llm and
      infrastructure/agent/retry: [RateLimiter] (permits, semaphores and
      windows), [LlmErrors] (which errors are worth another attempt, and
      when), [LoadBalancer], [FailoverChain] and [PooledClient] (over
      [LlmErrors] and [LoadBalancer]).
    - Tools and permissions, infrastructure/agent/{tools,permission,
      doom_loop}: [Truncation] (over [Utf8]), [DoomLoop], [ToolHooks],
      [PermissionRules] (over [Glob]), [PermissionManager] and
      [PermissionSafety] (its interleavings), [ToolPipeline], which composes
      them behind the class [PermissionManagerProtocol].

    The doc comment of each file names its sources.  Definitions keep the
    names of the methods they translate; a method of an entity that mutates
    [self] returns the new entity.

    ** Conventions

    - A Python [dict] is an association list in insertion order
      ([PyDict]); a [set] of identifiers is a list without repetition where
      its order can be observed through a loop.
    - An exception is [Err e] of [result], or [None] where only the fact
      that something raised matters.  Where an operation changes state before
      it raises, the monad [M] keeps the state.
    - Instants are integers handed in by the caller, microseconds where their
      text matters; a call reads the clock once.  Finite floats are rationals
      or integers; no theorem depends on their rounding.
    - Code outside the repository's own sources (databases, Redis, LLMs,
      callables handed in) is a parameter or a class, its documented
      behaviour a law of the class where a theorem needs one; the laws of
      [ReliableRepository] are discharged by the stores of [RunStore].
    - Asynchronous code is cut at its awaits, and the pieces are the steps of
      a transition system; code that awaits nothing, or that holds a lock
      throughout, is one step.  Where code reads a row or a cache and writes
      it back later, the read and the write are steps of their own (the
      heartbeat of [HitlStore], the cache of [ConversationManager]).

    ** What the theorems show

    The properties are the theorems whose comment starts with a claim number.
    - Invariants of what is stored, over every sequence or interleaving of
      operations: graph runs, the permission manager's table of waiting
      requests, the run registry, plans, runs and agent instances.
    - What each operation does, errors included: permission replies, the
      cascade that stops spawned sessions, the plan's scheduling queries,
      graph validation, eviction.
    - Questions to the user: a tool gets only answers that were sent for its
      question and fit it, a claimed answer stays with its worker unless the
      heartbeat of an earlier lease is written late, a settled
      question never changes; what happens to an answer that meets a timeout,
      and that permissions are never asked for.
    - The workspace protocol: envelopes survive their transports, the
      supervisor reports exactly what ended, an attempt that was quiet for
      long is no longer heard, and a question is answered by its own answer
      only - which, as the tools send them, never arrives.
    - Invariants and access of conversations; the order in which one is
      ended; how old a cached list of them can be.
    - Resources: no resource has two holders, no wake-up is lost but by a
      waiter that times out and does not pass it on, permits are kept and
      returned, requests stay within their window.
    - Tools: a call runs exactly when its gates let it through.
    - LLM calls: which errors are classified how, what a pick, a chain of
      providers and a pooled call try, in which order and how often.
    - Plans under way: workers start only where they may, write different
      files, and start when there is work; stale work is reset; sprints wait
      for their phases and are bounded; progress and the critical path are
      what they claim to be.
    - Refinement: the registry under several processes, over each store of
      the sources, against a single map, the cached database against the
      database alone, the spawn manager's mirror of run statuses, the
      doom-loop detector's bounded windows against unbounded histories, the
      simplified sandbox machine against the full one, the breakers against
      [BreakerLaws].
    - Progress and termination: graph runs that go on, schedules that stop
      moving, paging that reads a file to its end, traversals, and the
      situations in which something waits for ever.
    - Round trips: sub-tasks through JSON and the decomposer's parser, runs
      through every store, conversations through the dictionaries of a cache.
    - Where the code and its documentation disagree, or the code does not do
      what it is for, the theorem states what the code does.

    ** Fuel

    [Bfs.bfs], the topological orders and the cycle detection run with fuel
    equal to the number of nodes and edges they can visit; a theorem of each
    file shows that this is enough.  [Truncation.read_pages] runs with the
    number of lines, [Json.read] with the length of the text, each enough for
    every input a theorem speaks of; [ConversationManager.alone] with two
    commands per entry of the cache and two scans, enough for an invalidation.  Every other recursion is structural.

    ** Not modelled

    - Web routers, database models and repositories, Redis and Ray
      adapters, container and cloud sandboxes, the SDK calls of the LLM
      clients, prompts, telemetry: input and output, without decisions of their own.
    - The ReAct loop and session processor (core/, processor/), the actors,
      the Redis consumers and recovery of answers, context compaction, skills, plugins, memory, the verifier of plan nodes
      and the half of a supervisor's tick that reacts to it: large drivers
      around LLM calls; the decisions they delegate to the components above
      are modelled there.
    - Front ends, desktop client, third_party, scripts. *)

From stdpp Require Export base tactics option list numbers strings gmap fin_maps sorting relations.
From Stdlib Require Export ZArith Lia.

(** * Results and the state-and-exception monad

    [result E A] is the outcome of a Python call: a value, or a raised
    exception.  [M S E A] is a method of an object whose attributes are
    [S]: assignments made before a [raise] stay made, so the state is
    returned in both cases. *)

Inductive result (E A : Type) : Type :=
  | Ok (a : A)
  | Err (e : E).
Arguments Ok {E A} a.
Arguments Err {E A} e.

Definition M (S E A : Type) : Type := S → S * result E A.

#[export] Instance result_ret {E} : MRet (result E) := λ A a, Ok a.
#[export] Instance result_bind {E} : MBind (result E) :=
  λ A B f r, match r with Ok a => f a | Err e => Err e end.
#[export] Instance M_ret {S E} : MRet (M S E) := λ A a s, (s, Ok a).
#[export] Instance M_bind {S E} : MBind (M S E) :=
  λ A B f m s, match m s with (s', Ok a) => f a s' | (s', Err e) => (s', Err e) end.

Definition mget {S E} : M S E S := λ s, (s, Ok s).
Definition mmodify {S E} (f : S → S) : M S E unit := λ s, (f s, Ok tt).
Definition mraise {S E A} (e : E) : M S E A := λ s, (s, Err e).
Definition mguard {S E} (b : bool) (e : E) : M S E unit :=
  if b then mret tt else mraise e.

Definition is_ok {E A} (r : result E A) : bool :=
match r with Ok _ => true | Err _ => false end.
Definition of_option {E A} (o : option A) (e : E) : result E A :=
match o with Some a => Ok a | None => Err e end.

#[export] Instance result_eq_dec {E A} `{EqDecision E, EqDecision A} :
  EqDecision (result E A).
Proof. solve_decision. Defined.

Lemma result_bind_ok {E A B} (f : A → result E B) (r : result E A) b :
  mbind f r = Ok b ↔ ∃ a, r = Ok a ∧ f a = Ok b.
Proof. destruct r; simpl; split; naive_solver. Qed.

Lemma M_bind_ok {S E A B} (f : A → M S E B) (m : M S E A) s s' b :
  mbind f m s = (s', Ok b) ↔ ∃ s1 a, m s = (s1, Ok a) ∧ f a s1 = (s', Ok b).
Proof.
unfold mbind, M_bind. destruct (m s) as [s1 [a|e]] eqn:E1; split; naive_solver.
Qed.

Lemma mapM_result {A B E : Type} (f : A → result E B) (l : list A) :
  (∀ x, x ∈ l → ∃ y, f x = Ok y) →
  ∃ l', mapM (M := result E) f l = Ok l' ∧ Forall2 (λ x y, f x = Ok y) l l'.
Proof.
  induction l as [|x l IH]; intros Hf; [by exists []|].
  destruct (Hf x) as [y Hy]; [left|].
  destruct IH as (l' & Hl & HF); [intros z Hz; apply Hf; by right|].
  exists (y :: l'). split; [|by constructor].
  change (mapM (M := result E) f (x :: l)) with
    (z ← f x; ys ← mapM (M := result E) f l; mret (M := result E) (z :: ys)).
  rewrite Hy. simpl. by rewrite Hl.
Qed.

Lemma Forall2_impl_elem {A B : Type} (P Q : A → B → Prop) l k :
  Forall2 P l k → (∀ x y, x ∈ l → P x y → Q x y) → Forall2 Q l k.
Proof.
  induction 1 as [|x y l k Hxy _ IH]; intros HQ; constructor.
  - apply HQ; [left|done].
  - apply IH. intros a b Ha. apply HQ. by right.
Qed.

(** ** Safety of a method

    [safe I m Q]: whether [m] returns or raises, the state keeps [I], and a
    returned value is in [Q]. *)

Section safe.
Context {S E : Type} (I : S → Prop).

Definition safe {A} (m : M S E A) (Q : A → Prop) : Prop := ∀ s, I s →
  I (m s).1 ∧ ∀ a, (m s).2 = Ok a → Q a.

Lemma safe_ret {A} (a : A) (Q : A → Prop) : Q a → safe (mret a) Q.
Proof. intros HQ s HI. split; [done|]. by intros ? [= <-]. Qed.
Lemma safe_raise {A} e (Q : A → Prop) : safe (mraise e) Q.
Proof. intros s HI. by split. Qed.
Lemma safe_bind {A B} (m : M S E A) (f : A → M S E B) P Q :
  safe m P → (∀ a, P a → safe (f a) Q) → safe (mbind f m) Q.
Proof.
  intros Hm Hf s HI. destruct (Hm s HI) as [HI' HP]. unfold mbind, M_bind.
  destruct (m s) as [s' [a|e]]; simpl in *; [|by split]. by apply Hf; [apply HP|].
Qed.
Lemma safe_weaken {A} (m : M S E A) (P Q : A → Prop) : safe m P → (∀ a, P a → Q a) → safe m Q.
Proof. intros Hm HPQ s HI. destruct (Hm s HI). split; eauto. Qed.
Lemma safe_guard b e (Q : unit → Prop) : (b = true → Q tt) → safe (mguard b e) Q.
Proof. intros HQ. destruct b; [by apply safe_ret, HQ|apply safe_raise]. Qed.
Lemma safe_modify (f : S → S) (Q : unit → Prop) : (∀ s, I s → I (f s)) → Q tt → safe (mmodify f) Q.
Proof. intros Hf HQ s HI. split; [by apply Hf|]. by intros [] _. Qed.
End safe.

(** * Python dictionaries

    A [dict] keeps its keys in insertion order; assigning to a present
    key keeps the key's place.  [dict_wf] (no key twice) holds of every
    dictionary built by the operations. *)

Create HintDb memstack.

Module PyDict.
Section dict.
Context {K V : Type} `{EqDecision K}.
Implicit Types (k : K) (v : V) (d : list (K * V)).

Fixpoint dget k d : option V :=
    match d with
    | [] => None
    | (k', v') :: d' => if decide (k = k') then Some v' else dget k d'
    end.
Fixpoint dset k v d : list (K * V) :=
    match d with
    | [] => [(k, v)]
    | (k', v') :: d' => if decide (k = k') then (k', v) :: d' else (k', v') :: dset k v d'
    end.
Definition ddel k d : list (K * V) := filter (λ p, p.1 ≠ k) d.
Definition dmem k d : bool := match dget k d with Some _ => true | None => false end.
Definition dkeys d : list K := d.*1.
Definition dvals d : list V := d.*2.
Definition dget_or v k d : V := default v (dget k d).
Definition dict_wf d : Prop := NoDup (dkeys d).

Lemma dget_dset k k' v d :
    dget k' (dset k v d) = if decide (k = k') then Some v else dget k' d.
Proof.
    induction d as [|[k1 v1] d IH]; simpl; repeat (case_decide; simpl); subst; try done.
Qed.
Lemma dget_dset_eq k v d : dget k (dset k v d) = Some v.
Proof. rewrite dget_dset. by case_decide. Qed.
Lemma dget_dset_ne k k' v d : k ≠ k' → dget k' (dset k v d) = dget k' d.
Proof. intros. rewrite dget_dset. by case_decide. Qed.
Lemma dget_ddel k k' d :
    dget k' (ddel k d) = if decide (k = k') then None else dget k' d.
Proof.
    induction d as [|[k1 v1] d IH]; simpl; [by case_decide|].
    unfold ddel. rewrite filter_cons. fold (ddel k d). simpl.
    repeat (case_decide; simpl); subst; try done.
Qed.
Lemma dget_ddel_eq k d : dget k (ddel k d) = None.
Proof. rewrite dget_ddel. by case_decide. Qed.
Lemma dget_ddel_ne k k' d : k ≠ k' → dget k' (ddel k d) = dget k' d.
Proof. intros. rewrite dget_ddel. by case_decide. Qed.

Lemma dget_Some_elem k v d : dget k d = Some v → (k, v) ∈ d.
Proof.
    induction d as [|[k1 v1] d IH]; simpl; [done|]. rewrite elem_of_cons.
    case_decide; intros; simplify_eq; auto.
Qed.
Lemma dget_None_keys k d : dget k d = None ↔ k ∉ dkeys d.
Proof.
    induction d as [|[k1 v1] d IH]; simpl; [set_solver|].
    rewrite elem_of_cons. case_decide; naive_solver.
Qed.
Lemma dget_is_Some_keys k d : is_Some (dget k d) ↔ k ∈ dkeys d.
Proof.
    rewrite <-not_eq_None_Some, dget_None_keys. split; [|naive_solver].
    intros H. destruct (decide (k ∈ dkeys d)); tauto.
Qed.
Lemma dmem_true k d : dmem k d = true ↔ k ∈ dkeys d.
Proof.
    unfold dmem. rewrite <-dget_is_Some_keys. destruct (dget k d); naive_solver.
Qed.
Lemma dmem_false k d : dmem k d = false ↔ k ∉ dkeys d.
Proof. rewrite <-dmem_true. destruct (dmem k d); naive_solver. Qed.
Lemma elem_of_dget k v d : dict_wf d → (k, v) ∈ d → dget k d = Some v.
Proof.
    unfold dict_wf, dkeys. induction d as [|[k1 v1] d IH]; simpl; [set_solver|].
    intros [Hn Hd]%NoDup_cons [Heq|Hin]%elem_of_cons; simplify_eq;
      case_decide; subst; auto; try done.
    destruct Hn. apply list_elem_of_fmap. by exists (k1, v).
Qed.

Lemma dkeys_dset k v d :
    dkeys (dset k v d) = if decide (k ∈ dkeys d) then dkeys d else dkeys d ++ [k].
Proof.
    unfold dkeys. induction d as [|[k1 v1] d IH]; csimpl; [done|].
    destruct (decide (k = k1)) as [->|Hne]; csimpl.
    - rewrite decide_True; [done|apply elem_of_cons; auto].
    - rewrite IH. case_decide as H1; case_decide as H2; try done;
        rewrite elem_of_cons in H2; naive_solver.
Qed.
Lemma dset_wf k v d : dict_wf d → dict_wf (dset k v d).
Proof.
    unfold dict_wf. rewrite dkeys_dset. case_decide; [done|].
    intros. apply NoDup_app. repeat split; [done|set_solver|apply NoDup_singleton].
Qed.
Lemma ddel_wf k d : dict_wf d → dict_wf (ddel k d).
Proof.
    unfold dict_wf, dkeys, ddel. induction d as [|[k1 v1] d IH]; [done|].
    rewrite filter_cons; simpl. intros [Hn Hd]%NoDup_cons.
    case_decide; simpl; [|auto]. apply NoDup_cons. split; [|auto].
    intros (p & -> & [_ Hp]%list_elem_of_filter)%list_elem_of_fmap.
    destruct Hn. by apply list_elem_of_fmap; exists p.
Qed.
Lemma elem_of_ddel p k d : p ∈ ddel k d ↔ p ∈ d ∧ p.1 ≠ k.
Proof. unfold ddel. rewrite list_elem_of_filter. tauto. Qed.
Lemma elem_of_dkeys_ddel k k' d : k' ∈ dkeys (ddel k d) ↔ k' ∈ dkeys d ∧ k' ≠ k.
Proof.
    rewrite <-!dget_is_Some_keys, dget_ddel. case_decide; naive_solver.
Qed.
Lemma elem_of_dkeys_dset k k' v d : k' ∈ dkeys (dset k v d) ↔ k' = k ∨ k' ∈ dkeys d.
Proof. rewrite dkeys_dset. case_decide; set_solver. Qed.
Lemma ddel_length k d : length (ddel k d) ≤ length d.
Proof. apply length_filter. Qed.
Lemma dset_length_new k v d : k ∉ dkeys d → length (dset k v d) = S (length d).
Proof.
    intros H. rewrite <-!(length_fmap fst). fold (dkeys (dset k v d)) (dkeys d).
    rewrite dkeys_dset, decide_False by done. rewrite length_app; simpl; lia.
Qed.
Lemma dset_length_old k v d : k ∈ dkeys d → length (dset k v d) = length d.
Proof.
    intros H. rewrite <-!(length_fmap fst). fold (dkeys (dset k v d)) (dkeys d).
    by rewrite dkeys_dset, decide_True.
Qed.
Lemma dget_or_dset v0 k k' v d :
    dget_or v0 k' (dset k v d) = if decide (k = k') then v else dget_or v0 k' d.
Proof. unfold dget_or. rewrite dget_dset. by case_decide. Qed.
Lemma dkeys_dset_old k v d : k ∈ dkeys d → dkeys (dset k v d) = dkeys d.
Proof. intros. by rewrite dkeys_dset, decide_True. Qed.
Lemma dset_new k v d : k ∉ dkeys d → dset k v d = d ++ [(k, v)].
Proof.
    unfold dkeys. induction d as [|[k1 v1] d IH]; simpl; [done|].
    rewrite not_elem_of_cons. intros [? ?].
    rewrite decide_False by done. by rewrite IH.
Qed.
Lemma elem_of_dset k v d p : p ∈ dset k v d → p = (k, v) ∨ p ∈ d.
Proof.
    induction d as [|[k1 v1] d IH]; simpl; [by intros ?%list_elem_of_singleton; left|].
    case_decide; subst; rewrite !elem_of_cons; naive_solver.
Qed.
Lemma dset_id k v d : dget k d = Some v → dset k v d = d.
Proof.
    induction d as [|[k1 v1] d IH]; simpl; [done|].
    case_decide; intros; [|rewrite IH by done]; congruence.
Qed.
(** A sum over the values when one of them is replaced. *)
Lemma sum_dvals_dset (w : V → nat) k v v0 d : dget k d = Some v0 →
    sum_list (w <$> dvals (dset k v d)) + w v0 = sum_list (w <$> dvals d) + w v.
Proof.
    induction d as [|[k1 v1] d IH]; csimpl; [done|].
    case_decide; csimpl; [intros; simplify_eq; lia|]. intros H1%IH. lia.
Qed.
Lemma dget_dvals k v d : dget k d = Some v → v ∈ dvals d.
Proof.
    unfold dvals. induction d as [|[k1 v1] d IH]; csimpl; [done|].
    rewrite elem_of_cons. case_decide; [intros; simplify_eq; by left|]. intros. right. auto.
Qed.
Lemma dvals_dget v d : dict_wf d → v ∈ dvals d → ∃ k, dget k d = Some v.
Proof.
    unfold dict_wf, dkeys, dvals. induction d as [|[k1 v1] d IH]; csimpl; [by intros _ ?%elem_of_nil|].
    intros [Hn Hd]%NoDup_cons [->|Hv]%elem_of_cons; [exists k1; by rewrite decide_True|].
    destruct (IH Hd Hv) as [k Hk]. exists k. rewrite decide_False; [done|]. intros ->.
    destruct Hn. assert (is_Some (dget k1 d)) as Hs by eauto.
    clear -Hs. induction d as [|[k2 v2] d IH]; csimpl in *; [by destruct Hs|].
    rewrite elem_of_cons. case_decide; [by left|]. right. auto.
Qed.
End dict.

Lemma dget_Forall2 {K V W : Type} `{EqDecision K} (R : V → W → Prop) d d' (k : K) v :
  Forall2 (λ (x : K * V) (y : K * W), x.1 = y.1 ∧ R x.2 y.2) d d' → dget k d = Some v →
  ∃ w, dget k d' = Some w ∧ R v w.
Proof.
  induction 1 as [|[k1 v1] [k2 w2] d d' [Hk HR] _ IH]; simpl in *; [done|]. subst k2.
  case_decide; [intros; simplify_eq; eauto|auto].
Qed.
(** A lookup in what a filter on keys keeps. *)
Lemma dget_key_filter {K V : Type} `{EqDecision K} (P : K → Prop) `{!∀ k, Decision (P k)}
    `{!∀ kv : K * V, Decision (P kv.1)} k (d : list (K * V)) :
  dget k (filter (λ kv, P kv.1) d) = if decide (P k) then dget k d else None.
Proof.
  induction d as [|[k' x] d IH]; [by case_decide|]. rewrite filter_cons. cbn [dget].
  destruct (decide (P (k', x).1)) as [Hk'|Hk']; cbn [fst dget] in *; rewrite ?IH;
    destruct (decide (k = k')) as [->|Hk]; try done.
  - by rewrite decide_True.
  - by rewrite !decide_False.
Qed.
End PyDict.
Export PyDict.

#[export] Hint Resolve dset_wf ddel_wf : memstack.
#[export] Hint Rewrite @dget_dset_eq @dget_ddel_eq : memstack.

(** * Stable sorting, [list.sort(key=...)]

    Insertion from the right: an element is put before the first one it
    is allowed to precede, so equal keys keep their order, whatever the
    direction of [leb]. *)

Section sort_by.
Context {A : Type} (leb : A → A → bool).

Fixpoint insert_by (x : A) (l : list A) : list A :=
    match l with
    | [] => [x]
    | y :: l' => if leb x y then x :: l else y :: insert_by x l'
    end.
Fixpoint sort_by (l : list A) : list A :=
    match l with [] => [] | x :: l' => insert_by x (sort_by l') end.

Lemma insert_by_perm x l : insert_by x l ≡ₚ x :: l.
Proof.
    induction l as [|y l IH]; simpl; [done|]. destruct (leb x y); [done|].
    rewrite IH. constructor.
Qed.
Lemma sort_by_perm l : sort_by l ≡ₚ l.
Proof. induction l as [|x l IH]; simpl; [done|]. by rewrite insert_by_perm, IH. Qed.
Lemma elem_of_sort_by x l : x ∈ sort_by l ↔ x ∈ l.
Proof. by rewrite sort_by_perm. Qed.
Lemma sort_by_length l : length (sort_by l) = length l.
Proof. by rewrite sort_by_perm. Qed.

Hypothesis leb_total : ∀ x y, leb x y = false → leb y x = true.
Hypothesis leb_trans : ∀ x y z, leb x y = true → leb y z = true → leb x z = true.
Let R x y := leb x y = true.

Lemma insert_by_sorted x l : StronglySorted R l → StronglySorted R (insert_by x l).
Proof.
    induction 1 as [|y l Hl IH Hy]; simpl; [by repeat constructor|].
    destruct (leb x y) eqn:E; constructor; [by constructor| |done|].
    - constructor; [done|]. eapply Forall_impl; [exact Hy|]. unfold R; eauto.
    - rewrite insert_by_perm. constructor; [by apply leb_total|done].
Qed.
Lemma sort_by_sorted l : StronglySorted R (sort_by l).
Proof. induction l; simpl; [constructor|]. by apply insert_by_sorted. Qed.
Lemma sort_by_of_sorted l : StronglySorted R l → sort_by l = l.
Proof.
    induction 1 as [|x l Hl IH Hx]; simpl; [done|]. rewrite IH.
    destruct Hx as [|y l Hxy]; simpl; [done|]. by rewrite Hxy.
Qed.

(** Appending to a sorted list and sorting again puts the element after
    every element it does not have to precede. *)
Fixpoint place (x : A) (l : list A) : list A :=
    match l with
    | [] => [x]
    | y :: l' => if leb y x then y :: place x l' else x :: l
    end.
Lemma insert_place x a l : insert_by a (place x l) = place x (insert_by a l).
Proof.
    induction l as [|y l IH]; simpl; [destruct (leb a x); done|].
    destruct (leb y x) eqn:Hyx; simpl.
    - destruct (leb a y) eqn:Hay; simpl; rewrite Hyx; [|by rewrite IH].
      by rewrite (leb_trans a y x).
    - destruct (leb a x) eqn:Hax, (leb a y) eqn:Hay; simpl; rewrite ?Hax, ?Hyx; try done.
      apply leb_total in Hyx. rewrite (leb_trans a x y) in Hay; done.
Qed.
Lemma sort_by_snoc l x : sort_by (l ++ [x]) = place x (sort_by l).
Proof. induction l as [|y l IH]; simpl; [done|]. by rewrite IH, insert_place. Qed.
Lemma sort_by_sort_snoc l x : sort_by (sort_by l ++ [x]) = sort_by (l ++ [x]).
Proof. by rewrite !sort_by_snoc, (sort_by_of_sorted (sort_by l)) by apply sort_by_sorted. Qed.
End sort_by.

(** A stable sort keeps the order of the elements with the same key. *)
Lemma sort_by_stable {A} (key : A → Z) (k : Z) l :
  filter (λ x, key x = k) (sort_by (λ a b, (key a <=? key b)%Z) l) = filter (λ x, key x = k) l.
Proof.
  induction l as [|x l IH]; [done|]. simpl. rewrite filter_cons, <-IH. clear IH.
  induction (sort_by _ l) as [|y s IH]; simpl; [by rewrite filter_cons, filter_nil|].
  destruct (Z.leb_spec (key x) (key y)); rewrite !filter_cons; [done|]. rewrite IH.
  repeat case_decide; try done. lia.
Qed.

(** * Sets kept as lists, and [Any] values *)

Section list_set.
Context {A : Type} `{EqDecision A}.

(** [set.add] *)
Definition set_add (x : A) (l : list A) : list A := if decide (x ∈ l) then l else l ++ [x].

Lemma elem_of_set_add x y l : y ∈ set_add x l ↔ y = x ∨ y ∈ l.
Proof. unfold set_add. case_decide; set_solver. Qed.
Lemma NoDup_set_add x l : NoDup l → NoDup (set_add x l).
Proof.
  unfold set_add. case_decide; [done|]. intros.
  apply NoDup_app. repeat split; [done|set_solver|apply NoDup_singleton].
Qed.
End list_set.

#[export] Hint Resolve NoDup_set_add : memstack.

(** * Lists without repeated keys *)

Lemma NoDup_filter_eq {A} `{EqDecision A} (x : A) l :
  NoDup l → length (filter (.= x) l) = if decide (x ∈ l) then 1 else 0.
Proof.
  induction 1 as [|y l Hy _ IH]; [by rewrite decide_False by set_solver|].
  rewrite filter_cons. destruct (decide (y = x)) as [->|Hne]; simpl; rewrite IH.
  - rewrite decide_False by done. by rewrite decide_True by set_solver.
  - destruct (decide (x ∈ l)); [rewrite decide_True|rewrite decide_False]; set_solver.
Qed.

Lemma filter_key_none {A B} (f : A → B) `{EqDecision B} (P : A → Prop)
    `{∀ x, Decision (P x)} k l :
  k ∉ f <$> l → filter (λ m, f m = k ∧ P m) l = [].
Proof.
  induction l as [|y l IH]; [done|]. rewrite fmap_cons, not_elem_of_cons. intros [Hy Hl].
  rewrite filter_cons, decide_False by naive_solver. auto.
Qed.
Lemma filter_key {A B} (f : A → B) `{EqDecision B} (P : A → Prop)
    `{∀ x, Decision (P x)} x l :
  NoDup (f <$> l) → x ∈ l →
  filter (λ m, f m = f x ∧ P m) l = if decide (P x) then [x] else [].
Proof.
  induction l as [|y l IH]; [set_solver|]. rewrite fmap_cons, NoDup_cons.
  intros [Hy Hl] [->|Hx]%elem_of_cons; rewrite filter_cons.
  - rewrite (filter_key_none f P (f y) l) by done.
    destruct (decide (P y)); [rewrite decide_True|rewrite decide_False]; naive_solver.
  - rewrite decide_False; [auto|]. intros [Hf _]. apply Hy. rewrite Hf.
    by apply list_elem_of_fmap_2.
Qed.

Lemma filter_ext_elem {A : Type} (P Q : A → Prop) `{!∀ x, Decision (P x), !∀ x, Decision (Q x)}
    (l : list A) :
  (∀ x, x ∈ l → P x ↔ Q x) → filter P l = filter Q l.
Proof.
  induction l as [|y l IH]; intros H'; [done|]. rewrite !filter_cons.
  rewrite IH by (intros; apply H'; by right).
  destruct (decide (P y)), (decide (Q y)); try done; exfalso;
    (assert (y ∈ y :: l) as [? ?]%H' by left); auto.
Qed.

Lemma filter_all {A : Type} (P : A → Prop) `{!∀ x, Decision (P x)} (l : list A) :
  (∀ x, x ∈ l → P x) → filter P l = l.
Proof.
  induction l as [|y l IH]; intros Hp; [done|]. rewrite filter_cons_True by (apply Hp; left).
  f_equal. apply IH. intros; apply Hp; by right.
Qed.

Lemma filter_of_fmap {A B : Type} (f : A → B) (P : B → Prop) `{!∀ x, Decision (P x)} (l : list A) :
  filter P (f <$> l) = f <$> filter (λ a, P (f a)) l.
Proof.
  induction l as [|y l IH]; [done|]. rewrite fmap_cons, !filter_cons, IH. by case_decide.
Qed.

Lemma find_Some_first {A} (f : A → bool) l x : List.find f l = Some x → x ∈ l ∧ f x = true.
Proof. intros [H ?]%List.find_some. by apply list_elem_of_In in H. Qed.
Lemma find_None_all {A} (f : A → bool) l : List.find f l = None ↔ ∀ x, x ∈ l → f x = false.
Proof.
  split; [intros H x Hx%list_elem_of_In; by eapply List.find_none|].
  intros H. destruct (List.find f l) eqn:E; [|done].
  apply find_Some_first in E as [Hin Ht]. rewrite H in Ht; done.
Qed.

Lemma forallb_elem {A} (f : A → bool) l : forallb f l = true ↔ ∀ x, x ∈ l → f x = true.
Proof. rewrite forallb_forall. by setoid_rewrite list_elem_of_In. Qed.

(** The values a [dict[str, Any]] of the code carries. *)
Inductive pyval : Type :=
  | PNone
  | PBool (b : bool)
  | PInt (z : Z)
  | PStr (s : string)
  | PList (l : list pyval)
  | PDict (d : list (string * pyval)).

(** Induction that reaches the values inside lists and dictionaries. *)
Section pyval_induction.
Context (P : pyval → Prop).
Context (Hnone : P PNone) (Hbool : ∀ b, P (PBool b)) (Hint : ∀ z, P (PInt z)) (Hstr : ∀ s, P (PStr s)).
Context (Hlist : ∀ l, Forall P l → P (PList l)) (Hdict : ∀ d, Forall (λ kv, P kv.2) d → P (PDict d)).
Fixpoint pyval_nested_ind (v : pyval) : P v :=
  match v with
  | PNone => Hnone
  | PBool b => Hbool b
  | PInt z => Hint z
  | PStr s => Hstr s
  | PList l => Hlist l
      ((fix go (l : list pyval) : Forall P l :=
          match l with
          | [] => Forall_nil_2 P
          | v :: l' => Forall_cons_2 P v l' (pyval_nested_ind v) (go l')
          end) l)
  | PDict d => Hdict d
      ((fix go (d : list (string * pyval)) : Forall (λ kv, P kv.2) d :=
          match d with
          | [] => Forall_nil_2 (λ kv, P kv.2)
          | kv :: d' => Forall_cons_2 (λ kv, P kv.2) kv d' (pyval_nested_ind kv.2) (go d')
          end) d)
  end.
End pyval_induction.

(** Structural equality ([1 == True] of Python does not hold here). *)
#[export] Instance pyval_eq_dec : EqDecision pyval.
Proof.
  refine (fix go (x y : pyval) {struct x} : Decision (x = y) :=
    match x, y with
    | PNone, PNone => left eq_refl
    | PBool a, PBool b => cast_if (decide (a = b))
    | PInt a, PInt b => cast_if (decide (a = b))
    | PStr a, PStr b => cast_if (decide (a = b))
    | PList l, PList k => cast_if ((fix gol (l k : list pyval) : Decision (l = k) :=
        match l, k with
        | [], [] => left eq_refl
        | a :: l', b :: k' => cast_if_and (go a b) (gol l' k')
        | _, _ => right _
        end) l k)
    | PDict l, PDict k => cast_if ((fix gol (l k : list (string * pyval)) : Decision (l = k) :=
        match l, k with
        | [], [] => left eq_refl
        | (a, u) :: l', (b, v) :: k' => cast_if_and3 (decide (a = b)) (go u v) (gol l' k')
        | _, _ => right _
        end) l k)
    | _, _ => right _
    end); clear go; try clear gol; congruence.
Defined.

(** [if s:] on a string. *)
Definition truthy (s : string) : bool := negb (bool_decide (s = "")).
(** [if v:] *)
Definition py_truth (v : pyval) : bool :=
  match v with
  | PNone => false
  | PBool b => b
  | PInt z => negb (z =? 0)%Z
  | PStr s => truthy s
  | PList l => negb (length l =? 0)
  | PDict d => negb (length d =? 0)
  end.
(** [s or t], [if s:] on an optional string. *)
Definition truthy_opt (s : option string) : bool := from_option truthy false s.

Lemma truthy_true s : truthy s = true ↔ s ≠ "".
Proof. unfold truthy. case_bool_decide; naive_solver. Qed.

(** * Case analysis on the booleans of guards *)

Ltac split_bools :=
  repeat match goal with
  | H : _ && _ = true |- _ => apply andb_true_iff in H as [? ?]
  | H : _ || _ = false |- _ => apply orb_false_iff in H as [? ?]
  | H : negb _ = true |- _ => apply negb_true_iff in H
  | H : negb _ = false |- _ => apply negb_false_iff in H
  | H : bool_decide _ = true |- _ => apply bool_decide_eq_true in H
  | H : bool_decide _ = false |- _ => apply bool_decide_eq_false in H
  | H : _ && _ = false |- _ => apply andb_false_iff in H as [?|?]
  | H : _ || _ = true |- _ => apply orb_true_iff in H as [?|?]
  end.

(** Split on every [if]/[match] of a hypothesis and drop the impossible cases. *)
Ltac case_all H :=
  repeat (match type of H with context [match ?x with _ => _ end] => destruct x eqn:? end;
          simplify_eq/=).

(** Split on the innermost [match] of the goal, until none is left. *)
Ltac case_goal :=
  repeat (simplify_eq/=; first
    [ done
    | match goal with
      | |- context [match ?x with _ => _ end] =>
          lazymatch x with
          | context [match _ with _ => _ end] => fail
          | _ => destruct x eqn:?
          end
      end ]).

(** Unfold the primitives of the monad. *)
Ltac unfold_M :=
  unfold mget, mguard, mraise, mmodify, mbind, M_bind, mret, M_ret, result_bind, result_ret in *.

(** A closed decidable goal, by evaluating its decision procedure. *)
Ltac vm_decide := apply (bool_decide_unpack _); vm_compute; exact I.

(** * Strings *)

(** The ASCII characters [str.strip] removes. *)
Definition is_space (a : Ascii.ascii) : bool :=
  let n := Ascii.nat_of_ascii a in
  ((9 <=? n) && (n <=? 13)) || ((28 <=? n) && (n <=? 32)) || (n =? 133) || (n =? 160).

Fixpoint lstrip (s : string) : string :=
  match s with
  | EmptyString => EmptyString
  | String a s' => if is_space a then lstrip s' else s
  end.
Fixpoint rstrip (s : string) : string :=
  match s with
  | EmptyString => EmptyString
  | String a s' =>
      match rstrip s' with
      | EmptyString => if is_space a then EmptyString else String a EmptyString
      | t => String a t
      end
  end.
(** [str.strip] *)
Definition strip (s : string) : string := rstrip (lstrip s).

Lemma rstrip_idem s : rstrip (rstrip s) = rstrip s.
Proof.
  induction s as [|a s IH]; simpl; [done|].
  destruct (rstrip s) as [|b t] eqn:E.
  - destruct (is_space a) eqn:Ha; simpl; [done|by rewrite Ha].
  - change (rstrip (String a (String b t))) with
      (match rstrip (String b t) with
       | EmptyString => if is_space a then EmptyString else String a EmptyString
       | t => String a t end).
    by rewrite IH.
Qed.
Lemma lstrip_rstrip_head a s : is_space a = false → lstrip (rstrip (String a s)) = rstrip (String a s).
Proof. intros Ha. simpl. destruct (rstrip s); simpl; by rewrite ?Ha; simpl; rewrite ?Ha. Qed.
Lemma strip_keeps a s : is_space a = false → strip (String a s) ≠ "".
Proof. intros Ha. unfold strip. simpl lstrip. rewrite Ha. simpl. by destruct (rstrip s); rewrite ?Ha. Qed.
Lemma strip_idem s : strip (strip s) = strip s.
Proof.
  unfold strip. induction s as [|a s IH]; [done|]. simpl (lstrip (String a s)).
  destruct (is_space a) eqn:Ha; [done|].
  rewrite lstrip_rstrip_head by done. apply rstrip_idem.
Qed.

#[export] Hint Rewrite strip_idem : memstack.
