(* ===== verification/Machine.v ===== *)
(** Status machines.

    [Machine] is the interface a status enumeration with guarded changes
    promises: which changes the code lets through and which statuses are
    final.  [mreach] and the lemmas about it are shared by the sandbox,
    plan, run, graph and agent-instance statuses; [status_map_sim] relates
    a machine to a coarser one.  The section [table] is the table-driven
    machine the sandbox code builds from its [VALID_TRANSITIONS]. *)

From S2P Require Import Prelude.

(** * The interface *)

Class Machine (S : Type) : Type := {
  mstep : S → S → bool;
  mfinal : S → bool;
  mfinal_stuck : ∀ s t, mfinal s = true → mstep s t = true → s = t;
}.

Section reach.
Context {S : Type} `{Machine S}.

Definition mreach : S → S → Prop := rtc (λ s t, mstep s t = true).

Lemma mreach_refl s : mreach s s.
Proof. apply rtc_refl. Qed.
Lemma mreach_step s t : mstep s t = true → mreach s t.
Proof. intros. by apply rtc_once. Qed.
Lemma mreach_trans s t u : mreach s t → mreach t u → mreach s u.
Proof. intros. by etrans. Qed.

Lemma mreach_inv (P : S → Prop) s t :
  (∀ x y, P x → mstep x y = true → P y) → P s → mreach s t → P t.
Proof. intros HP Hs. induction 1; eauto. Qed.

Lemma final_absorbing s t : mfinal s = true → mreach s t → t = s.
Proof.
  intros Hf. induction 1 as [|x y z Hxy _ IH]; [done|].
  pose proof (mfinal_stuck _ _ Hf Hxy); subst. auto.
Qed.

(** A run of statuses, each change let through. *)
Fixpoint accepts (s : S) (path : list S) : bool :=
  match path with [] => true | t :: path' => mstep s t && accepts t path' end.

Fixpoint path_end (s : S) (path : list S) : S :=
  match path with [] => s | t :: path' => path_end t path' end.

Lemma accepts_reach path : ∀ s, accepts s path = true → mreach s (path_end s path).
Proof.
  induction path as [|t path IH]; intros s; simpl; [intros; apply mreach_refl|].
  intros [Hst Hp]%andb_true_iff. eapply mreach_trans; [by apply mreach_step|auto].
Qed.

Lemma reach_by_path s t path : path_end s path = t → accepts s path = true → mreach s t.
Proof. intros <-. apply accepts_reach. Qed.
End reach.

#[export] Hint Resolve mreach_refl mreach_step : memstack.

(** * Forward simulation between machines *)

Section sim.
Context {A B : Type} `{Machine A, Machine B} (f : A → B).

(** A change of [A] is a change, or no change, of the coarser [B]. *)
Definition status_map_sim (x y : A) : Prop :=
  mstep x y = true → f x = f y ∨ mstep (f x) (f y) = true.

Lemma status_map_sim_reach x y :
  (∀ x y, status_map_sim x y) → mreach x y → mreach (f x) (f y).
Proof.
  intros Hsim. induction 1 as [|x y z Hxy _ IH]; [apply mreach_refl|].
  destruct (Hsim x y Hxy) as [->|Hs]; [done|].
  eapply mreach_trans; [by apply mreach_step|done].
Qed.
End sim.

(** * Table-driven machines *)

Record StateTransition (S : Type) : Type := mkTransition {
  from_status : S;
  to_status : S;
  description : string;
}.
Arguments mkTransition {S}.
Arguments from_status {S}.
Arguments to_status {S}.
Arguments description {S}.

Inductive transition_error (S : Type) : Type :=
  | InvalidStateTransitionError (from to : S) (sandbox_id : option string).
Arguments InvalidStateTransitionError {S}.

Section table.
Context {S : Type} `{EqDecision S}.
Context (VALID_TRANSITIONS : list (StateTransition S)) (TERMINAL_STATES : list S).

Definition add_transition (m : list (S * list S)) (t : StateTransition S)
    : list (S * list S) :=
  let m := if dmem (from_status t) m then m else dset (from_status t) [] m in
  dset (from_status t) (set_add (to_status t) (dget_or [] (from_status t) m)) m.

(** The lookup table [__init__] builds. *)
Definition table_map : list (S * list S) := foldl add_transition [] VALID_TRANSITIONS.

Definition table_can_transition (from to : S) : bool :=
  if decide (from = to) then true
  else if decide (from ∈ TERMINAL_STATES) then false
  else bool_decide (to ∈ dget_or [] from table_map).

Definition table_transition (from to : S) (sandbox_id : option string)
    : result (transition_error S) S :=
  if table_can_transition from to then Ok to
  else Err (InvalidStateTransitionError from to sandbox_id).

Definition table_valid_transitions (from : S) : list S :=
  if decide (from ∈ TERMINAL_STATES) then [] else dget_or [] from table_map.

Definition table_description (from to : S) : option string :=
  description <$>
    List.find (λ t, bool_decide (from_status t = from) && bool_decide (to_status t = to))
      VALID_TRANSITIONS.

Lemma add_transition_spec m t from to :
  to ∈ dget_or [] from (add_transition m t) ↔
  to ∈ dget_or [] from m ∨ (from = from_status t ∧ to = to_status t).
Proof.
  unfold add_transition, dget_or, dmem.
  destruct (decide (from_status t = from)) as [<-|Hne].
  - rewrite dget_dset_eq; simpl. rewrite elem_of_set_add.
    destruct (dget (from_status t) m) eqn:E; [rewrite E|rewrite dget_dset_eq];
      simpl; set_solver.
  - rewrite dget_dset_ne by done.
    destruct (dget (from_status t) m); [|rewrite dget_dset_ne by done]; naive_solver.
Qed.

Lemma table_map_spec from to :
  to ∈ dget_or [] from table_map ↔
  ∃ t, t ∈ VALID_TRANSITIONS ∧ from_status t = from ∧ to_status t = to.
Proof.
  unfold table_map.
  assert (∀ l m, to ∈ dget_or [] from (foldl add_transition m l) ↔
    to ∈ dget_or [] from m ∨ ∃ t, t ∈ l ∧ from_status t = from ∧ to_status t = to) as Hl.
  { induction l as [|t l IH]; intros m; simpl; [set_solver|].
    rewrite IH, add_transition_spec. setoid_rewrite elem_of_cons. naive_solver. }
  rewrite Hl. unfold dget_or. simpl. set_solver.
Qed.

Lemma table_can_transition_spec from to :
  table_can_transition from to = true ↔
  from = to ∨ (from ∉ TERMINAL_STATES ∧
    ∃ t, t ∈ VALID_TRANSITIONS ∧ from_status t = from ∧ to_status t = to).
Proof.
  unfold table_can_transition. rewrite <-table_map_spec.
  repeat case_decide; rewrite ?bool_decide_eq_true; naive_solver.
Qed.

Lemma table_valid_transitions_spec from to :
  to ∈ table_valid_transitions from ↔
  from ∉ TERMINAL_STATES ∧
    ∃ t, t ∈ VALID_TRANSITIONS ∧ from_status t = from ∧ to_status t = to.
Proof.
  unfold table_valid_transitions. rewrite <-table_map_spec. case_decide; set_solver.
Qed.

Lemma table_description_spec from to d :
  table_description from to = Some d →
  ∃ t, t ∈ VALID_TRANSITIONS ∧ from_status t = from ∧ to_status t = to ∧ description t = d.
Proof.
  unfold table_description. intros (t & Ht & ->)%fmap_Some.
  apply List.find_some in Ht as [Hin Ht]. split_bools.
  exists t. by rewrite list_elem_of_In.
Qed.

Lemma table_description_None from to :
  table_description from to = None ↔
  ¬ ∃ t, t ∈ VALID_TRANSITIONS ∧ from_status t = from ∧ to_status t = to.
Proof.
  unfold table_description. rewrite fmap_None. split.
  - intros Hf (t & Hin & Hfrom & Hto). apply list_elem_of_In in Hin.
    apply (List.find_none _ _ Hf) in Hin. simpl in Hin. split_bools; done.
  - intros Hn. destruct (List.find _ _) as [t|] eqn:Hf; [|done].
    apply List.find_some in Hf as [Hin Ht]. split_bools.
    destruct Hn. exists t. by rewrite list_elem_of_In.
Qed.

Lemma table_description_is_Some from to :
  is_Some (table_description from to) ↔
  ∃ t, t ∈ VALID_TRANSITIONS ∧ from_status t = from ∧ to_status t = to.
Proof.
  destruct (table_description from to) as [d|] eqn:E.
  - apply table_description_spec in E. naive_solver.
  - apply table_description_None in E. split; [by intros [? ?]|tauto].
Qed.
End table.

Lemma table_final_stuck {S} `{EqDecision S} (VT : list (StateTransition S)) (TS : list S) s t :
  bool_decide (s ∈ TS) = true → table_can_transition VT TS s t = true → s = t.
Proof.
  intros Hs%bool_decide_eq_true Ht%table_can_transition_spec. naive_solver.
Qed.
