(* ===== verification/SandboxStatus.v ===== *)
(** Sandbox lifecycle: the ten-status machine, the simplified four-status
    machine with its mapping from the legacy statuses, and the
    [ProjectSandbox] entity.

    Sources: src/src/domain/model/sandbox/state_machine.py ([SandboxSM]),
    simplified_state_machine.py ([SimplifiedSM]) and project_sandbox.py
    ([Sandbox]).  Instants are integers of microseconds. *)

From stdpp Require Import pretty.
From S2P Require Import Prelude Machine.

(** * [SandboxStateMachine] *)

Module SandboxSM.

Inductive ProjectSandboxStatus : Set :=
  | PENDING | CREATING | RUNNING | UNHEALTHY | STOPPED | TERMINATED | ERROR
  | CONNECTING | DISCONNECTED | ORPHAN.

#[global] Instance ProjectSandboxStatus_eq_dec : EqDecision ProjectSandboxStatus.
Proof. solve_decision. Defined.

Definition VALID_TRANSITIONS : list (StateTransition ProjectSandboxStatus) :=
  [ mkTransition PENDING CREATING "Start sandbox creation";
    mkTransition CREATING RUNNING "Sandbox created successfully";
    mkTransition RUNNING UNHEALTHY "Health check failed";
    mkTransition RUNNING STOPPED "Sandbox stopped";
    mkTransition RUNNING TERMINATED "Sandbox terminated";
    mkTransition UNHEALTHY RUNNING "Recovery succeeded";
    mkTransition UNHEALTHY STOPPED "Sandbox stopped while unhealthy";
    mkTransition UNHEALTHY TERMINATED "Unhealthy sandbox terminated";
    mkTransition STOPPED CREATING "Restart stopped sandbox";
    mkTransition STOPPED TERMINATED "Stopped sandbox terminated";
    mkTransition PENDING ERROR "Creation request failed";
    mkTransition CREATING ERROR "Creation process failed";
    mkTransition RUNNING ERROR "Runtime error occurred";
    mkTransition UNHEALTHY ERROR "Recovery failed";
    mkTransition ERROR CREATING "Retry after error";
    mkTransition ERROR TERMINATED "Error sandbox terminated";
    mkTransition PENDING CONNECTING "Start local sandbox connection";
    mkTransition CONNECTING RUNNING "Local sandbox connected";
    mkTransition CONNECTING DISCONNECTED "Connection attempt failed";
    mkTransition CONNECTING ERROR "Connection error";
    mkTransition RUNNING DISCONNECTED "Local sandbox disconnected";
    mkTransition DISCONNECTED CONNECTING "Reconnection attempt";
    mkTransition DISCONNECTED TERMINATED "Disconnected sandbox terminated";
    mkTransition ORPHAN RUNNING "Orphan adopted and running";
    mkTransition ORPHAN TERMINATED "Orphan terminated";
    mkTransition ORPHAN UNHEALTHY "Orphan adopted but unhealthy" ].

Definition TERMINAL_STATES : list ProjectSandboxStatus := [TERMINATED].
Definition USABLE_STATES : list ProjectSandboxStatus := [RUNNING].
Definition ACTIVE_STATES : list ProjectSandboxStatus :=
  [RUNNING; CREATING; CONNECTING; UNHEALTHY].
Definition RECOVERABLE_STATES : list ProjectSandboxStatus :=
  [UNHEALTHY; STOPPED; ERROR; DISCONNECTED].

Definition transition_map : list (ProjectSandboxStatus * list ProjectSandboxStatus) :=
  table_map VALID_TRANSITIONS.
Definition can_transition : ProjectSandboxStatus → ProjectSandboxStatus → bool :=
  table_can_transition VALID_TRANSITIONS TERMINAL_STATES.
Definition transition :
    ProjectSandboxStatus → ProjectSandboxStatus → option string →
    result (transition_error ProjectSandboxStatus) ProjectSandboxStatus :=
  table_transition VALID_TRANSITIONS TERMINAL_STATES.
Definition get_valid_transitions : ProjectSandboxStatus → list ProjectSandboxStatus :=
  table_valid_transitions VALID_TRANSITIONS TERMINAL_STATES.
Definition is_usable (status : ProjectSandboxStatus) : bool :=
  bool_decide (status ∈ USABLE_STATES).
Definition is_active (status : ProjectSandboxStatus) : bool :=
  bool_decide (status ∈ ACTIVE_STATES).
Definition is_terminal (status : ProjectSandboxStatus) : bool :=
  bool_decide (status ∈ TERMINAL_STATES).
Definition is_recoverable (status : ProjectSandboxStatus) : bool :=
  bool_decide (status ∈ RECOVERABLE_STATES).
Definition get_transition_description :
    ProjectSandboxStatus → ProjectSandboxStatus → option string :=
  table_description VALID_TRANSITIONS.
(** The module-level function delegates to the global machine. *)
Definition validate_transition (from to : ProjectSandboxStatus) (sandbox_id : option string) :=
  transition from to sandbox_id.

#[global] Instance sandbox_machine : Machine ProjectSandboxStatus := {
  mstep := can_transition;
  mfinal := is_terminal;
  mfinal_stuck := table_final_stuck VALID_TRANSITIONS TERMINAL_STATES;
}.
End SandboxSM.

(** * [SimplifiedSandboxStateMachine] and the entity's status *)

Module Sandbox.

(** The eleven values of project_sandbox.py: four preferred ones, seven
    legacy ones. *)
Inductive ProjectSandboxStatus : Set :=
  | STARTING | RUNNING | ERROR | TERMINATED
  | PENDING | CREATING | UNHEALTHY | STOPPED | CONNECTING | DISCONNECTED | ORPHAN.

#[global] Instance Status_eq_dec : EqDecision ProjectSandboxStatus.
Proof. solve_decision. Defined.

Inductive SandboxType : Set := CLOUD | LOCAL.
#[global] Instance SandboxType_eq_dec : EqDecision SandboxType.
Proof. solve_decision. Defined.

Inductive SandboxTransport : Set := WEBSOCKET | STDIO.

Definition transport_value (t : SandboxTransport) : string :=
  match t with WEBSOCKET => "websocket" | STDIO => "stdio" end.
Definition parse_transport (s : string) : option SandboxTransport :=
  if bool_decide (s = "websocket") then Some WEBSOCKET
  else if bool_decide (s = "stdio") then Some STDIO
  else None.

Record LocalSandboxConfig : Type := mkLocal {
  workspace_path : string;
  transport : SandboxTransport;
  tunnel_url : option string;
  host : string;
  port : Z;
  auth_token : option string;
}.
Definition default_local_config : LocalSandboxConfig :=
  mkLocal "/workspace" WEBSOCKET None "localhost" 8765 None.

Definition get_websocket_url (c : LocalSandboxConfig) : string :=
  match tunnel_url c with
  | Some u => if truthy u then u else
      (if bool_decide (host c ∈ ["localhost"; "127.0.0.1"]) then "ws" else "wss")
        +:+ "://" +:+ host c +:+ ":" +:+ pretty (port c)
  | None =>
      (if bool_decide (host c ∈ ["localhost"; "127.0.0.1"]) then "ws" else "wss")
        +:+ "://" +:+ host c +:+ ":" +:+ pretty (port c)
  end.

Definition of_opt_str (o : option string) : pyval := from_option PStr PNone o.

Definition config_to_dict (c : LocalSandboxConfig) : list (string * pyval) :=
  [ ("workspace_path", PStr (workspace_path c));
    ("transport", PStr (transport_value (transport c)));
    ("tunnel_url", of_opt_str (tunnel_url c));
    ("host", PStr (host c));
    ("port", PInt (port c));
    ("auth_token", of_opt_str (auth_token c)) ].

Inductive config_error : Set :=
  | UnknownTransport (s : string)  (** [SandboxTransport(...)] raises ValueError *)
  | IllTyped.                      (** a value the annotations exclude *)

Definition opt_str_field (v : option pyval) : result config_error (option string) :=
  match v with
  | None | Some PNone => Ok None
  | Some (PStr s) => Ok (Some s)
  | Some _ => Err IllTyped
  end.
Definition str_field (dflt : string) (v : option pyval) : result config_error string :=
  match v with None => Ok dflt | Some (PStr s) => Ok s | Some _ => Err IllTyped end.
Definition int_field (dflt : Z) (v : option pyval) : result config_error Z :=
  match v with None => Ok dflt | Some (PInt z) => Ok z | Some _ => Err IllTyped end.

Definition config_from_dict (d : list (string * pyval))
    : result config_error LocalSandboxConfig :=
  ts ← str_field "websocket" (dget "transport" d);
  t ← of_option (parse_transport ts) (UnknownTransport ts);
  w ← str_field "/workspace" (dget "workspace_path" d);
  u ← opt_str_field (dget "tunnel_url" d);
  h ← str_field "localhost" (dget "host" d);
  p ← int_field 8765 (dget "port" d);
  a ← opt_str_field (dget "auth_token" d);
  mret (mkLocal w t u h p a).

Record ProjectSandbox : Type := mkSandbox {
  sandbox_type : SandboxType;
  status : ProjectSandboxStatus;
  last_accessed_at : Z;
  health_checked_at : option Z;
  error_message : option string;
  metadata : list (string * pyval);
  local_config : option LocalSandboxConfig;
}.

(** The constructor with [__post_init__]. *)
Definition new_sandbox (ty : SandboxType) (st : ProjectSandboxStatus) (now : Z)
    (meta : list (string * pyval)) (lc : option LocalSandboxConfig) : ProjectSandbox :=
  mkSandbox ty st now None None meta
    (match ty, lc with LOCAL, None => Some default_local_config | _, _ => lc end).

Definition set_status (st : ProjectSandboxStatus) (s : ProjectSandbox) : ProjectSandbox :=
  mkSandbox (sandbox_type s) st (last_accessed_at s) (health_checked_at s)
    (error_message s) (metadata s) (local_config s).

Definition mark_accessed (now : Z) (s : ProjectSandbox) : ProjectSandbox :=
  mkSandbox (sandbox_type s) (status s) now (health_checked_at s) (error_message s)
    (metadata s) (local_config s).
Definition mark_healthy (now : Z) (s : ProjectSandbox) : ProjectSandbox :=
  mkSandbox (sandbox_type s) RUNNING (last_accessed_at s) (Some now) None
    (metadata s) (local_config s).
Definition mark_error (error : string) (s : ProjectSandbox) : ProjectSandbox :=
  mkSandbox (sandbox_type s) ERROR (last_accessed_at s) (health_checked_at s) (Some error)
    (metadata s) (local_config s).
Definition mark_unhealthy (reason : option string) (s : ProjectSandbox) : ProjectSandbox :=
  mark_error (match reason with Some r => if truthy r then r else "Unhealthy"
                              | None => "Unhealthy" end) s.
Definition mark_terminated (s : ProjectSandbox) : ProjectSandbox := set_status TERMINATED s.
Definition mark_stopped (s : ProjectSandbox) : ProjectSandbox := mark_terminated s.
Definition mark_connecting (s : ProjectSandbox) : ProjectSandbox := set_status STARTING s.
Definition mark_disconnected (s : ProjectSandbox) : ProjectSandbox := mark_error "Disconnected" s.
Definition mark_orphan (s : ProjectSandbox) : ProjectSandbox :=
  mkSandbox (sandbox_type s) ERROR (last_accessed_at s) (health_checked_at s)
    (error_message s) (dset "orphan" (PBool true) (metadata s)) (local_config s).
Definition mark_creating (s : ProjectSandbox) : ProjectSandbox := set_status STARTING s.

(** [self.metadata.get("orphan", False)], as its truth value. *)
Definition is_orphan (s : ProjectSandbox) : bool :=
  from_option py_truth false (dget "orphan" (metadata s)).
Definition can_adopt (s : ProjectSandbox) : bool := is_orphan s.
Definition is_local (s : ProjectSandbox) : bool := bool_decide (sandbox_type s = LOCAL).
Definition is_cloud (s : ProjectSandbox) : bool := bool_decide (sandbox_type s = CLOUD).
Definition is_active (s : ProjectSandbox) : bool :=
  bool_decide (status s ∈ [RUNNING; STARTING; CREATING; CONNECTING]).
Definition is_usable (s : ProjectSandbox) : bool := bool_decide (status s = RUNNING).
Definition needs_health_check (now max_age_seconds : Z) (s : ProjectSandbox) : bool :=
  match health_checked_at s with
  | None => true
  | Some t => bool_decide (max_age_seconds * 1000000 < now - t)%Z
  end.
Definition get_connection_url (s : ProjectSandbox) : option string :=
  if is_local s then get_websocket_url <$> local_config s else None.

Inductive sandbox_error : Set := ConfigOnCloud.
Definition update_local_config (c : LocalSandboxConfig)
    : M ProjectSandbox sandbox_error unit :=
  s ← mget;
  mguard (is_local s) ConfigOnCloud;;
  mmodify (λ s, mkSandbox (sandbox_type s) (status s) (last_accessed_at s)
    (health_checked_at s) (error_message s)
    (dset "local_config" (PDict (config_to_dict c)) (metadata s)) (Some c)).

(** The entity's mutators as one set of commands. *)
Inductive mark : Set :=
  | Accessed (now : Z) | Healthy (now : Z) | Unhealthy (r : option string) | Error (e : string)
  | Stopped | Terminated | Connecting | Disconnected | Orphan | Creating.
Definition apply_mark (m : mark) : ProjectSandbox → ProjectSandbox :=
  match m with
  | Accessed now => mark_accessed now
  | Healthy now => mark_healthy now
  | Unhealthy r => mark_unhealthy r
  | Error e => mark_error e
  | Stopped => mark_stopped
  | Terminated => mark_terminated
  | Connecting => mark_connecting
  | Disconnected => mark_disconnected
  | Orphan => mark_orphan
  | Creating => mark_creating
  end.
Definition preferred (st : ProjectSandboxStatus) : bool :=
  bool_decide (st ∈ [STARTING; RUNNING; ERROR; TERMINATED]).
End Sandbox.

Module SimplifiedSM.

Inductive SimplifiedSandboxState : Set := STARTING | RUNNING | ERROR | TERMINATED.

#[global] Instance Simplified_eq_dec : EqDecision SimplifiedSandboxState.
Proof. solve_decision. Defined.

Definition VALID_TRANSITIONS : list (StateTransition SimplifiedSandboxState) :=
  [ mkTransition STARTING RUNNING "Sandbox started successfully";
    mkTransition STARTING ERROR "Sandbox start failed";
    mkTransition RUNNING ERROR "Runtime error or health check failed";
    mkTransition RUNNING TERMINATED "Sandbox terminated";
    mkTransition ERROR STARTING "Retrying after error";
    mkTransition ERROR TERMINATED "Error sandbox terminated" ].
Definition TERMINAL_STATES : list SimplifiedSandboxState := [TERMINATED].
Definition USABLE_STATES : list SimplifiedSandboxState := [RUNNING].
Definition ACTIVE_STATES : list SimplifiedSandboxState := [STARTING; RUNNING].
Definition RECOVERABLE_STATES : list SimplifiedSandboxState := [ERROR].

(** The two class-level dictionaries.  [Sandbox.STARTING] is not a key of
    the first one. *)
Definition LEGACY_TO_SIMPLIFIED_MAP :
    list (Sandbox.ProjectSandboxStatus * SimplifiedSandboxState) :=
  [ (Sandbox.PENDING, STARTING); (Sandbox.CREATING, STARTING); (Sandbox.CONNECTING, STARTING);
    (Sandbox.RUNNING, RUNNING);
    (Sandbox.UNHEALTHY, ERROR); (Sandbox.ERROR, ERROR); (Sandbox.DISCONNECTED, ERROR);
    (Sandbox.STOPPED, TERMINATED); (Sandbox.TERMINATED, TERMINATED);
    (Sandbox.ORPHAN, ERROR) ].
Definition SIMPLIFIED_TO_LEGACY_MAP :
    list (SimplifiedSandboxState * Sandbox.ProjectSandboxStatus) :=
  [ (STARTING, Sandbox.CREATING); (RUNNING, Sandbox.RUNNING); (ERROR, Sandbox.ERROR);
    (TERMINATED, Sandbox.TERMINATED) ].

Definition transition_map : list (SimplifiedSandboxState * list SimplifiedSandboxState) :=
  table_map VALID_TRANSITIONS.
Definition can_transition : SimplifiedSandboxState → SimplifiedSandboxState → bool :=
  table_can_transition VALID_TRANSITIONS TERMINAL_STATES.
Definition transition :
    SimplifiedSandboxState → SimplifiedSandboxState → option string →
    result (transition_error SimplifiedSandboxState) SimplifiedSandboxState :=
  table_transition VALID_TRANSITIONS TERMINAL_STATES.
Definition get_valid_transitions : SimplifiedSandboxState → list SimplifiedSandboxState :=
  table_valid_transitions VALID_TRANSITIONS TERMINAL_STATES.
Definition is_usable (status : SimplifiedSandboxState) : bool :=
  bool_decide (status ∈ USABLE_STATES).
Definition is_active (status : SimplifiedSandboxState) : bool :=
  bool_decide (status ∈ ACTIVE_STATES).
Definition is_terminal (status : SimplifiedSandboxState) : bool :=
  bool_decide (status ∈ TERMINAL_STATES).
Definition is_recoverable (status : SimplifiedSandboxState) : bool :=
  bool_decide (status ∈ RECOVERABLE_STATES).
Definition get_transition_description :
    SimplifiedSandboxState → SimplifiedSandboxState → option string :=
  table_description VALID_TRANSITIONS.

Inductive mapping_error : Set :=
  | UnknownLegacy (st : Sandbox.ProjectSandboxStatus)
  | UnknownSimplified (st : SimplifiedSandboxState).
Definition legacy_to_simplified (st : Sandbox.ProjectSandboxStatus)
    : result mapping_error SimplifiedSandboxState :=
  of_option (dget st LEGACY_TO_SIMPLIFIED_MAP) (UnknownLegacy st).
Definition simplified_to_legacy (st : SimplifiedSandboxState)
    : result mapping_error Sandbox.ProjectSandboxStatus :=
  of_option (dget st SIMPLIFIED_TO_LEGACY_MAP) (UnknownSimplified st).

#[global] Instance simplified_machine : Machine SimplifiedSandboxState := {
  mstep := can_transition;
  mfinal := is_terminal;
  mfinal_stuck := table_final_stuck VALID_TRANSITIONS TERMINAL_STATES;
}.

(** The ten statuses of the detailed machine as values of the entity's
    enumeration (same names, same string values). *)
Definition to_entity (s : SandboxSM.ProjectSandboxStatus) : Sandbox.ProjectSandboxStatus :=
  match s with
  | SandboxSM.PENDING => Sandbox.PENDING
  | SandboxSM.CREATING => Sandbox.CREATING
  | SandboxSM.RUNNING => Sandbox.RUNNING
  | SandboxSM.UNHEALTHY => Sandbox.UNHEALTHY
  | SandboxSM.STOPPED => Sandbox.STOPPED
  | SandboxSM.TERMINATED => Sandbox.TERMINATED
  | SandboxSM.ERROR => Sandbox.ERROR
  | SandboxSM.CONNECTING => Sandbox.CONNECTING
  | SandboxSM.DISCONNECTED => Sandbox.DISCONNECTED
  | SandboxSM.ORPHAN => Sandbox.ORPHAN
  end.
Definition simplify (s : SandboxSM.ProjectSandboxStatus) : SimplifiedSandboxState :=
  match legacy_to_simplified (to_entity s) with Ok t => t | Err _ => ERROR end.
End SimplifiedSM.

(** * Properties *)

Lemma simplify_ok s : SimplifiedSM.legacy_to_simplified (SimplifiedSM.to_entity s)
                      = Ok (SimplifiedSM.simplify s).
Proof. by destruct s. Qed.

(** [can_transition] of the detailed machine agrees with its other two
    views of the table: a change is let through exactly when it is no
    change or [get_transition_description] knows it, and
    [get_valid_transitions] lists exactly the described changes. *)
Theorem sandbox_views_agree from to :
  (SandboxSM.can_transition from to = true ↔
     from = to ∨ is_Some (SandboxSM.get_transition_description from to)) ∧
  (to ∈ SandboxSM.get_valid_transitions from ↔
     is_Some (SandboxSM.get_transition_description from to)).
Proof.
  unfold SandboxSM.can_transition, SandboxSM.get_valid_transitions,
    SandboxSM.get_transition_description.
  rewrite table_can_transition_spec, table_valid_transitions_spec, table_description_is_Some.
  assert (∀ t, t ∈ SandboxSM.VALID_TRANSITIONS →
    from_status t ∉ SandboxSM.TERMINAL_STATES) as Hnt.
  { apply Forall_forall. repeat constructor; set_solver. }
  naive_solver.
Qed.

(** A path of allowed changes between two statuses, for the proof of
    [sandbox_reachability]. *)
Definition to_running (s : SandboxSM.ProjectSandboxStatus) : list SandboxSM.ProjectSandboxStatus :=
  match s with
  | SandboxSM.PENDING | SandboxSM.STOPPED | SandboxSM.ERROR => [SandboxSM.CREATING; SandboxSM.RUNNING]
  | SandboxSM.DISCONNECTED => [SandboxSM.CONNECTING; SandboxSM.RUNNING]
  | SandboxSM.RUNNING => []
  | _ => [SandboxSM.RUNNING]
  end.
Definition from_running (t : SandboxSM.ProjectSandboxStatus) : list SandboxSM.ProjectSandboxStatus :=
  match t with
  | SandboxSM.RUNNING => []
  | SandboxSM.CREATING => [SandboxSM.STOPPED; SandboxSM.CREATING]
  | SandboxSM.CONNECTING => [SandboxSM.DISCONNECTED; SandboxSM.CONNECTING]
  | t => [t]
  end.

Lemma sandbox_entered x y :
  SandboxSM.can_transition x y = true → x ≠ y →
  y ≠ SandboxSM.PENDING ∧ y ≠ SandboxSM.ORPHAN.
Proof. destruct x, y; vm_compute; intros; try discriminate; split; congruence. Qed.

(** Reachability in the detailed machine, completely: from any status
    but TERMINATED every status can be reached except PENDING and ORPHAN,
    which are only ever initial; TERMINATED is absorbing. *)
Theorem sandbox_reachability (s t : SandboxSM.ProjectSandboxStatus) :
  mreach s t ↔
  s = t ∨ (s ≠ SandboxSM.TERMINATED ∧ t ≠ SandboxSM.PENDING ∧ t ≠ SandboxSM.ORPHAN).
Proof.
  split.
  - intros Hr. destruct (decide (s = t)) as [|Hst]; [by left|right]. split.
    { intros ->. destruct Hst. symmetry. by apply final_absorbing. }
    revert Hst. induction Hr as [s|x y z Hxy _ IH]; [done|]. intros Hxz.
    destruct (decide (y = z)) as [->|Hyz]; [|auto].
    apply (sandbox_entered x); [exact Hxy|done].
  - intros [->|(Hs & Hp & Ho)]; [apply mreach_refl|].
    apply (mreach_trans _ SandboxSM.RUNNING).
    + apply (reach_by_path _ _ (to_running s)); destruct s; try reflexivity; done.
    + apply (reach_by_path _ _ (from_running t)); destruct t; try reflexivity; done.
Qed.

(** The simplified machine against the detailed one: mapping the
    statuses with [legacy_to_simplified], every detailed change is a
    change (or none) of the simplified machine, except exactly the three
    listed; a stopped sandbox restarting, and recovery to RUNNING without
    passing through STARTING. *)
Theorem simplified_simulates_except (s t : SandboxSM.ProjectSandboxStatus) :
  status_map_sim SimplifiedSM.simplify s t ↔
  (s, t) ∉ [ (SandboxSM.STOPPED, SandboxSM.CREATING);
             (SandboxSM.UNHEALTHY, SandboxSM.RUNNING);
             (SandboxSM.ORPHAN, SandboxSM.RUNNING) ].
Proof.
  unfold status_map_sim. split.
  - intros Hsim Hin.
    rewrite !elem_of_cons, elem_of_nil in Hin.
    destruct Hin as [[= -> ->]|[[= -> ->]|[[= -> ->]|[]]]];
      destruct (Hsim eq_refl) as [H|H]; vm_compute in H; discriminate H.
  - intros Hn Hst.
    assert (bool_decide (SimplifiedSM.simplify s = SimplifiedSM.simplify t)
            || SimplifiedSM.can_transition (SimplifiedSM.simplify s) (SimplifiedSM.simplify t)
            = true) as Hb.
    { revert Hst. change (mstep s t) with (SandboxSM.can_transition s t).
      destruct s, t; vm_compute; intros H; try discriminate H; try reflexivity;
        exfalso; apply Hn; repeat (first [left; reflexivity|right]). }
    apply orb_true_iff in Hb as [Hb|Hb]; [left; by apply bool_decide_eq_true in Hb|by right].
Qed.

(** The two mappings: [simplified_to_legacy] never raises and
    [legacy_to_simplified] undoes it; [legacy_to_simplified] raises on
    exactly one status, STARTING, which is the default status of a new
    [ProjectSandbox]. *)
Theorem legacy_mapping_roundtrip :
  (∀ s, ∃ l, SimplifiedSM.simplified_to_legacy s = Ok l ∧
             SimplifiedSM.legacy_to_simplified l = Ok s) ∧
  (∀ l, SimplifiedSM.legacy_to_simplified l = Err (SimplifiedSM.UnknownLegacy l)
        ↔ l = Sandbox.STARTING).
Proof.
  split.
  - intros s. destruct s; eexists; split; reflexivity.
  - intros l. destruct l; split; intros H; first [reflexivity|discriminate H|done].
Qed.

(** A local configuration written to the metadata by
    [update_local_config] reads back as itself, on a local sandbox; on a
    cloud sandbox the method raises and changes nothing. *)
Theorem local_config_roundtrip (c : Sandbox.LocalSandboxConfig) (s : Sandbox.ProjectSandbox) :
  match Sandbox.update_local_config c s with
  | (s', Ok _) =>
      Sandbox.is_local s = true ∧ Sandbox.local_config s' = Some c ∧
      ∃ d, dget "local_config" (Sandbox.metadata s') = Some (PDict d) ∧
           Sandbox.config_from_dict d = Ok c
  | (s', Err _) => Sandbox.is_cloud s = true ∧ s' = s
  end.
Proof.
  destruct s as [ty st la hc em md lc].
  unfold Sandbox.update_local_config, Sandbox.is_local, Sandbox.is_cloud; simpl.
  destruct ty; simpl; [done|].
  repeat split. rewrite dget_dset_eq. eexists; split; [done|].
  by destruct c as [w [] [] h p []].
Qed.

(** What the entity's mutators do, seen as a status and an orphan flag. *)
Definition spec_mark (m : Sandbox.mark) (st : Sandbox.ProjectSandboxStatus * bool)
    : Sandbox.ProjectSandboxStatus * bool :=
  match m with
  | Sandbox.Accessed _ => st
  | Sandbox.Healthy _ => (Sandbox.RUNNING, st.2)
  | Sandbox.Stopped | Sandbox.Terminated => (Sandbox.TERMINATED, st.2)
  | Sandbox.Connecting | Sandbox.Creating => (Sandbox.STARTING, st.2)
  | Sandbox.Unhealthy _ | Sandbox.Error _ | Sandbox.Disconnected => (Sandbox.ERROR, st.2)
  | Sandbox.Orphan => (Sandbox.ERROR, true)
  end.
Definition sandbox_view (s : Sandbox.ProjectSandbox) : Sandbox.ProjectSandboxStatus * bool :=
  (Sandbox.status s, Sandbox.is_orphan s).

Lemma apply_mark_view m s : sandbox_view (Sandbox.apply_mark m s) = spec_mark m (sandbox_view s).
Proof.
  destruct s, m; try reflexivity. unfold sandbox_view, Sandbox.is_orphan; simpl.
  by rewrite dget_dset_eq.
Qed.

(** The entity refines a two-field specification: under any sequence of
    [mark_*] calls the status and the orphan flag evolve as [spec_mark]
    says; so a legacy status is never produced, and the orphan flag, once
    set, is never cleared (an adopted orphan stays one). *)
Theorem marks_refine_spec (ms : list Sandbox.mark) (s : Sandbox.ProjectSandbox) :
  let s' := foldl (λ s m, Sandbox.apply_mark m s) s ms in
  sandbox_view s' = foldl (λ st m, spec_mark m st) (sandbox_view s) ms ∧
  (Sandbox.preferred (Sandbox.status s) = true → Sandbox.preferred (Sandbox.status s') = true) ∧
  (Sandbox.is_orphan s = true → Sandbox.can_adopt s' = true).
Proof.
  simpl. revert s. induction ms as [|m ms IH]; intros s; simpl; [auto|].
  destruct (IH (Sandbox.apply_mark m s)) as (H1 & H2 & H3).
  rewrite apply_mark_view in H1. split; [done|].
  pose proof (f_equal fst (apply_mark_view m s)) as Hst.
  pose proof (f_equal snd (apply_mark_view m s)) as Ho. simpl in Hst, Ho.
  split; intros H.
  - apply H2. rewrite Hst. by destruct m.
  - apply H3. rewrite Ho. by destruct m.
Qed.
