(* ===== verification/Kahn.v ===== *)
(** Kahn's algorithm, abstractly.

    The plan's [topological_order] and the agent graph's [_detect_cycles]
    are the same algorithm over different data.  [kstep] is one round of it
    as a relation that leaves the queue discipline open; both loops refine
    it.  The theory: the invariant, that a finished run visits every node
    exactly when the graph is acyclic, and that the visited nodes come
    after their predecessors. *)

From S2P Require Import Prelude.

Section kahn.
Context {K : Type} `{EqDecision K}.
Context (nodes : list K) (preds : K → list K).
Context (nodes_nodup : NoDup nodes).
Context (preds_in : ∀ n p, n ∈ nodes → p ∈ preds n → p ∈ nodes).

Record kstate : Type := KState { indeg : K → Z; queue : list K; order : list K }.

(** The number of edges from [x] to [n]. *)
Definition edges_to (x n : K) : Z := Z.of_nat (length (filter (.= x) (preds n))).

Definition kinit (s : kstate) : Prop :=
  (∀ n, n ∈ nodes → indeg s n = Z.of_nat (length (preds n))) ∧
  queue s ≡ₚ filter (λ n, indeg s n = 0%Z) nodes ∧
  order s = [].

Definition kstep (s s' : kstate) : Prop :=
  ∃ x q, queue s ≡ₚ x :: q ∧
    order s' = order s ++ [x] ∧
    (∀ n, n ∈ nodes → indeg s' n = (indeg s n - edges_to x n)%Z) ∧
    queue s' ≡ₚ q ++ filter (λ n, x ∈ preds n ∧ indeg s' n = 0%Z) nodes.

Record kinv (s : kstate) : Prop := {
  kinv_nodup : NoDup (order s ++ queue s);
  kinv_sub : ∀ n, n ∈ order s ++ queue s → n ∈ nodes;
  kinv_deg : ∀ n, n ∈ nodes →
    indeg s n = Z.of_nat (length (filter (.∉ order s) (preds n)));
  kinv_zero : ∀ n, n ∈ nodes → indeg s n = 0%Z ↔ n ∈ order s ++ queue s;
  kinv_topo : ∀ o1 n o2, order s = o1 ++ n :: o2 → ∀ p, p ∈ preds n → p ∈ o1;
}.

Lemma filter_split_length (x : K) (o l : list K) :
  x ∉ o →
  length (filter (.∉ o) l) = length (filter (.∉ o ++ [x]) l) + length (filter (.= x) l).
Proof.
  intros Hx. induction l as [|y l IH]; [done|].
  rewrite !filter_cons. repeat case_decide; simpl; set_solver by lia.
Qed.

Lemma filter_length_zero (P : K → Prop) `{∀ x, Decision (P x)} l p :
  Z.of_nat (length (filter P l)) = 0%Z → p ∈ l → ¬ P p.
Proof.
  intros Hl Hp HP. assert (p ∈ filter P l) as Hin by (by apply list_elem_of_filter).
  destruct (filter P l); [by apply elem_of_nil in Hin|]. simpl in Hl. lia.
Qed.

Lemma edges_to_pos x n : x ∈ preds n → (0 < edges_to x n)%Z.
Proof.
  intros Hx. unfold edges_to.
  assert (x ∈ filter (.= x) (preds n)) as Hin by (by apply list_elem_of_filter).
  destruct (filter _ _); [set_solver|simpl; lia].
Qed.
Lemma edges_to_zero x n : x ∉ preds n → edges_to x n = 0%Z.
Proof.
  intros Hx. unfold edges_to.
  destruct (filter (.= x) (preds n)) as [|y l] eqn:E; [done|].
  assert (y ∈ filter (.= x) (preds n)) as [-> ?]%list_elem_of_filter by (rewrite E; left).
  done.
Qed.

Lemma kinv_init s : kinit s → kinv s.
Proof.
  intros (Hdeg & Hq & Ho).
  constructor; rewrite ?Ho; simpl.
  - rewrite Hq. by apply NoDup_filter.
  - intros n. rewrite Hq, list_elem_of_filter. tauto.
  - intros n Hn. rewrite Hdeg by done. f_equal. f_equal.
    induction (preds n) as [|p l IH]; [done|].
    rewrite filter_cons, decide_True by set_solver. by f_equal.
  - intros n Hn. rewrite Hq, list_elem_of_filter. tauto.
  - by intros [].
Qed.

Lemma kinv_step s s' : kinv s → kstep s s' → kinv s'.
Proof.
  intros [Hnd Hsub Hdeg Hzero Htopo] (x & q & Hq & Ho & Hd & Hq').
  assert (Hx : x ∈ order s ++ queue s) by (rewrite Hq; set_solver).
  assert (Hxn : x ∈ nodes) by auto.
  assert (Hnd1 : NoDup (order s ++ x :: q)) by (by rewrite <-Hq).
  apply NoDup_app in Hnd1 as (Hno & Hdisj & [Hxq Hnq]%NoDup_cons).
  assert (Hxo : x ∉ order s) by (intros ?; eapply Hdisj; [done|left]).
  assert (Hdeg' : ∀ n, n ∈ nodes →
    indeg s' n = Z.of_nat (length (filter (.∉ order s') (preds n)))).
  { intros n Hn. rewrite Hd, Hdeg, Ho by done. unfold edges_to.
    rewrite (filter_split_length x (order s) (preds n)) by done. lia. }
  assert (Hdz : ∀ n, n ∈ nodes → x ∈ preds n → indeg s n ≠ 0%Z).
  { intros n Hn Hp. pose proof (edges_to_pos x n Hp). pose proof (Hd n Hn).
    pose proof (Hdeg' n Hn). lia. }
  assert (Hmem : ∀ n, n ∈ order s' ++ queue s' ↔
    n ∈ order s ++ queue s ∨ (n ∈ nodes ∧ x ∈ preds n ∧ indeg s' n = 0%Z)).
  { intros n. rewrite Ho, Hq', Hq, !elem_of_app, list_elem_of_filter, elem_of_cons.
    set_solver. }
  constructor.
  - rewrite Ho, Hq', <-app_assoc. simpl.
    assert (NoDup ((order s ++ x :: q) ++ filter (λ n, x ∈ preds n ∧ indeg s' n = 0%Z) nodes))
      as Hall; [|by rewrite <-app_assoc in Hall].
    apply NoDup_app. split; [by rewrite <-Hq|]. split; [|by apply NoDup_filter].
    intros n Hn [[Hp _] Hnn]%list_elem_of_filter.
    rewrite <-Hq in Hn. apply Hzero in Hn; [|done]. by apply Hdz in Hp.
  - intros n [Hn|[Hn _]]%Hmem; auto.
  - done.
  - intros n Hn. rewrite Hmem, <-Hzero, Hd by done. split.
    + intros H0. destruct (decide (x ∈ preds n)) as [Hp|Hp]; [by right|left].
      rewrite edges_to_zero in H0 by done. lia.
    + intros [H0|(_ & _ & H0)]; [|done].
      rewrite edges_to_zero; [lia|]. intros Hp. by apply Hdz in Hp.
  - intros o1 n o2 Hos p Hp. rewrite Ho in Hos.
    destruct (decide (o2 = [])) as [->|Hne].
    + apply app_inj_tail in Hos as [<- <-].
      assert (Hz : indeg s x = 0%Z) by (by apply Hzero).
      rewrite Hdeg in Hz by done.
      destruct (decide (p ∈ order s)) as [|Hpo]; [done|].
      by destruct (filter_length_zero (.∉ order s) (preds x) p).
    + destruct (exists_last Hne) as (o2' & y & ->).
      rewrite app_comm_cons, app_assoc in Hos. apply app_inj_tail in Hos as [Hos _].
      by eapply Htopo.
Qed.

Lemma kinv_steps s s' : kinv s → rtc kstep s s' → kinv s'.
Proof. intros Hs. induction 1; eauto using kinv_step. Qed.

Lemma kinv_length s : kinv s → length (order s) + length (queue s) ≤ length nodes.
Proof.
  intros [Hnd Hsub _ _ _]. rewrite <-length_app.
  apply submseteq_length, NoDup_submseteq; auto.
Qed.

(** * Acyclicity *)

Definition kedge (p n : K) : Prop := n ∈ nodes ∧ p ∈ preds n.
Definition acyclic : Prop := ∀ x, ¬ tc kedge x x.

Lemma kedge_tc_in p n : tc kedge p n → p ∈ nodes ∧ n ∈ nodes.
Proof. induction 1 as [p n [Hn Hp]|p m n [Hm Hp] _ IH]; naive_solver. Qed.

Lemma kedge_tc_target p n : tc kedge p n → n ∈ nodes.
Proof. induction 1 as [p n [Hn Hp]|p m n [Hm Hp] _ IH]; done. Qed.

Lemma tc_unflip (R : relation K) x y : tc (flip R) x y → tc R y x.
Proof.
  induction 1 as [x y Hxy|x z y Hxz _ IH]; [by apply tc_once|].
  by apply tc_r with z.
Qed.

(** In an order that respects the edges, paths go forward. *)
Lemma topo_path_before o p n :
  (∀ o1 m o2, o = o1 ++ m :: o2 → ∀ q, q ∈ preds m → q ∈ o1) →
  tc kedge p n → ∀ o1 o2, o = o1 ++ n :: o2 → p ∈ o1.
Proof.
  clear nodes_nodup preds_in.
  intros Ht. induction 1 as [p n [_ Hp]|p m n [_ Hp] _ IH]; intros o1 o2 Ho; [eauto|].
  destruct (list_elem_of_split _ _ (IH _ _ Ho)) as (a & b & ->).
  rewrite <-app_assoc in Ho. simpl in Ho.
  specialize (Ht _ _ _ Ho _ Hp). set_solver.
Qed.

Lemma finished_all_acyclic s :
  kinv s → length (order s) = length nodes → acyclic.
Proof.
  intros Hinv Hlen x Hx.
  assert (Hin : x ∈ order s).
  { assert (nodes ≡ₚ order s) as <-.
    { symmetry. apply submseteq_length_Permutation; [|lia].
      apply NoDup_submseteq.
      - destruct Hinv as [Hnd _ _ _ _]. by apply NoDup_app in Hnd as (? & _).
      - intros n Hn. apply (kinv_sub _ Hinv). set_solver. }
    apply (kedge_tc_in x x Hx). }
  destruct (list_elem_of_split _ _ Hin) as (a & b & Hab).
  pose proof (topo_path_before _ _ _ (kinv_topo _ Hinv) Hx _ _ Hab) as Hxa.
  destruct Hinv as [Hnd _ _ _ _]. rewrite Hab in Hnd.
  apply NoDup_app in Hnd as (Hnd & _). apply NoDup_app in Hnd as (_ & Hd & _).
  apply (Hd x Hxa). left.
Qed.

(** Induction along the edges of an acyclic graph. *)
Lemma acyclic_ind (P : K → Prop) : acyclic →
  (∀ n, n ∈ nodes → (∀ p, p ∈ preds n → p ∈ nodes → P p) → P n) → ∀ n, n ∈ nodes → P n.
Proof.
  intros Hac HP n. assert (Hsn : sn (flip kedge) n).
  { apply tc_finite_sn.
    - intros x Hx. apply (Hac x). by apply tc_unflip in Hx.
    - exists nodes. intros y Hy. apply tc_unflip in Hy. by apply kedge_tc_in in Hy as [? ?]. }
  induction Hsn as [n _ IH]. intros Hn. apply HP; [done|]. intros p Hp Hpn. apply IH; [by split|done].
Qed.

(** With the queue empty and a node left over, the left-over nodes each
    have a left-over predecessor, hence a cycle. *)
Lemma acyclic_finished_all s :
  kinv s → queue s = [] → acyclic → length (order s) = length nodes.
Proof.
  intros Hinv Hq Hac.
  assert (Hall : ∀ n, n ∈ nodes → n ∈ order s).
  { apply acyclic_ind; [done|]. intros n Hn IH.
    destruct (decide (indeg s n = 0%Z)) as [Hz|Hnz].
    { apply (kinv_zero _ Hinv n Hn) in Hz. by rewrite Hq, app_nil_r in Hz. }
    rewrite (kinv_deg _ Hinv n Hn) in Hnz.
    destruct (filter (.∉ order s) (preds n)) as [|p l] eqn:E; [done|].
    assert (p ∈ filter (.∉ order s) (preds n)) as [Hpo Hp]%list_elem_of_filter by (rewrite E; left).
    destruct Hpo. apply IH; [done|]. by apply (preds_in n). }
  pose proof (kinv_length s Hinv).
  enough (length nodes ≤ length (order s)) by (rewrite Hq in *; simpl in *; lia).
  by apply submseteq_length, NoDup_submseteq.
Qed.

Lemma kahn_correct s : kinv s → queue s = [] → length (order s) = length nodes ↔ acyclic.
Proof. split; [by apply finished_all_acyclic|by apply acyclic_finished_all]. Qed.

Lemma finished_perm s : kinv s → length (order s) = length nodes → order s ≡ₚ nodes.
Proof.
  intros Hinv Hlen. apply submseteq_length_Permutation; [|lia].
  apply NoDup_submseteq.
  - destruct Hinv as [Hnd _ _ _ _]. by apply NoDup_app in Hnd as (? & _).
  - intros n Hn. apply (kinv_sub _ Hinv). set_solver.
Qed.
End kahn.
