(* ===== verification/Bfs.v ===== *)
(** Breadth-first traversal with a visited set.

    [SpawnManager.find_descendants] and the run registry's
    [list_descendant_runs] and [list_runs_for_requester] are the same
    loop over different data: a queue, a visited set and the list of what
    is reported.  [children] lists what the loop looks at below a node and
    [push] says which of these are reported and explored.  The theory: the
    reported nodes are exactly those reachable from the start, none twice,
    each after the node it was found from; and the fuel that suffices. *)

From S2P Require Import Prelude.

Section bfs.
Context {K : Type} `{EqDecision K}.
Context (children : K → list K) (push : K → bool).

Definition bfs_state : Type := list K * list K * list K.

(** One child of the node taken from the queue. *)
Definition visit (st : bfs_state) (c : K) : bfs_state :=
  let '(q, v, o) := st in
  if decide (c ∈ v) then st
  else if push c then (q ++ [c], v ++ [c], o ++ [c]) else (q, v ++ [c], o).

(** [while queue: ...]; [None] when the fuel runs out. *)
Fixpoint bfs (fuel : nat) (st : bfs_state) : option (list K) :=
  match fuel with
  | O => None
  | S fuel' =>
      match st with
      | ([], _, o) => Some o
      | (x :: q, v, o) => bfs fuel' (foldl visit (q, v, o) (children x))
      end
  end.

Definition bfs_edge (x y : K) : Prop := y ∈ children x ∧ push y = true.

Lemma bfs_fuel_S fuel : ∀ st o, bfs fuel st = Some o → bfs (S fuel) st = Some o.
Proof.
  induction fuel as [|fuel IH]; intros [[[|x q] v] o1] o; [done..|done|].
  intros H. apply IH in H. exact H.
Qed.
Lemma bfs_fuel_mono fuel fuel' st o :
  bfs fuel st = Some o → fuel ≤ fuel' → bfs fuel' st = Some o.
Proof. intros H. induction 1; eauto using bfs_fuel_S. Qed.

Section run.
Context (q0 v0 : list K).

(** [done] is what was taken from the queue so far. *)
Record bfs_inv (done : list K) (st : bfs_state) : Prop := {
  bi_explored : done ++ st.1.1 ≡ₚ q0 ++ st.2;
  bi_nodup : NoDup st.2;
  bi_fresh : ∀ x, x ∈ st.2 → x ∉ v0;
  bi_visited : ∀ x, x ∈ st.1.2 → push x = true → x ∈ v0 ∨ x ∈ st.2;
  bi_incl : ∀ x, x ∈ v0 ∨ x ∈ st.2 → x ∈ st.1.2;
  bi_from : ∀ o1 x o2, st.2 = o1 ++ x :: o2 → ∃ y, y ∈ q0 ++ o1 ∧ bfs_edge y x;
}.

Lemma bfs_inv_visit d x cs q v o :
  x ∈ d → (∀ c, c ∈ cs → c ∈ children x) → bfs_inv d (q, v, o) →
  bfs_inv d (foldl visit (q, v, o) cs) ∧
  (∀ c, c ∈ v ∨ c ∈ cs → c ∈ (foldl visit (q, v, o) cs).1.2).
Proof.
  intros Hx. revert q v o. induction cs as [|c cs IH]; intros q v o Hcs Hinv.
  { split; [done|set_solver]. }
  assert (Hinv' : bfs_inv d (visit (q, v, o) c) ∧ c ∈ (visit (q, v, o) c).1.2 ∧
    ∀ y, y ∈ v → y ∈ (visit (q, v, o) c).1.2).
  { destruct Hinv as [He Hn Hf Hv Hi Hfr]. simpl in *. case_decide as Hcv; [done|].
    destruct (push c) eqn:Hp; (split; [|set_solver]); constructor; simpl in *; try done.
    - rewrite !app_assoc, He. done.
    - apply NoDup_app. split; [done|]. split; [|apply NoDup_singleton].
      intros y Hy ->%list_elem_of_singleton. apply Hcv, Hi. by right.
    - intros y [?| ->%list_elem_of_singleton]%elem_of_app; [by apply Hf|].
      intros ?. apply Hcv, Hi. by left.
    - intros y [Hy| ->%list_elem_of_singleton]%elem_of_app Hpy; set_solver.
    - set_solver.
    - intros o1 y o2 Ho. destruct (decide (o2 = [])) as [->|Hne].
      + apply app_inj_tail in Ho as [-> ->]. exists x. split; [|split; [set_solver|done]].
        rewrite <-He. set_solver.
      + destruct (exists_last Hne) as (o2' & z & ->).
        rewrite app_comm_cons, app_assoc in Ho. apply app_inj_tail in Ho as [Ho _]. eauto.
    - intros y [Hy| ->%list_elem_of_singleton]%elem_of_app Hpy; [eauto|congruence].
    - set_solver. }
  destruct Hinv' as (Hinv' & Hc & Hmono). change (foldl visit (q, v, o) (c :: cs)) with (foldl visit (visit (q, v, o) c) cs).
  destruct (visit (q, v, o) c) as [[q1 v1] o1].
  destruct (IH q1 v1 o1) as [Hi Hsub]; [set_solver|done|]. split; [done|].
  intros y [Hy|[->|Hy]%elem_of_cons]; apply Hsub; auto.
Qed.

(** What the explored nodes point to has been visited. *)
Definition bfs_closed (done : list K) (st : bfs_state) : Prop :=
  ∀ x c, x ∈ done → c ∈ children x → c ∈ st.1.2.

Lemma bfs_correct_aux fuel : ∀ d st o,
  bfs_inv d st → bfs_closed d st → bfs fuel st = Some o →
  ∃ d' v, bfs_inv d' ([], v, o) ∧ bfs_closed d' ([], v, o).
Proof.
  induction fuel as [|fuel IH]; intros d [[[|x q] v] o1] o Hinv Hcl; [done..| |].
  - simpl. intros [= <-]. eauto.
  - intros Hb. assert (Hinv0 : bfs_inv (d ++ [x]) (q, v, o1)).
    { destruct Hinv as [He Hn Hf Hv Hi Hfr]; constructor; simpl in *; try done.
      by rewrite <-app_assoc. }
    destruct (bfs_inv_visit (d ++ [x]) x (children x) q v o1) as [Hi Hsub];
      [set_solver|done|done|].
    eapply IH; [exact Hi| |exact Hb].
    intros y c [Hy|Hy]%elem_of_app Hc; apply Hsub.
    + left. exact (Hcl y c Hy Hc).
    + right. set_solver.
Qed.

Lemma bfs_inv_start : bfs_inv [] (q0, v0, []).
Proof.
  constructor; simpl; try set_solver; [by rewrite app_nil_r|constructor|by intros []].
Qed.

Lemma bfs_path_inv o : (∀ o1 x o2, o = o1 ++ x :: o2 → ∃ y, y ∈ q0 ++ o1 ∧ bfs_edge y x) →
  ∀ n o1 x o2, length o1 ≤ n → o = o1 ++ x :: o2 → ∃ y, y ∈ q0 ∧ tc bfs_edge y x.
Proof.
  intros Hfr. induction n as [|n IH]; intros o1 x o2 Hn Ho;
    destruct (Hfr _ _ _ Ho) as (y & [Hy|Hy]%elem_of_app & Hyx);
    try (exists y; split; [done|by apply tc_once]).
  - destruct o1; [by apply elem_of_nil in Hy|simpl in Hn; lia].
  - destruct (list_elem_of_split _ _ Hy) as (a & b & ->).
    destruct (IH a y (b ++ x :: o2)) as (z & Hz & Hzy).
    + rewrite length_app in Hn. simpl in Hn. lia.
    + by rewrite Ho, <-app_assoc.
    + exists z. split; [done|]. by eapply tc_r.
Qed.

(** The result of a run from queue [q0] with [v0] already visited. *)
Lemma bfs_correct fuel o :
  (∀ x, x ∈ v0 → x ∈ q0) →
  bfs fuel (q0, v0, []) = Some o →
  NoDup o ∧
  (∀ x, x ∈ o ↔ x ∉ v0 ∧ ∃ y, y ∈ q0 ∧ tc bfs_edge y x) ∧
  (∀ o1 x o2, o = o1 ++ x :: o2 → ∃ y, y ∈ q0 ++ o1 ∧ bfs_edge y x).
Proof.
  intros Hv0 Hb.
  destruct (bfs_correct_aux fuel [] (q0, v0, []) o) as (d & v & [He Hn Hf Hv Hi Hfr] & Hcl);
    [apply bfs_inv_start|by intros ? ? ?%elem_of_nil|done|]. simpl in *.
  rewrite app_nil_r in He.
  split; [done|]. split; [|done]. intros x. split.
  - intros Hx. split; [auto|]. destruct (list_elem_of_split _ _ Hx) as (a & b & Hab).
    eapply (bfs_path_inv o Hfr (length a)); eauto.
  - intros (Hxv & y & Hy & Hp).
    assert (∀ z w, tc bfs_edge z w → z ∈ q0 ++ o → w ∈ q0 ++ o ∧ (w ∈ v0 ∨ w ∈ o)) as Hall.
    { assert (∀ z w, bfs_edge z w → z ∈ q0 ++ o → w ∈ v0 ∨ w ∈ o) as H1.
      { intros z w [Hzw Hpw] Hz. rewrite <-He in Hz. eauto. }
      induction 1 as [z w Hzw|z u w Hzu _ IH]; intros Hz.
      - destruct (H1 _ _ Hzw Hz); set_solver.
      - apply IH. destruct (H1 _ _ Hzu Hz); set_solver. }
    destruct (Hall _ _ Hp) as [_ [?|?]]; set_solver.
Qed.

(** Fuel: one round per start node and per reachable node. *)
Lemma bfs_total_aux (U : list K) :
  (∀ x c, c ∈ children x → push c = true → c ∈ U) →
  ∀ n d st, bfs_inv d st → length q0 + length U - length d < n → is_Some (bfs n st).
Proof.
  intros HU. 
  assert (HoU : ∀ d st, bfs_inv d st → length st.2 ≤ length U).
  { intros d st [_ Hn _ _ _ Hfr]. apply submseteq_length, NoDup_submseteq; [done|].
    intros x Hx. destruct (list_elem_of_split _ _ Hx) as (a & b & Hab).
    destruct (Hfr _ _ _ Hab) as (y & _ & [Hc Hp]). eauto. }
  induction n as [|n IH]; intros d [[[|x q] v] o] Hinv Hlt; [lia..|by eexists|].
  simpl. assert (Hinv0 : bfs_inv (d ++ [x]) (q, v, o)).
  { destruct Hinv as [He Hn Hf Hv Hi Hfr]; constructor; simpl in *; try done.
    by rewrite <-app_assoc. }
  destruct (bfs_inv_visit (d ++ [x]) x (children x) q v o) as [Hi _]; [set_solver|done|done|].
  eapply IH; [exact Hi|]. rewrite length_app; simpl.
  pose proof (HoU _ _ Hinv) as Hl. pose proof (Permutation_length (bi_explored _ _ Hinv)) as Hp.
  rewrite !length_app in Hp. simpl in *. lia.
Qed.

Lemma bfs_total (U : list K) fuel :
  (∀ x c, c ∈ children x → push c = true → c ∈ U) →
  length q0 + length U < fuel → is_Some (bfs fuel (q0, v0, [])).
Proof.
  intros HU Hf. eapply bfs_total_aux; [exact HU|apply bfs_inv_start|simpl; lia].
Qed.
End run.
End bfs.
