(* ===== verification/PyText.v ===== *)
(** [str], [repr] and [int] of the values that [json.loads] produces; floats.

    A character is a code point below 256.  ([int] of a text of more than
    4300 digits, which raises, is outside the model.) *)

From stdpp Require Import pretty.
From Stdlib Require Import QArith.
From S2P Require Import Prelude.
From Stdlib Require Import Ascii.

Open Scope string_scope.
Open Scope list_scope.
Open Scope nat_scope.

(** A finite float, without rounding, the two infinities and [nan]. *)
Inductive float : Type := Fin (q : Q) | Inf (positive : bool) | Nan.
(** [int(x)] of a finite float: towards zero. *)
Definition truncate_q (q : Q) : Z := Z.quot (Qnum q) (Zpos (Qden q)).
(** [c.lower()] of an ASCII character. *)
Definition lower (a : ascii) : ascii :=
  let n := nat_of_ascii a in if (65 <=? n) && (n <=? 90) then ascii_of_nat (n + 32) else a.

Fixpoint lower_str (s : string) : string :=
  match s with EmptyString => EmptyString | String c s' => String (lower c) (lower_str s') end.
(** [needle in s] *)
Fixpoint contains (needle s : string) : bool :=
  String.prefix needle s ||
  match s with EmptyString => false | String _ s' => contains needle s' end.
(** [s.split(sep, 1)[-1]]: what follows the first separator, or everything. *)
Fixpoint after_first (sep : ascii) (s : string) : option string :=
  match s with
  | EmptyString => None
  | String c s' => if Ascii.eqb c sep then Some s' else after_first sep s'
  end.
Definition last_part (sep : ascii) (s : string) : string := default s (after_first sep s).

Lemma prefix_spec p s : String.prefix p s = true ↔ ∃ t, s = p +:+ t.
Proof.
  revert s. induction p as [|c p IH]; intros [|d s]; simpl.
  - split; [by exists ""|done].
  - split; [by exists (String d s)|done].
  - split; [done|by intros [t ?]].
  - destruct (ascii_dec c d) as [->|Hne]; [|split; [done|intros [t Ht]; by injection Ht as ->]].
    rewrite IH. split; intros [t Ht]; exists t; [by rewrite Ht|by injection Ht].
Qed.
Lemma contains_spec needle s : contains needle s = true ↔ ∃ a b, s = a +:+ needle +:+ b.
Proof.
  induction s as [|c s IH]; cbn [contains]; rewrite orb_true_iff, prefix_spec.
  - split; [intros [[t Ht]|?]; [by exists "", t|done]|].
    intros ([|x a] & b & Hs); [left; by exists b|done].
  - rewrite IH. split.
    + intros [[t Ht]|(a & b & ->)]; [by exists "", t|by exists (String c a), b].
    + intros ([|x a] & b & Hs); [left; by exists b|]. right. injection Hs as _ ->. by exists a, b.
Qed.

(** * [repr] *)

Definition hex_digit (n : nat) : ascii := ascii_of_nat (if n <? 10 then 48 + n else 87 + n).
Definition quoted_char (quote c : ascii) : list ascii :=
  let n := nat_of_ascii c in
  if Ascii.eqb c quote || (n =? 92) then [ascii_of_nat 92; c]
  else if n =? 9 then [ascii_of_nat 92; "t"%char]
  else if n =? 10 then [ascii_of_nat 92; "n"%char]
  else if n =? 13 then [ascii_of_nat 92; "r"%char]
  else if (n <? 32) || ((127 <=? n) && (n <=? 160)) || (n =? 173)
  then [ascii_of_nat 92; "x"%char; hex_digit (n / 16); hex_digit (n mod 16)]
  else [c].
Definition str_repr (s : string) : string :=
  let l := String.list_ascii_of_string s in
  let single := ascii_of_nat 39 in let double := ascii_of_nat 34 in
  let quote := if existsb (Ascii.eqb single) l && negb (existsb (Ascii.eqb double) l)
               then double else single in
  String.string_of_list_ascii (quote :: concat (quoted_char quote <$> l) ++ [quote]).
Definition join_items (items : list string) : string := String.concat ", " items.
Fixpoint py_repr (v : pyval) : string :=
  match v with
  | PNone => "None"
  | PBool b => if b then "True" else "False"
  | PInt z => pretty z
  | PStr s => str_repr s
  | PList l => ("[" ++ join_items (py_repr <$> l) ++ "]")%string
  | PDict d => ("{" ++ join_items ((λ kv, str_repr kv.1 ++ ": " ++ py_repr kv.2)%string <$> d) ++ "}")%string
  end.
Definition py_str (v : pyval) : string := match v with PStr s => s | _ => py_repr v end.

(** * [int] *)

Definition int_digit (c : ascii) : option Z :=
  let n := nat_of_ascii c in
  if (48 <=? n) && (n <=? 57) then Some (Z.of_nat (n - 48)) else None.
(** Digits with single underscores between them; [last] says whether the
    character before was a digit. *)
Fixpoint int_digits (acc : Z) (last : bool) (s : list ascii) : option Z :=
  match s with
  | [] => if last then Some acc else None
  | c :: s' =>
      if Ascii.eqb c "_"%char then if last then int_digits acc false s' else None
      else d ← int_digit c; int_digits (10 * acc + d)%Z true s'
  end.
Definition int_of_string (s : string) : option Z :=
  match String.list_ascii_of_string (strip s) with
  | "-"%char :: ds => Z.opp <$> int_digits 0 false ds
  | "+"%char :: ds => int_digits 0 false ds
  | ds => int_digits 0 false ds
  end.
(** [int(v)]; [None] when it raises. *)
Definition py_int (v : pyval) : option Z :=
  match v with
  | PBool b => Some (if b then 1 else 0)%Z
  | PInt z => Some z
  | PStr s => int_of_string s
  | _ => None
  end.

Example repr_nested :
  py_str (PList [PStr "it's"; PInt (-3); PDict [("k", PBool true)]; PNone])
  = String.string_of_list_ascii (String.list_ascii_of_string "["
      ++ [ascii_of_nat 34] ++ String.list_ascii_of_string "it's" ++ [ascii_of_nat 34]
      ++ String.list_ascii_of_string ", -3, {'k': True}, None]").
Proof. vm_compute. reflexivity. Qed.
Example int_texts : py_int (PStr " -1_000 ") = Some (-1000)%Z ∧ py_int (PStr "1__0") = None ∧ py_int (PStr "") = None.
Proof. by vm_compute. Qed.
