(* ===== verification/Json.v ===== *)
(** JSON text: [json.dumps] and [json.loads] of the Python standard library.

    A character of a string is a code point below 256.  Numbers are
    integers: a document with a float, or with a character beyond, is outside
    the model ([None], as for a document that is not well-formed).  Loading
    what was dumped gives the value back. *)

From S2P Require Import Prelude.
From stdpp Require Import pretty.
From Stdlib Require Import Ascii.

Open Scope string_scope.
Open Scope list_scope.
Open Scope nat_scope.

Notation chars := (list ascii).

(** * Writing *)

Definition quote_char : ascii := ascii_of_nat 34.
Definition backslash : ascii := ascii_of_nat 92.
Definition lower_hex (n : nat) : ascii := ascii_of_nat (if n <? 10 then 48 + n else 87 + n).
Definition escape_char (ensure_ascii : bool) (c : ascii) : chars :=
  let n := nat_of_ascii c in
  if (n =? 34) || (n =? 92) then [backslash; c]
  else if n =? 10 then [backslash; "n"%char]
  else if n =? 13 then [backslash; "r"%char]
  else if n =? 9 then [backslash; "t"%char]
  else if n =? 12 then [backslash; "f"%char]
  else if n =? 8 then [backslash; "b"%char]
  else if (n <? 32) || (ensure_ascii && (127 <=? n)) then
    [backslash; "u"%char; "0"%char; "0"%char; lower_hex (n / 16); lower_hex (n mod 16)]
  else [c].
Definition str_body (ensure_ascii : bool) (s : string) : chars :=
  concat (escape_char ensure_ascii <$> String.list_ascii_of_string s).
Definition dump_str (ensure_ascii : bool) (s : string) : chars :=
  quote_char :: str_body ensure_ascii s ++ [quote_char].
Definition dump_int (z : Z) : chars := String.list_ascii_of_string (pretty z).
(** [sep.join(items)] *)
Fixpoint join_chars (sep : chars) (items : list chars) : chars :=
  match items with
  | [] => []
  | [x] => x
  | x :: items' => x ++ sep ++ join_chars sep items'
  end.
Definition comma : chars := [","; " "]%char.
Definition colon : chars := [":"; " "]%char.
Definition key_le (a b : string * chars) : bool := String.leb a.1 b.1.
Section writer.
Context (sort_keys ensure_ascii : bool).
Definition dump_fields (fields : list (string * chars)) : chars :=
  join_chars comma ((λ kv, dump_str ensure_ascii kv.1 ++ colon ++ kv.2) <$>
                    (if sort_keys then sort_by key_le fields else fields)).
Fixpoint dump (v : pyval) : chars :=
  match v with
  | PNone => ["n"; "u"; "l"; "l"]%char
  | PBool true => ["t"; "r"; "u"; "e"]%char
  | PBool false => ["f"; "a"; "l"; "s"; "e"]%char
  | PInt z => dump_int z
  | PStr s => dump_str ensure_ascii s
  | PList l => "["%char :: join_chars comma (dump <$> l) ++ ["]"%char]
  | PDict d =>
      "{"%char ::
      dump_fields ((fix go (d : list (string * pyval)) : list (string * chars) :=
                      match d with [] => [] | (k, v) :: d' => (k, dump v) :: go d' end) d)
      ++ ["}"%char]
  end.
End writer.
(** [json.dumps(v, sort_keys=..., ensure_ascii=...)] *)
Definition json_dumps (sort_keys ensure_ascii : bool) (v : pyval) : string :=
  String.string_of_list_ascii (dump sort_keys ensure_ascii v).

(** * Reading *)

Definition is_ws (c : ascii) : bool :=
  bool_decide (nat_of_ascii c ∈ [32; 9; 10; 13]).
Fixpoint skip_ws (s : chars) : chars :=
  match s with c :: s' => if is_ws c then skip_ws s' else s | [] => [] end.
Definition digit (c : ascii) : option nat :=
  let n := nat_of_ascii c in if (48 <=? n) && (n <=? 57) then Some (n - 48) else None.
Definition hex_value (c : ascii) : option nat :=
  let n := nat_of_ascii c in
  if (48 <=? n) && (n <=? 57) then Some (n - 48)
  else if (97 <=? n) && (n <=? 102) then Some (n - 87)
  else if (65 <=? n) && (n <=? 70) then Some (n - 55)
  else None.
(** The inside of a string, up to its closing quote. *)
Fixpoint read_str (s : chars) : option (chars * chars) :=
  match s with
  | [] => None
  | c :: s1 =>
      let n := nat_of_ascii c in
      if n =? 34 then Some ([], s1)
      else if n =? 92 then
        match s1 with
        | e :: s2 =>
            let plain c := '(t, r) ← read_str s2; Some (c :: t, r) in
            let m := nat_of_ascii e in
            if (m =? 34) || (m =? 92) || (m =? 47) then plain e
            else if m =? 98 then plain (ascii_of_nat 8)
            else if m =? 102 then plain (ascii_of_nat 12)
            else if m =? 110 then plain (ascii_of_nat 10)
            else if m =? 114 then plain (ascii_of_nat 13)
            else if m =? 116 then plain (ascii_of_nat 9)
            else if m =? 117 then
              match s2 with
              | a :: b :: x :: y :: s3 =>
                  h1 ← hex_value a; h2 ← hex_value b; h3 ← hex_value x; h4 ← hex_value y;
                  if bool_decide (h1 = 0 ∧ h2 = 0) then
                    '(t, r) ← read_str s3; Some (ascii_of_nat (16 * h3 + h4) :: t, r)
                  else None
              | _ => None
              end
            else None
        | [] => None
        end
      else if n <? 32 then None
      else '(t, r) ← read_str s1; Some (c :: t, r)
  end.
Fixpoint read_digits (acc : N) (s : chars) : N * chars :=
  match s with
  | c :: s' =>
      match digit c with Some d => read_digits (10 * acc + N.of_nat d)%N s' | None => (acc, s) end
  | [] => (acc, [])
  end.
(** [None] in front of a fraction or an exponent. *)
Definition int_only {A} (v : A) (s : chars) : option (A * chars) :=
  match s with
  | c :: _ => if bool_decide (c ∈ ["."; "e"; "E"]%char) then None else Some (v, s)
  | [] => Some (v, [])
  end.
Definition read_nat (s : chars) : option (N * chars) :=
  match s with
  | c :: s' =>
      match digit c with
      | Some 0 => int_only 0%N s'
      | Some d => let '(n, r) := read_digits (N.of_nat d) s' in int_only n r
      | None => None
      end
  | [] => None
  end.
(** The rest of [s] after the character [c]. *)
Definition next_is (c : ascii) (s : chars) : option chars :=
  match s with x :: s' => if Ascii.eqb x c then Some s' else None | [] => None end.
Definition read_int (s : chars) : option (pyval * chars) :=
  match next_is "-" s with
  | Some s' => '(n, r) ← read_nat s'; Some (PInt (- Z.of_N n), r)
  | None => '(n, r) ← read_nat s; Some (PInt (Z.of_N n), r)
  end.
(** The rest of [s] after the word [w]. *)
Fixpoint strip_word (w s : chars) : option chars :=
  match w, s with
  | [], _ => Some s
  | a :: w', c :: s' => if Ascii.eqb a c then strip_word w' s' else None
  | _, [] => None
  end.

Section reader.
Context (value : chars → option (pyval * chars)).
Fixpoint read_items (n : nat) (s : chars) (acc : list pyval) : option (list pyval * chars) :=
  match n with
  | 0 => None
  | S n =>
      '(v, r) ← value s;
      match next_is "," (skip_ws r) with
      | Some r' => read_items n (skip_ws r') (acc ++ [v])
      | None => r' ← next_is "]" (skip_ws r); Some (acc ++ [v], r')
      end
  end.
Fixpoint read_fields (n : nat) (s : chars) (acc : list (string * pyval))
    : option (list (string * pyval) * chars) :=
  match n with
  | 0 => None
  | S n =>
      s1 ← next_is quote_char s;
      '(k, r) ← read_str s1;
      r1 ← next_is ":" (skip_ws r);
      '(v, r2) ← value (skip_ws r1);
      let acc := dset (String.string_of_list_ascii k) v acc in
      match next_is "," (skip_ws r2) with
      | Some r3 => read_fields n (skip_ws r3) acc
      | None => r3 ← next_is "}" (skip_ws r2); Some (acc, r3)
      end
  end.
End reader.
Fixpoint read (fuel : nat) (s : chars) : option (pyval * chars) :=
  match fuel, s with
  | S fuel, c :: s1 =>
      if Ascii.eqb c quote_char then
        '(t, r) ← read_str s1; Some (PStr (String.string_of_list_ascii t), r)
      else if Ascii.eqb c "["%char then
        let s2 := skip_ws s1 in
        match next_is "]" s2 with
        | Some r => Some (PList [], r)
        | None => '(l, r) ← read_items (read fuel) (length s2) s2 []; Some (PList l, r)
        end
      else if Ascii.eqb c "{"%char then
        let s2 := skip_ws s1 in
        match next_is "}" s2 with
        | Some r => Some (PDict [], r)
        | None => '(d, r) ← read_fields (read fuel) (length s2) s2 []; Some (PDict d, r)
        end
      else if Ascii.eqb c "n"%char then r ← strip_word ["u"; "l"; "l"]%char s1; Some (PNone, r)
      else if Ascii.eqb c "t"%char then r ← strip_word ["r"; "u"; "e"]%char s1; Some (PBool true, r)
      else if Ascii.eqb c "f"%char then
        r ← strip_word ["a"; "l"; "s"; "e"]%char s1; Some (PBool false, r)
      else read_int s
  | _, _ => None
  end.
(** [json.loads(s)] *)
Definition json_loads (s : string) : option pyval :=
  let cs := String.list_ascii_of_string s in
  '(v, r) ← read (S (length cs)) (skip_ws cs);
  match skip_ws r with [] => Some v | _ => None end.

(** * Loading what was dumped *)

(** What may follow a number. *)
Definition follows (s : chars) : Prop :=
  match s with c :: _ => digit c = None ∧ c ∉ ["."; "e"; "E"]%char | [] => True end.

Lemma follows_close c s : c ∈ ["]"; "}"]%char → follows (c :: s).
Proof. rewrite !elem_of_cons, elem_of_nil. intros [->|[->|[]]]; split; vm_decide. Qed.
Lemma follows_comma s : follows (comma ++ s).
Proof. split; vm_decide. Qed.
Lemma read_escaped ea c t : read_str (escape_char ea c ++ t) =
  ('(x, r) ← read_str t; Some (c :: x, r)).
Proof. destruct ea, c as [[] [] [] [] [] [] [] []]; reflexivity. Qed.
Lemma read_str_body ea s rest :
  read_str (str_body ea s ++ quote_char :: rest) = Some (String.list_ascii_of_string s, rest).
Proof.
  unfold str_body. induction (String.list_ascii_of_string s) as [|c l IH]; [done|].
  rewrite fmap_cons. cbn [concat]. rewrite <-app_assoc, read_escaped. by rewrite IH.
Qed.

(** Numbers. *)
Lemma digit_char x : (x < 10)%N → digit (pretty_N_char x) = Some (N.to_nat x).
Proof.
  intros H. assert (x ∈ [0; 1; 2; 3; 4; 5; 6; 7; 8; 9]%N) as Hx by (rewrite !elem_of_cons; lia).
  rewrite !elem_of_cons, elem_of_nil in Hx.
  destruct Hx as [->|[->|[->|[->|[->|[->|[->|[->|[->|[->|[]]]]]]]]]]]; reflexivity.
Qed.
Lemma go_cons x s : (0 < x)%N → String.list_ascii_of_string (pretty_N_go x s) =
  String.list_ascii_of_string (pretty_N_go (x `div` 10) (String (pretty_N_char (x `mod` 10)) s)).
Proof. intros. by rewrite pretty_N_go_step. Qed.
Lemma read_digits_go x s rest :
  read_digits 0 (String.list_ascii_of_string (pretty_N_go x s) ++ rest) =
  read_digits x (String.list_ascii_of_string s ++ rest).
Proof.
  revert s. induction x as [x IH] using (well_founded_induction N.lt_wf_0); intros s.
  destruct (decide (x = 0)%N) as [->|Hx]; [by rewrite pretty_N_go_0|].
  rewrite go_cons, IH by (try apply N.div_lt; lia). simpl.
  rewrite digit_char by (apply N.mod_lt; lia). rewrite N2Nat.id. f_equal.
  pose proof (N.Div0.div_mod x 10). lia.
Qed.
Lemma go_head x s : (0 < x)%N → ∃ c l d, String.list_ascii_of_string (pretty_N_go x s) = c :: l ∧
  digit c = Some (S d).
Proof.
  revert s. induction x as [x IH] using (well_founded_induction N.lt_wf_0); intros s Hx.
  rewrite go_cons by done. destruct (decide (x `div` 10 = 0)%N) as [H0|H0].
  - rewrite H0, pretty_N_go_0. assert (x < 10)%N by (apply N.div_small_iff in H0; lia).
    rewrite N.mod_small by done. eexists _, _, (pred (N.to_nat x)). split; [reflexivity|].
    rewrite digit_char by done. f_equal. lia.
  - apply IH; [apply N.div_lt; [done|reflexivity]|]. by apply N.neq_0_lt_0.
Qed.
Lemma read_digits_stop n rest : follows rest → read_digits n rest = (n, rest).
Proof. destruct rest as [|c rest]; [done|]. simpl. by intros [-> _]. Qed.
Lemma int_only_stop {A} (v : A) rest : follows rest → int_only v rest = Some (v, rest).
Proof. destruct rest as [|c rest]; [done|]. simpl. intros [_ ?]. by rewrite bool_decide_false. Qed.
Lemma read_nat_pretty n rest : follows rest →
  read_nat (String.list_ascii_of_string (pretty n) ++ rest) = Some (n, rest).
Proof.
  intros Hf. unfold pretty, pretty_N. case_decide as Hn; [subst n; by apply int_only_stop|].
  destruct (go_head n "") as (c & l & d & Hc & Hd); [lia|].
  pose proof (read_digits_go n "" rest) as Hr. rewrite Hc in *. simpl in *. rewrite Hd in *.
  replace (10 * 0 + N.of_nat (S d))%N with (N.of_nat (S d)) in Hr by lia.
  rewrite Hr, read_digits_stop by done. by apply int_only_stop.
Qed.
Lemma read_int_dump z rest : follows rest → read_int (dump_int z ++ rest) = Some (PInt z, rest).
Proof.
  intros Hf. unfold dump_int. destruct z as [|p|p].
  - change (read_int ("0"%char :: rest) = Some (PInt 0, rest)). unfold read_int. simpl.
    by rewrite int_only_stop.
  - destruct (go_head (N.pos p) "") as (c & l & d & Hc & Hd); [lia|].
    pose proof (read_nat_pretty (N.pos p) rest Hf) as Hr.
    change (pretty (Z.pos p)) with (pretty (N.pos p)).
    unfold pretty, pretty_N in *. rewrite decide_False in * by lia. rewrite Hc in *.
    unfold read_int. simpl app in *. unfold next_is.
    destruct (Ascii.eqb_spec c "-") as [->|]; [done|]. by rewrite Hr.
  - change (pretty (Z.neg p)) with (String "-" (pretty (N.pos p))).
    change (String.list_ascii_of_string (String "-" (pretty (N.pos p))) ++ rest)
      with ("-"%char :: (String.list_ascii_of_string (pretty (N.pos p)) ++ rest)).
    unfold read_int. cbn [next_is Ascii.eqb Bool.eqb]. by rewrite (read_nat_pretty (N.pos p) rest Hf).
Qed.

(** ** Values *)

(** A value whose dictionaries have no key twice, as every Python one. *)
Inductive json_wf : pyval → Prop :=
  | wf_none : json_wf PNone
  | wf_bool b : json_wf (PBool b)
  | wf_int z : json_wf (PInt z)
  | wf_str s : json_wf (PStr s)
  | wf_list l : (∀ v, v ∈ l → json_wf v) → json_wf (PList l)
  | wf_dict d : dict_wf d → (∀ kv, kv ∈ d → json_wf kv.2) → json_wf (PDict d).

Section roundtrip.
Context (ea : bool).
Notation dump := (dump false ea).

Lemma next_is_same c s : next_is c (c :: s) = Some s.
Proof. unfold next_is. by rewrite Ascii.eqb_refl. Qed.
(** No value starts with a blank or a closing bracket. *)
Definition starts (c : ascii) : Prop := is_ws c = false ∧ c ≠ "]"%char ∧ c ≠ "}"%char.
Lemma dump_dict d : dump (PDict d) = "{"%char :: dump_fields false ea (prod_map id dump <$> d) ++ ["}"%char].
Proof. simpl. do 3 f_equal. induction d as [|[k v] d IH]; [done|]. by rewrite IH. Qed.
Lemma dump_starts v : ∃ c l, dump v = c :: l ∧ starts c.
Proof.
  destruct v as [|[]|z|s|l|d]; try (eexists _, _; split; [reflexivity|done]).
  destruct z as [|p|p]; try (eexists _, _; split; [reflexivity|done]).
  destruct (go_head (N.pos p) "") as (c & l & d & Hc & Hd); [lia|].
  exists c, l. split; [exact Hc|]. split_and!; [|by intros ->..].
  destruct c as [[] [] [] [] [] [] [] []]; done.
Qed.
Lemma skip_ws_dump v rest : skip_ws (dump v ++ rest) = dump v ++ rest.
Proof. destruct (dump_starts v) as (c & l & -> & Hc & _). simpl. by rewrite Hc. Qed.
Lemma next_is_dump c v rest : c ∈ ["]"; "}"]%char → next_is c (dump v ++ rest) = None.
Proof.
  destruct (dump_starts v) as (x & l & -> & _ & H1 & H2). simpl. intros Hc.
  destruct (Ascii.eqb_spec x c) as [->|]; [|done]. rewrite !elem_of_cons, elem_of_nil in Hc. naive_solver.
Qed.

(** A parser that reads back the dump of [v] in front of what may follow. *)
Definition reads (value : chars → option (pyval * chars)) (v : pyval) : Prop :=
  ∀ rest, follows rest → value (dump v ++ rest) = Some (v, rest).

Lemma read_items_dump value l rest n acc : l ≠ [] → (∀ v, v ∈ l → reads value v) → length l ≤ n →
  read_items value n (join_chars comma (dump <$> l) ++ "]"%char :: rest) acc = Some (acc ++ l, rest).
Proof.
  revert n acc. induction l as [|v l IH]; intros n acc Hne Hr Hn; [done|].
  destruct n as [|n]; [simpl in Hn; lia|]. destruct l as [|w l].
  - simpl. rewrite (Hr v (list_elem_of_here _ _)) by (apply follows_comma || (apply follows_close; vm_decide)). reflexivity.
  - change (join_chars comma (dump <$> v :: w :: l))
      with (dump v ++ comma ++ join_chars comma (dump <$> w :: l)).
    rewrite <-!app_assoc. cbn [read_items]. rewrite (Hr v (list_elem_of_here _ _)) by (apply follows_comma || (apply follows_close; vm_decide)).
    cbv [mbind option_bind].
    change (skip_ws (comma ++ ?x)) with ("," :: " " :: x)%char.
    cbn [next_is Ascii.eqb Bool.eqb].
    replace (skip_ws _) with (join_chars comma (dump <$> w :: l) ++ "]"%char :: rest).
    + rewrite IH; [by rewrite <-app_assoc|done|intros; apply Hr; by right|simpl in *; lia].
    + change (skip_ws (" "%char :: ?x)) with (skip_ws x). symmetry. destruct l as [|w' l].
      * apply skip_ws_dump.
      * change (join_chars comma (dump <$> w :: w' :: l))
          with (dump w ++ comma ++ join_chars comma (dump <$> w' :: l)).
        rewrite <-app_assoc. apply skip_ws_dump.
Qed.
Lemma field_app k (x t : chars) : (dump_str ea k ++ colon ++ x) ++ t =
  quote_char :: str_body ea k ++ [quote_char] ++ colon ++ x ++ t.
Proof. unfold dump_str. simpl. f_equal. by rewrite <-!app_assoc. Qed.
Lemma read_fields_dump value d rest n acc : d ≠ [] → (∀ kv, kv ∈ d → reads value kv.2) →
  dict_wf (acc ++ d) → length d ≤ n →
  read_fields value n (dump_fields false ea (prod_map id dump <$> d) ++ "}"%char :: rest) acc =
  Some (acc ++ d, rest).
Proof.
  revert n acc. unfold dump_fields.
  induction d as [|[k v] d IH]; intros n acc Hne Hr Hwf Hn; [done|].
  destruct n as [|n]; [simpl in Hn; lia|].
  set (field := λ kv : string * chars, dump_str ea kv.1 ++ colon ++ kv.2) in *.
  assert (Hnew : dset k v acc = acc ++ [(k, v)]).
  { apply dset_new. unfold dict_wf, dkeys in Hwf. rewrite fmap_app, NoDup_app in Hwf.
    intros Hk. destruct Hwf as (_ & H & _). apply (H k Hk). by left. }
  assert (Hone : ∀ t, read_str (str_body ea k ++ [quote_char] ++ t) = Some (String.list_ascii_of_string k, t)).
  { intros t. apply read_str_body. }
  assert (Hskip : ∀ t, skip_ws (colon ++ t) = colon ++ t) by done.
  assert (Hval : ∀ t, follows t → value (skip_ws (" "%char :: dump v ++ t)) = Some (v, t)).
  { intros t Ht. change (skip_ws (" "%char :: ?x)) with (skip_ws x). rewrite skip_ws_dump.
    apply (Hr (k, v)); [by left|done]. }
  destruct d as [|kv d].
  - change (join_chars comma _) with (field (k, dump v)). unfold field. cbn [fst snd].
    rewrite field_app. cbn [read_fields].
    rewrite next_is_same. cbv [mbind option_bind]. rewrite Hone, Hskip. cbn [colon app]. rewrite next_is_same.
    rewrite Hval by (apply follows_close; vm_decide). cbn. by rewrite String.string_of_list_ascii_of_string, Hnew.
  - set (more := join_chars comma (field <$> (prod_map id dump <$> kv :: d))).
    change (join_chars comma _) with (field (k, dump v) ++ comma ++ more).
    unfold field at 1. cbn [fst snd].
    rewrite <-app_assoc, field_app. cbn [read_fields].
    rewrite next_is_same. cbv [mbind option_bind]. rewrite Hone, Hskip. cbn [colon app]. rewrite next_is_same.
    rewrite Hval by apply follows_comma. cbn [comma app].
    change (skip_ws (","%char :: ?x)) with (","%char :: x). rewrite next_is_same.
    rewrite String.string_of_list_ascii_of_string, Hnew. cbv beta iota zeta.
    change (skip_ws (" "%char :: ?x)) with (skip_ws x).
    replace (skip_ws (more ++ "}"%char :: rest)) with (more ++ "}"%char :: rest).
    + etrans; [apply (IH n (acc ++ [(k, v)]))|by rewrite <-app_assoc];
        [done|intros; apply Hr; by right|by rewrite <-app_assoc|simpl in *; lia].
    + unfold more. by destruct d.
Qed.

Lemma join_length_elem (sep : chars) x l : x ∈ l → length x ≤ length (join_chars sep l).
Proof.
  induction l as [|y l IH]; [by intros ?%elem_of_nil|]. intros [->|Hx]%elem_of_cons.
  - destruct l; [done|]. simpl. rewrite length_app. lia.
  - destruct l as [|z l]; [by apply elem_of_nil in Hx|].
    change (join_chars sep (y :: z :: l)) with (y ++ sep ++ join_chars sep (z :: l)).
    rewrite !length_app. specialize (IH Hx). lia.
Qed.
Lemma join_length_count (sep : chars) l : sep ≠ [] → length l ≤ S (length (join_chars sep l)).
Proof.
  intros Hs. assert (1 ≤ length sep) by (destruct sep; simpl; [done|lia]).
  induction l as [|y l IH]; [simpl; lia|].
  destruct l as [|z l]; [simpl; lia|].
  change (join_chars sep (y :: z :: l)) with (y ++ sep ++ join_chars sep (z :: l)).
  rewrite !length_app. simpl in *. lia.
Qed.
Lemma dump_field_length kv d : kv ∈ d → length (dump kv.2) ≤ length (dump_fields false ea (prod_map id dump <$> d)).
Proof.
  intros Hin. unfold dump_fields. etrans; [|apply (join_length_elem comma (dump_str ea kv.1 ++ colon ++ dump kv.2))].
  - rewrite !length_app. lia.
  - rewrite <-list_fmap_compose. apply list_elem_of_fmap. by exists kv.
Qed.

Lemma join_starts (c : ascii) (f : pyval → chars) x l rest :
  (∀ rest, next_is c (f x ++ rest) = None ∧ skip_ws (f x ++ rest) = f x ++ rest) →
  next_is c (join_chars comma (f <$> x :: l) ++ rest) = None ∧
  skip_ws (join_chars comma (f <$> x :: l) ++ rest) = join_chars comma (f <$> x :: l) ++ rest.
Proof.
  intros Hx. destruct l as [|y l]; [apply Hx|].
  change (join_chars comma (f <$> x :: y :: l)) with (f x ++ comma ++ join_chars comma (f <$> y :: l)).
  rewrite <-app_assoc. apply Hx.
Qed.

(** Reading with enough fuel gives back the value and stops behind it. *)
Lemma read_dump v : json_wf v → ∀ fuel, length (dump v) ≤ fuel → reads (read fuel) v.
Proof.
  induction 1 as [|b|z|s|l Hl IH|d Hd Hwf IH]; intros fuel Hf rest Hrest.
  - destruct fuel; [simpl in Hf; lia|reflexivity].
  - destruct fuel; [destruct b; simpl in Hf; lia|]. by destruct b.
  - destruct (dump_starts (PInt z)) as (c & l & Hc & Hws & _). simpl in *. rewrite Hc in Hf |- *.
    destruct fuel as [|fuel]; [simpl in Hf; lia|].
    assert (Hnum : c = "-"%char ∨ is_Some (digit c)).
    { destruct z as [|p|p].
      - injection Hc as <- <-. right. by eexists.
      - destruct (go_head (N.pos p) "") as (c' & l' & d & Hc' & Hd); [lia|].
        unfold dump_int in Hc. change (pretty (Z.pos p)) with (pretty_N_go (N.pos p) "") in Hc.
        rewrite Hc' in Hc. simplify_eq. right. by eexists.
      - injection Hc as <- <-. by left. }
    transitivity (read_int (c :: l ++ rest)).
    + simpl. destruct Hnum as [->|[d Hd]]; [done|].
      destruct c as [[] [] [] [] [] [] [] []]; done.
    + change (c :: l ++ rest) with ((c :: l) ++ rest). rewrite <-Hc. by apply read_int_dump.
  - destruct fuel as [|fuel]; [simpl in Hf; lia|]. cbn [Json.dump dump_str app read].
    rewrite Ascii.eqb_refl, <-app_assoc. simpl app. rewrite read_str_body.
    cbn. by rewrite String.string_of_list_ascii_of_string.
  - destruct fuel as [|fuel]; [simpl in Hf; lia|].
    destruct l as [|v l]; [reflexivity|].
    change (Json.dump false ea (PList (v :: l)))
      with ("["%char :: join_chars comma (dump <$> v :: l) ++ ["]"%char]) in *.
    set (body := join_chars comma (dump <$> v :: l)) in *.
    assert (Hb : ∀ x, x ∈ v :: l → length (dump x) ≤ length body).
    { intros x Hx. apply join_length_elem, list_elem_of_fmap. by exists x. }
    simpl app. rewrite <-app_assoc. simpl app. cbn [read].
    destruct (join_starts "]" dump v l ("]"%char :: rest)) as [Hn Hs].
    { intros r. split; [by apply next_is_dump; left|apply skip_ws_dump]. }
    fold body in Hn, Hs. rewrite Hs. cbn [Ascii.eqb quote_char ascii_of_nat]. simpl.
    rewrite Hn. unfold body. rewrite read_items_dump; [done|done| |].
    + intros x Hx. apply IH; [done|]. specialize (Hb x Hx). simpl in Hf. rewrite length_app in Hf. lia.
    + rewrite length_app. pose proof (join_length_count comma (dump <$> v :: l)) as Hc.
      rewrite length_fmap in Hc. specialize (Hc ltac:(done)). cbn [length] in Hc |- *. lia.
  - destruct fuel as [|fuel]; [rewrite dump_dict in Hf; simpl in Hf; lia|].
    rewrite dump_dict in *. destruct d as [|kv d]; [reflexivity|].
    set (body := dump_fields false ea (prod_map id dump <$> kv :: d)) in *.
    assert (Hs : skip_ws (body ++ "}"%char :: rest) = body ++ "}"%char :: rest ∧
                 next_is "}" (body ++ "}"%char :: rest) = None).
    { unfold body, dump_fields. by destruct d. }
    simpl app. rewrite <-app_assoc. simpl app. cbn [read]. destruct Hs as [Hs Hn].
    rewrite Hs. simpl. rewrite Hn. unfold body. rewrite read_fields_dump; [done|done| |done|].
    + intros x Hx. apply IH; [done|]. pose proof (dump_field_length x (kv :: d) Hx).
      fold body in H. simpl in Hf. rewrite length_app in Hf. lia.
    + unfold dump_fields. rewrite length_app.
      pose proof (join_length_count comma ((λ kv : string * chars, dump_str ea kv.1 ++ colon ++ kv.2) <$>
        (prod_map id dump <$> kv :: d))) as Hc.
      rewrite !length_fmap in Hc. specialize (Hc ltac:(done)). cbn [length] in Hc |- *. lia.
Qed.
End roundtrip.

(** [json.loads(json.dumps(v))] is [v]. *)
Lemma json_loads_dumps ea v : json_wf v → json_loads (json_dumps false ea v) = Some v.
Proof.
  intros Hv. unfold json_loads, json_dumps. rewrite String.list_ascii_of_string_of_list_ascii.
  pose proof (skip_ws_dump ea v []) as Hs. pose proof (read_dump ea v Hv (S (length (dump false ea v))) ltac:(lia) [] I) as Hr.
  rewrite app_nil_r in *. by rewrite Hs, Hr.
Qed.

(** ** Sorted keys *)

Definition field_le {A} (a b : string * A) : bool := String.leb a.1 b.1.
(** A value with the keys of its dictionaries in order. *)
Fixpoint sorted_value (v : pyval) : pyval :=
  match v with
  | PList l => PList (sorted_value <$> l)
  | PDict d =>
      PDict (sort_by field_le
        ((fix go (d : list (string * pyval)) : list (string * pyval) :=
            match d with [] => [] | (k, v) :: d' => (k, sorted_value v) :: go d' end) d))
  | _ => v
  end.
Definition sorted_dict (d : list (string * pyval)) : list (string * pyval) :=
  sort_by field_le (prod_map id sorted_value <$> d).
Lemma sorted_value_dict d : sorted_value (PDict d) = PDict (sorted_dict d).
Proof. unfold sorted_dict. simpl. do 2 f_equal. induction d as [|[k v] d IH]; [done|]. by rewrite IH. Qed.

Lemma sort_by_field {A B} (f : A → B) (l : list (string * A)) :
  sort_by field_le (prod_map id f <$> l) = prod_map id f <$> sort_by field_le l.
Proof.
  induction l as [|x l IH]; [done|]. rewrite fmap_cons. cbn [sort_by]. rewrite IH.
  generalize (sort_by field_le l). intros k. induction k as [|y k IHk]; [done|].
  rewrite fmap_cons. cbn [insert_by]. change (field_le (prod_map id f x) (prod_map id f y)) with (field_le x y).
  destruct (field_le x y); [done|]. by rewrite fmap_cons, IHk.
Qed.
Lemma dump_sorted ea v : dump true ea v = dump false ea (sorted_value v).
Proof.
  induction v as [|b|z|s|l IH|d IH] using pyval_nested_ind; [done..| |].
  - cbn [dump sorted_value]. do 3 f_equal. induction IH as [|v l Hv _ IHl]; [done|].
    rewrite !fmap_cons, Hv. by rewrite IHl.
  - rewrite sorted_value_dict, dump_dict. cbn [dump]. do 2 f_equal. unfold dump_fields, sorted_dict.
    do 2 f_equal. rewrite <-(sort_by_field (dump false ea)), <-list_fmap_compose.
    unfold key_le. change (λ a b : string * chars, String.leb a.1 b.1) with (@field_le chars). f_equal.
    induction IH as [|[k v] d Hv _ IHd]; [done|]. rewrite fmap_cons, <-IHd. cbn in *. by rewrite Hv.
Qed.
Lemma sorted_dict_perm d : sorted_dict d ≡ₚ prod_map id sorted_value <$> d.
Proof. apply sort_by_perm. Qed.
Lemma sorted_dict_keys d : dkeys (sorted_dict d) ≡ₚ dkeys d.
Proof. unfold dkeys. rewrite sorted_dict_perm, <-list_fmap_compose. done. Qed.
Lemma sorted_value_wf v : json_wf v → json_wf (sorted_value v).
Proof.
  induction 1 as [|b|z|s|l Hl IH|d Hd Hwf IH]; [constructor..| |].
  - constructor. intros v (x & -> & Hx)%list_elem_of_fmap. auto.
  - rewrite sorted_value_dict. constructor.
    + unfold dict_wf. by rewrite sorted_dict_keys.
    + intros kv. rewrite sorted_dict_perm. intros ([k v] & -> & Hx)%list_elem_of_fmap. apply (IH _ Hx).
Qed.
(** [json.loads(json.dumps(v, sort_keys=True))] is [v] but for the order of keys. *)
Lemma json_loads_sorted ea v : json_wf v → json_loads (json_dumps true ea v) = Some (sorted_value v).
Proof. intros Hv. unfold json_dumps. rewrite dump_sorted. by apply json_loads_dumps, sorted_value_wf. Qed.

Lemma dget_map {A B} (f : A → B) k (d : list (string * A)) : dget k (prod_map id f <$> d) = f <$> dget k d.
Proof. induction d as [|[k' v] d IH]; [done|]. simpl. by case_decide. Qed.
Lemma dget_perm {A} k (d e : list (string * A)) : dict_wf d → d ≡ₚ e → dget k d = dget k e.
Proof.
  intros Hd He. destruct (dget k d) as [v|] eqn:Hk; symmetry.
  - apply elem_of_dget; [unfold dict_wf, dkeys; by rewrite <-He|]. rewrite <-He. by apply dget_Some_elem.
  - rewrite dget_None_keys in *. unfold dkeys in *. by rewrite <-He.
Qed.
Lemma dget_sorted k d : dict_wf d → dget k (sorted_dict d) = sorted_value <$> dget k d.
Proof.
  intros Hd. rewrite <-dget_map. apply dget_perm; [|apply sorted_dict_perm].
  unfold dict_wf. by rewrite sorted_dict_keys.
Qed.
(** A decision procedure, for concrete values. *)
Fixpoint json_ok (v : pyval) : bool :=
  match v with
  | PList l => forallb json_ok l
  | PDict d => bool_decide (NoDup d.*1) && forallb (λ kv, json_ok kv.2) d
  | _ => true
  end.
Lemma json_ok_wf v : json_ok v = true → json_wf v.
Proof.
  induction v as [|b|z|s|l IH|d IH] using pyval_nested_ind; [constructor..| |].
  - cbn [json_ok]. rewrite forallb_elem, Forall_forall in *. intros H. constructor. auto.
  - cbn [json_ok]. intros [Hd H]%andb_true_iff. apply bool_decide_eq_true in Hd.
    rewrite forallb_elem, Forall_forall in *. constructor; [exact Hd|auto].
Qed.
