(* ===== verification/Datetime.v ===== *)
(** Instants: the timezone-aware datetimes of the Python standard library,
    all of them in UTC.

    An instant is the number of microseconds since 0001-01-01T00:00:00.  The
    calendar is the one of datetime.py ([_ymd2ord], [_ord2ymd]); [isoformat]
    writes an instant, [iso_instant] reads what it writes. *)

From S2P Require Import Prelude.
From Stdlib Require Import Ascii.

Open Scope string_scope.
Open Scope list_scope.
Open Scope nat_scope.

(** * The proleptic Gregorian calendar *)

Definition is_leap (y : Z) : bool := (y mod 4 =? 0)%Z && (negb (y mod 100 =? 0)%Z || (y mod 400 =? 0)%Z).
Definition days_before_year (y : Z) : Z := ((y - 1) * 365 + (y - 1) / 4 - (y - 1) / 100 + (y - 1) / 400)%Z.
Definition month_starts : list Z := [0; 31; 59; 90; 120; 151; 181; 212; 243; 273; 304; 334]%Z.
Definition month_lengths : list Z := [31; 28; 31; 30; 31; 30; 31; 31; 30; 31; 30; 31]%Z.
(** The table entry of month [m], counted from 1. *)
Definition of_month (table : list Z) (m : Z) : Z := table !!! Z.to_nat (m - 1).
Definition days_before_month (leap : bool) (m : Z) : Z :=
  (of_month month_starts m + (if (2 <? m)%Z && leap then 1 else 0))%Z.
Definition days_in_month (leap : bool) (m : Z) : Z :=
  if (m =? 2)%Z && leap then 29 else of_month month_lengths m.
(** [_ymd2ord], with 0001-01-01 as day 0. *)
Definition ymd2ord (y m d : Z) : Z :=
  (days_before_year y + days_before_month (is_leap y) m + (d - 1))%Z.

(** The month and the day of the [n]th day of a year. *)
Definition month_day (leap : bool) (n : Z) : Z * Z :=
  let month := Z.shiftr (n + 50) 5 in
  let preceding := days_before_month leap month in
  if (n <? preceding)%Z
  then (month - 1, n - days_before_month leap (month - 1) + 1)%Z
  else (month, n - preceding + 1)%Z.
(** [_ord2ymd], with 0001-01-01 as day 0. *)
Definition ord2ymd (n : Z) : Z * Z * Z :=
  let n400 := (n / 146097)%Z in let n := (n mod 146097)%Z in
  let n100 := (n / 36524)%Z in let n := (n mod 36524)%Z in
  let n4 := (n / 1461)%Z in let n := (n mod 1461)%Z in
  let n1 := (n / 365)%Z in let n := (n mod 365)%Z in
  let year := (n400 * 400 + 1 + n100 * 100 + n4 * 4 + n1)%Z in
  if (n1 =? 4)%Z || (n100 =? 4)%Z then (year - 1, 12, 31)%Z
  else
    let leap := (n1 =? 3)%Z && (negb (n4 =? 24)%Z || (n100 =? 3)%Z) in
    let '(m, d) := month_day leap n in (year, m, d).

(** * Text *)

Notation chars := (list ascii).
Definition digit_char (n : Z) : ascii := ascii_of_nat (48 + Z.to_nat n).
Definition char_digit (c : ascii) : option Z :=
  let n := nat_of_ascii c in
  if (48 <=? n) && (n <=? 57) then Some (Z.of_nat (n - 48)) else None.
(** [%0wd] of a number of at most [w] digits *)
Fixpoint digits (w : nat) (n : Z) : chars :=
  match w with
  | 0 => []
  | S w => digits w (n / 10) ++ [digit_char (n mod 10)]
  end.
Fixpoint read_digits (w : nat) (acc : Z) (s : chars) : option (Z * chars) :=
  match w with
  | 0 => Some (acc, s)
  | S w =>
      match s with
      | c :: s' => d ← char_digit c; read_digits w (10 * acc + d)%Z s'
      | [] => None
      end
  end.
Definition skip (c : ascii) (s : chars) : option chars :=
  match s with c' :: s' => if Ascii.eqb c c' then Some s' else None | [] => None end.

Definition day_us : Z := 86400000000.
Definition second_us : Z := 1000000.
Definition max_instant : Z := 315537897600000000.
(** What a [datetime] can hold: the years 1 to 9999. *)
Definition in_range (t : Z) : Prop := (0 <= t < max_instant)%Z.

Definition offset : chars := ["+"; "0"; "0"; ":"; "0"; "0"]%char.
Definition isoformat (t : Z) : string :=
  let '(y, m, d) := ord2ymd (t / day_us)%Z in
  let s := (t mod day_us / second_us)%Z in
  let us := (t mod second_us)%Z in
  String.string_of_list_ascii
    (digits 4 y ++ "-"%char :: digits 2 m ++ "-"%char :: digits 2 d ++
     "T"%char :: digits 2 (s / 3600) ++ ":"%char :: digits 2 (s / 60 mod 60) ++ ":"%char ::
     digits 2 (s mod 60) ++ (if (us =? 0)%Z then [] else "."%char :: digits 6 us) ++ offset).

(** The six digits of a fraction, where there is one. *)
Definition read_fraction (s : chars) : option (Z * chars) :=
  match skip "."%char s with Some s' => read_digits 6 0 s' | None => Some (0%Z, s) end.
Definition valid_time (y m d hh mm ss : Z) : bool :=
  (1 <=? y)%Z && (1 <=? m)%Z && (m <=? 12)%Z && (1 <=? d)%Z && (d <=? days_in_month (is_leap y) m)%Z &&
  (hh <=? 23)%Z && (mm <=? 59)%Z && (ss <=? 59)%Z.
Definition iso_instant (text : string) : option Z :=
  '(y, s) ← read_digits 4 0 (String.list_ascii_of_string text); s ← skip "-"%char s;
  '(m, s) ← read_digits 2 0 s; s ← skip "-"%char s;
  '(d, s) ← read_digits 2 0 s; s ← skip "T"%char s;
  '(hh, s) ← read_digits 2 0 s; s ← skip ":"%char s;
  '(mm, s) ← read_digits 2 0 s; s ← skip ":"%char s;
  '(ss, s) ← read_digits 2 0 s;
  '(us, s) ← read_fraction s;
  if valid_time y m d hh mm ss && bool_decide (s = offset)
  then Some (ymd2ord y m d * day_us + (hh * 3600 + mm * 60 + ss) * second_us + us)%Z
  else None.

(** * The calendar is a bijection *)

(** [lia] with divisions by constants. *)
Ltac zlia := Z.to_euclidean_division_equations; lia.

Definition year_days (leap : bool) : Z := if leap then 366 else 365.
Definition month_day_ok (leap : bool) (n : Z) : bool :=
  let '(m, d) := month_day leap n in
  (1 <=? m)%Z && (m <=? 12)%Z && (1 <=? d)%Z && (d <=? days_in_month leap m)%Z &&
  (days_before_month leap m + (d - 1) =? n)%Z.
Lemma month_day_checked leap :
  forallb (λ n, month_day_ok leap (Z.of_nat n)) (seq 0 (Z.to_nat (year_days leap))) = true.
Proof. destruct leap; vm_compute; reflexivity. Qed.
Lemma month_day_spec leap n m d : (0 <= n < year_days leap)%Z → month_day leap n = (m, d) →
  (1 <= m <= 12)%Z ∧ (1 <= d <= days_in_month leap m)%Z ∧ (days_before_month leap m + (d - 1) = n)%Z.
Proof.
  intros Hn Hmd. pose proof (proj1 (forallb_forall _ _) (month_day_checked leap) (Z.to_nat n)) as Hok.
  rewrite in_seq, Z2Nat.id in Hok by lia. unfold month_day_ok in Hok. rewrite Hmd in Hok.
  specialize (Hok ltac:(lia)). rewrite !andb_true_iff, !Z.leb_le, Z.eqb_eq in Hok. lia.
Qed.

Lemma leap_spec y : is_leap y = true ↔ (y mod 4 = 0 ∧ (y mod 100 ≠ 0 ∨ y mod 400 = 0))%Z.
Proof. unfold is_leap. rewrite andb_true_iff, orb_true_iff, negb_true_iff, !Z.eqb_eq, Z.eqb_neq. done. Qed.

Lemma days_before_year_spec a b c e : (0 <= b <= 3)%Z → (0 <= c <= 24)%Z → (0 <= e <= 3)%Z →
  days_before_year (a * 400 + 1 + b * 100 + c * 4 + e) = (146097 * a + 36524 * b + 1461 * c + 365 * e)%Z.
Proof.
  intros. unfold days_before_year. set (y := (a * 400 + 1 + b * 100 + c * 4 + e - 1)%Z).
  assert (Hy : (y = 400 * a + 100 * b + 4 * c + e)%Z) by (subst y; lia). clearbody y.
  rewrite <- (Z.div_unique_pos y 4 (100 * a + 25 * b + c) e), <- (Z.div_unique_pos y 100 (4 * a + b) (4 * c + e)),
    <- (Z.div_unique_pos y 400 a (100 * b + 4 * c + e)) by lia. lia.
Qed.
Lemma leap_year_spec a b c e : (0 <= b <= 3)%Z → (0 <= c <= 24)%Z → (0 <= e <= 3)%Z →
  is_leap (a * 400 + 1 + b * 100 + c * 4 + e) = (e =? 3)%Z && (negb (c =? 24)%Z || (b =? 3)%Z).
Proof.
  intros. apply eq_true_iff_eq. rewrite leap_spec, andb_true_iff, orb_true_iff, negb_true_iff, !Z.eqb_eq, Z.eqb_neq.
  set (y := (a * 400 + 1 + b * 100 + c * 4 + e)%Z).
  assert (Hy : (y = 400 * a + (100 * b + (4 * c + e + 1)))%Z) by (subst y; lia). clearbody y.
  destruct (decide (e = 3)%Z) as [->|].
  2: { rewrite <- (Z.mod_unique_pos y 4 (100 * a + 25 * b + c) (e + 1)) by lia. lia. }
  rewrite <- (Z.mod_unique_pos y 4 (100 * a + 25 * b + c + 1) 0) by lia.
  destruct (decide (c = 24)%Z) as [->|].
  2: { rewrite <- (Z.mod_unique_pos y 100 (4 * a + b) (4 * c + 4)) by lia. lia. }
  rewrite <- (Z.mod_unique_pos y 100 (4 * a + b + 1) 0) by lia.
  destruct (decide (b = 3)%Z) as [->|].
  - rewrite <- (Z.mod_unique_pos y 400 (a + 1) 0) by lia. lia.
  - rewrite <- (Z.mod_unique_pos y 400 a (100 * b + 100)) by lia. lia.
Qed.

(** December 31 of a leap year [y]. *)
Lemma last_day y : is_leap y = true → (1 <= 31 <= days_in_month (is_leap y) 12)%Z ∧
  ymd2ord y 12 31 = (days_before_year y + 365)%Z.
Proof. intros E. unfold ymd2ord. rewrite E. split; [change (days_in_month true 12) with 31%Z; lia|]. change (days_before_month true 12) with 335%Z. lia. Qed.

Lemma ord2ymd_spec n y m d : (0 <= n < 3652059)%Z → ord2ymd n = (y, m, d) →
  (1 <= y <= 9999)%Z ∧ (1 <= m <= 12)%Z ∧ (1 <= d <= days_in_month (is_leap y) m)%Z ∧ ymd2ord y m d = n.
Proof.
  intros Hn. unfold ord2ymd.
  assert (Hdiv : ∀ x k, (0 < k → 0 <= x → x = k * (x / k) + x mod k ∧ 0 <= x mod k < k ∧ 0 <= x / k)%Z).
  { intros x k Hk Hx. split; [by apply Z.div_mod; lia|]. split; [by apply Z.mod_pos_bound|by apply Z.div_pos]. }
  pose proof (Hdiv n 146097%Z ltac:(lia) ltac:(lia)) as Ha.
  set (a := (n / 146097)%Z) in *. set (r1 := (n mod 146097)%Z) in *. clearbody a r1.
  pose proof (Hdiv r1 36524%Z ltac:(lia) ltac:(lia)) as Hb.
  set (b := (r1 / 36524)%Z) in *. set (r2 := (r1 mod 36524)%Z) in *. clearbody b r2.
  pose proof (Hdiv r2 1461%Z ltac:(lia) ltac:(lia)) as Hc.
  set (c := (r2 / 1461)%Z) in *. set (r3 := (r2 mod 1461)%Z) in *. clearbody c r3.
  pose proof (Hdiv r3 365%Z ltac:(lia) ltac:(lia)) as He.
  set (e := (r3 / 365)%Z) in *. set (r4 := (r3 mod 365)%Z) in *. clearbody e r4. clear Hdiv.
  assert (0 <= a <= 24 ∧ 0 <= c <= 24 ∧ b <= 4 ∧ e <= 4)%Z by lia.
  destruct ((e =? 4)%Z || (b =? 4)%Z) eqn:Elast.
  - intros [= <- <- <-].
    apply orb_true_iff in Elast as [E%Z.eqb_eq|E%Z.eqb_eq].
    + assert (Ey : (a * 400 + 1 + b * 100 + c * 4 + e - 1 = a * 400 + 1 + b * 100 + c * 4 + 3)%Z) by lia.
      rewrite Ey. destruct (last_day (a * 400 + 1 + b * 100 + c * 4 + 3)) as [Hd Hy].
      { rewrite leap_year_spec by lia. apply andb_true_iff. split; [done|]. apply orb_true_iff. left.
        apply negb_true_iff, Z.eqb_neq. lia. }
      rewrite Hy, days_before_year_spec by lia. lia.
    + assert (Ey : (a * 400 + 1 + b * 100 + c * 4 + e - 1 = a * 400 + 1 + 3 * 100 + 24 * 4 + 3)%Z) by lia.
      rewrite Ey. destruct (last_day (a * 400 + 1 + 3 * 100 + 24 * 4 + 3)) as [Hd Hy].
      { by rewrite leap_year_spec by lia. }
      rewrite Hy, days_before_year_spec by lia. lia.
  - apply orb_false_iff in Elast as [E1%Z.eqb_neq E2%Z.eqb_neq].
    destruct (month_day _ r4) as [m' d'] eqn:Emd. intros [= <- <- <-].
    rewrite <- (leap_year_spec a) in Emd by lia.
    apply month_day_spec in Emd as (Hm & Hd & Hr); [|destruct (is_leap _); simpl; lia].
    unfold ymd2ord. rewrite days_before_year_spec by lia. lia.
Qed.

(** * Numbers of a fixed width *)

Lemma char_digit_char n : (0 <= n < 10)%Z → char_digit (digit_char n) = Some n.
Proof.
  intros Hn. unfold char_digit, digit_char. rewrite nat_ascii_embedding by lia.
  replace ((48 <=? 48 + Z.to_nat n) && (48 + Z.to_nat n <=? 57)) with true.
  - f_equal. lia.
  - symmetry. apply andb_true_iff. rewrite !Nat.leb_le. lia.
Qed.
Lemma read_digits_add w1 w2 acc s :
  read_digits (w1 + w2) acc s = ('(n, r) ← read_digits w1 acc s; read_digits w2 n r).
Proof.
  revert acc s. induction w1 as [|w1 IH]; intros acc s; [done|].
  destruct s as [|c s]; [done|]. change (S w1 + w2) with (S (w1 + w2)). cbn [read_digits].
  destruct (char_digit c) as [d|]; [|done]. cbn [mbind option_bind]. apply IH.
Qed.
Lemma read_digits_digits w acc n rest : (0 <= n < 10 ^ Z.of_nat w)%Z →
  read_digits w acc (digits w n ++ rest) = Some (acc * 10 ^ Z.of_nat w + n, rest)%Z.
Proof.
  revert n rest. induction w as [|w IH]; intros n rest Hn.
  - cbn. do 2 f_equal. lia.
  - rewrite Nat2Z.inj_succ, Z.pow_succ_r in * by lia.
    replace (S w) with (w + 1) by lia. rewrite read_digits_add.
    cbn [digits]. replace (w + 1) with (S w) by lia. cbn [digits]. rewrite <- app_assoc.
    assert (0 <= n / 10 < 10 ^ Z.of_nat w)%Z as Hq by (split; [apply Z.div_pos|apply Z.div_lt_upper_bound]; lia).
    rewrite IH by exact Hq.
    cbn [mbind option_bind app read_digits]. rewrite char_digit_char by (apply Z.mod_pos_bound; lia). cbn [mbind option_bind].
    do 2 f_equal. pose proof (Z.div_mod n 10). lia.
Qed.
Lemma read_two n rest : (0 <= n < 100)%Z → read_digits 2 0 (digits 2 n ++ rest) = Some (n, rest).
Proof. intros. by rewrite read_digits_digits by done. Qed.
Lemma skip_same c s : skip c (c :: s) = Some s.
Proof. unfold skip. by rewrite Ascii.eqb_refl. Qed.

(** * Reading what was written *)

Lemma days_in_month_bound leap m : (1 <= m <= 12)%Z → (days_in_month leap m <= 31)%Z.
Proof.
  intros Hm. unfold days_in_month, of_month. assert (Hl : ∀ x, x ∈ month_lengths → (x <= 31)%Z).
  { intros x Hx. rewrite list_elem_of_In in Hx. cbv in Hx. naive_solver lia. }
  destruct ((m =? 2)%Z && leap); [lia|]. apply Hl, list_elem_of_lookup_total_2. cbv [month_lengths length]. lia.
Qed.

Lemma clock_spec s : (s / 3600 * 3600 + s / 60 mod 60 * 60 + s mod 60 = s)%Z.
Proof. zlia. Qed.
Lemma instant_split t : (t / day_us * day_us + t mod day_us / second_us * second_us + t mod second_us = t)%Z.
Proof.
  pose proof (Z.div_mod t day_us ltac:(done)) as Hd. pose proof (Z.div_mod (t mod day_us) second_us ltac:(done)) as Hs.
  rewrite Z.mod_mod_divide in Hs by (exists 86400%Z; done). lia.
Qed.

Lemma iso_instant_isoformat t : in_range t → iso_instant (isoformat t) = Some t.
Proof.
  unfold in_range, max_instant, isoformat. intros Ht.
  destruct (ord2ymd (t / day_us)%Z) as [[y m] d] eqn:E.
  apply ord2ymd_spec in E as (Hy & Hm & Hd & Hn); [|unfold day_us; zlia].
  pose proof (days_in_month_bound (is_leap y) m Hm).
  set (s := (t mod day_us / second_us)%Z). set (us := (t mod second_us)%Z).
  assert (Hus : (0 <= us < 1000000)%Z) by (apply Z.mod_pos_bound; done).
  assert (Hs : (0 <= s < 86400)%Z).
  { pose proof (Z.mod_pos_bound t day_us ltac:(done)) as Hb. unfold day_us in Hb at 3.
    subst s. split; [apply Z.div_pos; [apply Hb|done]|apply Z.div_lt_upper_bound; [done|unfold second_us]; lia]. }
  assert (Hval : (ymd2ord y m d * day_us + (s / 3600 * 3600 + s / 60 mod 60 * 60 + s mod 60) * second_us + us = t)%Z).
  { rewrite Hn, clock_spec. apply instant_split. }
  clearbody s us. unfold iso_instant. rewrite String.list_ascii_of_string_of_list_ascii.
  rewrite read_digits_digits by lia. cbn [mbind option_bind]. rewrite skip_same. cbn [mbind option_bind].
  rewrite read_two by zlia. cbn [mbind option_bind]. rewrite skip_same. cbn [mbind option_bind].
  rewrite read_two by zlia. cbn [mbind option_bind]. rewrite skip_same. cbn [mbind option_bind].
  rewrite read_two by zlia. cbn [mbind option_bind]. rewrite skip_same. cbn [mbind option_bind].
  rewrite read_two by zlia. cbn [mbind option_bind]. rewrite skip_same. cbn [mbind option_bind].
  rewrite read_two by zlia. cbn [mbind option_bind].
  assert (Hf : read_fraction ((if (us =? 0)%Z then [] else "."%char :: digits 6 us) ++ offset) = Some (us, offset)).
  { destruct (Z.eqb_spec us 0) as [->|]; [reflexivity|]. unfold read_fraction.
    change (("."%char :: digits 6 us) ++ offset) with ("."%char :: (digits 6 us ++ offset)).
    by rewrite skip_same, read_digits_digits by done. }
  rewrite Hf. cbn [mbind option_bind]. rewrite bool_decide_eq_true_2 by done.
  rewrite Z.mul_0_l, Z.add_0_l. unfold valid_time. rewrite !(proj2 (Z.leb_le _ _)) by zlia. cbn [andb].
  f_equal. exact Hval.
Qed.

Lemma isoformat_nonblank t : strip (isoformat t) ≠ "".
Proof.
  unfold isoformat. destruct (ord2ymd (t / day_us)%Z) as [[y m] d]. cbn [digits app String.string_of_list_ascii].
  apply strip_keeps. pose proof (Z.mod_pos_bound (y / 10 / 10 / 10) 10 ltac:(done)) as Hd.
  unfold is_space, digit_char. rewrite nat_ascii_embedding by lia.
  set (n := 48 + Z.to_nat (y / 10 / 10 / 10 mod 10)). assert (48 ≤ n ≤ 57) as Hn by lia. clearbody n.
  rewrite !orb_false_iff, !andb_false_iff, !Nat.leb_gt, !Nat.eqb_neq. lia.
Qed.
