(* ===== verification/Acceptance.v ===== *)
(** Acceptance criteria, verification reports and feature checkpoints: what a
    plan node has to satisfy, what a verifier says about it, and where its
    work lies.

    Sources: src/src/domain/model/workspace_plan/acceptance.py and
    handoff.py.  The free-form [spec] of a criterion is a dictionary of
    values; the only float it is read for is a confidence.  The time a report
    was made is left out. *)

From stdpp Require Import pretty.
From Stdlib Require Import QArith.
From S2P Require Import Prelude.

Open Scope string_scope.
Open Scope list_scope.
Open Scope nat_scope.

(** * Criteria *)

Inductive CriterionKind : Set :=
  | CMD | SCHEMA | FILE_EXISTS | REGEX | BROWSER_E2E | CI_PIPELINE | PIPELINE_STAGE
  | DEPLOYMENT_HEALTH | PREVIEW_E2E | LLM_JUDGE | CUSTOM.
#[export] Instance CriterionKind_eq_dec : EqDecision CriterionKind.
Proof. solve_decision. Defined.
Definition kind_value (k : CriterionKind) : string :=
  match k with
  | CMD => "cmd" | SCHEMA => "schema" | FILE_EXISTS => "file_exists" | REGEX => "regex"
  | BROWSER_E2E => "browser_e2e" | CI_PIPELINE => "ci_pipeline"
  | PIPELINE_STAGE => "pipeline_stage" | DEPLOYMENT_HEALTH => "deployment_health"
  | PREVIEW_E2E => "preview_e2e" | LLM_JUDGE => "llm_judge" | CUSTOM => "custom"
  end.

(** A value of a [spec]: floats, which [pyval] has not, and the others. *)
Inductive spec_value : Type := Plain (v : pyval) | Number (q : Q).
Definition spec_truth (v : spec_value) : bool :=
  match v with Plain v => py_truth v | Number q => negb (Qeq_bool q 0) end.
(** The values that are an [int] or a [float]; a boolean is an [int]. *)
Definition number_of (v : spec_value) : option Q :=
  match v with
  | Plain (PBool b) => Some (if b then 1 else 0)%Q
  | Plain (PInt z) => Some (inject_Z z)
  | Number q => Some q
  | Plain _ => None
  end.

Record AcceptanceCriterion : Type := mkCriterion {
  criterion_kind : CriterionKind;
  spec : list (string * spec_value);
  required : bool;
  criterion_description : string;
}.

Definition has (key : string) (c : AcceptanceCriterion) : bool :=
  from_option spec_truth false (dget key (spec c)).
Definition confidence_ok (v : option spec_value) : bool :=
  match v ≫= number_of with
  | Some q => negb (Qle_bool q 0) && Qle_bool q 1
  | None => false
  end.

(** [AcceptanceCriterion.__post_init__]: [None] is the ValueError of the kind. *)
Definition criterion_post_init (c : AcceptanceCriterion) : option AcceptanceCriterion :=
  let ok :=
    match criterion_kind c with
    | CMD => has "cmd" c
    | SCHEMA => has "schema" c
    | FILE_EXISTS => has "path" c
    | REGEX => has "pattern" c
    | BROWSER_E2E => has "name" c || has "path" c
    | PIPELINE_STAGE => has "stage" c
    | PREVIEW_E2E => has "name" c || has "path" c
    | LLM_JUDGE => confidence_ok (dget "min_confidence" (spec c))
    | CUSTOM => has "name" c
    | CI_PIPELINE | DEPLOYMENT_HEALTH => true
    end in
  if ok then Some c else None.

(** * Reports *)

Record EvidenceRef : Type := mkEvidence {
  evidence_kind : string; evidence_target : string; evidence_note : string;
}.
Definition evidence_post_init (e : EvidenceRef) : option EvidenceRef :=
  if negb (truthy (evidence_kind e)) then None
  else if negb (truthy (evidence_target e)) then None else Some e.

Record CriterionResult : Type := mkResult {
  criterion : AcceptanceCriterion;
  result_passed : bool;
  result_confidence : Q;
  message : string;
  result_evidence : list EvidenceRef;
}.
Definition result_post_init (r : CriterionResult) : option CriterionResult :=
  if Qle_bool 0 (result_confidence r) && Qle_bool (result_confidence r) 1 then Some r else None.

Record VerificationReport : Type := mkReport {
  report_node_id : string;
  attempt_id : option string;
  results : list CriterionResult;
}.

(** [r.criterion.required and not r.passed] *)
Definition fails (r : CriterionResult) : bool := required (criterion r) && negb (result_passed r).

Definition passed (rep : VerificationReport) : bool :=
  forallb result_passed (filter (λ r, required (criterion r) = true) (results rep)).
Definition hard_fail (rep : VerificationReport) : bool :=
  existsb (λ r, negb (result_passed r) && required (criterion r) &&
                Qle_bool (9 # 10) (result_confidence r)) (results rep).
Definition failed_required (rep : VerificationReport) : list CriterionResult :=
  filter (λ r, fails r = true) (results rep).
Definition report_evidence (rep : VerificationReport) : list EvidenceRef :=
  concat (result_evidence <$> results rep).

Definition count_text (n : nat) : string := pretty (N.of_nat n).
Definition failure_line (r : CriterionResult) : string :=
  "  - [" +:+ kind_value (criterion_kind (criterion r)) +:+ "] " +:+
  (if truthy (message r) then message r else "failed").
Definition newline : string := String (Ascii.ascii_of_nat 10) EmptyString.
Definition summary (rep : VerificationReport) : string :=
  if passed rep then
    "verified (" +:+ count_text (length (results rep)) +:+ " criteria passed)"
  else
    let fails := failed_required rep in
    String.concat newline
      (("verification failed: " +:+ count_text (length fails) +:+ "/" +:+
        count_text (length (results rep)) +:+ " required criteria did not pass")
       :: (failure_line <$> take 5 fails)).

(** * Feature checkpoints *)

Record FeatureCheckpoint : Type := mkCheckpoint {
  feature_id : string;
  sequence : Z;
  feature_title : string;
  init_command : option string;
  test_commands : list string;
  expected_artifacts : list string;
  worktree_path : option string;
  branch_name : option string;
  base_ref : option string;
  commit_ref : option string;
  handoff_notes : string;
}.

(** [_clean_tuple]: stripped, without blanks, the first of each kept. *)
Definition clean_tuple (values : list string) : list string :=
  foldl (λ acc v, set_add v acc) [] (filter (λ v, truthy v = true) (strip <$> values)).

Definition checkpoint_post_init (c : FeatureCheckpoint) : option FeatureCheckpoint :=
  if negb (truthy (strip (feature_id c))) then None
  else if bool_decide (sequence c < 0)%Z then None
  else Some (mkCheckpoint (feature_id c) (sequence c) (feature_title c) (init_command c)
    (clean_tuple (test_commands c)) (clean_tuple (expected_artifacts c)) (worktree_path c)
    (branch_name c) (base_ref c) (commit_ref c) (handoff_notes c)).

(** * Lemmas *)

Lemma fails_spec r : fails r = true ↔ required (criterion r) = true ∧ result_passed r = false.
Proof. unfold fails. destruct (required _), (result_passed _); naive_solver. Qed.
Lemma failed_required_spec rep r :
  r ∈ failed_required rep ↔ r ∈ results rep ∧ required (criterion r) = true ∧ result_passed r = false.
Proof. unfold failed_required. rewrite list_elem_of_filter, fails_spec. tauto. Qed.
Lemma report_passed_spec rep :
  passed rep = true ↔ ∀ r, r ∈ results rep → required (criterion r) = true → result_passed r = true.
Proof.
  unfold passed. rewrite forallb_elem. setoid_rewrite list_elem_of_filter. naive_solver.
Qed.
Lemma passed_no_failures rep : passed rep = true ↔ failed_required rep = [].
Proof.
  rewrite report_passed_spec. split.
  - intros H. apply elem_of_nil_inv. intros r (Hin & Hr & Hp)%failed_required_spec.
    rewrite H in Hp; done.
  - intros H r Hin Hr. destruct (result_passed r) eqn:Hp; [done|].
    assert (r ∈ failed_required rep) as Hf by by apply failed_required_spec.
    rewrite H in Hf. by apply elem_of_nil in Hf.
Qed.
Lemma hard_fail_spec rep :
  hard_fail rep = true ↔
  ∃ r, r ∈ failed_required rep ∧ (9 # 10 <= result_confidence r)%Q.
Proof.
  unfold hard_fail. rewrite existsb_exists. setoid_rewrite <-list_elem_of_In.
  setoid_rewrite failed_required_spec. setoid_rewrite andb_true_iff. setoid_rewrite andb_true_iff.
  setoid_rewrite negb_true_iff. setoid_rewrite Qle_bool_iff. naive_solver.
Qed.
Lemma clean_tuple_NoDup values : NoDup (clean_tuple values).
Proof.
  unfold clean_tuple. assert (∀ l acc : list string, NoDup acc → NoDup (foldl (λ acc v, set_add v acc) acc l)) as H.
  { intros l. induction l as [|v l IH]; intros acc Hacc; [done|]. simpl. apply IH. auto with memstack. }
  apply H. constructor.
Qed.
Lemma hard_fail_not_passed rep : hard_fail rep = true → passed rep = false.
Proof.
  rewrite hard_fail_spec. intros (r & Hr & _). apply not_true_is_false. rewrite passed_no_failures.
  intros H. rewrite H in Hr. by apply elem_of_nil in Hr.
Qed.
