(* ===== verification/PlanNode.v ===== *)
(** Workspace-plan nodes and their two status machines.

    Sources: src/src/domain/model/workspace_plan/plan_node.py and
    state_machine.py.  [PlanNodeId] is its string; finite floats are
    rationals; the fields no operation reads (the description, the two schemas
    and the hand-off package) are left out of the record. *)

From Stdlib Require Import QArith.
From S2P Require Import Prelude Machine Acceptance.

Open Scope string_scope.

(** * Enumerations and value objects *)

Inductive PlanNodeKind : Set := GOAL | MILESTONE | TASK | VERIFY.
Inductive TaskIntent : Set := TODO | IN_PROGRESS | BLOCKED | DONE.
Inductive TaskExecution : Set := IDLE | DISPATCHED | RUNNING | REPORTED | VERIFYING.

#[export] Instance PlanNodeKind_eq_dec : EqDecision PlanNodeKind.
Proof. solve_decision. Defined.
#[export] Instance TaskIntent_eq_dec : EqDecision TaskIntent.
Proof. solve_decision. Defined.
#[export] Instance TaskExecution_eq_dec : EqDecision TaskExecution.
Proof. solve_decision. Defined.

Definition intent_value (i : TaskIntent) : string :=
  match i with
  | TODO => "todo" | IN_PROGRESS => "in_progress" | BLOCKED => "blocked" | DONE => "done"
  end.
Definition execution_value (e : TaskExecution) : string :=
  match e with
  | IDLE => "idle" | DISPATCHED => "dispatched" | RUNNING => "running"
  | REPORTED => "reported" | VERIFYING => "verifying"
  end.

Definition in_unit (q : Q) : bool := Qle_bool 0 q && Qle_bool q 1.

Inductive node_error : Set :=
  | NegativeMinutes | ConfidenceRange | PercentRange | EmptyCapability | WeightNotPositive
  | EmptyNodeId | EmptyPlanId | EmptyTitle | NegativePriority | GoalWithParent
  | NonGoalWithoutParent (k : PlanNodeKind) | SelfDependency.

Record Effort : Type := mkEffort { minutes : Z; effort_confidence : Q }.
Definition new_effort (m : Z) (c : Q) : result node_error Effort :=
  if bool_decide (m < 0)%Z then Err NegativeMinutes
  else if negb (in_unit c) then Err ConfidenceRange
  else Ok (mkEffort m c).

Record Progress : Type := mkProgress { percent : Q; confidence : Q; note : string }.
Definition new_progress (p c : Q) (n : string) : result node_error Progress :=
  if negb (Qle_bool 0 p && Qle_bool p 100) then Err PercentRange
  else if negb (in_unit c) then Err ConfidenceRange
  else Ok (mkProgress p c n).

Record Capability : Type := mkCapability { capability_name : string; weight : Q }.
Definition new_capability (n : string) (w : Q) : result node_error Capability :=
  if negb (truthy n) then Err EmptyCapability
  else if Qle_bool w 0 then Err WeightNotPositive
  else Ok (mkCapability n w).

Definition new_node_id (value : string) : result node_error string :=
  if truthy value then Ok value else Err EmptyNodeId.

(** * [PlanNode] *)

Record PlanNode : Type := mkNode {
  id : string;
  plan_id : string;
  parent_id : option string;
  kind : PlanNodeKind;
  title : string;
  depends_on : list string;     (** a frozenset: no id twice *)
  acceptance_criteria : list AcceptanceCriterion;
  feature_checkpoint : option FeatureCheckpoint;
  recommended_capabilities : list Capability;
  preferred_agent_id : option string;
  estimated_effort : Effort;
  priority : Z;
  intent : TaskIntent;
  execution : TaskExecution;
  progress : Progress;
  assignee_agent_id : option string;
  current_attempt_id : option string;
  workspace_task_id : option string;
  metadata : list (string * pyval);
  created_at : Z;
  updated_at : option Z;
  completed_at : option Z;
}.

(** * [dataclasses.replace], one field at a time *)

Definition set_depends_on (x : list string) (n : PlanNode) : PlanNode :=
  mkNode (id n) (plan_id n) (parent_id n) (kind n) (title n) x (acceptance_criteria n)
    (feature_checkpoint n) (recommended_capabilities n) (preferred_agent_id n) (estimated_effort
    n) (priority n) (intent n) (execution n) (progress n) (assignee_agent_id n)
    (current_attempt_id n) (workspace_task_id n) (metadata n) (created_at n) (updated_at n)
    (completed_at n).
Definition set_feature_checkpoint (x : option FeatureCheckpoint) (n : PlanNode) : PlanNode :=
  mkNode (id n) (plan_id n) (parent_id n) (kind n) (title n) (depends_on n) (acceptance_criteria
    n) x (recommended_capabilities n) (preferred_agent_id n) (estimated_effort n) (priority n)
    (intent n) (execution n) (progress n) (assignee_agent_id n) (current_attempt_id n)
    (workspace_task_id n) (metadata n) (created_at n) (updated_at n) (completed_at n).
Definition set_intent (x : TaskIntent) (n : PlanNode) : PlanNode :=
  mkNode (id n) (plan_id n) (parent_id n) (kind n) (title n) (depends_on n) (acceptance_criteria
    n) (feature_checkpoint n) (recommended_capabilities n) (preferred_agent_id n)
    (estimated_effort n) (priority n) x (execution n) (progress n) (assignee_agent_id n)
    (current_attempt_id n) (workspace_task_id n) (metadata n) (created_at n) (updated_at n)
    (completed_at n).
Definition set_execution (x : TaskExecution) (n : PlanNode) : PlanNode :=
  mkNode (id n) (plan_id n) (parent_id n) (kind n) (title n) (depends_on n) (acceptance_criteria
    n) (feature_checkpoint n) (recommended_capabilities n) (preferred_agent_id n)
    (estimated_effort n) (priority n) (intent n) x (progress n) (assignee_agent_id n)
    (current_attempt_id n) (workspace_task_id n) (metadata n) (created_at n) (updated_at n)
    (completed_at n).
Definition set_progress (x : Progress) (n : PlanNode) : PlanNode :=
  mkNode (id n) (plan_id n) (parent_id n) (kind n) (title n) (depends_on n) (acceptance_criteria
    n) (feature_checkpoint n) (recommended_capabilities n) (preferred_agent_id n)
    (estimated_effort n) (priority n) (intent n) (execution n) x (assignee_agent_id n)
    (current_attempt_id n) (workspace_task_id n) (metadata n) (created_at n) (updated_at n)
    (completed_at n).
Definition set_assignee_agent_id (x : option string) (n : PlanNode) : PlanNode :=
  mkNode (id n) (plan_id n) (parent_id n) (kind n) (title n) (depends_on n) (acceptance_criteria
    n) (feature_checkpoint n) (recommended_capabilities n) (preferred_agent_id n)
    (estimated_effort n) (priority n) (intent n) (execution n) (progress n) x
    (current_attempt_id n) (workspace_task_id n) (metadata n) (created_at n) (updated_at n)
    (completed_at n).
Definition set_current_attempt_id (x : option string) (n : PlanNode) : PlanNode :=
  mkNode (id n) (plan_id n) (parent_id n) (kind n) (title n) (depends_on n) (acceptance_criteria
    n) (feature_checkpoint n) (recommended_capabilities n) (preferred_agent_id n)
    (estimated_effort n) (priority n) (intent n) (execution n) (progress n) (assignee_agent_id
    n) x (workspace_task_id n) (metadata n) (created_at n) (updated_at n) (completed_at n).
Definition set_metadata (x : list (string * pyval)) (n : PlanNode) : PlanNode :=
  mkNode (id n) (plan_id n) (parent_id n) (kind n) (title n) (depends_on n) (acceptance_criteria
    n) (feature_checkpoint n) (recommended_capabilities n) (preferred_agent_id n)
    (estimated_effort n) (priority n) (intent n) (execution n) (progress n) (assignee_agent_id
    n) (current_attempt_id n) (workspace_task_id n) x (created_at n) (updated_at n)
    (completed_at n).
Definition set_updated_at (x : option Z) (n : PlanNode) : PlanNode :=
  mkNode (id n) (plan_id n) (parent_id n) (kind n) (title n) (depends_on n) (acceptance_criteria
    n) (feature_checkpoint n) (recommended_capabilities n) (preferred_agent_id n)
    (estimated_effort n) (priority n) (intent n) (execution n) (progress n) (assignee_agent_id
    n) (current_attempt_id n) (workspace_task_id n) (metadata n) (created_at n) x (completed_at
    n).
Definition set_completed_at (x : option Z) (n : PlanNode) : PlanNode :=
  mkNode (id n) (plan_id n) (parent_id n) (kind n) (title n) (depends_on n) (acceptance_criteria
    n) (feature_checkpoint n) (recommended_capabilities n) (preferred_agent_id n)
    (estimated_effort n) (priority n) (intent n) (execution n) (progress n) (assignee_agent_id
    n) (current_attempt_id n) (workspace_task_id n) (metadata n) (created_at n) (updated_at n)
    x.


(** [__post_init__], the checks in order. *)
Definition post_init (n : PlanNode) : result node_error PlanNode :=
  if negb (truthy (plan_id n)) then Err EmptyPlanId
  else if negb (truthy (strip (title n))) then Err EmptyTitle
  else if bool_decide (priority n < 0)%Z then Err NegativePriority
  else if bool_decide (kind n = GOAL) && bool_decide (is_Some (parent_id n)) then
    Err GoalWithParent
  else if negb (bool_decide (kind n = GOAL)) && bool_decide (parent_id n = None) then
    Err (NonGoalWithoutParent (kind n))
  else
    nid ← new_node_id (id n);
    if bool_decide (nid ∈ depends_on n) then Err SelfDependency else Ok n.

Definition is_terminal (n : PlanNode) : bool := bool_decide (intent n = DONE).

Definition is_ready (completed_ids : list string) (n : PlanNode) : bool :=
  if bool_decide (intent n = TODO) then
    bool_decide (Forall (.∈ completed_ids) (depends_on n))
  else false.

(** [dataclasses.replace] builds a new node, so [__post_init__] runs again. *)
Definition with_intent (i : TaskIntent) (now : Z) (n : PlanNode) : result node_error PlanNode :=
  post_init (set_updated_at (Some now) (set_intent i n)).
Definition with_execution (e : TaskExecution) (now : Z) (n : PlanNode)
    : result node_error PlanNode :=
  post_init (set_updated_at (Some now) (set_execution e n)).
Definition with_progress (p : Progress) (now : Z) (n : PlanNode) : result node_error PlanNode :=
  post_init (set_updated_at (Some now) (set_progress p n)).

(** What the constructor guarantees, with the dependencies being a set. *)
Record node_wf (n : PlanNode) : Prop := {
  node_wf_id : id n ≠ "";
  node_wf_parent : kind n = GOAL ↔ parent_id n = None;
  node_wf_deps : NoDup (depends_on n);
  node_wf_self : id n ∉ depends_on n;
}.

Lemma post_init_ok n m : NoDup (depends_on n) → post_init n = Ok m → m = n ∧ node_wf n.
Proof.
  unfold post_init, new_node_id, truthy. intros Hd H.
  repeat (case_bool_decide; simplify_eq/=); split; try done;
    constructor; try done;
    repeat match goal with H : ¬ is_Some _ |- _ => rewrite <-eq_None_not_Some in H end;
    split; intros; simplify_eq; try done; try congruence.
Qed.

(** The checks read the identity, the title, the kind, the parent, the
    priority and the dependencies, so a replacement of other fields passes. *)
Lemma post_init_same n m : post_init n = Ok n → id m = id n → plan_id m = plan_id n →
  title m = title n → kind m = kind n → parent_id m = parent_id n → priority m = priority n →
  id n ∉ depends_on m → post_init m = Ok m.
Proof.
  unfold post_init, new_node_id. intros H -> -> -> -> -> -> Hd.
  repeat (case_match; simplify_eq/=; try done).
  by split_bools.
Qed.

(** The fields of the graph: identity, kind, parent, dependencies, priority. *)
Definition same_shape (n m : PlanNode) : Prop :=
  id n = id m ∧ plan_id n = plan_id m ∧ parent_id n = parent_id m ∧ kind n = kind m ∧
  depends_on n = depends_on m ∧ priority n = priority m.

#[export] Instance same_shape_equiv : Equivalence same_shape.
Proof. unfold same_shape. split; repeat intro; naive_solver congruence. Qed.

Lemma with_intent_shape i now n m : NoDup (depends_on n) → with_intent i now n = Ok m →
  same_shape n m ∧ intent m = i.
Proof. intros Hd H. apply post_init_ok in H as [-> _]; [|done]. done. Qed.

(** * The status machines *)

Inductive reason (S : Type) : Type :=
  | NoOp (s : S)
  | CurrentTerminal
  | NotAllowed (target : S) (allowed : list string).
Arguments NoOp {S}.
Arguments CurrentTerminal {S}.
Arguments NotAllowed {S}.

Inductive status_error (S : Type) : Type :=
  | IllegalTransition (current target : S) (reasons : list (reason S)).
Arguments IllegalTransition {S}.

Definition INTENT_TRANSITIONS : list (TaskIntent * list TaskIntent) :=
  [ (TODO, [IN_PROGRESS; BLOCKED]);
    (IN_PROGRESS, [DONE; BLOCKED; TODO]);
    (BLOCKED, [TODO; IN_PROGRESS]);
    (DONE, []) ].

Definition allowed_intent_next (current : TaskIntent) : list TaskIntent :=
  dget_or [] current INTENT_TRANSITIONS.
Definition can_transition_intent (current target : TaskIntent) : bool :=
  bool_decide (target ∈ allowed_intent_next current).
Definition guard_intent_reasons (current target : TaskIntent) : list (reason TaskIntent) :=
  if bool_decide (current = target) then [NoOp current]
  else
    let reasons := if bool_decide (current = DONE) then [CurrentTerminal] else [] in
    if negb (can_transition_intent current target) && bool_decide (length reasons = 0) then
      reasons ++ [NotAllowed target
        (sort_by String.leb (intent_value <$> allowed_intent_next current))]
    else reasons.
Definition transition_intent (current target : TaskIntent)
    : result (status_error TaskIntent) TaskIntent :=
  match guard_intent_reasons current target with
  | [] => Ok target
  | reasons => Err (IllegalTransition current target reasons)
  end.

Definition EXECUTION_TRANSITIONS : list (TaskExecution * list TaskExecution) :=
  [ (IDLE, [DISPATCHED]);
    (DISPATCHED, [RUNNING; IDLE; REPORTED]);
    (RUNNING, [REPORTED; IDLE]);
    (REPORTED, [VERIFYING; IDLE]);
    (VERIFYING, [IDLE]) ].

Definition allowed_execution_next (current : TaskExecution) : list TaskExecution :=
  dget_or [] current EXECUTION_TRANSITIONS.
Definition can_transition_execution (current target : TaskExecution) : bool :=
  bool_decide (target ∈ allowed_execution_next current).
Definition guard_execution_reasons (current target : TaskExecution)
    : list (reason TaskExecution) :=
  if bool_decide (current = target) then [NoOp current]
  else if negb (can_transition_execution current target) then
    [NotAllowed target
      (sort_by String.leb (execution_value <$> allowed_execution_next current))]
  else [].
Definition transition_execution (current target : TaskExecution)
    : result (status_error TaskExecution) TaskExecution :=
  match guard_execution_reasons current target with
  | [] => Ok target
  | reasons => Err (IllegalTransition current target reasons)
  end.

Lemma intent_final_stuck s t :
  bool_decide (s = DONE) = true → can_transition_intent s t = true → s = t.
Proof. by destruct s, t; vm_compute. Qed.
Lemma execution_final_stuck (s t : TaskExecution) :
  false = true → can_transition_execution s t = true → s = t.
Proof. done. Qed.

#[export] Instance intent_machine : Machine TaskIntent := {
  mstep := can_transition_intent;
  mfinal := λ s, bool_decide (s = DONE);
  mfinal_stuck := intent_final_stuck;
}.
#[export] Instance execution_machine : Machine TaskExecution := {
  mstep := can_transition_execution;
  mfinal := λ _, false;
  mfinal_stuck := execution_final_stuck;
}.

(** * Properties *)

(** The two [transition_*] functions raise exactly when the table has
    no such entry, with one reason, and return the target otherwise; in
    particular a change to the same status raises, and DONE is left by
    nothing, while an execution status always has a way back to IDLE. *)
Theorem plan_transitions_spec :
  (∀ c t, transition_intent c t = Ok t ↔ can_transition_intent c t = true) ∧
  (∀ c t, transition_execution c t = Ok t ↔ can_transition_execution c t = true) ∧
  (∀ c t rs, transition_intent c t = Err (IllegalTransition c t rs) → length rs = 1) ∧
  (∀ c t rs, transition_execution c t = Err (IllegalTransition c t rs) → length rs = 1) ∧
  (∀ t, mreach DONE t → t = DONE) ∧
  (∀ e, mreach e IDLE).
Proof.
  split_and!.
  - intros c t; destruct c, t; vm_compute; split; congruence.
  - intros c t; destruct c, t; vm_compute; split; congruence.
  - intros c t rs; destruct c, t; vm_compute; intros H; try discriminate H;
      injection H as <-; reflexivity.
  - intros c t rs; destruct c, t; vm_compute; intros H; try discriminate H;
      injection H as <-; reflexivity.
  - intros t. by apply final_absorbing.
  - intros e. destruct e; [apply mreach_refl|apply mreach_step; reflexivity..].
Qed.
