(* ===== verification/Plan.v ===== *)
(** The plan aggregate: a typed DAG of nodes with one goal root, and the
    progress snapshot of it.

    Sources: src/src/domain/model/workspace_plan/plan.py and
    goal_progress.py.  A plan's [nodes] is a Python dictionary, so its
    order is the order the nodes were added in.  Timestamps nobody compares
    are left out. *)

From Stdlib Require Import QArith.
From S2P Require Import Prelude Kahn PlanNode.

Open Scope string_scope.
Open Scope list_scope.
Open Scope nat_scope.

(** * The aggregate *)

Inductive PlanStatus : Set := DRAFT | ACTIVE | SUSPENDED | COMPLETED | ABANDONED.

Record Plan : Type := mkPlan {
  ident : string;                         (** [id] of [Entity] *)
  workspace_id : string;
  goal_id : string;
  nodes : list (string * PlanNode);
  status : PlanStatus;
  plan_updated_at : option Z;
}.

Inductive plan_error : Set :=
  | EmptyWorkspaceId
  | DuplicateNode (nid : string) | ForeignNode (pid : string)
  | GoalExists | GoalIdMismatch | ParentNotFound (parent : option string)
  | DepNotFound (dep : string) | NodeNotFound (nid : string)
  | NoGoalNode | CycleInDependsOn
  | KeyError (key : string).

(** The constructor with [__post_init__]; [goal_id] is a [PlanNodeId] by its type. *)
Definition new_plan (pid ws goal : string) : result plan_error Plan :=
  if truthy ws then Ok (mkPlan pid ws goal [] DRAFT None) else Err EmptyWorkspaceId.

Definition set_nodes (d : list (string * PlanNode)) (p : Plan) : Plan :=
  mkPlan (ident p) (workspace_id p) (goal_id p) d (status p) (plan_updated_at p).

Definition find_goal (p : Plan) : option PlanNode :=
  List.find (λ n, bool_decide (kind n = GOAL)) (dvals (nodes p)).

Definition missing_dep (p : Plan) (n : PlanNode) : option string :=
  List.find (λ dep, negb (dmem dep (nodes p)) && negb (bool_decide (dep = id n)))
    (depends_on n).

Definition add_node (n : PlanNode) : M Plan plan_error unit :=
  p ← mget;
  mguard (negb (dmem (id n) (nodes p))) (DuplicateNode (id n));;
  mguard (bool_decide (plan_id n = ident p)) (ForeignNode (plan_id n));;
  (if bool_decide (kind n = GOAL) then
     mguard (match find_goal p with
             | Some g => bool_decide (id g = id n)
             | None => true
             end) GoalExists;;
     mguard (bool_decide (id n = goal_id p)) GoalIdMismatch
   else
     mguard (match parent_id n with
             | Some q => dmem q (nodes p)
             | None => false
             end) (ParentNotFound (parent_id n)));;
  match missing_dep p n with
  | Some dep => mraise (DepNotFound dep)
  | None => mmodify (λ p, set_nodes (dset (id n) n (nodes p)) p)
  end.

Definition replace_node (n : PlanNode) (now : Z) : M Plan plan_error unit :=
  p ← mget;
  mguard (dmem (id n) (nodes p)) (NodeNotFound (id n));;
  mmodify (λ p, mkPlan (ident p) (workspace_id p) (goal_id p)
    (dset (id n) n (nodes p)) (status p) (Some now)).

(** * Queries *)

Definition goal_node (p : Plan) : result plan_error PlanNode :=
  of_option (dget (goal_id p) (nodes p)) NoGoalNode.

Definition children_of (p : Plan) (nid : string) : list PlanNode :=
  filter (λ n, parent_id n = Some nid) (dvals (nodes p)).

(** [while stack]; no visited set, so the fuel is part of the result. *)
Fixpoint descendants_loop (fuel : nat) (p : Plan) (stack : list string) (out : list PlanNode)
    : option (list PlanNode) :=
  match fuel with
  | O => None
  | S fuel' =>
      match stack with
      | [] => Some out
      | nid :: stack' =>
          match dget nid (nodes p) with
          | None => descendants_loop fuel' p stack' out
          | Some node =>
              descendants_loop fuel' p (stack' ++ (id <$> children_of p nid)) (out ++ [node])
          end
      end
  end.
Definition descendants_of (fuel : nat) (p : Plan) (nid : string) : option (list PlanNode) :=
  descendants_loop fuel p (id <$> children_of p nid) [].

Definition children_count (p : Plan) : list (string * Z) :=
  foldl (λ m n, match parent_id n with
                | Some q => dset q (dget_or 0%Z q m + 1)%Z m
                | None => m
                end) [] (dvals (nodes p)).
Definition leaf_tasks (p : Plan) : list PlanNode :=
  filter (λ n, dget_or 0%Z (id n) (children_count p) = 0%Z ∧ kind n ∈ [TASK; VERIFY])
    (dvals (nodes p)).

Definition done_ids (p : Plan) : list string :=
  id <$> filter (λ n, intent n = DONE) (dvals (nodes p)).
Definition ready_nodes (p : Plan) : list PlanNode :=
  filter (λ n, is_ready (done_ids p) n = true) (leaf_tasks p).

(** * [topological_order] *)

Definition in_degrees (p : Plan) : list (string * Z) :=
  foldl (λ m n,
    foldl (λ m dep, if dmem dep m then dset (id n) (dget_or 0%Z (id n) m + 1)%Z m else m)
      m (depends_on n))
    ((λ k, (k, 0%Z)) <$> dkeys (nodes p)) (dvals (nodes p)).

(** [self.nodes[nid].priority]; the ids in the queue are keys of [nodes]. *)
Definition priority_of (p : Plan) (nid : string) : Z :=
  from_option priority 0%Z (dget nid (nodes p)).
(** [q.sort(key=..., reverse=True)] keeps equal priorities in order. *)
Definition priority_ge (p : Plan) (a b : string) : bool :=
  Z.leb (priority_of p b) (priority_of p a).

(** The inner [for m in self.nodes.values()]. *)
Fixpoint release (nid : string) (ms : list PlanNode) (in_deg : list (string * Z))
    (q : list string) : result plan_error (list (string * Z) * list string) :=
  match ms with
  | [] => Ok (in_deg, q)
  | m :: ms' =>
      if bool_decide (nid ∈ depends_on m) then
        d ← of_option (dget (id m) in_deg) (KeyError (id m));
        release nid ms' (dset (id m) (d - 1)%Z in_deg)
          (if bool_decide (d - 1 = 0)%Z then q ++ [id m] else q)
      else release nid ms' in_deg q
  end.

Fixpoint topo_loop (fuel : nat) (p : Plan) (in_deg : list (string * Z)) (q : list string)
    (order : list PlanNode) : option (result plan_error (list PlanNode)) :=
  match fuel with
  | O => None
  | S fuel' =>
      match sort_by (priority_ge p) q with
      | [] =>
          Some (if bool_decide (length order = length (nodes p)) then Ok order
                else Err CycleInDependsOn)
      | nid :: q' =>
          match dget nid (nodes p) with
          | None => Some (Err (KeyError nid))
          | Some node =>
              match release nid (dvals (nodes p)) in_deg q' with
              | Err e => Some (Err e)
              | Ok (in_deg', q'') => topo_loop fuel' p in_deg' q'' (order ++ [node])
              end
          end
      end
  end.

(** [None] only when the fuel, one round per node and the last test, runs out. *)
Definition topological_order (p : Plan) : option (result plan_error (list PlanNode)) :=
  let in_deg := in_degrees p in
  topo_loop (S (length (nodes p))) p in_deg
    (filter (λ k, dget_or 0%Z k in_deg = 0%Z) (dkeys in_deg)) [].

(** * [validate] *)

Inductive violation : Set :=
  | MissingGoal | OrderError (e : plan_error)
  | ParentMissing (nid parent : string) | DepMissing (nid dep : string).

Definition node_violations (p : Plan) (n : PlanNode) : list violation :=
  (match parent_id n with
   | Some q => if dmem q (nodes p) then [] else [ParentMissing (id n) q]
   | None => []
   end) ++
  (DepMissing (id n) <$> filter (λ dep, dmem dep (nodes p) = false) (depends_on n)).

Definition validate (p : Plan) : option (list violation) :=
  topo ← topological_order p;
  mret ((match find_goal p with None => [MissingGoal] | Some _ => [] end) ++
        (match topo with Ok _ => [] | Err e => [OrderError e] end) ++
        concat (node_violations p <$> dvals (nodes p)))%list.

(** * [GoalProgress] *)

Record GoalProgress : Type := mkGoalProgress {
  progress_workspace_id : string;
  progress_plan_id : string;
  goal_node_id : string;
  total_nodes : Z;
  todo_nodes : Z;
  in_progress_nodes : Z;
  blocked_nodes : Z;
  done_nodes : Z;
  goal_percent : Q;
  critical_path_remaining_minutes : Z;
}.
Inductive progress_error : Set := NegativeTotal | CountsMismatch (counts : Z) | PercentOutOfRange.

Definition goal_progress_post_init (g : GoalProgress) : result progress_error GoalProgress :=
  if bool_decide (total_nodes g < 0)%Z then Err NegativeTotal
  else
    let counts := (todo_nodes g + in_progress_nodes g + blocked_nodes g + done_nodes g)%Z in
    if negb (bool_decide (counts = total_nodes g)) then Err (CountsMismatch counts)
    else if negb (Qle_bool 0 (goal_percent g) && Qle_bool (goal_percent g) 100) then
      Err PercentOutOfRange
    else Ok g.
Definition is_complete (g : GoalProgress) : bool :=
  bool_decide (0 < total_nodes g)%Z && bool_decide (done_nodes g = total_nodes g).
Definition is_stalled (g : GoalProgress) : bool :=
  let remaining := (total_nodes g - done_nodes g)%Z in
  bool_decide (0 < remaining)%Z && bool_decide (blocked_nodes g = remaining).

(** * Well-formed plans *)

(** Every key is the id of its node, and the nodes went through the constructor. *)
Record keyed (p : Plan) : Prop := {
  keyed_dict : dict_wf (nodes p);
  keyed_id : ∀ k n, dget k (nodes p) = Some n → id n = k;
  keyed_node : ∀ k n, dget k (nodes p) = Some n → node_wf n;
}.

(** What [add_node] establishes: parents and dependencies are earlier in
    the dictionary, and the goal is the node [goal_id]. *)
Record plan_inv (p : Plan) : Prop := {
  inv_keyed : keyed p;
  inv_goal : ∀ k n, dget k (nodes p) = Some n → kind n = GOAL ↔ k = goal_id p;
  inv_earlier : ∀ o1 k o2 n, dkeys (nodes p) = o1 ++ k :: o2 → dget k (nodes p) = Some n →
    (∀ q, parent_id n = Some q → q ∈ o1) ∧ (∀ q, q ∈ depends_on n → q ∈ o1);
}.

Section keyed.
Context (p : Plan) (Hk : keyed p).

Lemma elem_of_nodes k n : (k, n) ∈ nodes p ↔ dget k (nodes p) = Some n.
Proof.
  split; [apply elem_of_dget, Hk|apply dget_Some_elem].
Qed.
Lemma elem_of_dvals n : n ∈ dvals (nodes p) ↔ dget (id n) (nodes p) = Some n.
Proof.
  unfold dvals. rewrite list_elem_of_fmap. split.
  - intros ([k m] & -> & Hin). apply elem_of_nodes in Hin. simpl.
    by rewrite (keyed_id _ Hk _ _ Hin).
  - intros Hn. exists (id n, n). split; [done|by apply elem_of_nodes].
Qed.
Lemma ids_dvals : id <$> dvals (nodes p) = dkeys (nodes p).
Proof.
  unfold dvals, dkeys. rewrite <-list_fmap_compose. apply list_fmap_ext.
  intros i [k n] Hi. simpl. apply (keyed_id _ Hk), elem_of_nodes.
  by eapply list_elem_of_lookup_2.
Qed.
Lemma dvals_NoDup_ids : NoDup (id <$> dvals (nodes p)).
Proof. rewrite ids_dvals. apply Hk. Qed.
Lemma dget_key n : n ∈ dvals (nodes p) → id n ∈ dkeys (nodes p).
Proof. intros Hn. rewrite <-ids_dvals. by apply list_elem_of_fmap_2. Qed.
Lemma key_node k : k ∈ dkeys (nodes p) → ∃ n, dget k (nodes p) = Some n ∧ id n = k.
Proof.
  intros [n Hn]%dget_is_Some_keys. exists n. split; [done|by apply (keyed_id _ Hk)].
Qed.
Lemma children_of_elem nid n :
  n ∈ children_of p nid ↔ dget (id n) (nodes p) = Some n ∧ parent_id n = Some nid.
Proof. unfold children_of. rewrite list_elem_of_filter, elem_of_dvals. tauto. Qed.
End keyed.

(** * The topological order refines Kahn's algorithm *)

Definition plan_preds (p : Plan) (k : string) : list string :=
  match dget k (nodes p) with
  | Some n => filter (.∈ dkeys (nodes p)) (depends_on n)
  | None => []
  end.
(** The dependency edges between nodes of the plan. *)
Definition dep_edge (p : Plan) : relation string := kedge (dkeys (nodes p)) (plan_preds p).
Definition deps_acyclic (p : Plan) : Prop := acyclic (dkeys (nodes p)) (plan_preds p).

Definition count_deps (m : list (string * Z)) (n : PlanNode) : list (string * Z) :=
  foldl (λ m dep, if dmem dep m then dset (id n) (dget_or 0%Z (id n) m + 1)%Z m else m)
    m (depends_on n).

Lemma count_deps_spec n m : id n ∈ dkeys m →
  dkeys (count_deps m n) = dkeys m ∧
  ∀ k, dget_or 0%Z k (count_deps m n) =
    (dget_or 0%Z k m +
      if decide (k = id n) then Z.of_nat (length (filter (.∈ dkeys m) (depends_on n))) else 0)%Z.
Proof.
  unfold count_deps. generalize (depends_on n) as l. intros l. revert m.
  induction l as [|d l IH]; intros m Hm; simpl.
  { split; [done|]. intros k. case_decide; lia. }
  destruct (dmem d m) eqn:Hd.
  - apply dmem_true in Hd.
    destruct (IH (dset (id n) (dget_or 0%Z (id n) m + 1)%Z m)) as [IHk IHv];
      [by rewrite dkeys_dset_old|].
    rewrite dkeys_dset_old in IHk, IHv by done. split; [done|]. intros k.
    rewrite IHv, filter_cons, (decide_True (P := d ∈ dkeys m)), dget_or_dset by done. simpl.
    repeat case_decide; subst; try done; lia.
  - apply dmem_false in Hd. destruct (IH m Hm) as [IHk IHv]. split; [done|].
    intros k. rewrite IHv, filter_cons, (decide_False (P := d ∈ dkeys m)) by done. done.
Qed.

Lemma in_degrees_fold (p : Plan) ns : ∀ m,
  dkeys m = dkeys (nodes p) → (∀ n, n ∈ ns → id n ∈ dkeys m) → NoDup (id <$> ns) →
  dkeys (foldl count_deps m ns) = dkeys m ∧
  (∀ k, k ∉ id <$> ns → dget_or 0%Z k (foldl count_deps m ns) = dget_or 0%Z k m) ∧
  (∀ n, n ∈ ns → dget_or 0%Z (id n) (foldl count_deps m ns) =
     (dget_or 0%Z (id n) m + Z.of_nat (length (filter (.∈ dkeys (nodes p)) (depends_on n))))%Z).
Proof.
  induction ns as [|n ns IH]; intros m Hm Hin Hnd; simpl; [set_solver|].
  rewrite fmap_cons, NoDup_cons in Hnd. destruct Hnd as [Hn Hnd].
  destruct (count_deps_spec n m) as [Hk Hv]; [apply Hin; left|].
  destruct (IH (count_deps m n)) as (IHk & IHo & IHi); [congruence| |done|].
  { intros n' Hn'. rewrite Hk. apply Hin. by right. }
  split; [congruence|]. split.
  - intros k [? ?]%not_elem_of_cons. rewrite IHo, Hv, decide_False by done. lia.
  - intros n' [->|Hn']%elem_of_cons.
    + rewrite IHo, Hv, decide_True, Hm by done. done.
    + rewrite IHi, Hv by done. rewrite decide_False; [lia|].
      intros Heq. apply Hn. rewrite <-Heq. by apply list_elem_of_fmap_2.
Qed.

Lemma plan_preds_sub p n d : d ∈ plan_preds p n → d ∈ dkeys (nodes p).
Proof.
  unfold plan_preds. destruct (dget n (nodes p)); [|by intros ?%elem_of_nil].
  by intros [? _]%list_elem_of_filter.
Qed.

Section topo.
Context (p : Plan) (Hk : keyed p).

Lemma zero_dict_keys (l : list string) : dkeys ((λ k, (k, 0%Z)) <$> l) = l.
Proof. unfold dkeys. rewrite <-list_fmap_compose. apply list_fmap_id. Qed.
Lemma zero_dict_get (l : list string) k : dget_or 0%Z k ((λ k, (k, 0%Z)) <$> l) = 0%Z.
Proof. unfold dget_or. induction l; simpl; [done|]. by case_decide. Qed.

Lemma plan_preds_node n : dget (id n) (nodes p) = Some n →
  plan_preds p (id n) = filter (.∈ dkeys (nodes p)) (depends_on n).
Proof. unfold plan_preds. by intros ->. Qed.

Lemma in_degrees_spec :
  dkeys (in_degrees p) = dkeys (nodes p) ∧
  ∀ k, k ∈ dkeys (nodes p) → dget_or 0%Z k (in_degrees p) = Z.of_nat (length (plan_preds p k)).
Proof.
  unfold in_degrees. fold count_deps.
  destruct (in_degrees_fold p (dvals (nodes p)) ((λ k, (k, 0%Z)) <$> dkeys (nodes p)))
    as (H1 & _ & H3).
  - apply zero_dict_keys.
  - intros n Hn. rewrite zero_dict_keys. by apply dget_key.
  - by apply dvals_NoDup_ids.
  - split; [by rewrite zero_dict_keys in H1|].
    intros k Hkin. destruct (key_node p Hk k Hkin) as (n & Hn & <-).
    rewrite (H3 n) by (by apply elem_of_dvals). by rewrite zero_dict_get, plan_preds_node.
Qed.

Lemma release_spec nid ms : ∀ in_deg q,
  (∀ m, m ∈ ms → id m ∈ dkeys in_deg) → NoDup (id <$> ms) →
  ∃ in_deg', release nid ms in_deg q =
      Ok (in_deg', q ++ (id <$> filter (λ m, nid ∈ depends_on m ∧
                                             dget_or 0%Z (id m) in_deg = 1%Z) ms)) ∧
    dkeys in_deg' = dkeys in_deg ∧
    ∀ k, dget_or 0%Z k in_deg' = (dget_or 0%Z k in_deg -
      Z.of_nat (length (filter (λ m, id m = k ∧ nid ∈ depends_on m) ms)))%Z.
Proof.
  induction ms as [|m ms IH]; intros in_deg q Hin Hnd; simpl.
  { exists in_deg. rewrite app_nil_r. split_and!; [done..|]. intros; simpl; lia. }
  rewrite fmap_cons, NoDup_cons in Hnd. destruct Hnd as [Hm Hnd].
  case_bool_decide as Hd.
  - assert (Him : id m ∈ dkeys in_deg) by (apply Hin; left).
    pose proof Him as [d Hg]%dget_is_Some_keys. rewrite Hg. simpl.
    assert (Hdg : dget_or 0%Z (id m) in_deg = d) by (unfold dget_or; by rewrite Hg).
    edestruct (IH (dset (id m) (d - 1)%Z in_deg)) as (in_deg' & -> & Hk' & Hv);
      [intros m' Hm'; rewrite dkeys_dset_old by done; apply Hin; by right|done|].
    rewrite dkeys_dset_old in Hk' by done.
    exists in_deg'. split; [|split; [done|]].
    + do 2 f_equal.
      assert (filter (λ m0, nid ∈ depends_on m0 ∧
                dget_or 0%Z (id m0) (dset (id m) (d - 1)%Z in_deg) = 1%Z) ms =
              filter (λ m0, nid ∈ depends_on m0 ∧ dget_or 0%Z (id m0) in_deg = 1%Z) ms) as ->.
      { apply filter_ext_elem. intros m' Hm'.
        rewrite dget_or_dset, decide_False; [done|]. intros Heq. apply Hm. rewrite Heq.
        by apply list_elem_of_fmap_2. }
      rewrite filter_cons, Hdg. case_bool_decide.
      * rewrite decide_True by (split; [done|lia]). by rewrite fmap_cons, <-app_assoc.
      * rewrite decide_False by (intros [_ ?]; lia). done.
    + intros k. rewrite Hv, dget_or_dset, filter_cons.
      destruct (decide (id m = k)) as [<-|Hne].
      * rewrite decide_True by done. simpl. rewrite Hdg. lia.
      * rewrite decide_False by (intros [? _]; done). done.
  - edestruct (IH in_deg) as (in_deg' & -> & Hk' & Hv);
      [intros m' Hm'; apply Hin; by right|done|].
    exists in_deg'. rewrite !filter_cons, decide_False by (intros [? _]; done).
    split_and!; [done..|]. intros k. rewrite Hv, filter_cons, decide_False; [done|].
    by intros [_ ?].
Qed.

Let keys := dkeys (nodes p).
Let prio := priority_of p.

Definition abs_state (in_deg : list (string * Z)) (q : list string) (order : list PlanNode)
    : kstate := KState (λ k, dget_or 0%Z k in_deg) q (id <$> order).

Lemma released_edges nid k : nid ∈ keys → k ∈ keys →
  Z.of_nat (length (filter (λ m, id m = k ∧ nid ∈ depends_on m) (dvals (nodes p)))) =
  edges_to (plan_preds p) nid k.
Proof.
  intros Hn Hkin. destruct (key_node p Hk k Hkin) as (n & Hg & <-).
  rewrite filter_key by first [by apply dvals_NoDup_ids | by apply elem_of_dvals].
  unfold edges_to. rewrite plan_preds_node by done. f_equal.
  rewrite NoDup_filter_eq by (apply NoDup_filter, (keyed_node _ Hk _ _ Hg)).
  case_decide as H1; case_decide as H2; rewrite ?list_elem_of_filter in *; naive_solver.
Qed.

Lemma topo_init : kinit keys (plan_preds p)
  (abs_state (in_degrees p)
     (filter (λ k, dget_or 0%Z k (in_degrees p) = 0%Z) (dkeys (in_degrees p))) []).
Proof.
  destruct in_degrees_spec as [H1 H2].
  split; [exact H2|]. split; [|done]. simpl. by rewrite H1.
Qed.

Lemma topo_step in_deg q order nid q' node : dkeys in_deg = keys →
  kinv keys (plan_preds p) (abs_state in_deg q order) →
  sort_by (priority_ge p) q = nid :: q' → dget nid (nodes p) = Some node →
  ∃ in_deg' q'', release nid (dvals (nodes p)) in_deg q' = Ok (in_deg', q'') ∧
    dkeys in_deg' = keys ∧
    kstep keys (plan_preds p) (abs_state in_deg q order)
      (abs_state in_deg' q'' (order ++ [node])).
Proof.
  intros Hd Hinv Hs Hg.
  assert (Hnid : nid ∈ keys) by (apply dget_is_Some_keys; eauto).
  destruct (release_spec nid (dvals (nodes p)) in_deg q') as (in_deg' & -> & Hd' & Hv).
  { intros m Hm. rewrite Hd. by apply dget_key. }
  { by apply dvals_NoDup_ids. }
  eexists _, _. split; [done|]. split; [congruence|].
  exists nid, q'. split_and!; simpl.
  - rewrite <-Hs. symmetry. apply sort_by_perm.
  - by rewrite fmap_app, fmap_cons, (keyed_id _ Hk _ _ Hg).
  - intros n Hn. by rewrite Hv, released_edges.
  - apply reflexive_eq. f_equal. unfold keys at 1. rewrite <-(ids_dvals p Hk), filter_of_fmap.
    f_equal. apply filter_ext_elem. intros m Hm. simpl.
    pose proof Hm as Hgm. apply elem_of_dvals in Hgm; [|done].
    rewrite Hv, released_edges, plan_preds_node, list_elem_of_filter by eauto using dget_key.
    split; intros [Hdep Hz]; (split; [tauto|]).
    + unfold edges_to. rewrite plan_preds_node, NoDup_filter_eq, decide_True by
        (done || (by apply list_elem_of_filter) ||
         apply NoDup_filter, (keyed_node _ Hk _ _ Hgm)). lia.
    + revert Hz. unfold edges_to. rewrite plan_preds_node, NoDup_filter_eq, decide_True by
        (done || (apply list_elem_of_filter; tauto) ||
         apply NoDup_filter, (keyed_node _ Hk _ _ Hgm)). lia.
Qed.

(** Among the nodes whose dependencies are met, the one of highest
    priority comes first. *)
Definition greedy (o : list string) : Prop :=
  ∀ o1 x o2, o = o1 ++ x :: o2 →
  ∀ y, y ∈ keys → y ∉ o1 → (∀ d, d ∈ plan_preds p y → d ∈ o1) → (prio y ≤ prio x)%Z.

Lemma greedy_step in_deg q order nid q' :
  kinv keys (plan_preds p) (abs_state in_deg q order) →
  sort_by (priority_ge p) q = nid :: q' → greedy (id <$> order) →
  greedy ((id <$> order) ++ [nid]).
Proof.
  intros Hinv Hs Hgr o1 x o2 Ho y Hy Hyo Hpreds.
  destruct (decide (o2 = [])) as [->|Hne].
  - apply app_inj_tail in Ho as [<- <-].
    assert (Hyq : y ∈ q).
    { assert (y ∈ (id <$> order) ++ q) as [?|?]%elem_of_app; [|done|done].
      apply (kinv_zero _ _ _ Hinv y Hy). rewrite (kinv_deg _ _ _ Hinv y Hy). simpl.
      destruct (filter _ _) as [|d l] eqn:E; [done|].
      assert (d ∈ filter (.∉ id <$> order) (plan_preds p y)) as [? ?]%list_elem_of_filter
        by (rewrite E; left). naive_solver. }
    assert (Hyq' : y ∈ nid :: q') by (rewrite <-Hs; by apply elem_of_sort_by).
    pose proof (sort_by_sorted (priority_ge p)) as Hsort. rewrite elem_of_cons in Hyq'.
    destruct Hyq' as [->|Hyq']; [done|]. specialize (Hsort).
    assert (StronglySorted (λ a b, priority_ge p a b = true) (nid :: q')) as Hss.
    { rewrite <-Hs. apply sort_by_sorted; unfold priority_ge; intros *; rewrite ?Z.leb_le;
        rewrite ?Z.leb_gt; lia. }
    apply StronglySorted_inv in Hss as [_ Hall]. rewrite Forall_forall in Hall.
    apply Hall in Hyq'. by apply Z.leb_le in Hyq'.
  - destruct (exists_last Hne) as (o2' & z & ->).
    rewrite app_comm_cons, app_assoc in Ho. apply app_inj_tail in Ho as [Ho _]. eauto.
Qed.

Lemma topo_loop_spec fuel : ∀ in_deg q order,
  dkeys in_deg = keys → kinv keys (plan_preds p) (abs_state in_deg q order) →
  Forall (λ n, dget (id n) (nodes p) = Some n) order → greedy (id <$> order) →
  length keys - length order < fuel →
  ∃ s o, kinv keys (plan_preds p) s ∧ queue s = [] ∧ Kahn.order s = id <$> o ∧
    Forall (λ n, dget (id n) (nodes p) = Some n) o ∧ greedy (id <$> o) ∧
    topo_loop fuel p in_deg q order =
      Some (if bool_decide (length o = length (nodes p)) then Ok o else Err CycleInDependsOn).
Proof.
  induction fuel as [|fuel IH]; intros in_deg q order Hd Hinv Hall Hgr Hlt; [lia|].
  simpl. destruct (sort_by (priority_ge p) q) as [|nid q'] eqn:Hs.
  - assert (q = []) as ->.
    { apply Permutation_nil. rewrite <-Hs. apply sort_by_perm. }
    by exists (abs_state in_deg [] order), order.
  - assert (Hnq : nid ∈ q) by (rewrite <-(elem_of_sort_by (priority_ge p)), Hs; left).
    assert (Hnk : nid ∈ keys).
    { apply (kinv_sub _ _ _ Hinv). apply elem_of_app. by right. }
    destruct (key_node p Hk nid Hnk) as (node & Hg & Hid). rewrite Hg.
    destruct (topo_step in_deg q order nid q' node) as (in_deg' & q'' & -> & Hd' & Hstep);
      [done..|].
    pose proof (kinv_length _ _ _ Hinv) as Hlen. simpl in Hlen. rewrite length_fmap in Hlen.
    assert (1 ≤ length q) by (destruct q; [by apply elem_of_nil in Hnq|simpl; lia]).
    apply IH; [done| | | |rewrite length_app; simpl; lia].
    + eapply kinv_step; [apply Hk| |exact Hinv|exact Hstep].
      intros n d _. by apply plan_preds_sub.
    + apply Forall_app; split; [done|]. constructor; [by rewrite Hid|constructor].
    + rewrite fmap_app, fmap_cons, Hid. by eapply greedy_step.
Qed.

Lemma topological_order_aux :
  ∃ s o, kinv keys (plan_preds p) s ∧ queue s = [] ∧ Kahn.order s = id <$> o ∧
    Forall (λ n, dget (id n) (nodes p) = Some n) o ∧ greedy (id <$> o) ∧
    topological_order p =
      Some (if bool_decide (length o = length (nodes p)) then Ok o else Err CycleInDependsOn).
Proof.
  unfold topological_order. apply topo_loop_spec.
  - apply in_degrees_spec.
  - eapply kinv_init; [apply Hk| |exact topo_init].
    intros n d _. by apply plan_preds_sub.
  - constructor.
  - by intros [].
  - simpl. unfold keys, dkeys. rewrite length_fmap. lia.
Qed.
End topo.

(** * The invariant and the mutators *)

Lemma missing_dep_None p n :
  missing_dep p n = None ↔ ∀ d, d ∈ depends_on n → d ∈ dkeys (nodes p) ∨ d = id n.
Proof.
  unfold missing_dep. rewrite find_None_all.
  split; intros H d Hd; specialize (H d Hd);
    rewrite andb_false_iff, !negb_false_iff, dmem_true, bool_decide_eq_true in *; done.
Qed.

(** [add_node] succeeds exactly when its guards hold. *)
Lemma add_node_ok n p p' :
  add_node n p = (p', Ok tt) ↔
  id n ∉ dkeys (nodes p) ∧ plan_id n = ident p ∧
  (if decide (kind n = GOAL)
   then id n = goal_id p ∧ (∀ g, find_goal p = Some g → id g = id n)
   else ∃ q, parent_id n = Some q ∧ q ∈ dkeys (nodes p)) ∧
  missing_dep p n = None ∧ p' = set_nodes (dset (id n) n (nodes p)) p.
Proof.
  unfold add_node; unfold_M.
  destruct (dmem (id n) (nodes p)) eqn:Hm; simpl.
  { apply dmem_true in Hm. naive_solver. }
  apply dmem_false in Hm. case_bool_decide; simpl; [|naive_solver].
  case_bool_decide; [rewrite decide_True by done|rewrite decide_False by done].
  - destruct (find_goal p) as [g|]; simpl; repeat (case_bool_decide; simpl);
      destruct (missing_dep p n); naive_solver.
  - destruct (parent_id n) as [q|]; simpl; [|naive_solver].
    destruct (dmem q (nodes p)) eqn:Hq; simpl.
    + apply dmem_true in Hq. destruct (missing_dep p n); naive_solver.
    + apply dmem_false in Hq. naive_solver.
Qed.
Lemma add_node_err n p e : (add_node n p).2 = Err e → (add_node n p).1 = p.
Proof.
  unfold add_node; unfold_M.
  case_goal.
Qed.
Lemma replace_node_ok n now p p' :
  replace_node n now p = (p', Ok tt) ↔
  id n ∈ dkeys (nodes p) ∧
  p' = mkPlan (ident p) (workspace_id p) (goal_id p) (dset (id n) n (nodes p)) (status p) (Some now).
Proof.
  unfold replace_node; unfold_M.
  rewrite <-dmem_true. destruct (dmem (id n) (nodes p)); naive_solver.
Qed.

Lemma keyed_dset p p' n : keyed p → node_wf n → nodes p' = dset (id n) n (nodes p) → keyed p'.
Proof.
  intros [H1 H2 H3] Hn Heq. constructor; rewrite Heq.
  - by apply dset_wf.
  - intros k m. rewrite dget_dset. case_decide; [congruence|eauto].
  - intros k m. rewrite dget_dset. case_decide; [congruence|eauto].
Qed.

Lemma find_goal_inv p g : keyed p → find_goal p = Some g →
  kind g = GOAL ∧ dget (id g) (nodes p) = Some g.
Proof.
  intros Hk [Hin Hg]%find_Some_first. split_bools. split; [done|by apply elem_of_dvals].
Qed.

Lemma add_node_inv n p p' :
  plan_inv p → node_wf n → add_node n p = (p', Ok tt) → plan_inv p'.
Proof.
  intros [Hk Hg He] Hn (Hnew & _ & Hkind & Hdep & ->)%add_node_ok.
  rewrite missing_dep_None in Hdep.
  assert (Hk' : keyed (set_nodes (dset (id n) n (nodes p)) p)) by (by eapply keyed_dset).
  constructor; [done| |]; simpl.
  - intros k m. rewrite dget_dset. destruct (decide (id n = k)) as [<-|Hid]; [|by apply Hg].
    intros [= <-]. destruct (decide (kind n = GOAL)) as [|Hnk]; [naive_solver|]. split; [done|].
    intros Hgoal'. destruct Hkind as (q & Hq & Hqin).
    (* the plan already holds its first node, the goal *)
    exfalso. apply Hnew. rewrite <-Hgoal' in *.
    destruct (dkeys (nodes p)) as [|k0 o] eqn:Ho; [by apply elem_of_nil in Hqin|].
    assert (k0 ∈ dkeys (nodes p)) as (n0 & Hg0 & _)%(key_node p Hk) by (rewrite Ho; left).
    destruct (He [] k0 o n0 eq_refl Hg0) as [Hp0 _].
    assert (kind n0 = GOAL) as Hkg.
    { apply (node_wf_parent _ (keyed_node _ Hk k0 n0 Hg0)).
      destruct (parent_id n0) as [q0|]; [|done].
      by specialize (Hp0 q0 eq_refl); apply elem_of_nil in Hp0. }
    rewrite <-(proj1 (Hg k0 n0 Hg0) Hkg). left.
  - intros o1 k o2 m. rewrite dkeys_dset, decide_False by done. intros Heq Hm.
    destruct (decide (o2 = [])) as [->|Hne].
    + apply app_inj_tail in Heq as [<- <-]. rewrite dget_dset_eq in Hm. simplify_eq. split.
      * intros q Hq. destruct (decide (kind m = GOAL)) as [Hgk|]; [|naive_solver].
        apply (node_wf_parent _ Hn) in Hgk. congruence.
      * intros q Hq. destruct (Hdep q Hq) as [?| ->]; [done|]. by destruct (node_wf_self _ Hn).
    + destruct (exists_last Hne) as (o2' & z & ->).
      rewrite app_comm_cons, app_assoc in Heq. apply app_inj_tail in Heq as [Heq _].
      rewrite dget_dset_ne in Hm; [by eapply He|].
      intros <-. apply Hnew. rewrite Heq. set_solver.
Qed.

Lemma replace_node_inv n now p p' m :
  plan_inv p → node_wf n → dget (id n) (nodes p) = Some m → same_shape m n →
  replace_node n now p = (p', Ok tt) → plan_inv p'.
Proof.
  intros [Hk Hg He] Hn Hm (_ & _ & Hpar & Hkd & Hdeps & _) [Hin ->]%replace_node_ok.
  constructor; simpl.
  - by eapply keyed_dset.
  - intros k n'. rewrite dget_dset. case_decide; [|by apply Hg].
    intros [= <-]. subst k. rewrite <-Hkd. by apply Hg.
  - intros o1 k o2 x. rewrite dkeys_dset_old, dget_dset by done. intros Heq.
    case_decide; [|by eapply He]. intros [= <-]. subst k. rewrite <-Hpar, <-Hdeps. by eapply He.
Qed.

(** * Parent edges and acyclicity *)

Definition parent_preds (p : Plan) (k : string) : list string :=
  match dget k (nodes p) with
  | Some n => match parent_id n with Some q => [q] | None => [] end
  | None => []
  end.
(** [child_edge p x y]: [y] is a node of the plan whose parent is [x]. *)
Definition child_edge (p : Plan) : relation string := kedge (dkeys (nodes p)) (parent_preds p).

Lemma child_edge_spec p x y : keyed p →
  child_edge p x y ↔ ∃ n, dget y (nodes p) = Some n ∧ parent_id n = Some x.
Proof.
  intros Hk. unfold child_edge, kedge, parent_preds. rewrite <-dget_is_Some_keys. split.
  - intros [[n Hn] Hx]. rewrite Hn in Hx. exists n.
    destruct (parent_id n); [|by apply elem_of_nil in Hx].
    by apply list_elem_of_singleton in Hx as ->.
  - intros (n & -> & ->). split; [eauto|left].
Qed.
Lemma child_edge_ids p x y : keyed p → child_edge p x y ↔ y ∈ id <$> children_of p x.
Proof.
  intros Hk. rewrite child_edge_spec, list_elem_of_fmap by done. split.
  - intros (n & Hn & Hp). exists n. rewrite children_of_elem by done.
    by rewrite (keyed_id _ Hk _ _ Hn).
  - intros (n & -> & [? ?]%children_of_elem); eauto.
Qed.
Lemma child_edge_unique p x x' y : keyed p → child_edge p x y → child_edge p x' y → x = x'.
Proof. intros Hk. rewrite !child_edge_spec by done. naive_solver. Qed.

Section inv.
Context (p : Plan) (Hinv : plan_inv p).
Let Hk := inv_keyed p Hinv.

Lemma earlier_irrefl (preds : string → list string) :
  (∀ o1 m o2, dkeys (nodes p) = o1 ++ m :: o2 → ∀ q, q ∈ preds m → q ∈ o1) →
  acyclic (dkeys (nodes p)) preds.
Proof.
  intros He x Hx. pose proof (kedge_tc_target _ _ _ _ Hx) as Hin.
  destruct (list_elem_of_split _ _ Hin) as (a & b & Hab).
  pose proof (topo_path_before _ _ _ _ _ He Hx _ _ Hab) as Hxa.
  pose proof (keyed_dict _ Hk) as Hnd. unfold dict_wf in Hnd. rewrite Hab in Hnd.
  apply NoDup_app in Hnd as (_ & Hd & _). apply (Hd x Hxa). left.
Qed.

Lemma inv_acyclic : deps_acyclic p.
Proof.
  apply earlier_irrefl. intros o1 m o2 Ho q. unfold plan_preds.
  destruct (dget m (nodes p)) as [n|] eqn:Hm; [|by intros ?%elem_of_nil].
  intros [_ Hq]%list_elem_of_filter. destruct (inv_earlier _ Hinv _ _ _ _ Ho Hm). auto.
Qed.
Lemma inv_tree : acyclic (dkeys (nodes p)) (parent_preds p).
Proof.
  apply earlier_irrefl. intros o1 m o2 Ho q. unfold parent_preds.
  destruct (dget m (nodes p)) as [n|] eqn:Hm; [|by intros ?%elem_of_nil].
  destruct (inv_earlier _ Hinv _ _ _ _ Ho Hm) as [Hpar _].
  destruct (parent_id n); [|by intros ?%elem_of_nil].
  intros ->%list_elem_of_singleton. auto.
Qed.

(** The loop of [descendants_of] below [r], with [P] the ids of [out]. *)
Record desc_inv (r : string) (P S : list string) : Prop := {
  di_nodup : NoDup (P ++ S);
  di_below : ∀ x, x ∈ P ++ S → tc (child_edge p) r x;
  di_parent : ∀ x, x ∈ P ++ S → ∃ y, (y = r ∨ y ∈ P) ∧ child_edge p y x;
  di_closed : ∀ y x, y = r ∨ y ∈ P → child_edge p y x → x ∈ P ++ S;
}.

Lemma children_ids_NoDup nid : NoDup (id <$> children_of p nid).
Proof.
  unfold children_of. pose proof (dvals_NoDup_ids p Hk) as H. revert H.
  generalize (dvals (nodes p)) as l. induction l as [|n l IH]; [constructor|].
  rewrite fmap_cons, NoDup_cons, filter_cons. intros [Hn Hl].
  case_decide; [|auto]. rewrite fmap_cons, NoDup_cons. split; [|auto].
  intros (m & Hm & [_ Hin]%list_elem_of_filter)%list_elem_of_fmap. apply Hn.
  rewrite Hm. by apply list_elem_of_fmap_2.
Qed.

Lemma desc_inv_step r P nid S :
  desc_inv r P (nid :: S) →
  desc_inv r (P ++ [nid]) (S ++ (id <$> children_of p nid)).
Proof.
  intros [Hnd Hb Hp Hc].
  assert (Hnid : nid ∈ P ++ nid :: S) by set_solver.
  assert (Heq : (P ++ [nid]) ++ S ++ (id <$> children_of p nid) =
                (P ++ nid :: S) ++ (id <$> children_of p nid)) by (by rewrite <-!app_assoc).
  assert (Hnew : ∀ c, c ∈ id <$> children_of p nid → child_edge p nid c)
    by (intros; by apply child_edge_ids).
  constructor; rewrite ?Heq.
  - apply NoDup_app. split; [done|]. split; [|apply children_ids_NoDup].
    intros c Hcin Hcc%Hnew. destruct (Hp c Hcin) as (y & Hy & Hyc).
    rewrite (child_edge_unique _ _ _ _ Hk Hyc Hcc) in Hy. destruct Hy as [->|Hy].
    + by apply (inv_tree r), Hb.
    + apply NoDup_app in Hnd as (_ & Hd & _). apply (Hd nid Hy). left.
  - intros x [Hx|Hx%Hnew]%elem_of_app; [auto|]. eapply tc_r; [by apply Hb|done].
  - intros x [Hx|Hx%Hnew]%elem_of_app.
    + destruct (Hp x Hx) as (y & Hy & ?). exists y. split; [|done]. set_solver.
    + exists nid. split; [set_solver|done].
  - intros y x Hy Hyx. rewrite elem_of_app.
    assert (y = nid ∨ (y = r ∨ y ∈ P)) as [->|Hy'] by set_solver; [right|left; eauto].
    by apply child_edge_ids.
Qed.

Lemma descendants_loop_spec r fuel : ∀ S out,
  Forall (λ n, dget (id n) (nodes p) = Some n) out →
  desc_inv r (id <$> out) S →
  length (nodes p) - length out < fuel →
  ∃ out', descendants_loop fuel p S out = Some out' ∧
    Forall (λ n, dget (id n) (nodes p) = Some n) out' ∧ desc_inv r (id <$> out') [].
Proof.
  induction fuel as [|fuel IH]; intros S out Hall Hd Hlt; [lia|]. simpl.
  destruct S as [|nid S]; [eauto|].
  assert (Hin : nid ∈ dkeys (nodes p)).
  { eapply kedge_tc_target, (di_below _ _ _ Hd). set_solver. }
  destruct (key_node p Hk nid Hin) as (n & Hn & Hid). rewrite Hn.
  assert (length out < length (nodes p)).
  { assert (length ((id <$> out) ++ nid :: S) ≤ length (dkeys (nodes p))) as Hl.
    { apply submseteq_length, NoDup_submseteq; [apply Hd|].
      intros x Hx. eapply kedge_tc_target, (di_below _ _ _ Hd x Hx). }
    unfold dkeys in Hl. rewrite length_app, !length_fmap in Hl. simpl in Hl. lia. }
  apply IH.
  - apply Forall_app. split; [done|]. constructor; [by rewrite Hid|constructor].
  - rewrite fmap_app, fmap_cons, Hid. by apply desc_inv_step.
  - rewrite length_app. simpl. lia.
Qed.

Lemma desc_inv_init r : desc_inv r [] (id <$> children_of p r).
Proof.
  constructor; simpl.
  - apply children_ids_NoDup.
  - intros x Hx. apply tc_once. by apply child_edge_ids.
  - intros x Hx. exists r. split; [by left|by apply child_edge_ids].
  - intros y x [->|?%elem_of_nil]; [|done]. by rewrite child_edge_ids.
Qed.

Lemma desc_inv_final r P : desc_inv r P [] → ∀ x, x ∈ P ↔ tc (child_edge p) r x.
Proof.
  intros [_ Hb _ Hc] x. rewrite app_nil_r in *. split; [auto|].
  assert (∀ y x, tc (child_edge p) y x → y = r ∨ y ∈ P → x ∈ P) as Hall.
  { induction 1 as [y z Hyz|y z w Hyz _ IH]; intros Hy; [eauto|]. apply IH. right. eauto. }
  intros Hx. eapply Hall; [exact Hx|by left].
Qed.
End inv.

(** * Validation and the frontier *)

(** Plans reached by the two mutators, with nodes from the constructor and
    replacements that keep the node's shape ([with_intent] and the like). *)
Inductive built : Plan → Prop :=
  | built_new pid ws goal p : new_plan pid ws goal = Ok p → built p
  | built_add p n p' : built p → node_wf n → add_node n p = (p', Ok tt) → built p'
  | built_replace p n m now p' :
      built p → node_wf n → dget (id n) (nodes p) = Some m → same_shape m n →
      replace_node n now p = (p', Ok tt) → built p'.

Lemma built_inv p : built p → plan_inv p.
Proof.
  induction 1 as [pid ws goal p Hnew| |];
    [|by eapply (add_node_inv _ p)|by eapply (replace_node_inv _ _ p)].
  unfold new_plan in Hnew. case_match; simplify_eq.
  constructor; simpl; [|done|by intros []]. constructor; simpl; [constructor|done..].
Qed.

Lemma topological_order_ok p : keyed p →
  (∃ o, topological_order p = Some (Ok o)) ↔ deps_acyclic p.
Proof.
  intros Hk. destruct (topological_order_aux p Hk) as (s & o & Hinv & Hq & Ho & _ & _ & ->).
  assert (Hlen : length (Kahn.order s) = length o) by (by rewrite Ho, length_fmap).
  assert (Hn : length (dkeys (nodes p)) = length (nodes p)) by apply length_fmap.
  unfold deps_acyclic.
  rewrite <-(kahn_correct _ _ (keyed_dict _ Hk) ltac:(intros ? ? _; apply plan_preds_sub) s)
    by done.
  rewrite Hlen, Hn. case_bool_decide; naive_solver.
Qed.

(** What a topological order that is returned looks like. *)
Lemma topological_order_sorted p o : keyed p → topological_order p = Some (Ok o) →
  (id <$> o) ≡ₚ dkeys (nodes p) ∧ (∀ n, n ∈ o → dget (id n) (nodes p) = Some n) ∧
  (∀ o1 n o2, o = o1 ++ n :: o2 →
     (∀ d, d ∈ depends_on n → d ∈ dkeys (nodes p) → d ∈ id <$> o1)) ∧
  greedy p (id <$> o).
Proof.
  intros Hk Hok. destruct (topological_order_aux p Hk) as (s & o' & Hinv & Hq & Ho & Hall & Hgr & Heq).
  rewrite Heq in Hok. case_bool_decide as Hlen; simplify_eq. rewrite Forall_forall in Hall.
  split_and!; [|exact Hall| |done].
  - rewrite <-Ho. eapply (finished_perm _ (plan_preds p)); [apply Hk| |done|].
    + intros ? ? _. apply plan_preds_sub.
    + rewrite Ho. unfold dkeys. by rewrite !length_fmap.
  - intros o1 n o2 -> d Hd Hdk. eapply (kinv_topo _ _ _ Hinv _ (id n) (id <$> o2)).
    + by rewrite Ho, fmap_app, fmap_cons.
    + rewrite plan_preds_node; [by apply list_elem_of_filter|apply Hall; set_solver].
Qed.

Lemma find_goal_None p : keyed p →
  find_goal p = None ↔ ∀ k n, dget k (nodes p) = Some n → kind n ≠ GOAL.
Proof.
  intros Hk. unfold find_goal. rewrite find_None_all.
  setoid_rewrite bool_decide_eq_false. setoid_rewrite (elem_of_dvals p Hk). split; [|eauto].
  intros H k n Hn. apply H. by rewrite (keyed_id _ Hk _ _ Hn).
Qed.

Lemma node_violations_nil p n :
  node_violations p n = [] ↔
  (∀ q, parent_id n = Some q → q ∈ dkeys (nodes p)) ∧ (∀ d, d ∈ depends_on n → d ∈ dkeys (nodes p)).
Proof.
  unfold node_violations. rewrite app_nil.
  assert (∀ l : list string, DepMissing (id n) <$> l = [] ↔ l = []) as ->.
  { intros l. split; [apply fmap_nil_inv|by intros ->]. }
  apply ZifyClasses.and_morph.
  - destruct (parent_id n) as [q|]; [|naive_solver].
    destruct (dmem q (nodes p)) eqn:Hq; [apply dmem_true in Hq|apply dmem_false in Hq];
      naive_solver.
  - induction (depends_on n) as [|d l IH]; [set_solver|]. rewrite filter_cons.
    case_decide as Hd; [apply dmem_false in Hd; set_solver|].
    apply not_false_is_true, dmem_true in Hd. set_solver.
Qed.

Lemma validate_spec p : keyed p →
  ∃ vs, validate p = Some vs ∧
  (vs = [] ↔ find_goal p ≠ None ∧ deps_acyclic p ∧ ∀ k n, dget k (nodes p) = Some n →
     (∀ q, parent_id n = Some q → q ∈ dkeys (nodes p)) ∧
     (∀ d, d ∈ depends_on n → d ∈ dkeys (nodes p))).
Proof.
  intros Hk. unfold validate.
  assert (∃ r, topological_order p = Some r ∧ (is_ok r = true ↔ deps_acyclic p)) as (r & Hr & Hok).
  { destruct (topological_order_aux p Hk) as (s & o & _ & _ & _ & _ & _ & Ho).
    eexists. split; [exact Ho|]. rewrite <-topological_order_ok, Ho by done.
    case_bool_decide; simpl; naive_solver. }
  rewrite Hr. eexists. split; [done|]. rewrite !app_nil. apply ZifyClasses.and_morph.
  { destruct (find_goal p); naive_solver. }
  apply ZifyClasses.and_morph.
  { rewrite <-Hok. destruct r; naive_solver. }
  rewrite concat_nil_Forall, Forall_fmap, Forall_forall. setoid_rewrite node_violations_nil.
  setoid_rewrite (elem_of_dvals p Hk). split; [|eauto].
  intros H k n Hn. apply H. by rewrite (keyed_id _ Hk _ _ Hn).
Qed.

Lemma children_count_spec p k :
  dget_or 0%Z k (children_count p) = Z.of_nat (length (children_of p k)).
Proof.
  unfold children_count, children_of.
  assert (∀ l m, dget_or 0%Z k (foldl (λ m n, match parent_id n with
      | Some q => dset q (dget_or 0%Z q m + 1)%Z m | None => m end) m l) =
    (dget_or 0%Z k m + Z.of_nat (length (filter (λ n, parent_id n = Some k) l)))%Z) as Hl.
  { induction l as [|n l IH]; intros m; simpl; [lia|]. rewrite IH, filter_cons.
    destruct (parent_id n) as [q|]; [|by rewrite decide_False by done].
    rewrite dget_or_dset. case_decide; subst; [rewrite decide_True by done|
      rewrite decide_False by congruence]; simpl; lia. }
  rewrite Hl. unfold dget_or. simpl. lia.
Qed.

Lemma leaf_tasks_spec p n : keyed p →
  n ∈ leaf_tasks p ↔ dget (id n) (nodes p) = Some n ∧ (kind n = TASK ∨ kind n = VERIFY) ∧
    ∀ m, dget (id m) (nodes p) = Some m → parent_id m ≠ Some (id n).
Proof.
  intros Hk. unfold leaf_tasks.
  rewrite list_elem_of_filter, elem_of_dvals, children_count_spec by done.
  assert (Z.of_nat (length (children_of p (id n))) = 0%Z ↔
    ∀ m, dget (id m) (nodes p) = Some m → parent_id m ≠ Some (id n)) as ->; [|set_solver].
  setoid_rewrite <-(elem_of_dvals p Hk). unfold children_of.
  induction (dvals (nodes p)) as [|x l IH]; [set_solver|]. rewrite filter_cons.
  case_decide; simpl; [|set_solver]. split; [lia|]. intros Hx. by destruct (Hx x); [left|].
Qed.

Lemma is_ready_spec p n : keyed p →
  is_ready (done_ids p) n = true ↔ intent n = TODO ∧
    ∀ d, d ∈ depends_on n → ∃ m, dget d (nodes p) = Some m ∧ intent m = DONE.
Proof.
  intros Hk. unfold is_ready. case_bool_decide; [|naive_solver].
  rewrite bool_decide_eq_true, Forall_forall. unfold done_ids.
  assert (∀ d, d ∈ id <$> filter (λ n, intent n = DONE) (dvals (nodes p)) ↔
    ∃ m, dget d (nodes p) = Some m ∧ intent m = DONE) as Hd; [|setoid_rewrite Hd; tauto].
  intros d. rewrite list_elem_of_fmap. split.
  - intros (m & -> & [? Hm]%list_elem_of_filter). apply elem_of_dvals in Hm; eauto.
  - intros (m & Hm & ?). pose proof (keyed_id _ Hk _ _ Hm) as <-. exists m. split; [done|].
    apply list_elem_of_filter. split; [done|by apply elem_of_dvals].
Qed.

Lemma tc_cycle_next {A} (R : relation A) x : tc R x x → ∃ z, R x z ∧ tc R z z.
Proof.
  intros Hx. inversion Hx as [? ? Hxx|? z ? Hxz Hzx]; subst; [exists x; eauto|].
  exists z. split; [done|by eapply tc_r].
Qed.

Lemma descendants_loop_diverges p fuel : keyed p → ∀ stack out y,
  y ∈ stack → tc (child_edge p) y y → descendants_loop fuel p stack out = None.
Proof.
  intros Hk. induction fuel as [|fuel IH]; intros stack out y Hy Hc; [done|].
  destruct stack as [|nid stack]; [by apply elem_of_nil in Hy|]. simpl.
  apply elem_of_cons in Hy as [<-|Hy].
  - pose proof (kedge_tc_target _ _ _ _ Hc) as (n & Hn & _)%(key_node p Hk). rewrite Hn.
    destruct (tc_cycle_next _ _ Hc) as (z & Hz%child_edge_ids & Hzz); [|done].
    eapply (IH _ _ z); [set_solver|done].
  - destruct (dget nid (nodes p)); eapply (IH _ _ y); set_solver.
Qed.

(** * Properties *)

(** Every plan obtained from a new one by [add_node] and by
    [replace_node] with a node of the same shape validates: the only
    violation [validate] can report is the missing goal of the plan that
    holds no node yet. *)
Theorem built_validates p : built p →
  validate p = Some (match nodes p with [] => [MissingGoal] | _ => [] end).
Proof.
  intros Hb. pose proof (built_inv _ Hb) as Hinv. pose proof (inv_keyed _ Hinv) as Hk.
  destruct (nodes p) as [|[k0 n0] d] eqn:Hd.
  { destruct p as [pid ws goal ns st u]. simpl in Hd. subst ns. reflexivity. }
  destruct (validate_spec p Hk) as (vs & -> & Hvs). f_equal. apply Hvs.
  assert (H0 : dget k0 (nodes p) = Some n0) by (rewrite Hd; simpl; by rewrite decide_True).
  assert (Hall : ∀ k n, dget k (nodes p) = Some n → ∃ o1 o2,
    dkeys (nodes p) = o1 ++ k :: o2).
  { intros k n Hn. apply list_elem_of_split, dget_is_Some_keys. by exists n. }
  split_and!.
  - intros Hg. apply (proj1 (find_goal_None p Hk) Hg k0 n0 H0).
    apply (node_wf_parent _ (keyed_node _ Hk _ _ H0)).
    destruct (inv_earlier _ Hinv [] k0 (dkeys d) n0) as [Hp _]; [by rewrite Hd| |].
    { exact H0. }
    destruct (parent_id n0) as [q|]; [|done]. by specialize (Hp q eq_refl); apply elem_of_nil in Hp.
  - by apply inv_acyclic.
  - intros k n Hn. destruct (Hall k n Hn) as (o1 & o2 & Ho).
    destruct (inv_earlier _ Hinv _ _ _ _ Ho Hn) as [Hpar Hdep]. rewrite Ho.
    split; intros q Hq; apply elem_of_app; left; auto.
Qed.

(** C17. [topological_order] terminates within its fuel on every
    constructor-built plan and never misses a key.  It raises exactly when
    the dependencies have a cycle; otherwise the result lists every node
    once, each after its dependencies, and always takes a node of highest
    priority among those whose dependencies are listed. *)
Theorem topological_order_spec p : keyed p →
  (topological_order p = Some (Err CycleInDependsOn) ∧ ¬ deps_acyclic p) ∨
  (∃ o, topological_order p = Some (Ok o) ∧ deps_acyclic p ∧
     (id <$> o) ≡ₚ dkeys (nodes p) ∧
     (∀ n, n ∈ o → dget (id n) (nodes p) = Some n) ∧
     (∀ o1 n o2, o = o1 ++ n :: o2 →
        (∀ d, d ∈ depends_on n → d ∈ dkeys (nodes p) → d ∈ id <$> o1)) ∧
     greedy p (id <$> o)).
Proof.
  intros Hk. pose proof (topological_order_ok p Hk) as Hok.
  destruct (topological_order_aux p Hk) as (s & o & _ & _ & _ & _ & _ & Heq).
  rewrite Heq in Hok. case_bool_decide as Hlen; [right|left; naive_solver].
  destruct (topological_order_sorted p o Hk Heq) as (Hp & Hin & Hd & Hg).
  exists o. split_and!; [done| |done..]. apply Hok. eauto.
Qed.

(** On a built plan [descendants_of] returns, within one round per
    node, each node whose chain of parents leads to the given id, once. *)
Theorem descendants_of_spec p r : built p →
  ∃ out, descendants_of (S (length (nodes p))) p r = Some out ∧ NoDup (id <$> out) ∧
    ∀ n, n ∈ out ↔ dget (id n) (nodes p) = Some n ∧ tc (child_edge p) r (id n).
Proof.
  intros Hb. pose proof (built_inv _ Hb) as Hinv.
  destruct (descendants_loop_spec p Hinv r (S (length (nodes p))) (id <$> children_of p r) [])
    as (out & Hout & Hall & Hd); [constructor|by apply desc_inv_init|simpl; lia|].
  exists out. split; [done|]. pose proof (desc_inv_final p r _ Hd) as Hex.
  destruct Hd as [Hnd _ _ _]. rewrite app_nil_r in Hnd. split; [done|].
  rewrite Forall_forall in Hall. intros n. rewrite <-Hex. split.
  - intros Hn. split; [auto|by apply list_elem_of_fmap_2].
  - intros [Hg (m & Heq & Hm)%list_elem_of_fmap]. pose proof (Hall m Hm) as Hg'.
    rewrite <-Heq in Hg'. congruence.
Qed.

(** [replace_node] does not protect the parent links: once they have a
    cycle, [descendants_of] on a node of the cycle never returns. *)
Theorem descendants_of_diverges p x : keyed p → tc (child_edge p) x x →
  ∀ fuel, descendants_of fuel p x = None.
Proof.
  intros Hk Hc fuel. destruct (tc_cycle_next _ _ Hc) as (z & Hz%child_edge_ids & Hzz); [|done].
  by eapply descendants_loop_diverges.
Qed.

(** [ready_nodes] is the frontier: the TASK and VERIFY nodes no node
    has for parent, still TODO, whose dependencies are all nodes of the plan
    that are DONE. *)
Theorem ready_nodes_spec p n : keyed p →
  n ∈ ready_nodes p ↔
  dget (id n) (nodes p) = Some n ∧ (kind n = TASK ∨ kind n = VERIFY) ∧ intent n = TODO ∧
  (∀ m, dget (id m) (nodes p) = Some m → parent_id m ≠ Some (id n)) ∧
  (∀ d, d ∈ depends_on n → ∃ m, dget d (nodes p) = Some m ∧ intent m = DONE).
Proof.
  intros Hk. unfold ready_nodes.
  rewrite list_elem_of_filter, leaf_tasks_spec, is_ready_spec by done. tauto.
Qed.

(** The frontier does not dry up: when a TODO leaf exists, the
    dependencies are acyclic and a TODO leaf only waits for leaves that are
    TODO or DONE, some node is ready. *)
Theorem ready_nodes_progress p n0 : keyed p → deps_acyclic p →
  (∀ n d, n ∈ leaf_tasks p → intent n = TODO → d ∈ depends_on n →
     ∃ m, m ∈ leaf_tasks p ∧ id m = d ∧ (intent m = TODO ∨ intent m = DONE)) →
  n0 ∈ leaf_tasks p → intent n0 = TODO →
  ready_nodes p ≠ [].
Proof.
  intros Hk Hac Hdeps. remember (id n0) as k eqn:Hid.
  assert (Hsn : sn (flip (dep_edge p)) k).
  { apply tc_finite_sn; [intros x Hx; by apply (Hac x), tc_unflip|].
    exists (dkeys (nodes p)). intros y Hy%tc_unflip.
    eapply kedge_tc_in in Hy as [? ?]; [done|]. intros ? ? _. apply plan_preds_sub. }
  revert n0 Hid. induction Hsn as [k _ IH]. intros n -> Hleaf Htodo.
  destruct (decide (Forall (λ d, from_option intent TODO (dget d (nodes p)) = DONE)
    (depends_on n))) as [Hall|Hex].
  - rewrite Forall_forall in Hall. intros Hnil.
    assert (n ∈ ready_nodes p) as Hin; [|by rewrite Hnil in Hin; apply elem_of_nil in Hin].
    unfold ready_nodes. rewrite list_elem_of_filter, is_ready_spec by done.
    split_and!; [done| |done]. intros d Hd. specialize (Hall d Hd).
    destruct (dget d (nodes p)) as [m|]; [|done]. eauto.
  - apply not_Forall_Exists in Hex; [|intros; apply _].
    apply Exists_exists in Hex as (d & Hd & Hnd).
    destruct (Hdeps n d Hleaf Htodo Hd) as (m & Hm & <- & Hmi).
    pose proof Hm as [Hgm _]%leaf_tasks_spec; [|done].
    pose proof Hleaf as [Hgn _]%leaf_tasks_spec; [|done].
    simpl in Hnd. rewrite Hgm in Hnd. destruct Hmi as [Hmt|?]; [|done].
    apply (IH (id m)) with m; [|done..].
    split; [apply dget_is_Some_keys; eauto|]. rewrite plan_preds_node by done.
    apply list_elem_of_filter. split; [apply dget_is_Some_keys; eauto|done].
Qed.

(** * Witnesses *)

Definition sample_node (k : PlanNodeKind) (nid : string) (par : option string)
    (deps : list string) (prio : Z) : PlanNode :=
  mkNode nid "p1" par k "title" deps [] None [] None (mkEffort 0 (1 # 2)) prio TODO IDLE
    (mkProgress 0 1 "") None None None [] 0 None None.
Definition sample_goal : PlanNode := sample_node GOAL "g" None [] 0.
Definition sample_a : PlanNode := sample_node TASK "a" (Some "g") [] 1.
Definition sample_b : PlanNode := sample_node TASK "b" (Some "g") ["a"] 2.
Definition sample_plan0 : Plan := mkPlan "p1" "ws" "g" [] DRAFT None.
Definition sample_plan : Plan :=
  (add_node sample_b (add_node sample_a (add_node sample_goal sample_plan0).1).1).1.
(** [a] and [b] made each other's parent by [replace_node]. *)
Definition half_plan : Plan :=
  (replace_node (sample_node TASK "a" (Some "b") [] 1) 0 sample_plan).1.
Definition cyclic_plan : Plan :=
  (replace_node (sample_node TASK "b" (Some "a") ["a"] 2) 1 half_plan).1.

Lemma sample_node_wf k nid par deps prio :
  NoDup deps → is_ok (post_init (sample_node k nid par deps prio)) = true →
  node_wf (sample_node k nid par deps prio).
Proof.
  intros Hd H. destruct (post_init _) as [m|] eqn:E; [|done].
  by apply post_init_ok in E as [_ ?].
Qed.
Ltac sample_wf := apply sample_node_wf; [apply (bool_decide_unpack _); vm_compute; exact I|reflexivity].

Lemma sample_built : built sample_plan.
Proof.
  apply (built_add (add_node sample_a (add_node sample_goal sample_plan0).1).1 sample_b);
    [|sample_wf|reflexivity].
  apply (built_add (add_node sample_goal sample_plan0).1 sample_a); [|sample_wf|reflexivity].
  apply (built_add sample_plan0 sample_goal); [|sample_wf|reflexivity].
  by apply (built_new "p1" "ws" "g").
Qed.
Lemma sample_keyed : keyed sample_plan.
Proof. apply inv_keyed, built_inv, sample_built. Qed.
Lemma cyclic_keyed : keyed cyclic_plan.
Proof.
  apply (keyed_dset half_plan _ (sample_node TASK "b" (Some "a") ["a"] 2));
    [|sample_wf|reflexivity].
  apply (keyed_dset sample_plan _ (sample_node TASK "a" (Some "b") [] 1));
    [exact sample_keyed|sample_wf|reflexivity].
Qed.

Lemma built_validates_witness : built sample_plan ∧ validate sample_plan = Some [].
Proof. split; [exact sample_built|exact (built_validates sample_plan sample_built)]. Defined.

Lemma topological_order_witness : keyed sample_plan ∧ is_Some (topological_order sample_plan).
Proof.
  split; [exact sample_keyed|].
  destruct (topological_order_spec sample_plan sample_keyed) as [[-> _]|(o & -> & _)]; eauto.
Defined.

Lemma descendants_of_witness :
  built sample_plan ∧ is_Some (descendants_of 4 sample_plan "g").
Proof.
  split; [exact sample_built|].
  destruct (descendants_of_spec sample_plan "g" sample_built) as (o & H & _).
  exists o. exact H.
Defined.

Lemma descendants_of_diverges_witness : descendants_of 100 cyclic_plan "a" = None.
Proof.
  apply (descendants_of_diverges cyclic_plan "a" cyclic_keyed).
  apply tc_l with "b"; [|apply tc_once]; apply child_edge_spec; try exact cyclic_keyed;
    eexists; split; reflexivity.
Defined.

Lemma ready_nodes_witness : keyed sample_plan ∧ sample_a ∈ ready_nodes sample_plan.
Proof.
  split; [exact sample_keyed|]. apply (ready_nodes_spec sample_plan sample_a sample_keyed).
  split; [reflexivity|]. split; [left; reflexivity|]. split; [reflexivity|]. split.
  - intros m Hm. assert (Hin : m ∈ dvals (nodes sample_plan)).
    { apply elem_of_dvals; [exact sample_keyed|exact Hm]. }
    vm_compute in Hin. set_unfold in Hin. intros Hp.
    destruct Hin as [->|[->|[->|[]]]]; discriminate Hp.
  - intros d Hd. by apply elem_of_nil in Hd.
Defined.

Lemma ready_nodes_progress_witness : ready_nodes sample_plan ≠ [].
Proof.
  apply (ready_nodes_progress sample_plan sample_a sample_keyed).
  - apply inv_acyclic, built_inv, sample_built.
  - intros n d Hn _ Hd. exists sample_a. split; [vm_compute; set_solver|].
    assert (Hin : n ∈ leaf_tasks sample_plan) by exact Hn. vm_compute in Hin. set_unfold in Hin.
    destruct Hin as [->|[->|[]]]; vm_compute in Hd; set_unfold in Hd; naive_solver.
  - vm_compute; set_solver.
  - reflexivity.
Defined.
