(* ===== verification/NodeFacts.v ===== *)
(** What the supervisor reads from the metadata of plan nodes: write sets,
    iterations and phases, commits and whether they are integrated, and which
    dependencies block a node.

    Sources: the helper functions of
    src/src/infrastructure/agent/workspace_plan/supervisor.py and the phases of
    planner.py.  Metadata is a dictionary of JSON-like values, without floats,
    which none of these functions reads. *)

From stdpp Require Import gmap.
From S2P Require Import Prelude PyText Datetime Acceptance PlanNode Plan.

Open Scope string_scope.
Open Scope list_scope.
Open Scope nat_scope.

(** * Reading metadata *)

Definition meta (key : string) (n : PlanNode) : pyval := dget_or PNone key (metadata n).
(** [_metadata_text] *)
Definition text_of (v : pyval) : option string :=
  match v with PStr s => if truthy (strip s) then Some s else None | _ => None end.
Definition meta_text (key : string) (n : PlanNode) : option string := text_of (meta key n).
Definition text_is (o : option string) (s : string) : bool := bool_decide (o = Some s).
(** [a or b] on optional texts, which are not blank. *)
Definition or_text (a b : option string) : option string :=
  match a with Some _ => a | None => b end.

(** [str.isdigit] and [int] of such a text. *)
Definition digit_text (s : string) : option Z :=
  if truthy s && forallb (λ c, bool_decide (is_Some (int_digit c))) (String.list_ascii_of_string s)
  then int_of_string s else None.
(** A positive number given as an [int] or as digits. *)
Definition positive_number (v : pyval) : option Z :=
  match v with
  | PInt z => if (0 <? z)%Z then Some z else None
  | PBool b => if b then Some 1%Z else None
  | PStr s => Z.max 1 <$> digit_text s
  | _ => None
  end.

Definition node_write_set (n : PlanNode) : gset string :=
  match meta "write_set" n with
  | PList l => list_to_set (omap (λ v, match v with
                                       | PStr s => if truthy s then Some s else None
                                       | _ => None
                                       end) l)
  | _ => ∅
  end.

(** * Iterations and phases *)

Definition ITERATION_PHASES : list string :=
  ["research"; "plan"; "implement"; "test"; "deploy"; "review"].
Definition SCRUM_ARTIFACT_BY_PHASE : list (string * string) :=
  [("research", "product_discovery"); ("plan", "sprint_backlog"); ("implement", "increment");
   ("test", "verification"); ("deploy", "release_candidate"); ("review", "feedback")].
(** [_ITERATION_PHASES[:_ITERATION_PHASES.index(phase)]], nothing for an unknown phase. *)
Fixpoint phases_before (phase : string) (ps : list string) : option (list string) :=
  match ps with
  | [] => None
  | q :: ps' => if bool_decide (q = phase) then Some [] else cons q <$> phases_before phase ps'
  end.
Definition prior_phases (phase : string) : list string := default [] (phases_before phase ITERATION_PHASES).
(** [_phase_barrier_dependencies] *)
Definition phase_barrier_dependencies (phase : string) (nodes_by_phase : string → list string) : list string :=
  prior_phases phase ≫= nodes_by_phase.
(** [_phase_index] *)
Definition phase_index (phase : string) : nat :=
  from_option length 0 (phases_before phase ITERATION_PHASES).
Definition iteration_phase_for_sequence (sequence : Z) : string :=
  if (sequence <=? 0)%Z then "plan"
  else nth (Z.to_nat ((sequence - 1) mod 6)) ITERATION_PHASES "plan".

Definition node_iteration_index (n : PlanNode) : Z := default 1%Z (positive_number (meta "iteration_index" n)).
Definition checkpoint_sequence (n : PlanNode) : Z := from_option sequence 0%Z (feature_checkpoint n).
Definition node_iteration_phase (n : PlanNode) : string :=
  match meta "iteration_phase" n with
  | PStr phase =>
      if bool_decide (phase ∈ ITERATION_PHASES) then phase
      else iteration_phase_for_sequence (checkpoint_sequence n)
  | _ => iteration_phase_for_sequence (checkpoint_sequence n)
  end.
Definition node_sequence (n : PlanNode) : Z :=
  if (0 <? checkpoint_sequence n)%Z then checkpoint_sequence n
  else default 999999%Z (positive_number (meta "sequence" n)).
(** [key=lambda node: (_node_sequence(node), node.created_at, node.id)] *)
Definition iteration_le (n m : PlanNode) : bool :=
  if negb (node_sequence n =? node_sequence m)%Z then (node_sequence n <? node_sequence m)%Z
  else if negb (created_at n =? created_at m)%Z then (created_at n <? created_at m)%Z
  else String.leb (id n) (id m).
Definition ordered_iteration_nodes (ns : list PlanNode) : list PlanNode := sort_by iteration_le ns.

(** * Commits *)

Definition pipeline_gate_status (n : PlanNode) : string :=
  let first := meta "pipeline_status" n in
  match (if py_truth first then first else meta "pipeline_gate_status" n) with
  | PStr s => lower_str (strip s)
  | _ => ""
  end.
Definition commit_refs_match (left right : option string) : bool :=
  match left, right with
  | Some l, Some r =>
      if negb (truthy l && truthy r) then false
      else
        let l := strip l in let r := strip r in
        if bool_decide (l = r) then true
        else if Nat.min (String.length l) (String.length r) <? 7 then false
        else String.prefix r l || String.prefix l r
  | _, _ => false
  end.
Definition checkpoint_text (f : FeatureCheckpoint → option string) (n : PlanNode) : option string :=
  c ← feature_checkpoint n; s ← f c; text_of (PStr s).
Definition node_verified_commit_ref (n : PlanNode) : option string :=
  or_text (or_text (meta_text "verified_commit_ref" n) (meta_text "worktree_integration_commit_ref" n))
    (checkpoint_text commit_ref n).
Definition node_attempt_worktree_path (n : PlanNode) : option string :=
  or_text (or_text (or_text (meta_text "worktree_integration_worktree_path" n)
                            (meta_text "active_execution_root" n))
                   (meta_text "worktree_path" n))
    (checkpoint_text worktree_path n).
Definition looks_like_attempt_worktree (path : option string) : bool :=
  from_option (contains "/.memstack/worktrees/") false path.
Definition node_pipeline_published_commit (n : PlanNode) (commit : string) : bool :=
  bool_decide (pipeline_gate_status n = "success") &&
  text_is (meta_text "source_publish_status" n) "published" &&
  commit_refs_match (meta_text "source_publish_commit_ref" n) (Some commit).
Definition dependency_dispatch_commit_ref (n : PlanNode) : option string :=
  let verified := meta_text "verified_commit_ref" n in
  if text_is (meta_text "worktree_integration_status" n) "blocked_dirty_main" && bool_decide (is_Some verified)
  then verified
  else or_text (or_text (or_text (meta_text "source_publish_commit_ref" n)
                                 (meta_text "worktree_integration_commit_ref" n)) verified)
         (checkpoint_text commit_ref n).

(** * Dispositions *)

Definition TERMINAL_DEPENDENCY_DISPOSITION_MARKERS : list string :=
  ["stale"; "obsolete"; "superseded"; "duplicate"; "structurally satisfied";
   "structurally_satisfied"; "redundant"].
Definition has_marker (s : string) : bool :=
  existsb (λ m, contains m s) TERMINAL_DEPENDENCY_DISPOSITION_MARKERS.
(** [" ".join(str(value).lower() for value in d.values())] *)
Definition values_text (d : list (string * pyval)) : string :=
  String.concat " " ((λ v, lower_str (py_str v)) <$> dvals d).
Definition disposition_is_terminal (n : PlanNode) : bool :=
  match meta "last_supervisor_decision_event_payload" n with
  | PDict d =>
      existsb (λ k, dmem k d) ["superseded_by_task_id"; "superseded_by_node_id"; "disposed_node_id";
                               "redundant_verification_goal"] || has_marker (values_text d)
  | _ => false
  end ||
  match meta "last_supervisor_decision_feedback_items" n with
  | PList items =>
      existsb (λ item, match item with PDict d => has_marker (values_text d) | _ => false end) items
  | _ => false
  end ||
  from_option (λ s, has_marker (lower_str s)) false (meta_text "last_supervisor_decision_rationale" n).
Definition disposition_satisfies_dependency (n : PlanNode) : bool :=
  bool_decide (intent n = DONE) && bool_decide (execution n = IDLE) &&
  text_is (meta_text "verification_feedback_disposition" n) "supervisor_agent_disposed_node" &&
  text_is (meta_text "last_supervisor_decision_action" n) "dispose_node" &&
  negb (text_is (meta_text "last_verification_judge_next_action_kind" n) "retry_same_node") &&
  disposition_is_terminal n.

(** * Integration of a dependency's commit *)

Definition SUCCESSFUL_WORKTREE_INTEGRATION_STATUSES : list string := ["merged"; "already_merged"; "skipped"].
Definition integrated (status : option string) : bool :=
  from_option (λ s, bool_decide (s ∈ SUCCESSFUL_WORKTREE_INTEGRATION_STATUSES)) false status.
Definition dependency_commit_needs_integration (n : PlanNode) : bool :=
  if disposition_satisfies_dependency n then false
  else
    match node_verified_commit_ref n with
    | None => false
    | Some commit =>
        if negb (looks_like_attempt_worktree (node_attempt_worktree_path n)) then false
        else
          let status := meta_text "worktree_integration_status" n in
          if text_is status "failed" &&
             bool_decide (meta "terminal_attempt_status" n = PStr "accepted") &&
             bool_decide (meta "worktree_integration_dirty_signature" n = PNone) &&
             contains "commit_ref not found in attempt worktree"
               (lower_str (default "" (meta_text "worktree_integration_summary" n)))
          then false
          else if node_pipeline_published_commit n commit then false
          else negb (integrated status)
    end.

Definition phase_artifact (n : PlanNode) (phase artifact : string) : bool :=
  text_is (meta_text "iteration_phase" n) phase && text_is (meta_text "scrum_artifact" n) artifact.
Definition repair_blocking_dependency_id (n : PlanNode) : option string :=
  match meta "blocked_by_repair_node_id" n with
  | PStr s => if truthy (strip s) then Some (strip s) else None
  | _ => None
  end.
Definition nodes_repair_same_original (n dep : PlanNode) : bool :=
  bool_decide (is_Some (meta_text "repair_for_node_id" n)) &&
  bool_decide (meta_text "repair_for_node_id" n = meta_text "repair_for_node_id" dep).
(** The commit of a dependency whose integration met a dirty checkout may be
    the base of a repair, or of the next node of the sprint. *)
Definition can_seed_downstream_worktree (n : PlanNode) (dep_id : string) (dep : PlanNode) : bool :=
  text_is (meta_text "worktree_integration_status" dep) "blocked_dirty_main" &&
  bool_decide (is_Some (dependency_dispatch_commit_ref dep)) &&
  (bool_decide (repair_blocking_dependency_id n = Some dep_id) ||
   bool_decide (is_Some (meta_text "repair_for_node_id" n)) ||
   phase_artifact n "plan" "sprint_backlog" || phase_artifact n "implement" "increment" ||
   phase_artifact n "test" "verification" || phase_artifact n "review" "feedback" ||
   phase_artifact n "deploy" "release_candidate" || nodes_repair_same_original n dep).

(** [dep_id] does not hold [n] back. *)
Definition dependency_met (p : Plan) (n : PlanNode) (dep_id : string) : bool :=
  match dget dep_id (nodes p) with
  | None => false
  | Some dep =>
      bool_decide (intent dep = DONE) &&
      (negb (dependency_commit_needs_integration dep) || disposition_satisfies_dependency dep ||
       can_seed_downstream_worktree n dep_id dep)
  end.
Definition dependency_ids (n : PlanNode) : list string :=
  match repair_blocking_dependency_id n with
  | Some r => set_add r (depends_on n)
  | None => depends_on n
  end.
(** [_dependency_blocking_ids] *)
Definition dependency_blocking_ids (p : Plan) (n : PlanNode) : list string :=
  filter (λ d, dependency_met p n d = false) (sort_by String.leb (dependency_ids n)).

(** * Lemmas *)

Lemma not_blocked p n : dependency_blocking_ids p n = [] ↔
  ∀ d, d ∈ dependency_ids n → dependency_met p n d = true.
Proof.
  unfold dependency_blocking_ids. split.
  - intros H d Hd. destruct (dependency_met p n d) eqn:E; [done|].
    assert (d ∈ filter (λ d, dependency_met p n d = false) (sort_by String.leb (dependency_ids n))) as Hin.
    { apply list_elem_of_filter. split; [done|by apply elem_of_sort_by]. }
    rewrite H in Hin. by apply elem_of_nil in Hin.
  - intros H. apply elem_of_nil_inv. intros d [Hf Hd]%list_elem_of_filter.
    apply elem_of_sort_by in Hd. by rewrite H in Hf.
Qed.
Lemma dependency_ids_incl n d : d ∈ depends_on n → d ∈ dependency_ids n.
Proof.
  intros Hd. unfold dependency_ids. case_match; [|done]. apply elem_of_set_add. by right.
Qed.
Lemma dependency_met_done p n d : dependency_met p n d = true →
  ∃ m, dget d (nodes p) = Some m ∧ intent m = DONE.
Proof. unfold dependency_met. case_match; [|done]. intros ?. split_bools; eauto. Qed.
