(* ===== verification/PlanProgress.v ===== *)
(** The progress of a plan: node counts, percentage and the longest chain of
    remaining work.

    Source: src/src/infrastructure/agent/workspace_plan/progress.py.  The
    percentage is an exact rational where the code has a float; the snapshot's
    time and its evidence, which the projector leaves empty, are left out. *)

From Stdlib Require Import QArith Qround Lqa.
From S2P Require Import Prelude Acceptance PlanNode Kahn Plan.

Open Scope string_scope.
Open Scope list_scope.
Open Scope nat_scope.

Definition executable (n : PlanNode) : bool := bool_decide (kind n ∈ [TASK; VERIFY]).
Definition executables (p : Plan) : list PlanNode :=
  filter (λ n, executable n = true) (dvals (nodes p)).
Definition count_intent (i : TaskIntent) (ns : list PlanNode) : Z :=
  Z.of_nat (length (filter (λ n, intent n = i) ns)).

(** [round(x, 2)]: to the nearest hundredth, ties to the even one. *)
Definition round_half_even (q : Q) : Z :=
  let f := Qfloor q in
  match Qcompare (q - inject_Z f)%Q (1 # 2)%Q with
  | Lt => f
  | Gt => (f + 1)%Z
  | Eq => if Z.even f then f else (f + 1)%Z
  end.
Definition round2 (q : Q) : Q := (inject_Z (round_half_even (q * 100)) / 100)%Q.

(** What a node adds to the paths through it. *)
Definition remaining (n : PlanNode) : Z :=
  if bool_decide (intent n = DONE) || negb (executable n) then 0%Z
  else Z.max 0 (minutes (estimated_effort n)).
Definition eta_step (eta : list (string * Z)) (n : PlanNode) : list (string * Z) :=
  let dep_max := foldl (λ m dep, Z.max m (dget_or 0%Z dep eta)) 0%Z (depends_on n) in
  dset (id n) (remaining n + dep_max)%Z eta.
Definition max_value (vs : list Z) : Z :=
  match vs with [] => 0%Z | v :: vs' => foldl Z.max v vs' end.
(** Only the ValueError of a cycle is caught; [None] is a lack of fuel. *)
Definition critical_path_eta (p : Plan) : option (result plan_error Z) :=
  match topological_order p with
  | Some (Ok order) => Some (Ok (max_value (dvals (foldl eta_step [] order))))
  | Some (Err (KeyError k)) => Some (Err (KeyError k))
  | Some (Err _) => Some (Ok 0%Z)
  | None => None
  end.

Inductive project_error : Type := ByPlan (e : plan_error) | ByProgress (e : progress_error).
Definition project (p : Plan) : option (result project_error GoalProgress) :=
  let ns := executables p in
  let total := Z.of_nat (length ns) in
  let done := count_intent DONE ns in
  let percent := if (total =? 0)%Z then 0%Q else (inject_Z done / inject_Z total * 100)%Q in
  match critical_path_eta p with
  | None => None
  | Some (Err e) => Some (Err (ByPlan e))
  | Some (Ok eta) =>
      Some (match goal_progress_post_init
              (mkGoalProgress (workspace_id p) (ident p) (goal_id p) total (count_intent TODO ns)
                 (count_intent IN_PROGRESS ns) (count_intent BLOCKED ns) done (round2 percent) eta) with
            | Ok g => Ok g
            | Err e => Err (ByProgress e)
            end)
  end.

(** * The longest chain of remaining work *)

Definition in_plan (p : Plan) (n : PlanNode) : Prop := dget (id n) (nodes p) = Some n.

(** A chain of dependencies, the last node first. *)
Inductive dep_chain (p : Plan) : list PlanNode → Prop :=
  | chain_one n : in_plan p n → dep_chain p [n]
  | chain_next n m l : in_plan p n → id m ∈ depends_on n → dep_chain p (m :: l) →
      dep_chain p (n :: m :: l).
Definition minutes_left (l : list PlanNode) : Z := foldr (λ n s, (remaining n + s)%Z) 0%Z l.

(** [v] is the length of the longest chain that ends in [n]. *)
Definition longest (p : Plan) (n : PlanNode) (v : Z) : Prop :=
  (∀ l, dep_chain p (n :: l) → (minutes_left (n :: l) <= v)%Z) ∧
  (∃ l, dep_chain p (n :: l) ∧ minutes_left (n :: l) = v).

Lemma remaining_nonneg n : (0 <= remaining n)%Z.
Proof. unfold remaining. destruct (_ || _); lia. Qed.

Lemma foldl_max_spec {A} (f : A → Z) l : ∀ v0, let v := foldl (λ m x, Z.max m (f x)) v0 l in
  (v0 <= v)%Z ∧ (∀ x, x ∈ l → (f x <= v)%Z) ∧ (v = v0 ∨ ∃ x, x ∈ l ∧ f x = v).
Proof.
  induction l as [|x l IH]; intros v0; simpl.
  { split_and!; [lia|by intros ? ?%elem_of_nil|by left]. }
  destruct (IH (Z.max v0 (f x))) as (H1 & H2 & H3). split_and!; [lia| |].
  - intros y [->|Hy]%elem_of_cons; [lia|by apply H2].
  - destruct H3 as [H3|(y & Hy & H3)]; [|right; exists y; set_solver].
    destruct (Z.max_spec v0 (f x)) as [[_ E]|[_ E]]; [right; exists x|by left; rewrite H3].
    split; [left|by rewrite H3].
Qed.
Lemma max_value_spec vs : vs ≠ [] →
  (∀ v, v ∈ vs → (v <= max_value vs)%Z) ∧ max_value vs ∈ vs.
Proof.
  destruct vs as [|v vs]; [done|]. intros _. simpl.
  destruct (foldl_max_spec (λ x, x) vs v) as (H1 & H2 & H3).
  change (λ m x, Z.max m x) with Z.max in *. split.
  - intros w [->|Hw]%elem_of_cons; [done|by apply H2].
  - destruct H3 as [->|(x & Hx & <-)]; [left|by right].
Qed.

Section longest.
Context (p : Plan) (Hk : keyed p).

Lemma chain_inv n l : dep_chain p (n :: l) →
  in_plan p n ∧ (l = [] ∨ ∃ m l', l = m :: l' ∧ id m ∈ depends_on n ∧ dep_chain p (m :: l')).
Proof. inversion 1; subst; naive_solver. Qed.

(** One step of the dynamic program: the nodes [n] depends on are done. *)
Lemma longest_step n eta : in_plan p n →
  (∀ m v, in_plan p m → id m ∈ depends_on n → dget (id m) eta = Some v → longest p m v) →
  (∀ d, d ∈ depends_on n → is_Some (dget d eta) ↔ d ∈ dkeys (nodes p)) →
  longest p n (remaining n + foldl (λ m dep, Z.max m (dget_or 0%Z dep eta)) 0%Z (depends_on n)).
Proof.
  intros Hn Hm Hd. destruct (foldl_max_spec (λ dep, dget_or 0%Z dep eta) (depends_on n) 0)
    as (H1 & H2 & H3). set (v := foldl _ _ _) in *. split.
  - intros l (_ & [->|(m & l' & -> & Hdep & Hc)])%chain_inv; simpl; [lia|].
    destruct (chain_inv _ _ Hc) as [Hpm _].
    assert (is_Some (dget (id m) eta)) as [w Hw] by (apply Hd; [done|apply dget_is_Some_keys; eauto]).
    pose proof (proj1 (Hm m w Hpm Hdep Hw) l' Hc) as Hle. specialize (H2 _ Hdep).
    unfold dget_or in H2. rewrite Hw in H2. simpl in *. lia.
  - destruct H3 as [->|(d & Hdep & Hv)]; [exists []; split; [by constructor|simpl; lia]|].
    destruct (dget d eta) as [w|] eqn:Hw; unfold dget_or in Hv; rewrite Hw in Hv; simpl in Hv;
      [subst w|exists []; rewrite <-Hv; split; [by constructor|simpl; lia]].
    destruct (key_node p Hk d) as (m & Hpm & <-); [apply Hd; eauto|].
    destruct (Hm m v) as [_ (l & Hc & Hl)]; [done..|].
    exists (m :: l). split; [by constructor|]. simpl in *. lia.
Qed.

Lemma in_plan_eq n m : in_plan p n → in_plan p m → id n = id m → n = m.
Proof. unfold in_plan. congruence. Qed.

Lemma eta_fold o2 : ∀ o1 eta, (∀ n, n ∈ o1 ++ o2 → in_plan p n) → NoDup (id <$> o1 ++ o2) →
  (∀ o1' n o2', o1 ++ o2 = o1' ++ n :: o2' →
     ∀ d, d ∈ depends_on n → d ∈ dkeys (nodes p) → d ∈ id <$> o1') →
  dkeys eta = id <$> o1 → (∀ n v, in_plan p n → dget (id n) eta = Some v → longest p n v) →
  let eta' := foldl eta_step eta o2 in
  dkeys eta' = id <$> o1 ++ o2 ∧ (∀ n v, in_plan p n → dget (id n) eta' = Some v → longest p n v).
Proof.
  induction o2 as [|n o2 IH]; intros o1 eta Hin Hnd Hdeps Hkeys Hlong; simpl; [by rewrite app_nil_r|].
  assert (Hn : in_plan p n) by (apply Hin; set_solver).
  replace (o1 ++ n :: o2) with ((o1 ++ [n]) ++ o2) in * by by rewrite <-app_assoc.
  apply IH; [done..| |].
  - unfold eta_step. rewrite dkeys_dset, decide_False, fmap_app, Hkeys; [done|].
    rewrite Hkeys. rewrite !fmap_app in Hnd. apply NoDup_app in Hnd as [Hnd _].
    apply NoDup_app in Hnd as (_ & Hnd & _). intros Hni. apply (Hnd _ Hni). by left.
  - intros m v Hpm. unfold eta_step. rewrite dget_dset. case_decide as Hid; [|by apply Hlong].
    intros [= <-]. rewrite (in_plan_eq m n) by done. apply longest_step; [done|by eauto|].
    intros d Hd. rewrite dget_is_Some_keys, Hkeys. split.
    + intros (x & -> & Hx)%list_elem_of_fmap. apply dget_is_Some_keys.
      exists x. apply Hin. set_solver.
    + intros Hdk. apply (Hdeps o1 n o2); [by rewrite <-app_assoc|done..].
Qed.

Lemma critical_path_longest v : critical_path_eta p = Some (Ok v) → deps_acyclic p →
  (∀ l, dep_chain p l → (minutes_left l <= v)%Z) ∧
  (nodes p ≠ [] → ∃ l, dep_chain p l ∧ minutes_left l = v).
Proof.
  intros Hv (o & Ho)%(topological_order_ok p Hk). unfold critical_path_eta in Hv.
  rewrite Ho in Hv. injection Hv as <-.
  destruct (topological_order_sorted p o Hk Ho) as (Hperm & Hin & Hdeps & _).
  destruct (eta_fold o [] []) as [Hkeys Hlong]; simpl; [exact Hin| |exact Hdeps|done|done|].
  { rewrite Hperm. apply Hk. }
  set (eta := foldl eta_step [] o) in *.
  assert (Hwf : dict_wf eta) by (unfold dict_wf; rewrite Hkeys; simpl; rewrite Hperm; apply Hk).
  assert (Hall : ∀ n, in_plan p n → ∃ w, dget (id n) eta = Some w).
  { intros n Hn. apply dget_is_Some_keys. rewrite Hkeys. simpl. rewrite Hperm.
    apply dget_is_Some_keys. by exists n. }
  split.
  - intros l Hl. destruct Hl as [n Hn|n m l Hn Hd Hl]; destruct (Hall n Hn) as [w Hw];
      destruct (Hlong n w Hn Hw) as [Hle _];
      (etrans; [apply Hle; by constructor|]); apply max_value_spec;
      apply dget_dvals in Hw; try done; by intros E; rewrite E in Hw; apply elem_of_nil in Hw.
  - intros Hne. assert (Hev : dvals eta ≠ []).
    { destruct (nodes p) as [|[k n] d] eqn:E; [done|].
      destruct (key_node p Hk k) as (m & Hm & Hid); [rewrite E; left|].
      destruct (Hall m) as [w Hw%dget_dvals]; [by rewrite <-Hid in Hm|].
      intros E'. rewrite E' in Hw. by apply elem_of_nil in Hw. }
    destruct (max_value_spec _ Hev) as [_ Hm]. apply dvals_dget in Hm as (k & Hm); [|done].
    assert (k ∈ dkeys (nodes p)) as (n & Hn & <-)%(key_node p Hk).
    { rewrite <-Hperm. change (id <$> o) with (id <$> [] ++ o). rewrite <-Hkeys.
      apply dget_is_Some_keys. eauto. }
    destruct (Hlong n _ Hn Hm) as [_ (l & Hc & Hl)]. eauto.
Qed.
End longest.

(** * Counts and percentage *)

Lemma count_intent_sum ns :
  (count_intent TODO ns + count_intent IN_PROGRESS ns + count_intent BLOCKED ns +
   count_intent DONE ns = Z.of_nat (length ns))%Z.
Proof.
  unfold count_intent. induction ns as [|n ns IH]; [done|]. rewrite !filter_cons.
  destruct (intent n); simpl; lia.
Qed.
Lemma filter_length_all {A} (P : A → Prop) `{!∀ x, Decision (P x)} l :
  length (filter P l) = length l ↔ ∀ x, x ∈ l → P x.
Proof.
  split; [|intros Hall; by rewrite filter_all].
  induction l as [|y l IH]; intros Hlen x; [by intros ?%elem_of_nil|].
  pose proof (length_filter P l). rewrite filter_cons in Hlen.
  case_decide; simpl in *; [|lia]. intros [->|Hx]%elem_of_cons; [done|]. apply IH; [lia|done].
Qed.
Lemma count_intent_all i ns : count_intent i ns = Z.of_nat (length ns) ↔ ∀ n, n ∈ ns → intent n = i.
Proof. unfold count_intent. rewrite Nat2Z.inj_iff. apply filter_length_all. Qed.

Lemma round_half_even_near q :
  (inject_Z (round_half_even q) - (1 # 2) <= q)%Q ∧ (q <= inject_Z (round_half_even q) + (1 # 2))%Q.
Proof.
  unfold round_half_even. pose proof (Qfloor_le q) as H1. pose proof (Qlt_floor q) as H2.
  rewrite inject_Z_plus in H2. change (inject_Z 1) with 1%Q in H2.
  destruct (Qcompare_spec (q - inject_Z (Qfloor q)) (1 # 2)) as [E|E|E];
    [destruct (Z.even _)| |]; rewrite ?inject_Z_plus; change (inject_Z 1) with 1%Q; lra.
Qed.
Lemma round_half_even_range q a b : (inject_Z a <= q)%Q → (q <= inject_Z b)%Q →
  (a <= round_half_even q <= b)%Z.
Proof.
  intros Ha Hb. pose proof (round_half_even_near q) as [H1 H2].
  assert (inject_Z a - (1 # 2) <= inject_Z (round_half_even q))%Q as Hlo by lra.
  assert (inject_Z (round_half_even q) <= inject_Z b + (1 # 2))%Q as Hhi by lra.
  unfold Qle, Qminus, Qplus, inject_Z in Hlo, Hhi. simpl in Hlo, Hhi. lia.
Qed.
Lemma round2_range q : (0 <= q <= 100)%Q → (0 <= round2 q <= 100)%Q.
Proof.
  intros [Hlo Hhi]. unfold round2. destruct (round_half_even_range (q * 100) 0 10000);
    [change (inject_Z 0) with 0%Q; lra|change (inject_Z 10000) with (10000 # 1)%Q; lra|].
  generalize dependent (round_half_even (q * 100)). intros r Hr Hr'.
  unfold Qdiv, Qle, Qmult, inject_Z. simpl. lia.
Qed.

Lemma ratio_range d t : (0 <= d <= t)%Z → (0 < t)%Z →
  (0 <= inject_Z d / inject_Z t * 100 <= 100)%Q.
Proof.
  intros [Hd Ht] Hp. assert (0 < inject_Z t)%Q as Hq by (unfold Qlt, inject_Z; simpl; lia).
  assert (0 <= inject_Z d / inject_Z t)%Q.
  { apply Qle_shift_div_l; [done|]. unfold Qle, Qmult, inject_Z. simpl. lia. }
  assert (inject_Z d / inject_Z t <= 1)%Q.
  { apply Qle_shift_div_r; [done|]. unfold Qle, Qmult, inject_Z. simpl. lia. }
  lra.
Qed.
(** Below 20000 nodes, only a finished plan is rounded to a hundred. *)
Lemma ratio_below d t : (0 <= d < t)%Z → (t < 20000)%Z →
  (round2 (inject_Z d / inject_Z t * 100) < 100)%Q.
Proof.
  intros [Hd Ht] Hb. assert (0 < inject_Z t)%Q as Hq by (unfold Qlt, inject_Z; simpl; lia).
  assert (inject_Z d / inject_Z t < 19999 # 20000)%Q as Hr.
  { apply Qlt_shift_div_r; [done|]. unfold Qlt, Qmult, inject_Z. simpl. lia. }
  unfold round2. pose proof (round_half_even_near (inject_Z d / inject_Z t * 100 * 100)) as [H1 _].
  generalize dependent (round_half_even (inject_Z d / inject_Z t * 100 * 100)). intros r H1.
  assert (inject_Z r < 10000)%Q as H2 by lra.
  unfold Qlt, Qdiv, Qmult, inject_Z in *. simpl in *. lia.
Qed.
Lemma ratio_one t : (0 < t)%Z → (inject_Z t / inject_Z t * 100 == 100)%Q.
Proof. intros Ht. field. unfold Qeq, inject_Z. simpl. lia. Qed.
#[export] Instance round_half_even_proper : Proper (Qeq ==> eq) round_half_even.
Proof.
  intros x y H. unfold round_half_even. rewrite (Qfloor_comp _ _ H).
  by assert (((x - inject_Z (Qfloor y)) ?= 1 # 2) = ((y - inject_Z (Qfloor y)) ?= 1 # 2))%Q as ->
    by (apply Qcompare_comp; [by rewrite H|done]).
Qed.

Lemma critical_path_total p : keyed p → ∃ v, critical_path_eta p = Some (Ok v) ∧
  (¬ deps_acyclic p → v = 0%Z).
Proof.
  intros Hk. unfold critical_path_eta. pose proof (topological_order_ok p Hk) as Hok.
  destruct (topological_order_aux p Hk) as (s & o & _ & _ & _ & _ & _ & Heq).
  rewrite Heq in *. case_bool_decide; [|by eauto]. eexists. split; [done|]. intros Hn.
  destruct Hn. apply Hok. eauto.
Qed.

Lemma stalled_spec ns :
  (Z.of_nat (length ns) - count_intent DONE ns = count_intent BLOCKED ns)%Z ↔
  ∀ n, n ∈ ns → intent n = DONE ∨ intent n = BLOCKED.
Proof.
  pose proof (count_intent_sum ns) as Hsum. split.
  - intros Heq n Hn. assert (count_intent TODO ns = 0 ∧ count_intent IN_PROGRESS ns = 0)%Z as [H1 H2].
    { unfold count_intent in *. lia. }
    unfold count_intent in H1, H2.
    assert (∀ i, length (filter (λ n, intent n = i) ns) = 0 → intent n ≠ i) as Hno.
    { intros i Hi%length_zero_iff_nil E.
      assert (n ∈ filter (λ n, intent n = i) ns) as Hin by by apply list_elem_of_filter.
      rewrite Hi in Hin. by apply elem_of_nil in Hin. }
    pose proof (Hno TODO ltac:(lia)). pose proof (Hno IN_PROGRESS ltac:(lia)).
    destruct (intent n); tauto.
  - intros Hall. assert (count_intent TODO ns = 0 ∧ count_intent IN_PROGRESS ns = 0)%Z as [H1 H2].
    { unfold count_intent. split; apply (inj_iff Z.of_nat _ 0), length_zero_iff_nil, elem_of_nil_inv;
        intros n [Hi Hn]%list_elem_of_filter; destruct (Hall n Hn); congruence. }
    lia.
Qed.
Lemma not_all_done ns : (0 < Z.of_nat (length ns) - count_intent DONE ns)%Z ↔
  ∃ n, n ∈ ns ∧ intent n ≠ DONE.
Proof.
  pose proof (length_filter (λ n, intent n = DONE) ns) as Hle. split.
  - intros Hlt. destruct (decide (Forall (λ n, intent n = DONE) ns)) as [Hall|Hex].
    + rewrite Forall_forall in Hall. apply count_intent_all in Hall. lia.
    + apply not_Forall_Exists in Hex; [|intros; apply _]. by apply Exists_exists in Hex.
  - intros (n & Hn & Hd). destruct (decide (count_intent DONE ns = Z.of_nat (length ns))) as [E|E].
    + destruct Hd. by apply (proj1 (count_intent_all _ _) E).
    + unfold count_intent in *. lia.
Qed.

Lemma project_eq p v : critical_path_eta p = Some (Ok v) →
  let ns := executables p in
  let total := Z.of_nat (length ns) in
  let percent := if (total =? 0)%Z then 0%Q
                 else (inject_Z (count_intent DONE ns) / inject_Z total * 100)%Q in
  (0 <= round2 percent <= 100)%Q ∧
  project p = Some (Ok (mkGoalProgress (workspace_id p) (ident p) (goal_id p) total
    (count_intent TODO ns) (count_intent IN_PROGRESS ns) (count_intent BLOCKED ns)
    (count_intent DONE ns) (round2 percent) v)).
Proof.
  intros Hv ns total percent.
  assert (0 <= percent <= 100)%Q as Hr%round2_range.
  { unfold percent. destruct (Z.eqb_spec total 0); [lra|]. apply ratio_range; [|unfold total in *; lia].
    unfold total, count_intent. pose proof (length_filter (λ n, intent n = DONE) ns). lia. }
  split; [done|]. unfold project. rewrite Hv. unfold goal_progress_post_init. simpl.
  rewrite bool_decide_false by lia. pose proof (count_intent_sum ns). rewrite bool_decide_true by done.
  simpl. destruct Hr as [H1%Qle_bool_iff H2%Qle_bool_iff].
  unfold percent, total, ns in *. by rewrite H1, H2.
Qed.

(** * Properties *)

(** C28. The remaining minutes of the critical path: the minutes of the
    longest chain of dependencies between nodes of the plan, where nodes that
    are DONE, the goal and milestones weigh nothing, and dependencies outside
    the plan are ignored.  It is computed for every plan, and is 0 for one
    whose dependencies have a cycle. *)
Theorem critical_path_spec p : keyed p →
  ∃ v, critical_path_eta p = Some (Ok v) ∧ (¬ deps_acyclic p → v = 0%Z) ∧
  (deps_acyclic p →
     (∀ l, dep_chain p l → (minutes_left l <= v)%Z) ∧
     (nodes p ≠ [] → ∃ l, dep_chain p l ∧ minutes_left l = v)).
Proof.
  intros Hk. destruct (critical_path_total p Hk) as (v & Hv & H0). exists v.
  split_and!; [done|done|]. by apply critical_path_longest.
Qed.

(** A snapshot is made for every plan - its own checks never fail -
    and counts the TASK and VERIFY nodes.  It is complete when there is such a
    node and all of them are DONE, stalled when some is not DONE and those are
    all BLOCKED; the percentage is between 0 and 100, is 100 when complete,
    and, below 20000 nodes, only then. *)
Theorem progress_spec p : keyed p →
  ∃ g, project p = Some (Ok g) ∧
  total_nodes g = Z.of_nat (length (executables p)) ∧
  (is_complete g = true ↔
     executables p ≠ [] ∧ ∀ n, n ∈ executables p → intent n = DONE) ∧
  (is_stalled g = true ↔
     (∃ n, n ∈ executables p ∧ intent n ≠ DONE) ∧
     (∀ n, n ∈ executables p → intent n = DONE ∨ intent n = BLOCKED)) ∧
  (0 <= goal_percent g <= 100)%Q ∧
  (is_complete g = true → (goal_percent g == 100)%Q) ∧
  ((goal_percent g == 100)%Q → (total_nodes g < 20000)%Z → is_complete g = true).
Proof.
  intros Hk. destruct (critical_path_total p Hk) as (v & Hv & _).
  destruct (project_eq p v Hv) as [Hr Hp]. eexists. split; [exact Hp|]. clear Hp Hv. simpl.
  revert Hr. generalize (executables p) as ns. intros ns Hr.
  assert (ns ≠ [] ↔ (0 < Z.of_nat (length ns))%Z) as Hne by (destruct ns; simpl; split; [done|lia|lia|done]).
  assert (Hc : is_complete (mkGoalProgress (workspace_id p) (ident p) (goal_id p)
    (Z.of_nat (length ns)) (count_intent TODO ns) (count_intent IN_PROGRESS ns)
    (count_intent BLOCKED ns) (count_intent DONE ns) (round2 (if (Z.of_nat (length ns) =? 0)%Z then 0
      else inject_Z (count_intent DONE ns) / inject_Z (Z.of_nat (length ns)) * 100)) v) = true ↔
    ns ≠ [] ∧ ∀ n, n ∈ ns → intent n = DONE).
  { unfold is_complete. rewrite andb_true_iff, !bool_decide_eq_true, Hne. simpl.
    by rewrite count_intent_all. }
  split_and!; [done|exact Hc| |apply Hr|apply Hr| |].
  - unfold is_stalled. rewrite andb_true_iff, !bool_decide_eq_true. simpl.
    rewrite not_all_done, <-stalled_spec. naive_solver.
  - intros [Hn Hd]%Hc. apply Hne in Hn. apply count_intent_all in Hd. rewrite Hd.
    destruct (Z.eqb_spec (Z.of_nat (length ns)) 0); [lia|]. unfold round2.
    by rewrite ratio_one by done.
  - intros Hp Hlt. apply Hc. rewrite Hne, <-count_intent_all.
    pose proof (length_filter (λ n, intent n = DONE) ns).
    destruct (Z.eqb_spec (Z.of_nat (length ns)) 0); [done|].
    split; [lia|]. destruct (decide (count_intent DONE ns = Z.of_nat (length ns))); [done|].
    exfalso. eapply Qlt_not_eq; [|exact Hp]. apply ratio_below; unfold count_intent in *; lia.
Qed.

(** * Witnesses *)

(** [a] takes an hour, [b] after it half an hour; [b] alone is left once [a] is done. *)
Definition timed (n : PlanNode) (m : Z) : PlanNode :=
  mkNode (id n) (plan_id n) (parent_id n) (kind n) (title n) (depends_on n) [] None [] None
    (mkEffort m (1 # 2)) (priority n) (intent n) IDLE (mkProgress 0 1 "") None None None [] 0 None None.
Definition timed_plan : Plan :=
  (replace_node (timed sample_b 30) 1 (replace_node (timed sample_a 60) 0 sample_plan).1).1.
Definition half_done_plan : Plan := (replace_node (set_intent DONE (timed sample_a 60)) 2 timed_plan).1.

Example timed_eta : critical_path_eta timed_plan = Some (Ok 90%Z).
Proof. reflexivity. Qed.
Example half_done_eta : critical_path_eta half_done_plan = Some (Ok 30%Z).
Proof. reflexivity. Qed.
Example half_done_percent :
  match project half_done_plan with Some (Ok g) => Qeq_bool (goal_percent g) 50 | _ => false end = true.
Proof. reflexivity. Qed.
Lemma critical_path_spec_witness :
  keyed sample_plan ∧ is_Some (critical_path_eta sample_plan).
Proof.
  split; [exact sample_keyed|].
  destruct (critical_path_spec sample_plan sample_keyed) as (v & -> & _). by exists (Ok v).
Defined.
Lemma progress_spec_witness : keyed sample_plan ∧ is_Some (project sample_plan).
Proof.
  split; [exact sample_keyed|].
  destruct (progress_spec sample_plan sample_keyed) as (g & -> & _). by exists (Ok g).
Defined.
