(* ===== verification/Allocator.v ===== *)
(** Which agent gets which ready node: the capability-scored allocator.

    Sources: src/src/infrastructure/agent/workspace_plan/allocator.py and
    src/src/domain/ports/services/task_allocator_port.py.  Scores are exact
    rationals where the code has floats; a Python set is a [gset], and a list
    where the order of its iteration shows in a result (the tags).  What a
    score is made of is kept as data; the code renders it as text. *)

From stdpp Require Import gmap.
From Stdlib Require Import QArith Qabs Qminmax Lqa.
From S2P Require Import Prelude PyText Acceptance PlanNode.
From Stdlib Require Import Ascii.

Open Scope string_scope.
Open Scope list_scope.
Open Scope nat_scope.

(** * The port *)

Record WorkspaceAgent : Type := mkAgent {
  agent_id : string;
  display_name : string;
  capabilities : gset string;
  tool_names : gset string;
  active_task_count : Z;
  is_leader : bool;
  is_available : bool;
  affinity_tags : list string;
}.
(** A part of a score that is not zero, with its value. *)
Inductive score_reason : Type :=
  | Skill (q : Q) | Tool (q : Q) | Load (q : Q) | AffinityPreferred | AffinityTag (t : string).
Record Allocation : Type := mkAllocation {
  node_id : string;
  allocated_agent_id : string;
  score : Q;
  reasons : list score_reason;
}.

(** The agents that may be given work. *)
Definition available (pool : list WorkspaceAgent) : list WorkspaceAgent :=
  filter (λ a, is_available a && negb (is_leader a) = true) pool.

(** What the supervisor relies on: at most one allocation for each ready
    node, each to an agent of the pool that may work. *)
Class TaskAllocator (A : Type) : Type := {
  allocate_nodes : A → list PlanNode → list WorkspaceAgent → list Allocation;
  allocate_ready : ∀ x ns pool al, al ∈ allocate_nodes x ns pool → node_id al ∈ id <$> ns;
  allocate_once : ∀ x ns pool, NoDup (id <$> ns) → NoDup (node_id <$> allocate_nodes x ns pool);
  allocate_workers : ∀ x ns pool al, al ∈ allocate_nodes x ns pool →
    ∃ a, a ∈ available pool ∧ agent_id a = allocated_agent_id al;
}.

(** * Scoring *)

Definition DEFAULT_EXECUTION_CAPABILITIES : gset string :=
  {["backend"; "codegen"; "file_edit"; "frontend"; "shell"; "software_development"; "testing"]}.
Definition GENERIC_EXECUTION_CAPABILITIES : gset string := {["agent:worker"]}.

Record CapabilityAllocator : Type := mkAllocator {
  skill_weight : Q; tool_weight : Q; load_weight : Q; affinity_weight : Q; min_score : Q;
}.
(** [__init__]: [None] is the ValueError of weights that do not sum to one. *)
Definition new_allocator (ws wt wl wa m : Q) : option CapabilityAllocator :=
  if negb (Qle_bool (Qabs (ws + wt + wl + wa - 1)) (1 # 1000000)) then None
  else Some (mkAllocator ws wt wl wa m).
Definition default_allocator : CapabilityAllocator :=
  mkAllocator (1 # 2) (3 # 10) (1 # 10) (1 # 10) (1 # 100).

Definition ratio (n d : nat) : Q := (inject_Z (Z.of_nat n) / inject_Z (Z.of_nat d))%Q.
Definition jaccard (a b : gset string) : Q :=
  if bool_decide (a ∪ b = ∅) then 0%Q else ratio (size (a ∩ b)) (size (a ∪ b)).
Definition default_execution_fit (caps : gset string) : Q :=
  if bool_decide (caps = ∅) then 0%Q
  else ratio (size (caps ∩ DEFAULT_EXECUTION_CAPABILITIES)) (size DEFAULT_EXECUTION_CAPABILITIES).
(** The share of the capabilities whose name, from its first colon on,
    occurs in the name of some tool, ignoring case. *)
Definition name_token_match (caps tools : gset string) : Q :=
  if bool_decide (caps = ∅) then 0%Q
  else
    let hit c := existsb (λ t, contains (last_part ":"%char (lower_str c)) (lower_str t)) (elements tools) in
    ratio (size (filter (λ c, hit c = true) caps)) (size caps).

Definition cap_names (n : PlanNode) : gset string :=
  list_to_set (capability_name <$> recommended_capabilities n) ∖ GENERIC_EXECUTION_CAPABILITIES.

Definition positive (q : Q) (r : score_reason) : list score_reason :=
  if Qle_bool q 0 then [] else [r].
Definition prefers (n : PlanNode) (a : WorkspaceAgent) : bool :=
  truthy_opt (preferred_agent_id n) && bool_decide (preferred_agent_id n = Some (agent_id a)).
(** The terms of [_score]. *)
Definition skill_of (n : PlanNode) (a : WorkspaceAgent) : Q :=
  if bool_decide (cap_names n = ∅) then default_execution_fit (capabilities a)
  else jaccard (cap_names n) (capabilities a).
Definition load_share (load : list (string * Z)) (a : WorkspaceAgent) : Q :=
  (1 / (1 + inject_Z (dget_or 0%Z (agent_id a) load)))%Q.
Definition matching_tag (n : PlanNode) (a : WorkspaceAgent) : option string :=
  List.find (λ t, bool_decide (t ∈ cap_names n)) (affinity_tags a).
Definition affinity_of (n : PlanNode) (a : WorkspaceAgent) : Q :=
  let preferred := if prefers n a then 1%Q else 0%Q in
  match matching_tag n a with Some _ => Qmax preferred (7 # 10) | None => preferred end.
(** [_score] *)
Definition score_of (c : CapabilityAllocator) (n : PlanNode) (a : WorkspaceAgent)
    (load : list (string * Z)) : Q * list score_reason :=
  let skill := skill_of n a in
  let tool := name_token_match (cap_names n) (tool_names a) in
  ((skill_weight c * skill + tool_weight c * tool + load_weight c * load_share load a +
    affinity_weight c * affinity_of n a)%Q,
   positive skill (Skill skill) ++ positive tool (Tool tool) ++ [Load (load_share load a)] ++
   (if prefers n a then [AffinityPreferred] else []) ++
   match matching_tag n a with Some t => [AffinityTag t] | None => [] end).

(** * The choice *)

(** [key > best_key] on tuples of a score, a negated count and an id. *)
Definition key_gt (k1 k2 : Q * Z * string) : bool :=
  let '(s1, c1, i1) := k1 in let '(s2, c2, i2) := k2 in
  if negb (Qeq_bool s1 s2) then Qle_bool s2 s1
  else if negb (c1 =? c2)%Z then (c2 <? c1)%Z
  else String.ltb i2 i1.

Definition best : Type := option WorkspaceAgent * Q * list score_reason.
Definition best_key (load : list (string * Z)) (b : best) : Q * Z * string :=
  match b with
  | (Some a, s, _) => (s, (- dget_or 0%Z (agent_id a) load)%Z, agent_id a)
  | (None, s, _) => (s, 0%Z, "")
  end.
Definition consider (c : CapabilityAllocator) (n : PlanNode) (load : list (string * Z)) (b : best)
    (a : WorkspaceAgent) : best :=
  let '(s, rs) := score_of c n a load in
  if key_gt (s, (- active_task_count a)%Z, agent_id a) (best_key load b) then (Some a, s, rs) else b.
(** [_best_agent] *)
Definition best_agent (c : CapabilityAllocator) (n : PlanNode) (agents : list WorkspaceAgent)
    (load : list (string * Z)) : best :=
  foldl (consider c n load) (None, (- (1))%Q, []) agents.

(** [key=lambda n: (-n.priority, n.id)] *)
Definition node_le (n m : PlanNode) : bool :=
  (priority m <? priority n)%Z || ((priority n =? priority m)%Z && String.leb (id n) (id m)).
Definition bump (aid : string) (load : list (string * Z)) : list (string * Z) :=
  dset aid (dget_or 0%Z aid load + 1)%Z load.
Fixpoint allocate_loop (c : CapabilityAllocator) (agents : list WorkspaceAgent) (ns : list PlanNode)
    (load : list (string * Z)) : list Allocation :=
  match ns with
  | [] => []
  | n :: ns' =>
      match best_agent c n agents load with
      | (Some a, s, rs) =>
          if Qle_bool (min_score c) s
          then mkAllocation (id n) (agent_id a) s rs :: allocate_loop c agents ns' (bump (agent_id a) load)
          else allocate_loop c agents ns' load
      | (None, _, _) => allocate_loop c agents ns' load
      end
  end.
Definition initial_load (agents : list WorkspaceAgent) : list (string * Z) :=
  foldl (λ d a, dset (agent_id a) (active_task_count a) d) [] agents.
Definition allocate (c : CapabilityAllocator) (ready : list PlanNode) (pool : list WorkspaceAgent)
    : list Allocation :=
  match available pool with
  | [] => []
  | agents => allocate_loop c agents (sort_by node_le ready) (initial_load agents)
  end.

(** * The best agent *)

Definition loads (load : list (string * Z)) (a : WorkspaceAgent) : Z := dget_or 0%Z (agent_id a) load.
Definition scores (c : CapabilityAllocator) (n : PlanNode) (load : list (string * Z)) (a : WorkspaceAgent) : Q :=
  (score_of c n a load).1.

Lemma key_gt_score s1 c1 i1 s2 c2 i2 : key_gt (s1, c1, i1) (s2, c2, i2) = true → (s2 <= s1)%Q.
Proof.
  unfold key_gt. destruct (Qeq_bool s1 s2) eqn:E; simpl.
  - intros _. apply Qeq_bool_eq in E. lra.
  - by intros ?%Qle_bool_iff.
Qed.
Lemma key_gt_false s1 c1 i1 s2 c2 i2 : key_gt (s1, c1, i1) (s2, c2, i2) = false → (s1 <= s2)%Q.
Proof.
  unfold key_gt. destruct (Qeq_bool s1 s2) eqn:E; simpl.
  - intros _. apply Qeq_bool_eq in E. lra.
  - intros H. destruct (Qlt_le_dec s1 s2) as [|Hle]; [lra|]. apply Qle_bool_iff in Hle. congruence.
Qed.

(** What the loop has found after the agents [l]. *)
Definition best_of (c : CapabilityAllocator) (n : PlanNode) (load : list (string * Z))
    (l : list WorkspaceAgent) (b : best) : Prop :=
  (∀ a, a ∈ l → (scores c n load a <= b.1.2)%Q) ∧
  match b.1.1 with
  | Some a => a ∈ l ∧ b.1.2 = scores c n load a
  | None => (b.1.2 = - (1))%Q
  end.

Lemma consider_best c n load l b a : best_of c n load l b →
  best_of c n load (l ++ [a]) (consider c n load b a).
Proof.
  intros [Hle Hb]. unfold consider. destruct (score_of c n a load) as [s rs] eqn:E.
  assert (Hs : scores c n load a = s) by (unfold scores; by rewrite E).
  destruct b as [[o bs] brs]. cbn [fst snd] in *.
  destruct (key_gt _ _) eqn:Hk.
  - assert (bs <= s)%Q as Hbs by (destruct o; eapply key_gt_score, Hk).
    split; cbn [fst snd].
    + intros x [Hx| ->%list_elem_of_singleton]%elem_of_app; [specialize (Hle x Hx)|rewrite Hs]; lra.
    + split; [set_solver|done].
  - assert (s <= bs)%Q as Hbs by (destruct o; eapply key_gt_false, Hk).
    split; cbn [fst snd].
    + intros x [Hx| ->%list_elem_of_singleton]%elem_of_app; [by apply Hle|by rewrite Hs].
    + destruct o; [split; [set_solver|by apply Hb]|done].
Qed.
Lemma best_agent_best c n agents load : best_of c n load agents (best_agent c n agents load).
Proof.
  unfold best_agent.
  assert (∀ l l0 b, best_of c n load l0 b → best_of c n load (l0 ++ l) (foldl (consider c n load) b l)) as H.
  { intros l. induction l as [|a l IH]; intros l0 b Hb; [by rewrite app_nil_r|].
    rewrite cons_middle, app_assoc. by apply IH, consider_best. }
  apply (H agents []). split; [by intros ? ?%elem_of_nil|done].
Qed.

(** * The greedy run *)

(** What the loop does with the nodes, in order: a node goes to an agent of
    highest score among those that may work, whose load grows by one; it is
    left out when no agent reaches the minimum. *)
Inductive greedy_run (c : CapabilityAllocator) (agents : list WorkspaceAgent) :
    list (string * Z) → list PlanNode → list Allocation → Prop :=
  | run_nil load : greedy_run c agents load [] []
  | run_skip load n ns als :
      (∀ a, a ∈ agents → (scores c n load a < min_score c)%Q ∨ (scores c n load a <= - (1))%Q) →
      greedy_run c agents load ns als → greedy_run c agents load (n :: ns) als
  | run_pick load n ns als a rs :
      a ∈ agents → (∀ a', a' ∈ agents → (scores c n load a' <= scores c n load a)%Q) →
      (min_score c <= scores c n load a)%Q →
      greedy_run c agents (bump (agent_id a) load) ns als →
      greedy_run c agents load (n :: ns)
        (mkAllocation (id n) (agent_id a) (scores c n load a) rs :: als).

Lemma allocate_greedy c agents ns : ∀ load, greedy_run c agents load ns (allocate_loop c agents ns load).
Proof.
  induction ns as [|n ns IH]; intros load; cbn [allocate_loop]; [constructor|].
  pose proof (best_agent_best c n agents load) as [Hle Hb].
  destruct (best_agent c n agents load) as [[[a|] s] rs]; cbn [fst snd] in *.
  - destruct Hb as [Ha ->]. destruct (Qle_bool _ _) eqn:Hm.
    + apply Qle_bool_iff in Hm. by apply run_pick.
    + apply run_skip; [|done]. intros a' Ha'. left. apply (Qle_lt_trans _ _ _ (Hle a' Ha')).
      apply Qnot_le_lt. intros H%Qle_bool_iff. congruence.
  - apply run_skip; [|done]. intros a' Ha'. right. rewrite <-Hb. by apply Hle.
Qed.

Lemma greedy_nodes c agents load ns als : greedy_run c agents load ns als →
  node_id <$> als `sublist_of` id <$> ns.
Proof. induction 1; simpl; by constructor. Qed.
Lemma greedy_workers c agents load ns als al : greedy_run c agents load ns als → al ∈ als →
  ∃ a, a ∈ agents ∧ agent_id a = allocated_agent_id al.
Proof.
  induction 1; [by intros ?%elem_of_nil|done|]. intros [->|?]%elem_of_cons; [by exists a|auto].
Qed.

Lemma allocate_run c ready pool :
  greedy_run c (available pool) (initial_load (available pool)) (sort_by node_le ready)
    (allocate c ready pool) ∨ (available pool = [] ∧ allocate c ready pool = []).
Proof.
  unfold allocate. destruct (available pool) as [|a l] eqn:E; [by right|left]. apply allocate_greedy.
Qed.
Lemma allocate_sublist c ready pool :
  node_id <$> allocate c ready pool `sublist_of` id <$> sort_by node_le ready.
Proof.
  destruct (allocate_run c ready pool) as [H%greedy_nodes|[_ ->]]; [done|apply sublist_nil_l].
Qed.
Lemma sorted_ids (ready : list PlanNode) : (id <$> sort_by node_le ready) ≡ₚ id <$> ready.
Proof. by rewrite sort_by_perm. Qed.

#[export] Instance capability_allocator : TaskAllocator CapabilityAllocator.
Proof.
  refine {| allocate_nodes := allocate |}.
  - intros c ns pool al Hal. rewrite <-sorted_ids.
    eapply elem_of_sublist; [|apply (allocate_sublist c ns pool)]. by apply list_elem_of_fmap_2.
  - intros c ns pool Hnd. eapply sublist_NoDup; [|apply allocate_sublist]. by rewrite sorted_ids.
  - intros c ns pool al Hal. destruct (allocate_run c ns pool) as [H|[_ H]].
    + by eapply greedy_workers.
    + rewrite H in Hal. by apply elem_of_nil in Hal.
Defined.

(** * The size of a score *)

Lemma ratio_unit n d : n ≤ d → (0 <= ratio n d <= 1)%Q.
Proof.
  intros Hle. unfold ratio. destruct d as [|d].
  { assert (n = 0) as -> by lia. vm_compute. by split. }
  assert (0 < inject_Z (Z.of_nat (S d)))%Q by (unfold Qlt, inject_Z; simpl; lia). split.
  - apply Qle_shift_div_l; [done|]. unfold Qle, Qmult, inject_Z. simpl. lia.
  - apply Qle_shift_div_r; [done|]. unfold Qle, Qmult, inject_Z. simpl. lia.
Qed.
Lemma jaccard_unit a b : (0 <= jaccard a b <= 1)%Q.
Proof.
  unfold jaccard. case_bool_decide; [vm_compute; by split|]. apply ratio_unit, subseteq_size. set_solver.
Qed.
Lemma execution_fit_unit a : (0 <= default_execution_fit a <= 1)%Q.
Proof.
  unfold default_execution_fit. case_bool_decide; [vm_compute; by split|].
  apply ratio_unit, subseteq_size. set_solver.
Qed.
Lemma token_match_unit a b : (0 <= name_token_match a b <= 1)%Q.
Proof.
  unfold name_token_match. case_bool_decide; [vm_compute; by split|].
  apply ratio_unit, subseteq_size. set_solver.
Qed.
Lemma skill_unit n a : (0 <= skill_of n a <= 1)%Q.
Proof. unfold skill_of. case_bool_decide; [apply execution_fit_unit|apply jaccard_unit]. Qed.
Lemma affinity_unit n a : (0 <= affinity_of n a <= 1)%Q.
Proof.
  unfold affinity_of. destruct (matching_tag n a), (prefers n a); vm_compute; split; done.
Qed.
Lemma load_share_spec load a : (0 <= loads load a)%Z →
  (load_share load a <= 1)%Q ∧
  ∀ k, (loads load a <= k)%Z → (1 / (1 + inject_Z k) <= load_share load a)%Q.
Proof.
  unfold load_share, loads. generalize (dget_or 0%Z (agent_id a) load) as z. intros z Hz.
  assert (0 <= inject_Z z)%Q by (unfold Qle, inject_Z; simpl; lia).
  split; [apply Qle_shift_div_r; lra|]. intros k Hk.
  assert (inject_Z z <= inject_Z k)%Q by (unfold Qle, inject_Z; simpl; lia).
  apply Qle_shift_div_l; [lra|].
  assert (1 / (1 + inject_Z k) * (1 + inject_Z z) == (1 + inject_Z z) / (1 + inject_Z k))%Q as ->
    by (field; lra).
  apply Qle_shift_div_r; lra.
Qed.

(** With the default weights a score is at most 1, and at least a tenth of
    the share of its load. *)
Lemma default_scores n load a : (0 <= loads load a)%Z →
  (scores default_allocator n load a <= 1)%Q ∧
  ∀ k, (loads load a <= k)%Z →
    ((1 # 10) * (1 / (1 + inject_Z k)) <= scores default_allocator n load a)%Q.
Proof.
  intros [Hl1 Hl2]%load_share_spec. unfold scores, score_of.
  cbn [fst default_allocator skill_weight tool_weight load_weight affinity_weight].
  pose proof (skill_unit n a). pose proof (affinity_unit n a).
  pose proof (token_match_unit (cap_names n) (tool_names a)). split; [lra|].
  intros k Hk. specialize (Hl2 k Hk). lra.
Qed.

(** * Every node gets an agent while one is not too busy *)

Lemma loads_bump aid load a :
  loads (bump aid load) a = (loads load a + if decide (aid = agent_id a) then 1 else 0)%Z.
Proof. unfold loads, bump. rewrite dget_or_dset. case_decide; subst; lia. Qed.

Lemma greedy_all agents load ns als : greedy_run default_allocator agents load ns als →
  (∀ a, a ∈ agents → (0 <= loads load a)%Z) →
  (∃ a, a ∈ agents ∧ (loads load a + Z.of_nat (length ns) <= 9)%Z) →
  node_id <$> als = id <$> ns.
Proof.
  induction 1 as [load|load n ns als Hskip _ IH|load n ns als b rs Hb Hmax Hmin _ IH]; intros H0 (a & Ha & Hle).
  - done.
  - exfalso. destruct (default_scores n load a (H0 a Ha)) as [_ Hs].
    assert ((1 # 10) * (1 / (1 + inject_Z 8)) <= scores default_allocator n load a)%Q as Hs8.
    { apply Hs. simpl in Hle. lia. }
    assert ((1 # 90) <= (1 # 10) * (1 / (1 + inject_Z 8)))%Q by (vm_compute; congruence).
    destruct (Hskip a Ha); cbn [min_score default_allocator] in *; lra.
  - simpl. f_equal. apply IH.
    + intros x Hx. rewrite loads_bump. specialize (H0 x Hx). case_decide; lia.
    + exists a. split; [done|]. rewrite loads_bump. simpl in Hle. case_decide; lia.
Qed.

Lemma initial_loads agents a : NoDup (agent_id <$> agents) → a ∈ agents →
  loads (initial_load agents) a = active_task_count a.
Proof.
  unfold initial_load, loads. induction agents as [|b l IH] using rev_ind; intros Hnd Ha.
  { by apply elem_of_nil in Ha. }
  rewrite fmap_app in Hnd. apply NoDup_app in Hnd as (Hl & Hb & _).
  rewrite foldl_app. simpl. rewrite dget_or_dset.
  apply elem_of_app in Ha as [Ha| ->%list_elem_of_singleton]; [|by rewrite decide_True].
  rewrite decide_False; [by apply IH|]. intros E. apply (Hb (agent_id a)).
  - by apply list_elem_of_fmap_2.
  - rewrite <-E. by left.
Qed.

Lemma allocate_all ready pool : NoDup (agent_id <$> pool) →
  (∀ a, a ∈ pool → (0 <= active_task_count a)%Z) →
  (∃ a, a ∈ available pool ∧ (active_task_count a + Z.of_nat (length ready) <= 9)%Z) →
  node_id <$> allocate default_allocator ready pool = id <$> sort_by node_le ready.
Proof.
  intros Hnd H0 (a & Ha & Hle).
  assert (Hsub : NoDup (agent_id <$> available pool)).
  { eapply sublist_NoDup; [exact Hnd|]. apply fmap_sublist, sublist_filter. }
  destruct (allocate_run default_allocator ready pool) as [Hrun|[E _]];
    [|rewrite E in Ha; by apply elem_of_nil in Ha].
  apply (greedy_all _ _ _ _ Hrun).
  - intros x Hx. rewrite initial_loads by done. by apply list_elem_of_filter in Hx as [_ Hx%H0].
  - exists a. by rewrite initial_loads, sort_by_length.
Qed.

(** * Properties *)

(** Two agents alike but for their names. *)
Definition twin (name : string) : WorkspaceAgent := mkAgent name name {["shell"]} ∅ 0 false true [].
Definition plain_node (nid : string) : PlanNode :=
  mkNode nid "p1" (Some "g") TASK "title" [] [] None [] None (mkEffort 0 (1 # 2)) 0 TODO IDLE
    (mkProgress 0 1 "") None None None [] 0 None None.
Definition three_nodes : list PlanNode := [plain_node "1"; plain_node "2"; plain_node "3"].


