(* ===== verification/PlanDispatch.v ===== *)
(** How ready nodes are dispatched: the second half of a supervisor's tick.

    Source: [WorkspaceSupervisor.tick] from the invalidation of dependents on,
    and the helpers it calls, in
    src/src/infrastructure/agent/workspace_plan/supervisor.py.  The agent pool,
    the allocator, the dispatcher and the transaction are what the supervisor
    is given; [datetime.fromisoformat] is a parameter.  Events, which only the
    sink sees, are left out. *)

From stdpp Require Import gmap.
From S2P Require Import Prelude PyText Datetime Acceptance PlanNode Kahn Plan NodeFacts Allocator.

Open Scope string_scope.
Open Scope list_scope.
Open Scope nat_scope.

(** * Resetting stale work *)

Definition STALE_ATTEMPT_METADATA_KEYS : list string :=
  ["candidate_artifacts"; "candidate_verifications"; "deploy_mode"; "deployment_status";
   "evidence_refs"; "execution_verifications"; "external_id"; "external_provider"; "external_url";
   "last_verification_summary"; "last_verification_passed"; "last_verification_hard_fail";
   "last_verification_attempt_id"; "last_verification_ran_at"; "last_verification_judge_confidence";
   "last_verification_judge_failed_criteria"; "last_verification_judge_next_action_kind";
   "last_verification_judge_rationale"; "last_verification_judge_repair_brief";
   "last_verification_judge_required_next_action"; "last_verification_judge_verdict";
   "last_verification_feedback_items"; "last_worker_report_attempt_id";
   "last_worker_report_artifacts"; "last_worker_report_summary"; "last_worker_report_type";
   "last_worker_report_verifications"; "verification_feedback_disposition";
   "obsolete_by_verifier_feedback"; "obsolete_feedback_items"; "current_repair_turn";
   "dependency_invalidated_at"; "dependency_invalidated_missing_ids";
   "dependency_invalidated_reason"; "dependency_invalidated_previous_attempt_id";
   "dependency_invalidated_previous_intent"; "dependency_invalidated_previous_execution";
   "pipeline_finished_at"; "pipeline_request_count"; "pipeline_requested_at";
   "verification_evidence_refs"; "verified_commit_ref"; "verified_git_diff_summary";
   "verified_test_commands"; "reported_attempt_reconciled_at"; "reported_attempt_status";
   "retry_last_reason"; "source_publish_branch"; "source_publish_commit_ref";
   "source_publish_provider"; "source_publish_reason"; "source_publish_source_commit_ref";
   "source_publish_status"; "source_publish_token_env"; "terminal_attempt_status";
   "terminal_attempt_reconciled_at"; "terminal_attempt_superseded_attempt_id";
   "terminal_attempt_superseded_reason"; "terminal_attempt_superseded_status"; "pipeline_status";
   "pipeline_gate_status"; "pipeline_run_id"; "pipeline_evidence_refs"; "pipeline_last_summary";
   "worktree_integration_attempt_id"; "worktree_integration_commit_ref";
   "worktree_integration_dirty_signature"; "worktree_integration_ran_at";
   "worktree_integration_status"; "worktree_integration_summary";
   "worktree_integration_worktree_path"].
Definition clear_stale_attempt_metadata (m : list (string * pyval)) : list (string * pyval) :=
  foldl (λ d k, ddel k d) m STALE_ATTEMPT_METADATA_KEYS.
Definition reset_stale_feature_checkpoint (f : FeatureCheckpoint) : FeatureCheckpoint :=
  mkCheckpoint (feature_id f) (sequence f) (feature_title f) (init_command f) (test_commands f)
    (expected_artifacts f) None None (Some "HEAD") None (handoff_notes f).

(** [d.update(kvs)] *)
Definition update_all (kvs d : list (string * pyval)) : list (string * pyval) :=
  foldl (λ d kv, dset kv.1 kv.2 d) d kvs.
Definition opt_text (o : option string) : pyval := from_option PStr PNone o.
(** [now.isoformat().replace("+00:00", "Z")] *)
Definition iso_zulu (now : Z) : string :=
  let s := isoformat now in String.substring 0 (String.length s - 6) s +:+ "Z".

(** [plan.replace_node] for a node of the plan. *)
Definition put_node (now : Z) (n : PlanNode) (p : Plan) : Plan := (replace_node n now p).1.

Definition invalidated (now : Z) (missing : list string) (n : PlanNode) : PlanNode :=
  set_completed_at None (set_updated_at (Some now)
    (set_metadata (update_all
       [("dependency_invalidated_at", PStr (iso_zulu now));
        ("dependency_invalidated_missing_ids", PList (PStr <$> missing));
        ("dependency_invalidated_reason", PStr "dependencies_not_done_or_not_integrated");
        ("dependency_invalidated_previous_attempt_id", opt_text (current_attempt_id n));
        ("dependency_invalidated_previous_intent", PStr (intent_value (intent n)));
        ("dependency_invalidated_previous_execution", PStr (execution_value (execution n)))]
       (clear_stale_attempt_metadata (metadata n)))
    (set_feature_checkpoint (reset_stale_feature_checkpoint <$> feature_checkpoint n)
    (set_current_attempt_id None (set_assignee_agent_id None
    (set_execution IDLE (set_intent TODO n))))))).
Definition runnable (n : PlanNode) : bool := bool_decide (kind n ∈ [TASK; VERIFY]).
Definition untouched (n : PlanNode) : bool :=
  bool_decide (intent n = TODO) && bool_decide (execution n = IDLE) &&
  negb (truthy_opt (current_attempt_id n)).
Definition invalidate_step (now : Z) (p : Plan) (n : PlanNode) : Plan :=
  if negb (runnable n) || bool_decide (depends_on n = []) then p
  else
    match dependency_blocking_ids p n with
    | [] => p
    | missing => if untouched n then p else put_node now (invalidated now missing n) p
    end.
(** [_invalidate_nodes_with_unmet_dependencies]: over the nodes as they were. *)
Definition invalidate_nodes (now : Z) (p : Plan) : Plan :=
  foldl (invalidate_step now) p (dvals (nodes p)).

(** * Phase barriers *)

Definition nodes_by_iteration (p : Plan) : list (Z * list PlanNode) :=
  foldl (λ d n, dset (node_iteration_index n) (dget_or [] (node_iteration_index n) d ++ [n]) d) []
    (filter (λ n, runnable n = true) (dvals (nodes p))).
(** The place of a node in its iteration, from 1. *)
Definition sequence_by_node (ordered : list PlanNode) : list (string * Z) :=
  imap (λ i n, (id n, Z.of_nat (S i))) ordered.
Definition before (seqs : list (string * Z)) (dep : string) (k : Z) : bool :=
  (dget_or (k + 1) dep seqs <? k)%Z.
Definition nodes_of_phase (ordered : list PlanNode) (phase : string) : list string :=
  id <$> filter (λ m, node_iteration_phase m = phase) ordered.
Definition desired_dependencies (ordered : list PlanNode) (n : PlanNode) : list string :=
  let seqs := sequence_by_node ordered in
  let k := dget_or 0%Z (id n) seqs in
  let kept := filter (λ d, (negb (dmem d seqs) || before seqs d k) = true) (depends_on n) in
  let repaired :=
    match repair_blocking_dependency_id n with
    | Some r => if bool_decide (r = id n) then kept else set_add r kept
    | None => kept
    end in
  let barriers := filter (λ d, before seqs d k = true)
                    (phase_barrier_dependencies (node_iteration_phase n) (nodes_of_phase ordered)) in
  filter (.≠ id n) (foldl (λ acc d, set_add d acc) repaired barriers).
Definition same_set (l k : list string) : bool :=
  bool_decide (Forall (.∈ k) l) && bool_decide (Forall (.∈ l) k).
Definition barrier_step (now : Z) (ordered : list PlanNode) (p : Plan) (n : PlanNode) : Plan :=
  if negb (bool_decide (intent n = TODO)) || truthy_opt (current_attempt_id n) then p
  else
    let phase := node_iteration_phase n in
    let desired := desired_dependencies ordered n in
    if same_set desired (depends_on n) && bool_decide (meta "iteration_phase" n = PStr phase) then p
    else
      put_node now
        (set_updated_at (Some now)
           (set_metadata (update_all
              [("iteration_phase", PStr phase);
               ("scrum_artifact", PStr (dget_or "" phase SCRUM_ARTIFACT_BY_PHASE));
               ("phase_barrier_dependencies_repaired_at", PStr (isoformat now))] (metadata n))
           (set_depends_on desired n))) p.
Definition barrier_group (now : Z) (p : Plan) (g : Z * list PlanNode) : Plan :=
  if (g.1 <=? 1)%Z || (length g.2 <? 2) then p
  else let ordered := ordered_iteration_nodes g.2 in foldl (barrier_step now ordered) p ordered.
(** [_repair_pending_iteration_phase_barriers] *)
Definition repair_phase_barriers (now : Z) (p : Plan) : Plan :=
  foldl (barrier_group now) p (nodes_by_iteration p).

(** * The nodes to dispatch *)

Definition active (n : PlanNode) : bool :=
  bool_decide (execution n ∈ [DISPATCHED; RUNNING; REPORTED; VERIFYING]).
Definition active_write_scope_nodes (p : Plan) : list PlanNode :=
  filter (λ n, active n = true) (leaf_tasks p).

Definition by_priority (n m : PlanNode) : bool := (priority m <=? priority n)%Z.
Fixpoint select_loop (ns : list PlanNode) (claimed : gset string) : list PlanNode * list PlanNode :=
  match ns with
  | [] => ([], [])
  | n :: ns' =>
      let ws := node_write_set n in
      if negb (bool_decide (ws = ∅)) && negb (bool_decide (claimed ## ws)) then
        let '(selected, deferred) := select_loop ns' claimed in (selected, n :: deferred)
      else
        let '(selected, deferred) := select_loop ns' (claimed ∪ ws) in (n :: selected, deferred)
  end.
Definition claimed_by (ns : list PlanNode) : gset string := ⋃ (node_write_set <$> ns).
(** [_select_ready_nodes_without_write_conflicts]; [sorted(reverse=True)] is stable. *)
Definition select_without_write_conflicts (ready act : list PlanNode) : list PlanNode * list PlanNode :=
  select_loop (sort_by by_priority ready) (claimed_by act).

(** The base a dispatched node starts from: the commit of the dependency that
    was completed last. *)
Definition completion_key (n : PlanNode) : Z :=
  match completed_at n with
  | Some t => t
  | None => default (created_at n) (updated_at n)
  end.
Definition base_ref_gt (x y : Z * string * string) : bool :=
  let '(t1, d1, c1) := x in let '(t2, d2, c2) := y in
  if negb (t1 =? t2)%Z then (t2 <? t1)%Z
  else if negb (bool_decide (d1 = d2)) then String.ltb d2 d1 else String.ltb c2 c1.
Definition base_ref_candidates (p : Plan) (n : PlanNode) : list (Z * string * string) :=
  omap (λ d, m ← dget d (nodes p);
             if bool_decide (intent m = DONE) then
               c ← dependency_dispatch_commit_ref m; Some (completion_key m, d, c)
             else None)
    (sort_by String.leb (depends_on n)).
Definition dependency_base_ref_for_dispatch (p : Plan) (n : PlanNode) : option string :=
  match base_ref_candidates p n with
  | [] => None
  | c :: cs => Some (foldl (λ best x, if base_ref_gt x best then x else best) c cs).2
  end.
Definition node_with_dependency_base_ref (now : Z) (p : Plan) (n : PlanNode) : PlanNode :=
  match feature_checkpoint n with
  | None => n
  | Some f =>
      if bool_decide (depends_on n = []) then n
      else
        match dependency_base_ref_for_dispatch p n with
        | None => n
        | Some r =>
            if commit_refs_match (base_ref f) (Some r) then n
            else
              set_updated_at (Some now)
                (set_feature_checkpoint
                   (Some (mkCheckpoint (feature_id f) (sequence f) (feature_title f) (init_command f)
                      (test_commands f) (expected_artifacts f) (worktree_path f) (branch_name f) (Some r)
                      (commit_ref f) (handoff_notes f))) n)
        end
  end.
Definition node_dispatched_with_fresh_attempt (now : Z) (n : PlanNode) (assignee attempt : string) : PlanNode :=
  let cleaned := clear_stale_attempt_metadata (metadata n) in
  let m :=
    match meta "current_repair_turn" n with
    | PDict turn =>
        if bool_decide (dget "attempt_id" turn = Some (PStr attempt)) then
          let m := dset "current_repair_turn" (PDict turn) cleaned in
          match meta "same_conversation_repair_turn_count" n with
          | PInt z => if (0 <? z)%Z then dset "same_conversation_repair_turn_count" (PInt z) m else m
          | PBool true => dset "same_conversation_repair_turn_count" (PBool true) m
          | _ => m
          end
        else cleaned
    | _ => cleaned
    end in
  set_updated_at (Some now) (set_metadata m (set_current_attempt_id (Some attempt)
    (set_assignee_agent_id (Some assignee) (set_execution DISPATCHED (set_intent IN_PROGRESS n))))).

(** * Dispatching *)

(** What the dispatcher answers: the id of the attempt it launched. *)
Inductive dispatch_answer : Type := Launched (attempt : option string) | DispatchRaised (e : string).

Section dispatch.
Context {A : Type} `{TaskAllocator A} (alloc : A).
Context (fromisoformat : string → option Z).

(** [_node_retry_not_before]: [None] is the least datetime. *)
Definition node_retry_not_before (n : PlanNode) : option Z :=
  match meta "retry_not_before" n with
  | PStr raw =>
      let v := strip raw in
      if truthy v then
        fromisoformat
          (if String.eqb (String.substring (String.length v - 1) 1 v) "Z"
           then String.substring 0 (String.length v - 1) v +:+ "+00:00" else v)
      else None
  | _ => None
  end.
Definition due (now : Z) (n : PlanNode) : bool :=
  from_option (λ t, t <=? now)%Z true (node_retry_not_before n).

(** What the supervisor meets in one tick. *)
Record tick_env : Type := mkEnv {
  now : Z;
  max_dispatches : nat;
  checkpoint_ok : bool;                      (** the transaction before dispatch went through *)
  pool : result string (list WorkspaceAgent);  (** an error when it, or the allocation, raised *)
  dispatcher : Allocation → PlanNode → dispatch_answer;
}.

(** A worker that was launched, with the node it was given. *)
Record launch : Type := mkLaunch {
  launch_allocation : Allocation; launched_node : PlanNode; launch_attempt : string;
}.
Record dispatch_state : Type := mkDispatch {
  plan : Plan; launches : list launch; allocations_made : nat; errors : list string;
}.

Definition may_dispatch (n : PlanNode) : bool :=
  is_ok (transition_intent (intent n) IN_PROGRESS) && is_ok (transition_execution (execution n) DISPATCHED).
Definition dispatch_one (env : tick_env) (s : dispatch_state) (al : Allocation) : dispatch_state :=
  match dget (node_id al) (nodes (plan s)) with
  | None => s
  | Some n =>
      let d := node_with_dependency_base_ref (now env) (plan s) n in
      match dispatcher env al d with
      | DispatchRaised e => mkDispatch (plan s) (launches s) (allocations_made s) (errors s ++ ["dispatch(" +:+ id n +:+ "): " +:+ e])
      | Launched (Some attempt) =>
          if negb (truthy attempt) then s
          else
            let log := launches s ++ [mkLaunch al d attempt] in
            if may_dispatch d then
              mkDispatch
                (put_node (now env)
                   (node_dispatched_with_fresh_attempt (now env) d (allocated_agent_id al) attempt) (plan s))
                log (S (allocations_made s)) (errors s)
            else mkDispatch (plan s) log (allocations_made s) (errors s)
      | Launched None => s
      end
  end.

(** The plan the selection is made on. *)
Definition prepared (env : tick_env) (p : Plan) : Plan :=
  repair_phase_barriers (now env) (invalidate_nodes (now env) p).
Definition ready_candidates (env : tick_env) (p : Plan) : list PlanNode :=
  filter (λ n, dependency_blocking_ids p n = []) (filter (λ n, due (now env) n = true) (ready_nodes p)).
Definition to_dispatch (env : tick_env) (p : Plan) : list PlanNode :=
  take (max_dispatches env)
    (select_without_write_conflicts (ready_candidates env p) (active_write_scope_nodes p)).1.

(** From the invalidation of dependents to the plan that is saved.  A
    checkpoint that fails ends the tick. *)
Definition dispatch_phase (env : tick_env) (p : Plan) : option dispatch_state :=
  let p1 := prepared env p in
  match to_dispatch env p1 with
  | [] => Some (mkDispatch p1 [] 0 [])
  | ready =>
      if negb (checkpoint_ok env) then None
      else
        match pool env with
        | Err e => Some (mkDispatch p1 [] 0 ["allocate: " +:+ e])
        | Ok agents =>
            Some (foldl (dispatch_one env) (mkDispatch p1 [] 0 []) (allocate_nodes alloc ready agents))
        end
  end.
End dispatch.
