(* ===== verification/DispatchSafety.v ===== *)
(** What a dispatch guarantees: nodes that may start, workers that do not
    write the same files, and stale work that is reset first.

    Over the definitions of [PlanDispatch], against any implementation of
    [TaskAllocator]. *)

From stdpp Require Import gmap.
From S2P Require Import Prelude PyText Datetime Acceptance PlanNode Kahn Plan NodeFacts Allocator PlanDispatch.

Open Scope string_scope.
Open Scope list_scope.
Open Scope nat_scope.

(** * Replacing nodes of a plan *)

Lemma put_node_nodes now n p : id n ∈ dkeys (nodes p) → nodes (put_node now n p) = dset (id n) n (nodes p).
Proof.
  intros H. unfold put_node, replace_node; unfold_M. apply dmem_true in H. by rewrite H.
Qed.
Lemma put_node_get now n p k : id n ∈ dkeys (nodes p) →
  dget k (nodes (put_node now n p)) = if decide (id n = k) then Some n else dget k (nodes p).
Proof. intros. by rewrite put_node_nodes, dget_dset. Qed.
Lemma put_node_keys now n p : id n ∈ dkeys (nodes p) → dkeys (nodes (put_node now n p)) = dkeys (nodes p).
Proof. intros. by rewrite put_node_nodes, dkeys_dset_old. Qed.
Lemma put_node_keyed now n p : keyed p → node_wf n → id n ∈ dkeys (nodes p) → keyed (put_node now n p).
Proof. intros Hk Hn Hin. eapply keyed_dset; [exact Hk|exact Hn|by apply put_node_nodes]. Qed.

(** ** Nodes that keep their place and their files *)

Record placed (n m : PlanNode) : Prop := {
  placed_id : id m = id n;
  placed_kind : kind m = kind n;
  placed_parent : parent_id m = parent_id n;
  placed_writes : node_write_set m = node_write_set n;
}.
#[export] Instance placed_preorder : PreOrder placed.
Proof. split; [by constructor|]. intros x y z [] []. constructor; congruence. Qed.
(** Moreover, a node that was not running does not run. *)
Definition tamed (n m : PlanNode) : Prop := placed n m ∧ (active m = true → active n = true).
#[export] Instance tamed_preorder : PreOrder tamed.
Proof. split; [by split|]. intros x y z [] []. split; [by etransitivity|auto]. Qed.

(** Plans with the same keys whose nodes are related. *)
Record rel_plan (R : relation PlanNode) (p q : Plan) : Prop := {
  rel_keys : dkeys (nodes q) = dkeys (nodes p);
  rel_nodes : ∀ k n, dget k (nodes p) = Some n → ∃ m, dget k (nodes q) = Some m ∧ R n m;
}.
#[export] Instance rel_plan_preorder `{!PreOrder R} : PreOrder (rel_plan R).
Proof.
  split.
  - intros p. constructor; [done|]. intros k n Hn. by exists n.
  - intros p q r [Hk1 Hn1] [Hk2 Hn2]. constructor; [congruence|]. intros k n Hn.
    destruct (Hn1 k n Hn) as (m & Hm & Hnm). destruct (Hn2 k m Hm) as (o & Ho & Hmo).
    exists o. split; [done|]. by transitivity m.
Qed.
(** Putting a relative of one of the nodes of [p] into a later plan. *)
Lemma put_related R now p q n m : keyed q ∧ rel_plan R p q → dget (id n) (nodes p) = Some n →
  R n m → id m = id n → node_wf m → keyed (put_node now m q) ∧ rel_plan R p (put_node now m q).
Proof.
  intros [Hk Ht] Hn Hnm Hid Hwf. assert (id m ∈ dkeys (nodes q)) as Hin.
  { rewrite Hid, (rel_keys _ _ _ Ht). apply dget_is_Some_keys. eauto. }
  split; [by apply put_node_keyed|]. constructor; [by rewrite put_node_keys, (rel_keys _ _ _ Ht)|].
  intros k x Hx. rewrite put_node_get by done. case_decide as E; [|by apply Ht].
  exists m. split; [done|]. rewrite Hid in E. subst k. by simplify_eq.
Qed.
Lemma fold_related {B} (f : Plan → B → Plan) R p (ns : list B) : ∀ q,
  (∀ q n, n ∈ ns → keyed q ∧ rel_plan R p q → keyed (f q n) ∧ rel_plan R p (f q n)) →
  keyed q ∧ rel_plan R p q → keyed (foldl f q ns) ∧ rel_plan R p (foldl f q ns).
Proof.
  induction ns as [|n ns IH]; intros q Hf Hq; [done|]. simpl. apply IH; [|apply Hf; [left|done]].
  intros q' m Hm. apply Hf. by right.
Qed.
Lemma related_leaf (R : relation PlanNode) p q m : (∀ n m, R n m → placed n m) →
  keyed p → keyed q → rel_plan R p q → m ∈ leaf_tasks q → ∃ n, n ∈ leaf_tasks p ∧ R n m.
Proof.
  intros HR Hkp Hkq Ht (Hm & Hkind & Hpar)%leaf_tasks_spec; [|done].
  assert (is_Some (dget (id m) (nodes p))) as [n Hn].
  { apply dget_is_Some_keys. rewrite <-(rel_keys _ _ _ Ht). apply dget_is_Some_keys. eauto. }
  destruct (rel_nodes _ _ _ Ht _ _ Hn) as (m' & Hm' & Hnm). simplify_eq.
  exists n. split; [|done]. destruct (HR _ _ Hnm) as [E1 E2 _ _]. rewrite E1 in Hn, Hpar.
  apply leaf_tasks_spec; [done|]. rewrite <-E2. split_and!; [done|done|]. intros x Hx Hpx.
  destruct (rel_nodes _ _ _ Ht _ _ Hx) as (y & Hy & [F1 _ F3 _]%HR). apply (Hpar y); congruence.
Qed.

(** ** Workers that write different files *)

Definition writers_apart (p : Plan) : Prop := ∀ m n,
  m ∈ active_write_scope_nodes p → n ∈ active_write_scope_nodes p → id m ≠ id n →
  node_write_set m ## node_write_set n.

Lemma elem_of_writers p n : n ∈ active_write_scope_nodes p ↔ n ∈ leaf_tasks p ∧ active n = true.
Proof. unfold active_write_scope_nodes. rewrite list_elem_of_filter. tauto. Qed.
(** [S] are the nodes that may have been started. *)
Lemma started_writers (S : list PlanNode) (R : relation PlanNode) p q : keyed p → keyed q → rel_plan R p q →
  (∀ n m, R n m → placed n m ∧ (active m = true → active n = true ∨ n ∈ S)) →
  (∀ m n, m ∈ active_write_scope_nodes p → n ∈ S → node_write_set m ## node_write_set n) →
  (∀ m n, m ∈ S → n ∈ S → id m ≠ id n → node_write_set m ## node_write_set n) →
  writers_apart p → writers_apart q.
Proof.
  intros Hkp Hkq Ht HR Hold Hnew Hp m n [Hm Ham]%elem_of_writers [Hn Han]%elem_of_writers Hne.
  destruct (related_leaf R p q m) as (m' & Hm' & [Pm Am]%HR); [by intros ? ? [? _]%HR|done..|].
  destruct (related_leaf R p q n) as (n' & Hn' & [Pn An]%HR); [by intros ? ? [? _]%HR|done..|].
  rewrite (placed_writes _ _ Pm), (placed_writes _ _ Pn).
  rewrite (placed_id _ _ Pm), (placed_id _ _ Pn) in Hne.
  destruct (Am Ham) as [Hma|Hma], (An Han) as [Hna|Hna].
  - apply Hp; [by apply elem_of_writers|by apply elem_of_writers|done].
  - apply Hold; [by apply elem_of_writers|done].
  - symmetry. apply Hold; [by apply elem_of_writers|done].
  - by apply Hnew.
Qed.
Lemma tamed_writers p q : keyed p → keyed q → rel_plan tamed p q → writers_apart p → writers_apart q.
Proof.
  intros Hkp Hkq Ht. apply (started_writers [] tamed); [done..| | |].
  - intros n m [Hp Ha]. split; [done|]. intros. left. auto.
  - by intros ? ? ? ?%elem_of_nil.
  - by intros ? ? ?%elem_of_nil.
Qed.

(** * Invalidation and phase barriers *)

Lemma meta_update_other kvs d key : key ∉ kvs.*1 →
  dget_or PNone key (update_all kvs d) = dget_or PNone key d.
Proof.
  unfold update_all. revert d. induction kvs as [|[k v] kvs IH]; intros d; [done|]. csimpl.
  intros [? ?]%not_elem_of_cons. rewrite IH by done. by rewrite dget_or_dset, decide_False.
Qed.
Lemma dget_or_ddel_ne {K V} `{EqDecision K} (v0 : V) (k k' : K) d : k ≠ k' →
  dget_or v0 k' (ddel k d) = dget_or v0 k' d.
Proof. intros. unfold dget_or. by rewrite dget_ddel_ne. Qed.
Lemma meta_clear_other d key : key ∉ STALE_ATTEMPT_METADATA_KEYS →
  dget_or PNone key (clear_stale_attempt_metadata d) = dget_or PNone key d.
Proof.
  unfold clear_stale_attempt_metadata. generalize STALE_ATTEMPT_METADATA_KEYS as ks. intros ks. revert d.
  induction ks as [|k ks IH]; intros d; [done|]. intros [? ?]%not_elem_of_cons. simpl.
  rewrite IH by done. by apply dget_or_ddel_ne.
Qed.
Lemma write_set_of_meta n m : meta "write_set" m = meta "write_set" n → node_write_set m = node_write_set n.
Proof. unfold node_write_set. by intros ->. Qed.

Lemma invalidated_tamed now missing n : tamed n (invalidated now missing n).
Proof.
  split; [|done]. constructor; try done. apply write_set_of_meta. unfold meta, invalidated. cbn [metadata set_completed_at
    set_updated_at set_metadata]. rewrite meta_update_other by vm_decide. by rewrite meta_clear_other by vm_decide.
Qed.
Lemma invalidated_wf now missing n : node_wf n → node_wf (invalidated now missing n).
Proof. by intros []. Qed.

Section barriers.
Context (ordered : list PlanNode).

Lemma fold_set_add_NoDup (l acc : list string) : NoDup acc → NoDup (foldl (λ acc d, set_add d acc) acc l).
Proof. revert acc. induction l; intros acc Hacc; simpl; [done|]. auto with memstack. Qed.
Lemma desired_NoDup n : NoDup (depends_on n) → NoDup (desired_dependencies ordered n).
Proof.
  intros Hd. unfold desired_dependencies. apply NoDup_filter, fold_set_add_NoDup.
  repeat case_match; repeat apply NoDup_set_add; by apply NoDup_filter.
Qed.
Lemma desired_no_self n : id n ∉ desired_dependencies ordered n.
Proof. unfold desired_dependencies. rewrite list_elem_of_filter. tauto. Qed.
End barriers.

Lemma invalidate_step_tamed now p q n : keyed p → keyed q ∧ rel_plan tamed p q →
  dget (id n) (nodes p) = Some n →
  keyed (invalidate_step now q n) ∧ rel_plan tamed p (invalidate_step now q n).
Proof.
  intros Hk Hq Hn. unfold invalidate_step. repeat case_match; try done.
  apply (put_related _ now p q n); [done|done|apply invalidated_tamed|done|].
  apply invalidated_wf, (keyed_node _ Hk _ _ Hn).
Qed.
Lemma invalidate_tamed now p : keyed p →
  keyed (invalidate_nodes now p) ∧ rel_plan tamed p (invalidate_nodes now p).
Proof.
  intros Hk. apply fold_related; [|done]. intros q n Hn%elem_of_dvals Hq; [|done].
  by apply invalidate_step_tamed.
Qed.

Lemma barrier_step_tamed now ordered p q n : keyed q ∧ rel_plan tamed p q → keyed p →
  dget (id n) (nodes p) = Some n →
  keyed (barrier_step now ordered q n) ∧ rel_plan tamed p (barrier_step now ordered q n).
Proof.
  intros Hq Hk Hn. unfold barrier_step. repeat case_match; try done.
  apply (put_related _ now p q n); [done|done| |done|].
  - split; [|done]. constructor; try done. apply write_set_of_meta. unfold meta.
    cbn [metadata set_updated_at set_metadata set_depends_on]. by rewrite meta_update_other by vm_decide.
  - destruct (keyed_node _ Hk _ _ Hn) as [H1 H2 H3 H4]. constructor; simpl; [done|done| |].
    + by apply desired_NoDup.
    + apply desired_no_self.
Qed.
Lemma elem_of_groups p g n : g ∈ nodes_by_iteration p → n ∈ g.2 → n ∈ dvals (nodes p).
Proof.
  unfold nodes_by_iteration. intros Hg Hn.
  assert (∀ l d, (∀ g n, g ∈ d → n ∈ g.2 → n ∈ dvals (nodes p)) → (∀ n, n ∈ l → n ∈ dvals (nodes p)) →
    ∀ g n, g ∈ foldl (λ d n, dset (node_iteration_index n) (dget_or [] (node_iteration_index n) d ++ [n]) d) d l →
      n ∈ g.2 → n ∈ dvals (nodes p)) as H.
  { intros l. induction l as [|x l IH]; intros d Hd Hl; [done|]. simpl. apply IH; [|set_solver].
    intros h m [->|Hh]%elem_of_dset; [|by eauto]. simpl.
    intros [Hm| ->%list_elem_of_singleton]%elem_of_app; [|apply Hl; left].
    unfold dget_or in Hm. destruct (dget _ d) as [ms|] eqn:E; [|by apply elem_of_nil in Hm].
    by eapply Hd; [apply (dget_Some_elem _ _ _ E)|]. }
  eapply (H _ []); [by intros ? ? ?%elem_of_nil| |exact Hg|exact Hn].
  intros m Hm. by apply list_elem_of_filter in Hm as [_ ?].
Qed.
Lemma barriers_tamed now p : keyed p →
  keyed (repair_phase_barriers now p) ∧ rel_plan tamed p (repair_phase_barriers now p).
Proof.
  intros Hk. apply fold_related; [|done]. intros q g Hg Hq. unfold barrier_group.
  case_match; [done|]. apply fold_related; [|done]. intros q' n Hn%elem_of_sort_by Hq'.
  apply barrier_step_tamed; [done|done|]. apply elem_of_dvals; [done|]. by eapply elem_of_groups.
Qed.
Lemma prepared_tamed env p : keyed p → keyed (prepared env p) ∧ rel_plan tamed p (prepared env p).
Proof.
  intros Hk. unfold prepared. destruct (invalidate_tamed (now env) p Hk) as [H1 H2].
  destruct (barriers_tamed (now env) _ H1) as [H3 H4]. split; [done|]. by etransitivity.
Qed.

(** * The selection *)

Lemma select_loop_spec ns : ∀ claimed sel def, select_loop ns claimed = (sel, def) →
  sel `sublist_of` ns ∧ (∀ n, n ∈ sel → claimed ## node_write_set n) ∧
  (∀ l1 n l2, sel = l1 ++ n :: l2 → ∀ m, m ∈ l1 → node_write_set m ## node_write_set n) ∧
  (∀ n, n ∈ ns → n ∈ sel ∨ (n ∈ def ∧ ¬ claimed ∪ claimed_by sel ## node_write_set n)).
Proof.
  induction ns as [|n ns IH]; intros claimed sel def H; simpl in H.
  { simplify_eq. split_and!; [constructor|by intros ? ?%elem_of_nil| |by intros ? ?%elem_of_nil].
    by intros [|? ?] ? ? ?. }
  destruct (negb _ && negb _) eqn:E.
  - destruct (select_loop ns claimed) as [s d] eqn:Hs. simplify_eq.
    destruct (IH _ _ _ Hs) as (H1 & H2 & H3 & H4). split_and!; [by constructor|done|done|].
    intros m [->|Hm]%elem_of_cons; [|destruct (H4 m Hm) as [?|[? ?]]; [by left|right; set_solver]].
    right. split; [left|]. split_bools. set_solver.
  - destruct (select_loop ns (claimed ∪ node_write_set n)) as [s d] eqn:Hs. simplify_eq.
    destruct (IH _ _ _ Hs) as (H1 & H2 & H3 & H4).
    assert (claimed ## node_write_set n) as Hn.
    { split_bools; [|done]. set_solver. }
    split_and!; [by constructor| | |].
    + intros m [->|Hm]%elem_of_cons; [done|]. specialize (H2 m Hm). set_solver.
    + intros [|x l1] y l2 Heq m Hm; [by apply elem_of_nil in Hm|]. simplify_eq/=.
      apply elem_of_cons in Hm as [->|Hm]; [|by eapply H3].
      assert (y ∈ l1 ++ y :: l2) as Hy by set_solver. specialize (H2 y Hy). set_solver.
    + intros m [->|Hm]%elem_of_cons; [left; left|]. destruct (H4 m Hm) as [?|[? Hc]]; [left; by right|].
      right. split; [done|]. unfold claimed_by in *. simpl. set_solver.
Qed.
Lemma select_pairwise (sel : list PlanNode) :
  (∀ l1 n l2, sel = l1 ++ n :: l2 → ∀ m, m ∈ l1 → node_write_set m ## node_write_set n) →
  ∀ m n, m ∈ sel → n ∈ sel → id m ≠ id n → node_write_set m ## node_write_set n.
Proof.
  intros Hpair m n Hm Hn Hne. apply list_elem_of_split in Hn as (l1 & l2 & ->).
  apply elem_of_app in Hm as [Hm|[->|Hm]%elem_of_cons]; [by eapply Hpair|done|].
  apply list_elem_of_split in Hm as (l3 & l4 & ->). symmetry.
  apply (Hpair (l1 ++ n :: l3) m l4); [by rewrite <-app_assoc|]. set_solver.
Qed.
Lemma elem_of_claimed ns n : n ∈ ns → node_write_set n ⊆ claimed_by ns.
Proof.
  intros Hn x Hx. unfold claimed_by. apply elem_of_union_list. exists (node_write_set n).
  split; [by apply list_elem_of_fmap_2|done].
Qed.

(** * The loop over the allocations *)

(** The node a dispatcher is given: its base may have moved. *)
Definition based (n d : PlanNode) : Prop :=
  d = n ∨ ∃ f t, d = set_updated_at t (set_feature_checkpoint f n).
Lemma base_ref_based now p n : based n (node_with_dependency_base_ref now p n).
Proof. unfold based, node_with_dependency_base_ref. repeat case_match; eauto. Qed.
Lemma based_placed n d : based n d → placed n d.
Proof. intros [->|(f & t & ->)]; by constructor. Qed.
Lemma based_wf n d : based n d → node_wf n → node_wf d.
Proof. intros [->|(f & t & ->)]; [done|by intros []]. Qed.

Lemma dispatched_placed now n assignee attempt :
  placed n (node_dispatched_with_fresh_attempt now n assignee attempt).
Proof.
  constructor; try done. apply write_set_of_meta. unfold meta, node_dispatched_with_fresh_attempt.
  cbn [metadata set_updated_at set_metadata].
  repeat case_match; rewrite ?dget_or_dset, ?decide_False by done; by apply meta_clear_other; vm_decide.
Qed.
Lemma dispatched_wf now n assignee attempt :
  node_wf n → node_wf (node_dispatched_with_fresh_attempt now n assignee attempt).
Proof. by intros []. Qed.

Section loop.
Context (env : tick_env) (p1 : Plan) (Hk1 : keyed p1) (ready : list PlanNode).
Context (Hready : ∀ n, n ∈ ready → dget (id n) (nodes p1) = Some n).

Definition moved (n m : PlanNode) : Prop := m = n ∨ (n ∈ ready ∧ placed n m).

(** After the allocations [done]. *)
Record dispatch_inv (done : list Allocation) (s : dispatch_state) : Prop := {
  inv_plan : keyed (plan s) ∧ rel_plan moved p1 (plan s);
  inv_rest : ∀ k, k ∉ node_id <$> done → dget k (nodes (plan s)) = dget k (nodes p1);
  inv_log : launch_allocation <$> launches s `sublist_of` done;
  inv_launched : ∀ l, l ∈ launches s →
    ∃ n, n ∈ ready ∧ node_id (launch_allocation l) = id n ∧ based n (launched_node l);
  inv_made : allocations_made s ≤ length (launches s);
}.

Lemma dispatch_inv_skip done al s s' : dispatch_inv done s →
  plan s' = plan s → launches s' = launches s → allocations_made s' = allocations_made s →
  dispatch_inv (done ++ [al]) s'.
Proof.
  intros [H1 H2 H3 H4 H5] Ep El Ea. constructor; rewrite ?Ep, ?El, ?Ea; try done.
  - intros k Hk. apply H2. intros Hin. apply Hk. rewrite fmap_app. apply elem_of_app. by left.
  - by apply sublist_inserts_r.
Qed.
Lemma dispatch_inv_log done al n d attempt s : dispatch_inv done s → n ∈ ready → node_id al = id n →
  based n d → dispatch_inv (done ++ [al])
    (mkDispatch (plan s) (launches s ++ [mkLaunch al d attempt]) (allocations_made s) (errors s)).
Proof.
  intros [H1 H2 H3 H4 H5] Hn Hid Hd. constructor; simpl; try done.
  - intros k Hk. apply H2. intros Hin. apply Hk. rewrite fmap_app. apply elem_of_app. by left.
  - rewrite fmap_app. by apply sublist_app.
  - intros l [Hl| ->%list_elem_of_singleton]%elem_of_app; [by apply H4|by exists n].
  - rewrite length_app. simpl. lia.
Qed.
Lemma moved_self n : moved n n.
Proof. by left. Qed.

Lemma dispatch_one_inv done al s : dispatch_inv done s → node_id al ∉ node_id <$> done →
  node_id al ∈ id <$> ready → dispatch_inv (done ++ [al]) (dispatch_one env s al).
Proof.
  intros Hinv Hfresh (n & Hid & Hn)%list_elem_of_fmap. unfold dispatch_one.
  rewrite (inv_rest _ _ Hinv) by done. rewrite Hid, (Hready n Hn).
  set (d := node_with_dependency_base_ref (now env) (plan s) n).
  assert (Hd : based n d) by apply base_ref_based.
  destruct (dispatcher env al d) as [[attempt|]|e]; [|by eapply dispatch_inv_skip..].
  destruct (negb (truthy attempt)); [by eapply dispatch_inv_skip|].
  pose proof (dispatch_inv_log done al n d attempt s Hinv Hn Hid Hd) as Hlog.
  destruct (may_dispatch d); [|done]. set (m := node_dispatched_with_fresh_attempt _ _ _ _).
  assert (Hm : placed n m) by (etrans; [by apply based_placed|apply dispatched_placed]).
  assert (Hwf : node_wf m) by by apply dispatched_wf, (based_wf n), (keyed_node _ Hk1 _ _ (Hready n Hn)).
  assert (Hin : id m ∈ dkeys (nodes (plan s))).
  { rewrite (placed_id _ _ Hm), (rel_keys _ _ _ (proj2 (inv_plan _ _ Hinv))).
    apply dget_is_Some_keys. rewrite (Hready n Hn). eauto. }
  destruct Hlog as [H1 H2 H3 H4 H5]. constructor; simpl; [|intros k Hk|exact H3|exact H4|simpl in *; rewrite length_app; simpl; pose proof (inv_made _ _ Hinv); lia].
  - apply (put_related moved (now env) p1 (plan s) n); [done|by apply Hready|by right| |done].
    apply (placed_id _ _ Hm).
  - rewrite put_node_get by done. rewrite decide_False; [by apply H2|].
    rewrite (placed_id _ _ Hm), <-Hid. intros E. apply Hk. rewrite fmap_app, <-E.
    apply elem_of_app. right. left.
Qed.
Lemma dispatch_fold_inv als : ∀ done s, dispatch_inv done s → NoDup (node_id <$> done ++ als) →
  (∀ al, al ∈ als → node_id al ∈ id <$> ready) → dispatch_inv (done ++ als) (foldl (dispatch_one env) s als).
Proof.
  induction als as [|al als IH]; intros done s Hinv Hnd Hin; [by rewrite app_nil_r|].
  rewrite cons_middle, app_assoc in *. simpl. apply IH; [|done|set_solver].
  apply dispatch_one_inv; [done| |apply Hin; left].
  rewrite fmap_app in Hnd. apply NoDup_app in Hnd as [Hnd _]. rewrite fmap_app in Hnd.
  apply NoDup_app in Hnd as (_ & Hnd & _). intros Hd. apply (Hnd _ Hd). by left.
Qed.
Lemma dispatch_inv_start : dispatch_inv [] (mkDispatch p1 [] 0 []).
Proof.
  constructor; simpl; [split; [done|]| |constructor|by intros ? ?%elem_of_nil|lia]; [|done].
  constructor; [done|]. intros k n Hn. exists n. split; [done|apply moved_self].
Qed.

Lemma based_may_dispatch n d : based n d → may_dispatch d = may_dispatch n.
Proof. by intros [->|(f & t & ->)]. Qed.
(** When workers are launched and their nodes may move, every allocation counts. *)
Lemma dispatch_fold_made als : ∀ done s, dispatch_inv done s → NoDup (node_id <$> done ++ als) →
  (∀ al, al ∈ als → node_id al ∈ id <$> ready) →
  (∀ al d, ∃ attempt, dispatcher env al d = Launched (Some attempt) ∧ attempt ≠ "") →
  (∀ n, n ∈ ready → may_dispatch n = true) →
  allocations_made (foldl (dispatch_one env) s als) = allocations_made s + length als.
Proof.
  induction als as [|al als IH]; intros done s Hinv Hnd Hin Hl Hm; simpl; [lia|].
  assert (Hfresh : node_id al ∉ node_id <$> done).
  { rewrite fmap_app in Hnd. apply NoDup_app in Hnd as (_ & Hd & _). intros H. apply (Hd _ H). left. }
  assert (Hstep : dispatch_inv (done ++ [al]) (dispatch_one env s al)).
  { apply dispatch_one_inv; [done..|]. apply Hin. left. }
  rewrite (IH _ _ Hstep); [|by rewrite <-app_assoc|set_solver|done|done].
  assert (allocations_made (dispatch_one env s al) = S (allocations_made s)) as ->; [|lia].
  pose proof (Hin al ltac:(left)) as (n & Hid & Hn)%list_elem_of_fmap. unfold dispatch_one.
  rewrite (inv_rest _ _ Hinv) by done. rewrite Hid, (Hready n Hn).
  destruct (Hl al (node_with_dependency_base_ref (now env) (plan s) n)) as (attempt & -> & Ha%truthy_true).
  rewrite Ha. simpl. by rewrite (based_may_dispatch n), (Hm n Hn) by apply base_ref_based.
Qed.
End loop.

(** * Properties *)

(** What a node given to a worker satisfies in the plan the tick prepared. *)
Record may_start (fromisoformat : string → option Z) (env : tick_env) (p1 : Plan) (n : PlanNode) : Prop := {
  start_node : dget (id n) (nodes p1) = Some n;
  start_leaf : n ∈ leaf_tasks p1;
  start_todo : intent n = TODO;
  start_deps : ∀ d, d ∈ depends_on n → ∃ m, dget d (nodes p1) = Some m ∧ intent m = DONE;
  start_integrated : ∀ d, d ∈ dependency_ids n → dependency_met p1 n d = true;
  start_due : due fromisoformat (now env) n = true;
  start_apart : ∀ m, m ∈ active_write_scope_nodes p1 → node_write_set m ## node_write_set n;
}.

Section properties.
Context {A : Type} `{TaskAllocator A} (alloc : A) (fromisoformat : string → option Z).

Lemma to_dispatch_spec env p : keyed p →
  let ready := to_dispatch fromisoformat env p in
  length ready ≤ max_dispatches env ∧ NoDup (id <$> ready) ∧
  (∀ n, n ∈ ready → may_start fromisoformat env p n) ∧
  (∀ m n, m ∈ ready → n ∈ ready → id m ≠ id n → node_write_set m ## node_write_set n).
Proof.
  intros Hk. unfold to_dispatch, select_without_write_conflicts.
  destruct (select_loop _ _) as [sel def] eqn:Hs. simpl.
  destruct (select_loop_spec _ _ _ _ Hs) as (Hsub & Hclaim & Hpair & _).
  set (ready := take (max_dispatches env) sel).
  assert (Hrs : ready `sublist_of` sel) by apply sublist_take.
  assert (Hcand : ∀ n, n ∈ sel → n ∈ ready_candidates fromisoformat env p).
  { intros n Hn. rewrite <-(elem_of_sort_by by_priority). by eapply elem_of_sublist. }
  assert (Hnd : NoDup (id <$> sel)).
  { eapply sublist_NoDup; [|by apply fmap_sublist]. rewrite sort_by_perm.
    eapply sublist_NoDup; [apply (dvals_NoDup_ids p Hk)|]. apply fmap_sublist.
    unfold ready_candidates, ready_nodes, leaf_tasks.
    by repeat (etrans; [apply sublist_filter|]). }
  split_and!.
  - unfold ready. rewrite length_take. lia.
  - eapply sublist_NoDup; [exact Hnd|]. by apply fmap_sublist.
  - intros n Hn. pose proof (elem_of_sublist _ _ _ Hn Hrs) as Hn'. pose proof (Hcand n Hn') as Hc.
    unfold ready_candidates in Hc. apply list_elem_of_filter in Hc as [Hb Hc].
    apply list_elem_of_filter in Hc as [Hdue Hc]. unfold ready_nodes in Hc.
    apply list_elem_of_filter in Hc as [Hr Hleaf]. apply is_ready_spec in Hr as [Htodo Hdeps]; [|done].
    constructor; try done.
    + by apply leaf_tasks_spec in Hleaf as [? _].
    + by apply not_blocked.
    + intros m Hm. specialize (Hclaim n Hn'). apply elem_of_claimed in Hm. set_solver.
  - intros m n Hm Hn. apply (select_pairwise sel Hpair); by eapply elem_of_sublist.
Qed.

Lemma to_dispatch_nonempty env p n : 0 < max_dispatches env → n ∈ ready_candidates fromisoformat env p →
  (∀ m, m ∈ active_write_scope_nodes p → node_write_set m ## node_write_set n) →
  to_dispatch fromisoformat env p ≠ [].
Proof.
  intros Hmax Hn Hfree. unfold to_dispatch, select_without_write_conflicts.
  destruct (select_loop _ _) as [sel def] eqn:Hs. simpl.
  destruct (select_loop_spec _ _ _ _ Hs) as (_ & _ & _ & Hall).
  destruct sel as [|x sel]; [|destruct (max_dispatches env); [lia|done]]. exfalso.
  destruct (Hall n) as [?%elem_of_nil|[_ Hcon]]; [by apply elem_of_sort_by|done|]. apply Hcon.
  unfold claimed_by at 2. simpl. intros x [Hx|Hx]%elem_of_union Hxn; [|set_solver].
  unfold claimed_by in Hx. apply elem_of_union_list in Hx as (X & (m & -> & Hm)%list_elem_of_fmap & Hx).
  by apply (Hfree m Hm x).
Qed.
(** The allocations a tick goes through: none, or those of the allocator. *)
Definition tick_allocations (env : tick_env) (p1 : Plan) (als : list Allocation) : Prop :=
  als = [] ∨ ∃ agents, pool env = Ok agents ∧
               als = allocate_nodes alloc (to_dispatch fromisoformat env p1) agents.
Lemma allocations_bounded env p als : keyed (prepared env p) → tick_allocations env (prepared env p) als →
  NoDup (node_id <$> als) ∧ length als ≤ length (to_dispatch fromisoformat env (prepared env p)).
Proof.
  intros Hk. destruct (to_dispatch_spec env _ Hk) as (_ & Hnd & _).
  intros [->|(agents & _ & ->)]; [split; [constructor|simpl; lia]|].
  pose proof (allocate_once alloc _ agents Hnd) as Honce. split; [done|].
  rewrite <-(length_fmap node_id), <-(length_fmap id). apply submseteq_length, NoDup_submseteq; [done|].
  intros k (al & -> & Hal)%list_elem_of_fmap. by eapply allocate_ready.
Qed.
Lemma dispatch_phase_inv env p s : keyed p → dispatch_phase alloc fromisoformat env p = Some s →
  ∃ als, tick_allocations env (prepared env p) als ∧
    dispatch_inv (prepared env p) (to_dispatch fromisoformat env (prepared env p)) als s.
Proof.
  intros Hk Hs. destruct (prepared_tamed env p Hk) as [Hk1 _]. unfold dispatch_phase in Hs.
  destruct (to_dispatch_spec env _ Hk1) as (_ & Hnd & Hmay & _).
  unfold tick_allocations. remember (to_dispatch fromisoformat env (prepared env p)) as ready eqn:Er.
  assert (Hstart : dispatch_inv (prepared env p) ready [] (mkDispatch (prepared env p) [] 0 []))
    by by apply dispatch_inv_start.
  destruct ready as [|n0 ready']; [simplify_eq; exists []; by split; [left|]|].
  destruct (checkpoint_ok env); [|done]. simpl in Hs.
  destruct (pool env) as [agents|] eqn:Hp; simplify_eq.
  - exists (allocate_nodes alloc (n0 :: ready') agents). split; [right; eauto|].
    apply (dispatch_fold_inv env _ Hk1 (n0 :: ready')) with (done := []); [|done| |].
    + intros n Hn. by apply (start_node _ _ _ _ (Hmay n Hn)).
    + simpl. by apply allocate_once.
    + intros al. by apply allocate_ready.
  - exists []. split; [by left|]. destruct Hstart as [H1 H2 H3 H4 H5]. by constructor.
Qed.

(** C23. The workers a tick launches.  Each works on a node of the prepared
    plan that may start: a leaf still TODO, its dependencies DONE and
    integrated, its retry due, its files not those of a node under way; it is
    launched for an agent that may work.  Nodes and their files differ, there
    are at most [max_dispatches] launches, and the plan records no more.  If no two nodes under way wrote the
    same file before the tick, none do after it. *)
Theorem dispatch_safe env p s : keyed p → dispatch_phase alloc fromisoformat env p = Some s →
  keyed (plan s) ∧ allocations_made s ≤ length (launches s) ≤ max_dispatches env ∧
  NoDup (id ∘ launched_node <$> launches s) ∧
  (∀ l, l ∈ launches s →
     ∃ n agents a, based n (launched_node l) ∧ may_start fromisoformat env (prepared env p) n ∧
       pool env = Ok agents ∧ a ∈ available agents ∧
       agent_id a = allocated_agent_id (launch_allocation l)) ∧
  (∀ l l', l ∈ launches s → l' ∈ launches s → id (launched_node l) ≠ id (launched_node l') →
     node_write_set (launched_node l) ## node_write_set (launched_node l')) ∧
  (writers_apart p → writers_apart (plan s)).
Proof.
  intros Hk Hs. destruct (prepared_tamed env p Hk) as [Hk1 Ht].
  destruct (dispatch_phase_inv env p s Hk Hs) as (als & Hals & [[Hkeyed Hrel] _ Hlog Hlaunched Hmade]).
  destruct (to_dispatch_spec env _ Hk1) as (Hlen & Hnd & Hmay & Hapart).
  assert (Hids : node_id ∘ launch_allocation <$> launches s `sublist_of` node_id <$> als).
  { rewrite list_fmap_compose. by apply fmap_sublist. }
  destruct (allocations_bounded env p als Hk1 Hals) as [Hand Hal].
  split_and!; [done|done| | | | |].
  - etrans; [|exact Hlen]. etrans; [|exact Hal].
    rewrite <-(length_fmap node_id als). apply sublist_length in Hids. by rewrite length_fmap in Hids.
  - replace (id ∘ launched_node <$> launches s) with (node_id ∘ launch_allocation <$> launches s);
      [by eapply sublist_NoDup|].
    apply list_fmap_ext. intros i l Hl%list_elem_of_lookup_2.
    destruct (Hlaunched l Hl) as (n & _ & Hid & Hb%based_placed). simpl. by rewrite Hid, (placed_id _ _ Hb).
  - intros l Hl. destruct (Hlaunched l Hl) as (n & Hn & _ & Hb).
    assert (launch_allocation l ∈ als) as Hla.
    { eapply elem_of_sublist; [|exact Hlog]. by apply list_elem_of_fmap_2. }
    destruct Hals as [->|(agents & Hpool & ->)]; [by apply elem_of_nil in Hla|].
    apply allocate_workers in Hla as (a & Ha & Haid). exists n, agents, a.
    split_and!; [done|by apply Hmay|done..].
  - intros l l' Hl Hl' Hne. destruct (Hlaunched l Hl) as (n & Hn & _ & Hb%based_placed).
    destruct (Hlaunched l' Hl') as (n' & Hn' & _ & Hb'%based_placed).
    rewrite (placed_writes _ _ Hb), (placed_writes _ _ Hb').
    rewrite (placed_id _ _ Hb), (placed_id _ _ Hb') in Hne. by apply Hapart.
  - intros Hp. apply (started_writers (to_dispatch fromisoformat env (prepared env p)) (moved (to_dispatch fromisoformat env (prepared env p))) (prepared env p)); try done.
    + intros n m [->|[Hn Hm]]; [split; [done|by left]|split; [done|by right]].
    + intros m n Hm Hn. by apply (start_apart _ _ _ _ (Hmay n Hn)).
    + by apply (tamed_writers p).
Qed.
End properties.

(** C27. Work goes on, with the default allocator: when some ready node is
    due, integrated and does not write the files of a node under way, the
    nodes still TODO are idle, some available agent would have at most nine
    tasks after the tick, and the dispatcher launches what it is asked to,
    the tick launches and records a worker for every selected node, and there
    is one. *)
Theorem dispatch_progress fromisoformat env p agents n : keyed p →
  checkpoint_ok env = true → pool env = Ok agents → 0 < max_dispatches env →
  NoDup (agent_id <$> agents) → (∀ a, a ∈ agents → (0 <= active_task_count a)%Z) →
  (∃ a, a ∈ available agents ∧ (active_task_count a + Z.of_nat (max_dispatches env) <= 9)%Z) →
  (∀ al d, ∃ attempt, dispatcher env al d = Launched (Some attempt) ∧ attempt ≠ "") →
  (∀ k m, dget k (nodes (prepared env p)) = Some m → intent m = TODO → execution m = IDLE) →
  n ∈ ready_candidates fromisoformat env (prepared env p) →
  (∀ m, m ∈ active_write_scope_nodes (prepared env p) → node_write_set m ## node_write_set n) →
  ∃ s, dispatch_phase default_allocator fromisoformat env p = Some s ∧
    allocations_made s = length (to_dispatch fromisoformat env (prepared env p)) ∧
    0 < allocations_made s.
Proof.
  intros Hk Hc Hp Hmax Hnd H0 (a & Ha & Hle) Hl Hidle Hn Hfree.
  destruct (prepared_tamed env p Hk) as [Hk1 _].
  destruct (to_dispatch_spec fromisoformat env _ Hk1) as (Hlen & Hrnd & Hmay & _).
  pose proof (to_dispatch_nonempty fromisoformat env _ n Hmax Hn Hfree) as Hne.
  unfold dispatch_phase. set (ready := to_dispatch _ _ _) in *.
  assert (Hall : node_id <$> allocate default_allocator ready agents = id <$> sort_by node_le ready).
  { apply allocate_all; [done|done|]. exists a. split; [done|lia]. }
  rewrite Hc, Hp. destruct ready as [|n0 ready'] eqn:Er; [done|]. rewrite <-Er in *. simpl.
  eexists. split; [done|].
  rewrite (dispatch_fold_made env _ Hk1 ready) with (done := []); simpl; [|..|done|].
  - rewrite <-(length_fmap node_id), Hall, length_fmap, sort_by_length. split; [done|].
    rewrite Er. simpl. lia.
  - intros m Hm. apply (start_node _ _ _ _ (Hmay m Hm)).
  - by apply dispatch_inv_start.
  - rewrite Hall. by rewrite sorted_ids.
  - intros al Hal. rewrite <-sorted_ids, <-Hall. by apply list_elem_of_fmap_2.
  - intros m Hm. destruct (Hmay m Hm) as [Hg _ Ht _ _ _ _]. unfold may_dispatch.
    by rewrite Ht, (Hidle _ _ Hg Ht).
Qed.

(** * Invalidation reaches every dependent in one pass *)

(** A node whose work is stale: it waits for a dependency, and was started. *)
Definition stale (p : Plan) (n : PlanNode) : bool :=
  runnable n && negb (bool_decide (depends_on n = [])) &&
  negb (bool_decide (dependency_blocking_ids p n = [])) && negb (untouched n).

Lemma blocking_ext p q n : (∀ d, d ∈ dependency_ids n → dget d (nodes p) = dget d (nodes q)) →
  dependency_blocking_ids p n = dependency_blocking_ids q n.
Proof.
  intros H. unfold dependency_blocking_ids. apply filter_ext_elem. intros d Hd%elem_of_sort_by.
  unfold dependency_met. by rewrite (H d Hd).
Qed.
Lemma invalidate_step_frame now q n k : k ≠ id n → dget k (nodes (invalidate_step now q n)) = dget k (nodes q).
Proof.
  intros Hk. unfold invalidate_step. repeat case_match; try done.
  unfold put_node, replace_node; unfold_M. destruct (dmem _ _); [|done]. simpl.
  by rewrite dget_dset_ne.
Qed.
Lemma invalidate_fold_frame now ns : ∀ q k, k ∉ id <$> ns →
  dget k (nodes (foldl (invalidate_step now) q ns)) = dget k (nodes q).
Proof.
  induction ns as [|n ns IH]; intros q k; [done|]. rewrite fmap_cons. intros [? ?]%not_elem_of_cons.
  simpl. rewrite IH by done. by apply invalidate_step_frame.
Qed.
Lemma invalidate_step_self now q n : dget (id n) (nodes q) = Some n →
  dget (id n) (nodes (invalidate_step now q n)) =
  Some (if stale q n then invalidated now (dependency_blocking_ids q n) n else n).
Proof.
  intros Hn. unfold invalidate_step, stale.
  destruct (runnable n); [|done]. destruct (bool_decide (depends_on n = [])); [done|]. simpl.
  destruct (dependency_blocking_ids q n) as [|d ds] eqn:E; [done|]. rewrite bool_decide_false by done. simpl.
  destruct (untouched n); [done|]. simpl. rewrite put_node_get, decide_True by
    (done || (apply dget_is_Some_keys; eauto)). done.
Qed.

(** C30. One pass over the nodes resets all stale work, when the plan lists
    dependencies before their dependents: afterwards a node is as it was
    unless it was started and, in the resulting plan, waits for a dependency;
    such a node is reset to an idle TODO without attempt or agent, with what
    it waits for. *)
Theorem invalidation_complete now p : keyed p →
  (∀ o1 k o2 n, dkeys (nodes p) = o1 ++ k :: o2 → dget k (nodes p) = Some n →
     ∀ d, d ∈ dependency_ids n → d ∈ dkeys (nodes p) → d ∈ o1) →
  let q := invalidate_nodes now p in
  dkeys (nodes q) = dkeys (nodes p) ∧
  ∀ n, dget (id n) (nodes p) = Some n →
    dget (id n) (nodes q) = Some (if stale q n then invalidated now (dependency_blocking_ids q n) n else n).
Proof.
  intros Hk Hearlier q. destruct (invalidate_tamed now p Hk) as [_ Ht].
  pose proof (rel_keys _ _ _ Ht) as Hkeys. split; [done|]. intros n Hn.
  pose proof Hn as Hin. apply (elem_of_dvals p Hk), list_elem_of_split in Hin as (l1 & l2 & Hl).
  pose proof (dvals_NoDup_ids p Hk) as Hnd. pose proof (ids_dvals p Hk) as Hids. rewrite Hl in Hnd, Hids.
  rewrite fmap_app, fmap_cons in Hnd, Hids. apply NoDup_app in Hnd as (_ & Hd1 & Hd2).
  apply NoDup_cons in Hd2 as [Hn2 _].
  set (q1 := foldl (invalidate_step now) p l1).
  assert (Hq : q = foldl (invalidate_step now) (invalidate_step now q1 n) l2).
  { unfold q, invalidate_nodes. by rewrite Hl, foldl_app. }
  assert (Hn1 : dget (id n) (nodes q1) = Some n).
  { unfold q1. rewrite invalidate_fold_frame; [done|]. intros H. apply (Hd1 _ H). left. }
  assert (Hsame : ∀ d, d ∈ dependency_ids n → dget d (nodes q1) = dget d (nodes q)).
  { intros d Hd. destruct (decide (d ∈ dkeys (nodes p))) as [Hdk|Hdk].
    - pose proof (Hearlier _ _ _ n (eq_sym Hids) Hn d Hd Hdk) as Hd'.
      rewrite Hq, invalidate_fold_frame, invalidate_step_frame; [done| |].
      + intros ->. apply (Hd1 _ Hd'). left.
      + intros H. apply (Hd1 _ Hd'). by right.
    - assert (∀ r : Plan, dkeys (nodes r) = dkeys (nodes p) → dget d (nodes r) = None) as HNone.
      { intros r Hr. apply dget_None_keys. by rewrite Hr. }
      rewrite !HNone; [done|done|]. unfold q1.
      destruct (fold_related (invalidate_step now) tamed p l1 p) as [_ Hrel]; [|by split|by apply (rel_keys _ _ _ Hrel)].
      intros r m Hm Hr. apply invalidate_step_tamed; [done|done|]. apply elem_of_dvals; [done|].
      rewrite Hl. apply elem_of_app. by left. }
  assert (stale q n = stale q1 n ∧ dependency_blocking_ids q n = dependency_blocking_ids q1 n) as [-> ->].
  { unfold stale. by rewrite (blocking_ext q1 q n Hsame). }
  rewrite Hq, invalidate_fold_frame by done. by apply invalidate_step_self.
Qed.

(** * Witnesses *)

(** Three independent tasks, two of which write the same file. *)
Definition writing_node (nid : string) (files : list pyval) (prio : Z) : PlanNode :=
  set_metadata [("write_set", PList files)] (sample_node TASK nid (Some "g") [] prio).
Definition writing_a : PlanNode := writing_node "a" [PStr "main.py"] 3.
Definition writing_b : PlanNode := writing_node "b" [PStr "main.py"; PStr "util.py"] 2.
Definition writing_c : PlanNode := writing_node "c" [PStr "doc.md"] 1.
Definition goal_plan : Plan := (add_node sample_goal sample_plan0).1.
Definition writing_plan : Plan :=
  (add_node writing_c (add_node writing_b (add_node writing_a goal_plan).1).1).1.
Definition sample_agents : list WorkspaceAgent := [twin "x"; twin "y"].
Definition sample_env : tick_env :=
  mkEnv 0 2 true (Ok sample_agents) (λ al _, Launched (Some ("attempt-" +:+ node_id al))).

Lemma writing_node_wf nid files prio :
  is_ok (post_init (writing_node nid files prio)) = true → node_wf (writing_node nid files prio).
Proof.
  intros H. destruct (post_init _) as [m|] eqn:E; [|done].
  by apply post_init_ok in E as [_ ?]; [|constructor].
Qed.
Lemma writing_built : built writing_plan.
Proof.
  apply (built_add (add_node writing_b (add_node writing_a goal_plan).1).1 writing_c);
    [|by apply writing_node_wf|reflexivity].
  apply (built_add (add_node writing_a goal_plan).1 writing_b); [|by apply writing_node_wf|reflexivity].
  apply (built_add goal_plan writing_a); [|by apply writing_node_wf|reflexivity].
  apply (built_add sample_plan0 sample_goal); [|sample_wf|reflexivity]. by apply (built_new "p1" "ws" "g").
Qed.
Lemma writing_keyed : keyed writing_plan.
Proof. apply inv_keyed, built_inv, writing_built. Qed.
Lemma no_writers p : active_write_scope_nodes p = [] → writers_apart p.
Proof. intros H m n Hm. rewrite H in Hm. by apply elem_of_nil in Hm. Qed.

(** [a] and [c] are launched, [b] waits for [a]. *)
Lemma dispatch_safe_witness : ∃ s,
  dispatch_phase default_allocator iso_instant sample_env writing_plan = Some s ∧
  id ∘ launched_node <$> launches s = ["a"; "c"] ∧ writers_apart (plan s).
Proof.
  destruct (dispatch_phase default_allocator iso_instant sample_env writing_plan) as [s|] eqn:Hs;
    [|vm_compute in Hs; discriminate].
  exists s. split; [reflexivity|].
  pose proof (dispatch_safe default_allocator iso_instant sample_env writing_plan s writing_keyed Hs)
    as (_ & _ & _ & _ & _ & Hw). split; [|apply Hw, no_writers; vm_compute; reflexivity].
  vm_compute in Hs. injection Hs as <-. reflexivity.
Defined.
Lemma dispatch_progress_witness : ∃ s,
  dispatch_phase default_allocator iso_instant sample_env writing_plan = Some s ∧ 0 < allocations_made s.
Proof.
  assert (Hidle : ∀ k m, dget k (nodes (prepared sample_env writing_plan)) = Some m →
    intent m = TODO → execution m = IDLE).
  { intros k m Hm _. apply dget_dvals in Hm. assert (Forall (λ m, execution m = IDLE)
      (dvals (nodes (prepared sample_env writing_plan)))) as Hall by vm_decide.
    rewrite Forall_forall in Hall. by apply Hall. }
  assert (Hready : writing_a ∈
    ready_candidates iso_instant sample_env (prepared sample_env writing_plan)) by (vm_compute; left).
  assert (Hnd : NoDup (agent_id <$> sample_agents)) by vm_decide.
  assert (H0 : ∀ a, a ∈ sample_agents → (0 <= active_task_count a)%Z).
  { intros a Ha. unfold sample_agents in Ha. set_unfold in Ha.
    destruct Ha as [->|[->|[]]]; vm_compute; discriminate. }
  assert (Hlight : ∃ a, a ∈ available sample_agents ∧
    (active_task_count a + Z.of_nat (max_dispatches sample_env) <= 9)%Z).
  { exists (twin "x"). split; [left|vm_compute; discriminate]. }
  assert (Hl : ∀ al d, ∃ attempt, dispatcher sample_env al d = Launched (Some attempt) ∧ attempt ≠ "").
  { intros al d. eexists. split; [reflexivity|]. discriminate. }
  assert (Hfree : ∀ m, m ∈ active_write_scope_nodes (prepared sample_env writing_plan) →
    node_write_set m ## node_write_set writing_a).
  { assert (active_write_scope_nodes (prepared sample_env writing_plan) = []) as E
      by (vm_compute; reflexivity).
    intros m Hm. rewrite E in Hm. by apply elem_of_nil in Hm. }
  assert (Hmax : 0 < max_dispatches sample_env) by (vm_compute; lia).
  pose proof (dispatch_progress iso_instant sample_env writing_plan sample_agents writing_a writing_keyed
    eq_refl eq_refl Hmax Hnd H0 Hlight Hl Hidle Hready Hfree) as (s & Hs & _ & Hpos).
  exists s. split; [exact Hs|exact Hpos].
Defined.

(** [b] ran although [a], which it depends on, was reopened. *)
Definition stale_plan : Plan :=
  put_node 1 (set_current_attempt_id (Some "t") (set_execution RUNNING (set_intent IN_PROGRESS sample_b))) sample_plan.
Lemma stale_keyed : keyed stale_plan.
Proof.
  apply put_node_keyed; [exact sample_keyed| |vm_decide].
  assert (node_wf sample_b) as [] by sample_wf. by constructor.
Qed.
Lemma invalidation_complete_witness :
  keyed stale_plan ∧ intent <$> dget "b" (nodes (invalidate_nodes 2 stale_plan)) = Some TODO.
Proof.
  split; [exact stale_keyed|].
  destruct (invalidation_complete 2 stale_plan stale_keyed) as [_ H].
  - intros o1 k o2 n Hk Hn d Hd Hdk.
    assert (dkeys (nodes stale_plan) = ["g"; "a"; "b"]) as E by (vm_compute; reflexivity). rewrite E in Hk.
    assert (Forall (λ n, dependency_ids n = [] ∨ (id n = "b" ∧ dependency_ids n = ["a"]))
      (dvals (nodes stale_plan))) as Hall by vm_decide.
    rewrite Forall_forall in Hall. pose proof (keyed_id _ stale_keyed _ _ Hn) as Hid.
    destruct (Hall n (dget_dvals _ _ _ Hn)) as [->|[Hb Hdeps]] in Hd; [by apply elem_of_nil in Hd|].
    rewrite Hdeps in Hd. apply list_elem_of_singleton in Hd as ->. rewrite Hb in Hid. subst k.
    destruct o1 as [|x1 [|x2 o1]]; simplify_eq/=; set_solver.
  - change "b" with (id (set_current_attempt_id (Some "t") (set_execution RUNNING (set_intent IN_PROGRESS sample_b)))).
    rewrite H by (vm_compute; reflexivity). vm_compute. reflexivity.
Defined.
