(* ===== verification/IterationReview.v ===== *)
(** The review of a finished iteration: the findings that survive the
    deterministic filter, and the verdict that is read from the agent's answer.

    Sources: src/src/domain/model/review/review_finding.py and
    finding_filter.py, src/src/domain/ports/services/iteration_review_port.py,
    and the parsing in
    src/src/infrastructure/agent/workspace_plan/iteration_review.py.  The
    arguments are JSON values with floats, [NaN] and the infinities, as
    [json.loads] reads them; [float] of a text and the text of a float are
    parameters.  [lower] and [upper] act on the ASCII letters.  The prompts,
    and the JSON text around the arguments, are left out. *)

From Stdlib Require Import QArith Ascii.
From S2P Require Import Prelude PyText Acceptance NodeFacts.

Open Scope string_scope.
Open Scope list_scope.
Open Scope nat_scope.

(** * Findings *)

Inductive ReviewSeverity : Set := CRITICAL | WARNING | SUGGESTION.
#[export] Instance ReviewSeverity_eq_dec : EqDecision ReviewSeverity.
Proof. solve_decision. Defined.
Definition severity_values : list (string * ReviewSeverity) :=
  [("CRITICAL", CRITICAL); ("WARNING", WARNING); ("SUGGESTION", SUGGESTION)].
Inductive FindingVerdict : Set := KEEP | REJECT.
#[export] Instance FindingVerdict_eq_dec : EqDecision FindingVerdict.
Proof. solve_decision. Defined.

Record RawReviewFinding : Type := mkFinding {
  file : string;
  line : Z;
  category : string;
  severity : ReviewSeverity;
  raw_confidence : Z;
  finding_description : string;
  suggestion : string;
  concrete_evidence : bool;
}.
(** [ValidatedReviewFinding] has the fields of the raw finding and these. *)
Record ValidatedReviewFinding : Type := mkValidated {
  raw : RawReviewFinding;
  validated_confidence : Z;
  finding_verdict : FindingVerdict;
  reasoning : string;
}.

(** [$] also matches before a final newline. *)
Definition chop_newline (s : string) : string :=
  let n := String.length s in
  if String.eqb (String.substring (n - 1) 1 s) newline then String.substring 0 (n - 1) s else s.
(** The parts between slashes. *)
Fixpoint segments (s : string) : list string :=
  match s with
  | EmptyString => [""]
  | String c s' =>
      match segments s' with
      | [] => [String c ""]
      | seg :: segs => if Ascii.eqb c "/"%char then "" :: seg :: segs else String c seg :: segs
      end
  end.
Definition is_letter (c : ascii) : bool :=
  let n := nat_of_ascii (lower c) in (97 <=? n) && (n <=? 122).
Definition letters (s : string) : bool :=
  truthy s && forallb is_letter (String.list_ascii_of_string s).
(** [\.(test|spec)\.[A-Za-z]+$] *)
Definition test_suffix (s : string) : bool :=
  (String.prefix ".test." s || String.prefix ".spec." s) &&
  letters (String.substring 6 (String.length s - 6) s).
Fixpoint has_test_suffix (s : string) : bool :=
  test_suffix s || match s with EmptyString => false | String _ s' => has_test_suffix s' end.
Definition TEST_DIRECTORIES : list string := ["test"; "tests"; "__tests__"; "e2e"].
(** [is_test_file], whose pattern ignores the case *)
Definition is_test_file (path : string) : bool :=
  let p := lower_str (chop_newline path) in
  existsb (λ seg, bool_decide (seg ∈ TEST_DIRECTORIES)) (segments p) || has_test_suffix p.

Definition STYLE_CATEGORY_KEYWORDS : list string := ["style"; "format"; "naming"; "lint"; "typescript type"].
Definition FRAMEWORK_HANDLED_KEYWORDS : list string :=
  ["xss"; "body parsing"; "next.js api"; "react"; "framework"; "dangerouslysetinnerhtml"].
Definition NON_ACTIONABLE_KEYWORDS : list string :=
  ["theoretical"; "speculative"; "could potentially"; "might"; "possible"].
Definition TODO_KEYWORDS : list string := ["todo"; "fixme"; "hack"].
Definition LOGGING_KEYWORDS : list string := ["logging"; "audit trail"; "telemetry"].
Definition VALIDATION_PHRASES : list string :=
  ["validation"; "missing error handling"; "missing input validation"].

(** [max(1, min(10, value))] *)
Definition clamp (value : Z) : Z := Z.max 1 (Z.min 10 value).
Definition matches_any (haystack : string) (needles : list string) : bool :=
  existsb (λ token, contains token haystack) needles.

Definition decide_finding (f : RawReviewFinding) (c : Z) (v : FindingVerdict) (why : string)
    : ValidatedReviewFinding :=
  mkValidated (mkFinding (file f) (line f) (category f) (severity f) (clamp (raw_confidence f))
    (finding_description f) (suggestion f) (concrete_evidence f)) c v why.

(** The exclusion rules of [validate_finding], in order, with the confidence
    and the reasoning each gives. *)
Definition exclusions (covered : list string) (f : RawReviewFinding) : list (bool * Z * string) :=
  let cat := lower_str (category f) in
  let desc := lower_str (finding_description f) in
  let sug := lower_str (suggestion f) in
  [ (is_test_file (file f) && (contains "validation" cat || matches_any desc VALIDATION_PHRASES), 3%Z,
     "Test file finding about validation/error handling is an explicit hard exclusion.");
    (bool_decide (cat ∈ lower_str <$> covered) || matches_any cat STYLE_CATEGORY_KEYWORDS, 2%Z,
     "Stylistic/lint category already enforced by deterministic tooling; reviewer should not duplicate it.");
    (matches_any cat FRAMEWORK_HANDLED_KEYWORDS || matches_any desc FRAMEWORK_HANDLED_KEYWORDS, 3%Z,
     "Category is handled by the framework's default behavior; elevate only with concrete bypass evidence.");
    (matches_any desc NON_ACTIONABLE_KEYWORDS && negb (concrete_evidence f), 3%Z,
     "Description uses speculative language without concrete evidence; reject as low-signal.");
    (matches_any desc TODO_KEYWORDS || matches_any sug TODO_KEYWORDS, 4%Z,
     "TODO/FIXME/HACK markers belong on the backlog, not the review gate.");
    (negb (bool_decide (severity f = CRITICAL)) &&
       (matches_any cat LOGGING_KEYWORDS || matches_any desc LOGGING_KEYWORDS), 4%Z,
     "Logging/telemetry suggestion below CRITICAL is not blocking.") ].
Definition validate_finding (covered : list string) (f : RawReviewFinding) : ValidatedReviewFinding :=
  match List.find (λ r, r.1.1) (exclusions covered f) with
  | Some (_, c, why) => decide_finding f c REJECT why
  | None =>
      decide_finding f (clamp (raw_confidence f + if concrete_evidence f then 1 else 0)%Z) KEEP
        "Survived deterministic guardrails; defer severity decision to the gate specialist."
  end.
Definition filter_findings (covered : list string) (fs : list RawReviewFinding)
    : list ValidatedReviewFinding := validate_finding covered <$> fs.
(** [_gate_findings]: the findings that are kept, and how many are not. *)
Definition gate_findings (covered : list string) (fs : list RawReviewFinding)
    : list ValidatedReviewFinding * nat :=
  let validated := filter_findings covered fs in
  let kept := filter (λ v, finding_verdict v = KEEP) validated in
  (kept, length validated - length kept).

(** * Reading values *)

(** What [json.loads] returns; an integer has at most 4300 digits, as it
    refuses longer ones. *)
Inductive json : Type :=
  | JNone
  | JBool (b : bool)
  | JInt (z : Z)
  | JFloat (f : float)
  | JStr (s : string)
  | JList (l : list json)
  | JDict (d : list (string * json)).

Definition json_truth (v : json) : bool :=
  match v with
  | JNone => false
  | JBool b => b
  | JInt z => negb (z =? 0)%Z
  | JFloat (Fin q) => negb (Qeq_bool q 0)
  | JFloat _ => true
  | JStr s => truthy s
  | JList l => negb (length l =? 0)
  | JDict d => negb (length d =? 0)
  end.
(** What leaves [int] and [float]: a ValueError or a TypeError, or an
    OverflowError, which is neither. *)
Inductive number_error : Set := NotANumber | Overflow.

Definition MAX_STR_DIGITS : nat := 4300.
Definition too_long (s : string) : bool :=
  MAX_STR_DIGITS <? length (filter (λ c, is_Some (int_digit c)) (String.list_ascii_of_string s)).
(** [int(v)] *)
Definition json_int (v : json) : result number_error Z :=
  match v with
  | JBool b => Ok (if b then 1 else 0)%Z
  | JInt z => Ok z
  | JFloat (Fin q) => Ok (truncate_q q)
  | JFloat (Inf _) => Err Overflow
  | JStr s => if too_long s then Err NotANumber else from_option Ok (Err NotANumber) (int_of_string s)
  | JFloat Nan | JNone | JList _ | JDict _ => Err NotANumber
  end.
Definition get (key : string) (d : list (string * json)) : json := dget_or JNone key d.
(** [int(d.get(key) or 0)] *)
Definition int_field (key : string) (d : list (string * json)) : result number_error Z :=
  let v := get key d in if json_truth v then json_int v else Ok 0%Z.

Definition upper (c : ascii) : ascii :=
  let n := nat_of_ascii c in if (97 <=? n) && (n <=? 122) then ascii_of_nat (n - 32) else c.
Definition upper_str (s : string) : string :=
  String.string_of_list_ascii (upper <$> String.list_ascii_of_string s).

Definition MAX_FINDINGS : nat := 12.

(** The values of a dictionary, as texts.  [float_repr] is [repr] of a float. *)
Section reading.
Context (float_repr : float → string).

Fixpoint json_repr (v : json) : string :=
  match v with
  | JNone => "None"
  | JBool b => if b then "True" else "False"
  | JInt z => py_repr (PInt z)
  | JFloat f => float_repr f
  | JStr s => str_repr s
  | JList l => ("[" ++ join_items (json_repr <$> l) ++ "]")%string
  | JDict d => ("{" ++ join_items ((λ kv, str_repr kv.1 ++ ": " ++ json_repr kv.2)%string <$> d) ++ "}")%string
  end.
Definition json_str (v : json) : string := match v with JStr s => s | _ => json_repr v end.
(** [str(d.get(key) or "").strip()] *)
Definition stripped (key : string) (d : list (string * json)) : string :=
  let v := get key d in if json_truth v then strip (json_str v) else "".
(** [_string_tuple] *)
Definition string_tuple (limit : nat) (v : json) : list string :=
  match v with
  | JStr s => take limit (clean_tuple [s])
  | JList l => take limit (clean_tuple (json_str <$> l))
  | _ => []
  end.
(** [_optional_str] *)
Definition optional_str (v : json) : option string :=
  match v with JStr s => if truthy (strip s) then Some s else None | _ => None end.

(** The [try] around the numbers of a finding lets an OverflowError through. *)
Definition skip_bad {A} (r : result number_error A) : result number_error (option A) :=
  match r with Ok x => Ok (Some x) | Err NotANumber => Ok None | Err Overflow => Err Overflow end.
(** One item of [_parse_raw_findings]: skipped, a finding, or it raises. *)
Definition parse_raw_finding (item : json) : result number_error (option RawReviewFinding) :=
  match item with
  | JDict d =>
      match dget (upper_str (stripped "severity" d)) severity_values with
      | None => Ok None
      | Some sev =>
          let file_path := stripped "file" d in
          let cat := stripped "category" d in
          let desc := stripped "description" d in
          if negb (truthy file_path && truthy cat && truthy desc) then Ok None
          else
            match skip_bad (int_field "line" d) with
            | Err e => Err e
            | Ok None => Ok None
            | Ok (Some ln) =>
                match skip_bad (int_field "raw_confidence" d) with
                | Err e => Err e
                | Ok None => Ok None
                | Ok (Some c) =>
                    Ok (Some (mkFinding file_path (Z.max 0 ln) cat sev (Z.max 0 (Z.min c 100)) desc
                          (stripped "suggestion" d) (json_truth (get "concrete_evidence" d))))
                end
            end
      end
  | _ => Ok None
  end.
(** The items that are there, in order, unless one raises. *)
Fixpoint collect {A B E} (f : Z → A → result E (option B)) (index : Z) (items : list A) : result E (list B) :=
  match items with
  | [] => Ok []
  | item :: items' =>
      x ← f index item;
      xs ← collect f (index + 1) items';
      Ok (option_list x ++ xs)
  end.
Definition parse_raw_findings (limit : nat) (v : json) : result number_error (list RawReviewFinding) :=
  match v with JList l => collect (λ _, parse_raw_finding) 1 (take limit l) | _ => Ok [] end.
End reading.

(** * The verdict *)

Inductive IterationReviewDecision : Set :=
  complete_goal | continue_next_iteration | needs_human_review.
#[export] Instance IterationReviewDecision_eq_dec : EqDecision IterationReviewDecision.
Proof. solve_decision. Defined.
Definition VALID_VERDICTS : list (string * IterationReviewDecision) :=
  [("complete_goal", complete_goal); ("continue_next_iteration", continue_next_iteration);
   ("needs_human_review", needs_human_review)].
Definition decision_text (d : IterationReviewDecision) : string :=
  match d with
  | complete_goal => "complete_goal"
  | continue_next_iteration => "continue_next_iteration"
  | needs_human_review => "needs_human_review"
  end.

Record IterationNextTask : Type := mkTask {
  task_id : string;
  description : string;
  target_subagent : option string;
  dependencies : list string;
  task_priority : Z;
  phase : option string;
  task_artifacts : list string;
}.
Record IterationReviewVerdict : Type := mkVerdict {
  verdict : IterationReviewDecision;
  review_confidence : Q;
  review_summary : string;
  next_sprint_goal : string;
  feedback_items : list string;
  next_tasks : list IterationNextTask;
  findings : list ValidatedReviewFinding;
  rejected_finding_count : nat;
}.
(** [_needs_human_review] *)
Definition human_review (reason : string) : IterationReviewVerdict :=
  mkVerdict needs_human_review 0 reason "" [] [] [] 0.

Definition MIN_REVIEW_CONFIDENCE : Q := 6 # 10.

(** The arguments an agent submits. *)
Definition answer : Type := list (string * json).

Section parsing.
Context (float_of_string : string → option float) (float_repr : float → string).
Notation stripped := (stripped float_repr).
Notation string_tuple := (string_tuple float_repr).
Notation json_str := (json_str float_repr).

(** One item of [_parse_next_tasks], the [index]-th; it is skipped, raises
    or is a task. *)
Definition parse_next_task (index : Z) (item : json) : result number_error (option IterationNextTask) :=
  match item with
  | JDict d =>
      let desc := stripped "description" d in
      if negb (truthy desc) then Ok None
      else
        let given := stripped "id" d in
        let ph := stripped "phase" d in
        p ← (int_field "priority" d : result number_error Z);
        Ok (Some (mkTask
              (if truthy given then given else "t" +:+ py_str (PInt index)) desc
              (optional_str (get "target_subagent" d)) (string_tuple 8 (get "dependencies" d))
              (Z.max 0 p) (if bool_decide (ph ∈ ITERATION_PHASES) then Some ph else None)
              (string_tuple 6 (get "expected_artifacts" d))))
  | _ => Ok None
  end.
Definition parse_next_tasks (max_next_tasks : nat) (v : json) : result number_error (list IterationNextTask) :=
  match v with JList l => collect parse_next_task 1 (take max_next_tasks l) | _ => Ok [] end.

(** [max(0.0, min(parsed, 1.0))], where [nan] gives 0 *)
Definition unit_float (f : float) : Q :=
  match f with
  | Fin q => if Qle_bool q 0 then 0 else if Qle_bool q 1 then q else 1
  | Inf positive => if positive then 1 else 0
  | Nan => 0
  end.
(** [float(z)] raises where rounding to 53 bits passes the greatest float. *)
Definition float_overflows (z : Z) : bool := (2 ^ 1024 - 2 ^ 970 <=? Z.abs z)%Z.
(** [_float_between(value, default=0.0)], which catches a ValueError *)
Definition float_between (v : json) : result number_error Q :=
  match v with
  | JBool b => Ok (unit_float (Fin (if b then 1 else 0)))
  | JInt z => if float_overflows z then Err Overflow else Ok (unit_float (Fin (inject_Z z)))
  | JFloat f => Ok (unit_float f)
  | JStr s => Ok (from_option unit_float 0%Q (float_of_string s))
  | JNone | JList _ | JDict _ => Ok 0%Q
  end.

(** [_parse_review_response] *)
Definition parse_review_response (covered : list string) (max_next_tasks : nat) (args : option answer)
    : result number_error IterationReviewVerdict :=
  match args with
  | None => Ok (human_review "iteration review did not return structured arguments")
  | Some d =>
      let given := get "verdict" d in
      match dget (if json_truth given then json_str given else "") VALID_VERDICTS with
      | None => Ok (human_review "iteration review returned an invalid verdict")
      | Some v =>
          c ← float_between (get "confidence" d);
          let summary := stripped "summary" d in
          if negb (Qle_bool MIN_REVIEW_CONFIDENCE c) then
            Ok (human_review (if truthy summary then summary
                              else "iteration review confidence was too low"))
          else
            tasks ← parse_next_tasks max_next_tasks (get "next_tasks" d);
            if bool_decide (v = continue_next_iteration) && bool_decide (tasks = []) then
              Ok (human_review "iteration review requested continuation without next tasks")
            else
              raws ← parse_raw_findings float_repr MAX_FINDINGS (get "findings" d);
              let '(kept, rejected) := gate_findings covered raws in
              Ok (mkVerdict v c (if truthy summary then summary else decision_text v)
                    (stripped "next_sprint_goal" d) (string_tuple 8 (get "feedback_items" d))
                    tasks kept rejected)
      end
  end.

(** [WorkspaceIterationReviewAgentProvider.review]: the agent is asked again,
    [attempts] times at most, while its turn ends without an answer.
    [turns] are the answers of its turns and [diagnostics] what the runner
    says of a turn without one. *)
Definition empty (a : option answer) : bool :=
  match a with None | Some [] => true | Some _ => false end.
Fixpoint ask (turns : nat → option answer) (turn attempts : nat) : option answer * nat :=
  if empty (turns turn) then
    match attempts with
    | 0 => (None, turn)
    | S attempts' => ask turns (S turn) attempts'
    end
  else (turns turn, turn).
Definition review (covered : list string) (max_next_tasks : nat) (turns : nat → option answer)
    (attempts : nat) (diagnostics : nat → string) : result number_error IterationReviewVerdict :=
  let missing turn :=
    human_review ("builtin workspace iteration reviewer did not submit iteration review: " +:+
                  diagnostics turn) in
  match ask turns 0 attempts with
  | (None, turn) => Ok (missing turn)
  | (Some a, turn) =>
      parsed ← parse_review_response covered max_next_tasks (Some a);
      Ok (if String.eqb (review_summary parsed) "iteration review did not return structured arguments"
          then missing turn else parsed)
  end.
End parsing.

(** * The filter *)

Lemma clamp_range z : (1 <= clamp z <= 10)%Z.
Proof. unfold clamp. lia. Qed.
Lemma clamp_high z : (10 <= z)%Z → clamp z = 10%Z.
Proof. unfold clamp. lia. Qed.
(** No rule excludes the finding. *)
Definition survives (covered : list string) (f : RawReviewFinding) : bool :=
  forallb (λ r, negb r.1.1) (exclusions covered f).
Definition with_confidence (c : Z) (f : RawReviewFinding) : RawReviewFinding :=
  mkFinding (file f) (line f) (category f) (severity f) c (finding_description f) (suggestion f)
    (concrete_evidence f).

Lemma survives_find covered f :
  survives covered f = true ↔ List.find (λ r, r.1.1) (exclusions covered f) = None.
Proof.
  unfold survives. rewrite forallb_elem, find_None_all.
  split; intros H r Hr; specialize (H r Hr); by destruct r.1.1.
Qed.
Lemma exclusion_confidence covered f r : r ∈ exclusions covered f → (2 <= r.1.2 <= 4)%Z.
Proof. unfold exclusions. intros H. set_unfold in H. naive_solver lia. Qed.
Lemma validate_verdict covered f :
  finding_verdict (validate_finding covered f) = KEEP ↔ survives covered f = true.
Proof.
  rewrite survives_find. unfold validate_finding. by destruct (List.find _ _) as [[[b c] why]|].
Qed.
Lemma validate_confidence covered f : let v := validate_finding covered f in
  (1 <= validated_confidence v <= 10)%Z ∧ raw_confidence (raw v) = clamp (raw_confidence f).
Proof.
  unfold validate_finding. destruct (List.find _ _) as [[[b c] why]|] eqn:E; split; try done.
  - apply find_Some_first in E as [Hin%exclusion_confidence _]. simpl in *. lia.
  - apply clamp_range.
Qed.
Lemma validate_saturates covered f c : (10 <= raw_confidence f)%Z → (10 <= c)%Z →
  validate_finding covered (with_confidence c f) = validate_finding covered f.
Proof.
  intros Hf Hc. unfold validate_finding.
  change (exclusions covered (with_confidence c f)) with (exclusions covered f).
  unfold decide_finding. cbn [with_confidence file line category severity raw_confidence finding_description
    suggestion concrete_evidence]. rewrite !(clamp_high (raw_confidence f)), !(clamp_high c) by done.
  destruct (List.find _ _) as [[[b v] why]|]; [done|].
  by rewrite !clamp_high by (destruct (concrete_evidence f); lia).
Qed.

(** The filter keeps, in order, exactly the findings no rule excludes,
    counts the others and brings every confidence between 1 and 10.  The agent
    is asked for a confidence up to 100 and the parser lets it through, but
    the filter tells none of those from 10 on apart. *)
Theorem findings_filter_spec covered fs kept rejected : gate_findings covered fs = (kept, rejected) →
  kept = validate_finding covered <$> filter (λ f, survives covered f = true) fs ∧
  length kept + rejected = length fs ∧
  (∀ v, v ∈ kept → (1 <= validated_confidence v <= 10 ∧ 1 <= raw_confidence (raw v) <= 10)%Z) ∧
  (∀ f c, (10 <= raw_confidence f)%Z → (10 <= c)%Z →
     validate_finding covered (with_confidence c f) = validate_finding covered f).
Proof.
  unfold gate_findings, filter_findings. rewrite filter_of_fmap, length_fmap, length_fmap. intros [= <- <-].
  rewrite (filter_ext_elem _ (λ f, survives covered f = true)) by (intros; apply validate_verdict).
  split_and!; [done| | |by apply validate_saturates].
  - rewrite length_fmap. pose proof (length_filter (λ f, survives covered f = true) fs). lia.
  - intros v (f & -> & _)%list_elem_of_fmap. destruct (validate_confidence covered f) as [? ->].
    split; [done|apply clamp_range].
Qed.

(** * What is read from an answer *)

Section reading_facts.
Context (float_repr : float → string).

Lemma stripped_strip key d : strip (stripped float_repr key d) = stripped float_repr key d.
Proof. unfold stripped. case_match; [apply strip_idem|done]. Qed.
Lemma string_tuple_spec limit v : NoDup (string_tuple float_repr limit v) ∧ length (string_tuple float_repr limit v) ≤ limit.
Proof.
  destruct v; simpl; rewrite ?length_take; split; try constructor; try lia;
    eapply sublist_NoDup; (apply clean_tuple_NoDup || apply sublist_take).
Qed.
(** What is collected, or which item raises. *)
Lemma collect_spec {A B E} (f : Z → A → result E (option B)) (P : B → Prop) items : ∀ index,
  (∀ i x b, f i x = Ok (Some b) → P b) →
  match collect f index items with
  | Ok bs => Forall P bs ∧ length bs ≤ length items
  | Err e => ∃ i x, x ∈ items ∧ f i x = Err e
  end.
Proof.
  intros index Hf. revert index. induction items as [|x items IH]; intros index; simpl; [by split; [constructor|lia]|].
  destruct (f index x) as [b|e] eqn:E1; simpl; [|exists index, x; split; [left|done]].
  specialize (IH (index + 1)%Z). destruct (collect f (index + 1) items) as [bs|e]; simpl.
  - destruct IH as [Hall Hl]. destruct b as [b|]; simpl; (split; [|lia]); [|done]. constructor; [by eapply Hf|done].
  - destruct IH as (i & y & Hy & He). exists i, y. split; [by right|done].
Qed.
Lemma parse_raw_finding_raises item e : parse_raw_finding float_repr item = Err e →
  e = Overflow ∧ ∃ d, item = JDict d ∧ (int_field "line" d = Err Overflow ∨ int_field "raw_confidence" d = Err Overflow).
Proof.
  unfold parse_raw_finding. destruct item as [| | | | | |d]; try done.
  destruct (dget _ severity_values); [|done]. destruct (negb _); [done|].
  destruct (int_field "line" d) as [ln|[]] eqn:El; simpl; [|done|by intros [= <-]; eauto].
  destruct (int_field "raw_confidence" d) as [c|[]] eqn:Ec; simpl; [done|done|]. intros [= <-]. eauto.
Qed.
End reading_facts.

Record task_wf (t : IterationNextTask) : Prop := {
  task_wf_id : task_id t ≠ "";
  task_wf_description : description t ≠ "" ∧ strip (description t) = description t;
  task_wf_priority : (0 <= task_priority t)%Z;
  task_wf_phase ph : phase t = Some ph → ph ∈ ITERATION_PHASES;
  task_wf_dependencies : NoDup (dependencies t) ∧ length (dependencies t) ≤ 8;
}.
Record verdict_wf (max_next_tasks : nat) (v : IterationReviewVerdict) : Prop := {
  wf_confident : verdict v ≠ needs_human_review →
    Qle MIN_REVIEW_CONFIDENCE (review_confidence v) ∧ Qle (review_confidence v) 1;
  wf_continued : verdict v = continue_next_iteration → next_tasks v ≠ [];
  wf_bounded : length (next_tasks v) ≤ max_next_tasks;
  wf_tasks : Forall task_wf (next_tasks v);
  wf_findings : length (findings v) + rejected_finding_count v ≤ MAX_FINDINGS ∧
                ∀ f, f ∈ findings v → finding_verdict f = KEEP;
}.
Lemma human_review_wf m reason : verdict_wf m (human_review reason).
Proof. constructor; simpl; try done; [lia|split; [lia|by intros f ?%elem_of_nil]]. Qed.

Section parsing_properties.
Context (float_of_string : string → option float) (float_repr : float → string).

(** An item is skipped, or is a proper task, or has a priority that is not
    an integer. *)
Lemma parse_next_task_spec index item :
  match parse_next_task float_repr index item with
  | Ok (Some t) => task_wf t
  | Ok None => True
  | Err e => ∃ d, item = JDict d ∧ int_field "priority" d = Err e
  end.
Proof.
  unfold parse_next_task. destruct item as [| | | | | |d]; try done.
  destruct (truthy (stripped float_repr "description" d)) eqn:Hd; simpl; [|done].
  destruct (int_field "priority" d) as [p|e] eqn:Hp; simpl; [|eauto]. apply truthy_true in Hd.
  constructor; simpl.
  - destruct (truthy (stripped float_repr "id" d)) eqn:E; [by apply truthy_true|done].
  - split; [done|apply stripped_strip].
  - lia.
  - intros ph. case_bool_decide; naive_solver.
  - apply string_tuple_spec.
Qed.
Lemma parse_next_tasks_spec m v :
  match parse_next_tasks float_repr m v with
  | Ok ts => Forall task_wf ts ∧ length ts ≤ m
  | Err e => ∃ l d, v = JList l ∧ JDict d ∈ l ∧ int_field "priority" d = Err e
  end.
Proof.
  unfold parse_next_tasks. destruct v as [| | | | |l|]; try (split; [constructor|simpl; lia]).
  pose proof (collect_spec (parse_next_task float_repr) task_wf (take m l) 1) as Hp.
  rewrite length_take in Hp. destruct (collect _ _ _) as [ts|e].
  - destruct Hp as [? ?]; [|split; [done|lia]].
    intros i x t Ht. pose proof (parse_next_task_spec i x) as H. by rewrite Ht in H.
  - destruct Hp as (i & x & Hx & He).
    { intros i x t Ht. pose proof (parse_next_task_spec i x) as H. by rewrite Ht in H. }
    pose proof (parse_next_task_spec i x) as H. rewrite He in H. destruct H as (d & -> & Hd).
    exists l, d. split_and!; [done| |done]. apply elem_of_take in Hx as (k & Hk & _). by eapply list_elem_of_lookup_2.
Qed.
Lemma parse_raw_findings_spec limit v :
  match parse_raw_findings float_repr limit v with
  | Ok fs => length fs ≤ limit
  | Err e => e = Overflow ∧ ∃ l d, v = JList l ∧ JDict d ∈ l ∧
      (int_field "line" d = Err Overflow ∨ int_field "raw_confidence" d = Err Overflow)
  end.
Proof.
  unfold parse_raw_findings. destruct v as [| | | | |l|]; simpl; try lia.
  pose proof (collect_spec (λ _, parse_raw_finding float_repr) (λ _, True) (take limit l) 1 ltac:(done)) as Hp.
  rewrite length_take in Hp. destruct (collect _ _ _) as [fs|e]; [lia|].
  destruct Hp as (i & x & Hx & He). apply parse_raw_finding_raises in He as (-> & d & -> & Hd).
  split; [done|]. exists l, d. split_and!; [done| |done]. apply elem_of_take in Hx as (k & Hk & _). by eapply list_elem_of_lookup_2.
Qed.

Lemma unit_float_range f : Qle 0 (unit_float f) ∧ Qle (unit_float f) 1.
Proof.
  assert (Qle 0 1) as H01 by (by apply Qle_bool_iff).
  destruct f as [q|b|]; simpl; [|destruct b; split; (done || apply Qle_refl)|split; (done || apply Qle_refl)].
  destruct (Qle_bool q 0) eqn:E0; [split; [apply Qle_refl|done]|].
  destruct (Qle_bool q 1) eqn:E1; [|split; [done|apply Qle_refl]].
  apply Qle_bool_iff in E1. split; [|done]. apply Qlt_le_weak, Qnot_le_lt.
  rewrite <-Qle_bool_iff. by rewrite E0.
Qed.
Lemma float_between_spec v :
  match float_between float_of_string v with
  | Ok q => Qle q 1
  | Err e => e = Overflow ∧ ∃ z, v = JInt z ∧ float_overflows z = true
  end.
Proof.
  assert (Qle 0 1) as H01 by (by apply Qle_bool_iff).
  destruct v as [|b|z|f|s|l|d]; simpl; try done; try apply unit_float_range; try apply (unit_float_range (Fin _)).
  - destruct (float_overflows z) eqn:E; [eauto|apply (unit_float_range (Fin _))].
  - destruct (float_of_string s); simpl; [apply unit_float_range|done].
Qed.

(** What in an answer makes the parser raise [e]. *)
Definition raises (e : number_error) (d : answer) : Prop :=
  e = Overflow ∧ (∃ z, get "confidence" d = JInt z ∧ float_overflows z = true) ∨
  (∃ l d', get "next_tasks" d = JList l ∧ JDict d' ∈ l ∧ int_field "priority" d' = Err e) ∨
  e = Overflow ∧ (∃ l d', get "findings" d = JList l ∧ JDict d' ∈ l ∧
    (int_field "line" d' = Err Overflow ∨ int_field "raw_confidence" d' = Err Overflow)).
Lemma parse_review_response_spec covered m args :
  match parse_review_response float_of_string float_repr covered m args with
  | Ok v => verdict_wf m v
  | Err e => ∃ d, args = Some d ∧ raises e d
  end.
Proof.
  destruct args as [d|]; cbn [parse_review_response]; [|by apply human_review_wf].
  cbv zeta. generalize (if json_truth (get "verdict" d) then json_str float_repr (get "verdict" d) else "") as key.
  intros key. destruct (dget key VALID_VERDICTS) as [v|]; [|by apply human_review_wf].
  pose proof (float_between_spec (get "confidence" d)) as Hc.
  destruct (float_between float_of_string _) as [c|e]; cbn [mbind result_bind];
    [|destruct Hc; exists d; split; [done|by left]].
  destruct (Qle_bool MIN_REVIEW_CONFIDENCE c) eqn:Hmin; cbn [negb]; [|by apply human_review_wf].
  pose proof (parse_next_tasks_spec m (get "next_tasks" d)) as Hts.
  destruct (parse_next_tasks float_repr m _) as [ts|e]; cbn [mbind result_bind];
    [|exists d; split; [done|by right; left]].
  destruct Hts as [Hwf Hlen].
  destruct (bool_decide (v = _) && bool_decide (ts = [])) eqn:Hcont; [by apply human_review_wf|].
  pose proof (parse_raw_findings_spec MAX_FINDINGS (get "findings" d)) as Hl.
  destruct (parse_raw_findings float_repr MAX_FINDINGS _) as [raws|e]; cbn [mbind result_bind];
    [|exists d; split; [done|by right; right]].
  destruct (gate_findings covered raws) as [kept rejected] eqn:Hg.
  constructor; simpl; try done.
  - intros _. split; [by apply Qle_bool_iff|done].
  - intros ->. rewrite bool_decide_true in Hcont by done. by apply bool_decide_eq_false in Hcont.
  - unfold gate_findings, filter_findings in Hg. injection Hg as <- <-. split.
    + pose proof (length_filter (λ v, finding_verdict v = KEEP) (validate_finding covered <$> raws)) as Hf.
      rewrite length_fmap in Hf |- *. lia.
    + by intros f [? _]%list_elem_of_filter.
Qed.
Lemma ask_spec turns attempts : ∀ turn,
  match ask turns turn attempts with
  | (Some a, last) => turn ≤ last ≤ turn + attempts ∧ turns last = Some a ∧ empty (Some a) = false
  | (None, last) => last = turn + attempts ∧ ∀ k, turn ≤ k ≤ last → empty (turns k) = true
  end.
Proof.
  induction attempts as [|n IH]; intros turn; cbn [ask];
    (destruct (empty (turns turn)) eqn:E;
      [|destruct (turns turn) as [a|] eqn:Ha; [split_and!; (done || lia)|done]]).
  - split; [lia|]. intros k Hk. by replace k with turn by lia.
  - specialize (IH (S turn)). destruct (ask turns (S turn) n) as [[a|] last].
    + destruct IH as (? & ? & ?). split_and!; (done || lia).
    + destruct IH as [-> IH]. split; [lia|]. intros k Hk. destruct (decide (k = turn)) as [->|]; [done|].
      apply IH. lia.
Qed.

(** C31. The reviewer's verdict, whatever JSON the agent submits: one that
    does not leave the decision to a human is confident enough, a continuation
    has tasks, at most as many as asked for, each with an id, a description, a
    known phase and a priority, and only findings the filter keeps; an agent
    that submits nothing in its turns leaves the decision to a human.  The
    review raises only on a task whose priority is not an integer and, with an
    OverflowError that the handlers of ValueError let through, on an infinite
    priority, on an infinite line or confidence of a finding, and on an
    integer confidence of the review beyond the floats, which always raises
    with a valid verdict. *)
Theorem review_wf covered m :
  (∀ turns attempts diagnostics,
    match review float_of_string float_repr covered m turns attempts diagnostics with
    | Ok v => verdict_wf m v ∧
        ((∀ k, k ≤ attempts → empty (turns k) = true) → verdict v = needs_human_review)
    | Err e => ∃ k d, k ≤ attempts ∧ turns k = Some d ∧ raises e d
    end) ∧
  (∀ d s v z, get "verdict" d = JStr s → dget s VALID_VERDICTS = Some v →
    get "confidence" d = JInt z → float_overflows z = true →
    parse_review_response float_of_string float_repr covered m (Some d) = Err Overflow).
Proof.
  split.
  - intros turns attempts diagnostics. unfold review. pose proof (ask_spec turns attempts 0) as Hask.
    destruct (ask turns 0 attempts) as [[a|] last]; [|by split; [apply human_review_wf|]].
    destruct Hask as ([_ Hlast] & Ha & Hne). pose proof (parse_review_response_spec covered m (Some a)) as Hp.
    destruct (parse_review_response _ _ _ _ _) as [v|e]; simpl.
    + split; [case_match; [apply human_review_wf|done]|]. intros Hempty.
      rewrite <-Ha, Hempty in Hne; [done|lia].
    + destruct Hp as (d & [= <-] & Hr). by exists last, a.
  - intros d s v z Hs Hv Hz Ho. cbn [parse_review_response]. rewrite Hs. cbn [json_truth json_str].
    assert (truthy s = true) as ->.
    { apply truthy_true. intros ->. by vm_compute in Hv. }
    by rewrite Hv, Hz; cbn [float_between]; rewrite Ho.
Qed.
End parsing_properties.

(** * Witnesses *)

Definition sample_finding (conf : Z) (why : string) : RawReviewFinding :=
  mkFinding "src/auth.py" 12 "security" WARNING conf why "check the signature" true.
Example test_files :
  (is_test_file <$> ["src/tests/api.py"; "app/Button.TEST.tsx"; "src/contest/a.py"; "e2e"; "a.spec."])
  = [true; true; false; true; false].
Proof. by vm_compute. Qed.
Lemma findings_filter_spec_witness :
  let fs := [sample_finding 85 "token is accepted unsigned"; sample_finding 40 "hackathon leftovers"] in
  ∃ kept rejected, gate_findings [] fs = (kept, rejected) ∧
    kept = validate_finding [] <$> filter (λ f, survives [] f = true) fs ∧
    length kept + rejected = 2 ∧ (validated_confidence <$> kept) = [10%Z].
Proof.
  intros fs. destruct (gate_findings [] fs) as [kept rejected] eqn:E. exists kept, rejected.
  pose proof (findings_filter_spec [] fs kept rejected E) as (Hk & Hl & _).
  split_and!; [done|exact Hk|exact Hl|]. rewrite Hk. vm_compute. reflexivity.
Defined.

(** A continuation whose first task has the priority [Infinity], one with a
    confidence of 400 digits, and a proper one. *)
Definition sample_answer (priority confidence : json) : answer :=
  [("verdict", JStr "continue_next_iteration"); ("confidence", confidence); ("summary", JStr " go on ");
   ("next_tasks", JList [JDict [("description", JStr "write it"); ("priority", priority); ("phase", JStr "implement")]])].
Definition huge : Z := 10 ^ 400.
Definition no_repr (f : float) : string := "".
Definition sample_review (a : answer) : result number_error IterationReviewVerdict :=
  review (λ _, None) no_repr [] 6 (λ _, Some a) 1 (λ _, "").
Example answers_read :
  sample_review (sample_answer (JFloat (Inf true)) (JFloat (Fin (9 # 10)))) = Err Overflow ∧
  sample_review (sample_answer (JStr "high") (JFloat (Fin (9 # 10)))) = Err NotANumber ∧
  (v ← sample_review (sample_answer (JFloat (Fin (5 # 2))) (JInt 1)); Ok (task_priority <$> next_tasks v)) = Ok [2%Z].
Proof. by vm_compute. Qed.
Lemma review_wf_witness :
  float_overflows huge = true ∧
  parse_review_response (λ _, None) no_repr [] 6 (Some (sample_answer (JInt 1) (JInt huge))) = Err Overflow.
Proof.
  assert (float_overflows huge = true) as Hh by (vm_compute; reflexivity). split; [exact Hh|].
  destruct (review_wf (λ _, None) no_repr [] 6) as [_ H].
  apply (H (sample_answer (JInt 1) (JInt huge)) "continue_next_iteration" continue_next_iteration huge);
    [reflexivity|reflexivity|reflexivity|exact Hh].
Defined.
