(* ===== verification/IterationLoop.v ===== *)
(** The iteration loop of a supervisor: when every node of a plan is done, the
    next sprint is added to it, or the plan is completed or suspended.

    Source: [WorkspaceSupervisor._handle_completed_progress] and its helpers in
    src/src/infrastructure/agent/workspace_plan/supervisor.py.  The reviewer
    is what the supervisor is given; the environment variables, the clock and
    [uuid4] are arguments, as are the three text heuristics of planner.py that
    derive a node's metadata, write set and criteria from its description.
    Events and saving the result are left out, and so are the two entries of
    the loop's metadata that hold the reviewer's confidence, a float, which
    only reports read ([last_review_confidence] and [history]). *)

From stdpp Require Import pretty gmap.
From Stdlib Require Import QArith.
From S2P Require Import Prelude PyText Datetime Acceptance PlanNode Kahn Plan NodeFacts PlanDispatch IterationReview.

Open Scope string_scope.
Open Scope list_scope.
Open Scope nat_scope.

Inductive loop_error : Type :=
  | PlanRaised (e : plan_error) | NodeRaised (e : node_error) | CheckpointRaised | ReviewRaised.
Definition in_plan {A} (r : result plan_error A) : result loop_error A :=
  match r with Ok a => Ok a | Err e => Err (PlanRaised e) end.
Definition in_node {A} (r : result node_error A) : result loop_error A :=
  match r with Ok a => Ok a | Err e => Err (NodeRaised e) end.

(** * The loop's metadata *)

(** [_iteration_loop_enabled], of the environment variable *)
Definition iteration_loop_enabled (raw : option string) : bool :=
  negb (bool_decide (lower_str (strip (default "true" raw)) ∈ ["0"; "false"; "no"; "off"])).

Definition ITERATION_LOOP_DEFAULT_MAX_ITERATIONS : Z := 8.
Definition ITERATION_LOOP_DEFAULT_MAX_SUBTASKS : Z := 6.
Definition positive_int (v : pyval) : option Z :=
  match v with
  | PInt z => if (0 <? z)%Z then Some z else None
  | PBool b => if b then Some 1%Z else None
  | PStr s => match digit_text s with
              | Some z => if (0 <? z)%Z then Some z else None
              | None => None
              end
  | _ => None
  end.
Definition max_iterations (raw : option string) (loop : list (string * pyval)) : Z :=
  let configured :=
    match raw with
    | None => ITERATION_LOOP_DEFAULT_MAX_ITERATIONS
    | Some s => default ITERATION_LOOP_DEFAULT_MAX_ITERATIONS (int_of_string s)
    end in
  match positive_int (dget_or PNone "max_iterations" loop) with
  | None => Z.max 1 configured
  | Some limit => Z.max 1 (Z.max configured limit)
  end.
(** [_current_iteration_task_budget], which does not read the plan *)
Definition current_iteration_task_budget (raw : option string) : Z :=
  match raw with
  | None => ITERATION_LOOP_DEFAULT_MAX_SUBTASKS
  | Some s =>
      match int_of_string s with
      | None => ITERATION_LOOP_DEFAULT_MAX_SUBTASKS
      | Some parsed => Z.max 1 (Z.min parsed (Z.of_nat (length ITERATION_PHASES)))
      end
  end.

Definition runnable_nodes (p : Plan) : list PlanNode := filter (λ n, runnable n = true) (dvals (nodes p)).
(** Indexes are at least 1, so the maximum of no indexes is 1 as well. *)
Definition max_iteration (ns : list PlanNode) : Z := foldr (λ n m, Z.max (node_iteration_index n) m) 1%Z ns.
Definition has_iteration_nodes (p : Plan) (i : Z) : bool :=
  existsb (λ n, (node_iteration_index n =? i)%Z) (runnable_nodes p).

Definition goal_loop (g : PlanNode) : list (string * pyval) :=
  match meta "iteration_loop" g with PDict d => d | _ => [] end.
Definition with_status (now : Z) (st : PlanStatus) (p : Plan) : Plan :=
  mkPlan (ident p) (workspace_id p) (goal_id p) (nodes p) st (Some now).
Definition goal_with (now : Z) (updates : list (string * pyval)) (g : PlanNode) : PlanNode :=
  set_updated_at (Some now)
    (set_metadata (dset "iteration_loop" (PDict (update_all updates (goal_loop g))) (metadata g)) g).
(** [_replace_goal_loop_metadata] *)
Definition replace_goal_loop_metadata (now : Z) (st : PlanStatus) (updates : list (string * pyval))
    (p : Plan) : result loop_error Plan :=
  g ← in_plan (goal_node p);
  Ok (with_status now st (put_node now (goal_with now updates g) p)).

(** [_int_list]; a boolean counts as the integer it is. *)
Definition int_item (v : pyval) : option Z :=
  match v with
  | PInt z => Some z
  | PBool b => Some (if b then 1 else 0)%Z
  | PStr s => digit_text s
  | _ => None
  end.
Definition int_list (v : pyval) : list Z := match v with PList l => omap int_item l | _ => [] end.
Definition append_int (v : pyval) (item : Z) : pyval :=
  let items := int_list v in
  PList (PInt <$> (if bool_decide (item ∈ items) then items else items ++ [item])).
Definition reviewed_iterations (loop : list (string * pyval)) : list Z :=
  int_list (dget_or PNone "reviewed_iterations" loop).

Definition clamp_iteration_verdict_tasks (m : nat) (v : IterationReviewVerdict) : IterationReviewVerdict :=
  if length (next_tasks v) <=? m then v
  else mkVerdict (verdict v) (review_confidence v) (review_summary v) (next_sprint_goal v)
         (feedback_items v) (take m (next_tasks v)) (findings v) (rejected_finding_count v).

Definition severity_value (s : ReviewSeverity) : string :=
  match s with CRITICAL => "CRITICAL" | WARNING => "WARNING" | SUGGESTION => "SUGGESTION" end.
Definition finding_payload (v : ValidatedReviewFinding) : pyval :=
  PDict [("file", PStr (file (raw v))); ("line", PInt (line (raw v)));
         ("category", PStr (category (raw v))); ("severity", PStr (severity_value (severity (raw v))));
         ("raw_confidence", PInt (raw_confidence (raw v)));
         ("validated_confidence", PInt (validated_confidence v));
         ("description", PStr (finding_description (raw v)));
         ("suggestion", PStr (suggestion (raw v)));
         ("concrete_evidence", PBool (concrete_evidence (raw v)));
         ("verdict", PStr match finding_verdict v with KEEP => "KEEP" | REJECT => "REJECT" end);
         ("reasoning", PStr (reasoning v))].
Definition findings_payload (v : IterationReviewVerdict) : pyval := PList (finding_payload <$> findings v).

(** * The next sprint *)

(** A task with its place, the node made for it and its phase. *)
Record task_spec : Type := mkSpec {
  spec_sequence : Z; spec_task : IterationNextTask; spec_node : string; spec_phase : string;
}.
Definition next_iteration_task_phase (t : IterationNextTask) (seq : Z) : string :=
  match phase t with
  | Some ph => if bool_decide (ph ∈ ITERATION_PHASES) then ph else iteration_phase_for_sequence seq
  | None => iteration_phase_for_sequence seq
  end.
(** [enumerate(tasks, start=1)] *)
Definition numbered (ts : list IterationNextTask) : list (Z * IterationNextTask) :=
  imap (λ i t, (Z.of_nat (S i), t)) ts.
(** [{task.id: f(sequence, task) for ... if task.id}] *)
Definition by_task_id {A} (f : Z → IterationNextTask → A) (ts : list IterationNextTask) : list (string * A) :=
  foldl (λ d st, if truthy (task_id st.2) then dset (task_id st.2) (f st.1 st.2) d else d) [] (numbered ts).
Definition sequence_by_task_id := by_task_id (λ seq _, seq).
Definition phase_by_task_id := by_task_id (λ seq t, next_iteration_task_phase t seq).

Section next_sprint.
Context (uuid : nat → string).
Context (planner_node_metadata : string → string → Z → list (string * pyval)).
Context (infer_write_set : string → list string).
Context (default_acceptance_criteria : string → list AcceptanceCriterion).

(** The id made of the [k]-th random text. *)
Definition new_id (k : nat) : string := "node-" +:+ uuid k.
(** The first comprehension of [_append_next_iteration], with the number of
    texts it draws. *)
Definition id_map (ts : list IterationNextTask) : list (string * string) * nat :=
  foldl (λ '(m, k) t, if truthy (task_id t) then (dset (task_id t) (new_id k) m, S k) else (m, k))
    ([], 0) ts.
Fixpoint specs_from (m : list (string * string)) (k : nat) (seq : Z) (ts : list IterationNextTask)
    : list task_spec :=
  match ts with
  | [] => []
  | t :: ts' =>
      let '(nid, k') := match dget (task_id t) m with Some i => (i, k) | None => (new_id k, S k) end in
      mkSpec seq t nid (next_iteration_task_phase t seq) :: specs_from m k' (seq + 1)%Z ts'
  end.
Definition task_specs (ts : list IterationNextTask) : list task_spec :=
  specs_from (id_map ts).1 (id_map ts).2 1 ts.

Definition nodes_in_phase (sps : list task_spec) (ph : string) : list string :=
  spec_node <$> filter (λ sp, spec_phase sp = ph) sps.
Definition explicit_dependencies (ts : list IterationNextTask) (sp : task_spec) : list string :=
  omap (λ dep,
      i ← dget dep (id_map ts).1;
      if negb (bool_decide (i = spec_node sp)) &&
         (dget_or (spec_sequence sp + 1) dep (sequence_by_task_id ts) <? spec_sequence sp)%Z &&
         (phase_index (dget_or "research" dep (phase_by_task_id ts)) <=? phase_index (spec_phase sp))
      then Some i else None)
    (dependencies (spec_task sp)).
(** [tuple(dict.fromkeys(...))] *)
Definition dedup (l : list string) : list string := foldl (λ acc x, set_add x acc) [] l.
Definition spec_dependencies (ts : list IterationNextTask) (sp : task_spec) : list string :=
  dedup (explicit_dependencies ts sp ++
         phase_barrier_dependencies (spec_phase sp) (nodes_in_phase (task_specs ts))).

(** [_feature_checkpoint_expected_artifacts] *)
Definition checkpoint_artifacts (t : IterationNextTask) (ph : string) (write_set : list string) : list string :=
  if negb (bool_decide (write_set = [])) then write_set
  else if bool_decide (ph ∈ ["implement"; "test"; "deploy"]) then task_artifacts t else [].
Definition strings (l : list string) : pyval := PList (PStr <$> l).
Definition int_text (z : Z) : string := py_str (PInt z).
Definition node_metadata (next : Z) (sp : task_spec) : list (string * pyval) :=
  let desc := description (spec_task sp) in
  let base := update_all
    [("iteration_index", PInt next); ("iteration_phase", PStr (spec_phase sp));
     ("iteration_loop", PStr "scrum_feedback_loop_v1");
     ("scrum_artifact", PStr (dget_or "" (spec_phase sp) SCRUM_ARTIFACT_BY_PHASE))]
    (planner_node_metadata desc (spec_node sp) (spec_sequence sp)) in
  let base := if bool_decide (task_artifacts (spec_task sp) = []) then base
              else dset "expected_artifacts" (strings (task_artifacts (spec_task sp))) base in
  if bool_decide (infer_write_set desc = []) then base
  else dset "write_set" (strings (infer_write_set desc)) base.

(** The node of [_add_next_iteration_node]. *)
Definition next_iteration_node (now : Z) (p : Plan) (next : Z) (sp : task_spec) : result loop_error PlanNode :=
  let t := spec_task sp in
  let short := String.substring 0 120 (description t) in
  caps ← match target_subagent t with
         | Some a => if truthy a then c ← in_node (new_capability ("agent:" +:+ a) 2); Ok [c] else Ok []
         | None => Ok []
         end;
  checkpoint ← of_option (checkpoint_post_init
      (mkCheckpoint ("iteration-" +:+ int_text next +:+ "-" +:+ int_text (spec_sequence sp) +:+ "-" +:+ spec_node sp)
         (spec_sequence sp) short None [] (checkpoint_artifacts t (spec_phase sp) (infer_write_set (description t)))
         None None None None "")) CheckpointRaised;
  in_node (post_init
    (mkNode (spec_node sp) (ident p) (Some (goal_id p)) TASK
       (if truthy short then short
        else "Iteration " +:+ int_text next +:+ " task " +:+ int_text (spec_sequence sp))
       [] (default_acceptance_criteria (description t)) (Some checkpoint) caps (target_subagent t)
       (mkEffort 0 (1 # 2)) (Z.max 0 (task_priority t)) TODO IDLE (mkProgress 0 1 "") None None None
       (node_metadata next sp) now None None)).
Definition add_next_iteration_node (now next : Z) (p : Plan) (sp : task_spec) : result loop_error Plan :=
  n ← next_iteration_node now p next sp;
  match add_node n p with
  | (p', Ok _) => Ok p'
  | (_, Err e) => Err (PlanRaised e)
  end.
Fixpoint add_nodes (now next : Z) (p : Plan) (sps : list task_spec) : result loop_error Plan :=
  match sps with
  | [] => Ok p
  | sp :: sps' => p' ← add_next_iteration_node now next p sp; add_nodes now next p' sps'
  end.
Definition link_node (now : Z) (ts : list IterationNextTask) (p : Plan) (sp : task_spec)
    : result loop_error Plan :=
  n ← in_plan (of_option (dget (spec_node sp) (nodes p)) (KeyError (spec_node sp)));
  n' ← in_node (post_init (set_depends_on (spec_dependencies ts sp) n));
  match replace_node n' now p with
  | (p', Ok _) => Ok p'
  | (_, Err e) => Err (PlanRaised e)
  end.
Fixpoint link_nodes (now : Z) (ts : list IterationNextTask) (p : Plan) (sps : list task_spec)
    : result loop_error Plan :=
  match sps with
  | [] => Ok p
  | sp :: sps' => p' ← link_node now ts p sp; link_nodes now ts p' sps'
  end.
(** What [_append_next_iteration] writes about the loop. *)
Definition continued_entries (loop : list (string * pyval)) (v : IterationReviewVerdict) (next limit : Z)
    : list (string * pyval) :=
  [("mode", PStr "auto"); ("current_iteration", PInt next); ("max_iterations", PInt limit);
   ("loop_status", PStr "active"); ("last_review_summary", PStr (review_summary v));
   ("last_review_findings", findings_payload v);
   ("last_review_rejected_finding_count", PInt (Z.of_nat (rejected_finding_count v)));
   ("current_sprint_goal", PStr (next_sprint_goal v)); ("next_sprint_goal", PStr (next_sprint_goal v));
   ("stop_reason", PStr ""); ("feedback_items", strings (feedback_items v));
   ("completed_iterations", append_int (dget_or PNone "completed_iterations" loop) (next - 1));
   ("reviewed_iterations", append_int (dget_or PNone "reviewed_iterations" loop) (next - 1))].
(** [_append_next_iteration] *)
Definition append_next_iteration (now : Z) (v : IterationReviewVerdict) (next limit : Z) (p : Plan)
    : result loop_error Plan :=
  g ← in_plan (goal_node p);
  let sps := task_specs (next_tasks v) in
  p1 ← add_nodes now next p sps;
  p2 ← link_nodes now (next_tasks v) p1 sps;
  replace_goal_loop_metadata now ACTIVE (continued_entries (goal_loop g) v next limit) p2.

(** * What the supervisor does with a plan whose nodes are all done *)

Record loop_env : Type := mkLoopEnv {
  enabled_env : option string;
  max_iterations_env : option string;
  max_subtasks_env : option string;
  loop_now : Z;
  (** [None] without a reviewer; otherwise its verdict on an iteration, with
      the number of tasks it may propose *)
  reviewer : option (Plan → Z → nat → result unit IterationReviewVerdict);
}.
Definition loop_state (i limit : Z) (st reason : string) : list (string * pyval) :=
  [("mode", PStr "auto"); ("current_iteration", PInt i); ("max_iterations", PInt limit);
   ("loop_status", PStr st); ("stop_reason", PStr reason)].
Definition review_entries (loop : list (string * pyval)) (i : Z) (v : IterationReviewVerdict)
    : list (string * pyval) :=
  [("last_review_summary", PStr (review_summary v)); ("last_review_findings", findings_payload v);
   ("last_review_rejected_finding_count", PInt (Z.of_nat (rejected_finding_count v)));
   ("reviewed_iterations", append_int (dget_or PNone "reviewed_iterations" loop) i)].
Definition text_or (v : pyval) (s : string) : string := if py_truth v then py_str v else s.

Definition handle_completed_progress (env : loop_env) (p : Plan) : result loop_error Plan :=
  let now := loop_now env in
  let finish := Ok (with_status now COMPLETED p) in
  if negb (iteration_loop_enabled (enabled_env env)) then finish
  else
    g ← in_plan (goal_node p);
    let loop := goal_loop g in
    let limit := max_iterations (max_iterations_env env) loop in
    let current := max_iteration (runnable_nodes p) in
    let suspend st reason := replace_goal_loop_metadata now SUSPENDED (loop_state current limit st reason) p in
    match reviewer env with
    | None =>
        if bool_decide (dget "mode" loop = Some (PStr "auto"))
        then suspend "suspended" "iteration review agent is unavailable"
        else finish
    | Some reviewed =>
        if bool_decide (runnable_nodes p = []) then finish
        else if has_iteration_nodes p (current + 1) then
          replace_goal_loop_metadata now ACTIVE (loop_state (current + 1) limit "active" "") p
        else if bool_decide (dget "loop_status" loop = Some (PStr "paused")) then
          suspend "paused" (text_or (dget_or PNone "stop_reason" loop) "auto-loop paused")
        else if (limit <=? current)%Z then
          suspend "suspended" ("max iterations reached: " +:+ int_text limit)
        else if bool_decide (current ∈ reviewed_iterations loop) then
          suspend "suspended" "iteration already reviewed without a next sprint"
        else
          let budget := Z.to_nat (current_iteration_task_budget (max_subtasks_env env)) in
          match reviewed p current budget with
          | Err _ => Err ReviewRaised
          | Ok v0 =>
              let v := clamp_iteration_verdict_tasks budget v0 in
              if bool_decide (verdict v = complete_goal) then
                replace_goal_loop_metadata now COMPLETED
                  (loop_state current limit "completed" "" ++ review_entries loop current v ++
                   [("completed_iterations", append_int (dget_or PNone "completed_iterations" loop) current)]) p
              else if bool_decide (verdict v = needs_human_review) ||
                      negb (Qle_bool MIN_REVIEW_CONFIDENCE (review_confidence v)) ||
                      bool_decide (next_tasks v = []) then
                let reason := if truthy (review_summary v) then review_summary v
                              else "iteration review requires human review" in
                replace_goal_loop_metadata now SUSPENDED
                  (loop_state current limit "suspended" reason ++ review_entries loop current v ++
                   [("feedback_items", strings (feedback_items v))]) p
              else append_next_iteration now v (current + 1) limit p
          end
    end.
End next_sprint.
