(* ===== verification/SprintSafety.v ===== *)
(** What the iteration loop guarantees: sprints whose tasks wait for the
    earlier phases, at most as many as the limit, and what the repair of phase
    barriers does to them.

    Over the definitions of [IterationLoop] and [PlanDispatch], for any
    heuristics of the planner and any reviewer. *)

From stdpp Require Import pretty gmap.
From Stdlib Require Import QArith.
From S2P Require Import Prelude PyText Datetime Acceptance PlanNode Kahn Plan NodeFacts PlanDispatch DispatchSafety IterationReview IterationLoop.

Open Scope string_scope.
Open Scope list_scope.
Open Scope nat_scope.

(** * Tasks and their places *)

Lemma NoDup_fmap_elem {A B : Type} (f : A → B) (l : list A) x y : NoDup (f <$> l) →
  x ∈ l → y ∈ l → f x = f y → x = y.
Proof.
  intros Hnd [i Hi]%list_elem_of_lookup [j Hj]%list_elem_of_lookup E.
  assert (i = j) as ->; [|congruence].
  eapply NoDup_lookup; [exact Hnd| |]; rewrite list_lookup_fmap, ?Hi, ?Hj; simpl; by rewrite ?E.
Qed.

Lemma elem_of_numbered s t ts : (s, t) ∈ numbered ts ↔ ∃ i, ts !! i = Some t ∧ s = Z.of_nat (S i).
Proof.
  unfold numbered. rewrite list_elem_of_lookup. split.
  - intros [i Hi]. rewrite list_lookup_imap in Hi. destruct (ts !! i) as [t'|] eqn:E; simplify_eq/=. eauto.
  - intros (i & Hi & ->). exists i. by rewrite list_lookup_imap, Hi.
Qed.

Lemma by_task_id_fold {A} (f : Z → IterationNextTask → A) key l : ∀ d d',
  dget key d = (λ st, f st.1 st.2) <$> dget key d' →
  dget key (foldl (λ d st, if truthy (task_id st.2) then dset (task_id st.2) (f st.1 st.2) d else d) d l) =
  (λ st, f st.1 st.2) <$>
    dget key (foldl (λ d st, if truthy (task_id st.2) then dset (task_id st.2) (st.1, st.2) d else d) d' l).
Proof.
  induction l as [|[s t] l IH]; intros d d' Hd; [done|]. simpl. apply IH.
  destruct (truthy (task_id t)); [|done]. rewrite !dget_dset. by case_decide.
Qed.
(** The last task with the id, and its place. *)
Definition last_with (key : string) (ts : list IterationNextTask) : option (Z * IterationNextTask) :=
  dget key (by_task_id pair ts).
Lemma by_task_id_last {A} (f : Z → IterationNextTask → A) key ts :
  dget key (by_task_id f ts) = (λ st, f st.1 st.2) <$> last_with key ts.
Proof. unfold last_with, by_task_id. by apply by_task_id_fold. Qed.
Lemma last_with_Some key ts s t : last_with key ts = Some (s, t) → (s, t) ∈ numbered ts ∧ task_id t = key.
Proof.
  unfold last_with, by_task_id. generalize (numbered ts) as l. intros l.
  assert (∀ d, (∀ s t, dget key d = Some (s, t) → task_id t = key) →
    dget key (foldl (λ d st, if truthy (task_id st.2) then dset (task_id st.2) (st.1, st.2) d else d) d l)
      = Some (s, t) → (dget key d = Some (s, t) ∨ (s, t) ∈ l) ∧ task_id t = key) as H.
  { induction l as [|[s0 t0] l IH]; intros d Hd H; simpl in H; [split; [by left|by apply Hd in H]|].
    apply IH in H as [[H|H] Ht]; [split; [|done]|split; [|done]|].
    - destruct (truthy (task_id t0)); [|by left]. rewrite dget_dset in H.
      case_decide; [right; injection H as <- <-; left|by left].
    - right. by right.
    - intros s' t'. destruct (truthy (task_id t0)); [|apply Hd]. rewrite dget_dset.
      case_decide; [naive_solver|apply Hd]. }
  intros Hf. destruct (H [] ltac:(done) Hf) as [[?|?] ?]; done.
Qed.

Section sprint.
Context (uuid : nat → string).
Notation new_id := (new_id uuid).
Notation id_map := (id_map uuid).
Notation task_specs := (task_specs uuid).

(** Two steps of the loop that makes the specs. *)
Lemma specs_from_elem m ts : ∀ k seq sp, sp ∈ specs_from uuid m k seq ts →
  ∃ i, ts !! i = Some (spec_task sp) ∧ spec_sequence sp = (seq + Z.of_nat i)%Z ∧
    spec_phase sp = next_iteration_task_phase (spec_task sp) (spec_sequence sp) ∧
    (∀ x, dget (task_id (spec_task sp)) m = Some x → spec_node sp = x) ∧
    (dget (task_id (spec_task sp)) m = None → ∃ j, k ≤ j ∧ spec_node sp = new_id j).
Proof.
  induction ts as [|t ts IH]; intros k seq sp Hsp; [by apply elem_of_nil in Hsp|]. simpl in Hsp.
  destruct (match dget (task_id t) m with Some i => (i, k) | None => (new_id k, S k) end) as [nid k'] eqn:E.
  apply elem_of_cons in Hsp as [->|Hsp].
  - exists 0. simpl. split_and!; [done|lia|done| |].
    + intros x Hx. rewrite Hx in E. congruence.
    + intros Hx. rewrite Hx in E. exists k. split; [done|congruence].
  - apply IH in Hsp as (i & Hi & Hs & Hp & Hx & Hn). exists (S i).
    split_and!; [done|lia|done|done|]. intros H. destruct (Hn H) as (j & Hj & ->). exists j. split; [|done].
    destruct (dget (task_id t) m); simplify_eq; lia.
Qed.
Lemma specs_from_lookup m ts : ∀ k seq i t, ts !! i = Some t →
  ∃ sp, specs_from uuid m k seq ts !! i = Some sp ∧ spec_task sp = t ∧ spec_sequence sp = (seq + Z.of_nat i)%Z.
Proof.
  induction ts as [|t0 ts IH]; intros k seq i t Hi; [done|]. simpl.
  destruct (match dget (task_id t0) m with Some x => (x, k) | None => (new_id k, S k) end) as [nid k'].
  destruct i as [|i]; simplify_eq/=.
  - eexists. split; [done|]. simpl. split; [done|lia].
  - destruct (IH k' (seq + 1)%Z i t Hi) as (sp & Hsp & Ht & Hs). exists sp. split_and!; [done|done|lia].
Qed.
Lemma specs_from_length m ts : ∀ k seq, length (specs_from uuid m k seq ts) = length ts.
Proof.
  induction ts as [|t ts IH]; intros k seq; [done|]. simpl.
  destruct (match dget (task_id t) m with Some x => (x, k) | None => (new_id k, S k) end).
  simpl. by rewrite IH.
Qed.
(** The task at a place has one spec. *)
Lemma spec_of_task ts s t : (s, t) ∈ numbered ts → ∃ sp, sp ∈ task_specs ts ∧
  spec_sequence sp = s ∧ spec_task sp = t ∧ spec_phase sp = next_iteration_task_phase t s ∧
  ∀ x, dget (task_id t) (id_map ts).1 = Some x → spec_node sp = x.
Proof.
  intros (i & Hi & ->)%elem_of_numbered. unfold task_specs.
  destruct (specs_from_lookup (id_map ts).1 ts (id_map ts).2 1 i t Hi) as (sp & Hsp & Ht & Hs).
  apply list_elem_of_lookup_2 in Hsp. exists sp. split; [done|].
  apply specs_from_elem in Hsp as (j & Hj & Hsj & Hp & Hx & _).
  rewrite Ht in *. split_and!; [lia|done|rewrite Hp; f_equal; lia|done].
Qed.
Lemma spec_sequences ts sp : sp ∈ task_specs ts →
  (1 <= spec_sequence sp)%Z ∧ spec_phase sp = next_iteration_task_phase (spec_task sp) (spec_sequence sp) ∧
  spec_task sp ∈ ts.
Proof.
  intros (i & Hi & Hs & Hp & _)%specs_from_elem. split_and!; [lia|done|by eapply list_elem_of_lookup_2].
Qed.
Lemma task_phase_known t s : next_iteration_task_phase t s ∈ ITERATION_PHASES.
Proof.
  assert (∀ z, iteration_phase_for_sequence z ∈ ITERATION_PHASES) as Hdef.
  { intros z. unfold iteration_phase_for_sequence. destruct (z <=? 0)%Z; [set_solver|].
    pose proof (Z.mod_pos_bound (z - 1) 6 ltac:(lia)) as Hb. apply list_elem_of_In, nth_In.
    simpl. lia. }
  unfold next_iteration_task_phase. destruct (phase t); [|done]. case_bool_decide; done.
Qed.

(** ** Dependencies *)

Lemma elem_of_dedup x l : x ∈ dedup l ↔ x ∈ l.
Proof.
  unfold dedup. assert (∀ acc, x ∈ foldl (λ acc y, set_add y acc) acc l ↔ x ∈ acc ∨ x ∈ l) as ->.
  { induction l as [|y l IH]; intros acc; simpl; [set_solver|]. rewrite IH, elem_of_set_add, elem_of_cons. tauto. }
  set_solver.
Qed.
Lemma dedup_NoDup l : NoDup (dedup l).
Proof.
  unfold dedup. assert (∀ acc : list string, NoDup acc → NoDup (foldl (λ acc y, set_add y acc) acc l)) as H.
  { induction l as [|y l IH]; intros acc Hacc; [done|]. apply IH. auto with memstack. }
  apply H. constructor.
Qed.
Lemma prior_phase_spec ph q : ph ∈ ITERATION_PHASES → q ∈ ITERATION_PHASES →
  q ∈ prior_phases ph ↔ phase_index q < phase_index ph.
Proof.
  assert (forallb (λ ph, forallb (λ q, Bool.eqb (bool_decide (q ∈ prior_phases ph))
            (phase_index q <? phase_index ph)) ITERATION_PHASES) ITERATION_PHASES = true) as H
    by by vm_compute.
  intros Hph Hq. rewrite forallb_elem in H. specialize (H ph Hph). rewrite forallb_elem in H.
  specialize (H q Hq). apply eqb_prop in H. rewrite <-(bool_decide_eq_true (q ∈ _)), H.
  apply Nat.ltb_lt.
Qed.
Lemma prior_phases_known ph q : q ∈ prior_phases ph → q ∈ ITERATION_PHASES.
Proof.
  unfold prior_phases. generalize ITERATION_PHASES as ps.
  induction ps as [|p0 ps IH]; simpl; [set_solver|]. case_bool_decide; simpl; [set_solver|].
  destruct (phases_before ph ps); simpl in *; set_solver.
Qed.

Lemma spec_dependencies_spec ts sp d : sp ∈ task_specs ts →
  d ∈ spec_dependencies uuid ts sp → ∃ sp', sp' ∈ task_specs ts ∧ d = spec_node sp' ∧
    (phase_index (spec_phase sp') < phase_index (spec_phase sp) ∨
     phase_index (spec_phase sp') = phase_index (spec_phase sp) ∧ (spec_sequence sp' < spec_sequence sp)%Z).
Proof.
  intros Hsp. unfold spec_dependencies. rewrite elem_of_dedup, elem_of_app. intros [Hd|Hd].
  - unfold explicit_dependencies in Hd. apply list_elem_of_omap in Hd as (dep & Hdep & Hd).
    destruct (dget dep (id_map ts).1) as [i|] eqn:Hi; [|done]. simpl in Hd.
    destruct (negb _ && _ && _) eqn:Hc; simplify_eq/=. split_bools.
    unfold dget_or, sequence_by_task_id, phase_by_task_id in *. rewrite !by_task_id_last in *.
    destruct (last_with dep ts) as [[s t]|] eqn:Hl; simpl in *; [|lia].
    apply last_with_Some in Hl as [Hin <-].
    destruct (spec_of_task ts s t Hin) as (sp' & Hsp' & <- & Ht & Hph & Hx). exists sp'.
    rewrite (Hx _ Hi). split_and!; [done|done|]. rewrite <-Hph in *.
    match goal with H : (_ <=? _) = true |- _ => apply Nat.leb_le in H end. lia.
  - unfold phase_barrier_dependencies in Hd. apply list_elem_of_bind in Hd as (ph & Hd & Hph).
    unfold nodes_in_phase in Hd. apply list_elem_of_fmap in Hd as (sp' & -> & [<- Hsp']%list_elem_of_filter).
    exists sp'. split_and!; [done|done|]. left.
    apply prior_phase_spec; [| |done].
    + destruct (spec_sequences _ _ Hsp) as (_ & -> & _). apply task_phase_known.
    + by apply prior_phases_known in Hph.
Qed.
(** The barrier: every node of an earlier phase. *)
Lemma spec_dependencies_barrier ts sp sp' : sp ∈ task_specs ts → sp' ∈ task_specs ts →
  phase_index (spec_phase sp') < phase_index (spec_phase sp) → spec_node sp' ∈ spec_dependencies uuid ts sp.
Proof.
  intros Hsp Hsp' Hlt. unfold spec_dependencies. rewrite elem_of_dedup, elem_of_app. right.
  assert (∀ x, x ∈ task_specs ts → spec_phase x ∈ ITERATION_PHASES) as Hknown.
  { intros x Hx. destruct (spec_sequences _ _ Hx) as (_ & -> & _). apply task_phase_known. }
  apply list_elem_of_bind. exists (spec_phase sp'). split; [|apply prior_phase_spec; auto].
  unfold nodes_in_phase. apply list_elem_of_fmap_2. by apply list_elem_of_filter.
Qed.
End sprint.

(** * The nodes of a sprint *)

Section append.
Context (uuid : nat → string).
Context (planner_node_metadata : string → string → Z → list (string * pyval)).
Context (infer_write_set : string → list string).
Context (default_acceptance_criteria : string → list AcceptanceCriterion).
Notation node_metadata := (node_metadata planner_node_metadata infer_write_set).
Notation next_iteration_node :=
  (next_iteration_node planner_node_metadata infer_write_set default_acceptance_criteria).
Notation add_next_iteration_node :=
  (add_next_iteration_node planner_node_metadata infer_write_set default_acceptance_criteria).
Notation add_nodes := (add_nodes planner_node_metadata infer_write_set default_acceptance_criteria).
Notation task_specs := (task_specs uuid).
Notation spec_dependencies := (spec_dependencies uuid).
Notation link_node := (link_node uuid).
Notation link_nodes := (link_nodes uuid).

(** A node made for a spec, its dependencies apart. *)
Record sprint_node (p : Plan) (next : Z) (sp : task_spec) (n : PlanNode) : Prop := {
  sn_id : id n = spec_node sp;
  sn_plan : plan_id n = ident p;
  sn_parent : parent_id n = Some (goal_id p);
  sn_kind : kind n = TASK;
  sn_fresh : intent n = TODO ∧ execution n = IDLE ∧ current_attempt_id n = None;
  sn_checkpoint : checkpoint_sequence n = spec_sequence sp;
  sn_metadata : metadata n = node_metadata next sp;
}.
Lemma next_iteration_node_spec now p next sp n : next_iteration_node now p next sp = Ok n →
  sprint_node p next sp n ∧ depends_on n = [] ∧ node_wf n ∧ post_init n = Ok n.
Proof.
  unfold IterationLoop.next_iteration_node. intros (caps & _ & H)%result_bind_ok.
  apply result_bind_ok in H as (c & Hc & H). unfold in_node in H.
  destruct (post_init _) as [m|e] eqn:Hp; [|done]. injection H as ->.
  pose proof Hp as Hwf. apply post_init_ok in Hwf as [-> Hwf]; [|constructor].
  split_and!; [|done|done|done]. constructor; try done.
  unfold checkpoint_sequence. simpl. unfold checkpoint_post_init in Hc. simpl in Hc.
  destruct (negb _); [done|]. case_bool_decide; [done|]. simpl in Hc. by injection Hc as <-.
Qed.
(** What the metadata of a new node says, whatever the planner derives from
    its text. *)
Lemma node_metadata_get next sp key v :
  (key, v) ∈ [("iteration_index", PInt next); ("iteration_phase", PStr (spec_phase sp));
              ("scrum_artifact", PStr (dget_or "" (spec_phase sp) SCRUM_ARTIFACT_BY_PHASE))] →
  dget_or PNone key (node_metadata next sp) = v.
Proof.
  intros H. unfold IterationLoop.node_metadata, update_all. set_unfold in H.
  destruct_or!; simplify_eq; cbn [foldl fst snd]; repeat case_bool_decide;
    repeat (rewrite dget_or_dset; first [rewrite decide_False by done | rewrite decide_True by done]; try done).
Qed.
Lemma sprint_node_reads p next sp n : sprint_node p next sp n → (0 < next)%Z →
  (1 <= spec_sequence sp)%Z → spec_phase sp ∈ ITERATION_PHASES →
  node_iteration_index n = next ∧ node_iteration_phase n = spec_phase sp ∧
  node_sequence n = spec_sequence sp ∧ runnable n = true.
Proof.
  intros [_ _ _ Hk _ Hc Hm] Hn Hs Hp. unfold node_iteration_index, node_iteration_phase, node_sequence, meta.
  rewrite Hm, Hc. rewrite (node_metadata_get next sp "iteration_index" (PInt next)) by set_solver.
  rewrite (node_metadata_get next sp "iteration_phase" (PStr (spec_phase sp))) by set_solver.
  simpl. rewrite bool_decide_true by done.
  destruct (Z.ltb_spec 0 next), (Z.ltb_spec 0 (spec_sequence sp)); try lia.
  split_and!; try done. unfold runnable. rewrite Hk. by vm_compute.
Qed.

(** ** Adding them *)

Lemma add_next_iteration_node_spec now next p sp q : keyed p →
  add_next_iteration_node now next p sp = Ok q →
  ∃ n, sprint_node p next sp n ∧ depends_on n = [] ∧ node_wf n ∧ post_init n = Ok n ∧
    spec_node sp ∉ dkeys (nodes p) ∧ q = set_nodes (nodes p ++ [(spec_node sp, n)]) p ∧ keyed q.
Proof.
  intros Hk (n & Hn & H)%result_bind_ok. apply next_iteration_node_spec in Hn as (Hn & Hd & Hwf & Hp).
  destruct (add_node n p) as [q' [[]|]] eqn:Ha; [|done]. injection H as ->.
  apply add_node_ok in Ha as (Hnew & _ & _ & _ & ->). rewrite (sn_id _ _ _ _ Hn) in *.
  exists n. split_and!; try done; [by rewrite dset_new|].
  eapply keyed_dset; [exact Hk|exact Hwf|]. by rewrite (sn_id _ _ _ _ Hn).
Qed.
Lemma add_nodes_spec now next sps : ∀ p q, keyed p → add_nodes now next p sps = Ok q →
  keyed q ∧ ident q = ident p ∧ goal_id q = goal_id p ∧
  dkeys (nodes q) = dkeys (nodes p) ++ (spec_node <$> sps) ∧
  (∀ k, k ∉ spec_node <$> sps → dget k (nodes q) = dget k (nodes p)) ∧
  (∀ sp, sp ∈ sps → ∃ n, dget (spec_node sp) (nodes q) = Some n ∧ sprint_node p next sp n ∧
     depends_on n = [] ∧ post_init n = Ok n).
Proof.
  induction sps as [|sp sps IH]; intros p q Hk H.
  { simpl in H. injection H as ->. rewrite app_nil_r. split_and!; try done. by intros sp ?%elem_of_nil. }
  change (add_nodes now next p (sp :: sps)) with
    (p' ← add_next_iteration_node now next p sp; add_nodes now next p' sps) in H.
  apply result_bind_ok in H as (p1 & H1 & H2).
  destruct (add_next_iteration_node_spec now next p sp p1 Hk H1) as (n & Hn & Hd & Hwf & Hp & Hnew & Hp1 & Hk1).
  assert (∀ k, dget k (nodes p1) = if decide (spec_node sp = k) then Some n else dget k (nodes p)) as Hget.
  { intros k. rewrite Hp1. simpl. rewrite <-(dset_new (spec_node sp) n (nodes p) Hnew). apply dget_dset. }
  assert (dkeys (nodes p1) = dkeys (nodes p) ++ [spec_node sp]) as Hkeys.
  { rewrite Hp1. simpl. unfold dkeys. by rewrite fmap_app. }
  destruct (IH p1 q Hk1 H2) as (Hkq & Hident & Hgoal & Hdk & Hold & Hall).
  assert (spec_node sp ∉ spec_node <$> sps) as Hnot.
  { pose proof (keyed_dict _ Hkq) as Hnd. unfold dict_wf in Hnd. rewrite Hdk, Hkeys in Hnd.
    apply NoDup_app in Hnd as (_ & Hnd & _). apply Hnd. set_solver. }
  assert (ident p1 = ident p ∧ goal_id p1 = goal_id p) as [Hi1 Hg1] by (by rewrite Hp1).
  split_and!; [done|congruence|congruence| | |].
  - by rewrite Hdk, Hkeys, fmap_cons, <-app_assoc.
  - intros k. rewrite fmap_cons. intros [Hne Hkn]%not_elem_of_cons. rewrite Hold, Hget, decide_False; done.
  - intros sp' [->|Hsp']%elem_of_cons.
    + exists n. rewrite Hold, Hget, decide_True by done. done.
    + destruct (Hall sp' Hsp') as (n' & Hn' & [] & ? & ?). exists n'. split_and!; try done.
      constructor; try done; congruence.
Qed.

(** ** Linking them *)

Lemma link_node_spec now ts p sp q : keyed p → link_node now ts p sp = Ok q →
  ∃ n, dget (spec_node sp) (nodes p) = Some n ∧
    nodes q = dset (spec_node sp) (set_depends_on (spec_dependencies ts sp) n) (nodes p) ∧
    ident q = ident p ∧ goal_id q = goal_id p ∧ keyed q.
Proof.
  intros Hk (n & Hn & H)%result_bind_ok. apply result_bind_ok in H as (n' & Hn' & H).
  destruct (dget (spec_node sp) (nodes p)) as [m|] eqn:Hm; [|done]. injection Hn as ->.
  unfold in_node in Hn'. destruct (post_init _) as [n1|] eqn:Hp; [|done]. injection Hn' as ->.
  apply post_init_ok in Hp as [-> Hwf]; [|apply dedup_NoDup].
  destruct (replace_node _ now p) as [q' [[]|]] eqn:Hr; [|done]. injection H as ->.
  apply replace_node_ok in Hr as [_ ->]. pose proof (keyed_id _ Hk _ _ Hm) as Hid.
  exists n. split; [done|]. cbn [nodes ident goal_id].
  change (id (set_depends_on (spec_dependencies ts sp) n)) with (id n). rewrite Hid.
  do 3 (split; [done|]). eapply keyed_dset; [exact Hk|exact Hwf|]. simpl. by rewrite Hid.
Qed.
Lemma link_nodes_spec now ts sps : ∀ p q, keyed p → NoDup (spec_node <$> sps) →
  link_nodes now ts p sps = Ok q →
  keyed q ∧ ident q = ident p ∧ goal_id q = goal_id p ∧ dkeys (nodes q) = dkeys (nodes p) ∧
  (∀ k, k ∉ spec_node <$> sps → dget k (nodes q) = dget k (nodes p)) ∧
  (∀ sp, sp ∈ sps → ∃ n, dget (spec_node sp) (nodes p) = Some n ∧
     dget (spec_node sp) (nodes q) = Some (set_depends_on (spec_dependencies ts sp) n)).
Proof.
  induction sps as [|sp sps IH]; intros p q Hk Hnd H.
  { simpl in H. injection H as ->. split_and!; try done. by intros sp ?%elem_of_nil. }
  change (link_nodes now ts p (sp :: sps)) with
    (p' ← link_node now ts p sp; link_nodes now ts p' sps) in H.
  apply result_bind_ok in H as (p1 & H1 & H2). rewrite fmap_cons in Hnd. apply NoDup_cons in Hnd as [Hnot Hnd].
  destruct (link_node_spec now ts p sp p1 Hk H1) as (n & Hn & Hp1 & Hi1 & Hg1 & Hk1).
  destruct (IH p1 q Hk1 Hnd H2) as (Hkq & Hident & Hgoal & Hdk & Hold & Hall).
  assert (spec_node sp ∈ dkeys (nodes p)) as Hin by (apply dget_is_Some_keys; eauto).
  split_and!; [done|congruence|congruence| | |].
  - by rewrite Hdk, Hp1, dkeys_dset_old.
  - intros k. rewrite fmap_cons. intros [Hne Hkn]%not_elem_of_cons. by rewrite Hold, Hp1, dget_dset_ne.
  - intros sp' [->|Hsp']%elem_of_cons.
    + exists n. by rewrite Hold, Hp1, dget_dset_eq.
    + destruct (Hall sp' Hsp') as (n' & Hn' & Hq). exists n'. split; [|done].
      rewrite Hp1, dget_dset_ne in Hn'; [done|]. intros E. apply Hnot. rewrite E. by apply list_elem_of_fmap_2.
Qed.

(** ** The goal's metadata *)

Lemma goal_node_ok p g : keyed p → goal_node p = Ok g ↔ dget (goal_id p) (nodes p) = Some g.
Proof. unfold goal_node. destruct (dget _ _); simpl; naive_solver. Qed.
Lemma goal_with_wf now ups g : node_wf g → node_wf (goal_with now ups g).
Proof. by intros [? ? ? ?]. Qed.
Lemma replace_goal_spec now st ups p q : keyed p → replace_goal_loop_metadata now st ups p = Ok q →
  ∃ g, goal_node p = Ok g ∧ nodes q = dset (goal_id p) (goal_with now ups g) (nodes p) ∧
    ident q = ident p ∧ goal_id q = goal_id p ∧ status q = st ∧ keyed q ∧
    dkeys (nodes q) = dkeys (nodes p).
Proof.
  intros Hk (g & Hg & H)%result_bind_ok. destruct (goal_node p) as [g'|] eqn:Hgn; [|done].
  injection Hg as ->. injection H as <-. exists g. pose proof Hgn as Hd. apply goal_node_ok in Hd; [|done].
  pose proof (keyed_id _ Hk _ _ Hd) as Hid.
  assert (goal_id p ∈ dkeys (nodes p)) as Hin by (apply dget_is_Some_keys; eauto).
  assert (nodes (put_node now (goal_with now ups g) p) = dset (goal_id p) (goal_with now ups g) (nodes p)) as Hn.
  { rewrite put_node_nodes; simpl; by rewrite Hid. }
  unfold with_status. simpl. rewrite Hn. unfold put_node, replace_node; unfold_M. simpl. rewrite Hid.
  apply dmem_true in Hin as Hm. rewrite Hm. simpl. split_and!; try done.
  - eapply keyed_dset; [exact Hk|by apply (goal_with_wf now ups), (keyed_node _ Hk _ _ Hd)|]. simpl. by rewrite Hid.
  - by apply dkeys_dset_old.
Qed.

(** ** The whole sprint *)

Notation append_next_iteration :=
  (append_next_iteration uuid planner_node_metadata infer_write_set default_acceptance_criteria).

Lemma append_spec now v next limit p q : keyed p → append_next_iteration now v next limit p = Ok q →
  let sps := task_specs (next_tasks v) in
  keyed q ∧ status q = ACTIVE ∧ ident q = ident p ∧ goal_id q = goal_id p ∧
  dkeys (nodes q) = dkeys (nodes p) ++ (spec_node <$> sps) ∧
  (∃ g, dget (goal_id p) (nodes p) = Some g ∧
     dget (goal_id p) (nodes q) = Some (goal_with now (continued_entries (goal_loop g) v next limit) g)) ∧
  (∀ k, k ≠ goal_id p → k ∉ spec_node <$> sps → dget k (nodes q) = dget k (nodes p)) ∧
  (∀ sp, sp ∈ sps → ∃ n, dget (spec_node sp) (nodes q) = Some n ∧ sprint_node p next sp n ∧
     depends_on n = spec_dependencies (next_tasks v) sp).
Proof.
  intros Hk (g & Hg & H)%result_bind_ok sps. destruct (goal_node p) as [g'|] eqn:Hgn; [|done]. injection Hg as ->.
  apply goal_node_ok in Hgn; [|done]. apply result_bind_ok in H as (p1 & H1 & H).
  apply result_bind_ok in H as (p2 & H2 & H3).
  destruct (add_nodes_spec now next _ p p1 Hk H1) as (Hk1 & Hi1 & Hg1 & Hd1 & Ho1 & Hn1).
  pose proof (keyed_dict _ Hk1) as Hnd. unfold dict_wf in Hnd. rewrite Hd1 in Hnd.
  apply NoDup_app in Hnd as (_ & Hdisj & Hnd).
  destruct (link_nodes_spec now _ _ p1 p2 Hk1 Hnd H2) as (Hk2 & Hi2 & Hg2 & Hd2 & Ho2 & Hn2).
  destruct (replace_goal_spec now ACTIVE _ p2 q Hk2 H3) as (g2 & Hgn2 & Hn & Hi & Hgq & Hs & Hkq & Hdq).
  assert (goal_id p ∉ spec_node <$> sps) as Hgoal by (apply Hdisj, dget_is_Some_keys; eauto).
  apply goal_node_ok in Hgn2; [|done]. rewrite Hg2, Hg1, Ho2, Ho1, Hgn in Hgn2 by done. injection Hgn2 as <-.
  rewrite Hg2, Hg1 in Hn.
  split_and!; [done|done|congruence|congruence|by rewrite Hdq, Hd2| | |].
  - exists g. by rewrite Hn, dget_dset_eq.
  - intros k Hkg Hks. by rewrite Hn, dget_dset_ne, Ho2, Ho1.
  - intros sp Hsp. destruct (Hn2 sp Hsp) as (n & Hna & Hnb), (Hn1 sp Hsp) as (n' & Hna' & [] & _).
    rewrite Hna in Hna'. injection Hna' as <-.
    exists (set_depends_on (spec_dependencies (next_tasks v) sp) n). split_and!; [|by constructor|done].
    rewrite Hn, dget_dset_ne; [done|]. intros E. apply Hgoal. rewrite E. by apply list_elem_of_fmap_2.
Qed.

(** [x] comes before [y]: in an earlier phase, or earlier in the same. *)
Definition sooner (x y : task_spec) : Prop :=
  phase_index (spec_phase x) < phase_index (spec_phase y) ∨
  phase_index (spec_phase x) = phase_index (spec_phase y) ∧ (spec_sequence x < spec_sequence y)%Z.
#[local] Instance sooner_trans : Transitive sooner.
Proof. unfold sooner. intros x y z. lia. Qed.
(** Dependencies are nodes of the plan. *)
Definition deps_closed (p : Plan) : Prop :=
  ∀ k n d, dget k (nodes p) = Some n → d ∈ depends_on n → d ∈ dkeys (nodes p).
(** A node of the new sprint, waiting to be dispatched. *)
Definition planned (p : Plan) (next : Z) (sp : task_spec) (n : PlanNode) : Prop :=
  kind n = TASK ∧ parent_id n = Some (goal_id p) ∧ intent n = TODO ∧ execution n = IDLE ∧
  current_attempt_id n = None ∧ node_iteration_index n = next ∧
  node_iteration_phase n = spec_phase sp ∧ node_sequence n = spec_sequence sp.

Lemma sprint_planned p next ts sp n : (0 < next)%Z → sp ∈ task_specs ts → sprint_node p next sp n →
  planned p next sp n.
Proof.
  intros Hnext Hsp Hn. destruct (spec_sequences uuid _ _ Hsp) as (Hs & Hph & _).
  destruct (sprint_node_reads p next sp n Hn Hnext Hs) as (? & ? & ? & _); [rewrite Hph; apply task_phase_known|].
  destruct Hn as [_ _ ? ? (? & ? & ?) _ _]. by split_and!.
Qed.
(** The graph of the old nodes and that of the new ones, where edges follow
    [sooner], make an acyclic one. *)
Lemma appended_acyclic p q sps : keyed p → keyed q → deps_closed p → deps_acyclic p →
  dkeys (nodes q) = dkeys (nodes p) ++ (spec_node <$> sps) →
  (∀ k, k ∈ dkeys (nodes p) → depends_on <$> dget k (nodes q) = depends_on <$> dget k (nodes p)) →
  (∀ sp, sp ∈ sps → ∃ n, dget (spec_node sp) (nodes q) = Some n ∧
     ∀ d, d ∈ depends_on n → ∃ sp', sp' ∈ sps ∧ d = spec_node sp' ∧ sooner sp' sp) →
  deps_acyclic q.
Proof.
  intros Hkp Hkq Hclosed Hac Hkeys Hold Hnew.
  assert (∀ x y, dep_edge q x y →
    (y ∈ dkeys (nodes p) → dep_edge p x y ∧ x ∈ dkeys (nodes p)) ∧
    (∀ sp, sp ∈ sps → y = spec_node sp → ∃ sp', sp' ∈ sps ∧ x = spec_node sp' ∧ sooner sp' sp)) as Hedge.
  { intros x y [Hy Hx]. unfold plan_preds in Hx. split.
    - intros Hyp. specialize (Hold y Hyp). pose proof Hyp as [n Hn]%dget_is_Some_keys. rewrite Hn in Hold.
      destruct (dget y (nodes q)) as [n'|]; [|done]. apply list_elem_of_filter in Hx as [Hxq Hx].
      simpl in Hold. injection Hold as Hold. rewrite Hold in Hx. pose proof (Hclosed _ _ _ Hn Hx) as Hxp.
      split; [|done]. split; [done|]. unfold plan_preds. rewrite Hn. by apply list_elem_of_filter.
    - intros sp Hsp ->. destruct (Hnew sp Hsp) as (n & Hn & Hd). rewrite Hn in Hx.
      apply list_elem_of_filter in Hx as [_ Hx]. by apply Hd. }
  assert (∀ x y, tc (dep_edge q) x y →
    (y ∈ dkeys (nodes p) → tc (dep_edge p) x y ∧ x ∈ dkeys (nodes p)) ∧
    (∀ sp, sp ∈ sps → y = spec_node sp → ∃ sp', sp' ∈ sps ∧ x = spec_node sp' ∧ sooner sp' sp)) as Hpath.
  { intros x y. induction 1 as [x y Hxy|x y z Hxy Hyz [IH1 IH2]].
    - destruct (Hedge x y Hxy) as [H1 H2]. split; [|done]. intros Hy.
      destruct (H1 Hy). split; [by apply tc_once|done].
    - destruct (Hedge x y Hxy) as [H1 H2]. split.
      + intros Hz. destruct (IH1 Hz) as [Hp Hy]. destruct (H1 Hy). split; [by eapply tc_l|done].
      + intros sp Hsp Hz. destruct (IH2 sp Hsp Hz) as (sp1 & Hsp1 & Hy & Hs1).
        destruct (H2 sp1 Hsp1 Hy) as (sp2 & Hsp2 & Hx & Hs2). exists sp2. split_and!; [done|done|].
        by transitivity sp1. }
  intros x Hx. destruct (Hpath x x Hx) as [H1 H2]. pose proof (kedge_tc_target _ _ _ _ Hx) as Hin.
  pose proof (keyed_dict _ Hkq) as Hnd. unfold dict_wf in Hnd. rewrite Hkeys in Hin, Hnd.
  apply elem_of_app in Hin as [Hin|Hin]; [by eapply Hac, H1|].
  apply NoDup_app in Hnd as (_ & _ & Hnd). apply list_elem_of_fmap in Hin as (sp & E & Hsp).
  destruct (H2 sp Hsp E) as (sp' & Hsp' & E' & Hs).
  assert (sp' = sp) as -> by (apply (NoDup_fmap_elem spec_node sps); congruence).
  unfold sooner in Hs. lia.
Qed.

(** C24. The sprint that is appended.  The plan keeps its nodes, those of the
    sprint follow, one for each task and in that order, as idle TODO tasks of
    the goal in the next iteration.  Each depends on every node of the earlier
    phases, and otherwise only on earlier tasks of its own phase, so the plan
    stays acyclic. *)
Theorem next_sprint_spec now v next limit p q : keyed p → (0 < next)%Z →
  append_next_iteration now v next limit p = Ok q →
  let sps := task_specs (next_tasks v) in
  keyed q ∧ status q = ACTIVE ∧ dkeys (nodes q) = dkeys (nodes p) ++ (spec_node <$> sps) ∧
  (∀ k n, dget k (nodes p) = Some n → k ≠ goal_id p → dget k (nodes q) = Some n) ∧
  (∀ i t, next_tasks v !! i = Some t → ∃ sp, sps !! i = Some sp ∧ spec_task sp = t ∧
     spec_phase sp = next_iteration_task_phase t (Z.of_nat (S i)) ∧
     ∃ n, dget (spec_node sp) (nodes q) = Some n ∧ planned p next sp n ∧
       (∀ sp', sp' ∈ sps → phase_index (spec_phase sp') < phase_index (spec_phase sp) →
          spec_node sp' ∈ depends_on n) ∧
       (∀ d, d ∈ depends_on n → ∃ sp', sp' ∈ sps ∧ d = spec_node sp' ∧ sooner sp' sp)) ∧
  (deps_closed p → deps_acyclic p → deps_acyclic q).
Proof.
  intros Hk Hnext H sps. destruct (append_spec now v next limit p q Hk H) as (Hkq & Hs & _ & _ & Hd & Hg & Hold & Hnew).
  fold sps in Hd, Hold, Hnew. pose proof (keyed_dict _ Hkq) as Hnd. unfold dict_wf in Hnd. rewrite Hd in Hnd.
  apply NoDup_app in Hnd as (_ & Hdisj & _).
  assert (∀ k n, dget k (nodes p) = Some n → k ≠ goal_id p → dget k (nodes q) = Some n) as Hkeep.
  { intros k n Hn Hne. rewrite Hold; [done|done|]. apply Hdisj, dget_is_Some_keys. eauto. }
  split_and!; [done..| |].
  - intros i t Hi. destruct (specs_from_lookup uuid (id_map uuid (next_tasks v)).1 _ (id_map uuid (next_tasks v)).2 1 i t Hi)
      as (sp & Hsp & Ht & Hseq). exists sp. split_and!; [done|done| |].
    { destruct (spec_sequences uuid (next_tasks v) sp) as (_ & -> & _); [by eapply list_elem_of_lookup_2|].
      rewrite Ht. f_equal. lia. }
    apply list_elem_of_lookup_2 in Hsp. destruct (Hnew sp Hsp) as (n & Hn & Hsn & Hdep).
    exists n. split_and!; [done|by eapply sprint_planned| |].
    + intros sp' Hsp' Hlt. rewrite Hdep. by apply spec_dependencies_barrier.
    + intros d. rewrite Hdep. by apply spec_dependencies_spec.
  - intros Hclosed Hac. eapply (appended_acyclic p q sps); try done.
    + intros k [n Hn]%dget_is_Some_keys. destruct (decide (k = goal_id p)) as [->|Hne].
      * destruct Hg as (g & -> & ->). done.
      * by rewrite (Hkeep k n Hn Hne), Hn.
    + intros sp Hsp. destruct (Hnew sp Hsp) as (n & Hn & _ & Hdep). exists n. split; [done|].
      intros d. rewrite Hdep. by apply spec_dependencies_spec.
Qed.

(** ** When it can be appended *)

Lemma short_title d : d ≠ "" → strip d = d → ∃ a s, String.substring 0 120 d = String a s ∧ is_space a = false.
Proof.
  intros Hne Hstrip. destruct d as [|a s]; [done|]. exists a, (String.substring 0 119 s). split; [done|].
  destruct (is_space a) eqn:Ha; [|done]. exfalso.
  assert (∀ s, String.length (rstrip s) ≤ String.length s) as Hr.
  { intros t. induction t as [|b t IH]; [done|]. simpl. destruct (rstrip t) eqn:E; [destruct (is_space b); simpl; lia|].
    simpl in *. lia. }
  assert (∀ s, String.length (lstrip s) ≤ String.length s) as Hl.
  { intros t. induction t as [|b t IH]; [done|]. simpl. destruct (is_space b); simpl; lia. }
  apply (f_equal String.length) in Hstrip. unfold strip in Hstrip. simpl (lstrip _) in Hstrip. rewrite Ha in Hstrip.
  pose proof (Hr (lstrip s)). pose proof (Hl s). simpl in Hstrip. lia.
Qed.
Lemma next_iteration_node_total now p next sp : task_wf (spec_task sp) → (0 <= spec_sequence sp)%Z →
  ident p ≠ "" → spec_node sp ≠ "" → ∃ n, next_iteration_node now p next sp = Ok n.
Proof.
  intros [_ [Hd Hs] _ _ _] Hseq Hp Hn. unfold IterationLoop.next_iteration_node.
  destruct (short_title _ Hd Hs) as (a & s & -> & Ha).
  assert (∃ caps, match target_subagent (spec_task sp) with
          | Some a => if truthy a then c ← in_node (new_capability ("agent:" +:+ a) 2); Ok [c] else Ok []
          | None => Ok []
          end = Ok (E := loop_error) caps) as [caps ->].
  { destruct (target_subagent (spec_task sp)) as [b|]; [|eauto]. destruct (truthy b); [|eauto]. by eexists. }
  simpl. unfold checkpoint_post_init.
  cbn [feature_id sequence test_commands expected_artifacts feature_title init_command worktree_path branch_name
       base_ref commit_ref handoff_notes].
  assert (∀ s, truthy (strip ("iteration-" +:+ s)) = true) as Hid.
  { intros t. apply truthy_true, strip_keeps. done. }
  rewrite !Hid. simpl negb. cbv iota. rewrite (bool_decide_false (spec_sequence sp < 0)%Z) by lia.
  simpl. unfold post_init. simpl. rewrite (proj2 (truthy_true (ident p))) by done. simpl.
  rewrite (proj2 (truthy_true _)) by (by apply strip_keeps). simpl.
  rewrite (bool_decide_false (_ < 0)%Z) by lia. unfold new_node_id.
  rewrite (proj2 (truthy_true (spec_node sp))) by done. simpl. by eexists.
Qed.

Notation new_id := (new_id uuid).
Notation id_map := (id_map uuid).

Lemma id_map_fold ts : ∀ m k,
  (∀ key, is_Some (dget key m) ∨ (∃ t, t ∈ ts ∧ task_id t = key ∧ key ≠ "") →
     is_Some (dget key (foldl (λ '(m, k) t, if truthy (task_id t) then (dset (task_id t) (new_id k) m, S k) else (m, k))
                          (m, k) ts).1)).
Proof.
  induction ts as [|t ts IH]; intros m k key H; simpl.
  - destruct H as [?|(t & ?%elem_of_nil & _)]; done.
  - destruct (truthy (task_id t)) eqn:Ht; apply IH.
    + destruct H as [H|(t' & [->|Hin]%elem_of_cons & Hid & Hne)].
      * left. rewrite dget_dset. by case_decide.
      * left. rewrite dget_dset, decide_True by done. eauto.
      * right. eauto.
    + destruct H as [H|(t' & [->|Hin]%elem_of_cons & Hid & Hne)]; [by left| |right; eauto].
      rewrite <-Hid in Hne. by apply truthy_true in Hne; rewrite Ht in Hne.
Qed.
Lemma id_map_known ts t : t ∈ ts → task_id t ≠ "" → is_Some (dget (task_id t) (id_map ts).1).
Proof. intros. apply id_map_fold. right. eauto. Qed.
Lemma id_map_distinct ts : ∀ m k, NoDup (dkeys m ++ (task_id <$> ts)) → (∀ t, t ∈ ts → task_id t ≠ "") →
  (foldl (λ '(m, k) t, if truthy (task_id t) then (dset (task_id t) (new_id k) m, S k) else (m, k)) (m, k) ts).1 =
  m ++ imap (λ i t, (task_id t, new_id (k + i))) ts.
Proof.
  induction ts as [|t ts IH]; intros m k Hnd Hne; simpl; [by rewrite app_nil_r|].
  rewrite (proj2 (truthy_true (task_id t))) by (apply Hne; left).
  rewrite fmap_cons in Hnd.
  assert (task_id t ∉ dkeys m) as Hnew.
  { apply NoDup_app in Hnd as (_ & Hd & _). intros Hin. apply (Hd _ Hin). left. }
  rewrite dset_new by done. rewrite IH.
  - rewrite <-app_assoc. simpl. f_equal. rewrite Nat.add_0_r. f_equal. apply imap_ext. intros j x _. simpl.
    do 2 f_equal. lia.
  - unfold dkeys in *. rewrite fmap_app. simpl. rewrite <-app_assoc. done.
  - intros x Hx. apply Hne. by right.
Qed.
(** With distinct ids the nodes are the first drawn, in order. *)
Lemma spec_nodes_drawn ts : NoDup (task_id <$> ts) → (∀ t, t ∈ ts → task_id t ≠ "") →
  spec_node <$> task_specs ts = imap (λ i _, new_id i) ts.
Proof.
  intros Hnd Hne. apply list_eq. intros i. rewrite list_lookup_fmap, list_lookup_imap.
  destruct (ts !! i) as [t|] eqn:Hi; simpl.
  - destruct (specs_from_lookup uuid (id_map ts).1 ts (id_map ts).2 1 i t Hi) as (sp & Hsp & Ht & _).
    unfold IterationLoop.task_specs. rewrite Hsp. simpl. f_equal. apply list_elem_of_lookup_2 in Hsp.
    apply specs_from_elem in Hsp as (_ & _ & _ & _ & Hx & _). apply Hx. rewrite Ht.
    unfold IterationLoop.id_map. rewrite (id_map_distinct ts [] 0) by done. simpl. apply elem_of_dget.
    + unfold dict_wf, dkeys. erewrite (list_eq (fst <$> _) (task_id <$> ts)); [done|]. intros j.
      rewrite !list_lookup_fmap, list_lookup_imap. by destruct (ts !! j).
    + apply list_elem_of_lookup. exists i. by rewrite list_lookup_imap, Hi.
  - rewrite lookup_ge_None in Hi. unfold IterationLoop.task_specs.
    assert (specs_from uuid (id_map ts).1 (id_map ts).2 1 ts !! i = None) as ->; [|done].
    apply lookup_ge_None. by rewrite specs_from_length.
Qed.

Lemma add_nodes_total now next sps : ∀ p, keyed p → NoDup (spec_node <$> sps) →
  (∀ sp, sp ∈ sps → spec_node sp ∉ dkeys (nodes p) ∧ spec_node sp ≠ "" ∧ task_wf (spec_task sp) ∧
     (0 <= spec_sequence sp)%Z) →
  ident p ≠ "" → goal_id p ∈ dkeys (nodes p) → ∃ q, add_nodes now next p sps = Ok q.
Proof.
  induction sps as [|sp sps IH]; intros p Hk Hnd Hsps Hident Hgoal; [by exists p|].
  rewrite fmap_cons in Hnd. apply NoDup_cons in Hnd as [Hnot Hnd].
  destruct (Hsps sp) as (Hnew & Hne & Hwf & Hseq); [left|].
  destruct (next_iteration_node_total now p next sp Hwf Hseq Hident Hne) as [n Hn].
  assert (∃ q, add_next_iteration_node now next p sp = Ok q) as [p1 H1].
  { unfold IterationLoop.add_next_iteration_node. rewrite Hn. simpl.
    apply next_iteration_node_spec in Hn as (Hn & Hd & _ & _). destruct Hn as [Hid Hpl Hpar Hkd _ _ _].
    assert (add_node n p = (set_nodes (dset (id n) n (nodes p)) p, Ok tt)) as ->; [|by eexists].
    apply add_node_ok. rewrite Hid, Hkd. split_and!; try done; [by eexists|].
    unfold missing_dep. by rewrite Hd. }
  destruct (add_next_iteration_node_spec now next p sp p1 Hk H1) as (n' & _ & _ & _ & _ & _ & Hp1 & Hk1).
  destruct (IH p1 Hk1 Hnd) as [q Hq].
  - intros sp' Hsp'. destruct (Hsps sp') as (? & ? & ? & ?); [by right|]. split_and!; try done.
    rewrite Hp1. simpl. unfold dkeys. rewrite fmap_app. simpl. rewrite elem_of_app, list_elem_of_singleton.
    intros [?|E]; [done|]. apply Hnot. rewrite <-E. by apply list_elem_of_fmap_2.
  - by rewrite Hp1.
  - rewrite Hp1. simpl. unfold dkeys. rewrite fmap_app, elem_of_app. by left.
  - exists q. change (add_nodes now next p (sp :: sps)) with
      (p' ← add_next_iteration_node now next p sp; add_nodes now next p' sps).
    by rewrite H1.
Qed.
Lemma link_nodes_total now ts sps : ∀ p, keyed p → NoDup (spec_node <$> sps) →
  (∀ sp, sp ∈ sps → (∃ n, dget (spec_node sp) (nodes p) = Some n ∧ post_init n = Ok n) ∧
     spec_node sp ∉ spec_dependencies ts sp) →
  ∃ q, link_nodes now ts p sps = Ok q.
Proof.
  induction sps as [|sp sps IH]; intros p Hk Hnd Hsps; [by exists p|].
  rewrite fmap_cons in Hnd. apply NoDup_cons in Hnd as [Hnot Hnd].
  destruct (Hsps sp) as [(n & Hn & Hp) Hself]; [left|]. pose proof (keyed_id _ Hk _ _ Hn) as Hid.
  assert (∃ q, link_node now ts p sp = Ok q) as [p1 H1].
  { unfold IterationLoop.link_node. rewrite Hn. simpl.
    rewrite (post_init_same n (set_depends_on (spec_dependencies ts sp) n)) by (done || by rewrite Hid). simpl.
    erewrite (proj2 (replace_node_ok _ _ _ _)); [by eexists|]. split; [|reflexivity].
    simpl. rewrite Hid. apply dget_is_Some_keys. eauto. }
  destruct (link_node_spec now ts p sp p1 Hk H1) as (n1 & _ & Hp1 & _ & _ & Hk1).
  destruct (IH p1 Hk1 Hnd) as [q Hq].
  - intros sp' Hsp'. destruct (Hsps sp') as [(n' & Hn' & ?) ?]; [by right|]. split; [|done]. exists n'.
    split; [|done]. rewrite Hp1, dget_dset_ne; [done|]. intros E. apply Hnot. rewrite E. by apply list_elem_of_fmap_2.
  - exists q. change (link_nodes now ts p (sp :: sps)) with
      (p' ← link_node now ts p sp; link_nodes now ts p' sps). by rewrite H1.
Qed.

(** C29. A sprint of proper tasks is appended exactly when their ids differ:
    with two tasks of one id, which the reviewer's parser lets through, both
    get the same node and adding the second raises. *)
Theorem sprint_appended_iff now v next limit p g : keyed p → goal_node p = Ok g → ident p ≠ "" →
  (∀ i j, uuid i = uuid j → i = j) → (∀ k, new_id k ∉ dkeys (nodes p)) →
  Forall task_wf (next_tasks v) →
  is_ok (append_next_iteration now v next limit p) = true ↔ NoDup (task_id <$> next_tasks v).
Proof.
  intros Hk Hg Hident Hinj Hfresh Hwf. rewrite Forall_forall in Hwf. set (ts := next_tasks v) in *.
  assert (∀ t, t ∈ ts → task_id t ≠ "") as Hids by (intros t Ht; apply Hwf, Ht).
  split.
  - destruct (append_next_iteration now v next limit p) as [q|] eqn:E; [|done]. intros _.
    destruct (append_spec now v next limit p q Hk E) as (Hkq & _ & _ & _ & Hd & _). fold ts in Hd.
    pose proof (keyed_dict _ Hkq) as Hnd. unfold dict_wf in Hnd. rewrite Hd in Hnd.
    apply NoDup_app in Hnd as (_ & _ & Hnd). apply NoDup_alt. intros i j key Hi Hj.
    rewrite list_lookup_fmap in Hi, Hj.
    destruct (ts !! i) as [t|] eqn:Hti; [|done]. destruct (ts !! j) as [t'|] eqn:Htj; [|done].
    simpl in Hi, Hj. injection Hi as <-. injection Hj as Hj.
    destruct (specs_from_lookup uuid (id_map ts).1 ts (id_map ts).2 1 i t Hti) as (sp & Hsp & Ht & _).
    destruct (specs_from_lookup uuid (id_map ts).1 ts (id_map ts).2 1 j t' Htj) as (sp' & Hsp' & Ht' & _).
    apply list_elem_of_lookup_2 in Hti. destruct (id_map_known ts t Hti (Hids _ Hti)) as [x Hx].
    eapply (NoDup_lookup _ i j x Hnd); rewrite list_lookup_fmap; unfold IterationLoop.task_specs.
    + rewrite Hsp. simpl. f_equal. apply list_elem_of_lookup_2 in Hsp.
      apply specs_from_elem in Hsp as (_ & _ & _ & _ & Hn & _). apply Hn. by rewrite Ht.
    + rewrite Hsp'. simpl. f_equal. apply list_elem_of_lookup_2 in Hsp'.
      apply specs_from_elem in Hsp' as (_ & _ & _ & _ & Hn & _). apply Hn. by rewrite Ht', Hj.
  - intros Hnd. pose proof (spec_nodes_drawn ts Hnd Hids) as Hnodes.
    assert (NoDup (spec_node <$> task_specs ts)) as Hsnd.
    { rewrite Hnodes. apply NoDup_alt. intros i j x. rewrite !list_lookup_imap.
      destruct (ts !! i), (ts !! j); simpl; intros [= <-]; [|done]. intros [= E]. apply Hinj.
      unfold IterationLoop.new_id in E. by simplify_eq. }
    assert (∀ sp, sp ∈ task_specs ts → ∃ i, spec_node sp = new_id i) as Hdrawn.
    { intros sp Hsp. assert (spec_node sp ∈ spec_node <$> task_specs ts) as Hin by by apply list_elem_of_fmap_2.
      rewrite Hnodes in Hin. apply list_elem_of_lookup in Hin as [i Hi]. rewrite list_lookup_imap in Hi.
      destruct (ts !! i); simplify_eq/=. eauto. }
    unfold IterationLoop.append_next_iteration. rewrite Hg. simpl. fold ts.
    pose proof Hg as Hgd. apply goal_node_ok in Hgd; [|done].
    destruct (add_nodes_total now next (task_specs ts) p Hk Hsnd) as [p1 H1]; [|done| |].
    { intros sp Hsp. destruct (Hdrawn sp Hsp) as [i Hi]. destruct (spec_sequences uuid ts sp Hsp) as (? & _ & Ht).
      rewrite Hi. split_and!; [apply Hfresh|done|by apply Hwf|lia]. }
    { apply dget_is_Some_keys. eauto. }
    rewrite H1. simpl.
    destruct (add_nodes_spec now next _ p p1 Hk H1) as (Hk1 & _ & Hg1 & Hd1 & Hold1 & Hn1).
    destruct (link_nodes_total now ts (task_specs ts) p1 Hk1 Hsnd) as [p2 H2].
    { intros sp Hsp. split; [destruct (Hn1 sp Hsp) as (n & ? & _ & _ & ?); eauto|].
      intros (sp' & Hsp' & E & Hs)%spec_dependencies_spec; [|done].
      assert (sp' = sp) as -> by (by apply (NoDup_fmap_elem spec_node (task_specs ts))).
      unfold sooner in Hs. lia. }
    rewrite H2. simpl. destruct (link_nodes_spec now ts _ p1 p2 Hk1 Hsnd H2) as (Hk2 & _ & Hg2 & Hd2 & _).
    unfold replace_goal_loop_metadata. destruct (goal_node p2) as [g2|] eqn:Hg2n; [done|]. exfalso.
    unfold goal_node in Hg2n. destruct (dget (goal_id p2) (nodes p2)) eqn:E; [done|].
    apply dget_None_keys in E. apply E. rewrite Hg2, Hg1, Hd2, Hd1. apply elem_of_app. left.
    apply dget_is_Some_keys. eauto.
Qed.
End append.

(** * How many sprints there are *)

Definition current_iteration (p : Plan) : Z := max_iteration (runnable_nodes p).
Definition plan_loop (p : Plan) : list (string * pyval) :=
  match goal_node p with Ok g => goal_loop g | Err _ => [] end.
Definition iteration_limit (raw : option string) (p : Plan) : Z := max_iterations raw (plan_loop p).

Lemma max_iteration_le ns k : (max_iteration ns <= k)%Z ↔ (1 <= k)%Z ∧ ∀ n, n ∈ ns → (node_iteration_index n <= k)%Z.
Proof.
  induction ns as [|n ns IH]; simpl; [split; [split; [lia|by intros ? ?%elem_of_nil]|lia]|].
  rewrite Z.max_lub_iff, IH. split.
  - intros (? & ? & H). split; [done|]. intros m [->|?]%elem_of_cons; auto.
  - intros [? H]. split_and!; [apply H; left|done|]. intros m Hm. apply H. by right.
Qed.
Lemma elem_of_runnable p n : keyed p → n ∈ runnable_nodes p ↔ dget (id n) (nodes p) = Some n ∧ runnable n = true.
Proof. intros Hk. unfold runnable_nodes. rewrite list_elem_of_filter, elem_of_dvals by done. tauto. Qed.
Lemma current_iteration_le p k : keyed p → (current_iteration p <= k)%Z ↔
  (1 <= k)%Z ∧ ∀ key n, dget key (nodes p) = Some n → runnable n = true → (node_iteration_index n <= k)%Z.
Proof.
  intros Hk. unfold current_iteration. rewrite max_iteration_le. split; intros [H1 H]; (split; [done|]).
  - intros key n Hn Hr. apply H. apply elem_of_runnable; [done|]. by rewrite (keyed_id _ Hk _ _ Hn).
  - intros n [Hn Hr]%elem_of_runnable; [|done]. eauto.
Qed.
(** The test for nodes of the next iteration never holds: the current one is
    the greatest. *)
Lemma no_next_iteration p : keyed p → has_iteration_nodes p (current_iteration p + 1) = false.
Proof.
  intros Hk. apply not_true_is_false. unfold has_iteration_nodes.
  rewrite existsb_exists. intros (n & Hn%list_elem_of_In & Hi%Z.eqb_eq).
  pose proof (proj1 (max_iteration_le (runnable_nodes p) (current_iteration p)) ltac:(done)) as [_ H].
  specialize (H n Hn). lia.
Qed.
Lemma goal_with_reads now ups g : runnable (goal_with now ups g) = runnable g ∧
  node_iteration_index (goal_with now ups g) = node_iteration_index g.
Proof.
  split; [done|]. unfold node_iteration_index, meta, goal_with. cbn [metadata set_updated_at set_metadata].
  by rewrite dget_or_dset, decide_False.
Qed.
Lemma plan_loop_goal p g now ups : dget (goal_id p) (nodes p) = Some (goal_with now ups g) →
  plan_loop p = update_all ups (goal_loop g).
Proof.
  intros H. unfold plan_loop, goal_node. rewrite H. simpl. unfold goal_loop, meta at 1, goal_with.
  cbn [metadata set_updated_at set_metadata]. by rewrite dget_or_dset, decide_True.
Qed.
Lemma limit_kept raw loop loop' : dget "max_iterations" loop' = Some (PInt (max_iterations raw loop)) →
  max_iterations raw loop' = max_iterations raw loop.
Proof.
  intros H. assert (1 <= max_iterations raw loop ∧ default ITERATION_LOOP_DEFAULT_MAX_ITERATIONS
    (match raw with None => None | Some s => int_of_string s end) <= max_iterations raw loop)%Z as [H1 H2].
  { unfold max_iterations. destruct raw as [s|], (positive_int _); simpl; try lia;
      destruct (int_of_string s); simpl; lia. }
  unfold max_iterations at 1. unfold dget_or. rewrite H. simpl.
  destruct (Z.ltb_spec 0 (max_iterations raw loop)); [|lia]. destruct raw as [s|]; simpl in H2; lia.
Qed.
Lemma continued_limit loop v next limit :
  dget "max_iterations" (update_all (continued_entries loop v next limit) loop) = Some (PInt limit).
Proof.
  unfold update_all, continued_entries. cbn [foldl fst snd].
  repeat (rewrite dget_dset; first [rewrite decide_False by done | rewrite decide_True by done]; try done).
Qed.

Lemma replace_goal_status now st ups p q : replace_goal_loop_metadata now st ups p = Ok q → status q = st.
Proof. intros (g & _ & H)%result_bind_ok. by injection H as <-. Qed.
(** The only way a completed plan goes on. *)
Lemma handle_active uuid pm ws crit env p q : keyed p →
  handle_completed_progress uuid pm ws crit env p = Ok q → status q = ACTIVE →
  ∃ v, append_next_iteration uuid pm ws crit (loop_now env) v (current_iteration p + 1)
         (iteration_limit (max_iterations_env env) p) p = Ok q ∧
    (current_iteration p < iteration_limit (max_iterations_env env) p)%Z ∧ next_tasks v ≠ [] ∧
    verdict v = continue_next_iteration ∧ Qle MIN_REVIEW_CONFIDENCE (review_confidence v).
Proof.
  intros Hk H Hs. unfold handle_completed_progress in H.
  destruct (negb _); [by injection H as <-|].
  apply result_bind_ok in H as (g & Hg & H). destruct (goal_node p) as [g'|] eqn:Hgn; [|done]. injection Hg as ->.
  fold (current_iteration p) in H.
  assert (plan_loop p = goal_loop g) as Hl by (unfold plan_loop; by rewrite Hgn). rewrite <-Hl in H.
  fold (iteration_limit (max_iterations_env env) p) in H.
  destruct (reviewer env) as [reviewed|]; [|case_bool_decide; [apply replace_goal_status in H; congruence|by injection H as <-]].
  case_bool_decide; [by injection H as <-|]. rewrite no_next_iteration in H by done.
  case_bool_decide; [apply replace_goal_status in H; congruence|].
  destruct (Z.leb_spec (iteration_limit (max_iterations_env env) p) (current_iteration p)) as [|Hlt];
    [apply replace_goal_status in H; congruence|].
  case_bool_decide; [apply replace_goal_status in H; congruence|].
  destruct (reviewed _ _ _) as [v0|]; [|done]. cbv zeta in H.
  set (v := clamp_iteration_verdict_tasks _ v0) in H.
  case_bool_decide as Hc; [apply replace_goal_status in H; congruence|].
  destruct (_ || _ || _) eqn:Hor; [apply replace_goal_status in H; congruence|]. split_bools.
  exists v. split_and!; [done|done|done| |by apply Qle_bool_iff].
  by destruct (verdict v).
Qed.
Lemma append_indices uuid pm ws crit now v limit p q : keyed p →
  append_next_iteration uuid pm ws crit now v (current_iteration p + 1) limit p = Ok q →
  ∀ sp, sp ∈ task_specs uuid (next_tasks v) → ∃ n, dget (spec_node sp) (nodes q) = Some n ∧
    node_iteration_index n = (current_iteration p + 1)%Z ∧ runnable n = true.
Proof.
  intros Hk H sp Hsp.
  destruct (append_spec uuid pm ws crit now v _ limit p q Hk H) as (_ & _ & _ & _ & _ & _ & _ & Hnew).
  pose proof (proj1 (current_iteration_le p _ Hk) ltac:(reflexivity)) as [H1 _].
  destruct (Hnew sp Hsp) as (n & Hn & Hsn & _). exists n. split; [done|].
  destruct (spec_sequences uuid _ _ Hsp) as (Hs & Hph & _).
  destruct (sprint_node_reads pm ws p _ sp n Hsn) as (? & _ & _ & ?); [lia|done| |done].
  rewrite Hph. apply task_phase_known.
Qed.
Lemma append_advances uuid pm ws crit now v limit p q : keyed p → next_tasks v ≠ [] →
  append_next_iteration uuid pm ws crit now v (current_iteration p + 1) limit p = Ok q →
  current_iteration q = (current_iteration p + 1)%Z.
Proof.
  intros Hk Hne H.
  destruct (append_spec uuid pm ws crit now v _ limit p q Hk H) as (Hkq & _ & _ & Hgid & _ & (g & Hg & Hgq) & Hold & Hnew).
  pose proof (proj1 (current_iteration_le p _ Hk) ltac:(reflexivity)) as [H1 Hp].
  pose proof (append_indices _ _ _ _ _ _ _ _ _ Hk H) as Hsp.
  apply Z.le_antisymm.
  - apply current_iteration_le; [done|]. split; [lia|]. intros k n Hn Hr.
    destruct (decide (k = goal_id p)) as [->|Hkg].
    + rewrite Hgq in Hn. injection Hn as <-. destruct (goal_with_reads now (continued_entries (goal_loop g) v (current_iteration p + 1) limit) g) as [E1 E2].
      rewrite E2. rewrite E1 in Hr. specialize (Hp _ _ Hg Hr). lia.
    + destruct (decide (k ∈ spec_node <$> task_specs uuid (next_tasks v))) as [(sp & -> & Hin)%list_elem_of_fmap|Hnot].
      * destruct (Hsp sp Hin) as (n' & Hn' & Hi & _). rewrite Hn' in Hn. injection Hn as <-. lia.
      * rewrite Hold in Hn by done. specialize (Hp _ _ Hn Hr). lia.
  - destruct (next_tasks v) as [|t ts] eqn:Ht; [done|].
    destruct (spec_of_task uuid (t :: ts) 1 t) as (sp & Hin & _); [by apply elem_of_numbered; exists 0|].
    destruct (Hsp sp Hin) as (n & Hn & Hi & Hr). rewrite <-Hi.
    pose proof (proj1 (current_iteration_le q _ Hkq) ltac:(reflexivity)) as [_ Hq]. eauto.
Qed.

(** What happens to a plan between two rounds: its nodes are worked on and
    others may be added, but no node leaves the sprint it is in, and nobody
    touches the limit that the goal carries. *)
Record between (p q : Plan) : Prop := {
  between_keyed : keyed q;
  between_limit : dget_or PNone "max_iterations" (plan_loop q) = dget_or PNone "max_iterations" (plan_loop p);
  between_nodes : ∀ k n, dget k (nodes p) = Some n → runnable n = true →
    ∃ n', dget k (nodes q) = Some n' ∧ runnable n' = true ∧ node_iteration_index n' = node_iteration_index n;
}.
(** [n] sprints are appended on the way from [p] to [q], by whatever reviewer. *)
Inductive sprints (raw : option string) : nat → Plan → Plan → Prop :=
  | sprints_none p q : between p q → sprints raw 0 p q
  | sprints_next n p q r s uuid pm ws crit env :
      sprints raw n p q → max_iterations_env env = raw →
      handle_completed_progress uuid pm ws crit env q = Ok r → status r = ACTIVE →
      between r s → sprints raw (S n) p s.

Lemma between_refl p : keyed p → between p p.
Proof. intros Hk. constructor; [done|done|]. intros k n Hn Hr. by exists n. Qed.
Lemma between_advances p q : keyed p → between p q → (current_iteration p <= current_iteration q)%Z.
Proof.
  intros Hk [Hkq _ Hn]. pose proof (proj1 (current_iteration_le q _ Hkq) ltac:(reflexivity)) as [H1 Hq].
  apply current_iteration_le; [done|]. split; [done|]. intros k n Hin Hr.
  destruct (Hn k n Hin Hr) as (n' & H' & Hr' & <-). by apply (Hq k).
Qed.
Lemma between_same_limit raw p q : between p q → iteration_limit raw q = iteration_limit raw p.
Proof. intros [_ Hl _]. unfold iteration_limit, max_iterations. by rewrite Hl. Qed.
Lemma appended_limit uuid pm ws crit now v raw next p q : keyed p →
  append_next_iteration uuid pm ws crit now v next (iteration_limit raw p) p = Ok q →
  iteration_limit raw q = iteration_limit raw p.
Proof.
  intros Hk Happ.
  destruct (append_spec _ _ _ _ _ _ _ _ _ _ Hk Happ) as (_ & _ & _ & Hgid & _ & (g & Hg & Hgr) & _).
  unfold iteration_limit at 1. rewrite <-Hgid in Hgr. rewrite (plan_loop_goal _ _ _ _ Hgr).
  apply limit_kept. rewrite continued_limit. unfold iteration_limit, plan_loop.
  apply goal_node_ok in Hg; [|done]. by rewrite Hg.
Qed.
(** One round that goes on. *)
Lemma round_next uuid pm ws crit env p q : keyed p →
  handle_completed_progress uuid pm ws crit env p = Ok q → status q = ACTIVE →
  (current_iteration p < iteration_limit (max_iterations_env env) p)%Z ∧
  current_iteration q = (current_iteration p + 1)%Z ∧
  iteration_limit (max_iterations_env env) q = iteration_limit (max_iterations_env env) p ∧ keyed q ∧
  (∃ k, dget k (nodes p) = None ∧ is_Some (dget k (nodes q))) ∧
  (∀ k n, dget k (nodes p) = None → dget k (nodes q) = Some n → node_iteration_index n = (current_iteration p + 1)%Z).
Proof.
  intros Hk Hh Hs. destruct (handle_active uuid pm ws crit env p q Hk Hh Hs) as (v & Happ & Hlt & Hne & _).
  pose proof (append_indices _ _ _ _ _ _ _ _ _ Hk Happ) as Hsp.
  destruct (append_spec _ _ _ _ _ _ _ _ _ _ Hk Happ) as (Hkq & _ & _ & _ & Hkeys & (g & Hg & Hgr) & Hold & Hnew).
  split_and!; [done|by eapply append_advances|by eapply appended_limit|done| |].
  - destruct (next_tasks v) as [|t ts] eqn:Ht; [done|].
    destruct (spec_of_task uuid (t :: ts) 1 t) as (sp & Hin & _); [by apply elem_of_numbered; exists 0|].
    destruct (Hsp sp Hin) as (n & Hn & _). exists (spec_node sp). split; [|by rewrite Hn].
    pose proof (keyed_dict _ Hkq) as Hnd. unfold dict_wf in Hnd. rewrite Hkeys in Hnd. apply NoDup_app in Hnd as (_ & Hdisj & _).
    destruct (dget (spec_node sp) (nodes p)) eqn:E; [|done]. exfalso. apply (Hdisj (spec_node sp)).
    + apply dget_is_Some_keys. eauto.
    + by apply list_elem_of_fmap_2.
  - intros k n Hp Hq. destruct (decide (k ∈ spec_node <$> task_specs uuid (next_tasks v))) as [(sp & -> & Hin)%list_elem_of_fmap|Hnot].
    + destruct (Hsp sp Hin) as (n' & Hn' & Hi & _). congruence.
    + rewrite Hold in Hq; [congruence| |done]. intros ->. congruence.
Qed.

(** C26. The loop ends.  Every sprint the loop adds to a plan has the index
    after the greatest one there is, and there is one only below the limit,
    which it keeps; so, whatever the reviewer answers, and as long as the
    nodes stay in their sprints and the limit in the goal is left alone
    between the rounds, no more sprints than the limit are planned. *)
Theorem sprints_bounded :
  (∀ uuid pm ws crit env p q, keyed p →
    handle_completed_progress uuid pm ws crit env p = Ok q → status q = ACTIVE →
    (current_iteration p < iteration_limit (max_iterations_env env) p)%Z ∧
    current_iteration q = (current_iteration p + 1)%Z ∧
    iteration_limit (max_iterations_env env) q = iteration_limit (max_iterations_env env) p ∧
    (∃ k, dget k (nodes p) = None ∧ is_Some (dget k (nodes q))) ∧
    (∀ k n, dget k (nodes p) = None → dget k (nodes q) = Some n →
       node_iteration_index n = (current_iteration p + 1)%Z)) ∧
  (∀ raw n p q, keyed p → sprints raw n p q →
    (current_iteration p + Z.of_nat n <= current_iteration q)%Z ∧
    (n ≠ 0 → (current_iteration p + Z.of_nat n <= iteration_limit raw p)%Z)).
Proof.
  split.
  { intros uuid pm ws crit env p q Hk Hh Hs. destruct (round_next _ _ _ _ _ _ _ Hk Hh Hs) as (? & ? & ? & _ & ?). done. }
  intros raw n p q Hkp.
  assert (sprints raw n p q → keyed q ∧ iteration_limit raw q = iteration_limit raw p ∧
    (current_iteration p + Z.of_nat n <= current_iteration q)%Z ∧
    (n ≠ 0 → (current_iteration p + Z.of_nat n <= iteration_limit raw p)%Z)) as H; [|naive_solver].
  induction 1 as [p q Hb|n p q r s uuid pm ws crit env _ IH Henv Hh Hs Hb].
  { pose proof (between_advances p q Hkp Hb).
    split_and!; [by destruct Hb|by apply between_same_limit|lia|done]. }
  destruct (IH Hkp) as (Hk & Hl & Hc & _). subst raw.
  destruct (round_next uuid pm ws crit env q r Hk Hh Hs) as (Hlt & Hadv & Hlr & Hkr & _).
  pose proof (between_advances r s Hkr Hb). pose proof (between_same_limit (max_iterations_env env) r s Hb) as Hls.
  split_and!; [by destruct Hb|congruence|lia|]. intros _. rewrite Hl in Hlt. lia.
Qed.

(** * Witnesses *)

Definition sample_uuid (k : nat) : string := pretty (N.of_nat k).
Definition sample_metadata (desc nid : string) (seq : Z) : list (string * pyval) :=
  [("acceptance_source", PStr "planner_structural_v1")].
Definition no_paths (desc : string) : list string := [].
Definition no_criteria (desc : string) : list AcceptanceCriterion := [].
Definition sample_task (tid desc ph : string) (deps : list string) : IterationNextTask :=
  mkTask tid desc None deps 1 (Some ph) [].
(** The test is listed before what it tests. *)
Definition sample_tasks : list IterationNextTask :=
  [sample_task "t1" "test the endpoint" "test" []; sample_task "t2" "write the endpoint" "implement" []].
Definition sample_verdict (ts : list IterationNextTask) : IterationReviewVerdict :=
  mkVerdict continue_next_iteration (9 # 10) "one more sprint" "an endpoint" [] ts [] 0.
Definition sample_append (p : Plan) : result loop_error Plan :=
  append_next_iteration sample_uuid sample_metadata no_paths no_criteria 0 (sample_verdict sample_tasks) 2 8 p.
Definition first_sprint : Plan := (add_node writing_a goal_plan).1.
Definition sample_loop_env : loop_env :=
  mkLoopEnv None None None 0 (Some (λ _ _ _, Ok (sample_verdict sample_tasks))).

Lemma goal_plan_keyed : keyed goal_plan.
Proof.
  apply inv_keyed, built_inv, (built_add sample_plan0 sample_goal); [|sample_wf|reflexivity].
  by apply (built_new "p1" "ws" "g").
Qed.
Lemma first_sprint_keyed : keyed first_sprint.
Proof.
  apply inv_keyed, built_inv, (built_add goal_plan writing_a); [|by apply writing_node_wf|reflexivity].
  apply (built_add sample_plan0 sample_goal); [|sample_wf|reflexivity]. by apply (built_new "p1" "ws" "g").
Qed.
Lemma sample_uuid_inj i j : sample_uuid i = sample_uuid j → i = j.
Proof. unfold sample_uuid. intros H%(inj pretty). by apply Nat2N.inj. Qed.

Lemma next_sprint_spec_witness : ∃ q, sample_append goal_plan = Ok q ∧ keyed q ∧
  dkeys (nodes q) = ["g"; "node-0"; "node-1"].
Proof.
  destruct (sample_append goal_plan) as [q|e] eqn:E.
  - pose proof (next_sprint_spec sample_uuid sample_metadata no_paths no_criteria 0 (sample_verdict sample_tasks) 2 8
      goal_plan q goal_plan_keyed ltac:(lia) E) as (Hk & _ & Hd & _).
    exists q. split_and!; [done|exact Hk|]. rewrite Hd. vm_compute. reflexivity.
  - exfalso. assert (is_ok (sample_append goal_plan) = true) as H by (vm_compute; reflexivity).
    by rewrite E in H.
Defined.
Lemma sprint_appended_iff_witness :
  is_ok (append_next_iteration sample_uuid sample_metadata no_paths no_criteria 0
    (sample_verdict [sample_task "t2" "write it" "implement" []; sample_task "t2" "test it" "test" []]) 2 8 goal_plan)
  = false.
Proof.
  apply not_true_is_false. intros H.
  pose proof (proj1 (sprint_appended_iff sample_uuid sample_metadata no_paths no_criteria 0
    (sample_verdict [sample_task "t2" "write it" "implement" []; sample_task "t2" "test it" "test" []]) 2 8 goal_plan
    sample_goal goal_plan_keyed eq_refl ltac:(done) sample_uuid_inj ltac:(intros k; vm_compute; set_solver)
    ltac:(repeat constructor; simpl; try done; try lia; intros ? [= <-]; vm_decide)) H) as Hnd.
  vm_compute in Hnd. inversion Hnd as [|? ? Hin _]. apply Hin. left.
Defined.
Lemma sprints_bounded_witness : ∃ q, sprints None 1 first_sprint q ∧
  (current_iteration first_sprint + 1 <= iteration_limit None first_sprint)%Z.
Proof.
  pose proof first_sprint_keyed as Hk.
  destruct (handle_completed_progress sample_uuid sample_metadata no_paths no_criteria sample_loop_env first_sprint)
    as [r|e] eqn:E.
  - assert (status r = ACTIVE) as Hs.
    { assert (from_option status DRAFT (match handle_completed_progress sample_uuid sample_metadata no_paths no_criteria
        sample_loop_env first_sprint with Ok r => Some r | Err _ => None end) = ACTIVE) as H
        by (vm_compute; reflexivity). by rewrite E in H. }
    assert (keyed r) as Hr.
    { destruct (handle_active _ _ _ _ _ _ _ Hk E Hs) as (v & Happ & _).
      by destruct (append_spec _ _ _ _ _ _ _ _ _ _ Hk Happ) as (? & _). }
    assert (sprints None 1 first_sprint r) as Hrun.
    { apply (sprints_next None 0 first_sprint first_sprint r r sample_uuid sample_metadata no_paths no_criteria
        sample_loop_env); [|reflexivity|exact E|done|].
      - apply sprints_none, between_refl, Hk.
      - by apply between_refl. }
    exists r. split; [exact Hrun|]. destruct sprints_bounded as [_ B].
    pose proof (B None 1 first_sprint r Hk Hrun) as [_ H].
    specialize (H ltac:(done)). exact H.
  - exfalso. assert (is_ok (handle_completed_progress sample_uuid sample_metadata no_paths no_criteria sample_loop_env
      first_sprint) = true) as H by (vm_compute; reflexivity). by rewrite E in H.
Defined.
