(* ===== verification/BarrierRepair.v ===== *)
(** What the repair of phase barriers, which every tick runs, does to the
    sprint the iteration loop appended.

    Over [repair_phase_barriers] of [PlanDispatch] and [append_next_iteration]
    of [IterationLoop]. *)

From stdpp Require Import gmap.
From Stdlib Require Import QArith.
From S2P Require Import Prelude PyText Datetime Acceptance PlanNode Kahn Plan NodeFacts PlanDispatch DispatchSafety IterationReview IterationLoop SprintSafety.

Open Scope string_scope.
Open Scope list_scope.
Open Scope nat_scope.

(** * The groups *)

Definition group_step (d : list (Z * list PlanNode)) (n : PlanNode) : list (Z * list PlanNode) :=
  dset (node_iteration_index n) (dget_or [] (node_iteration_index n) d ++ [n]) d.
Lemma group_fold l : ∀ d, dict_wf d →
  dict_wf (foldl group_step d l) ∧
  ∀ i, dget_or [] i (foldl group_step d l) = dget_or [] i d ++ filter (λ n, node_iteration_index n = i) l.
Proof.
  induction l as [|x l IH]; intros d Hd; [split; [done|intros; by rewrite app_nil_r]|]. simpl.
  destruct (IH (group_step d x)) as [H1 H2]; [by apply dset_wf|]. split; [done|]. intros i.
  rewrite H2. unfold group_step. rewrite dget_or_dset, filter_cons. case_decide; [|done].
  subst i. by rewrite <-app_assoc.
Qed.
Lemma nodes_by_iteration_get p i :
  dget_or [] i (nodes_by_iteration p) = filter (λ n, node_iteration_index n = i) (runnable_nodes p).
Proof. unfold nodes_by_iteration, runnable_nodes. by destruct (group_fold (filter (λ n, runnable n = true) (dvals (nodes p))) []) as [_ ->]; [constructor|]. Qed.
Lemma nodes_by_iteration_wf p : dict_wf (nodes_by_iteration p).
Proof. by apply group_fold; constructor. Qed.
Lemma group_member p i ns : (i, ns) ∈ nodes_by_iteration p →
  ns = filter (λ n, node_iteration_index n = i) (runnable_nodes p).
Proof.
  intros Hin. apply elem_of_dget in Hin; [|apply nodes_by_iteration_wf].
  rewrite <-nodes_by_iteration_get. unfold dget_or. by rewrite Hin.
Qed.

(** * One step, and the others *)

Lemma put_node_frame now n p k : k ≠ id n → dget k (nodes (put_node now n p)) = dget k (nodes p).
Proof.
  intros Hk. unfold put_node, replace_node; unfold_M. destruct (dmem _ _); [|done]. simpl.
  by rewrite dget_dset_ne.
Qed.
Lemma barrier_step_frame now ordered q n k : k ≠ id n →
  dget k (nodes (barrier_step now ordered q n)) = dget k (nodes q).
Proof.
  intros Hk. unfold barrier_step. destruct (_ || _); [done|]. cbv zeta. destruct (_ && _); [done|].
  by apply put_node_frame.
Qed.
Lemma barrier_fold_frame now ordered ns : ∀ q k, k ∉ id <$> ns →
  dget k (nodes (foldl (barrier_step now ordered) q ns)) = dget k (nodes q).
Proof.
  induction ns as [|n ns IH]; intros q k; [done|]. rewrite fmap_cons. intros [? ?]%not_elem_of_cons.
  simpl. rewrite IH by done. by apply barrier_step_frame.
Qed.
Lemma barrier_groups_frame now gs : ∀ q k, (∀ g, g ∈ gs → k ∉ id <$> g.2) →
  dget k (nodes (foldl (barrier_group now) q gs)) = dget k (nodes q).
Proof.
  induction gs as [|g gs IH]; intros q k Hgs; [done|]. simpl. rewrite IH by (intros; apply Hgs; by right).
  unfold barrier_group. destruct (_ || _); [done|]. cbv zeta. apply barrier_fold_frame.
  unfold ordered_iteration_nodes. rewrite sort_by_perm. apply Hgs. left.
Qed.
Lemma barrier_step_self now ordered q n : dget (id n) (nodes q) = Some n → intent n = TODO →
  truthy_opt (current_attempt_id n) = false →
  ∃ n', dget (id n) (nodes (barrier_step now ordered q n)) = Some n' ∧ intent n' = intent n ∧
    repair_blocking_dependency_id n' = repair_blocking_dependency_id n ∧ ∀ d, d ∈ depends_on n' ↔ d ∈ desired_dependencies ordered n.
Proof.
  intros Hn Ht Ha. unfold barrier_step. rewrite bool_decide_true, Ha by done. simpl.
  destruct (same_set _ _ && _) eqn:E.
  - exists n. split_and!; [done|done|done|]. unfold same_set in E. split_bools. rewrite !Forall_forall in *. naive_solver.
  - eexists. rewrite put_node_get by (apply dget_is_Some_keys; eauto). rewrite decide_True by done.
    split_and!; [done|done| |done]. unfold repair_blocking_dependency_id, meta.
    cbn [metadata set_updated_at set_metadata set_depends_on]. by rewrite !dget_or_dset, !decide_False by done.
Qed.

(** * Positions *)

Lemma sort_by_key_sorted {A : Type} (leb : A → A → bool) (key : A → Z) l :
  (∀ x y, leb x y = true → (key x <= key y)%Z) → (∀ x y, leb x y = false → (key y <= key x)%Z) →
  StronglySorted (λ x y, (key x <= key y)%Z) (sort_by leb l).
Proof.
  intros Ht Hf.
  assert (∀ x k, StronglySorted (λ x y, (key x <= key y)%Z) k →
            StronglySorted (λ x y, (key x <= key y)%Z) (insert_by leb x k)) as Hins.
  { intros x k. induction 1 as [|y k Hk IH Hy]; simpl; [by repeat constructor|].
    destruct (leb x y) eqn:E; constructor; [by constructor| |done|].
    - constructor; [by apply Ht|]. eapply Forall_impl; [exact Hy|]. intros z Hz. apply Ht in E. simpl in Hz. lia.
    - rewrite insert_by_perm. constructor; [by apply Hf|done]. }
  induction l as [|x l IH]; simpl; [constructor|]. by apply Hins.
Qed.
Lemma ordered_sorted ns :
  StronglySorted (λ x y, (node_sequence x <= node_sequence y)%Z) (ordered_iteration_nodes ns).
Proof.
  apply sort_by_key_sorted; intros x y; unfold iteration_le;
    destruct (Z.eqb_spec (node_sequence x) (node_sequence y)), (Z.ltb_spec (node_sequence x) (node_sequence y));
    simpl; intros; (lia || done).
Qed.
Lemma sorted_lookup {A : Type} (key : A → Z) l : StronglySorted (λ x y, (key x <= key y)%Z) l →
  ∀ i j x y, l !! i = Some x → l !! j = Some y → i ≤ j → (key x <= key y)%Z.
Proof.
  induction 1 as [|z l _ IH Hz]; intros i j x y Hi Hj Hle; [done|]. rewrite Forall_forall in Hz.
  destruct i as [|i], j as [|j]; simplify_eq/=; [lia| |lia|by eapply (IH i j); [..|lia]].
  apply Hz. by eapply list_elem_of_lookup_2.
Qed.
Lemma sorted_positions ns i j n m : ordered_iteration_nodes ns !! i = Some n →
  ordered_iteration_nodes ns !! j = Some m → (node_sequence n < node_sequence m)%Z → i < j.
Proof.
  intros Hi Hj Hlt. destruct (decide (i < j)) as [|Hge]; [done|]. exfalso.
  pose proof (sorted_lookup node_sequence _ (ordered_sorted ns) j i m n Hj Hi ltac:(lia)). lia.
Qed.
Lemma sequence_by_node_get ordered i n : NoDup (id <$> ordered) → ordered !! i = Some n →
  dget (id n) (sequence_by_node ordered) = Some (Z.of_nat (S i)).
Proof.
  intros Hnd Hi. apply elem_of_dget.
  - unfold dict_wf, dkeys, sequence_by_node. erewrite (list_eq (fst <$> _) (id <$> ordered)); [done|].
    intros j. rewrite !list_lookup_fmap, list_lookup_imap. by destruct (ordered !! j).
  - apply list_elem_of_lookup. exists i. unfold sequence_by_node. by rewrite list_lookup_imap, Hi.
Qed.
(** Of the nodes of its iteration, a node keeps those at an earlier place. *)
Lemma desired_earlier ordered i j n m : NoDup (id <$> ordered) → ordered !! i = Some n →
  ordered !! j = Some m → i ≤ j → repair_blocking_dependency_id n ≠ Some (id m) →
  id m ∉ desired_dependencies ordered n.
Proof.
  intros Hnd Hi Hj Hlt Hrep. pose proof (sequence_by_node_get _ _ _ Hnd Hi) as Hn.
  pose proof (sequence_by_node_get _ _ _ Hnd Hj) as Hm. unfold desired_dependencies.
  assert (dget_or 0%Z (id n) (sequence_by_node ordered) = Z.of_nat (S i)) as -> by (unfold dget_or; by rewrite Hn).
  assert (before (sequence_by_node ordered) (id m) (Z.of_nat (S i)) = false) as Hb.
  { unfold before, dget_or. rewrite Hm. apply Z.ltb_ge. unfold default, from_option, Datatypes.id. lia. }
  assert (dmem (id m) (sequence_by_node ordered) = true) as Hmem.
  { apply dmem_true, dget_is_Some_keys. eauto. }
  assert (∀ l acc, id m ∈ foldl (λ acc d, set_add d acc) acc l → id m ∈ acc ∨ id m ∈ l) as Hfold.
  { intros l. induction l as [|d l IH]; intros acc; simpl; [by left|]. intros H. apply IH in H as [H|H].
    - apply elem_of_set_add in H as [->|H]; [right; left|by left].
    - right. by right. }
  rewrite list_elem_of_filter. intros [_ H]. apply Hfold in H as [H|H].
  - assert (id m ∉ filter (λ d, (negb (dmem d (sequence_by_node ordered)) ||
      before (sequence_by_node ordered) d (Z.of_nat (S i))) = true) (depends_on n)) as Hkept.
    { rewrite list_elem_of_filter, Hmem, Hb. by intros [? _]. }
    destruct (repair_blocking_dependency_id n) as [r|]; [|done]. case_bool_decide; [done|].
    apply elem_of_set_add in H as [H|H]; [|done]. congruence.
  - apply list_elem_of_filter in H as [H _]. by rewrite Hb in H.
Qed.

(** ** The repair of a plan *)

Lemma group_ids_NoDup p i : keyed p →
  NoDup (id <$> ordered_iteration_nodes (filter (λ n, node_iteration_index n = i) (runnable_nodes p))).
Proof.
  intros Hk. unfold ordered_iteration_nodes. rewrite sort_by_perm. unfold runnable_nodes.
  eapply sublist_NoDup; [by apply dvals_NoDup_ids|]. apply fmap_sublist. etrans; apply sublist_filter.
Qed.

Lemma repair_spec now p n : keyed p → dget (id n) (nodes p) = Some n → runnable n = true →
  (1 < node_iteration_index n)%Z → intent n = TODO → truthy_opt (current_attempt_id n) = false →
  let ns := filter (λ m, node_iteration_index m = node_iteration_index n) (runnable_nodes p) in
  2 ≤ length ns →
  ∃ n', dget (id n) (nodes (repair_phase_barriers now p)) = Some n' ∧ intent n' = TODO ∧
    repair_blocking_dependency_id n' = repair_blocking_dependency_id n ∧
    ∀ d, d ∈ depends_on n' ↔ d ∈ desired_dependencies (ordered_iteration_nodes ns) n.
Proof.
  intros Hk Hn Hr Hi Ht Ha ns Hlen.
  assert (n ∈ ns) as Hin by (apply list_elem_of_filter; split; [done|by apply elem_of_runnable]).
  assert ((node_iteration_index n, ns) ∈ nodes_by_iteration p) as Hg.
  { apply dget_Some_elem. pose proof (nodes_by_iteration_get p (node_iteration_index n)) as Hget. fold ns in Hget.
    unfold dget_or in Hget. destruct (dget _ (nodes_by_iteration p)); simpl in Hget; [by rewrite Hget|].
    rewrite <-Hget in Hin. by apply elem_of_nil in Hin. }
  assert (∀ i ms, (i, ms) ∈ nodes_by_iteration p → i ≠ node_iteration_index n → id n ∉ id <$> ms) as Hother.
  { intros i ms ->%group_member Hne (m & Hid & [Hmi [Hm _]%elem_of_runnable]%list_elem_of_filter)%list_elem_of_fmap; [|done].
    rewrite <-Hid, Hn in Hm. injection Hm as <-. congruence. }
  pose proof Hg as Hsplit. apply list_elem_of_split in Hsplit as (g1 & g2 & Hgs).
  pose proof (nodes_by_iteration_wf p) as Hwf. unfold dict_wf, dkeys in Hwf. rewrite Hgs in Hwf.
  rewrite fmap_app, fmap_cons in Hwf. apply NoDup_app in Hwf as (_ & Hd1 & Hd2). apply NoDup_cons in Hd2 as [Hd2 _].
  unfold repair_phase_barriers. rewrite Hgs, foldl_app. simpl. rewrite barrier_groups_frame.
  2: { intros [i ms] Hgm. apply (Hother i); [rewrite Hgs; apply elem_of_app; right; by right|].
       intros ->. apply Hd2. by apply (list_elem_of_fmap_2 fst _ (node_iteration_index n, ms)). }
  set (q := foldl (barrier_group now) p g1).
  assert (dget (id n) (nodes q) = Some n) as Hq.
  { unfold q. rewrite barrier_groups_frame; [done|]. intros [i ms] Hgm.
    apply (Hother i); [rewrite Hgs; apply elem_of_app; by left|].
    intros ->. apply (Hd1 (node_iteration_index n)); [|left].
    by apply (list_elem_of_fmap_2 fst _ (node_iteration_index n, ms)). }
  unfold barrier_group. simpl. destruct (Z.leb_spec (node_iteration_index n) 1); [lia|].
  destruct (Nat.ltb_spec (length ns) 2); [lia|]. simpl.
  assert (n ∈ ordered_iteration_nodes ns) as Hord by (by apply elem_of_sort_by).
  assert (NoDup (id <$> ordered_iteration_nodes ns)) as Hnd by by apply group_ids_NoDup.
  apply list_elem_of_split in Hord as (o1 & o2 & Ho). rewrite Ho in Hnd.
  rewrite fmap_app, fmap_cons in Hnd. apply NoDup_app in Hnd as (_ & Hn1 & Hn2). apply NoDup_cons in Hn2 as [Hn2 _].
  rewrite Ho, foldl_app. simpl. rewrite barrier_fold_frame by done.
  apply barrier_step_self with (ordered := o1 ++ n :: o2) (now := now)
    (q := foldl (barrier_step now (o1 ++ n :: o2)) q o1) in Ha as (n' & ? & ? & ? & ?); [|..|done].
  - exists n'. split_and!; [done|congruence|done|done].
  - rewrite barrier_fold_frame; [done|]. intros H'. apply (Hn1 _ H'). left.
Qed.

(** * The sprint that is repaired *)

Lemma two_elements {A : Type} (l : list A) x y : x ∈ l → y ∈ l → x ≠ y → 2 ≤ length l.
Proof. destruct l as [|a [|b l]]; [set_solver|set_solver|simpl; lia]. Qed.
Lemma no_repair_dependency pm ws next sp n :
  (∀ d i s, dget "blocked_by_repair_node_id" (pm d i s) = None) →
  metadata n = node_metadata pm ws next sp → repair_blocking_dependency_id n = None.
Proof.
  intros Hpm Hm. unfold repair_blocking_dependency_id, meta. rewrite Hm. unfold node_metadata.
  assert (∀ kvs d, "blocked_by_repair_node_id" ∉ kvs.*1 → dget_or PNone "blocked_by_repair_node_id" d = PNone →
    dget_or PNone "blocked_by_repair_node_id" (update_all kvs d) = PNone) as Hup.
  { intros kvs d H1 H2. by rewrite meta_update_other. }
  repeat case_bool_decide; rewrite ?dget_or_dset, ?decide_False by done; rewrite Hup; try done;
    (vm_decide || (unfold dget_or; by rewrite Hpm)).
Qed.

Lemma spec_place uuid ts i sp : task_specs uuid ts !! i = Some sp → spec_sequence sp = Z.of_nat (S i).
Proof.
  intros Hi. assert (i < length ts) as [t Ht]%lookup_lt_is_Some.
  { apply lookup_lt_Some in Hi. unfold task_specs in Hi. by rewrite specs_from_length in Hi. }
  destruct (specs_from_lookup uuid (id_map uuid ts).1 ts (id_map uuid ts).2 1 i t Ht) as (x & Hx & _ & Hs).
  unfold task_specs in Hi. rewrite Hi in Hx. injection Hx as ->. lia.
Qed.

(** C25. The repair undoes the barrier it is there to restore.  Of a sprint as it
    was appended, the node of a task that the reviewer listed before a task of
    an earlier phase depends on the node of that task; after the repair of the
    next tick it does not, and it does not wait for it. *)
Theorem repair_drops_barriers uuid pm ws crit now now' v next limit p q i j si sj :
  keyed p → (1 < next)%Z → append_next_iteration uuid pm ws crit now v next limit p = Ok q →
  (∀ d nid s, dget "blocked_by_repair_node_id" (pm d nid s) = None) →
  task_specs uuid (next_tasks v) !! i = Some si → task_specs uuid (next_tasks v) !! j = Some sj → i < j →
  phase_index (spec_phase sj) < phase_index (spec_phase si) →
  (∃ n, dget (spec_node si) (nodes q) = Some n ∧ spec_node sj ∈ depends_on n) ∧
  ∃ n, dget (spec_node si) (nodes (repair_phase_barriers now' q)) = Some n ∧ intent n = TODO ∧
    spec_node sj ∉ depends_on n ∧ repair_blocking_dependency_id n = None.
Proof.
  intros Hk Hnext Happ Hpm Hi Hj Hij Hph.
  destruct (append_spec uuid pm ws crit now v next limit p q Hk Happ) as (Hkq & _ & _ & _ & _ & _ & _ & Hnew).
  assert (∀ k sp, task_specs uuid (next_tasks v) !! k = Some sp → ∃ n, dget (spec_node sp) (nodes q) = Some n ∧
    id n = spec_node sp ∧ runnable n = true ∧ node_iteration_index n = next ∧ intent n = TODO ∧
    truthy_opt (current_attempt_id n) = false ∧ node_sequence n = Z.of_nat (S k) ∧
    depends_on n = spec_dependencies uuid (next_tasks v) sp ∧ repair_blocking_dependency_id n = None) as Hnode.
  { intros k sp Hsp. pose proof (spec_place _ _ _ _ Hsp) as Hplace. apply list_elem_of_lookup_2 in Hsp.
    destruct (Hnew sp Hsp) as (n & Hn & Hsn & Hd). destruct (spec_sequences uuid _ _ Hsp) as (Hs & Hphase & _).
    destruct (sprint_node_reads pm ws p next sp n Hsn) as (? & _ & Hseq & ?);
      [lia|done|rewrite Hphase; apply task_phase_known|].
    pose proof (no_repair_dependency pm ws next sp n Hpm (sn_metadata _ _ _ _ _ _ Hsn)).
    destruct Hsn as [? _ _ _ (? & _ & Ha) _ _]. exists n. rewrite Ha. split_and!; (done || congruence). }
  destruct (Hnode i si Hi) as (n & Hn & Hidn & Hrn & Hin & Htn & Han & Hsn & Hdn & Hbn).
  destruct (Hnode j sj Hj) as (m & Hm & Hidm & Hrm & Him & _ & _ & Hsm & _ & _).
  split.
  { exists n. split; [done|]. rewrite Hdn.
    apply spec_dependencies_barrier; [by eapply list_elem_of_lookup_2..|done]. }
  set (ns := filter (λ x, node_iteration_index x = node_iteration_index n) (runnable_nodes q)).
  assert (n ∈ ns ∧ m ∈ ns) as [Hnin Hmin].
  { split; apply list_elem_of_filter; (split; [congruence|]); apply elem_of_runnable; [done| |done|]; split; congruence. }
  assert (n ≠ m) by (intros ->; rewrite Hsn in Hsm; lia).
  destruct (repair_spec now' q n) as (n' & Hn' & Ht' & Hb' & Hdeps);
    [done|congruence|done|lia|done|done|by apply (two_elements _ n m)|].
  fold ns in Hdeps. rewrite Hidn in Hn'. exists n'. split_and!; [done|done| |congruence].
  rewrite Hdeps, <-Hidm.
  assert (n ∈ ordered_iteration_nodes ns ∧ m ∈ ordered_iteration_nodes ns) as [Ho Ho'] by (by split; apply elem_of_sort_by).
  apply list_elem_of_lookup in Ho as [a Ha]. apply list_elem_of_lookup in Ho' as [b Hb].
  eapply desired_earlier; [by apply group_ids_NoDup|exact Ha|exact Hb| |congruence].
  apply Nat.lt_le_incl. eapply sorted_positions; [exact Ha|exact Hb|lia].
Qed.

Lemma repair_drops_barriers_witness : ∃ q, sample_append goal_plan = Ok q ∧
  (∃ n, dget "node-0" (nodes q) = Some n ∧ "node-1" ∈ depends_on n) ∧
  ∃ n, dget "node-0" (nodes (repair_phase_barriers 0 q)) = Some n ∧ "node-1" ∉ depends_on n.
Proof.
  destruct (sample_append goal_plan) as [q|e] eqn:E.
  - destruct (task_specs sample_uuid sample_tasks) as [|si [|sj rest]] eqn:Es; [done|done|].
    assert (task_specs sample_uuid sample_tasks !! 0 = Some si) as Hi by by rewrite Es.
    assert (task_specs sample_uuid sample_tasks !! 1 = Some sj) as Hj by by rewrite Es.
    assert (spec_node si = "node-0" ∧ spec_node sj = "node-1" ∧ spec_phase si = "test" ∧ spec_phase sj = "implement")
      as (Ei & Ej & Pi & Pj) by (vm_compute in Hi, Hj; by injection Hi as <-; injection Hj as <-).
    pose proof (repair_drops_barriers sample_uuid sample_metadata no_paths no_criteria 0 0 (sample_verdict sample_tasks)
      2 8 goal_plan q 0 1 si sj goal_plan_keyed ltac:(lia) E ltac:(reflexivity) Hi Hj ltac:(lia)
      ltac:(rewrite Pi, Pj; vm_compute; lia)) as [H1 (n & Hn & _ & Hd & _)].
    rewrite Ei, Ej in *. exists q. split_and!; [done|exact H1|by exists n].
  - exfalso. assert (is_ok (sample_append goal_plan) = true) as H by (vm_compute; reflexivity).
    by rewrite E in H.
Defined.
(** So the test of the endpoint is ready before the endpoint is written. *)
Example repaired_test_is_ready :
  match sample_append goal_plan with
  | Ok q => id <$> ready_nodes (repair_phase_barriers 0 q) = ["node-0"; "node-1"] ∧
            id <$> ready_nodes q = ["node-1"]
  | Err _ => False
  end.
Proof. vm_compute. done. Qed.
