(* ===== verification/AgentGraph.v ===== *)
(** The agent graph: nodes, edges, the validation of the graph and its cycle
    detection.

    Source: src/src/domain/model/agent/graph/agent_graph.py, agent_node.py,
    agent_edge.py, graph_pattern.py.  A [set] of node ids is a list without
    repetition; creation and update times and the free-form metadata no
    operation reads are left out. *)

From S2P Require Import Prelude Kahn.

Open Scope string_scope.
Open Scope list_scope.
Open Scope nat_scope.

Inductive GraphPattern : Set := SUPERVISOR | PIPELINE | FAN_OUT | SWARM | HIERARCHICAL.
#[export] Instance GraphPattern_eq_dec : EqDecision GraphPattern.
Proof. solve_decision. Defined.
Definition pattern_value (p : GraphPattern) : string :=
  match p with
  | SUPERVISOR => "supervisor" | PIPELINE => "pipeline" | FAN_OUT => "fan_out"
  | SWARM => "swarm" | HIERARCHICAL => "hierarchical"
  end.

Notation context := (list (string * pyval)).

Record AgentNode : Type := mkNode {
  node_id : string;
  agent_definition_id : string;
  label : string;
  instruction : string;
  node_config : context;
  is_entry : bool;
  is_terminal : bool;
}.
Record AgentEdge : Type := mkEdge {
  source_node_id : string;
  target_node_id : string;
  condition : string;
}.
Record AgentGraph : Type := mkGraph {
  graph_id : string;
  tenant_id : string;
  project_id : string;
  name : string;
  description : string;
  pattern : GraphPattern;
  nodes : list AgentNode;
  edges : list AgentEdge;
  shared_context_keys : list string;
  max_total_steps : Z;
  is_active : bool;
}.

(** The ValueErrors of the constructors. *)
Inductive field_error : Type :=
  | EmptyField (field : string)
  | SelfLoop
  | MaxStepsTooSmall.
(** [if not value: raise ValueError(...)] *)
Definition required (field value : string) : result field_error unit :=
  if truthy value then Ok tt else Err (EmptyField field).

Definition node_post_init (n : AgentNode) : result field_error AgentNode :=
  _ ← required "node_id" (node_id n);
  _ ← required "agent_definition_id" (agent_definition_id n);
  _ ← required "label" (label n);
  mret n.
Definition edge_post_init (e : AgentEdge) : result field_error AgentEdge :=
  _ ← required "source_node_id" (source_node_id e);
  _ ← required "target_node_id" (target_node_id e);
  if bool_decide (source_node_id e = target_node_id e) then Err SelfLoop else mret e.
Definition graph_post_init (g : AgentGraph) : result field_error AgentGraph :=
  _ ← required "tenant_id" (tenant_id g);
  _ ← required "project_id" (project_id g);
  _ ← required "name" (name g);
  if bool_decide (max_total_steps g < 1)%Z then Err MaxStepsTooSmall else mret g.

(** * Queries *)

Definition entry_nodes (g : AgentGraph) : list AgentNode :=
  filter (λ n, is_entry n = true) (nodes g).
Definition terminal_nodes (g : AgentGraph) : list AgentNode :=
  filter (λ n, is_terminal n = true) (nodes g).
Definition node_ids (g : AgentGraph) : list string :=
  foldl (λ l n, set_add (node_id n) l) [] (nodes g).
Definition get_node (nid : string) (g : AgentGraph) : option AgentNode :=
  List.find (λ n, bool_decide (node_id n = nid)) (nodes g).
Definition get_successors (nid : string) (g : AgentGraph) : list AgentEdge :=
  filter (λ e, source_node_id e = nid) (edges g).
Definition get_predecessors (nid : string) (g : AgentGraph) : list AgentEdge :=
  filter (λ e, target_node_id e = nid) (edges g).

(** * Cycle detection *)

(** The [in_degree] dictionary: the given ids, then one for each edge. *)
Definition in_degrees (ids : list string) (g : AgentGraph) : list (string * Z) :=
  foldl (λ m e, dset (target_node_id e) (dget_or 0%Z (target_node_id e) m + 1)%Z m)
    ((λ i, (i, 0%Z)) <$> ids) (edges g).
Definition zero_degree (m : list (string * Z)) : list string :=
  (filter (λ kv : string * Z, kv.2 = 0%Z) m).*1.

(** One round of either Kahn loop: decrement the targets, queue those that
    reach zero.  Every target is a key. *)
Fixpoint relax (targets : list string) (deg : list (string * Z)) (q : list string)
    : list (string * Z) * list string :=
  match targets with
  | [] => (deg, q)
  | t :: ts =>
      let d := (dget_or 0%Z t deg - 1)%Z in
      relax ts (dset t d deg) (if bool_decide (d = 0%Z) then q ++ [t] else q)
  end.
(** The nodes in the order they leave the queue. *)
Fixpoint kahn_loop (fuel : nat) (succ : string → list string) (deg : list (string * Z))
    (q order : list string) : option (list string) :=
  match fuel with
  | O => None
  | S fuel' =>
      match q with
      | [] => Some order
      | current :: q' =>
          let '(deg', q'') := relax (succ current) deg q' in
          kahn_loop fuel' succ deg' q'' (order ++ [current])
      end
  end.

(** [visited_count] is the length of the order; one round per node and the
    last test are enough fuel. *)
Definition detect_cycles (ids : list string) (g : AgentGraph) : option bool :=
  let deg := in_degrees ids g in
  order ← kahn_loop (S (length ids)) (λ c, target_node_id <$> get_successors c g) deg
            (zero_degree deg) [];
  Some (negb (bool_decide (length order = length ids))).

(** * Validation *)

Inductive graph_defect : Type :=
  | NoNodes | NoEntry | NoTerminal
  | UnknownSource (nid : string) | UnknownTarget (nid : string)
  | Cycle.

Definition edge_defects (ids : list string) (e : AgentEdge) : list graph_defect :=
  (if bool_decide (source_node_id e ∈ ids) then [] else [UnknownSource (source_node_id e)]) ++
  (if bool_decide (target_node_id e ∈ ids) then [] else [UnknownTarget (target_node_id e)]).
Definition validate_graph (g : AgentGraph) : option (list graph_defect) :=
  let ids := node_ids g in
  match nodes g with
  | [] => Some [NoNodes]
  | _ =>
      let errors :=
        (if bool_decide (entry_nodes g = []) then [NoEntry] else []) ++
        (if bool_decide (terminal_nodes g = []) then [NoTerminal] else []) ++
        concat (edge_defects ids <$> edges g) in
      if bool_decide (length errors = 0) then
        (λ cyclic : bool, if cyclic then [Cycle] else []) <$> detect_cycles ids g
      else Some errors
  end.

(** * The Kahn loops *)

Definition preds (g : AgentGraph) (n : string) : list string :=
  source_node_id <$> get_predecessors n g.
(** Every edge joins nodes of the graph. *)
Definition edges_known (g : AgentGraph) : Prop :=
  ∀ e, e ∈ edges g → source_node_id e ∈ node_ids g ∧ target_node_id e ∈ node_ids g.
Definition graph_acyclic (g : AgentGraph) : Prop := acyclic (node_ids g) (preds g).

Lemma node_ids_spec g : NoDup (node_ids g) ∧ ∀ i, i ∈ node_ids g ↔ i ∈ node_id <$> nodes g.
Proof.
  unfold node_ids.
  assert (∀ l acc, NoDup acc →
    NoDup (foldl (λ l n, set_add (node_id n) l) acc l) ∧
    ∀ i, i ∈ foldl (λ l n, set_add (node_id n) l) acc l ↔ i ∈ acc ∨ i ∈ node_id <$> l) as Hg.
  { induction l as [|n l IH]; intros acc Hacc; simpl.
    - split; [done|]. intros i. rewrite elem_of_nil. tauto.
    - destruct (IH (set_add (node_id n) acc)) as [H1 H2]; [by apply NoDup_set_add|].
      split; [done|]. intros i. rewrite H2, elem_of_set_add, elem_of_cons. tauto. }
  destruct (Hg (nodes g) []) as [H1 H2]; [constructor|]. split; [done|].
  intros i. rewrite H2, elem_of_nil. tauto.
Qed.
Lemma elem_of_node_ids g i : i ∈ node_ids g ↔ ∃ n, n ∈ nodes g ∧ node_id n = i.
Proof. rewrite (proj2 (node_ids_spec g)), list_elem_of_fmap. naive_solver. Qed.
Lemma elem_of_preds g p n : p ∈ preds g n ↔
  ∃ e, e ∈ edges g ∧ source_node_id e = p ∧ target_node_id e = n.
Proof.
  unfold preds, get_predecessors. rewrite list_elem_of_fmap.
  setoid_rewrite list_elem_of_filter. naive_solver.
Qed.
Lemma preds_known g n p : edges_known g → n ∈ node_ids g → p ∈ preds g n → p ∈ node_ids g.
Proof. intros Hk _ (e & He & <- & _)%elem_of_preds. by apply Hk. Qed.

Definition count_of (n : string) (l : list string) : Z := Z.of_nat (length (filter (.= n) l)).
Lemma count_of_cons n t l :
  count_of n (t :: l) = ((if decide (t = n) then 1 else 0) + count_of n l)%Z.
Proof. unfold count_of. rewrite filter_cons. case_decide; simpl; lia. Qed.
Lemma count_of_pos n l : n ∈ l ↔ (0 < count_of n l)%Z.
Proof.
  induction l as [|t l IH]; [split; [by intros ?%elem_of_nil|done]|].
  rewrite count_of_cons, elem_of_cons, IH. assert (0 <= count_of n l)%Z by (unfold count_of; lia).
  case_decide as Ht; [subst; split; intros; [lia|by left]|]. split; [|intros; right; lia].
  intros [->|?]; [done|lia].
Qed.

(** The targets that reach zero are queued once each. *)
Lemma relax_spec ts : ∀ deg q deg' q', relax ts deg q = (deg', q') →
  (∀ t, t ∈ ts → count_of t ts <= dget_or 0 t deg)%Z →
  (∀ n, dget_or 0 n deg' = dget_or 0 n deg - count_of n ts)%Z ∧
  ∃ add, q' = q ++ add ∧ NoDup add ∧ ∀ n, n ∈ add ↔ n ∈ ts ∧ dget_or 0%Z n deg' = 0%Z.
Proof.
  induction ts as [|t ts IH]; intros deg q deg' q' H Hc; simpl in H.
  { injection H as <- <-. split; [intros n; unfold count_of; simpl; lia|].
    exists []. rewrite app_nil_r. split_and!; [done|constructor|]. intros n.
    rewrite !elem_of_nil. tauto. }
  set (d := (dget_or 0 t deg - 1)%Z) in *.
  assert (Hct : (count_of t ts <= d)%Z).
  { specialize (Hc t (list_elem_of_here _ _)). rewrite count_of_cons, decide_True in Hc by done. lia. }
  destruct (IH _ _ _ _ H) as (Hd & add & -> & Hnd & Hadd).
  { intros u Hu. rewrite dget_or_dset. destruct (decide (t = u)) as [<-|Htu]; [done|].
    specialize (Hc u (list_elem_of_further _ _ _ Hu)). rewrite count_of_cons, decide_False in Hc by done. lia. }
  split.
  { intros n. rewrite Hd, dget_or_dset, count_of_cons. destruct (decide (t = n)) as [<-|]; lia. }
  assert (Ht : t ∈ ts ↔ (0 < count_of t ts)%Z) by apply count_of_pos.
  assert (0 <= count_of t ts)%Z by (unfold count_of; lia).
  assert (Hdt : dget_or 0%Z t deg' = (d - count_of t ts)%Z)
    by (by rewrite Hd, dget_or_dset, decide_True).
  case_bool_decide as Hz.
  - exists (t :: add). rewrite <-app_assoc. split; [done|].
    assert (count_of t ts = 0%Z) as Hc0 by lia.
    split.
    + constructor; [|done]. intros [? _]%Hadd. lia || (apply Ht in H1; lia).
    + intros n. rewrite !elem_of_cons, Hadd. split; [|tauto].
      intros [->|[? ?]]; [|tauto]. split; [by left|]. rewrite Hdt. lia.
  - exists add. split_and!; [done..|]. intros n. rewrite Hadd, elem_of_cons. split; [tauto|].
    intros [[->|?] Hn]; [|tauto]. split; [|done]. apply Ht. lia.
Qed.

Lemma count_successors g c n :
  count_of n (target_node_id <$> get_successors c g) = edges_to (preds g) c n.
Proof.
  unfold count_of, edges_to, preds, get_successors, get_predecessors. f_equal.
  induction (edges g) as [|e es IH]; [done|].
  rewrite !filter_cons. repeat case_decide; csimpl; rewrite ?filter_cons;
    repeat case_decide; simpl; congruence || lia.
Qed.

Lemma in_degrees_count ids g : NoDup ids → (∀ e, e ∈ edges g → target_node_id e ∈ ids) →
  dkeys (in_degrees ids g) = ids ∧
  ∀ n, dget_or 0%Z n (in_degrees ids g) = Z.of_nat (length (preds g n)).
Proof.
  intros Hnd Hk. unfold in_degrees, preds, get_predecessors.
  assert (∀ es m, (∀ e, e ∈ es → target_node_id e ∈ dkeys m) →
    let m' := foldl (λ m e, dset (target_node_id e) (dget_or 0 (target_node_id e) m + 1) m)%Z m es in
    dkeys m' = dkeys m ∧ ∀ n, dget_or 0%Z n m' =
      (dget_or 0 n m + Z.of_nat (length (filter (λ e, target_node_id e = n) es)))%Z) as Hg.
  { induction es as [|e es IH]; intros m Hm; simpl; [split; [done|intros; lia]|].
    assert (Hke : dkeys (dset (target_node_id e) (dget_or 0 (target_node_id e) m + 1)%Z m) = dkeys m)
      by (apply dkeys_dset_old, Hm; left).
    destruct (IH (dset (target_node_id e) (dget_or 0 (target_node_id e) m + 1)%Z m)) as [H1 H2].
    { intros e' He'. rewrite Hke. apply Hm. by right. }
    split; [by rewrite H1|]. intros n. rewrite H2, dget_or_dset, filter_cons.
    case_decide; subst; simpl; lia. }
  assert (Hids : dkeys ((λ i : string, (i, 0%Z)) <$> ids) = ids).
  { unfold dkeys. rewrite <-list_fmap_compose. apply list_fmap_id. }
  destruct (Hg (edges g) ((λ i, (i, 0%Z)) <$> ids)) as [H1 H2].
  { intros e He. rewrite Hids. auto. }
  split; [by rewrite H1|]. intros n. rewrite H2, length_fmap.
  enough (dget_or 0%Z n ((λ i : string, (i, 0%Z)) <$> ids) = 0%Z) by lia.
  unfold dget_or. clear. induction ids as [|i ids IH]; [done|]. simpl. by case_decide.
Qed.

Lemma zero_degree_spec m : dict_wf m →
  NoDup (zero_degree m) ∧ ∀ n, n ∈ zero_degree m ↔ n ∈ dkeys m ∧ dget_or 0%Z n m = 0%Z.
Proof.
  intros Hm. unfold zero_degree. split.
  { eapply sublist_NoDup; [exact Hm|]. apply fmap_sublist, sublist_filter. }
  intros n. rewrite list_elem_of_fmap. setoid_rewrite list_elem_of_filter. unfold dget_or. split.
  - intros ([k v] & -> & Hv & Hin). simpl in *. rewrite (elem_of_dget _ _ _ Hm Hin). simpl.
    split; [by apply list_elem_of_fmap; exists (k, v)|done].
  - intros [[v Hv]%dget_is_Some_keys Hz]. rewrite Hv in Hz. simpl in Hz. subst v.
    exists (n, 0%Z). eauto using dget_Some_elem.
Qed.

Section loop.
Context (g : AgentGraph) (Hk : edges_known g).
Context (succ : string → list string).
Context (Hsucc : ∀ c, succ c ≡ₚ target_node_id <$> get_successors c g).
Notation inv := (kinv (node_ids g) (preds g)).
Let ids_nodup : NoDup (node_ids g) := proj1 (node_ids_spec g).
Let preds_in : ∀ n p, n ∈ node_ids g → p ∈ preds g n → p ∈ node_ids g :=
  λ n p, preds_known g n p Hk.

Definition abs_deg (deg : list (string * Z)) (n : string) : Z := dget_or 0%Z n deg.

Lemma count_of_perm n l l' : l ≡ₚ l' → count_of n l = count_of n l'.
Proof. intros H. unfold count_of. by rewrite H. Qed.

Lemma kahn_round deg c q order deg' q' :
  inv (KState (abs_deg deg) (c :: q) order) → relax (succ c) deg q = (deg', q') →
  inv (KState (abs_deg deg') q' (order ++ [c])).
Proof.
  intros Hi Hr.
  assert (Hcnt : ∀ n, count_of n (succ c) = edges_to (preds g) c n).
  { intros n. rewrite (count_of_perm _ _ _ (Hsucc c)). apply count_successors. }
  assert (Hts : ∀ t, t ∈ succ c ↔ c ∈ preds g t).
  { intros t. rewrite (Hsucc c), list_elem_of_fmap, elem_of_preds. unfold get_successors.
    setoid_rewrite list_elem_of_filter. naive_solver. }
  assert (Hin : ∀ t, t ∈ succ c → t ∈ node_ids g).
  { intros t (e & He & _ & <-)%Hts%elem_of_preds. by apply Hk. }
  assert (Hco : c ∉ order).
  { pose proof (kinv_nodup _ _ _ Hi) as Hn. simpl in Hn.
    apply NoDup_app in Hn as (_ & Hd & _). intros Hc. apply (Hd c Hc). left. }
  destruct (relax_spec _ _ _ _ _ Hr) as (Hd & add & -> & Hnda & Hadd).
  { intros t Ht. rewrite Hcnt. pose proof (kinv_deg _ _ _ Hi t (Hin t Ht)) as Hdt. simpl in Hdt.
    unfold abs_deg in Hdt. rewrite Hdt. unfold edges_to.
    rewrite (filter_split_length _ (preds g) ids_nodup preds_in c order) by done. lia. }
  eapply (kinv_step _ _ ids_nodup preds_in); [exact Hi|].
  exists c, q. simpl. split_and!; [done..| |].
  - intros n _. unfold abs_deg. by rewrite Hd, Hcnt.
  - f_equiv. apply NoDup_Permutation; [done|by apply NoDup_filter|].
    intros n. rewrite Hadd, list_elem_of_filter, Hts. unfold abs_deg. split; [|tauto].
    intros [Hp Hz]. split; [done|]. by apply Hin, Hts.
Qed.

Lemma kahn_loop_spec fuel : ∀ deg q order,
  inv (KState (abs_deg deg) q order) → length (node_ids g) < fuel + length order →
  ∃ order' deg', kahn_loop fuel succ deg q order = Some order' ∧
    inv (KState (abs_deg deg') [] order').
Proof.
  induction fuel as [|fuel IH]; intros deg q order Hi Hf.
  { pose proof (kinv_length _ _ _ Hi). simpl in *. lia. }
  destruct q as [|c q]; [by exists order, deg|]. simpl.
  destruct (relax (succ c) deg q) as [deg' q'] eqn:E.
  apply IH; [by eapply kahn_round|]. rewrite length_app. simpl. lia.
Qed.

(** From the initial queue, in any order, the loop visits every node just
    when the graph is acyclic, each after its predecessors. *)
Lemma kahn_run q : q ≡ₚ zero_degree (in_degrees (node_ids g) g) →
  ∃ order, kahn_loop (S (length (node_ids g))) succ (in_degrees (node_ids g) g) q [] = Some order ∧
    (length order = length (node_ids g) ↔ graph_acyclic g) ∧
    (graph_acyclic g → order ≡ₚ node_ids g) ∧
    ∀ o1 n o2, order = o1 ++ n :: o2 → ∀ p, p ∈ preds g n → p ∈ o1.
Proof.
  intros Hq. destruct (in_degrees_count (node_ids g) g ids_nodup) as [Hkeys Hdeg]; [intros e He; by apply Hk|].
  destruct (zero_degree_spec (in_degrees (node_ids g) g)) as [Hzn Hz];
    [unfold dict_wf; by rewrite Hkeys|].
  destruct (kahn_loop_spec (S (length (node_ids g))) (in_degrees (node_ids g) g) q [])
    as (order & deg' & Hrun & Hinv).
  { apply (kinv_init _ _ ids_nodup preds_in). split_and!; simpl; [intros n _; apply Hdeg| |done].
    rewrite Hq. apply NoDup_Permutation; [done|by apply NoDup_filter|].
    intros n. rewrite Hz, Hkeys, list_elem_of_filter. unfold abs_deg. tauto. }
  { simpl. lia. }
  assert (Hkc : length order = length (node_ids g) ↔ graph_acyclic g).
  { by apply (kahn_correct _ _ ids_nodup preds_in _ Hinv). }
  exists order. split_and!; [done|done| |].
  - intros Ha%Hkc. by apply (finished_perm _ _ ids_nodup preds_in _ Hinv).
  - intros o1 n o2 Ho. by apply (kinv_topo _ _ _ Hinv o1 n o2).
Qed.
End loop.

Lemma detect_cycles_spec g : edges_known g →
  ∃ b, detect_cycles (node_ids g) g = Some b ∧ (b = false ↔ graph_acyclic g).
Proof.
  intros Hk. unfold detect_cycles.
  destruct (kahn_run g Hk (λ c, target_node_id <$> get_successors c g)
    (λ c, Permutation_refl _) (zero_degree (in_degrees (node_ids g) g))) as (order & -> & Hl & _);
    [done|]. simpl. eexists. split; [done|].
  rewrite negb_false_iff, bool_decide_eq_true. done.
Qed.

Lemma defect_if (P : Prop) `{Decision P} (x : graph_defect) :
  (if bool_decide P then [x] else []) = [] ↔ ¬ P.
Proof. case_bool_decide; naive_solver. Qed.
Lemma edge_defects_spec g : let found := concat (edge_defects (node_ids g) <$> edges g) in
  (found = [] ↔ edges_known g) ∧ Cycle ∉ found.
Proof.
  unfold edges_known. induction (edges g) as [|e es [IH1 IH2]]; simpl.
  { split; [|apply not_elem_of_nil]. split; [by intros _ ? ?%elem_of_nil|done]. }
  unfold edge_defects at 1 3. split.
  - rewrite !app_nil, IH1. setoid_rewrite elem_of_cons.
    repeat case_bool_decide; naive_solver.
  - rewrite !not_elem_of_app.
    repeat case_bool_decide; rewrite ?not_elem_of_cons; split_and!; try done;
      apply not_elem_of_nil.
Qed.

Lemma validate_cases g : ∃ errors, validate_graph g = Some errors ∧
  (errors = [] ↔ nodes g ≠ [] ∧ entry_nodes g ≠ [] ∧ terminal_nodes g ≠ [] ∧
     edges_known g ∧ graph_acyclic g) ∧
  (Cycle ∈ errors → errors = [Cycle] ∧ edges_known g ∧ ¬ graph_acyclic g).
Proof.
  unfold validate_graph. destruct (edge_defects_spec g) as [He Hc]. cbv zeta in *.
  destruct (nodes g) as [|n ns] eqn:Hn.
  { eexists. split; [done|]. split; [naive_solver|]. by intros ?%list_elem_of_singleton. }
  set (found := concat _) in *. set (errors := _ ++ _ ++ found).
  assert (Hnil : errors = [] ↔ entry_nodes g ≠ [] ∧ terminal_nodes g ≠ [] ∧ edges_known g).
  { unfold errors. rewrite !app_nil, He, !defect_if. tauto. }
  case_bool_decide as Hl.
  - apply nil_length_inv in Hl. pose proof (proj1 Hnil Hl) as (H1 & H2 & Hk).
    destruct (detect_cycles_spec g Hk) as (b & -> & Hb). simpl. eexists. split; [done|].
    destruct b; split.
    + split; [done|]. intros (_ & _ & _ & _ & Ha%Hb). done.
    + intros _. split_and!; [done..|]. intros Ha%Hb. done.
    + split; [|done]. intros _. split_and!; try done. by apply Hb.
    + by intros ?%elem_of_nil.
  - assert (errors ≠ []) by (intros E; by rewrite E in Hl).
    eexists. split; [done|]. split; [tauto|]. intros Hin. exfalso. revert Hin.
    unfold errors. rewrite !elem_of_app. intros [Hin|[Hin|?]]; [| |done].
    + case_bool_decide; [by apply list_elem_of_singleton in Hin|by apply elem_of_nil in Hin].
    + case_bool_decide; [by apply list_elem_of_singleton in Hin|by apply elem_of_nil in Hin].
Qed.

(** * Properties *)

(** [validate_graph] terminates and finds nothing exactly when the graph
    has a node, an entry, a terminal node, no edge to or from an unknown
    node, and no cycle; a cycle is reported only when it is the sole
    defect. *)
Theorem validate_graph_spec g : ∃ errors, validate_graph g = Some errors ∧
  (errors = [] ↔ nodes g ≠ [] ∧ entry_nodes g ≠ [] ∧ terminal_nodes g ≠ [] ∧
     edges_known g ∧ graph_acyclic g) ∧
  (Cycle ∈ errors → errors = [Cycle] ∧ edges_known g ∧ ¬ graph_acyclic g).
Proof. apply validate_cases. Qed.
