(* ===== verification/GraphRun.v ===== *)
(** A running graph: the executions of its nodes and the run that owns them.

    Source: src/src/domain/model/agent/graph/graph_run.py,
    graph_run_status.py, node_execution.py, node_execution_status.py.  The
    methods mutate the entity in place; here they return the new one.  Times
    are integers, a method reads the clock once, and the identifier of an
    execution, which no method reads, is left out. *)

From stdpp Require Import pretty.
From S2P Require Import Prelude AgentGraph.

Open Scope string_scope.
Open Scope list_scope.
Open Scope nat_scope.

Inductive NodeExecutionStatus : Set :=
  NE_PENDING | NE_RUNNING | NE_COMPLETED | NE_FAILED | NE_SKIPPED | NE_CANCELLED.
#[export] Instance NodeExecutionStatus_eq_dec : EqDecision NodeExecutionStatus.
Proof. solve_decision. Defined.
Definition ne_status_terminal (s : NodeExecutionStatus) : bool :=
  bool_decide (s ∈ [NE_COMPLETED; NE_FAILED; NE_SKIPPED; NE_CANCELLED]).

Inductive GraphRunStatus : Set := PENDING | RUNNING | COMPLETED | FAILED | CANCELLED.
#[export] Instance GraphRunStatus_eq_dec : EqDecision GraphRunStatus.
Proof. solve_decision. Defined.
Definition run_status_terminal (s : GraphRunStatus) : bool :=
  bool_decide (s ∈ [COMPLETED; FAILED; CANCELLED]).

Record NodeExecution : Type := mkExec {
  ne_graph_run_id : string;
  ne_node_id : string;
  agent_session_id : option string;
  ne_status : NodeExecutionStatus;
  input_context : context;
  output_context : context;
  ne_error : option string;
  ne_started_at : option Z;
  ne_completed_at : option Z;
}.

Record GraphRun : Type := mkRun {
  run_id : string;
  run_graph_id : string;
  conversation_id : string;
  run_tenant_id : string;
  run_project_id : string;
  status : GraphRunStatus;
  node_executions : list (string * NodeExecution);
  shared_context : context;
  current_node_ids : list string;
  total_steps : Z;
  run_max_steps : Z;
  error_message : option string;
  started_at : option Z;
  completed_at : option Z;
}.

(** The ValueErrors of the two entities. *)
Inductive run_error : Type :=
  | FieldError (e : field_error)
  | CannotStartNode (s : NodeExecutionStatus)
  | CannotCompleteNode (s : NodeExecutionStatus)
  | CannotFailNode (s : NodeExecutionStatus)
  | CannotSkipNode (s : NodeExecutionStatus)
  | CannotStartRun (s : GraphRunStatus)
  | CannotCompleteRun (s : GraphRunStatus)
  | CannotFailRun (s : GraphRunStatus)
  | DuplicateExecution (nid : string).
Definition checked {A} (r : result field_error A) : result run_error A :=
  match r with Ok a => Ok a | Err e => Err (FieldError e) end.

(** * Node executions *)

Definition new_execution (rid nid : string) (input : context) : result run_error NodeExecution :=
  _ ← checked (required "graph_run_id" rid);
  _ ← checked (required "node_id" nid);
  mret (mkExec rid nid None NE_PENDING input [] None None None).
Definition set_execution (ne : NodeExecution) (session : option string)
    (st : NodeExecutionStatus) (output : context) (err : option string)
    (started completed : option Z) : NodeExecution :=
  mkExec (ne_graph_run_id ne) (ne_node_id ne) session st (input_context ne) output err
    started completed.

Definition ne_mark_running (session : string) (now : Z) (ne : NodeExecution)
    : result run_error NodeExecution :=
  if bool_decide (ne_status ne ≠ NE_PENDING) then Err (CannotStartNode (ne_status ne))
  else Ok (set_execution ne (Some session) NE_RUNNING (output_context ne) (ne_error ne)
             (Some now) (ne_completed_at ne)).
Definition ne_mark_completed (output : option context) (now : Z) (ne : NodeExecution)
    : result run_error NodeExecution :=
  if bool_decide (ne_status ne ≠ NE_RUNNING) then Err (CannotCompleteNode (ne_status ne))
  else Ok (set_execution ne (agent_session_id ne) NE_COMPLETED
             (default (output_context ne) output) (ne_error ne) (ne_started_at ne) (Some now)).
Definition ne_mark_failed (err : string) (now : Z) (ne : NodeExecution)
    : result run_error NodeExecution :=
  if bool_decide (ne_status ne ≠ NE_RUNNING) then Err (CannotFailNode (ne_status ne))
  else Ok (set_execution ne (agent_session_id ne) NE_FAILED (output_context ne) (Some err)
             (ne_started_at ne) (Some now)).
Definition ne_mark_skipped (now : Z) (ne : NodeExecution) : result run_error NodeExecution :=
  if bool_decide (ne_status ne ≠ NE_PENDING) then Err (CannotSkipNode (ne_status ne))
  else Ok (set_execution ne (agent_session_id ne) NE_SKIPPED (output_context ne) (ne_error ne)
             (ne_started_at ne) (Some now)).
Definition ne_mark_cancelled (now : Z) (ne : NodeExecution) : NodeExecution :=
  if ne_status_terminal (ne_status ne) then ne
  else set_execution ne (agent_session_id ne) NE_CANCELLED (output_context ne) (ne_error ne)
         (ne_started_at ne) (Some now).
Definition ne_is_terminal (ne : NodeExecution) : bool := ne_status_terminal (ne_status ne).
Definition duration (started completed : option Z) : option Z :=
  match started, completed with Some s, Some c => Some (c - s)%Z | _, _ => None end.
Definition ne_duration_seconds (ne : NodeExecution) : option Z :=
  duration (ne_started_at ne) (ne_completed_at ne).

(** * Runs *)

Definition new_run (rid gid conv tenant project : string) (max_steps : Z) (shared : context)
    : result run_error GraphRun :=
  _ ← checked (required "graph_id" gid);
  _ ← checked (required "conversation_id" conv);
  _ ← checked (required "tenant_id" tenant);
  _ ← checked (required "project_id" project);
  if bool_decide (max_steps < 1)%Z then Err (FieldError MaxStepsTooSmall)
  else mret (mkRun rid gid conv tenant project PENDING [] shared [] 0 max_steps None None None).

Definition set_run (r : GraphRun) (st : GraphRunStatus)
    (execs : list (string * NodeExecution)) (shared : context) (current : list string)
    (steps : Z) (err : option string) (started completed : option Z) : GraphRun :=
  mkRun (run_id r) (run_graph_id r) (conversation_id r) (run_tenant_id r) (run_project_id r)
    st execs shared current steps (run_max_steps r) err started completed.

Definition mark_running (entry : list string) (now : Z) (r : GraphRun)
    : result run_error GraphRun :=
  if bool_decide (status r ≠ PENDING) then Err (CannotStartRun (status r))
  else Ok (set_run r RUNNING (node_executions r) (shared_context r) entry (total_steps r)
             (error_message r) (Some now) (completed_at r)).
Definition mark_completed (now : Z) (r : GraphRun) : result run_error GraphRun :=
  if bool_decide (status r ≠ RUNNING) then Err (CannotCompleteRun (status r))
  else Ok (set_run r COMPLETED (node_executions r) (shared_context r) [] (total_steps r)
             (error_message r) (started_at r) (Some now)).
Definition mark_failed (err : string) (now : Z) (r : GraphRun) : result run_error GraphRun :=
  if bool_decide (status r ≠ RUNNING) then Err (CannotFailRun (status r))
  else Ok (set_run r FAILED (node_executions r) (shared_context r) [] (total_steps r)
             (Some err) (started_at r) (Some now)).
Definition is_terminal_run (r : GraphRun) : bool := run_status_terminal (status r).
Definition mark_cancelled (now : Z) (r : GraphRun) : GraphRun :=
  if is_terminal_run r then r
  else set_run r CANCELLED
         ((λ kv : string * NodeExecution, (kv.1, ne_mark_cancelled now kv.2)) <$> node_executions r)
         (shared_context r) [] (total_steps r) (error_message r) (started_at r) (Some now).

Definition get_node_execution (nid : string) (r : GraphRun) : option NodeExecution :=
  dget nid (node_executions r).
Definition set_executions (execs : list (string * NodeExecution)) (r : GraphRun) : GraphRun :=
  set_run r (status r) execs (shared_context r) (current_node_ids r) (total_steps r)
    (error_message r) (started_at r) (completed_at r).
Definition add_node_execution (ne : NodeExecution) (r : GraphRun) : result run_error GraphRun :=
  if dmem (ne_node_id ne) (node_executions r) then Err (DuplicateExecution (ne_node_id ne))
  else Ok (set_executions (dset (ne_node_id ne) ne (node_executions r)) r).

Definition limit_message (r : GraphRun) : string :=
  "Graph run exceeded maximum steps (" +:+ pretty (run_max_steps r) +:+ ")".
Definition increment_step (now : Z) (r : GraphRun) : result run_error GraphRun :=
  let r := set_run r (status r) (node_executions r) (shared_context r) (current_node_ids r)
             (total_steps r + 1) (error_message r) (started_at r) (completed_at r) in
  if bool_decide (run_max_steps r <= total_steps r)%Z
  then mark_failed (limit_message r) now r else Ok r.
Definition update_shared_context (updates : context) (r : GraphRun) : GraphRun :=
  set_run r (status r) (node_executions r)
    (foldl (λ d kv, dset kv.1 kv.2 d) (shared_context r) updates)
    (current_node_ids r) (total_steps r) (error_message r) (started_at r) (completed_at r).

Definition ids_with (st : NodeExecutionStatus) (r : GraphRun) : list string :=
  (filter (λ kv : string * NodeExecution, ne_status kv.2 = st) (node_executions r)).*1.
Definition running_node_ids : GraphRun → list string := ids_with NE_RUNNING.
Definition completed_node_ids : GraphRun → list string := ids_with NE_COMPLETED.
Definition failed_node_ids : GraphRun → list string := ids_with NE_FAILED.
Definition all_nodes_terminal (r : GraphRun) : bool :=
  negb (bool_decide (node_executions r = [])) &&
  forallb (λ kv : string * NodeExecution, ne_is_terminal kv.2) (node_executions r).
Definition run_duration_seconds (r : GraphRun) : option Z :=
  duration (started_at r) (completed_at r).

(** * Lemmas *)

Definition exec_status (nid : string) (r : GraphRun) : option NodeExecutionStatus :=
  ne_status <$> get_node_execution nid r.

Lemma ids_with_spec st r nid : dict_wf (node_executions r) →
  nid ∈ ids_with st r ↔ exec_status nid r = Some st.
Proof.
  intros Hw. unfold ids_with, exec_status, get_node_execution. rewrite list_elem_of_fmap.
  setoid_rewrite list_elem_of_filter. rewrite fmap_Some. split.
  - intros ([k ne] & -> & Hst & Hin). simpl in *. exists ne. eauto using elem_of_dget.
  - intros (ne & Hne & ->). exists (nid, ne). eauto using dget_Some_elem.
Qed.
