(* ===== verification/GraphPatterns.v ===== *)
(** The pattern coordinators: which nodes of a graph run next, and when the
    run is complete.

    Source: src/src/infrastructure/agent/orchestration/patterns/.  The
    interface [PatternCoordinator] is the protocol of base.py; its laws are
    what the orchestrator relies on, whichever pattern it runs. *)

From S2P Require Import Prelude Kahn AgentGraph GraphRun.

Open Scope string_scope.
Open Scope list_scope.
Open Scope nat_scope.

(** [None] only when the topological sort of the pipeline runs out of fuel. *)
Record PatternCoordinator : Type := {
  get_next_node_ids : AgentGraph → GraphRun → option (list string);
  should_complete_run : AgentGraph → GraphRun → bool;
}.

Definition completed (nid : string) (r : GraphRun) : bool :=
  match get_node_execution nid r with
  | Some ne => bool_decide (ne_status ne = NE_COMPLETED)
  | None => false
  end.
Definition all_predecessors_done (g : AgentGraph) (r : GraphRun) (nid : string) : bool :=
  forallb (λ e, completed (source_node_id e) r) (get_predecessors nid g).
Definition not_started (r : GraphRun) (nid : string) : bool :=
  match get_node_execution nid r with None => true | Some _ => false end.
Definition entry_ids (g : AgentGraph) : list string := node_id <$> entry_nodes g.
Definition terminals_complete (g : AgentGraph) (r : GraphRun) : bool :=
  forallb (λ t, completed (node_id t) r) (terminal_nodes g).

Module Supervisor.
Definition ready (g : AgentGraph) (r : GraphRun) (n : AgentNode) : bool :=
  not_started r (node_id n) && negb (bool_decide (get_predecessors (node_id n) g = [])) &&
  all_predecessors_done g r (node_id n).
Definition get_next_node_ids (g : AgentGraph) (r : GraphRun) : option (list string) :=
  if is_terminal_run r then Some []
  else if negb (bool_decide (running_node_ids r = [])) then Some []
  else if bool_decide (node_executions r = []) then Some (entry_ids g)
  else Some (option_list (node_id <$> List.find (ready g r) (nodes g))).
Definition coordinator : PatternCoordinator :=
  Build_PatternCoordinator get_next_node_ids terminals_complete.
End Supervisor.

Module Pipeline.
Definition topological_order (g : AgentGraph) : option (list string) :=
  let deg := in_degrees (node_ids g) g in
  kahn_loop (S (length (node_ids g)))
    (λ c, sort_by String.leb (target_node_id <$> get_successors c g)) deg
    (sort_by String.leb (zero_degree deg)) [].
Definition get_next_node_ids (g : AgentGraph) (r : GraphRun) : option (list string) :=
  if is_terminal_run r then Some []
  else if negb (bool_decide (running_node_ids r = [])) then Some []
  else if bool_decide (node_executions r = []) then Some (take 1 (entry_ids g))
  else
    order ← topological_order g;
    Some (option_list (List.find (λ nid, not_started r nid && all_predecessors_done g r nid) order)).
Definition coordinator : PatternCoordinator :=
  Build_PatternCoordinator get_next_node_ids terminals_complete.
End Pipeline.

Module FanOut.
Definition get_next_node_ids (g : AgentGraph) (r : GraphRun) : option (list string) :=
  if is_terminal_run r then Some []
  else if bool_decide (node_executions r = []) then Some (entry_ids g)
  else Some (node_id <$> filter (λ n, not_started r (node_id n) = true ∧
                                      (get_predecessors (node_id n) g = [] ∨
                                       all_predecessors_done g r (node_id n) = true)) (nodes g)).
Definition coordinator : PatternCoordinator :=
  Build_PatternCoordinator get_next_node_ids terminals_complete.
End FanOut.

Module Swarm.
Definition get_next_node_ids (g : AgentGraph) (r : GraphRun) : option (list string) :=
  if is_terminal_run r then Some []
  else if bool_decide (node_executions r = []) then Some (entry_ids g)
  else Some [].
Definition should_complete_run (g : AgentGraph) (r : GraphRun) : bool :=
  if terminals_complete g r then true
  else if bool_decide (running_node_ids r = []) && negb (bool_decide (node_executions r = []))
  then forallb (λ kv : string * NodeExecution, ne_is_terminal kv.2) (node_executions r)
  else false.
Inductive handoff_error : Type :=
  | UnknownTarget (nid : string)
  | AlreadyExecuted (nid : string) (st : NodeExecutionStatus).
Definition validate_handoff_target (g : AgentGraph) (r : GraphRun) (target : string)
    : option handoff_error :=
  if bool_decide (target ∉ node_ids g) then Some (UnknownTarget target)
  else
    match get_node_execution target r with
    | Some ne =>
        if bool_decide (ne_status ne ≠ NE_FAILED)
        then Some (AlreadyExecuted target (ne_status ne)) else None
    | None => None
    end.
Definition coordinator : PatternCoordinator :=
  Build_PatternCoordinator get_next_node_ids should_complete_run.
End Swarm.

Definition get_coordinator_for_pattern (p : GraphPattern) : PatternCoordinator :=
  match p with
  | SUPERVISOR | HIERARCHICAL => Supervisor.coordinator
  | PIPELINE => Pipeline.coordinator
  | FAN_OUT => FanOut.coordinator
  | SWARM => Swarm.coordinator
  end.

(** * What the orchestrator relies on *)

Lemma completed_spec nid r : completed nid r = true ↔ exec_status nid r = Some NE_COMPLETED.
Proof.
  unfold completed, exec_status. destruct (get_node_execution nid r) as [ne|]; simpl; [|done].
  rewrite bool_decide_eq_true. split; [by intros ->|by intros [= ->]].
Qed.
Lemma not_started_spec nid r : not_started r nid = true ↔ get_node_execution nid r = None.
Proof. unfold not_started. by destruct (get_node_execution nid r). Qed.
Lemma preds_done_spec g r nid : all_predecessors_done g r nid = true ↔
  ∀ p, p ∈ preds g nid → exec_status p r = Some NE_COMPLETED.
Proof.
  unfold all_predecessors_done, preds. rewrite forallb_forall. setoid_rewrite <-list_elem_of_In.
  setoid_rewrite completed_spec. setoid_rewrite list_elem_of_fmap. naive_solver.
Qed.
Lemma elem_of_entry_ids g i : i ∈ entry_ids g → i ∈ node_ids g.
Proof.
  unfold entry_ids, entry_nodes. rewrite elem_of_node_ids.
  intros (n & -> & [_ Hn]%list_elem_of_filter)%list_elem_of_fmap. eauto.
Qed.
Lemma no_executions nid r : node_executions r = [] → get_node_execution nid r = None.
Proof. unfold get_node_execution. by intros ->. Qed.
Lemma preds_nil g nid : get_predecessors nid g = [] ↔ preds g nid = [].
Proof. unfold preds. by destruct (get_predecessors nid g). Qed.

(** A node the coordinator may hand out: known, not executed, and an entry
    or with every predecessor completed. *)
Definition startable (g : AgentGraph) (r : GraphRun) (nid : string) : Prop :=
  nid ∈ node_ids g ∧ get_node_execution nid r = None ∧
  (nid ∈ entry_ids g ∨ ∀ p, p ∈ preds g nid → exec_status p r = Some NE_COMPLETED).

Lemma entries_startable g r nid : node_executions r = [] → nid ∈ entry_ids g → startable g r nid.
Proof. intros Hr Hn. split_and!; eauto using elem_of_entry_ids, no_executions. Qed.
Lemma ready_startable g r nid : nid ∈ node_ids g → not_started r nid = true →
  all_predecessors_done g r nid = true → startable g r nid.
Proof.
  intros Hn Hs%not_started_spec Hp. split_and!; [done..|]. right. by apply preds_done_spec.
Qed.

Lemma pipeline_order g : edges_known g → ∃ order, Pipeline.topological_order g = Some order ∧
  (graph_acyclic g → order ≡ₚ node_ids g) ∧
  ∀ o1 n o2, order = o1 ++ n :: o2 → ∀ p, p ∈ preds g n → p ∈ o1.
Proof.
  intros Hk. unfold Pipeline.topological_order.
  destruct (kahn_run g Hk (λ c, sort_by String.leb (target_node_id <$> get_successors c g))
    (λ c, sort_by_perm _ _) (sort_by String.leb (zero_degree (in_degrees (node_ids g) g))))
    as (order & -> & _ & Hp & Ht); [by rewrite sort_by_perm|]. eauto.
Qed.

(** ** The laws *)

Class CoordinatorLaws (p : GraphPattern) (c : PatternCoordinator) : Prop := {
  law_total : ∀ g r, edges_known g → is_Some (get_next_node_ids c g r);
  law_startable : ∀ g r ids nid, edges_known g → graph_acyclic g →
    get_next_node_ids c g r = Some ids → nid ∈ ids → startable g r nid;
  law_first : ∀ g r ids nid, is_terminal_run r = false → node_executions r = [] →
    get_next_node_ids c g r = Some ids →
    (nid ∈ ids → nid ∈ entry_ids g) ∧ (p ≠ PIPELINE → nid ∈ entry_ids g → nid ∈ ids);
  law_sequential : ∀ g r ids, p = PIPELINE → get_next_node_ids c g r = Some ids →
    length ids ≤ 1 ∧ (ids ≠ [] → running_node_ids r = []);
  law_complete : ∀ g r nid, p ≠ SWARM → should_complete_run c g r = true →
    nid ∈ node_id <$> terminal_nodes g → exec_status nid r = Some NE_COMPLETED;
}.

Lemma terminals_complete_spec g r nid : terminals_complete g r = true →
  nid ∈ node_id <$> terminal_nodes g → exec_status nid r = Some NE_COMPLETED.
Proof.
  unfold terminals_complete. rewrite forallb_forall. setoid_rewrite <-list_elem_of_In.
  intros H (n & -> & Hn)%list_elem_of_fmap. by apply completed_spec, H.
Qed.
Lemma terminal_run_next c g r : (∃ p, c = get_coordinator_for_pattern p) →
  is_terminal_run r = true → get_next_node_ids c g r = Some [].
Proof.
  intros [p ->] Ht. destruct p; simpl;
    unfold Supervisor.get_next_node_ids, Pipeline.get_next_node_ids, FanOut.get_next_node_ids,
      Swarm.get_next_node_ids; by rewrite Ht.
Qed.

Lemma supervisor_startable g r ids nid :
  Supervisor.get_next_node_ids g r = Some ids → nid ∈ ids → startable g r nid.
Proof.
  unfold Supervisor.get_next_node_ids. destruct (is_terminal_run r).
  { by intros [= <-] ?%elem_of_nil. }
  destruct (negb _); [by intros [= <-] ?%elem_of_nil|].
  case_bool_decide as He; [intros [= <-] Hn; by apply entries_startable|].
  destruct (List.find _ _) as [n|] eqn:E; intros [= <-]; simpl; [|by intros ?%elem_of_nil].
  intros ->%list_elem_of_singleton. apply find_Some_first in E as [Hin H].
  unfold Supervisor.ready in H. split_bools. apply ready_startable; [|done..].
  apply elem_of_node_ids. eauto.
Qed.
Lemma pipeline_startable g r ids nid : edges_known g → graph_acyclic g →
  Pipeline.get_next_node_ids g r = Some ids → nid ∈ ids → startable g r nid.
Proof.
  intros Hk Ha. unfold Pipeline.get_next_node_ids. destruct (is_terminal_run r).
  { by intros [= <-] ?%elem_of_nil. }
  destruct (negb _); [by intros [= <-] ?%elem_of_nil|].
  case_bool_decide as He.
  { intros [= <-] Hn. apply entries_startable; [done|]. eapply elem_of_take in Hn as (i & Hi & _).
    by eapply list_elem_of_lookup_2. }
  destruct (pipeline_order g Hk) as (order & -> & Hp & _). simpl.
  destruct (List.find _ _) as [n|] eqn:E; intros [= <-]; simpl; [|by intros ?%elem_of_nil].
  intros ->%list_elem_of_singleton. apply find_Some_first in E as [Hin H].
  split_bools. apply ready_startable; [|done..]. by rewrite <-(Hp Ha).
Qed.
Lemma fan_out_startable g r ids nid :
  FanOut.get_next_node_ids g r = Some ids → nid ∈ ids → startable g r nid.
Proof.
  unfold FanOut.get_next_node_ids. destruct (is_terminal_run r).
  { by intros [= <-] ?%elem_of_nil. }
  case_bool_decide as He; [intros [= <-] Hn; by apply entries_startable|].
  intros [= <-] (n & -> & [[Hs Hp] Hn]%list_elem_of_filter)%list_elem_of_fmap.
  apply ready_startable; [apply elem_of_node_ids; eauto|done|].
  destruct Hp as [Hp|?]; [|done]. unfold all_predecessors_done. by rewrite Hp.
Qed.
Lemma swarm_startable g r ids nid :
  Swarm.get_next_node_ids g r = Some ids → nid ∈ ids → startable g r nid.
Proof.
  unfold Swarm.get_next_node_ids. destruct (is_terminal_run r).
  { by intros [= <-] ?%elem_of_nil. }
  case_bool_decide as He; [intros [= <-] Hn; by apply entries_startable|].
  by intros [= <-] ?%elem_of_nil.
Qed.

#[export] Instance coordinator_laws p : CoordinatorLaws p (get_coordinator_for_pattern p).
Proof.
  split.
  - intros g r Hk. destruct (pipeline_order g Hk) as (order & Ho & _).
    destruct p; simpl; unfold Supervisor.get_next_node_ids, Pipeline.get_next_node_ids,
      FanOut.get_next_node_ids, Swarm.get_next_node_ids; rewrite ?Ho; simpl; case_goal; eauto.
  - intros g r ids nid Hk Ha. destruct p; simpl;
      eauto using supervisor_startable, pipeline_startable, fan_out_startable, swarm_startable.
  - intros g r ids nid Ht He Hn.
    assert (Hr : running_node_ids r = []) by (unfold running_node_ids, ids_with; by rewrite He).
    destruct p; simpl in Hn; unfold Supervisor.get_next_node_ids, Pipeline.get_next_node_ids,
      FanOut.get_next_node_ids, Swarm.get_next_node_ids in Hn;
      rewrite Ht, ?Hr, ?bool_decide_true in Hn by done; simpl in Hn; injection Hn as <-;
      split; try done; intros Hin. apply elem_of_take in Hin as (i & Hi & _).
      by eapply list_elem_of_lookup_2.
  - intros g r ids -> Hn. simpl in Hn. unfold Pipeline.get_next_node_ids in Hn.
    destruct (is_terminal_run r); [injection Hn as <-; simpl; split; [lia|done]|].
    case_bool_decide as Hr; simpl in Hn; [|injection Hn as <-; simpl; split; [lia|done]].
    split; [|done]. case_bool_decide.
    + injection Hn as <-. rewrite length_take. lia.
    + destruct (Pipeline.topological_order g); simpl in Hn; [|done]. injection Hn as <-.
      destruct (List.find _ _); simpl; lia.
  - intros g r nid Hp Hc. destruct p; simpl in Hc; try done; by apply terminals_complete_spec.
Qed.

(** ** Progress *)

(** The first node of a topological order that was not executed has only
    executed predecessors. *)
Lemma first_not_started (order : list string) (ps : string → list string) (P : string → bool) x :
  (∀ o1 n o2, order = o1 ++ n :: o2 → ∀ p, p ∈ ps n → p ∈ o1) →
  x ∈ order → P x = true →
  ∃ n, n ∈ order ∧ P n = true ∧ ∀ p, p ∈ ps n → P p = false.
Proof.
  intros Ht Hx HP.
  destruct (List.find P order) as [n|] eqn:E;
    [|rewrite find_None_all in E; rewrite (E x Hx) in HP; done].
  assert (∃ o1 o2, order = o1 ++ n :: o2 ∧ P n = true ∧ ∀ p, p ∈ o1 → P p = false) as
    (o1 & o2 & -> & Hn & Hb).
  { clear Ht Hx HP. induction order as [|y order IH]; simpl in E; [done|].
    destruct (P y) eqn:Hy.
    - injection E as <-. exists [], order. split_and!; [done..|by intros ? ?%elem_of_nil].
    - destruct (IH E) as (o1 & o2 & -> & Hn & Hb). exists (y :: o1), o2.
      split_and!; [done..|]. intros p [->|?]%elem_of_cons; auto. }
  exists n. split_and!; [apply elem_of_app; right; left|done|].
  intros p Hp. apply Hb. eauto.
Qed.

(** When nothing runs, every execution completed, and yet no node is handed
    out, then every node was completed. *)
Lemma nothing_left p g r nid : p ≠ SWARM → edges_known g → graph_acyclic g →
  status r = RUNNING → node_executions r ≠ [] → dict_wf (node_executions r) →
  (∀ i st, exec_status i r = Some st → st = NE_COMPLETED) →
  (p ∈ [SUPERVISOR; HIERARCHICAL] →
     ∀ n, n ∈ node_ids g → preds g n = [] → is_Some (get_node_execution n r)) →
  get_next_node_ids (get_coordinator_for_pattern p) g r = Some [] →
  nid ∈ node_ids g → exec_status nid r = Some NE_COMPLETED.
Proof.
  intros Hsw Hk Ha Hst Hne Hw Hall Hsup Hnext Hnid.
  assert (Hdone : ∀ i, not_started r i = false → exec_status i r = Some NE_COMPLETED).
  { intros i Hi. unfold not_started in Hi. destruct (get_node_execution i r) as [ne|] eqn:E;
      [|done]. unfold exec_status. rewrite E. simpl. f_equal. apply (Hall i).
    unfold exec_status. by rewrite E. }
  destruct (not_started r nid) eqn:Hns; [exfalso|by apply Hdone].
  destruct (pipeline_order g Hk) as (order & Ho & Hperm & Ht). specialize (Hperm Ha).
  destruct (first_not_started order (preds g) (not_started r) nid) as (n & Hn & Hn1 & Hn2);
    [done|by rewrite Hperm|done|].
  assert (Hpd : all_predecessors_done g r n = true) by (apply preds_done_spec; auto).
  assert (Hterm : is_terminal_run r = false) by (unfold is_terminal_run; by rewrite Hst).
  assert (Hrun : running_node_ids r = []).
  { unfold running_node_ids. destruct (ids_with NE_RUNNING r) as [|i l] eqn:E; [done|].
    assert (i ∈ ids_with NE_RUNNING r) as Hi by (rewrite E; left).
    apply ids_with_spec in Hi; [|done].
    by apply Hall in Hi. }
  assert (Hnid' : n ∈ node_ids g) by (by rewrite <-Hperm).
  pose proof Hnid' as (m & Hm & Hmn)%elem_of_node_ids.
  destruct p; simpl in Hnext; [| | |done|].
  all: unfold Supervisor.get_next_node_ids, Pipeline.get_next_node_ids,
    FanOut.get_next_node_ids in Hnext;
    rewrite Hterm, ?Hrun, ?(bool_decide_true ([] = [])), bool_decide_false in Hnext by done;
    simpl in Hnext.
  1, 4: injection Hnext as Hf; destruct (List.find _ _) as [z|] eqn:E; [done|];
    rewrite find_None_all in E; specialize (E m Hm); unfold Supervisor.ready in E;
    rewrite Hmn, Hn1, Hpd, andb_true_r, andb_true_l in E; split_bools; apply preds_nil in E;
    destruct (Hsup ltac:(set_solver) n Hnid' E) as [ne Hne'];
    apply not_started_spec in Hn1; congruence.
  - rewrite Ho in Hnext. simpl in Hnext. injection Hnext as Hf.
    destruct (List.find _ _) as [z|] eqn:E; [done|]. rewrite find_None_all in E.
    specialize (E n Hn). by rewrite Hn1, Hpd in E.
  - injection Hnext as Hf. apply fmap_nil_inv in Hf.
    apply (elem_of_nil m). rewrite <-Hf, list_elem_of_filter, Hmn. auto.
Qed.
