(* ===== verification/GraphOrchestrator.v ===== *)
(** The graph orchestrator: starting a run, the callbacks for a finished or
    failed node, cancellation and hand-offs.

    Source: src/src/infrastructure/agent/orchestration/graph_orchestrator.py.
    Its collaborators are interfaces: the graph repository is a lookup, the
    run repository [GraphRunRepository] hands out a fresh copy of what was
    saved last, [AgentSpawner] is [AgentOrchestrator.spawn_agent] ([None] when it
    raises).  [str] of a context value is a parameter.  A raised error leaves
    the agents it spawned, so the monad keeps the state. *)

From S2P Require Import Prelude Kahn AgentGraph GraphRun GraphPatterns.

Open Scope string_scope.
Open Scope list_scope.
Open Scope nat_scope.

(** * Collaborators *)

Class GraphRunRepository (St : Type) : Type := {
  find_run : string → St → option GraphRun;
  save_run : GraphRun → St → St;
  runs_of_graph : string → St → list GraphRun;
}.
Class GraphRunRepositoryLaws (St : Type) `{GraphRunRepository St} : Prop := {
  find_save : ∀ r st i, find_run i (save_run r st) = if decide (i = run_id r) then Some r else find_run i st;
}.

Record spawn_request : Type := mkRequest {
  rq_parent_agent : string;
  rq_target_agent : string;
  rq_message : string;
  rq_parent_session : string;
  rq_project : string;
  rq_conversation : string;
  rq_metadata : context;
  rq_tenant : string;
}.
(** The session the agent runs in. *)
Class AgentSpawner (Sp : Type) : Type := {
  spawn_agent : spawn_request → Sp → Sp * option string;
}.

Record world (St Sp : Type) : Type := mkWorld { w_runs : St; w_agents : Sp }.
Arguments mkWorld {St Sp}.
Arguments w_runs {St Sp}.
Arguments w_agents {St Sp}.

Inductive graph_event : Type :=
  | GraphRunStarted (rid gid name pattern : string) (entry : list string)
  | GraphNodeStarted (rid nid lbl agent session : string)
  | GraphNodeCompleted (rid nid lbl : string) (output_keys : list string) (seconds : option Z)
  | GraphNodeFailed (rid nid lbl err : string)
  | GraphNodeSkipped (rid nid lbl reason : string)
  | GraphRunCompleted (rid gid name : string) (steps : Z) (seconds : option Z)
  | GraphRunFailed (rid gid name err nid : string)
  | GraphRunCancelled (rid gid name reason : string)
  | GraphHandoff (rid from to from_label to_label summary : string).

Inductive orch_error : Type :=
  | GraphNotFound (gid : string)
  | GraphScopeMismatch (gid : string)
  | RunNotInGraph (rid gid : string)
  | RunScopeMismatch (rid : string)
  | GraphInactive (gid : string)
  | InvalidGraph (errors : list graph_defect)
  | NoEntryNodes
  | RunNotFound (rid : string)
  | ExecutionNotFound (nid : string)
  | NodeNotFound (nid : string)
  | SpawnFailed (nid : string)
  | HandoffUnsupported (p : GraphPattern)
  | HandoffRejected (e : Swarm.handoff_error)
  | RunError (e : run_error)
  | OutOfFuel.

Section orchestrator.
Context {St Sp : Type} `{GraphRunRepository St, AgentSpawner Sp}.
Context (find_graph : string → option AgentGraph) (py_str : pyval → string).
Notation OM := (M (world St Sp) orch_error).

Definition lift_run {A} (r : result run_error A) : OM A :=
  match r with Ok a => mret a | Err e => mraise (RunError e) end.
Definition require {A} (o : option A) (e : orch_error) : OM A :=
  match o with Some a => mret a | None => mraise e end.
Definition load_run (rid : string) : OM GraphRun :=
  w ← mget; require (find_run rid (w_runs w)) (RunNotFound rid).
Definition persist (r : GraphRun) : OM unit :=
  mmodify (λ w, mkWorld (save_run r (w_runs w)) (w_agents w)).
(** [s or t] on strings *)
Definition or_str (s t : string) : string := if truthy s then s else t.

(** * Spawning and scheduling *)

Definition context_text (c : context) : string :=
  String.concat ", " ((λ kv : string * pyval, kv.1 +:+ "=" +:+ py_str kv.2) <$> c).
Definition newline : string := String (Ascii.ascii_of_nat 10) "".
Definition node_message (n : AgentNode) (input : context) : string :=
  let parts := (if truthy (instruction n) then [instruction n] else []) ++
               (if bool_decide (input = []) then [] else ["Context: " +:+ context_text input]) in
  match parts with [] => label n | _ => String.concat newline parts end.
Definition node_metadata (g : AgentGraph) (r : GraphRun) (n : AgentNode) : context :=
  [("graph_run_id", PStr (run_id r)); ("graph_id", PStr (graph_id g));
   ("node_id", PStr (node_id n)); ("node_label", PStr (label n));
   ("graph_pattern", PStr (pattern_value (pattern g)))] ++
  (if bool_decide (node_config n = []) then [] else [("node_config", PDict (node_config n))]).

(** [_spawn_node]: the session, or [None] when the orchestrator raised. *)
Definition spawn_node (g : AgentGraph) (r : GraphRun) (ne : NodeExecution)
    (parent_agent parent_session project conv : string) : OM (option string) :=
  n ← require (get_node (ne_node_id ne) g) (NodeNotFound (ne_node_id ne));
  w ← mget;
  let '(agents, session) := spawn_agent
    (mkRequest parent_agent (agent_definition_id n) (node_message n (input_context ne))
       parent_session project conv (node_metadata g r n) (run_tenant_id r)) (w_agents w) in
  mmodify (λ w, mkWorld (w_runs w) agents);;
  mret session.

Definition started (g : AgentGraph) (now : Z) (n : AgentNode) (ne : NodeExecution)
    (session : string) (r : GraphRun) : OM (GraphRun * graph_event) :=
  ne ← lift_run (ne_mark_running session now ne);
  r ← lift_run (add_node_execution ne r);
  r ← lift_run (increment_step now r);
  mret (r, GraphNodeStarted (run_id r) (node_id n) (label n) (agent_definition_id n) session).

(** The loop of [start_run]: a spawn that raises ends it. *)
Fixpoint start_nodes (g : AgentGraph) (now : Z) (parent_agent parent_session project conv : string)
    (ids : list string) (r : GraphRun) (evs : list graph_event)
    : OM (GraphRun * list graph_event) :=
  match ids with
  | [] => mret (r, evs)
  | nid :: ids' =>
      match get_node nid g with
      | None => start_nodes g now parent_agent parent_session project conv ids' r evs
      | Some n =>
          ne ← lift_run (new_execution (run_id r) (node_id n) (shared_context r));
          session ← spawn_node g r ne parent_agent parent_session project conv;
          session ← require session (SpawnFailed nid);
          re ← started g now n ne session r;
          start_nodes g now parent_agent parent_session project conv ids' re.1 (evs ++ [re.2])
      end
  end.

(** [_schedule_node]: a spawn that raises skips the node. *)
Definition schedule_node (g : AgentGraph) (now : Z) (parent_agent parent_session : string)
    (nid : string) (r : GraphRun) : OM (GraphRun * list graph_event) :=
  match get_node nid g with
  | None => mret (r, [])
  | Some n =>
      ne ← lift_run (new_execution (run_id r) (node_id n) (shared_context r));
      session ← spawn_node g r ne parent_agent parent_session (run_project_id r)
        (conversation_id r);
      match session with
      | None =>
          ne ← lift_run (ne_mark_skipped now ne);
          r ← lift_run (add_node_execution ne r);
          mret (r, [GraphNodeSkipped (run_id r) (node_id n) (label n) "Failed to spawn agent"])
      | Some session =>
          re ← started g now n ne session r;
          mret (re.1, [re.2])
      end
  end.
Fixpoint schedule_nodes (g : AgentGraph) (now : Z) (parent_agent parent_session : string)
    (ids : list string) (r : GraphRun) (evs : list graph_event)
    : OM (GraphRun * list graph_event) :=
  match ids with
  | [] => mret (r, evs)
  | nid :: ids' =>
      re ← schedule_node g now parent_agent parent_session nid r;
      schedule_nodes g now parent_agent parent_session ids' re.1 (evs ++ re.2)
  end.

(** * The operations *)

Definition ensure_graph_scope (g : AgentGraph) (tenant project : string) : OM unit :=
  mguard (bool_decide (tenant_id g = tenant) && bool_decide (project_id g = project))
    (GraphScopeMismatch (graph_id g)).
Definition ensure_graph_matches_run (g : AgentGraph) (r : GraphRun) : OM unit :=
  mguard (bool_decide (run_graph_id r = graph_id g)) (RunNotInGraph (run_id r) (graph_id g));;
  mguard (bool_decide (tenant_id g = run_tenant_id r) &&
          bool_decide (project_id g = run_project_id r)) (RunScopeMismatch (run_id r)).

Definition start_run (uuid : string) (now : Z) (gid conv tenant project : string)
    (initial_context : context) (parent_session parent_agent : string)
    : OM (GraphRun * list graph_event) :=
  g ← require (find_graph gid) (GraphNotFound gid);
  ensure_graph_scope g tenant project;;
  mguard (is_active g) (GraphInactive gid);;
  errors ← require (validate_graph g) OutOfFuel;
  mguard (bool_decide (length errors = 0)) (InvalidGraph errors);;
  r ← lift_run (new_run uuid (graph_id g) conv tenant project (max_total_steps g) initial_context);
  ids ← require (get_next_node_ids (get_coordinator_for_pattern (pattern g)) g r) OutOfFuel;
  mguard (negb (bool_decide (ids = []))) NoEntryNodes;;
  r ← lift_run (mark_running ids now r);
  let ev := GraphRunStarted (run_id r) (graph_id g) (name g) (pattern_value (pattern g)) ids in
  re ← start_nodes g now parent_agent (or_str parent_session conv) project conv ids r [ev];
  persist re.1;;
  mret re.

Definition node_label (g : AgentGraph) (nid : string) : string :=
  match get_node nid g with Some n => label n | None => nid end.

Definition on_node_completed (now : Z) (gid rid nid : string) (output : option context)
    (parent_session parent_agent : string) : OM (GraphRun * list graph_event) :=
  g ← require (find_graph gid) (GraphNotFound gid);
  r ← load_run rid;
  ensure_graph_matches_run g r;;
  if is_terminal_run r then mret (r, []) else
  ne ← require (get_node_execution nid r) (ExecutionNotFound nid);
  ne ← lift_run (ne_mark_completed output now ne);
  let r := set_executions (dset nid ne (node_executions r)) r in
  let out := default [] output in
  let r := if bool_decide (out = []) then r else update_shared_context out r in
  let ev := GraphNodeCompleted (run_id r) nid (node_label g nid) (dkeys out)
              (ne_duration_seconds ne) in
  let coordinator := get_coordinator_for_pattern (pattern g) in
  if should_complete_run coordinator g r then
    r ← lift_run (mark_completed now r);
    persist r;;
    mret (r, [ev; GraphRunCompleted (run_id r) (graph_id g) (name g) (total_steps r)
                (run_duration_seconds r)])
  else
    ids ← require (get_next_node_ids coordinator g r) OutOfFuel;
    re ← schedule_nodes g now parent_agent (or_str parent_session (conversation_id r)) ids r [ev];
    persist re.1;;
    mret re.

Definition on_node_failed (now : Z) (gid rid nid err : string) : OM (GraphRun * list graph_event) :=
  g ← require (find_graph gid) (GraphNotFound gid);
  r ← load_run rid;
  ensure_graph_matches_run g r;;
  if is_terminal_run r then mret (r, []) else
  ne ← require (get_node_execution nid r) (ExecutionNotFound nid);
  ne ← lift_run (ne_mark_failed err now ne);
  let r := set_executions (dset nid ne (node_executions r)) r in
  r ← lift_run (mark_failed ("Node '" +:+ node_label g nid +:+ "' failed: " +:+ err) now r);
  persist r;;
  mret (r, [GraphNodeFailed (run_id r) nid (node_label g nid) err;
            GraphRunFailed (run_id r) (graph_id g) (name g) err nid]).

Definition cancel_run (now : Z) (rid reason : string) : OM (GraphRun * list graph_event) :=
  r ← load_run rid;
  if is_terminal_run r then mret (r, []) else
  let graph_name := match find_graph (run_graph_id r) with Some g => name g | None => "" end in
  let r := mark_cancelled now r in
  persist r;;
  mret (r, [GraphRunCancelled (run_id r) (run_graph_id r) graph_name reason]).

Definition handoff_node (now : Z) (gid rid from_nid to_nid summary : string)
    (parent_session parent_agent : string) : OM (GraphRun * list graph_event) :=
  g ← require (find_graph gid) (GraphNotFound gid);
  r ← load_run rid;
  ensure_graph_matches_run g r;;
  if is_terminal_run r then mret (r, []) else
  mguard (bool_decide (pattern g = SWARM)) (HandoffUnsupported (pattern g));;
  match Swarm.validate_handoff_target g r to_nid with
  | Some e => mraise (HandoffRejected e)
  | None =>
      let lbl nid := match get_node nid g with Some n => label n | None => "" end in
      re ← schedule_node g now parent_agent (or_str parent_session (conversation_id r)) to_nid r;
      persist re.1;;
      mret (re.1, GraphHandoff (run_id r) from_nid to_nid (lbl from_nid) (lbl to_nid) summary :: re.2)
  end.

Definition get_run_status (rid : string) (w : world St Sp) : option GraphRun :=
  find_run rid (w_runs w).
Definition list_runs_for_graph (gid : string) (w : world St Sp) : list GraphRun :=
  runs_of_graph gid (w_runs w).
End orchestrator.
