(* ===== verification/GraphSafety.v ===== *)
(** What a graph run promises whichever callbacks arrive: the invariant of the
    stored runs, progress, and the two ways a run gets into trouble.

    The theorems are about the operations of [GraphOrchestrator.v], for any
    run repository that keeps its laws and any agent spawner, and use of the
    pattern coordinators only the laws of [GraphPatterns.v].  A graph is
    assumed not to be edited while runs of it exist. *)

From S2P Require Import Prelude Kahn AgentGraph GraphRun GraphPatterns GraphOrchestrator.

Open Scope string_scope.
Open Scope list_scope.
Open Scope nat_scope.

(** * What a stored run promises *)

Definition entry_or_ready (g : AgentGraph) (r : GraphRun) (i : string) : Prop :=
  i ∈ entry_ids g ∨ ∀ p, p ∈ preds g i → exec_status p r = Some NE_COMPLETED.

(** The part that also holds while nodes are being started. *)
Record run_core (g : AgentGraph) (r : GraphRun) : Prop := {
  rc_graph : run_graph_id r = graph_id g;
  rc_dict : dict_wf (node_executions r);
  rc_known : ∀ i ne, get_node_execution i r = Some ne → i ∈ node_ids g ∧ ne_status ne ≠ NE_PENDING;
  rc_status : status r ≠ PENDING;
  rc_bound : (total_steps r <= run_max_steps r)%Z ∧
    (status r = RUNNING → total_steps r < run_max_steps r)%Z;
  rc_live : status r = RUNNING → ∀ i, exec_status i r ≠ Some NE_FAILED ∧ exec_status i r ≠ Some NE_CANCELLED;
  rc_deps : pattern g ≠ SWARM → ∀ i, is_Some (get_node_execution i r) → entry_or_ready g r i;
  rc_sequential : pattern g = PIPELINE → ∀ i j,
    exec_status i r = Some NE_RUNNING → exec_status j r = Some NE_RUNNING → i = j;
  rc_done : status r = COMPLETED → pattern g ≠ SWARM →
    ∀ t, t ∈ node_id <$> terminal_nodes g → exec_status t r = Some NE_COMPLETED;
  rc_current : ∀ i, i ∈ current_node_ids r → i ∈ entry_ids g;
}.
Record run_ok (g : AgentGraph) (r : GraphRun) : Prop := {
  ro_core : run_core g r;
  ro_valid : edges_known g ∧ graph_acyclic g;
  ro_started : node_executions r ≠ [];
  ro_entries : pattern g ≠ PIPELINE → ∀ i, i ∈ entry_ids g → is_Some (get_node_execution i r);
}.

(** What starting further nodes leaves alone. *)
Definition extends (r r' : GraphRun) : Prop :=
  run_id r' = run_id r ∧ run_graph_id r' = run_graph_id r ∧
  ∀ i ne, get_node_execution i r = Some ne → get_node_execution i r' = Some ne.
#[export] Instance extends_preorder : PreOrder extends.
Proof.
  split; [by intros r|]. intros r1 r2 r3 (H1 & H2 & H3) (H4 & H5 & H6).
  split_and!; [congruence..|auto].
Qed.

Lemma extends_status r r' i st : extends r r' → exec_status i r = Some st → exec_status i r' = Some st.
Proof.
  intros (_ & _ & He). unfold exec_status. rewrite !fmap_Some. naive_solver.
Qed.
Lemma extends_ready g r r' i : extends r r' → entry_or_ready g r i → entry_or_ready g r' i.
Proof. intros He [?|Hp]; [by left|right]. eauto using extends_status. Qed.

Lemma get_node_spec nid g n : get_node nid g = Some n → n ∈ nodes g ∧ node_id n = nid.
Proof. intros [? ?%bool_decide_eq_true]%find_Some_first. done. Qed.
Lemma get_node_known nid g : nid ∈ node_ids g → ∃ n, get_node nid g = Some n ∧ node_id n = nid.
Proof.
  intros (n & Hn & Hid)%elem_of_node_ids. destruct (get_node nid g) as [m|] eqn:E.
  - exists m. split; [done|]. by apply get_node_spec in E as [_ ?].
  - unfold get_node in E. rewrite find_None_all in E. specialize (E n Hn).
    by apply bool_decide_eq_false in E.
Qed.

(** Adding a fresh execution. *)
Lemma get_add i ne r r' : add_node_execution ne r = Ok r' →
  get_node_execution (ne_node_id ne) r = None ∧
  get_node_execution i r' =
    (if decide (ne_node_id ne = i) then Some ne else get_node_execution i r) ∧
  node_executions r' = node_executions r ++ [(ne_node_id ne, ne)] ∧
  status r' = status r ∧ total_steps r' = total_steps r ∧ run_max_steps r' = run_max_steps r ∧
  run_graph_id r' = run_graph_id r ∧ run_id r' = run_id r ∧
  current_node_ids r' = current_node_ids r.
Proof.
  unfold add_node_execution. destruct (dmem _ _) eqn:E; [done|]. intros [= <-].
  apply dmem_false in E. unfold get_node_execution, set_executions, set_run. simpl.
  split_and!; try done; [by apply dget_None_keys|by rewrite dget_dset|by apply dset_new].
Qed.
Lemma add_extends ne r r' : add_node_execution ne r = Ok r' → extends r r'.
Proof.
  intros H. split_and!; [by destruct (get_add "" ne r r' H) as (_ & _ & _ & _ & _ & _ & ? & ? & _)..|].
  intros i x Hx. destruct (get_add i ne r r' H) as (Hn & -> & _). case_decide; [congruence|done].
Qed.

Lemma add_core g ne r r' : run_core g r → add_node_execution ne r = Ok r' →
  ne_node_id ne ∈ node_ids g → ne_status ne ∈ [NE_RUNNING; NE_SKIPPED] →
  (pattern g ≠ SWARM → entry_or_ready g r (ne_node_id ne)) →
  (pattern g = PIPELINE → running_node_ids r = []) → run_core g r'.
Proof.
  intros [H1 H2 H3 H4 H5 H6 H7 H8 H9 H10] Ha Hk Hst Hd Hp.
  pose proof (add_extends _ _ _ Ha) as Hext.
  destruct (get_add "" _ _ _ Ha) as (Hnone & _ & Hex & E1 & E2 & E3 & E4 & E5 & E6).
  assert (Hget := λ i, proj1 (proj2 (get_add i _ _ _ Ha))).
  assert (Hes : ∀ i, exec_status i r' =
    if decide (ne_node_id ne = i) then Some (ne_status ne) else exec_status i r).
  { intros i. unfold exec_status. rewrite Hget. by case_decide. }
  constructor; rewrite ?E1, ?E2, ?E3, ?E4, ?E6; try done.
  - unfold add_node_execution in Ha. destruct (dmem _ _); [done|]. injection Ha as <-.
    by apply dset_wf.
  - intros i x. rewrite Hget. case_decide as Hi; [|apply H3].
    intros [= <-]. subst i. split; [done|]. intros Hx. rewrite Hx in Hst. set_solver.
  - intros Hr i. rewrite Hes. case_decide; [|by apply H6].
    split; intros [= Hx]; rewrite Hx in Hst; set_solver.
  - intros Hsw i. rewrite Hget. case_decide as Hi; [subst i|]; intros Hx;
      eapply extends_ready; eauto.
  - intros Hpi i j. rewrite !Hes.
    assert (Hno : ∀ i, exec_status i r ≠ Some NE_RUNNING).
    { intros k Hk'%ids_with_spec; [|done]. specialize (Hp Hpi). unfold running_node_ids in Hp.
      rewrite Hp in Hk'. by apply elem_of_nil in Hk'. }
    repeat case_decide; try congruence; intros; exfalso; eapply Hno; eauto.
  - intros Hc Hsw t Ht. eapply extends_status; [exact Hext|]. auto.
Qed.

Lemma increment_core g now r r' : run_core g r → increment_step now r = Ok r' →
  run_core g r' ∧ node_executions r' = node_executions r ∧ extends r r' ∧
  total_steps r' = (total_steps r + 1)%Z ∧
  (status r' = status r ∨ status r' = FAILED).
Proof.
  intros [H1 H2 H3 H4 [H5a H5b] H6 H7 H8 H9 H10]. unfold increment_step, mark_failed. simpl.
  case_bool_decide as Hm; [case_bool_decide as Hs; [done|]|]; intros [= <-]; simpl in *.
  - assert (status r = RUNNING) as Hr by (by destruct (decide (status r = RUNNING))).
    specialize (H5b Hr). split_and!; try done; [|by right]. constructor; try done; simpl.
    + split; [lia|done].
    + by intros i ?%elem_of_nil.
  - split_and!; try done; [|by left]. constructor; try done; simpl. split; [lia|intros _; lia].
Qed.

(** * Scheduling *)

Section scheduling.
Context {St Sp : Type} `{GraphRunRepository St, AgentSpawner Sp}.
Context (py_str : pyval → string) (I : St → Prop) (g : AgentGraph) (now : Z).
Notation safe := (safe (S := world St Sp) (E := orch_error) (λ w, I (w_runs w))).

Lemma safe_require {A} (o : option A) e (Q : A → Prop) :
  (∀ a, o = Some a → Q a) → safe (require o e) Q.
Proof. intros HQ. destruct o; [by apply safe_ret, HQ|apply safe_raise]. Qed.
Lemma safe_lift {A} (x : result run_error A) (Q : A → Prop) :
  (∀ a, x = Ok a → Q a) → safe (lift_run x) Q.
Proof. intros HQ. destruct x; [by apply safe_ret, HQ|apply safe_raise]. Qed.

Lemma safe_spawn r ne pa ps pr conv :
  safe (spawn_node py_str g r ne pa ps pr conv) (λ _, True).
Proof.
  unfold spawn_node. eapply safe_bind; [by apply (safe_require _ _ (λ _, True))|].
  intros n _ w HI. unfold mget, mmodify, mbind, M_bind, mret, M_ret. simpl.
  destruct (spawn_agent _ _) as [agents session]. simpl. by split.
Qed.

(** A node that may start: known, ready, and alone in a pipeline. *)
Definition may_start (r : GraphRun) (nid : string) : Prop :=
  nid ∈ node_ids g ∧ (pattern g ≠ SWARM → entry_or_ready g r nid) ∧
  (pattern g = PIPELINE → running_node_ids r = []).

Lemma new_execution_fields rid nid input ne : new_execution rid nid input = Ok ne →
  ne_node_id ne = nid ∧ ne_status ne = NE_PENDING.
Proof.
  unfold new_execution, checked, required; unfold_M. intros Hn. repeat case_match; simplify_eq/=; done.
Qed.

Lemma safe_started n ne session r : run_core g r → may_start r (node_id n) →
  ne_node_id ne = node_id n →
  safe (started g now n ne session r) (λ re, run_core g re.1 ∧ extends r re.1 ∧
    exec_status (node_id n) re.1 = Some NE_RUNNING).
Proof.
  intros Hr (Hk & Hd & Hp) Hid. unfold started.
  eapply safe_bind; [apply (safe_lift _ (λ ne', ne_node_id ne' = node_id n ∧
    ne_status ne' = NE_RUNNING))|].
  { unfold ne_mark_running. intros ne'. case_bool_decide; [done|]. by intros [= <-]. }
  intros ne' [Hid' Hst]. eapply safe_bind; [apply (safe_lift _ (λ r', run_core g r' ∧
    extends r r' ∧ exec_status (node_id n) r' = Some NE_RUNNING))|].
  { intros r' Ha. split_and!; [|by eapply add_extends|].
    - eapply add_core; [done|exact Ha|..]; rewrite ?Hid', ?Hst; try done. left.
    - destruct (get_add (node_id n) _ _ _ Ha) as (_ & Hg & _). unfold exec_status.
      rewrite Hg, Hid', decide_True by done. simpl. by rewrite Hst. }
  intros r1 (Hr1 & He1 & Hs1). eapply safe_bind; [apply (safe_lift _ (λ r', run_core g r' ∧
    extends r r' ∧ exec_status (node_id n) r' = Some NE_RUNNING))|].
  { intros r' Hi. destruct (increment_core _ _ _ _ Hr1 Hi) as (? & ? & ? & _).
    split_and!; [done|by etrans|by eapply extends_status]. }
  intros r2 Hr2. by apply safe_ret.
Qed.

Lemma safe_schedule_node pa ps nid r : run_core g r → may_start r nid →
  safe (schedule_node py_str g now pa ps nid r) (λ re, run_core g re.1 ∧ extends r re.1 ∧
    (exec_status nid re.1 = Some NE_RUNNING ∨ exec_status nid re.1 = Some NE_SKIPPED)).
Proof.
  intros Hr Hm. unfold schedule_node. pose proof Hm as (Hk & _).
  destruct (get_node_known _ _ Hk) as (n & -> & <-).
  eapply safe_bind; [apply (safe_lift _ (λ ne, ne_node_id ne = node_id n))|].
  { intros ne Hne. by apply new_execution_fields in Hne as [? _]. }
  intros ne Hid. eapply safe_bind; [apply safe_spawn|]. intros [session|] _.
  - eapply safe_bind; [by apply safe_started|]. intros re (? & ? & ?). apply safe_ret; auto.
  - eapply safe_bind; [apply (safe_lift _ (λ ne', ne_node_id ne' = node_id n ∧
      ne_status ne' = NE_SKIPPED))|].
    { unfold ne_mark_skipped. intros ne'. case_bool_decide; [done|]. by intros [= <-]. }
    intros ne' [Hid' Hst]. destruct Hm as (_ & Hd & Hp).
    eapply safe_bind; [apply (safe_lift _ (λ r', run_core g r' ∧ extends r r' ∧
      exec_status (node_id n) r' = Some NE_SKIPPED))|].
    { intros r' Ha. split_and!; [|by eapply add_extends|].
      - eapply add_core; [done|exact Ha|..]; rewrite ?Hid', ?Hst; try done. right. left.
      - destruct (get_add (node_id n) _ _ _ Ha) as (_ & Hg & _). unfold exec_status.
        rewrite Hg, Hid', decide_True by done. simpl. by rewrite Hst. }
    intros r1 (? & ? & ?). apply safe_ret. auto.
Qed.

(** A batch: ready nodes, and one at most in a pipeline. *)
Definition batch (r : GraphRun) (ids : list string) : Prop :=
  (∀ nid, nid ∈ ids → may_start r nid) ∧ (pattern g = PIPELINE → length ids ≤ 1).
Lemma batch_tail r r' nid ids : batch r (nid :: ids) → extends r r' → batch r' ids.
Proof.
  intros [Hb Hl] He. split; [|intros Hp; specialize (Hl Hp); simpl in Hl; lia].
  intros i Hi. destruct (Hb i) as (? & Hd & _); [by right|]. split_and!; [done|eauto using extends_ready|].
  intros Hp. specialize (Hl Hp). destruct ids; [by apply elem_of_nil in Hi|simpl in Hl; lia].
Qed.

Definition batch_done (r : GraphRun) (ids : list string) (r' : GraphRun) : Prop :=
  run_core g r' ∧ extends r r' ∧ ∀ nid, nid ∈ ids →
    exec_status nid r' = Some NE_RUNNING ∨ exec_status nid r' = Some NE_SKIPPED.
Lemma batch_done_cons r r1 r2 nid ids : extends r r1 →
  (exec_status nid r1 = Some NE_RUNNING ∨ exec_status nid r1 = Some NE_SKIPPED) →
  batch_done r1 ids r2 → batch_done r (nid :: ids) r2.
Proof.
  intros H1 H2 (H3 & H4 & H5). split_and!; [done|by etrans|].
  intros i [->|?]%elem_of_cons; [|auto]. destruct H2; eauto using extends_status.
Qed.

Lemma safe_schedule_nodes pa ps ids : ∀ r evs, run_core g r → batch r ids →
  safe (schedule_nodes py_str g now pa ps ids r evs) (λ re, batch_done r ids re.1).
Proof.
  induction ids as [|nid ids IH]; intros r evs Hr Hb; simpl.
  { apply safe_ret. split_and!; [done|done|by intros ? ?%elem_of_nil]. }
  eapply safe_bind; [apply safe_schedule_node; [done|apply Hb; left]|].
  intros re (H1 & H2 & H3). eapply safe_weaken; [apply IH; [done|by eapply batch_tail]|].
  intros re' Hd. by eapply batch_done_cons.
Qed.
Lemma safe_start_nodes pa ps pr conv ids : ∀ r evs, run_core g r → batch r ids →
  safe (start_nodes py_str g now pa ps pr conv ids r evs) (λ re, batch_done r ids re.1).
Proof.
  induction ids as [|nid ids IH]; intros r evs Hr Hb; simpl.
  { apply safe_ret. split_and!; [done|done|by intros ? ?%elem_of_nil]. }
  pose proof (proj1 Hb nid (list_elem_of_here _ _)) as Hm. pose proof Hm as (Hk & _).
  destruct (get_node_known _ _ Hk) as (n & -> & <-).
  eapply safe_bind; [apply (safe_lift _ (λ ne, ne_node_id ne = node_id n))|].
  { intros ne Hne. by apply new_execution_fields in Hne as [? _]. }
  intros ne Hid. eapply safe_bind; [apply safe_spawn|]. intros session _.
  eapply safe_bind; [by apply (safe_require _ _ (λ _, True))|]. intros s _.
  eapply safe_bind; [by apply safe_started|]. intros re (H1 & H2 & H3).
  eapply safe_weaken; [apply IH; [done|by eapply batch_tail]|].
  intros re' Hd. eapply batch_done_cons; eauto.
Qed.
End scheduling.

(** ** The run changed by a callback *)

(** A running node gets a final execution; the run stays as it is if the node
    completed, and fails otherwise. *)
Lemma finish_core g r nid ne ne' s shared current err st cp : run_core g r →
  status r = RUNNING → get_node_execution nid r = Some ne → ne_status ne = NE_RUNNING →
  (s = RUNNING ∧ ne_status ne' = NE_COMPLETED ∨ s = FAILED ∧ ne_status ne' = NE_FAILED) →
  (∀ i, i ∈ current → i ∈ entry_ids g) →
  run_core g (set_run r s (dset nid ne' (node_executions r)) shared current (total_steps r) err st cp).
Proof.
  intros [H1 H2 H3 H4 [H5a H5b] H6 H7 H8 H9 H10] Hr Hg Hs Hc Hcur.
  set (r' := set_run _ _ _ _ _ _ _ _ _).
  assert (Hget : ∀ i, get_node_execution i r' =
    if decide (nid = i) then Some ne' else get_node_execution i r)
    by (intros i; apply dget_dset).
  assert (Hes : ∀ i, exec_status i r' =
    if decide (nid = i) then Some (ne_status ne') else exec_status i r)
    by (intros i; unfold exec_status; rewrite Hget; by case_decide).
  assert (Hold : exec_status nid r = Some NE_RUNNING)
    by (unfold exec_status; by rewrite Hg; simpl; rewrite Hs).
  constructor; simpl; try done.
  - by apply dset_wf.
  - intros i x. rewrite Hget. destruct (decide (nid = i)) as [Hi|]; [|by apply H3]. intros [= <-]. subst i.
    split; [by apply (H3 _ ne)|]. by destruct Hc as [[_ ->]|[_ ->]].
  - by destruct Hc as [[-> _]|[-> _]].
  - split; [done|]. intros _. auto.
  - intros -> i. rewrite Hes. destruct (decide (nid = i)); [|by apply H6].
    destruct Hc as [[_ ->]|[? _]]; [|done]. split; congruence.
  - intros Hsw i. rewrite Hget. intros Hi.
    destruct (H7 Hsw i) as [?|Hp]; [destruct (decide (nid = i)); [subst; eauto|done]|by left|right].
    intros p Hpp. specialize (Hp p Hpp). rewrite Hes. destruct (decide (nid = p)); [congruence|done].
  - intros Hp i j Hi Hj.
    assert (Hk : ∀ k, exec_status k r' = Some NE_RUNNING → exec_status k r = Some NE_RUNNING).
    { intros k. rewrite Hes. destruct (decide (nid = k)); [|done]. by destruct Hc as [[_ ->]|[_ ->]]. }
    eauto.
  - intros ->. by destruct Hc as [[? _]|[? _]].
Qed.
Lemma completed_core g r now r' : run_core g r → mark_completed now r = Ok r' →
  (pattern g ≠ SWARM → ∀ t, t ∈ node_id <$> terminal_nodes g → exec_status t r = Some NE_COMPLETED) →
  run_core g r'.
Proof.
  intros [H1 H2 H3 H4 [H5a H5b] H6 H7 H8 H9 H10] Hm Ht. unfold mark_completed in Hm.
  case_bool_decide; [done|]. injection Hm as <-. constructor; simpl; try done.
  by intros i ?%elem_of_nil.
Qed.

Lemma cancel_get now r i : get_node_execution i (set_run r CANCELLED
    ((λ kv : string * NodeExecution, (kv.1, ne_mark_cancelled now kv.2)) <$> node_executions r)
    (shared_context r) [] (total_steps r) (error_message r) (started_at r) (Some now)) =
  ne_mark_cancelled now <$> get_node_execution i r.
Proof.
  unfold get_node_execution, set_run. simpl. induction (node_executions r) as [|[k x] l IH]; [done|].
  simpl. by case_decide.
Qed.
Lemma cancel_core g r now : run_core g r → run_core g (mark_cancelled now r).
Proof.
  intros Hr. pose proof Hr as [H1 H2 H3 H4 [H5a H5b] H6 H7 H8 H9 H10].
  unfold mark_cancelled. destruct (is_terminal_run r); [done|]. set (r' := set_run _ _ _ _ _ _ _ _ _).
  assert (Hget : ∀ i, get_node_execution i r' = ne_mark_cancelled now <$> get_node_execution i r)
    by apply cancel_get.
  assert (Hc : ∀ i, exec_status i r = Some NE_COMPLETED → exec_status i r' = Some NE_COMPLETED).
  { intros i. unfold exec_status. rewrite Hget, !fmap_Some. intros (ne & Hi & Hs).
    exists ne. rewrite Hi. simpl. unfold ne_mark_cancelled. by rewrite <-Hs. }
  assert (Hst : ∀ ne, ne_status (ne_mark_cancelled now ne) ≠ NE_PENDING ∧
                      ne_status (ne_mark_cancelled now ne) ≠ NE_RUNNING).
  { intros ne. unfold ne_mark_cancelled. destruct (ne_status ne) eqn:E; simpl; by rewrite ?E. }
  constructor; try done.
  - unfold dict_wf, dkeys. simpl. rewrite <-list_fmap_compose. exact H2.
  - intros i x. rewrite Hget, fmap_Some. intros (ne & Hi & ->). split; [by apply (H3 _ ne)|apply Hst].
  - intros Hsw i. rewrite Hget, fmap_is_Some. intros Hi.
    destruct (H7 Hsw i Hi) as [?|Hp]; [by left|right]. auto.
  - intros _ i j Hi. exfalso. unfold exec_status in Hi. rewrite Hget in Hi.
    destruct (get_node_execution i r); [|done]. injection Hi as Hi. by destruct (Hst n).
  - by intros i ?%elem_of_nil.
Qed.

Lemma batch_ok g r ids r' : run_ok g r → batch_done g r ids r' → run_ok g r'.
Proof.
  intros [Hc Hv Hs He] (Hc' & Hx & _). split; [done|done| |].
  - destruct (node_executions r) as [|[k x] l] eqn:E; [done|].
    destruct Hx as (_ & _ & Hx). intros E'. specialize (Hx k x).
    unfold get_node_execution in Hx. rewrite E, E' in Hx. simpl in Hx.
    rewrite decide_True in Hx by done. by specialize (Hx eq_refl).
  - intros Hp i Hi. destruct (He Hp i Hi) as [x Hxi]. exists x. by apply Hx.
Qed.
Lemma next_batch g r ids : edges_known g → graph_acyclic g →
  get_next_node_ids (get_coordinator_for_pattern (pattern g)) g r = Some ids → batch g r ids.
Proof.
  intros Hk Ha Hn. split.
  - intros nid Hin. destruct (law_startable g r ids nid Hk Ha Hn Hin) as (H1 & _ & H2).
    split_and!; [done|by intros _|]. intros Hp.
    destruct (law_sequential g r ids Hp Hn) as [_ Hr]. apply Hr. by intros ->; apply elem_of_nil in Hin.
  - intros Hp. by destruct (law_sequential g r ids Hp Hn).
Qed.

(** * The operations keep every stored run well formed *)

Lemma new_run_fields rid gid conv tenant project max_steps shared r :
  new_run rid gid conv tenant project max_steps shared = Ok r →
  r = mkRun rid gid conv tenant project PENDING [] shared [] 0 max_steps None None None ∧
  (1 <= max_steps)%Z.
Proof.
  unfold new_run, checked, required; unfold_M.
  destruct (truthy gid); [|done]. destruct (truthy conv); [|done].
  destruct (truthy tenant); [|done]. destruct (truthy project); [|done].
  case_bool_decide; [done|]. intros [= <-]. split; [done|lia].
Qed.

Section operations.
Context {St Sp : Type} `{GraphRunRepositoryLaws St, AgentSpawner Sp}.
Context (find_graph : string → option AgentGraph) (py_str : pyval → string).

(** A repository finds a graph under its id. *)
Definition graphs_by_id : Prop := ∀ i g, find_graph i = Some g → graph_id g = i.
Definition run_stored_ok (i : string) (r : GraphRun) : Prop :=
  run_id r = i ∧ ∃ g, find_graph (run_graph_id r) = Some g ∧ run_ok g r.
Definition stored_ok (st : St) : Prop := ∀ i r, find_run i st = Some r → run_stored_ok i r.
Notation safe := (safe (S := world St Sp) (E := orch_error) (λ w, stored_ok (w_runs w))).

Hypothesis Hids : graphs_by_id.

Lemma safe_load rid : safe (load_run rid) (run_stored_ok rid).
Proof.
  intros w HI. unfold load_run; unfold_M. simpl.
  destruct (find_run rid (w_runs w)) as [r|] eqn:E; simpl; [|done].
  split; [done|]. intros ? [= <-]. by apply HI.
Qed.
Lemma safe_persist r : run_stored_ok (run_id r) r → safe (persist r) (λ _, True).
Proof.
  intros Hr w HI. split; [|done]. intros i x. unfold persist, mmodify. simpl. rewrite find_save.
  case_decide as Hi; [rewrite Hi; by intros [= <-]|apply HI].
Qed.
Lemma safe_persist_pair (re : GraphRun * list graph_event) (Q : _ → Prop) :
  run_stored_ok (run_id re.1) re.1 → Q re → safe (persist re.1;; mret re) Q.
Proof.
  intros Hr HQ. eapply safe_bind; [by apply safe_persist|]. intros _ _. by apply safe_ret.
Qed.

(** The guards give the graph the run was started with. *)
Lemma safe_matches g r gid (Q : unit → Prop) : find_graph gid = Some g →
  (run_graph_id r = gid → Q tt) → safe (ensure_graph_matches_run g r) Q.
Proof.
  intros Hg HQ. unfold ensure_graph_matches_run.
  eapply safe_bind; [apply (safe_guard _ _ _ (λ _, run_graph_id r = gid))|].
  { intros ?%bool_decide_eq_true. rewrite <-(Hids gid g Hg). done. }
  intros [] Hr. apply safe_guard. auto.
Qed.

Lemma extends_stored g r r' i : run_stored_ok i r → run_ok g r' → extends r r' →
  find_graph (run_graph_id r) = Some g → run_stored_ok (run_id r') r'.
Proof. intros [_ _] Hok (_ & Hgid & _) Hg. split; [done|]. exists g. by rewrite Hgid. Qed.

Lemma safe_start_run uuid now gid conv tenant project ctx ps pa :
  safe (start_run find_graph py_str uuid now gid conv tenant project ctx ps pa)
    (λ re, run_id re.1 = uuid).
Proof.
  unfold start_run. eapply safe_bind; [apply (safe_require _ _ _ (λ g, find_graph gid = Some g)); auto|].
  intros g Hg. eapply safe_bind; [by apply (safe_guard _ _ _ (λ _, True))|]. intros _ _.
  eapply safe_bind; [by apply (safe_guard _ _ _ (λ _, True))|]. intros _ _.
  eapply safe_bind; [apply (safe_require _ _ _ (λ es, validate_graph g = Some es)); auto|].
  intros es Hes. destruct (validate_cases g) as (es' & Hes' & Hv & _).
  rewrite Hes in Hes'. injection Hes' as <-.
  eapply safe_bind; [apply (safe_guard _ _ _ (λ _, es = []))|].
  { by intros ?%bool_decide_eq_true%nil_length_inv. }
  intros [] Hnil. apply Hv in Hnil as (_ & _ & _ & Hk & Ha).
  eapply safe_bind; [apply (safe_lift _ _ (λ r, r = mkRun uuid (graph_id g) conv tenant project
    PENDING [] ctx [] 0 (max_total_steps g) None None None ∧ (1 <= max_total_steps g)%Z))|].
  { intros r Hr. by apply new_run_fields in Hr. }
  intros r [-> Hmax]. set (r0 := mkRun _ _ _ _ _ _ _ _ _ _ _ _ _ _).
  eapply safe_bind; [apply (safe_require _ _ _ (λ ids,
    get_next_node_ids (get_coordinator_for_pattern (pattern g)) g r0 = Some ids)); auto|].
  intros ids Hnext.
  eapply safe_bind; [apply (safe_guard _ _ _ (λ _, ids ≠ []))|].
  { by intros ?%negb_true_iff%bool_decide_eq_false. }
  intros [] Hne. set (r1 := set_run r0 RUNNING [] ctx ids 0 None (Some now) None).
  change (mark_running ids now r0) with (Ok (E := run_error) r1).
  eapply safe_bind; [apply (safe_lift _ _ (λ r, r = r1)); by intros r [= ->]|].
  intros r ->. cbv zeta.
  destruct (next_batch g r0 ids Hk Ha Hnext) as [Hb1 Hb2].
  assert (Hb : batch g r1 ids).
  { split; [|done]. intros nid Hin. by apply Hb1. }
  assert (Hentry : ∀ nid, nid ∈ ids → nid ∈ entry_ids g)
    by (intros nid; by apply (law_first (p := pattern g) g r0 ids nid)).
  assert (Hr1 : run_core g r1).
  { constructor; simpl; try done.
    - constructor.
    - split; [lia|intros _; lia].
    - by intros _ i [? ?]. }
  eapply safe_bind; [by apply safe_start_nodes|].
  intros re (Hc & Hx & Hd). apply safe_persist_pair.
  - split; [done|]. exists g. destruct Hx as (_ & -> & _). simpl.
    rewrite (Hids _ _ Hg). split; [done|]. split; [done|done| |].
    + destruct ids as [|i ids]; [done|]. destruct (Hd i) as [Hs|Hs]; [left|..]; intros E;
        unfold exec_status, get_node_execution in Hs; by rewrite E in Hs.
    + intros Hp i Hi. assert (i ∈ ids) as Hin.
      { by apply (law_first (p := pattern g) g r0 ids i). }
      destruct (Hd i Hin) as [Hs|Hs]; unfold exec_status in Hs;
        by destruct (get_node_execution i re.1).
  - by destruct Hx as (-> & _).
Qed.

(** A run that is not over has a node running; what can break this is a node
    that was skipped, and a supervisor whose graph has an unreachable start. *)
Definition goes_on (g : AgentGraph) (r : GraphRun) : Prop :=
  pattern g ≠ SWARM →
  (pattern g ∈ [SUPERVISOR; HIERARCHICAL] →
     ∀ n, n ∈ node_ids g → preds g n = [] → n ∈ entry_ids g) →
  (∀ i, exec_status i r ≠ Some NE_SKIPPED) →
  is_terminal_run r = true ∨ running_node_ids r ≠ [].

Lemma no_next_goes_on g r : run_ok g r → status r = RUNNING →
  should_complete_run (get_coordinator_for_pattern (pattern g)) g r = false →
  get_next_node_ids (get_coordinator_for_pattern (pattern g)) g r = Some [] → goes_on g r.
Proof.
  intros [Hc [Hk Ha] Hne Hen] Hs Hsc Hnext Hsw Hsup Hskip. right. intros Hrun.
  assert (Hall : ∀ i st, exec_status i r = Some st → st = NE_COMPLETED).
  { intros i st Hi. destruct (rc_live _ _ Hc Hs i) as [Hf Hca].
    assert (st ≠ NE_PENDING).
    { intros ->. unfold exec_status in Hi. apply fmap_Some in Hi as (ne & Hi & Hp).
      by apply (rc_known _ _ Hc _ _ Hi). }
    assert (st ≠ NE_RUNNING).
    { intros ->. apply ids_with_spec in Hi; [|apply Hc]. unfold running_node_ids in Hrun.
      rewrite Hrun in Hi. by apply elem_of_nil in Hi. }
    specialize (Hskip i). destruct st; congruence. }
  assert (should_complete_run (get_coordinator_for_pattern (pattern g)) g r = true);
    [|congruence].
  assert (should_complete_run (get_coordinator_for_pattern (pattern g)) g r =
    terminals_complete g r) as -> by (by destruct (pattern g)).
  apply forallb_forall. intros t Ht%list_elem_of_In. apply completed_spec.
  eapply (nothing_left (pattern g)); eauto; [apply Hc| |].
  - intros Hp n Hn Hpn. apply Hen; [intros E; rewrite E in Hp; set_solver|]. auto.
  - apply elem_of_node_ids. unfold terminal_nodes in Ht.
    apply list_elem_of_filter in Ht as [_ ?]. eauto.
Qed.
Lemma batch_goes_on g r ids r' : batch_done g r ids r' → ids ≠ [] → goes_on g r'.
Proof.
  intros (Hc & _ & Hd) Hne _ _ Hskip. right. destruct ids as [|i ids]; [done|].
  destruct (Hd i) as [Hi|Hi]; [left| |by apply Hskip in Hi].
  apply ids_with_spec in Hi; [|apply Hc]. unfold running_node_ids. intros E. rewrite E in Hi.
  by apply elem_of_nil in Hi.
Qed.

Lemma not_terminal_running g r : run_core g r → is_terminal_run r = false → status r = RUNNING.
Proof. intros Hc Ht. pose proof (rc_status _ _ Hc). unfold is_terminal_run in Ht. by destruct (status r). Qed.

Lemma running_set_ok g r nid ne ne' shared : run_ok g r → status r = RUNNING →
  get_node_execution nid r = Some ne → ne_status ne = NE_RUNNING → ne_status ne' = NE_COMPLETED →
  run_ok g (set_run r RUNNING (dset nid ne' (node_executions r)) shared (current_node_ids r)
              (total_steps r) (error_message r) (started_at r) (completed_at r)).
Proof.
  intros [Hc Hv Hne Hen] Hs Hg Hrun Hdone. split; [|done| |].
  - eapply finish_core; eauto. apply Hc.
  - simpl. by destruct (node_executions r) as [|[k x] l]; [|simpl; case_decide].
  - intros Hp i Hi. unfold get_node_execution. simpl. rewrite dget_dset.
    case_decide; [done|]. by apply Hen.
Qed.

Lemma safe_on_node_completed now gid rid nid output ps pa :
  safe (on_node_completed find_graph py_str now gid rid nid output ps pa)
    (λ re, ∃ g, find_graph gid = Some g ∧ goes_on g re.1).
Proof.
  unfold on_node_completed.
  eapply safe_bind; [apply (safe_require _ _ _ (λ g, find_graph gid = Some g)); auto|].
  intros g Hg. eapply safe_bind; [apply safe_load|]. intros r (Hid & g' & Hg' & Hok).
  eapply safe_bind; [apply (safe_matches g r gid (λ _, run_graph_id r = gid)); auto|].
  intros [] Hgid. rewrite Hgid, Hg in Hg'. injection Hg' as <-.
  destruct (is_terminal_run r) eqn:Ht.
  { apply safe_ret. exists g. split; [done|]. by left. }
  pose proof (not_terminal_running g r (ro_core _ _ Hok) Ht) as Hs.
  eapply safe_bind; [apply (safe_require _ _ _ (λ ne, get_node_execution nid r = Some ne)); auto|].
  intros ne Hne. eapply safe_bind; [apply (safe_lift _ _ (λ ne', ne_status ne = NE_RUNNING ∧
    ne_status ne' = NE_COMPLETED))|].
  { unfold ne_mark_completed. intros ne'. case_bool_decide as Hn; [done|]. intros [= <-].
    split; [|done]. by destruct (decide (ne_status ne = NE_RUNNING)). }
  intros ne' [Hr1 Hr2]. cbv zeta. set (r1 := if bool_decide _ then _ else _).
  assert (Hr : run_ok g r1 ∧ status r1 = RUNNING ∧ run_id r1 = rid ∧ run_graph_id r1 = gid).
  { unfold r1. case_bool_decide; (split_and!; [|done..]).
    - pose proof (running_set_ok g r nid ne ne' (shared_context r) Hok Hs Hne Hr1 Hr2) as Hx.
      unfold set_executions. by rewrite Hs.
    - pose proof (running_set_ok g r nid ne ne' (foldl (λ d kv, dset kv.1 kv.2 d)
        (shared_context r) (default [] output)) Hok Hs Hne Hr1 Hr2) as Hx.
      unfold update_shared_context, set_executions. simpl. by rewrite Hs. }
  clearbody r1. destruct Hr as (Hok1 & Hs1 & Hid1 & Hgid1).
  destruct (should_complete_run _ g r1) eqn:Hsc.
  - eapply safe_bind; [apply (safe_lift _ _ (λ r2, run_ok g r2 ∧ run_graph_id r2 = gid ∧
      is_terminal_run r2 = true))|].
    { intros r2 Hm. split; [|by unfold mark_completed in Hm; case_bool_decide; simplify_eq/=].
      pose proof Hok1 as [Hc Hv Hn He]. split; [|done| |].
      - eapply completed_core; eauto. intros Hsw t Ht'. by apply (law_complete (p := pattern g) g r1).
      - unfold mark_completed in Hm; case_bool_decide; by simplify_eq/=.
      - unfold mark_completed in Hm; case_bool_decide; by simplify_eq/=. }
    intros r2 (Hok2 & Hgid2 & Ht2). eapply safe_bind; [apply safe_persist|].
    { split; [done|]. exists g. by rewrite Hgid2. }
    intros [] _. apply safe_ret. exists g. split; [done|]. by left.
  - eapply safe_bind; [apply (safe_require _ _ _ (λ ids,
      get_next_node_ids (get_coordinator_for_pattern (pattern g)) g r1 = Some ids)); auto|].
    intros ids Hnext. destruct (ro_valid _ _ Hok1) as [Hk Ha].
    destruct ids as [|i ids].
    { eapply safe_bind; [by apply (safe_ret _ _ (λ re, re.1 = r1))|]. intros re Hre.
      apply safe_persist_pair; rewrite Hre; [split; [done|]; exists g; by rewrite Hgid1|].
      exists g. split; [done|]. by apply no_next_goes_on. }
    eapply safe_bind; [apply (safe_schedule_nodes py_str stored_ok g now);
      [apply Hok1|by apply next_batch]|].
    intros re Hd. pose proof (batch_ok g r1 _ re.1 Hok1 Hd) as Hok2.
    apply safe_persist_pair.
    + split; [done|]. exists g. destruct Hd as (_ & (_ & -> & _) & _). by rewrite Hgid1.
    + exists g. split; [done|]. by eapply (batch_goes_on g r1 (i :: ids)).
Qed.

Lemma safe_on_node_failed now gid rid nid err :
  safe (on_node_failed find_graph now gid rid nid err)
    (λ re, is_terminal_run re.1 = true).
Proof.
  unfold on_node_failed.
  eapply safe_bind; [apply (safe_require _ _ _ (λ g, find_graph gid = Some g)); auto|].
  intros g Hg. eapply safe_bind; [apply safe_load|]. intros r (Hid & g' & Hg' & Hok).
  eapply safe_bind; [apply (safe_matches g r gid (λ _, run_graph_id r = gid)); auto|].
  intros [] Hgid. rewrite Hgid, Hg in Hg'. injection Hg' as <-.
  destruct (is_terminal_run r) eqn:Ht; [by apply safe_ret|].
  pose proof Hok as [Hc Hv Hn He]. pose proof (not_terminal_running g r Hc Ht) as Hs.
  eapply safe_bind; [apply (safe_require _ _ _ (λ ne, get_node_execution nid r = Some ne)); auto|].
  intros ne Hne. eapply safe_bind; [apply (safe_lift _ _ (λ ne', ne_status ne = NE_RUNNING ∧
    ne_status ne' = NE_FAILED))|].
  { unfold ne_mark_failed. intros ne'. case_bool_decide as Hx; [done|]. intros [= <-].
    split; [|done]. by destruct (decide (ne_status ne = NE_RUNNING)). }
  intros ne' [Hr1 Hr2]. cbv zeta.
  eapply safe_bind; [apply (safe_lift _ _ (λ r2, run_ok g r2 ∧ run_graph_id r2 = gid ∧
    is_terminal_run r2 = true))|].
  { intros r2. unfold mark_failed. simpl. rewrite Hs. simpl. intros [= <-].
    split_and!; [|done..]. split; [|done| |].
    - apply (finish_core g r nid ne ne' FAILED (shared_context r) [] _ (started_at r) (Some now));
        auto. by intros i ?%elem_of_nil.
    - simpl. by destruct (node_executions r) as [|[k x] l]; [|simpl; case_decide].
    - intros Hp i Hi. unfold get_node_execution. simpl. rewrite dget_dset.
      case_decide; [done|]. by apply He. }
  intros r2 (Hok2 & Hgid2 & Ht2). eapply safe_bind; [apply safe_persist|].
  { split; [done|]. exists g. by rewrite Hgid2. }
  intros [] _. by apply safe_ret.
Qed.

Lemma safe_cancel_run now rid reason :
  safe (cancel_run find_graph now rid reason) (λ re, is_terminal_run re.1 = true).
Proof.
  unfold cancel_run. eapply safe_bind; [apply safe_load|]. intros r (Hid & g & Hg & Hok).
  destruct (is_terminal_run r) eqn:Ht; [by apply safe_ret|].
  pose proof Hok as [Hc Hv Hn He]. cbv zeta. eapply safe_bind; [apply safe_persist|].
  - unfold mark_cancelled. rewrite Ht. split; [done|]. exists g. split; [done|].
    pose proof (cancel_core g r now Hc) as Hcc. unfold mark_cancelled in Hcc. rewrite Ht in Hcc.
    split; [done|done| |].
    + simpl. by destruct (node_executions r).
    + intros Hp i Hi. rewrite cancel_get, fmap_is_Some. by apply He.
  - intros [] _. apply safe_ret. simpl. unfold mark_cancelled. by rewrite Ht.
Qed.

Lemma safe_handoff_node now gid rid from to summary ps pa :
  safe (handoff_node find_graph py_str now gid rid from to summary ps pa) (λ _, True).
Proof.
  unfold handoff_node.
  eapply safe_bind; [apply (safe_require _ _ _ (λ g, find_graph gid = Some g)); auto|].
  intros g Hg. eapply safe_bind; [apply safe_load|]. intros r (Hid & g' & Hg' & Hok).
  eapply safe_bind; [apply (safe_matches g r gid (λ _, run_graph_id r = gid)); auto|].
  intros [] Hgid. rewrite Hgid, Hg in Hg'. injection Hg' as <-.
  destruct (is_terminal_run r) eqn:Ht; [by apply safe_ret|].
  eapply safe_bind; [apply (safe_guard _ _ _ (λ _, pattern g = SWARM))|].
  { by intros ?%bool_decide_eq_true. }
  intros [] Hsw. destruct (Swarm.validate_handoff_target g r to) as [e|] eqn:Hv; [apply safe_raise|].
  assert (Hk : to ∈ node_ids g).
  { unfold Swarm.validate_handoff_target in Hv. case_bool_decide as Hn; [done|].
    by destruct (decide (to ∈ node_ids g)). }
  cbv zeta. eapply safe_bind; [apply (safe_schedule_node py_str stored_ok g now)|].
  - apply Hok.
  - split_and!; [done|by rewrite Hsw|by rewrite Hsw].
  - intros re (Hc & Hx & Hst). eapply safe_bind; [apply safe_persist|].
    + split; [done|]. exists g. pose proof Hx as (_ & -> & _). rewrite Hgid. split; [done|].
      apply (batch_ok g r [to] re.1 Hok). split_and!; [done|done|].
      by intros i ->%list_elem_of_singleton.
    + intros [] _. by apply safe_ret.
Qed.
End operations.

(** * Histories *)

Inductive graph_op : Type :=
  | StartRun (uuid : string) (now : Z) (gid conv tenant project : string) (ctx : context)
      (parent_session parent_agent : string)
  | NodeCompleted (now : Z) (gid rid nid : string) (output : option context)
      (parent_session parent_agent : string)
  | NodeFailed (now : Z) (gid rid nid err : string)
  | CancelRun (now : Z) (rid reason : string)
  | HandoffNode (now : Z) (gid rid from to summary parent_session parent_agent : string).

Section histories.
Context {St Sp : Type} `{GraphRunRepository St, AgentSpawner Sp}.
Context (find_graph : string → option AgentGraph) (py_str : pyval → string).

Definition run_graph_op (op : graph_op)
    : M (world St Sp) orch_error (GraphRun * list graph_event) :=
  match op with
  | StartRun uuid now gid conv tenant project ctx ps pa =>
      start_run find_graph py_str uuid now gid conv tenant project ctx ps pa
  | NodeCompleted now gid rid nid output ps pa =>
      on_node_completed find_graph py_str now gid rid nid output ps pa
  | NodeFailed now gid rid nid err => on_node_failed find_graph now gid rid nid err
  | CancelRun now rid reason => cancel_run find_graph now rid reason
  | HandoffNode now gid rid from to summary ps pa =>
      handoff_node find_graph py_str now gid rid from to summary ps pa
  end.
(** Every call in turn, whether it returned or raised. *)
Definition run_graph_ops (ops : list graph_op) (w : world St Sp) : world St Sp :=
  foldl (λ w op, (run_graph_op op w).1) w ops.
(** The run a callback is about. *)
Definition callback_on (op : graph_op) (rid : string) : Prop :=
  match op with
  | NodeCompleted _ _ r _ _ _ _ | NodeFailed _ _ r _ _ | HandoffNode _ _ r _ _ _ _ _ => r = rid
  | StartRun _ _ _ _ _ _ _ _ _ | CancelRun _ _ _ => False
  end.
End histories.

Lemma run_graph_op_safe {St Sp : Type} `{GraphRunRepositoryLaws St, AgentSpawner Sp}
    find_graph py_str op : graphs_by_id find_graph →
  safe (λ w : world St Sp, stored_ok find_graph (w_runs w)) (run_graph_op find_graph py_str op)
    (λ _, True).
Proof.
  intros Hg. destruct op; simpl; (eapply safe_weaken; [|done]).
  - by apply safe_start_run.
  - by apply safe_on_node_completed.
  - by apply safe_on_node_failed.
  - by apply safe_cancel_run.
  - by apply safe_handoff_node.
Qed.

(** ** One scheduled node, exactly *)

Lemma increment_at_limit now r : status r = RUNNING →
  (run_max_steps r <= total_steps r + 1)%Z →
  increment_step now r = Ok (set_run r FAILED (node_executions r) (shared_context r) []
    (total_steps r + 1) (Some (limit_message r)) (started_at r) (Some now)).
Proof.
  intros Hs Hl. unfold increment_step, mark_failed. cbn. by rewrite Hs, bool_decide_true by lia.
Qed.
Lemma increment_after_limit now r : status r = FAILED →
  (run_max_steps r <= total_steps r + 1)%Z → increment_step now r = Err (CannotFailRun FAILED).
Proof.
  intros Hs Hl. unfold increment_step, mark_failed. cbn. by rewrite Hs, bool_decide_true by lia.
Qed.

Section schedule.
Context {St Sp : Type} `{GraphRunRepository St, AgentSpawner Sp}.
Context (py_str : pyval → string) (g : AgentGraph) (now : Z).

Lemma schedule_node_exact pa ps nid n r sp sp' session (st : St) rq :
  get_node nid g = Some n → truthy (run_id r) = true → truthy nid = true →
  get_node_execution nid r = None →
  rq = mkRequest pa (agent_definition_id n) (node_message py_str n (shared_context r)) ps
         (run_project_id r) (conversation_id r) (node_metadata g r n) (run_tenant_id r) →
  spawn_agent rq sp = (sp', Some session) →
  schedule_node py_str g now pa ps nid r (mkWorld st sp) =
  match increment_step now (set_executions (node_executions r ++ [(nid, set_execution
          (mkExec (run_id r) nid None NE_PENDING (shared_context r) [] None None None) (Some session)
          NE_RUNNING [] None (Some now) None)]) r) with
  | Ok r' => (mkWorld st sp', Ok (r', [GraphNodeStarted (run_id r') nid (label n)
                                         (agent_definition_id n) session]))
  | Err e => (mkWorld st sp', Err (RunError e))
  end.
Proof.
  intros Hn Hr Ht Hx -> Hsp. pose proof (get_node_spec _ _ _ Hn) as [_ Hid]. subst nid.
  unfold schedule_node. rewrite Hn. unfold new_execution, required, checked. rewrite Hr, Ht.
  unfold lift_run; unfold_M. simpl. unfold spawn_node, require; unfold_M. simpl. rewrite Hn. simpl.
  rewrite Hsp. simpl. unfold started, lift_run; unfold_M. simpl.
  unfold add_node_execution. simpl.
  rewrite (proj2 (dmem_false _ _)) by (by apply dget_None_keys).
  rewrite dset_new by (by apply dget_None_keys). simpl.
  destruct (increment_step _ _); done.
Qed.
(** Two nodes one step below the limit: both agents are spawned, and the
    second step finds the run failed. *)
Lemma schedule_two_at_limit pa ps a b ids r evs (w : world St Sp) :
  (∀ rq sp, ∃ session, (spawn_agent rq sp).2 = Some session) →
  startable g r a → startable g r b → a ≠ b →
  truthy (run_id r) = true → truthy a = true → truthy b = true →
  status r = RUNNING → (total_steps r + 1)%Z = run_max_steps r →
  ∃ rq1 rq2, schedule_nodes py_str g now pa ps (a :: b :: ids) r evs w =
    (mkWorld (w_runs w) (spawn_agent rq2 (spawn_agent rq1 (w_agents w)).1).1,
     Err (RunError (CannotFailRun FAILED))).
Proof.
  intros Hsp (Ha & Hxa & _) (Hb & Hxb & _) Hab Ht Hta Htb Hs Hlim.
  destruct (get_node_known _ _ Ha) as (na & Hna & _).
  destruct (get_node_known _ _ Hb) as (nb & Hnb & _).
  set (rq n (x : GraphRun) := mkRequest pa (agent_definition_id n)
    (node_message py_str n (shared_context x)) ps (run_project_id x) (conversation_id x)
    (node_metadata g x n) (run_tenant_id x)).
  destruct (spawn_agent (rq na r) (w_agents w)) as [sp1 o1] eqn:E1.
  destruct (Hsp (rq na r) (w_agents w)) as [s1 Ho1]. rewrite E1 in Ho1. simpl in Ho1. subst o1.
  pose proof (schedule_node_exact pa ps a na r _ _ _ (w_runs w) (rq na r)
    Hna Ht Hta Hxa eq_refl E1) as Hfirst.
  set (x := set_executions _ r) in Hfirst.
  rewrite (increment_at_limit now x) in Hfirst by (done || (cbn; lia)).
  set (y := set_run x _ _ _ _ _ _ _ _) in *.
  destruct (spawn_agent (rq nb y) sp1) as [sp2 o2] eqn:E2.
  destruct (Hsp (rq nb y) sp1) as [s2 Ho2]. rewrite E2 in Ho2. simpl in Ho2. subst o2.
  assert (Hyb : get_node_execution b y = None).
  { unfold get_node_execution. cbn. apply dget_None_keys.
    unfold dkeys. rewrite fmap_app. cbn. rewrite not_elem_of_app. split.
    - by apply dget_None_keys.
    - by intros ?%list_elem_of_singleton. }
  pose proof (schedule_node_exact pa ps b nb y _ _ _ (w_runs w) (rq nb y)
    Hnb Ht Htb Hyb eq_refl E2) as Hsecond.
  rewrite (increment_after_limit now) in Hsecond by (done || (cbn; lia)).
  exists (rq na r), (rq nb y). rewrite E1. cbn. rewrite E2.
  replace (mkWorld (w_runs w) (w_agents w)) with w in Hfirst by (by destruct w).
  unfold mbind, M_bind. rewrite Hfirst. cbn. by rewrite Hsecond.
Qed.
End schedule.

(** * Properties *)

(** C1. Whatever is called in whatever order, and whether the calls return or
    raise, every stored run is well formed: steps within the bound, a running
    run below it and without failed or cancelled nodes; outside a swarm each
    executed node is an entry or has all its predecessors completed, and a
    completed run has completed all terminal nodes; a pipeline runs one node
    at a time; [current_node_ids] never holds anything but entry nodes. *)
Theorem graph_runs_safe {St Sp : Type} `{GraphRunRepositoryLaws St, AgentSpawner Sp}
    find_graph py_str ops (w : world St Sp) rid r :
  graphs_by_id find_graph → (∀ i, find_run i (w_runs w) = None) →
  find_run rid (w_runs (run_graph_ops find_graph py_str ops w)) = Some r →
  run_id r = rid ∧ ∃ g, find_graph (run_graph_id r) = Some g ∧ run_ok g r.
Proof.
  intros Hg Hw. assert (Hs : stored_ok find_graph (w_runs w)) by (intros i x; by rewrite Hw).
  clear Hw. unfold run_graph_ops. revert w Hs. induction ops as [|op ops IH]; intros w Hs; simpl.
  - intros Hr. by apply Hs.
  - apply IH. by apply (run_graph_op_safe find_graph py_str op Hg w Hs).
Qed.

(** Progress: when a node's completion has been handled, the run is over
    or has a node running, unless some agent could not be spawned (its node
    is skipped) or, under a supervisor, a node without predecessors is no
    entry.  In a swarm the agents decide. *)
Theorem completion_goes_on {St Sp : Type} `{GraphRunRepositoryLaws St, AgentSpawner Sp}
    find_graph py_str now gid rid nid output ps pa (w : world St Sp) r evs :
  graphs_by_id find_graph → stored_ok find_graph (w_runs w) →
  (on_node_completed find_graph py_str now gid rid nid output ps pa w).2 = Ok (r, evs) →
  ∃ g, find_graph gid = Some g ∧
    (pattern g ≠ SWARM →
     (pattern g ∈ [SUPERVISOR; HIERARCHICAL] →
        ∀ n, n ∈ node_ids g → preds g n = [] → n ∈ entry_ids g) →
     (∀ i, exec_status i r ≠ Some NE_SKIPPED) →
     is_terminal_run r = true ∨ running_node_ids r ≠ []).
Proof.
  intros Hg Hs Hr.
  by apply (safe_on_node_completed find_graph py_str Hg now gid rid nid output ps pa w Hs) in Hr.
Qed.

(** A run left without a running node is stuck: outside a swarm every
    callback about it raises and changes nothing, so only [cancel_run] ends
    it.  One agent that cannot be spawned is enough to get there. *)
Theorem skipped_run_is_stuck {St Sp : Type} `{GraphRunRepository St, AgentSpawner Sp}
    find_graph py_str rid r (w : world St Sp) op :
  find_run rid (w_runs w) = Some r → status r = RUNNING → dict_wf (node_executions r) →
  running_node_ids r = [] →
  (∀ g, find_graph (run_graph_id r) = Some g → pattern g ≠ SWARM) → graphs_by_id find_graph →
  callback_on op rid → ∃ e, run_graph_op find_graph py_str op w = (w, Err e).
Proof.
  intros Hr Hs Hd Hrun Hsw Hids Hop.
  assert (Ht : is_terminal_run r = false) by (unfold is_terminal_run; by rewrite Hs).
  assert (Hno : ∀ nid ne, get_node_execution nid r = Some ne → ne_status ne ≠ NE_RUNNING).
  { intros nid ne Hne Hst. assert (nid ∈ running_node_ids r) as Hin; [|by rewrite Hrun in Hin; apply elem_of_nil in Hin].
    apply ids_with_spec; [done|]. unfold exec_status. by rewrite Hne, <-Hst. }
  assert (Hgrp : ∀ g gid, find_graph gid = Some g → run_graph_id r = graph_id g → pattern g ≠ SWARM).
  { intros g gid Hg Hrg. apply (Hsw g). rewrite Hrg. by rewrite (Hids gid g Hg). }
  destruct op as [| now gid rid' nid output ps pa| now gid rid' nid err| |
                  now gid rid' from to summary ps pa]; simpl in Hop; try done; subst rid'; simpl;
    unfold on_node_completed, on_node_failed, handoff_node, load_run, ensure_graph_matches_run,
      require, lift_run; unfold_M; destruct (find_graph gid) as [g|] eqn:Hg; eauto; simpl;
    rewrite Hr; simpl; case_bool_decide as Hrg; simpl; eauto; destruct (_ && _); simpl; eauto;
    rewrite Ht; simpl.
  1, 2: destruct (get_node_execution nid r) as [ne|] eqn:Hne; simpl; eauto;
    unfold ne_mark_completed, ne_mark_failed;
    rewrite bool_decide_true by (by apply Hno in Hne); simpl; eauto.
  rewrite bool_decide_false by (by eapply Hgrp). eauto.
Qed.

(** The step limit cannot be reached in the middle of a batch: when a
    completion makes two nodes ready one step below the limit, both agents
    are spawned, the second step finds the run already failed,
    [on_node_completed] raises, and nothing of it is stored. *)
Theorem limit_in_batch_raises {St Sp : Type} `{GraphRunRepository St, AgentSpawner Sp}
    find_graph py_str now gid rid nid ps pa (w : world St Sp) g r ne ne' a b ids :
  (∀ rq sp, ∃ session, (spawn_agent rq sp).2 = Some session) →
  find_graph gid = Some g → find_run rid (w_runs w) = Some r →
  (run_graph_id r = graph_id g ∧ tenant_id g = run_tenant_id r ∧ project_id g = run_project_id r) →
  status r = RUNNING → get_node_execution nid r = Some ne →
  ne_mark_completed None now ne = Ok ne' →
  let r1 := set_executions (dset nid ne' (node_executions r)) r in
  let c := get_coordinator_for_pattern (pattern g) in
  should_complete_run c g r1 = false → get_next_node_ids c g r1 = Some (a :: b :: ids) →
  startable g r1 a → startable g r1 b → a ≠ b →
  truthy (run_id r) = true → truthy a = true → truthy b = true →
  (total_steps r + 1)%Z = run_max_steps r →
  ∃ w' rq1 rq2,
    on_node_completed find_graph py_str now gid rid nid None ps pa w =
      (w', Err (RunError (CannotFailRun FAILED))) ∧
    w_runs w' = w_runs w ∧
    w_agents w' = (spawn_agent rq2 (spawn_agent rq1 (w_agents w)).1).1.
Proof.
  intros Hsp Hg Hr (Hm1 & Hm2 & Hm3) Hs Hne Hne' r1 c Hsc Hnext Ha Hb Hab Ht Hta Htb Hlim.
  destruct (schedule_two_at_limit py_str g now pa (or_str ps (conversation_id r)) a b ids r1
    [GraphNodeCompleted (run_id r) nid (node_label g nid) [] (ne_duration_seconds ne')] w
    Hsp Ha Hb Hab Ht Hta Htb Hs Hlim) as (rq1 & rq2 & Hrun).
  exists (mkWorld (w_runs w) (spawn_agent rq2 (spawn_agent rq1 (w_agents w)).1).1), rq1, rq2.
  split; [|done].
  unfold on_node_completed, load_run, ensure_graph_matches_run, require, lift_run; unfold_M.
  rewrite Hg. cbn. rewrite Hr. cbn. rewrite bool_decide_true by done. cbn.
  rewrite !bool_decide_true by done. cbn. unfold is_terminal_run at 1. rewrite Hs. cbn.
  rewrite Hne. cbn. rewrite Hne'. cbn. fold r1. fold c. rewrite Hsc, Hnext.
  change (run_status_terminal RUNNING) with false. cbv beta iota. unfold mret, M_ret.
  by rewrite Hrun.
Qed.

(** * Witnesses *)

Definition run_cell : Type := list (string * GraphRun).
#[local] Instance cell_runs : GraphRunRepository run_cell := {
  find_run := dget;
  save_run := λ r st, dset (run_id r) r st;
  runs_of_graph := λ gid st, filter (λ r, run_graph_id r = gid) (dvals st);
}.
#[local] Instance cell_runs_laws : GraphRunRepositoryLaws run_cell.
Proof.
  split. intros r st i. simpl. rewrite dget_dset.
  destruct (decide (run_id r = i)) as [->|]; [by rewrite decide_True|by rewrite decide_False].
Qed.
(** Logs the requests; the agent "broken" cannot be spawned. *)
#[local] Instance log_spawner : AgentSpawner (list spawn_request) := {
  spawn_agent := λ rq log, (log ++ [rq],
    if decide (rq_target_agent rq = "broken") then None else Some (rq_target_agent rq +:+ "-session"));
}.
Definition reliable_spawner : AgentSpawner (list spawn_request) := {|
  spawn_agent := λ rq log, (log ++ [rq], Some (rq_target_agent rq +:+ "-session"));
|}.

Definition sample_node (i agent : string) (entry terminal : bool) : AgentNode :=
  mkNode i agent i "" [] entry terminal.
Definition chain_graph (gid second : string) : AgentGraph :=
  mkGraph gid "t" "p" gid "" PIPELINE
    [sample_node "a" "worker" true false; sample_node "b" second false true]
    [mkEdge "a" "b" ""] [] 50 true.
Definition fork_graph : AgentGraph :=
  mkGraph "fork" "t" "p" "fork" "" FAN_OUT
    [sample_node "a" "worker" true false; sample_node "b" "worker" false true;
     sample_node "c" "worker" false true]
    [mkEdge "a" "b" ""; mkEdge "a" "c" ""] [] 2 true.
Definition sample_graphs (i : string) : option AgentGraph :=
  if decide (i = "chain") then Some (chain_graph i "worker")
  else if decide (i = "broken") then Some (chain_graph i "broken")
  else if decide (i = "fork") then Some fork_graph else None.
Lemma sample_graphs_by_id : graphs_by_id sample_graphs.
Proof. intros i g. unfold sample_graphs. repeat case_decide; intros [= <-]; done. Qed.
Definition show_value (v : pyval) : string := "".

Definition graph_w0 : world run_cell (list spawn_request) := mkWorld [] [].
Definition start_op (gid : string) : graph_op := StartRun "r" 0 gid "conv" "t" "p" [] "" "main".
Definition chain_w1 := run_graph_ops sample_graphs show_value [start_op "chain"] graph_w0.
Definition broken_w2 := run_graph_ops sample_graphs show_value
  [start_op "broken"; NodeCompleted 1 "broken" "r" "a" None "" "main"] graph_w0.
Definition fork_w1 := run_graph_ops sample_graphs show_value [start_op "fork"] graph_w0.
Lemma chain_stored : stored_ok sample_graphs (w_runs chain_w1).
Proof.
  apply (run_graph_op_safe sample_graphs show_value (start_op "chain") sample_graphs_by_id graph_w0).
  by intros i r.
Qed.

Lemma graph_runs_safe_witness : ∃ r, find_run "r" (w_runs chain_w1) = Some r ∧
  status r = RUNNING ∧ ∃ g, sample_graphs (run_graph_id r) = Some g ∧ run_ok g r.
Proof.
  eexists. split; [vm_compute; reflexivity|]. split; [reflexivity|].
  eapply (graph_runs_safe sample_graphs show_value [start_op "chain"] graph_w0 "r");
    [exact sample_graphs_by_id|reflexivity|vm_compute; reflexivity].
Defined.
Lemma completion_goes_on_witness : ∃ r evs,
  (on_node_completed sample_graphs show_value 1 "chain" "r" "a" None "" "main" chain_w1).2 =
    Ok (r, evs) ∧ (is_terminal_run r = true ∨ running_node_ids r ≠ []).
Proof.
  eexists _, _. split; [vm_compute; reflexivity|].
  edestruct (completion_goes_on sample_graphs show_value 1 "chain" "r" "a" None "" "main" chain_w1)
    as (g & Hg & Hgoes); [exact sample_graphs_by_id|exact chain_stored|vm_compute; reflexivity|].
  vm_compute in Hg. injection Hg as <-. apply Hgoes; [done|set_solver|].
  intros i. unfold exec_status, get_node_execution. simpl. by repeat case_decide.
Defined.
Definition run_in (w : world run_cell (list spawn_request)) : GraphRun :=
  default (mkRun "" "" "" "" "" PENDING [] [] [] 0 0 None None None) (find_run "r" (w_runs w)).
Lemma skipped_run_is_stuck_witness : ∃ e, status (run_in broken_w2) = RUNNING ∧
  run_graph_op sample_graphs show_value (NodeFailed 2 "broken" "r" "b" "boom") broken_w2 =
    (broken_w2, Err e).
Proof.
  destruct (skipped_run_is_stuck sample_graphs show_value "r" (run_in broken_w2) broken_w2
    (NodeFailed 2 "broken" "r" "b" "boom")) as [e He];
    [vm_compute; reflexivity|reflexivity|apply (bool_decide_unpack _); vm_compute; exact I
    |reflexivity| |exact sample_graphs_by_id|reflexivity|].
  - intros g Hg. vm_compute in Hg. by injection Hg as <-.
  - exists e. split; [reflexivity|exact He].
Defined.
Definition exec_in (w : world run_cell (list spawn_request)) (nid : string) : NodeExecution :=
  default (mkExec "" "" None NE_PENDING [] [] None None None)
    (get_node_execution nid (run_in w)).
Lemma limit_in_batch_raises_witness : ∃ w' rq1 rq2,
  on_node_completed (H0 := reliable_spawner) sample_graphs show_value 1 "fork" "r" "a" None "" "main"
    fork_w1 = (w', Err (RunError (CannotFailRun FAILED))) ∧
  w_runs w' = w_runs fork_w1 ∧ w_agents w' = (w_agents fork_w1 ++ [rq1]) ++ [rq2].
Proof.
  set (ne := set_execution (exec_in fork_w1 "a") (agent_session_id (exec_in fork_w1 "a"))
    NE_COMPLETED [] None (ne_started_at (exec_in fork_w1 "a")) (Some 1%Z)).
  apply (limit_in_batch_raises (H0 := reliable_spawner) sample_graphs show_value 1 "fork" "r" "a"
    "" "main" fork_w1 fork_graph (run_in fork_w1) (exec_in fork_w1 "a") ne "b" "c" []);
    try (vm_compute; reflexivity); try done; try (split_and!; vm_compute; reflexivity).
  - intros rq sp. eexists. reflexivity.
  - split_and!; [apply (bool_decide_unpack _); vm_compute; exact I|vm_compute; reflexivity|].
    right. apply preds_done_spec. vm_compute. reflexivity.
  - split_and!; [apply (bool_decide_unpack _); vm_compute; exact I|vm_compute; reflexivity|].
    right. apply preds_done_spec. vm_compute. reflexivity.
Defined.
