(* ===== verification/SubAgentRun.v ===== *)
(** The lifecycle of one delegated SubAgent run.

    Source: src/src/domain/model/agent/subagent_run.py.  A run is frozen:
    every command returns a new one through [dataclasses.replace], which
    runs [__post_init__] again.  Metadata values are those of a JSON object;
    an instant is a number of microseconds ([Datetime]). *)

From stdpp Require Import pretty.
From S2P Require Import Prelude Machine.

Open Scope string_scope.
Open Scope list_scope.
Open Scope nat_scope.

Inductive SubAgentRunStatus : Set := PENDING | RUNNING | COMPLETED | FAILED | CANCELLED | TIMED_OUT.
Inductive AnnounceState : Set :=
  | ANNOUNCE_PENDING | ANNOUNCING | ANNOUNCED | ANNOUNCE_FAILED | EXPIRED.

#[export] Instance SubAgentRunStatus_eq_dec : EqDecision SubAgentRunStatus.
Proof. solve_decision. Defined.

Definition metadata_dict : Type := list (string * pyval).

Record SubAgentRun : Type := mkRun {
  conversation_id : string;
  subagent_name : string;
  task : string;
  run_id : string;
  status : SubAgentRunStatus;
  created_at : Z;
  started_at : option Z;
  ended_at : option Z;
  summary : option string;
  error : option string;
  execution_time_ms : option Z;
  tokens_used : option Z;
  metadata : metadata_dict;
  frozen_result_text : option string;
  frozen_at : option Z;
  trace_id : option string;
  parent_span_id : option string;
  announce_state : option AnnounceState;
}.

(** The ValueErrors of the methods. *)
Inductive run_error : Set :=
  | EmptyField (field : string)
  | InvalidTransition (from to : SubAgentRunStatus)
  | CannotFreeze (st : SubAgentRunStatus) | AlreadyFrozen
  | CannotTrace (st : SubAgentRunStatus) | EmptyTraceId.

(** [not s or not s.strip()] *)
Definition blank (s : string) : bool := negb (truthy s) || negb (truthy (strip s)).

Definition post_init (r : SubAgentRun) : result run_error SubAgentRun :=
  if blank (run_id r) then Err (EmptyField "run_id")
  else if blank (conversation_id r) then Err (EmptyField "conversation_id")
  else if blank (subagent_name r) then Err (EmptyField "subagent_name")
  else if blank (task r) then Err (EmptyField "task")
  else Ok r.

(** [SubAgentRun(run_id=..., conversation_id=..., subagent_name=..., task=..., metadata=...)] *)
Definition new_run (conv name tsk rid : string) (meta : metadata_dict) (now : Z)
    : result run_error SubAgentRun :=
  post_init (mkRun conv name tsk rid PENDING now None None None None None None meta
    None None None None None).

(** The fields a lifecycle command replaces, the others kept. *)
Definition set_lifecycle (r : SubAgentRun) (st : SubAgentRunStatus) (started ended : option Z)
    (summ err : option string) (tokens time_ms : option Z) : result run_error SubAgentRun :=
  post_init (mkRun (conversation_id r) (subagent_name r) (task r) (run_id r) st (created_at r)
    started ended summ err time_ms tokens (metadata r) (frozen_result_text r) (frozen_at r)
    (trace_id r) (parent_span_id r) (announce_state r)).
Definition with_metadata (m : metadata_dict) (r : SubAgentRun) : result run_error SubAgentRun :=
  post_init (mkRun (conversation_id r) (subagent_name r) (task r) (run_id r) (status r)
    (created_at r) (started_at r) (ended_at r) (summary r) (error r) (execution_time_ms r)
    (tokens_used r) m (frozen_result_text r) (frozen_at r) (trace_id r) (parent_span_id r)
    (announce_state r)).

Definition or_else {A} (o d : option A) : option A := match o with Some _ => o | None => d end.

Definition start (now : Z) (r : SubAgentRun) : result run_error SubAgentRun :=
  if bool_decide (status r = PENDING) then
    set_lifecycle r RUNNING (Some now) None (summary r) None (tokens_used r)
      (execution_time_ms r)
  else Err (InvalidTransition (status r) RUNNING).
Definition complete (summ : option string) (tokens time_ms : option Z) (now : Z)
    (r : SubAgentRun) : result run_error SubAgentRun :=
  if bool_decide (status r = RUNNING) then
    set_lifecycle r COMPLETED (started_at r) (Some now) (or_else summ (summary r)) None
      (or_else tokens (tokens_used r)) (or_else time_ms (execution_time_ms r))
  else Err (InvalidTransition (status r) COMPLETED).
Definition fail (err : string) (time_ms : option Z) (now : Z) (r : SubAgentRun)
    : result run_error SubAgentRun :=
  if bool_decide (status r = RUNNING) then
    set_lifecycle r FAILED (started_at r) (Some now) (summary r) (Some err) (tokens_used r)
      (or_else time_ms (execution_time_ms r))
  else Err (InvalidTransition (status r) FAILED).
Definition cancel (reason : option string) (now : Z) (r : SubAgentRun)
    : result run_error SubAgentRun :=
  if bool_decide (status r ∈ [PENDING; RUNNING]) then
    set_lifecycle r CANCELLED (started_at r) (Some now) (summary r)
      (if truthy_opt reason then reason else error r) (tokens_used r) (execution_time_ms r)
  else Err (InvalidTransition (status r) CANCELLED).
Definition time_out (reason : string) (now : Z) (r : SubAgentRun)
    : result run_error SubAgentRun :=
  if bool_decide (status r ∈ [PENDING; RUNNING]) then
    set_lifecycle r TIMED_OUT (started_at r) (Some now) (summary r) (Some reason)
      (tokens_used r) (execution_time_ms r)
  else Err (InvalidTransition (status r) TIMED_OUT).

Definition freeze_result (text : string) (now : Z) (r : SubAgentRun)
    : result run_error SubAgentRun :=
  if negb (bool_decide (status r ∈ [COMPLETED; FAILED])) then Err (CannotFreeze (status r))
  else if bool_decide (is_Some (frozen_result_text r)) then Err AlreadyFrozen
  else post_init (mkRun (conversation_id r) (subagent_name r) (task r) (run_id r) (status r)
    (created_at r) (started_at r) (ended_at r) (summary r) (error r) (execution_time_ms r)
    (tokens_used r) (metadata r) (Some text) (Some now) (trace_id r) (parent_span_id r)
    (announce_state r)).
Definition with_trace_context (tid : string) (span : option string) (r : SubAgentRun)
    : result run_error SubAgentRun :=
  if negb (bool_decide (status r = PENDING)) then Err (CannotTrace (status r))
  else
    let tid' := strip tid in
    if negb (truthy tid') then Err EmptyTraceId
    else
      let span' := if truthy_opt span then strip <$> span else None in
      let span' := if bool_decide (span' = Some "") then None else span' in
      post_init (mkRun (conversation_id r) (subagent_name r) (task r) (run_id r) (status r)
        (created_at r) (started_at r) (ended_at r) (summary r) (error r) (execution_time_ms r)
        (tokens_used r) (metadata r) (frozen_result_text r) (frozen_at r) (Some tid') span'
        (announce_state r)).

(** * The status machine the methods' guards describe *)

Definition run_can (s t : SubAgentRunStatus) : bool :=
  match s with
  | PENDING => bool_decide (t ∈ [RUNNING; CANCELLED; TIMED_OUT])
  | RUNNING => bool_decide (t ∈ [COMPLETED; FAILED; CANCELLED; TIMED_OUT])
  | _ => false
  end.
Definition run_active (s : SubAgentRunStatus) : bool := bool_decide (s ∈ [PENDING; RUNNING]).

Lemma run_final_stuck s t : negb (run_active s) = true → run_can s t = true → s = t.
Proof. destruct s; done. Qed.
#[export] Instance run_machine : Machine SubAgentRunStatus := {
  mstep := run_can;
  mfinal := λ s, negb (run_active s);
  mfinal_stuck := run_final_stuck;
}.

(** The commands as one type. *)
Inductive run_cmd : Type :=
  | Start (now : Z)
  | Complete (summ : option string) (tokens time_ms : option Z) (now : Z)
  | Fail (err : string) (time_ms : option Z) (now : Z)
  | Cancel (reason : option string) (now : Z)
  | TimeOut (reason : string) (now : Z)
  | Freeze (text : string) (now : Z)
  | Trace (tid : string) (span : option string)
  | SetMetadata (m : metadata_dict).
Definition apply_cmd (c : run_cmd) : SubAgentRun → result run_error SubAgentRun :=
  match c with
  | Start now => start now
  | Complete s t ms now => complete s t ms now
  | Fail e ms now => fail e ms now
  | Cancel re now => cancel re now
  | TimeOut re now => time_out re now
  | Freeze x now => freeze_result x now
  | Trace t s => with_trace_context t s
  | SetMetadata m => with_metadata m
  end.

(** Consistency of the fields. *)
Record run_wf (r : SubAgentRun) : Prop := {
  wf_fields : post_init r = Ok r;
  wf_ended : is_Some (ended_at r) ↔ run_active (status r) = false;
  wf_started : status r ∈ [RUNNING; COMPLETED; FAILED] → is_Some (started_at r);
  wf_frozen : is_Some (frozen_result_text r) → status r ∈ [COMPLETED; FAILED];
  wf_frozen_at : is_Some (frozen_at r) ↔ is_Some (frozen_result_text r);
}.

Lemma post_init_inv r r' : post_init r = Ok r' → r' = r.
Proof. unfold post_init. intros H. by case_all H. Qed.
Lemma post_init_fields r r' : post_init r = Ok r →
  run_id r' = run_id r → conversation_id r' = conversation_id r →
  subagent_name r' = subagent_name r → task r' = task r → post_init r' = Ok r'.
Proof. unfold post_init. intros H -> -> -> ->. by case_all H. Qed.

(** What a command that succeeds does to the status and the identity. *)
Lemma apply_cmd_status c r r' : apply_cmd c r = Ok r' →
  run_id r' = run_id r ∧ conversation_id r' = conversation_id r ∧
  created_at r' = created_at r ∧
  (status r' = status r ∨ run_can (status r) (status r') = true).
Proof.
  destruct c; simpl; unfold start, complete, fail, cancel, time_out, freeze_result,
    with_trace_context, with_metadata, set_lifecycle; intros H; case_all H; split_bools;
    repeat match goal with H : post_init _ = Ok _ |- _ => apply post_init_inv in H; subst end;
    simpl; split_and!; try done; auto; right;
    try (rewrite H0; done);
    repeat match goal with
    | H : _ ∈ _ :: _ |- _ => apply elem_of_cons in H as [->|H]; [done|]
    | H : _ ∈ [] |- _ => by apply elem_of_nil in H
    | H : status r = _ |- _ => rewrite H; done
    end.
Qed.

(** Shared by the property below and the registry. *)
Lemma apply_cmd_ok c r r' : run_wf r → apply_cmd c r = Ok r' →
  run_wf r' ∧ run_id r' = run_id r ∧ conversation_id r' = conversation_id r ∧
  mreach (status r) (status r').
Proof.
  intros [Hf He Hs Hfr Hfa] H.
  destruct (apply_cmd_status c r r' H) as (Hid & Hc & _ & Hst).
  assert (Hreach : mreach (status r) (status r'))
    by (destruct Hst as [->|?]; auto with memstack).
  split_and!; [|done..].
  clear Hid Hst Hreach Hc.
  destruct c; simpl in H; unfold start, complete, fail, cancel, time_out, freeze_result,
    with_trace_context, with_metadata, set_lifecycle in H; case_all H; split_bools;
    match goal with H : post_init _ = Ok _ |- _ =>
      pose proof H as Hp; apply post_init_inv in H; subst end;
    constructor; simpl; try done; try tauto.
  all: set_unfold; intros Hx; naive_solver congruence.
Qed.
Lemma finished_absorbing s t : run_active s = false → mreach s t → t = s.
Proof. intros Ha. apply final_absorbing. simpl. by rewrite Ha. Qed.

(** * Properties *)

(** Every command of a run that succeeds keeps the fields consistent:
    an end time exactly on finished runs, a start time once it ran, a frozen
    result only on completed or failed runs; it follows the status machine,
    keeps the identity, and on a finished run changes the status no more. *)
Theorem run_lifecycle c r r' : run_wf r → apply_cmd c r = Ok r' →
  run_wf r' ∧ run_id r' = run_id r ∧ mreach (status r) (status r') ∧
  (run_active (status r) = false → status r' = status r).
Proof.
  intros Hr H. destruct (apply_cmd_ok c r r' Hr H) as (? & ? & _ & ?).
  eauto using finished_absorbing.
Qed.

Definition sample_run : SubAgentRun :=
  mkRun "c" "worker" "work" "r" RUNNING 0 (Some 1%Z) None None None None None [] None None
    None None None.
Lemma run_lifecycle_witness : ∃ r', complete (Some "ok") None None 5 sample_run = Ok r' ∧
  status r' = COMPLETED ∧ run_wf r'.
Proof.
  eexists. split; [reflexivity|]. split; [reflexivity|].
  apply (run_lifecycle (Complete (Some "ok") None None 5) sample_run); [|reflexivity].
  constructor; simpl.
  - reflexivity.
  - split; [by intros []|done].
  - by intros _; exists 1%Z.
  - by intros [].
  - split; by intros [].
Defined.
