(* ===== verification/RunRegistry.v ===== *)
(** The registry of SubAgent runs, grouped by conversation.

    Source: src/src/infrastructure/agent/subagent/run_registry.py, in memory
    only ([store = None]) or with a store behind the interface
    [RunRepository], the [SubAgentRunRepository] protocol; [RunStore] has the
    stores of the sources.  A load that fails is [None]; [unread] is what
    it leaves in memory, nothing for a repository, the runs there were for
    a JSON file.  A save that raises leaves the store as it was.  Each call reads the clock once; the file lock is what
    makes a call one atomic step. *)

From stdpp Require Import pretty.
From S2P Require Import Prelude Machine Bfs PyText SubAgentRun.

Open Scope string_scope.
Open Scope list_scope.
Open Scope nat_scope.

Notation bucket := (list (string * SubAgentRun)).
Notation runs_map := (list (string * list (string * SubAgentRun))).

(** * The repository *)

Class RunRepository (St : Type) : Type := {
  load_runs : St → option runs_map * St;
  save_runs : runs_map → St → St;
  unread : runs_map → runs_map;
}.
Arguments unread St {_}.
(** A repository that works: [held rs st] says that it answers and holds the
    snapshot [rs].  What a load gives back of a snapshot that can be kept may
    differ from it, once; [RunStore] has the instances. *)
Class ReliableRepository (St : Type) `{RunRepository St} : Type := {
  held : runs_map → St → Prop;
  keepable : runs_map → Prop;
  stored : runs_map → runs_map;
  held_load : ∀ rs st, held rs st → (load_runs st).1 = Some rs ∧ held rs (load_runs st).2;
  held_save : ∀ rs rs' st, held rs st → keepable rs' → held (stored rs') (save_runs rs' st);
  held_stored : ∀ rs st, held rs st → stored rs = rs;
}.

(** One cell that holds the snapshot. *)
#[export] Instance cell_repository : RunRepository runs_map := {
  load_runs := λ st, (Some st, st);
  save_runs := λ rs _, rs;
  unread := λ _, [];
}.

(** * State *)

Record config : Type := mkConfig {
  max_runs_per_conversation : Z;
  terminal_retention : Z;
  recover_inflight_on_boot : bool;
  sync_across_processes : bool;
}.
(** The clamping of [__init__]; a retention of seconds becomes microseconds. *)
Definition new_config (max_runs retention : Z) (recover sync : bool) : config :=
  mkConfig (Z.max 1 max_runs) (Z.max 0 retention * 1000000) recover sync.

Record registry (St : Type) : Type := mkReg {
  runs : runs_map;
  store : option St;
}.
Arguments mkReg {St}.
Arguments runs {St}.
Arguments store {St}.

Inductive reg_error : Type :=
  | RunError (e : run_error)
  | ProtectedKeys (keys : list string).

Definition PROTECTED_METADATA_KEYS : list string :=
  ["lineage_root_run_id"; "parent_run_id"; "requester_session_key"].

Definition strip_protected_metadata (m : metadata_dict) : metadata_dict :=
  filter (λ kv, kv.1 ∉ PROTECTED_METADATA_KEYS) m.
Definition ensure_no_protected (m : metadata_dict) : result reg_error unit :=
  match filter (.∈ dkeys m) PROTECTED_METADATA_KEYS with
  | [] => Ok tt
  | keys => Err (ProtectedKeys keys)
  end.
(** [{**d, **e}] *)
Definition dict_update (d e : metadata_dict) : metadata_dict :=
  foldl (λ d kv, dset kv.1 kv.2 d) d e.

(** The truth value of a looked-up value, and [str(v or "")]. *)
Definition meta_truthy (v : option pyval) : bool := from_option py_truth false v.
Definition meta_text (v : option pyval) : string :=
  if meta_truthy v then from_option py_str "" v else "".

Definition is_active (r : SubAgentRun) : bool := run_active (status r).
(** [run.ended_at or run.created_at] *)
Definition end_key (r : SubAgentRun) : Z := default (created_at r) (ended_at r).
Definition bucket_of (c : string) (rs : runs_map) : bucket := dget_or [] c rs.

Section registry.
Context {St : Type} `{RunRepository St} (cfg : config).
Implicit Types (g : registry St).

(** * Synchronisation *)

Definition sync_locked g : registry St :=
  match store g with
  | None => g
  | Some st => let '(rs, st') := load_runs st in mkReg (default (unread St (runs g)) rs) (Some st')
  end.
Definition sync g : registry St :=
  if sync_across_processes cfg && bool_decide (is_Some (store g)) then sync_locked g else g.
Definition persist_locked g : registry St :=
  match store g with
  | None => g
  | Some st => mkReg (runs g) (Some (save_runs (runs g) st))
  end.

(** * Eviction *)

Definition expired (now : Z) (r : SubAgentRun) : bool :=
  negb (is_active r) && bool_decide (end_key r <= now - terminal_retention cfg)%Z.
Definition evict_expired (now : Z) (b : bucket) : bucket :=
  if bool_decide (terminal_retention cfg <= 0)%Z then b
  else foldl (λ b r, if expired now r then ddel (run_id r) b else b) b (dvals b).

Fixpoint trim (terminal : list SubAgentRun) (b : bucket) : bucket :=
  match terminal with
  | [] => b
  | r :: terminal' =>
      if bool_decide (max_runs_per_conversation cfg < Z.of_nat (length b))%Z
      then trim terminal' (ddel (run_id r) b)
      else b
  end.
Definition older (x y : SubAgentRun) : bool := Z.leb (end_key x) (end_key y).
Definition evict_bucket (now : Z) (b : bucket) : bucket :=
  let b1 := evict_expired now b in
  if bool_decide (Z.of_nat (length b1) <= max_runs_per_conversation cfg)%Z then b1
  else trim (sort_by older (filter (λ r, is_active r = false) (dvals b1))) b1.
Definition evict_if_needed (now : Z) (c : string) (rs : runs_map) : runs_map :=
  match bucket_of c rs with
  | [] => rs
  | b => dset c (evict_bucket now b) rs
  end.

(** * Mutation *)

Definition upsert_locked (now : Z) (r : SubAgentRun) g : registry St :=
  let c := conversation_id r in
  let rs := dset c (dset (run_id r) r (bucket_of c (runs g))) (runs g) in
  persist_locked (mkReg (evict_if_needed now c rs) (store g)).

Definition mutate_run (now : Z) (c rid : string) (expected : list SubAgentRunStatus)
    (mutator : SubAgentRun → result run_error SubAgentRun) g : registry St * option SubAgentRun :=
  let g := sync_locked g in
  match dget rid (bucket_of c (runs g)) with
  | None => (g, None)
  | Some r =>
      if negb (bool_decide (expected = [])) && negb (bool_decide (status r ∈ expected))
      then (g, None)
      else
        match mutator r with
        | Err _ => (g, None)
        | Ok r' => (upsert_locked now r' g, Some r')
        end
  end.

(** [replace(run, metadata={**run.metadata, **metadata})] when [metadata] is given. *)
Definition with_extra (meta : metadata_dict) (r : SubAgentRun) : result run_error SubAgentRun :=
  match meta with [] => Ok r | _ => with_metadata (dict_update (metadata r) meta) r end.

Definition create_run (now : Z) (fresh : string) (c name tsk : string) (meta : metadata_dict)
    (rid requester parent lineage : option string) g : registry St * result reg_error SubAgentRun :=
  let m := strip_protected_metadata meta in
  let put key v m := if truthy_opt v then dset key (PStr (default "" v)) m else m in
  let m := put "requester_session_key" requester m in
  let m := put "parent_run_id" parent m in
  let m := put "lineage_root_run_id" lineage m in
  let g := sync_locked g in
  let rid := if truthy_opt rid then default "" rid else fresh in
  match new_run c name tsk rid m now with
  | Err e => (g, Err (RunError e))
  | Ok r =>
      match (if meta_truthy (dget "lineage_root_run_id" m) then Ok r
             else with_metadata (dset "lineage_root_run_id" (PStr (run_id r)) m) r) with
      | Err e => (g, Err (RunError e))
      | Ok r => (upsert_locked now r g, Ok r)
      end
  end.

Definition mark_running (now : Z) (c rid : string) (meta : metadata_dict)
    (expected : list SubAgentRunStatus) :=
  mutate_run now c rid expected (λ r, r' ← start now r; with_extra meta r').
Definition mark_completed (now : Z) (c rid : string) (summ : option string)
    (tokens time_ms : option Z) (meta : metadata_dict) (expected : list SubAgentRunStatus) :=
  mutate_run now c rid expected
    (λ r, r' ← complete summ tokens time_ms now r; with_extra meta r').
Definition mark_failed (now : Z) (c rid err : string) (time_ms : option Z)
    (meta : metadata_dict) (expected : list SubAgentRunStatus) :=
  mutate_run now c rid expected (λ r, r' ← fail err time_ms now r; with_extra meta r').
Definition mark_cancelled (now : Z) (c rid : string) (reason : option string)
    (meta : metadata_dict) (expected : list SubAgentRunStatus) :=
  mutate_run now c rid expected (λ r, r' ← cancel reason now r; with_extra meta r').
Definition mark_timed_out (now : Z) (c rid reason : string) (meta : metadata_dict)
    (expected : list SubAgentRunStatus) :=
  mutate_run now c rid expected (λ r, r' ← time_out reason now r; with_extra meta r').
Definition attach_metadata (now : Z) (c rid : string) (meta : metadata_dict)
    (expected : list SubAgentRunStatus) g : registry St * result reg_error (option SubAgentRun) :=
  match ensure_no_protected meta with
  | Err e => (g, Err e)
  | Ok _ =>
      let '(g', o) := mutate_run now c rid expected
        (λ r, with_metadata (dict_update (metadata r) meta) r) g in
      (g', Ok o)
  end.
Definition set_trace_context (now : Z) (c rid tid : string) (span : option string)
    (expected : list SubAgentRunStatus) :=
  mutate_run now c rid expected (with_trace_context tid span).

(** * Queries *)

(** Every query first synchronises. *)
Definition query {A} (f : runs_map → A) g : registry St * A :=
  let g := sync g in (g, f (runs g)).
Definition get_run (c rid : string) := query (λ rs, dget rid (bucket_of c rs)).
End registry.

(** ** What the queries compute on the synchronised runs *)

(** [set(statuses) if statuses else None] *)
Definition allowed (statuses : list SubAgentRunStatus) (r : SubAgentRun) : bool :=
  bool_decide (statuses = []) || bool_decide (status r ∈ statuses).

(** [nlargest]/[nsmallest] are documented as the prefix of the stable sort. *)
Definition created_le (x y : SubAgentRun) : bool := Z.leb (created_at x) (created_at y).
Definition created_ge (x y : SubAgentRun) : bool := Z.leb (created_at y) (created_at x).
Definition sorted_runs (rs : list SubAgentRun) (reverse : bool) (limit : option Z)
    : list SubAgentRun :=
  let items := sort_by (if reverse then created_ge else created_le) rs in
  match limit with None => items | Some n => take (Z.to_nat (Z.max n 0)) items end.

Definition list_runs (c : string) (statuses : list SubAgentRunStatus) (limit : option Z)
    (rs : runs_map) : list SubAgentRun :=
  sorted_runs (filter (λ r, allowed statuses r = true) (dvals (bucket_of c rs))) true limit.
Definition list_trace_runs (c tid : string) (statuses : list SubAgentRunStatus)
    (limit : option Z) (reverse : bool) (rs : runs_map) : list SubAgentRun :=
  let tid := strip tid in
  sorted_runs (filter (λ r, trace_id r = Some tid ∧ allowed statuses r = true)
                 (dvals (bucket_of c rs))) reverse limit.
(** [dict.fromkeys] keeps the first occurrence of each id. *)
Definition fromkeys (ids : list string) : list string := foldl (λ l c, set_add c l) [] ids.
Definition list_runs_for_conversations (cs : list string) (statuses : list SubAgentRunStatus)
    (limit : option Z) (rs : runs_map) : list SubAgentRun :=
  sorted_runs
    (filter (λ r, allowed statuses r = true)
       (concat ((λ c, dvals (bucket_of c rs)) <$> fromkeys cs))) true limit.

Definition parent_text (r : SubAgentRun) : string :=
  strip (meta_text (dget "parent_run_id" (metadata r))).
Definition run_requester_key (r : SubAgentRun) : string :=
  strip (meta_text (dget "requester_session_key" (metadata r))).

Definition children_by_parent (b : bucket) : list (string * list string) :=
  foldl (λ m r, let p := parent_text r in
                if truthy p then dset p (dget_or [] p m ++ [run_id r]) m else m) [] (dvals b).

(** The [while queue] loops; one round per run is enough fuel. *)
Definition run_tree (b : bucket) (start visited : list string) : option (list string) :=
  let children := children_by_parent b in
  bfs (λ p, dget_or [] p children) (λ _, true) (S (length start + length b))
    (start, visited, []).

Inductive visibility : Set := Self | Tree | All | Unknown.
Definition list_runs_for_requester (c key : string) (vis : visibility)
    (statuses : list SubAgentRunStatus) (rs : runs_map) : option (list SubAgentRun) :=
  let runs := list_runs c statuses None rs in
  let key := strip key in
  if negb (truthy key) then Some runs
  else
    match vis with
    | All => Some runs
    | Unknown => Some []
    | Self => Some (filter (λ r, run_requester_key r = key) runs)
    | Tree =>
        let b := bucket_of c rs in
        let owned := run_id <$> filter (λ r, run_requester_key r = key) (dvals b) in
        found ← run_tree b owned owned;
        Some (filter (λ r, run_id r ∈ owned ++ found) runs)
    end.

(** The bounded heap of [list_descendant_runs], kept as the ascending list of
    its items [(-created_at, run_id)]; [heappush] and [heapreplace] insert
    into it.  (Runs created at the same instant come out in list order, where
    the array of the heap may have them otherwise.) *)
Definition heap_le (x y : SubAgentRun) : bool :=
  Z.ltb (created_at y) (created_at x) ||
  (Z.eqb (created_at x) (created_at y) && String.leb (run_id x) (run_id y)).
Definition limit_push (cap : nat) (heap : list SubAgentRun) (r : SubAgentRun)
    : list SubAgentRun :=
  if bool_decide (length heap < cap) then insert_by heap_le r heap
  else
    match heap with
    | h :: heap' => if heap_le r h then heap else insert_by heap_le r heap'
    | [] => []
    end.

Definition list_descendant_runs (c parent : string) (include_terminal : bool)
    (limit : option Z) (rs : runs_map) : option (list SubAgentRun) :=
  let b := bucket_of c rs in
  let capped_limit := (λ n, Z.to_nat (Z.max n 0)) <$> limit in
  if bool_decide (capped_limit = Some 0) then Some []
  else
    ids ← run_tree b [parent] [];
    let found := filter (λ r, include_terminal || is_active r = true)
                   (omap (λ i, dget i b) ids) in
    Some (sort_by created_le
      match capped_limit with
      | None => found
      | Some cap => foldl (limit_push cap) [] found
      end).

Definition count_active_runs (c : string) (rs : runs_map) : nat :=
  length (filter (λ r, is_active r = true) (dvals (bucket_of c rs))).
Definition count_all_active_runs (rs : runs_map) : nat :=
  sum_list ((λ b, length (filter (λ r, is_active r = true) (dvals b))) <$> dvals rs).
Definition count_active_runs_for_conversations (cs : list string) (rs : runs_map) : nat :=
  foldl (λ n c, n + count_active_runs c rs) 0 (fromkeys cs).
(** [str(run.metadata.get(key) or run.run_id).strip()] *)
Definition lineage_text (r : SubAgentRun) : string :=
  let v := dget "lineage_root_run_id" (metadata r) in
  strip (if meta_truthy v then meta_text v else run_id r).
Definition count_active_runs_for_lineage (c root : string) (rs : runs_map) : nat :=
  let root := strip root in
  if negb (truthy root) then 0
  else length (filter (λ r, is_active r = true ∧ lineage_text r = root) (dvals (bucket_of c rs))).
Definition count_active_runs_for_requester (c key : string) (rs : runs_map) : nat :=
  let key := strip key in
  if negb (truthy key) then count_active_runs c rs
  else length (filter (λ r, is_active r = true ∧ run_requester_key r = key)
                 (dvals (bucket_of c rs))).

(** ** Start-up *)

Definition recover_run (now : Z) (r : SubAgentRun) : result run_error SubAgentRun :=
  if is_active r then
    r' ← time_out "Recovered after process restart" now r;
    with_metadata (dset "recovered_on_startup" (PBool true) (metadata r')) r'
  else Ok r.
Definition recover_bucket (now : Z) (b : bucket) : result run_error bucket :=
  mapM (λ kv : string * SubAgentRun, r ← recover_run now kv.2; mret (kv.1, r)) b.
Definition recover_runs (now : Z) (rs : runs_map) : result run_error runs_map :=
  mapM (λ cb : string * bucket, b ← recover_bucket now cb.2; mret (cb.1, b)) rs.
Definition has_active (rs : runs_map) : bool :=
  existsb (λ cb : string * bucket, existsb (λ kv, is_active kv.2) cb.2) rs.

Section boot.
Context {St : Type} `{RunRepository St} (cfg : config).

(** [__init__]: load and, when configured, time out what was in flight. *)
Definition boot (now : Z) (st : option St) : result run_error (registry St) :=
  let g := sync_locked (mkReg [] st) in
  if recover_inflight_on_boot cfg && bool_decide (is_Some st) then
    rs ← recover_runs now (runs g);
    mret (if has_active (runs g) then persist_locked (mkReg rs (store g)) else mkReg rs (store g))
  else Ok g.
End boot.

(** * Well-formed registries *)

Record bucket_keyed (b : bucket) : Prop := {
  bk_dict : dict_wf b;
  bk_id : ∀ k r, dget k b = Some r → run_id r = k;
}.
(** Every conversation's bucket is keyed, its runs are consistent and belong to it. *)
Record runs_wf (rs : runs_map) : Prop := {
  rw_dict : dict_wf rs;
  rw_bucket : ∀ c, bucket_keyed (bucket_of c rs);
  rw_run : ∀ c k r, dget k (bucket_of c rs) = Some r → run_wf r ∧ conversation_id r = c;
}.

Lemma bucket_of_dset c c' b rs :
  bucket_of c' (dset c b rs) = if decide (c = c') then b else bucket_of c' rs.
Proof. unfold bucket_of. apply dget_or_dset. Qed.

Lemma elem_of_vals b r : bucket_keyed b → r ∈ dvals b ↔ dget (run_id r) b = Some r.
Proof.
  intros [Hd Hi]. unfold dvals. rewrite list_elem_of_fmap. split.
  - intros ([k x] & -> & Hin). apply elem_of_dget in Hin; [|done]. simpl. by rewrite (Hi _ _ Hin).
  - intros Hr. exists (run_id r, r). split; [done|by apply dget_Some_elem].
Qed.
Lemma vals_ids b : bucket_keyed b → run_id <$> dvals b = dkeys b.
Proof.
  intros [Hd Hi]. unfold dvals, dkeys. rewrite <-list_fmap_compose. apply list_fmap_ext.
  intros i [k r] Hr. simpl. apply Hi, elem_of_dget; [done|]. by eapply list_elem_of_lookup_2.
Qed.
Lemma keyed_dset_run b r : bucket_keyed b → bucket_keyed (dset (run_id r) r b).
Proof.
  intros [Hd Hi]. split; [by apply dset_wf|]. intros k x. rewrite dget_dset.
  case_decide; [congruence|eauto].
Qed.

(** * Eviction keeps what it must *)

(** What is left after removing the runs [dead] from a bucket. *)
Definition without (dead : list string) (b : bucket) : bucket := filter (λ kv, kv.1 ∉ dead) b.

Lemma dget_without dead b k :
  dget k (without dead b) = if decide (k ∈ dead) then None else dget k b.
Proof.
  unfold without. induction b as [|[k' r] b IH]; [by case_decide|].
  rewrite filter_cons. cbn [fst dget].
  destruct (decide (k' ∉ dead)); cbn [dget]; rewrite IH; repeat case_decide; subst; done.
Qed.
Lemma without_keyed dead b : bucket_keyed b → bucket_keyed (without dead b).
Proof.
  intros [Hd Hi]. split.
  - unfold dict_wf, dkeys, without in *. revert Hd. clear. induction b as [|kv b IH]; [done|].
    rewrite fmap_cons, NoDup_cons, filter_cons. intros [Hn Hd].
    case_decide; [|auto]. rewrite fmap_cons, NoDup_cons. split; [|auto].
    intros (x & Hx & [_ Hin]%list_elem_of_filter)%list_elem_of_fmap. apply Hn. rewrite Hx.
    by apply list_elem_of_fmap_2.
  - intros k r. rewrite dget_without. case_decide; [done|eauto].
Qed.
Lemma without_nil b : without [] b = b.
Proof.
  unfold without. induction b as [|kv b IH]; [done|].
  rewrite filter_cons, decide_True by (by intros ?%elem_of_nil). by rewrite IH.
Qed.
Lemma ddel_without k dead b : ddel k (without dead b) = without (dead ++ [k]) b.
Proof.
  unfold ddel, without. rewrite list_filter_filter. apply list_filter_iff.
  intros kv. set_solver.
Qed.

Section evict.
Context (cfg : config).

Lemma evict_expired_without now b : bucket_keyed b →
  evict_expired cfg now b =
  without (if bool_decide (terminal_retention cfg <= 0)%Z then []
           else run_id <$> filter (λ r, expired cfg now r = true) (dvals b)) b.
Proof.
  intros _. unfold evict_expired. case_bool_decide; [by rewrite without_nil|].
  assert (∀ l dead, foldl (λ b r, if expired cfg now r then ddel (run_id r) b else b)
      (without dead b) l =
    without (dead ++ (run_id <$> filter (λ r, expired cfg now r = true) l)) b) as Hl.
  { induction l as [|r l IH]; intros dead; simpl; [by rewrite app_nil_r|].
    rewrite filter_cons. destruct (expired cfg now r) eqn:E.
    - rewrite decide_True by done. rewrite ddel_without, IH. by rewrite fmap_cons, <-app_assoc.
    - by rewrite decide_False by done. }
  rewrite <-(without_nil b) at 1. apply (Hl (dvals b) []).
Qed.

Lemma trim_without ts : ∀ b,
  ∃ t1 t2, ts = t1 ++ t2 ∧ trim cfg ts b = without (run_id <$> t1) b ∧
    ((Z.of_nat (length (trim cfg ts b)) <= max_runs_per_conversation cfg)%Z ∨ t2 = []).
Proof.
  induction ts as [|r ts IH]; intros b; simpl.
  { exists [], []. simpl. rewrite without_nil. auto. }
  case_bool_decide as Hlen.
  - destruct (IH (ddel (run_id r) b)) as (t1 & t2 & -> & Heq & Hb).
    exists (r :: t1), t2. split; [done|]. split; [|done].
    rewrite Heq. unfold without, ddel. rewrite list_filter_filter. apply list_filter_iff.
    intros kv. rewrite fmap_cons. set_solver.
  - exists [], (r :: ts). simpl. rewrite without_nil. split_and!; [done..|]. left. lia.
Qed.

(** What eviction removes: [d1] expired, [d2] the oldest of the others. *)
Lemma evict_bucket_spec now b : bucket_keyed b →
  ∃ d1 d2 rest : list SubAgentRun, evict_bucket cfg now b = without ((run_id <$> d1) ++ (run_id <$> d2)) b ∧
    (∀ r, r ∈ d1 → dget (run_id r) b = Some r ∧ expired cfg now r = true) ∧
    (∀ r, r ∈ d2 → dget (run_id r) b = Some r ∧ is_active r = false) ∧
    (∀ k r, dget k (evict_bucket cfg now b) = Some r → is_active r = true ∨ r ∈ rest ∨ d2 = []) ∧
    (∀ x y, x ∈ d2 → y ∈ rest → (end_key x <= end_key y)%Z) ∧
    ((Z.of_nat (length (evict_bucket cfg now b)) <= max_runs_per_conversation cfg)%Z ∨
     ∀ k r, dget k (evict_bucket cfg now b) = Some r → is_active r = true).
Proof.
  intros Hb. unfold evict_bucket. rewrite (evict_expired_without now b Hb).
  set (d1 := if bool_decide (terminal_retention cfg <= 0)%Z then []
             else filter (λ r, expired cfg now r = true) (dvals b)).
  assert (Hd1 : (if bool_decide (terminal_retention cfg <= 0)%Z then []
    else run_id <$> filter (λ r, expired cfg now r = true) (dvals b)) = run_id <$> d1).
  { unfold d1. by case_bool_decide. }
  rewrite Hd1.
  assert (H1 : ∀ r, r ∈ d1 → dget (run_id r) b = Some r ∧ expired cfg now r = true).
  { intros r. unfold d1. case_bool_decide; [by intros ?%elem_of_nil|].
    rewrite list_elem_of_filter, elem_of_vals by done. tauto. }
  set (b1 := without (run_id <$> d1) b). assert (Hb1 : bucket_keyed b1) by (by apply without_keyed).
  destruct (bool_decide_reflect (Z.of_nat (length b1) <= max_runs_per_conversation cfg)%Z)
    as [Hlen|Hlen].
  { exists d1, [], []. rewrite fmap_nil, app_nil_r.
    split_and!; [done|done|by intros ? ?%elem_of_nil|auto|by intros ? ? ?%elem_of_nil|by left]. }
  set (ts := sort_by older (filter (λ r, is_active r = false) (dvals b1))).
  destruct (trim_without ts b1) as (t1 & t2 & Hts & Heq & Hsz).
  assert (Hts' : ∀ r, r ∈ ts ↔ is_active r = false ∧ dget (run_id r) b1 = Some r).
  { intros r. unfold ts. by rewrite elem_of_sort_by, list_elem_of_filter, elem_of_vals. }
  assert (Hget : ∀ k r, dget k (trim cfg ts b1) = Some r → is_active r = true ∨ r ∈ t2).
  { intros k r. rewrite Heq, (dget_without (run_id <$> t1)).
    destruct (decide (k ∈ run_id <$> t1)) as [Hk|Hk]; [done|]. intros Hr.
    pose proof (bk_id _ Hb1 _ _ Hr) as <-. destruct (is_active r) eqn:E; [by left|right].
    assert (r ∈ t1 ++ t2) as [?|?]%elem_of_app; [|destruct Hk; by apply list_elem_of_fmap_2|done].
    rewrite <-Hts. by apply Hts'. }
  assert (Hsort : StronglySorted (λ x y, older x y = true) ts).
  { apply sort_by_sorted; unfold older; intros *; rewrite ?Z.leb_le, ?Z.leb_gt; lia. }
  exists d1, t1, t2. split_and!; [|done| | | |].
  - rewrite Heq. unfold b1, without. rewrite list_filter_filter. apply list_filter_iff. set_solver.
  - intros r Hr. assert (Hin : r ∈ ts) by (rewrite Hts; set_solver). apply Hts' in Hin as [? Hin].
    split; [|done]. unfold b1 in Hin. rewrite dget_without in Hin. by case_decide.
  - intros k r Hr. destruct (Hget k r Hr); auto.
  - intros x y Hx Hy. apply Z.leb_le. rewrite Hts in Hsort.
    by eapply (StronglySorted_app_1_elem_of (λ x y, older x y = true)).
  - destruct Hsz as [?| ->]; [by left|right]. intros k r Hr.
    destruct (Hget k r Hr) as [|?%elem_of_nil]; done.
Qed.

(** ** What eviction leaves, exactly *)

(** Finished for longer than the retention, where there is one. *)
Definition outlived (now : Z) (r : SubAgentRun) : bool :=
  bool_decide (0 < terminal_retention cfg)%Z && expired cfg now r.

Lemma outlived_finished now r : outlived now r = true → is_active r = false.
Proof. unfold outlived, expired. destruct (is_active r); [|done]. by rewrite andb_false_r. Qed.
Lemma evict_expired_filter now b : bucket_keyed b →
  evict_expired cfg now b = filter (λ kv, outlived now kv.2 = false) b.
Proof.
  intros Hb. rewrite (evict_expired_without now b Hb). unfold without. apply filter_ext_elem.
  intros [k r] Hin. cbn [fst snd].
  assert (dget k b = Some r) as Hr by (by apply elem_of_dget; [apply bk_dict|]).
  pose proof (bk_id _ Hb _ _ Hr) as Hid. unfold outlived. case_bool_decide as Ht.
  - rewrite bool_decide_false by lia. cbn. split; [done|]. intros _. apply not_elem_of_nil.
  - rewrite bool_decide_true by lia. cbn. rewrite <-not_true_iff_false. split; intros Hn He; apply Hn.
    + rewrite <-Hid. apply list_elem_of_fmap_2, list_elem_of_filter. split; [done|].
      apply elem_of_vals; [done|]. by rewrite Hid.
    + apply list_elem_of_fmap in He as (x & Hx & [Hex Hv]%list_elem_of_filter).
      apply elem_of_vals in Hv; [|done]. rewrite <-Hx in Hv. congruence.
Qed.
Lemma ddel_length_present k (b : bucket) : dict_wf b → is_Some (dget k b) → length b = S (length (ddel k b)).
Proof.
  intros Hd Hk. induction b as [|[k' r] b IH]; [by destruct Hk|].
  apply NoDup_cons in Hd as [Hn Hd]. unfold ddel in *. rewrite filter_cons. cbn [fst dget] in *.
  destruct (decide (k' = k)) as [->|E].
  2:{ rewrite decide_True by done. cbn [length]. f_equal. apply IH; [done|].
      destruct (decide (k = k')) as [->|]; [done|]. by rewrite ?decide_False in Hk by congruence. }
  - rewrite decide_False by auto. cbn [length]. f_equal.
    assert (∀ x, x ∈ b → x.1 ≠ k) as Hall by (intros x Hx <-; apply Hn; by apply list_elem_of_fmap_2).
    clear -Hall. induction b as [|x b IH]; [done|]. rewrite filter_cons, decide_True by (apply Hall; left).
    cbn [length]. f_equal. apply IH. intros y Hy. apply Hall. by right.
Qed.
Lemma trim_length ts : ∀ b, bucket_keyed b → NoDup (run_id <$> ts) → (∀ r, r ∈ ts → dget (run_id r) b = Some r) →
  Z.of_nat (length (trim cfg ts b)) =
  Z.max (Z.min (Z.of_nat (length b)) (max_runs_per_conversation cfg)) (Z.of_nat (length b) - Z.of_nat (length ts)).
Proof.
  induction ts as [|r ts IH]; intros b Hb Hnd Hin; cbn [trim length]; [lia|].
  case_bool_decide as Hlen; [|lia]. rewrite fmap_cons in Hnd. apply NoDup_cons in Hnd as [Hn Hnd].
  pose proof (ddel_length_present (run_id r) b (bk_dict _ Hb)) as Hl.
  rewrite (Hin r ltac:(left)) in Hl. specialize (Hl ltac:(eauto)).
  rewrite IH; [lia| |done|].
  - rewrite <-(without_nil b), ddel_without. by apply without_keyed.
  - intros x Hx. rewrite <-(without_nil b), ddel_without, dget_without, decide_False; [apply Hin; by right|].
    intros [E|E%elem_of_nil]%elem_of_cons; [|done]. apply Hn. rewrite <-E. by apply list_elem_of_fmap_2.
Qed.
Lemma split_by_activity (b : bucket) :
  length b = length (filter (λ kv, is_active kv.2 = true) b) + length (filter (λ r, is_active r = false) (dvals b)).
Proof.
  induction b as [|[k r] b IH]; [done|]. unfold dvals in *. rewrite fmap_cons, !filter_cons. cbn [snd].
  destruct (is_active r) eqn:E; repeat case_decide; cbn [snd length fmap list_fmap] in *; try congruence; lia.
Qed.
Lemma evict_exactly now b0 : bucket_keyed b0 →
  let b1 := filter (λ kv, outlived now kv.2 = false) b0 in
  let b' := evict_bucket cfg now b0 in
  b' `sublist_of` b1 ∧
  (∀ k x, dget k b1 = Some x → dget k b' = None →
     ∀ k' y, dget k' b' = Some y → is_active y = true ∨ (end_key x <= end_key y)%Z) ∧
  Z.of_nat (length b') = Z.max (Z.min (Z.of_nat (length b1)) (max_runs_per_conversation cfg))
    (Z.of_nat (length (filter (λ kv, is_active kv.2 = true) b0))).
Proof.
  intros Hb b1 b'.
  assert (bucket_keyed b1) as Hb1.
  { unfold b1. rewrite <-evict_expired_filter, evict_expired_without by done. by apply without_keyed. }
  assert (filter (λ kv, is_active kv.2 = true) b0 = filter (λ kv, is_active kv.2 = true) b1) as ->.
  { unfold b1. rewrite list_filter_filter. apply list_filter_iff. intros [k r]. cbn. split; [|tauto]. intros Ha.
    split; [done|]. apply not_true_iff_false. intros ?%outlived_finished. congruence. }
  assert (b' = if bool_decide (Z.of_nat (length b1) <= max_runs_per_conversation cfg)%Z then b1
    else trim cfg (sort_by older (filter (λ r, is_active r = false) (dvals b1))) b1) as ->.
  { unfold b', evict_bucket. by rewrite evict_expired_filter. }
  pose proof (split_by_activity b1) as Hsplit. clearbody b1. case_bool_decide as Hlen.
  { split_and!; [done|congruence|lia]. }
  set (ts := sort_by older _).
  assert (∀ r, r ∈ ts ↔ is_active r = false ∧ dget (run_id r) b1 = Some r) as Hts
    by (intros r; unfold ts; by rewrite elem_of_sort_by, list_elem_of_filter, elem_of_vals).
  assert (StronglySorted (λ x y, older x y = true) ts) as Hsort
    by (apply sort_by_sorted; unfold older; intros *; rewrite ?Z.leb_le, ?Z.leb_gt; lia).
  assert (length ts = length (filter (λ r, is_active r = false) (dvals b1))) as Hl by (unfold ts; by rewrite sort_by_perm).
  assert (NoDup (run_id <$> ts)) as Hnd.
  { unfold ts. rewrite sort_by_perm. eapply sublist_NoDup; [|apply fmap_sublist, sublist_filter].
    rewrite vals_ids by done. apply Hb1. }
  pose proof (trim_length ts b1 Hb1 Hnd ltac:(by intros r [_ ?]%Hts)) as Hlt.
  destruct (trim_without ts b1) as (t1 & t2 & E & Heq & _). split_and!; [| |lia].
  - rewrite Heq. apply sublist_filter.
  - intros k x Hx Hnone k' y Hy. rewrite Heq, dget_without in Hnone, Hy.
    destruct (decide (k' ∈ _)) as [|Hk']; [done|]. case_decide as Hk; [|congruence].
    apply list_elem_of_fmap in Hk as (z & -> & Hz). pose proof (proj1 (Hts z)) as Hz'.
    rewrite E in Hz'. destruct Hz' as [_ Hz']; [set_solver|]. rewrite Hx in Hz'. injection Hz' as ->.
    pose proof (bk_id _ Hb1 _ _ Hy) as <-. destruct (is_active y) eqn:Ey; [by left|right].
    assert (y ∈ t1 ++ t2) as [?|?]%elem_of_app by (rewrite <-E; by apply Hts).
    + destruct Hk'. by apply list_elem_of_fmap_2.
    + apply Z.leb_le. rewrite E in Hsort. by eapply (StronglySorted_app_1_elem_of (λ x y, older x y = true)).
Qed.
End evict.

(** * The operations as one type *)

Inductive reg_op : Type :=
  | Create (fresh c name tsk : string) (meta : metadata_dict)
      (rid requester parent lineage : option string)
  | MarkRunning (c rid : string) (meta : metadata_dict) (expected : list SubAgentRunStatus)
  | MarkCompleted (c rid : string) (summ : option string) (tokens time_ms : option Z)
      (meta : metadata_dict) (expected : list SubAgentRunStatus)
  | MarkFailed (c rid err : string) (time_ms : option Z) (meta : metadata_dict)
      (expected : list SubAgentRunStatus)
  | MarkCancelled (c rid : string) (reason : option string) (meta : metadata_dict)
      (expected : list SubAgentRunStatus)
  | MarkTimedOut (c rid reason : string) (meta : metadata_dict)
      (expected : list SubAgentRunStatus)
  | Attach (c rid : string) (meta : metadata_dict) (expected : list SubAgentRunStatus)
  | SetTrace (c rid tid : string) (span : option string) (expected : list SubAgentRunStatus).

Definition op_result : Type := result reg_error (option SubAgentRun).

Section ops.
Context {St : Type} `{RunRepository St} (cfg : config).
Implicit Types (g : registry St).

Definition lift (x : registry St * option SubAgentRun) : registry St * op_result := (x.1, Ok x.2).
Definition apply_op (now : Z) (op : reg_op) g : registry St * op_result :=
  match op with
  | Create fresh c name tsk meta rid requester parent lineage =>
      let '(g', r) := create_run cfg now fresh c name tsk meta rid requester parent lineage g in
      (g', r ← r; Ok (Some r))
  | MarkRunning c rid meta ex => lift (mark_running cfg now c rid meta ex g)
  | MarkCompleted c rid s t ms meta ex => lift (mark_completed cfg now c rid s t ms meta ex g)
  | MarkFailed c rid e ms meta ex => lift (mark_failed cfg now c rid e ms meta ex g)
  | MarkCancelled c rid re meta ex => lift (mark_cancelled cfg now c rid re meta ex g)
  | MarkTimedOut c rid re meta ex => lift (mark_timed_out cfg now c rid re meta ex g)
  | Attach c rid meta ex => attach_metadata cfg now c rid meta ex g
  | SetTrace c rid t sp ex => lift (set_trace_context cfg now c rid t sp ex g)
  end.

(** What a mutator of an operation may do to a run. *)
Definition mutator_ok (f : SubAgentRun → result run_error SubAgentRun) : Prop :=
  ∀ r r', run_wf r → f r = Ok r' →
    run_wf r' ∧ run_id r' = run_id r ∧ conversation_id r' = conversation_id r ∧
    mreach (status r) (status r').

Lemma cmd_mutator_ok c : mutator_ok (apply_cmd c).
Proof. intros r r'. apply apply_cmd_ok. Qed.
Lemma bind_mutator_ok f h : mutator_ok f → mutator_ok h → mutator_ok (λ r, r' ← f r; h r').
Proof.
  intros Hf Hh r r' Hr H'. apply result_bind_ok in H' as (r1 & H1 & H2).
  destruct (Hf r r1 Hr H1) as (Hr1 & ? & ? & ?). destruct (Hh r1 r' Hr1 H2) as (? & ? & ? & ?).
  split_and!; [done|congruence|congruence|by eapply mreach_trans].
Qed.
Lemma extra_mutator_ok meta : mutator_ok (with_extra meta).
Proof.
  intros r r' Hr. unfold with_extra. destruct meta as [|kv meta].
  - intros [= <-]. auto with memstack.
  - apply (cmd_mutator_ok (SetMetadata _) r r' Hr).
Qed.

Lemma upsert_bucket now r g c :
  bucket_of c (runs (upsert_locked cfg now r g)) =
  if decide (conversation_id r = c)
  then evict_bucket cfg now (dset (run_id r) r (bucket_of c (runs g)))
  else bucket_of c (runs g).
Proof.
  unfold upsert_locked, persist_locked, evict_if_needed.
  rewrite bucket_of_dset, decide_True by done.
  set (b := dset (run_id r) r (bucket_of (conversation_id r) (runs g))).
  assert (b ≠ []) by (unfold b; by destruct (bucket_of _ _) as [|[??]?]; simpl; [|case_decide]).
  destruct b as [|kv b'] eqn:Hb; [done|]. rewrite <-Hb.
  destruct (store g); simpl; rewrite !bucket_of_dset; destruct (decide (conversation_id r = c)) as [<-|]; done.
Qed.

(** A run after an operation: where its status went, and whether eviction,
    which only takes finished runs, removed it. *)
Definition run_progress (b b' : bucket) : Prop :=
  ∀ k r, dget k b = Some r → ∃ st, mreach (status r) st ∧
    ((∃ r', dget k b' = Some r' ∧ status r' = st) ∨ (dget k b' = None ∧ run_active st = false)).

Lemma evict_progress now b : bucket_keyed b →
  bucket_keyed (evict_bucket cfg now b) ∧
  (∀ k r, dget k (evict_bucket cfg now b) = Some r → dget k b = Some r) ∧
  (∀ k r, dget k b = Some r → dget k (evict_bucket cfg now b) = Some r ∨
     (dget k (evict_bucket cfg now b) = None ∧ is_active r = false)).
Proof.
  intros Hb. destruct (evict_bucket_spec cfg now b Hb) as (d1 & d2 & rest & -> & H1 & H2 & _).
  split; [by apply without_keyed|]. split.
  - intros k r. rewrite dget_without. by case_decide.
  - intros k r Hr. rewrite dget_without. case_decide as Hk; [right|by left]. split; [done|].
    apply elem_of_app in Hk as [(x & -> & Hx)%list_elem_of_fmap|(x & -> & Hx)%list_elem_of_fmap].
    + destruct (H1 x Hx) as [Hg He]. simplify_eq. unfold expired in He. by split_bools.
    + destruct (H2 x Hx) as [Hg He]. by simplify_eq.
Qed.

Lemma upsert_wf now r g : runs_wf (runs g) → run_wf r →
  runs_wf (runs (upsert_locked cfg now r g)).
Proof.
  intros [Hd Hb Hr] Hwf. constructor.
  - unfold upsert_locked, persist_locked, evict_if_needed.
    destruct (store g), (bucket_of _ _); simpl; auto using dset_wf.
  - intros c. rewrite upsert_bucket. case_decide; [|done].
    by apply evict_progress, keyed_dset_run.
  - intros c k x. rewrite upsert_bucket. case_decide as Hc; [|apply Hr].
    intros Hx%evict_progress; [|by apply keyed_dset_run].
    rewrite dget_dset in Hx. case_decide; [by simplify_eq|by eapply Hr].
Qed.

Lemma upsert_progress now r g : runs_wf (runs g) →
  (∀ r0, dget (run_id r) (bucket_of (conversation_id r) (runs g)) = Some r0 →
     mreach (status r0) (status r)) →
  ∀ c, run_progress (bucket_of c (runs g)) (bucket_of c (runs (upsert_locked cfg now r g))).
Proof.
  intros [Hd Hb Hr] Hst c k x Hx. rewrite upsert_bucket.
  case_decide as Hc; [|exists (status x); split; [apply mreach_refl|left; eauto]].
  subst c. set (b := bucket_of _ _) in *.
  set (y := if decide (run_id r = k) then r else x).
  assert (Hy : dget k (dset (run_id r) r b) = Some y).
  { unfold y. rewrite dget_dset. by case_decide. }
  exists (status y). split.
  - unfold y. case_decide; [subst; by apply Hst|apply mreach_refl].
  - destruct (evict_progress now _ (keyed_dset_run b r (Hb _))) as (_ & _ & Hev).
    destruct (Hev k y Hy) as [?|[? ?]]; [left; eauto|by right].
Qed.
End ops.

Lemma new_run_wf c name tsk rid m now r : new_run c name tsk rid m now = Ok r →
  run_wf r ∧ run_id r = rid ∧ conversation_id r = c ∧ status r = PENDING ∧ metadata r = m ∧
  created_at r = now ∧ ended_at r = None.
Proof.
  intros Hn. pose proof Hn as Hp. apply post_init_inv in Hp. subst r. split; [|done].
  constructor; simpl; [done|split; [by intros []|done]|set_solver|by intros []|].
  split; by intros [].
Qed.

Section steps.
Context {St : Type} `{RunRepository St} (cfg : config).
Implicit Types (g : registry St).

(** The operation does not reuse the id of a run of the conversation. *)
Definition op_fresh (op : reg_op) (rs : runs_map) : Prop :=
  match op with
  | Create fresh c _ _ _ rid _ _ _ =>
      dget (if truthy_opt rid then default "" rid else fresh) (bucket_of c rs) = None
  | _ => True
  end.

Definition step_ok (g g' : registry St) : Prop :=
  runs_wf (runs g') ∧ ∀ c, run_progress (bucket_of c (runs g)) (bucket_of c (runs g')).

Lemma step_refl g : runs_wf (runs g) → step_ok g g.
Proof.
  intros Hw. split; [done|]. intros c k r Hr. exists (status r).
  split; [apply mreach_refl|left; eauto].
Qed.

Lemma mutate_step now c rid ex f g : mutator_ok f → store g = None → runs_wf (runs g) →
  step_ok g (mutate_run cfg now c rid ex f g).1.
Proof.
  intros Hf Hs Hw. unfold mutate_run, sync_locked. rewrite Hs.
  destruct (dget rid (bucket_of c (runs g))) as [r|] eqn:Hr; [|by apply step_refl].
  destruct (negb _ && negb _); [by apply step_refl|].
  destruct (f r) as [r'|] eqn:Hfr; [|by apply step_refl]. simpl.
  destruct (rw_run _ Hw c rid r Hr) as [Hwr Hc].
  destruct (Hf r r' Hwr Hfr) as (Hwr' & Hid & Hcid & Hst).
  split; [by apply upsert_wf|]. apply upsert_progress; [done|].
  intros r0. rewrite Hid, Hcid, Hc. rewrite (bk_id _ (rw_bucket _ Hw c) _ _ Hr), Hr.
  by intros [= <-].
Qed.

Lemma create_run_ok now fresh c name tsk meta rid requester parent lineage g g' r :
  create_run cfg now fresh c name tsk meta rid requester parent lineage g = (g', Ok r) →
  g' = upsert_locked cfg now r (sync_locked g) ∧ run_wf r ∧
  run_id r = (if truthy_opt rid then default "" rid else fresh) ∧ conversation_id r = c ∧
  status r = PENDING ∧ created_at r = now ∧ ended_at r = None.
Proof.
  unfold create_run. set (i := if truthy_opt rid then default "" rid else fresh).
  destruct (new_run _ _ _ _ _ _) as [r0|] eqn:Hn; [|done].
  apply new_run_wf in Hn as (Hw & Hid & Hc & Hst & Hm & Hcr & He).
  destruct (meta_truthy _) eqn:Hl.
  - intros [= <- <-]. done.
  - destruct (with_metadata _ _) as [r1|] eqn:Hwm; [|done]. intros [= <- <-].
    pose proof (apply_cmd_ok (SetMetadata _) _ _ Hw Hwm) as (Hw1 & Hid1 & Hc1 & _).
    apply post_init_inv in Hwm. subst r1. simpl in *. split_and!; try done; congruence.
Qed.

Lemma apply_op_step now op g : store g = None → runs_wf (runs g) → op_fresh op (runs g) →
  step_ok g (apply_op cfg now op g).1.
Proof.
  intros Hs Hw Hfr.
  destruct op; simpl;
    try (apply mutate_step; [|done|done];
         first [apply bind_mutator_ok; [|apply extra_mutator_ok]|idtac];
         first [apply (cmd_mutator_ok (Start _))|apply (cmd_mutator_ok (Complete _ _ _ _))
               |apply (cmd_mutator_ok (Fail _ _ _))|apply (cmd_mutator_ok (Cancel _ _))
               |apply (cmd_mutator_ok (TimeOut _ _))|apply (cmd_mutator_ok (Trace _ _))]).
  - destruct (create_run _ _ _ _ _ _ _ _ _ _ _ _) as [g' [r|e]] eqn:Hc; simpl.
    + apply create_run_ok in Hc as (-> & Hwr & Hid & Hcid & Hst & _).
      unfold sync_locked. rewrite Hs. split; [by apply upsert_wf|].
      apply upsert_progress; [done|]. simpl in Hfr. rewrite Hid, Hcid, Hfr. done.
    + revert Hc. unfold create_run, sync_locked. rewrite Hs. intros Hc.
      case_all Hc; by apply step_refl.
  - unfold attach_metadata. destruct (ensure_no_protected meta); [|by apply step_refl].
    rewrite (surjective_pairing (mutate_run _ _ _ _ _ _ _)). simpl.
    apply mutate_step; [|done|done]. intros r r'. apply (apply_cmd_ok (SetMetadata _)).
Qed.
End steps.

(** * A shared repository implements the in-memory registry *)

Section synced.
Context {St : Type} `{RunRepository St} (cfg : config).
Implicit Types (g : registry St).

Definition in_memory (rs : runs_map) : registry St := mkReg rs None.
(** From the synchronised registry [g0], [g] is where an operation leads and
    [m] where it leads in memory: nothing happened, or the runs are the same
    and were saved. *)
Definition follows (g0 g m : registry St) : Prop :=
  g = g0 ∧ m = in_memory (runs g0) ∨ runs g = runs m ∧ store g = save_runs (runs m) <$> store g0.

Lemma upsert_synced now r g : follows g (upsert_locked cfg now r g) (upsert_locked cfg now r (in_memory (runs g))).
Proof. right. unfold upsert_locked, persist_locked. simpl. by destruct (store g). Qed.
Lemma mutate_synced now c rid ex f g :
  let a := mutate_run cfg now c rid ex f g in
  let m := mutate_run cfg now c rid ex f (in_memory (runs (sync_locked g))) in
  a.2 = m.2 ∧ follows (sync_locked g) a.1 m.1.
Proof.
  unfold mutate_run. change (sync_locked (in_memory ?rs)) with (in_memory rs). simpl runs.
  destruct (dget rid _) as [r|]; [|by split; [|left]].
  destruct (negb _ && negb _); [by split; [|left]|].
  destruct (f r); [|by split; [|left]]. split; [done|]. apply upsert_synced.
Qed.
Lemma create_synced now fresh c name tsk meta rid requester parent lineage g :
  let create := create_run cfg now fresh c name tsk meta rid requester parent lineage in
  let a := create g in let m := create (in_memory (runs (sync_locked g))) in
  a.2 = m.2 ∧ follows (sync_locked g) a.1 m.1.
Proof.
  unfold create_run. change (sync_locked (in_memory ?rs)) with (in_memory rs). cbv zeta.
  destruct (new_run _ _ _ _ _ _) as [r|]; [|by split; [|left]].
  destruct (if meta_truthy _ then _ else _) as [r'|]; [|by split; [|left]]. split; [done|]. apply upsert_synced.
Qed.

(** What an operation does depends on the runs it loads alone; an update of
    protected metadata is refused before anything is loaded. *)
Lemma apply_op_synced now op g :
  let a := apply_op cfg now op g in
  let m := apply_op cfg now op (in_memory (runs (sync_locked g))) in
  a.2 = m.2 ∧ (follows (sync_locked g) a.1 m.1 ∨ a.1 = g ∧ m.1 = in_memory (runs (sync_locked g))).
Proof.
  destruct op; simpl;
    unfold mark_running, mark_completed, mark_failed, mark_cancelled, mark_timed_out, set_trace_context, attach_metadata;
    try (match goal with |- Ok (mutate_run cfg now ?c ?rid ?ex ?f g).2 = _ ∧ _ =>
      destruct (mutate_synced now c rid ex f g) as [H1 H2]; rewrite H1; by split; [|left] end).
  - destruct (create_synced now fresh c name tsk meta rid requester parent lineage g) as [H1 H2].
    destruct (create_run _ _ _ _ _ _ _ _ _ _ _ g) as [g1 o1].
    destruct (create_run _ _ _ _ _ _ _ _ _ _ _ (in_memory _)) as [g2 o2]. simpl in *. subst. by split; [|left].
  - destruct (ensure_no_protected meta); [|by split; [|right]].
    match goal with |- context [mutate_run cfg now ?c ?rid ?ex ?f g] =>
      destruct (mutate_synced now c rid ex f g) as [H1 H2];
      destruct (mutate_run cfg now c rid ex f g) as [g1 o1];
      destruct (mutate_run cfg now c rid ex f (in_memory (runs (sync_locked g)))) as [g2 o2] end.
    simpl in *. subst. by split; [|left].
Qed.
End synced.

(** Calls of the processes that share a repository, one at a time as the lock
    file makes them: each process has its configuration and, in memory, what
    it last saw. *)
Record process_call : Type := mkProcessCall {
  caller : config; memory : runs_map; called_at : Z; asked : reg_op;
}.
(** What a sequence of calls returns, and where it leads. *)
Fixpoint answers {S} (step : process_call → S → S * op_result) (l : list process_call) (s : S)
    : list op_result * S :=
  match l with
  | [] => ([], s)
  | c :: l' => let '(s1, r) := step c s in let '(rs, s2) := answers step l' s1 in (r :: rs, s2)
  end.

Section refine.
Context {St : Type} `{ReliableRepository St}.

Definition shared_call (c : process_call) (st : St) : St * op_result :=
  let a := apply_op (caller c) (called_at c) (asked c) (mkReg (memory c) (Some st)) in
  (default st (store a.1), a.2).
(** The specification: one registry in memory that holds the snapshot, as it
    comes back from the store. *)
Definition memory_call (c : process_call) (rs : runs_map) : runs_map * op_result :=
  let m := apply_op (caller c) (called_at c) (asked c) (in_memory (St := St) rs) in
  (stored (runs m.1), m.2).
Fixpoint keepable_run (l : list process_call) (rs : runs_map) : Prop :=
  match l with
  | [] => True
  | c :: l' =>
      keepable (runs (apply_op (caller c) (called_at c) (asked c) (in_memory (St := St) rs)).1) ∧
      keepable_run l' (memory_call c rs).1
  end.

Lemma sync_held rs st mem : held rs st →
  ∃ st', sync_locked (mkReg mem (Some st)) = mkReg rs (Some st') ∧ held rs st'.
Proof.
  intros Hh. destruct (held_load _ _ Hh) as [Hl Hh']. unfold sync_locked. simpl.
  rewrite (surjective_pairing (load_runs st)), Hl. simpl. eauto.
Qed.
Lemma shared_call_refines c rs st : held rs st →
  keepable (runs (apply_op (caller c) (called_at c) (asked c) (in_memory (St := St) rs)).1) →
  (shared_call c st).2 = (memory_call c rs).2 ∧ held (memory_call c rs).1 (shared_call c st).1.
Proof.
  intros Hh Hk. destruct (sync_held rs st (memory c) Hh) as (st' & Hs & Hh').
  destruct (apply_op_synced (caller c) (called_at c) (asked c) (mkReg (memory c) (Some st))) as [H1 H2].
  rewrite Hs in H1, H2. simpl in H1, H2. unfold shared_call, memory_call. cbn [fst snd]. split; [exact H1|].
  destruct H2 as [[[-> E]|[_ ->]]|[-> E]]; cbn [store fmap option_fmap option_map default from_option id].
  - rewrite E. simpl. by rewrite (held_stored _ _ Hh').
  - by eapply held_save.
  - rewrite E. simpl. by rewrite (held_stored _ _ Hh).
Qed.
Lemma shared_calls_refine l : ∀ rs st, held rs st → keepable_run l rs →
  (answers shared_call l st).1 = (answers memory_call l rs).1 ∧
  held (answers memory_call l rs).2 (answers shared_call l st).2.
Proof.
  induction l as [|c l IH]; intros rs st Hh Hk; [done|]. destruct Hk as [Hk Hl].
  destruct (shared_call_refines c rs st Hh Hk) as [H1 H2]. cbn [answers].
  destruct (shared_call c st) as [st1 r], (memory_call c rs) as [rs1 r']. cbn [fst snd] in *. subst r'.
  destruct (IH rs1 st1 H2 Hl) as [H3 H4].
  destruct (answers shared_call l st1), (answers memory_call l rs1). simpl in *. by subst.
Qed.
Lemma query_held {A} cfg mem (f : runs_map → A) rs st : held rs st → sync_across_processes cfg = true →
  (query cfg f (mkReg mem (Some st))).2 = f rs.
Proof.
  intros Hh Hsync. unfold query, sync. rewrite Hsync. simpl.
  by destruct (sync_held rs st mem Hh) as (st' & -> & _).
Qed.
End refine.

(** * The trees of runs *)

(** [y] is a run of the bucket whose parent is [x]. *)
Definition tree_edge (b : bucket) (x y : string) : Prop :=
  ∃ r, dget y b = Some r ∧ parent_text r = x ∧ x ≠ "".

Lemma children_by_parent_spec b p :
  dget_or [] p (children_by_parent b) =
  if truthy p then run_id <$> filter (λ r, parent_text r = p) (dvals b) else [].
Proof.
  unfold children_by_parent.
  assert (∀ l m, dget_or [] p (foldl (λ m r, let q := parent_text r in
      if truthy q then dset q (dget_or [] q m ++ [run_id r]) m else m) m l) =
    dget_or [] p m ++ (if truthy p then run_id <$> filter (λ r, parent_text r = p) l else []))
    as Hl; [|apply Hl].
  induction l as [|r l IH]; intros m; simpl.
  { by destruct (truthy p); rewrite app_nil_r. }
  rewrite IH. destruct (truthy (parent_text r)) eqn:Ht.
  - rewrite dget_or_dset. destruct (decide (parent_text r = p)) as [<-|Hp].
    + rewrite Ht, filter_cons, decide_True by done. by rewrite fmap_cons, <-app_assoc.
    + by rewrite filter_cons, decide_False by done.
  - rewrite filter_cons. destruct (truthy p) eqn:Htp; [|done].
    rewrite decide_False; [done|]. intros <-. congruence.
Qed.

Lemma tree_children b x y : bucket_keyed b →
  y ∈ dget_or [] x (children_by_parent b) ↔ tree_edge b x y.
Proof.
  intros Hb. rewrite children_by_parent_spec. unfold tree_edge.
  destruct (truthy x) eqn:Hx.
  - apply truthy_true in Hx. rewrite list_elem_of_fmap.
    setoid_rewrite list_elem_of_filter. setoid_rewrite (elem_of_vals b); [|done]. split.
    + intros (r & -> & Hp & Hr). eauto.
    + intros (r & Hr & Hp & _). exists r. pose proof (bk_id _ Hb _ _ Hr). by subst y.
  - split; [by intros ?%elem_of_nil|]. intros (r & _ & _ & Hne).
    apply truthy_true in Hne. congruence.
Qed.

Lemma tc_iff {A} (R R' : relation A) x y : (∀ x y, R x y ↔ R' x y) → tc R x y ↔ tc R' x y.
Proof.
  intros Hi. split; induction 1; [apply tc_once|eapply tc_l|apply tc_once|eapply tc_l];
    try done; by apply Hi.
Qed.

Lemma run_tree_spec b start visited : bucket_keyed b → (∀ x, x ∈ visited → x ∈ start) →
  ∃ ids, run_tree b start visited = Some ids ∧ NoDup ids ∧
    ∀ x, x ∈ ids ↔ x ∉ visited ∧ ∃ y, y ∈ start ∧ tc (tree_edge b) y x.
Proof.
  intros Hb Hv. unfold run_tree. set (children := λ p, dget_or [] p (children_by_parent b)).
  assert (He : ∀ x y, bfs_edge children (λ _, true) x y ↔ tree_edge b x y).
  { intros x y. unfold bfs_edge, children. rewrite tree_children by done. naive_solver. }
  destruct (bfs_total children (λ _, true) start visited (dkeys b)
    (S (length start + length b))) as [ids Hids].
  - intros x c Hc _. apply tree_children in Hc as (r & Hr & _); [|done].
    apply dget_is_Some_keys. eauto.
  - unfold dkeys. rewrite length_fmap. lia.
  - exists ids. split; [done|]. apply bfs_correct in Hids as (Hnd & Hex & _); [|done].
    split; [done|]. intros x. rewrite Hex. setoid_rewrite (tc_iff _ _ _ _ He). done.
Qed.

(** * Start-up *)

Lemma recover_run_ok now r : run_wf r → ∃ r', recover_run now r = Ok r' ∧
  is_active r' = false ∧ run_id r' = run_id r ∧ (is_active r = false → r' = r) ∧
  (is_active r = true → status r' = TIMED_OUT ∧ ended_at r' = Some now).
Proof.
  intros Hw. pose proof (wf_fields _ Hw) as Hp. unfold recover_run.
  destruct (is_active r) eqn:Ha; [|exists r; naive_solver].
  unfold is_active, run_active in Ha. split_bools. unfold time_out.
  rewrite bool_decide_true by done. unfold set_lifecycle, with_metadata.
  eexists. split.
  - unfold mbind, result_bind. rewrite (post_init_fields r) by done.
    rewrite (post_init_fields r) by done. reflexivity.
  - by split_and!.
Qed.

Lemma recover_bucket_ok now b : (∀ k r, (k, r) ∈ b → run_wf r) →
  ∃ b', recover_bucket now b = Ok b' ∧
    Forall2 (λ x y : string * SubAgentRun, x.1 = y.1 ∧ recover_run now x.2 = Ok y.2) b b'.
Proof.
  intros Hw. unfold recover_bucket.
  match goal with |- context [mapM ?f b] => destruct (mapM_result f b) as (b' & -> & HF) end.
  - intros [k r] Hin. destruct (recover_run_ok now r (Hw k r Hin)) as (r' & Hr & _).
    simpl. rewrite Hr. eexists. reflexivity.
  - exists b'. split; [done|]. eapply Forall2_impl; [exact HF|].
    intros x y (z & Hz & [= <-])%result_bind_ok. done.
Qed.
Lemma recover_runs_ok now rs : (∀ c b, (c, b) ∈ rs → ∀ k r, (k, r) ∈ b → run_wf r) →
  ∃ rs', recover_runs now rs = Ok rs' ∧
    Forall2 (λ x y : string * bucket, x.1 = y.1 ∧
      Forall2 (λ u v : string * SubAgentRun, u.1 = v.1 ∧ recover_run now u.2 = Ok v.2) x.2 y.2)
      rs rs'.
Proof.
  intros Hw. unfold recover_runs.
  match goal with |- context [mapM ?f rs] => destruct (mapM_result f rs) as (rs' & -> & HF) end.
  - intros [c b] Hin. destruct (recover_bucket_ok now b (Hw c b Hin)) as (b' & Hb & _).
    simpl. rewrite Hb. eexists. reflexivity.
  - exists rs'. split; [done|]. eapply Forall2_impl_elem; [exact HF|].
    intros x y Hx (z & Hz & [= <-])%result_bind_ok. split; [done|].
    destruct x as [c b]. destruct (recover_bucket_ok now b (Hw c b Hx)) as (b' & Hb & HF').
    cbn [snd] in Hz |- *. rewrite Hb in Hz. by injection Hz as <-.
Qed.

Lemma has_active_false rs :
  has_active rs = false ↔ ∀ c b k r, (c, b) ∈ rs → (k, r) ∈ b → is_active r = false.
Proof.
  unfold has_active. split.
  - intros Hf c b k r Hc Hk. destruct (is_active r) eqn:E; [|done].
    rewrite <-Hf. symmetry. apply existsb_exists. exists (c, b).
    rewrite <-list_elem_of_In. split; [done|]. apply existsb_exists. exists (k, r).
    by rewrite <-list_elem_of_In.
  - intros Hall. apply not_true_iff_false.
    intros ([c b] & Hc & ([k r] & Hk & Ha)%existsb_exists)%existsb_exists.
    rewrite <-list_elem_of_In in Hc. rewrite <-list_elem_of_In in Hk. simpl in *.
    by rewrite (Hall c b k r) in Ha.
Qed.

(** ** The bounded heap *)

Lemma heap_le_created x y : heap_le x y = true → (created_at y <= created_at x)%Z.
Proof.
  unfold heap_le. rewrite orb_true_iff, andb_true_iff, Z.ltb_lt, Z.eqb_eq.
  intros [?|[? _]]; lia.
Qed.
Lemma heap_gt_created x y : heap_le x y = false → (created_at x <= created_at y)%Z.
Proof. unfold heap_le. rewrite orb_false_iff, Z.ltb_ge. by intros [? _]. Qed.

Definition younger (x y : SubAgentRun) : Prop := (created_at y <= created_at x)%Z.
Lemma heap_insert_sorted x l : StronglySorted younger l →
  StronglySorted younger (insert_by heap_le x l).
Proof.
  induction 1 as [|y l Hl IH Hy]; simpl; [by repeat constructor|].
  destruct (heap_le x y) eqn:E.
  - apply heap_le_created in E. repeat constructor; [done..| |by unfold younger|].
    + done.
    + eapply Forall_impl; [exact Hy|]. unfold younger. simpl. lia.
  - apply heap_gt_created in E. constructor; [done|]. rewrite insert_by_perm. by constructor.
Qed.

(** After any number of pushes the heap holds [cap] of the oldest items:
    one push moves the youngest of the heap and the new run out of it. *)
Definition oldest_kept (cap : nat) (heap rest : list SubAgentRun) : Prop :=
  StronglySorted younger heap ∧ (rest = [] ∨ length heap = cap) ∧ length heap ≤ cap ∧
  ∀ x y, x ∈ heap → y ∈ rest → younger y x.

Lemma limit_push_step cap heap rest r : 0 < cap → oldest_kept cap heap rest →
  ∃ rest', oldest_kept cap (limit_push cap heap r) rest' ∧
    limit_push cap heap r ++ rest' ≡ₚ r :: heap ++ rest.
Proof.
  intros Hcap (Hs & Hr & Hl & Ho). unfold limit_push. case_bool_decide as Hlt.
  - destruct Hr as [->|]; [|lia]. exists []. split; [|by rewrite insert_by_perm].
    split_and!; [by apply heap_insert_sorted|by left|rewrite insert_by_perm; simpl; lia|].
    by intros ? ? _ ?%elem_of_nil.
  - destruct heap as [|h heap]; simpl in *; [lia|].
    apply StronglySorted_inv in Hs as [Hs Hh]. rewrite Forall_forall in Hh.
    destruct (heap_le r h) eqn:E; [apply heap_le_created in E|apply heap_gt_created in E].
    + exists (r :: rest). split; [|by rewrite <-Permutation_middle].
      split_and!; [|by right; simpl; lia|simpl; lia|].
      * constructor; [done|by apply Forall_forall].
      * intros x y Hx [->|Hy]%elem_of_cons; [|by apply Ho].
        apply elem_of_cons in Hx as [->|Hx]; unfold younger in *; [lia|].
        specialize (Hh x Hx). lia.
    + exists (h :: rest).
      split; [|rewrite insert_by_perm, <-Permutation_middle; simpl; constructor].
      split_and!; [by apply heap_insert_sorted|right|rewrite insert_by_perm; simpl; lia|].
      { rewrite insert_by_perm. simpl. lia. }
      intros x y. rewrite insert_by_perm, !elem_of_cons.
      intros [->|Hx] [->|Hy]; unfold younger in *.
      * done.
      * assert (created_at h <= created_at y)%Z by (apply Ho; [by left|done]). lia.
      * by apply Hh.
      * apply Ho; [by right|done].
Qed.
Lemma limit_push_oldest cap found : 0 < cap → ∀ heap rest, oldest_kept cap heap rest →
  ∃ rest', oldest_kept cap (foldl (limit_push cap) heap found) rest' ∧
    foldl (limit_push cap) heap found ++ rest' ≡ₚ found ++ heap ++ rest.
Proof.
  intros Hcap. induction found as [|r found IH]; intros heap rest Hk; simpl; [by exists rest|].
  destruct (limit_push_step cap heap rest r Hcap Hk) as (rest1 & Hk1 & Hp1).
  destruct (IH _ _ Hk1) as (rest2 & Hk2 & Hp2). exists rest2. split; [done|].
  rewrite Hp2, Hp1. symmetry. apply Permutation_middle.
Qed.

Lemma created_sorted l : StronglySorted (λ x y, created_le x y = true) (sort_by created_le l).
Proof. apply sort_by_sorted; unfold created_le; intros *; rewrite ?Z.leb_le, ?Z.leb_gt; lia. Qed.

(** * Properties *)

(** C8. What an insertion or an update leaves of the bucket, exactly: with a
    retention, the finished runs that outlived it go; of what is left ([b1],
    in its order) only finished runs go, those that ended first, and as many
    as are too many for the bound, or all of them when the active ones alone
    exceed it.  So a bucket within its bound loses no run that has not
    expired.  Other conversations are untouched. *)
Theorem upsert_evicts {St} `{RunRepository St} cfg now r (g : registry St) :
  let b0 := dset (run_id r) r (bucket_of (conversation_id r) (runs g)) in
  let b1 := filter (λ kv, outlived cfg now kv.2 = false) b0 in
  let g' := upsert_locked cfg now r g in
  let b' := bucket_of (conversation_id r) (runs g') in
  bucket_keyed (bucket_of (conversation_id r) (runs g)) →
  b' `sublist_of` b1 ∧
  (∀ k x, dget k b0 = Some x → is_active x = true → dget k b' = Some x) ∧
  (∀ k x, dget k b1 = Some x → dget k b' = None →
     ∀ k' y, dget k' b' = Some y → is_active y = true ∨ (end_key x <= end_key y)%Z) ∧
  Z.of_nat (length b') = Z.max (Z.min (Z.of_nat (length b1)) (max_runs_per_conversation cfg))
    (Z.of_nat (length (filter (λ kv, is_active kv.2 = true) b0))) ∧
  (∀ c, c ≠ conversation_id r → bucket_of c (runs g') = bucket_of c (runs g)).
Proof.
  intros b0 b1 g' b' Hb. assert (Hb0 : bucket_keyed b0) by (by apply keyed_dset_run).
  assert (b' = evict_bucket cfg now b0) as -> by (unfold b', g'; by rewrite upsert_bucket, decide_True).
  destruct (evict_exactly cfg now b0 Hb0) as (H1 & H2 & H3). fold b1 in H1, H2, H3.
  destruct (evict_progress cfg now b0 Hb0) as (_ & _ & Hkeep).
  split_and!; [done| |done|done|].
  - intros k x Hx Ha. destruct (Hkeep k x Hx) as [?|[_ ?]]; congruence.
  - intros c Hc. unfold g'. by rewrite upsert_bucket, decide_False by done.
Qed.

(** An operation on an in-memory registry keeps every bucket keyed and
    every run consistent; each run of the registry moves only along the
    status machine, and the only runs that disappear are finished ones. *)
Theorem registry_progress {St} `{RunRepository St} cfg now op (g : registry St) :
  store g = None → runs_wf (runs g) → op_fresh op (runs g) →
  let g' := (apply_op cfg now op g).1 in
  runs_wf (runs g') ∧
  ∀ c k r, dget k (bucket_of c (runs g)) = Some r → ∃ st, mreach (status r) st ∧
    ((∃ r', dget k (bucket_of c (runs g')) = Some r' ∧ status r' = st) ∨
     (dget k (bucket_of c (runs g')) = None ∧ run_active st = false)).
Proof. intros Hs Hw Hf. by apply apply_op_step. Qed.

(** When the repository cannot be read, a successful [create_run]
    replaces the whole snapshot: the new run is all that is kept in memory
    and all that is saved. *)
Theorem load_failure_forgets {St} `{RunRepository St} cfg now fresh c name tsk meta
    rid requester parent lineage rs st g' r :
  (load_runs st).1 = None → unread St rs = [] →
  create_run cfg now fresh c name tsk meta rid requester parent lineage (mkReg rs (Some st)) =
    (g', Ok r) →
  runs g' = [(c, [(run_id r, r)])] ∧
  store g' = Some (save_runs [(c, [(run_id r, r)])] (load_runs st).2).
Proof.
  intros Hl Hu (-> & _ & _ & Hc & Hst & _)%create_run_ok. unfold sync_locked. simpl.
  rewrite (surjective_pairing (load_runs st)), Hl. simpl. rewrite Hu. unfold upsert_locked, evict_if_needed. simpl.
  rewrite Hc.
  assert (Hb : bucket_of c [(c, [(run_id r, r)])] = [(run_id r, r)]).
  { unfold bucket_of, dget_or. simpl. by rewrite decide_True. }
  rewrite Hb.
  assert (Hact : is_active r = true) by (unfold is_active; by rewrite Hst).
  assert (evict_bucket cfg now [(run_id r, r)] = [(run_id r, r)]) as ->.
  { unfold evict_bucket, evict_expired, expired. simpl. rewrite Hact. simpl.
    destruct (bool_decide (terminal_retention cfg <= 0)%Z); simpl;
      case_bool_decide; try done; by rewrite filter_cons, Hact. }
  unfold persist_locked. simpl. by rewrite decide_True.
Qed.

(** [list_descendant_runs] terminates and returns, oldest first, each
    run whose chain of [parent_run_id]s leads to the given id, restricted
    to active ones on request; a limit keeps that many of the oldest. *)
Theorem list_descendant_runs_spec c p include_terminal rs : bucket_keyed (bucket_of c rs) →
  ∃ all, list_descendant_runs c p include_terminal None rs = Some all ∧
    StronglySorted (λ x y, created_le x y = true) all ∧ NoDup (run_id <$> all) ∧
    (∀ r, r ∈ all ↔ dget (run_id r) (bucket_of c rs) = Some r ∧
      (include_terminal = true ∨ is_active r = true) ∧
      tc (tree_edge (bucket_of c rs)) p (run_id r)) ∧
    ∀ n, ∃ out left_out, list_descendant_runs c p include_terminal (Some n) rs = Some out ∧
      StronglySorted (λ x y, created_le x y = true) out ∧ out ++ left_out ≡ₚ all ∧
      length out = Z.to_nat n `min` length all ∧
      ∀ x y, x ∈ out → y ∈ left_out → (created_at x <= created_at y)%Z.
Proof.
  intros Hb. unfold list_descendant_runs. cbv zeta. rewrite bool_decide_false by done.
  destruct (run_tree_spec (bucket_of c rs) [p] []) as (ids & -> & Hnd & Hids);
    [done|by intros ? ?%elem_of_nil|]. simpl.
  eexists. split; [done|]. split; [apply created_sorted|].
  assert (Hom : run_id <$> omap (λ i, dget i (bucket_of c rs)) ids `sublist_of` ids).
  { clear Hids Hnd. induction ids as [|i ids IH]; simpl; [done|].
    destruct (dget i (bucket_of c rs)) as [r|] eqn:Hr; simpl; [|by constructor].
    rewrite (bk_id _ Hb _ _ Hr). by constructor. }
  split_and!.
  - rewrite sort_by_perm. eapply sublist_NoDup; [exact Hnd|]. etrans; [|exact Hom].
    apply fmap_sublist, sublist_filter.
  - intros r. rewrite elem_of_sort_by, list_elem_of_filter, orb_true_iff, list_elem_of_omap.
    setoid_rewrite Hids. setoid_rewrite list_elem_of_singleton. split.
    + intros (? & i & (_ & y & -> & Hi) & Hr). rewrite (bk_id _ Hb _ _ Hr). by rewrite Hr.
    + intros (Hr & ? & Ht). split; [done|]. exists (run_id r). split; [|done].
      split; [by intros ?%elem_of_nil|eauto].
  - intros n. set (found := filter _ _).
    replace (Z.to_nat (Z.max n 0)) with (Z.to_nat n) by lia.
    case_bool_decide as Hn.
    + injection Hn as ->. exists [], (sort_by created_le found).
      split_and!; [done|constructor|done|done|by intros ? ? ?%elem_of_nil].
    + destruct (limit_push_oldest (Z.to_nat n) found) with (heap := @nil SubAgentRun)
        (rest := @nil SubAgentRun) as (rest & (_ & Hr & Hlen & Ho) & Hp).
      { destruct (Z.to_nat n); [done|lia]. }
      { split_and!; [constructor|by left|simpl; lia|by intros ? ? ?%elem_of_nil]. }
      rewrite !app_nil_r in Hp.
      eexists _, rest. split; [done|]. split; [apply created_sorted|].
      split_and!; [by rewrite !sort_by_perm|rewrite !sort_by_length|].
      { apply Permutation_length in Hp. rewrite length_app in Hp.
        destruct Hr as [->|?]; simpl in *; lia. }
      intros x y Hx%elem_of_sort_by Hy. by apply Ho.
Qed.

(** With visibility [tree] a requester sees exactly the listed runs
    it owns or that descend from one it owns. *)
Theorem requester_tree_spec c key statuses rs : bucket_keyed (bucket_of c rs) →
  strip key ≠ "" →
  ∃ out, list_runs_for_requester c key Tree statuses rs = Some out ∧
    ∀ r, r ∈ out ↔ r ∈ list_runs c statuses None rs ∧
      ∃ o, dget (run_id o) (bucket_of c rs) = Some o ∧ run_requester_key o = strip key ∧
        rtc (tree_edge (bucket_of c rs)) (run_id o) (run_id r).
Proof.
  intros Hb Hk. unfold list_runs_for_requester.
  rewrite (proj2 (truthy_true _)) by done. simpl.
  set (owned := run_id <$> _).
  destruct (run_tree_spec (bucket_of c rs) owned owned) as (ids & -> & _ & Hids); [done..|].
  simpl. eexists. split; [done|]. intros r. rewrite list_elem_of_filter, (comm (∧)).
  apply ZifyClasses.and_morph; [done|].
  assert (Howned : ∀ x, x ∈ owned ↔ ∃ o, x = run_id o ∧
    dget (run_id o) (bucket_of c rs) = Some o ∧ run_requester_key o = strip key).
  { intros x. unfold owned. rewrite list_elem_of_fmap. setoid_rewrite list_elem_of_filter.
    setoid_rewrite (elem_of_vals _ _ Hb). naive_solver. }
  rewrite elem_of_app, Hids. split.
  - intros [(o & -> & Ho & Hq)%Howned|(_ & y & (o & -> & Ho & Hq)%Howned & Hy)].
    + eauto using rtc_refl.
    + eauto using tc_rtc.
  - intros (o & Ho & Hq & Hr). destruct (decide (run_id r ∈ owned)) as [|Hn]; [by left|right].
    split; [done|]. exists (run_id o). split; [apply Howned; eauto|].
    apply rtc_tc in Hr as [Heq|?]; [|done]. destruct Hn. rewrite <-Heq. apply Howned. eauto.
Qed.

(** Start-up with recovery on a readable repository succeeds, leaves
    no run active, times out exactly the runs that were, and keeps the
    finished ones as they were. *)
Theorem boot_recovers {St} `{RunRepository St} cfg now st rs :
  recover_inflight_on_boot cfg = true → (load_runs st).1 = Some rs → runs_wf rs →
  ∃ g', boot cfg now (Some st) = Ok g' ∧ has_active (runs g') = false ∧
    ∀ c k r, dget k (bucket_of c rs) = Some r →
      ∃ r', dget k (bucket_of c (runs g')) = Some r' ∧
        (is_active r = false → r' = r) ∧
        (is_active r = true → status r' = TIMED_OUT ∧ ended_at r' = Some now).
Proof.
  intros Hrec Hl Hw. unfold boot, sync_locked. simpl.
  rewrite (surjective_pairing (load_runs st)), Hl, Hrec. simpl.
  assert (Hall : ∀ c b, (c, b) ∈ rs → ∀ k r, (k, r) ∈ b → run_wf r).
  { intros c b Hc k r Hr. apply (elem_of_dget c) in Hc; [|apply Hw].
    assert (Hb : bucket_of c rs = b) by (unfold bucket_of, dget_or; by rewrite Hc).
    eapply (rw_run _ Hw c k). rewrite Hb. apply elem_of_dget; [|done].
    rewrite <-Hb. apply (rw_bucket _ Hw c). }
  destruct (recover_runs_ok now rs Hall) as (rs' & Hr & HF). rewrite Hr. simpl.
  set (g' := if has_active rs then _ else _).
  assert (Hg : runs g' = rs') by (unfold g'; by destruct (has_active rs)).
  exists g'. split; [done|]. rewrite Hg. split.
  - apply has_active_false. intros c b k r Hc Hk.
    apply list_elem_of_lookup in Hc as [i Hi].
    destruct (Forall2_lookup_r _ _ _ _ _ HF Hi) as ([c0 b0] & Hi0 & Hc0 & HFb).
    apply list_elem_of_lookup in Hk as [j Hj].
    destruct (Forall2_lookup_r _ _ _ _ _ HFb Hj) as ([k0 r0] & Hj0 & Hk0 & Hrr). simpl in *.
    destruct (recover_run_ok now r0) as (r' & Hr' & Ha & _); [|congruence].
    eapply Hall; by eapply list_elem_of_lookup_2.
  - intros c k r Hk. unfold bucket_of, dget_or in *.
    destruct (dget c rs) as [b|] eqn:Hc; [|done].
    destruct (dget_Forall2 _ _ _ _ _ HF Hc) as (b' & -> & HFb). simpl in *.
    destruct (dget_Forall2 (λ x y, recover_run now x = Ok y) _ _ _ _ HFb Hk) as (r' & Hr' & Hrr).
    exists r'. split; [done|].
    destruct (recover_run_ok now r) as (r1 & Hr1 & _ & _ & ? & ?);
      [|rewrite Hrr in Hr1; injection Hr1 as <-; auto].
    eapply (Hall c b); [by apply dget_Some_elem|by apply (dget_Some_elem k)].
Qed.

(** A run that finishes while active runs alone exceed the bound is
    evicted at once: [mark_completed] returns it and it is gone. *)
Theorem completed_run_can_vanish {St} `{RunRepository St} cfg now c rid r summ tokens ms
    (g : registry St) :
  store g = None → runs_wf (runs g) →
  dget rid (bucket_of c (runs g)) = Some r → status r = RUNNING →
  (∀ k x, dget k (bucket_of c (runs g)) = Some x → is_active x = true) →
  (max_runs_per_conversation cfg < Z.of_nat (length (bucket_of c (runs g))))%Z →
  ∃ r', (mark_completed cfg now c rid summ tokens ms [] [] g).2 = Some r' ∧
    status r' = COMPLETED ∧
    dget rid (bucket_of c (runs (mark_completed cfg now c rid summ tokens ms [] [] g).1)) = None.
Proof.
  intros Hs Hw Hr Hst Hact Hlen. destruct (rw_run _ Hw _ _ _ Hr) as [Hwr Hc].
  assert (Hcomp : ∃ r', complete summ tokens ms now r = Ok r').
  { unfold complete. rewrite bool_decide_true by done. unfold set_lifecycle. eexists.
    apply (post_init_fields r); [apply Hwr|done..]. }
  destruct Hcomp as [r' Hcomp].
  destruct (apply_cmd_ok (Complete summ tokens ms now) r r' Hwr Hcomp) as (_ & Hid & Hcid & _).
  assert (Hst' : status r' = COMPLETED).
  { unfold complete in Hcomp. case_all Hcomp. apply post_init_inv in Hcomp. by subst. }
  pose proof (rw_bucket _ Hw c) as Hbk.
  pose proof (bk_id _ Hbk _ _ Hr) as Hrid. exists r'.
  unfold mark_completed, mutate_run, sync_locked. rewrite Hs, Hr. simpl.
  rewrite Hcomp. simpl. split_and!; [done..|].
  rewrite upsert_bucket, Hcid, Hc, decide_True, Hid, Hrid by done.
  set (b0 := dset rid r' (bucket_of c (runs g))).
  assert (Hb0 : bucket_keyed b0) by (unfold b0; rewrite <-Hrid, <-Hid; by apply keyed_dset_run).
  assert (H0 : dget rid b0 = Some r') by apply dget_dset_eq.
  destruct (evict_bucket_spec cfg now b0 Hb0) as (d1 & d2 & rest & Heq & H1 & H2 & _ & _ & H5).
  destruct (evict_progress cfg now b0 Hb0) as (_ & Hsub & Hkeep).
  destruct (Hkeep rid r' H0) as [Hin|[? _]]; [exfalso|done].
  destruct H5 as [Hle|Hall]; [|specialize (Hall _ _ Hin); unfold is_active in Hall;
    by rewrite Hst' in Hall].
  assert (Hb0len : length b0 = length (bucket_of c (runs g))).
  { apply dset_length_old, dget_is_Some_keys. eauto. }
  assert (evict_bucket cfg now b0 = b0) as He; [|rewrite He, Hb0len in Hle; lia].
  rewrite Heq.
  assert (∀ x, x ∈ d1 ∨ x ∈ d2 → False) as Hnone.
  { intros x Hx. assert (dget (run_id x) b0 = Some x ∧ is_active x = false) as [Hg Ha].
    { destruct Hx as [Hx|Hx]; [destruct (H1 x Hx) as [? He]|by apply H2]. split; [done|].
      unfold expired in He. by split_bools. }
    destruct (decide (run_id x = rid)) as [Hxr|Hxr].
    - rewrite Hxr, H0 in Hg. injection Hg as <-.
      rewrite Heq, dget_without in Hin. case_decide as Hnin; [done|]. apply Hnin.
      apply elem_of_app. rewrite <-Hxr. destruct Hx; [left|right]; by apply list_elem_of_fmap_2.
    - unfold b0 in Hg. rewrite dget_dset_ne in Hg by done. apply Hact in Hg. congruence. }
  destruct d1 as [|x ?]; [|destruct (Hnone x); left; left].
  destruct d2 as [|x ?]; [|destruct (Hnone x); right; left]. apply without_nil.
Qed.

(** * Witnesses *)

Definition sample_cfg : config := new_config 1 0 true true.
Definition old_run : SubAgentRun :=
  mkRun "c" "worker" "work" "old" COMPLETED 0 (Some 1%Z) (Some 2%Z) None None None None [] None
    None None None None.
Definition child_run (rid parent : string) : SubAgentRun :=
  mkRun "c" "worker" "work" rid RUNNING 0 (Some 1%Z) None None None None None
    [("parent_run_id", PStr parent); ("requester_session_key", PStr "s")] None None None None None.
Definition sample_bucket : bucket := [("r", sample_run); ("k", child_run "k" "r")].

Lemma sample_run_wf : run_wf sample_run.
Proof.
  constructor; simpl; [reflexivity|split; [by intros []|done]|by intros _; exists 1%Z|by intros []|].
  split; by intros [].
Qed.
Lemma child_run_wf rid parent : blank rid = false → run_wf (child_run rid parent).
Proof.
  intros Hb. constructor; simpl.
  - unfold post_init. simpl. by rewrite Hb.
  - split; [by intros []|done].
  - by intros _; exists 1%Z.
  - by intros [].
  - split; by intros [].
Qed.
Lemma reg_sample_keyed : bucket_keyed sample_bucket.
Proof.
  split; [apply (bool_decide_unpack _); vm_compute; exact I|].
  intros k r Hr. simpl in Hr. by repeat (case_decide; simplify_eq/=).
Qed.
Lemma reg_sample_wf : runs_wf [("c", sample_bucket)].
Proof.
  constructor.
  - apply (bool_decide_unpack _); vm_compute; exact I.
  - intros c. unfold bucket_of, dget_or. simpl. case_decide; [apply reg_sample_keyed|].
    split; [constructor|done].
  - intros c k r. unfold bucket_of, dget_or. simpl. case_decide; [|done]. subst c. simpl.
    repeat (case_decide; [intros [= <-]; split; [|done]; try apply sample_run_wf;
      by apply child_run_wf|]). done.
Qed.
Lemma old_keyed : bucket_keyed (bucket_of "c" [("c", [("old", old_run)])]).
Proof.
  split; [apply (bool_decide_unpack _); vm_compute; exact I|].
  intros k r Hr. unfold bucket_of, dget_or in Hr. simpl in Hr. by case_decide; simplify_eq/=.
Qed.

Lemma upsert_evicts_witness :
  let g := mkReg (St := runs_map) [("c", [("old", old_run)])] None in
  bucket_keyed (bucket_of "c" (runs g)) ∧
  dget "r" (bucket_of "c" (runs (upsert_locked sample_cfg 9 sample_run g))) = Some sample_run ∧
  dget "old" (bucket_of "c" (runs (upsert_locked sample_cfg 9 sample_run g))) = None.
Proof.
  split; [exact old_keyed|]. split; [|reflexivity].
  destruct (upsert_evicts sample_cfg 9 sample_run
    (mkReg (St := runs_map) [("c", [("old", old_run)])] None) old_keyed) as (_ & H & _).
  apply H; reflexivity.
Defined.

Lemma registry_progress_witness :
  runs_wf (runs (apply_op sample_cfg 9 (MarkCompleted "c" "r" None None None [] [])
    (mkReg (St := runs_map) [("c", sample_bucket)] None)).1).
Proof.
  apply (registry_progress sample_cfg 9 (MarkCompleted "c" "r" None None None [] [])
    (mkReg (St := runs_map) [("c", sample_bucket)] None)); [reflexivity|exact reg_sample_wf|exact I].
Defined.

(** A repository whose first load fails. *)
Definition flaky : Type := bool * runs_map.
Definition flaky_repository : RunRepository flaky := {|
  load_runs := λ st : flaky, (if st.1 then None else Some st.2, (false, st.2));
  save_runs := λ (rs : runs_map) (st : flaky), (st.1, rs);
  unread := λ _, [];
|}.
Lemma load_failure_witness :
  let g := (create_run (H := flaky_repository) sample_cfg 9 "new" "d" "worker" "work" []
              None None None None (mkReg (St := flaky) [] (Some (true, [("c", sample_bucket)])))).1 in
  dget "c" (runs g) = None ∧ length (runs g) = 1.
Proof.
  destruct (create_run (H := flaky_repository) sample_cfg 9 "new" "d" "worker" "work" []
    None None None None (mkReg (St := flaky) [] (Some (true, [("c", sample_bucket)])))) as [g r] eqn:E.
  destruct r as [r|e]; [|discriminate E].
  destruct (load_failure_forgets (H := flaky_repository) sample_cfg 9 "new" "d" "worker" "work" []
    None None None None [] (true, [("c", sample_bucket)]) g r eq_refl eq_refl E) as [H _].
  simpl. rewrite H. split; reflexivity.
Defined.

Lemma list_descendant_runs_witness :
  bucket_keyed (bucket_of "c" [("c", sample_bucket)]) ∧
  is_Some (list_descendant_runs "c" "r" true None [("c", sample_bucket)]).
Proof.
  split; [exact reg_sample_keyed|].
  destruct (list_descendant_runs_spec "c" "r" true [("c", sample_bucket)] reg_sample_keyed)
    as (o & H & _). exists o. exact H.
Defined.

Lemma requester_tree_witness :
  is_Some (list_runs_for_requester "c" "s" Tree [] [("c", sample_bucket)]).
Proof.
  destruct (requester_tree_spec "c" "s" [] [("c", sample_bucket)] reg_sample_keyed)
    as (o & H & _); [discriminate|]. exists o. exact H.
Defined.

Lemma boot_recovers_witness : ∃ g', boot (St := runs_map) sample_cfg 9 (Some [("c", sample_bucket)]) = Ok g' ∧
  has_active (runs g') = false.
Proof.
  destruct (boot_recovers (St := runs_map) (H := cell_repository) sample_cfg 9 [("c", sample_bucket)] [("c", sample_bucket)]
    eq_refl eq_refl reg_sample_wf) as (g' & H & H' & _).
  exists g'. split; [exact H|exact H'].
Defined.

Lemma completed_run_can_vanish_witness :
  dget "r" (bucket_of "c" (runs (mark_completed sample_cfg 9 "c" "r" None None None [] []
    (mkReg (St := runs_map) [("c", sample_bucket)] None)).1)) = None.
Proof.
  destruct (completed_run_can_vanish sample_cfg 9 "c" "r" sample_run None None None
    (mkReg (St := runs_map) [("c", sample_bucket)] None)) as (r' & _ & _ & H);
    [reflexivity|exact reg_sample_wf|reflexivity|reflexivity| |reflexivity|exact H].
  intros k x Hx. change (dget k sample_bucket = Some x) in Hx. simpl in Hx.
  repeat (case_decide; [injection Hx as <-; reflexivity|]). discriminate Hx.
Defined.
