(* ===== verification/RunStore.v ===== *)
(** Where the runs are kept: the JSON snapshot of the registry and the stores
    that hold it.

    Sources: src/src/infrastructure/agent/subagent/run_repository.py,
    [to_event_data] of src/src/domain/model/agent/subagent_run.py, and the
    JSON file of src/src/infrastructure/agent/subagent/run_registry.py (the
    two parsers are the same text).  A database or a Redis server is the cell
    that the statements address, with flags that say whether a call succeeds;
    SQL, connections and file descriptors are left out.  Metadata values are
    JSON values without floats; a text without a form of [isoformat] that
    [datetime.fromisoformat] reads as well is a parameter. *)

From S2P Require Import Prelude PyText Json Datetime SubAgentRun RunRegistry.

Open Scope string_scope.
Open Scope list_scope.
Open Scope nat_scope.

(** * Runs *)

Definition status_value (s : SubAgentRunStatus) : string :=
  match s with
  | PENDING => "pending" | RUNNING => "running" | COMPLETED => "completed"
  | FAILED => "failed" | CANCELLED => "cancelled" | TIMED_OUT => "timed_out"
  end.
Definition announce_value (s : AnnounceState) : string :=
  match s with
  | ANNOUNCE_PENDING => "pending" | ANNOUNCING => "announcing" | ANNOUNCED => "announced"
  | ANNOUNCE_FAILED => "failed" | EXPIRED => "expired"
  end.
(** [SubAgentRunStatus(value)] and [AnnounceState(value)] *)
Definition status_of (s : string) : option SubAgentRunStatus :=
  head (filter (λ x, status_value x = s) [PENDING; RUNNING; COMPLETED; FAILED; CANCELLED; TIMED_OUT]).
Definition announce_of (s : string) : option AnnounceState :=
  head (filter (λ x, announce_value x = s) [ANNOUNCE_PENDING; ANNOUNCING; ANNOUNCED; ANNOUNCE_FAILED; EXPIRED]).

Definition or_none {A} (f : A → pyval) (o : option A) : pyval := from_option f PNone o.
Definition time_json (t : Z) : pyval := PStr (isoformat t).
Definition event_fields (r : SubAgentRun) : list (string * pyval) :=
  [("run_id", PStr (run_id r)); ("conversation_id", PStr (conversation_id r));
   ("subagent_name", PStr (subagent_name r)); ("task", PStr (task r));
   ("status", PStr (status_value (status r))); ("created_at", time_json (created_at r));
   ("started_at", or_none time_json (started_at r)); ("ended_at", or_none time_json (ended_at r));
   ("summary", or_none PStr (summary r)); ("error", or_none PStr (error r));
   ("execution_time_ms", or_none PInt (execution_time_ms r)); ("tokens_used", or_none PInt (tokens_used r));
   ("metadata", PDict (metadata r)); ("frozen_result_text", or_none PStr (frozen_result_text r));
   ("frozen_at", or_none time_json (frozen_at r)); ("trace_id", or_none PStr (trace_id r));
   ("parent_span_id", or_none PStr (parent_span_id r));
   ("announce_state", or_none (λ s, PStr (announce_value s)) (announce_state r))].
Definition to_event_data (r : SubAgentRun) : pyval := PDict (event_fields r).

Definition optional_str (v : pyval) : option string :=
  match v with PNone => None | _ => if truthy (py_str v) then Some (py_str v) else None end.
Definition optional_int (v : pyval) : option Z := py_int v.
Definition parse_announce_state (v : pyval) : option AnnounceState := s ← optional_str v; announce_of s.

Section parse.
(** How [fromisoformat(s).astimezone(UTC)] reads the texts that [isoformat]
    does not write: [None] when it raises a ValueError, [Some None] when the
    conversion overflows.  And the clock, for a run without [created_at]. *)
Context (other_iso : string → option (option Z)) (now : Z).

(** [None] when an exception leaves the function. *)
Definition parse_datetime (v : pyval) : option (option Z) :=
  match v with
  | PStr s =>
      if truthy (strip s) then
        match iso_instant s with
        | Some t => Some (Some t)
        | None => match other_iso s with None => Some None | Some None => None | Some (Some t) => Some (Some t) end
        end
      else Some None
  | _ => Some None
  end.

Definition deserialize_run (payload : pyval) : option SubAgentRun :=
  match payload with
  | PDict p =>
      let get k := default PNone (dget k p) in
      let text k := if py_truth (get k) then py_str (get k) else "" in
      let st := default PENDING (status_of (py_str (default (PStr "pending") (dget "status" p)))) in
      let meta := match get "metadata" with PDict m => m | _ => [] end in
      created ← parse_datetime (get "created_at");
      started ← parse_datetime (get "started_at");
      ended ← parse_datetime (get "ended_at");
      frozen ← parse_datetime (get "frozen_at");
      match post_init (mkRun (text "conversation_id") (text "subagent_name") (text "task") (text "run_id") st
              (default now created) started ended (optional_str (get "summary")) (optional_str (get "error"))
              (optional_int (get "execution_time_ms")) (optional_int (get "tokens_used")) meta
              (optional_str (get "frozen_result_text")) frozen (optional_str (get "trace_id"))
              (optional_str (get "parent_span_id")) (parse_announce_state (get "announce_state"))) with
      | Ok r => Some r
      | Err _ => None
      end
  | _ => None
  end.

(** * Snapshots *)

(** A dictionary comprehension keeps the keys, which are distinct, in order. *)
Definition serialize_bucket (b : bucket) : pyval := PDict ((λ kv, (kv.1, to_event_data kv.2)) <$> b).
Definition serialize_snapshot (rs : runs_map) : string :=
  json_dumps false false
    (PDict [("version", PInt 1); ("conversations", PDict ((λ cb, (cb.1, serialize_bucket cb.2)) <$> rs))]).

Definition deserialize_bucket (runs : pyval) : bucket :=
  match runs with
  | PDict d => omap (λ kv : string * pyval, pair kv.1 <$> deserialize_run kv.2) d
  | _ => []
  end.
Definition deserialize_conversations (conversations : list (string * pyval)) : runs_map :=
  omap (λ kv : string * pyval, match deserialize_bucket kv.2 with [] => None | b => Some (kv.1, b) end) conversations.
(** [raw.get("version") != 1]; [True == 1] in Python. *)
Definition is_version (v : option pyval) : bool :=
  match v with Some (PInt z) => Z.eqb z 1 | Some (PBool b) => b | _ => false end.
(** [None] where [_load_from_json_file] returns without a snapshot. *)
Definition parse_snapshot (payload : string) : option runs_map :=
  match json_loads payload with
  | Some (PDict raw) =>
      if is_version (dget "version" raw) then
        match default (PDict []) (dget "conversations" raw) with
        | PDict conversations => Some (deserialize_conversations conversations)
        | _ => None
        end
      else None
  | _ => None
  end.
Definition deserialize_snapshot (payload : string) : runs_map := default [] (parse_snapshot payload).

(** * Stores *)

(** The JSON file: its text, if it exists, and whether it can be read and
    replaced. *)
Record json_file : Type := mkFile { contents : option string; readable : bool; writable : bool }.
Definition load_from_json_file (f : json_file) : option runs_map * json_file :=
  (p ← contents f; if readable f then parse_snapshot p else None, f).
Definition persist_json_file (rs : runs_map) (f : json_file) : json_file :=
  if writable f then mkFile (Some (serialize_snapshot rs)) (readable f) (writable f) else f.

(** The one row of the SQLite or PostgreSQL table, if it is there, and whether
    a statement succeeds. *)
Record database : Type := mkDb { row : option string; db_up : bool }.
Definition db_load_runs (d : database) : runs_map :=
  if db_up d then from_option deserialize_snapshot [] (row d) else [].
Definition db_save_runs (rs : runs_map) (d : database) : database :=
  if db_up d then mkDb (Some (serialize_snapshot rs)) (db_up d) else d.

(** [RedisRunSnapshotCache]: whether it has a client, the value under its key,
    and whether [get] and [setex] succeed. *)
Record redis_cache : Type := mkCache { client : bool; cached : option string; get_ok : bool; setex_ok : bool }.
Definition cache_load_runs (c : redis_cache) : option runs_map :=
  if client c && get_ok c then deserialize_snapshot <$> cached c else None.
Definition cache_save_runs (rs : runs_map) (c : redis_cache) : redis_cache :=
  if client c && setex_ok c then mkCache (client c) (Some (serialize_snapshot rs)) (get_ok c) (setex_ok c) else c.

(** [HybridSubAgentRunRepository] *)
Record hybrid : Type := mkHybrid { db_repository : database; run_cache : option redis_cache }.
Definition hybrid_load_runs (h : hybrid) : runs_map * hybrid :=
  match c ← run_cache h; cache_load_runs c with
  | Some rs => (rs, h)
  | None =>
      let runs := db_load_runs (db_repository h) in
      (runs, mkHybrid (db_repository h) (cache_save_runs runs <$> run_cache h))
  end.
Definition hybrid_save_runs (rs : runs_map) (h : hybrid) : hybrid :=
  mkHybrid (db_save_runs rs (db_repository h)) (cache_save_runs rs <$> run_cache h).

(** The stores as repositories of the registry: what a JSON file that cannot
    be read leaves in memory is what was there, a repository's load always
    returns. *)
Definition json_file_repository : RunRepository json_file :=
  {| load_runs := load_from_json_file; save_runs := persist_json_file; unread := λ rs, rs |}.
Definition database_repository : RunRepository database :=
  {| load_runs := λ d, (Some (db_load_runs d), d); save_runs := db_save_runs; unread := λ _, [] |}.
Definition hybrid_repository : RunRepository hybrid :=
  {| load_runs := λ h, (Some (hybrid_load_runs h).1, (hybrid_load_runs h).2); save_runs := hybrid_save_runs;
     unread := λ _, [] |}.
End parse.

(** * Shared registries *)

(** The cache of [get_shared_subagent_run_registry]: one registry per
    effective configuration.  [resolve] makes a path absolute, [getenv] reads the
    environment, [create] is the constructor. *)
Record registry_key : Type := mkKey {
  key_path : option string; key_postgres : option string; key_sqlite : option string; key_redis : option string;
  key_ttl : Z; key_retention : Z;
}.
#[export] Instance registry_key_eq_dec : EqDecision registry_key.
Proof. solve_decision. Defined.

Definition normalize_registry_option (value : option string) : option string :=
  s ← value; if truthy (strip s) then Some (strip s) else None.
Section shared.
Context {R : Type} (resolve : string → string) (getenv : string → option string) (create : registry_key → R).
Definition normalize_registry_path (path : option string) : option string := resolve <$> normalize_registry_option path.
Definition or_env (value : option string) (name : string) : option string :=
  if truthy_opt value then value else getenv name.
Definition get_shared_registry (path postgres sqlite redis : option string) (ttl retention : Z)
    (shared : list (registry_key * R)) : list (registry_key * R) * R :=
  let path := normalize_registry_path (or_env path "AGENT_SUBAGENT_RUN_REGISTRY_PATH") in
  let postgres := normalize_registry_option (or_env postgres "AGENT_SUBAGENT_RUN_POSTGRES_DSN") in
  let sqlite := normalize_registry_path (or_env sqlite "AGENT_SUBAGENT_RUN_SQLITE_PATH") in
  let redis := normalize_registry_option (or_env redis "AGENT_SUBAGENT_RUN_REDIS_CACHE_URL") in
  let key := mkKey path postgres sqlite redis ttl retention in
  match dget key shared with
  | Some registry => (shared, registry)
  | None =>
      let only_file := negb (truthy_opt postgres) && negb (truthy_opt sqlite) in
      let registry := create (mkKey (if only_file then path else None) postgres sqlite redis ttl retention) in
      (dset key registry shared, registry)
  end.
(** The registries it closes. *)
Definition clear_shared_registries (shared : list (registry_key * R)) : list (registry_key * R) * list R :=
  ([], dvals shared).

Lemma get_shared_again path postgres sqlite redis ttl retention shared :
  let first := get_shared_registry path postgres sqlite redis ttl retention shared in
  get_shared_registry path postgres sqlite redis ttl retention first.1 = first.
Proof.
  unfold get_shared_registry. cbv zeta. destruct (dget _ shared) as [r|] eqn:E; cbn [fst].
  - by rewrite E.
  - by rewrite dget_dset_eq.
Qed.
End shared.

(** * Reading back what was written *)

Definition stored_time (o : option Z) : Prop := ∀ t, o = Some t → in_range t.
(** A run whose instants a datetime can hold and whose metadata are JSON. *)
Record storable_run (r : SubAgentRun) : Prop := {
  sr_valid : post_init r = Ok r;
  sr_metadata : json_wf (PDict (metadata r));
  sr_created : in_range (created_at r);
  sr_started : stored_time (started_at r);
  sr_ended : stored_time (ended_at r);
  sr_frozen : stored_time (frozen_at r);
}.
(** [_optional_str] reads an empty text as [None]. *)
Definition nonempty (o : option string) : option string := if truthy_opt o then o else None.
Definition norm_run (r : SubAgentRun) : SubAgentRun :=
  mkRun (conversation_id r) (subagent_name r) (task r) (run_id r) (status r) (created_at r) (started_at r)
    (ended_at r) (nonempty (summary r)) (nonempty (error r)) (execution_time_ms r) (tokens_used r) (metadata r)
    (nonempty (frozen_result_text r)) (frozen_at r) (nonempty (trace_id r)) (nonempty (parent_span_id r))
    (announce_state r).

Section roundtrip.
Context (other_iso : string → option (option Z)) (now : Z).
Notation parse_datetime := (parse_datetime other_iso).
Notation deserialize_run := (deserialize_run other_iso now).

Lemma parse_time_json t : in_range t → parse_datetime (time_json t) = Some (Some t).
Proof.
  intros Ht. unfold parse_datetime, time_json. rewrite (proj2 (truthy_true _) (isoformat_nonblank t)).
  by rewrite iso_instant_isoformat.
Qed.
Lemma parse_or_none o : stored_time o → parse_datetime (or_none time_json o) = Some o.
Proof. intros Ho. destruct o as [t|]; [by apply parse_time_json, Ho|done]. Qed.
Lemma optional_or_none o : optional_str (or_none PStr o) = nonempty o.
Proof. by destruct o. Qed.
Lemma status_of_value s : status_of (status_value s) = Some s.
Proof. by destruct s. Qed.
Lemma announce_of_value o :
  parse_announce_state (or_none (λ s, PStr (announce_value s)) o) = o.
Proof. by destruct o as [[]|]. Qed.
Lemma text_truth s : (if py_truth (PStr s) then py_str (PStr s) else "") = s.
Proof. simpl. unfold truthy. case_bool_decide; by subst. Qed.

Lemma post_init_norm r : post_init r = Ok r → post_init (norm_run r) = Ok (norm_run r).
Proof. unfold post_init. simpl. by repeat case_match. Qed.

Lemma event_fields_spec r :
  dget "run_id" (event_fields r) = Some (PStr (run_id r)) ∧
  dget "conversation_id" (event_fields r) = Some (PStr (conversation_id r)) ∧
  dget "subagent_name" (event_fields r) = Some (PStr (subagent_name r)) ∧
  dget "task" (event_fields r) = Some (PStr (task r)) ∧
  dget "status" (event_fields r) = Some (PStr (status_value (status r))) ∧
  dget "created_at" (event_fields r) = Some (time_json (created_at r)) ∧
  dget "started_at" (event_fields r) = Some (or_none time_json (started_at r)) ∧
  dget "ended_at" (event_fields r) = Some (or_none time_json (ended_at r)) ∧
  dget "summary" (event_fields r) = Some (or_none PStr (summary r)) ∧
  dget "error" (event_fields r) = Some (or_none PStr (error r)) ∧
  dget "execution_time_ms" (event_fields r) = Some (or_none PInt (execution_time_ms r)) ∧
  dget "tokens_used" (event_fields r) = Some (or_none PInt (tokens_used r)) ∧
  dget "metadata" (event_fields r) = Some (PDict (metadata r)) ∧
  dget "frozen_result_text" (event_fields r) = Some (or_none PStr (frozen_result_text r)) ∧
  dget "frozen_at" (event_fields r) = Some (or_none time_json (frozen_at r)) ∧
  dget "trace_id" (event_fields r) = Some (or_none PStr (trace_id r)) ∧
  dget "parent_span_id" (event_fields r) = Some (or_none PStr (parent_span_id r)) ∧
  dget "announce_state" (event_fields r) = Some (or_none (λ s, PStr (announce_value s)) (announce_state r)).
Proof. repeat split. Qed.
Lemma deserialize_to_event_data r : storable_run r → deserialize_run (to_event_data r) = Some (norm_run r).
Proof.
  intros [Hv _ Hc Hs He Hf]. apply post_init_norm in Hv. unfold deserialize_run, to_event_data. cbv zeta.
  destruct (event_fields_spec r) as (-> & -> & -> & -> & -> & -> & -> & -> & -> & -> & -> & -> & -> & -> & -> & -> & -> & ->).
  cbn [default from_option id]. rewrite parse_time_json, !parse_or_none by done. cbn [mbind option_bind].
  rewrite !text_truth, !optional_or_none, announce_of_value. cbn [py_str]. rewrite status_of_value.
  assert (∀ o, optional_int (or_none PInt o) = o) as Hi by by intros []. rewrite !Hi.
  cbn [default from_option id]. unfold norm_run in Hv. by rewrite Hv.
Qed.

(** * Whole snapshots *)

Record storable (rs : runs_map) : Prop := {
  st_keys : dict_wf rs;
  st_buckets : ∀ c b, (c, b) ∈ rs → dict_wf b;
  st_runs : ∀ c b rid r, (c, b) ∈ rs → (rid, r) ∈ b → storable_run r;
}.
Definition norm_bucket (b : bucket) : bucket := prod_map id norm_run <$> b.
(** What comes back: empty texts are [None], conversations without runs are
    gone. *)
Definition norm_runs (rs : runs_map) : runs_map := filter (λ cb, cb.2 ≠ []) (prod_map id norm_bucket <$> rs).

Lemma event_data_wf r : storable_run r → json_wf (to_event_data r).
Proof.
  intros Hr. constructor; [vm_decide|]. apply Forall_forall.
  assert (∀ A (f : A → pyval) o, (∀ x, json_wf (f x)) → json_wf (or_none f o)) as Ho.
  { intros A f [x|] Hx; [apply Hx|constructor]. }
  unfold event_fields. repeat apply Forall_cons_2; try apply Forall_nil_2; cbn [snd];
    try (apply (sr_metadata _ Hr)); try (apply Ho; intros ?); constructor.
Qed.

Notation deserialize_bucket := (deserialize_bucket other_iso now).
Notation deserialize_conversations := (deserialize_conversations other_iso now).
Notation parse_snapshot := (parse_snapshot other_iso now).
Notation deserialize_snapshot := (deserialize_snapshot other_iso now).

Lemma dkeys_prod_map {V W} (f : V → W) (d : list (string * V)) : dkeys (prod_map id f <$> d) = dkeys d.
Proof. unfold dkeys. rewrite <- list_fmap_compose. by apply list_fmap_ext. Qed.
Lemma snapshot_wf rs : storable rs →
  json_wf (PDict [("version", PInt 1); ("conversations", PDict (prod_map id serialize_bucket <$> rs))]).
Proof.
  intros [Hk Hb Hr]. constructor; [vm_decide|]. apply Forall_forall.
  repeat apply Forall_cons_2; try apply Forall_nil_2; cbn [snd]; [constructor|]. constructor.
  - unfold dict_wf. by rewrite dkeys_prod_map.
  - intros kv ([c b] & -> & Hcb)%list_elem_of_fmap. constructor.
    + change (dict_wf (prod_map id to_event_data <$> b)). unfold dict_wf. rewrite dkeys_prod_map. by eapply Hb.
    + intros kv ([rid r] & -> & Hrid)%list_elem_of_fmap. apply event_data_wf. by eapply Hr.
Qed.
Lemma deserialize_serialize_bucket b : (∀ rid r, (rid, r) ∈ b → storable_run r) →
  deserialize_bucket (serialize_bucket b) = norm_bucket b.
Proof.
  intros Hr. unfold deserialize_bucket, serialize_bucket, norm_bucket. induction b as [|[rid r] b IH]; [done|].
  cbn [fmap list_fmap omap list_omap fst snd prod_map]. rewrite deserialize_to_event_data by (apply (Hr rid), list_elem_of_here).
  cbn [fmap option_fmap option_map]. f_equal. apply IH. intros rid' r' Hin. apply (Hr rid'), list_elem_of_further, Hin.
Qed.
Lemma deserialize_serialized rs : (∀ c b rid r, (c, b) ∈ rs → (rid, r) ∈ b → storable_run r) →
  deserialize_conversations (prod_map id serialize_bucket <$> rs) = norm_runs rs.
Proof.
  intros Hr. unfold deserialize_conversations, norm_runs. induction rs as [|[c b] rs IH]; [done|].
  rewrite !fmap_cons, filter_cons. change (omap ?f (?x :: ?l)) with (match f x with Some y => y :: omap f l | None => omap f l end).
  cbn [prod_map fst snd]. rewrite deserialize_serialize_bucket by (intros rid r; apply (Hr c), list_elem_of_here).
  rewrite IH by (intros c' b' rid r Hin; apply (Hr c' b'), list_elem_of_further, Hin).
  by destruct (norm_bucket b).
Qed.
Lemma parse_serialize_snapshot rs : storable rs → parse_snapshot (serialize_snapshot rs) = Some (norm_runs rs).
Proof.
  intros Hs. unfold parse_snapshot, serialize_snapshot.
  change (fmap (λ cb, (cb.1, serialize_bucket cb.2)) rs) with (prod_map id serialize_bucket <$> rs).
  rewrite json_loads_dumps by by apply snapshot_wf.
  change (Some (deserialize_conversations (prod_map id serialize_bucket <$> rs)) = Some (norm_runs rs)).
  f_equal. apply deserialize_serialized. apply Hs.
Qed.

(** ** Snapshots that come back are stable *)

Lemma nonempty_idem o : nonempty (nonempty o) = nonempty o.
Proof. unfold nonempty. by destruct (truthy_opt o) eqn:E; rewrite ?E. Qed.
Lemma norm_run_idem r : norm_run (norm_run r) = norm_run r.
Proof. unfold norm_run. simpl. by rewrite !nonempty_idem. Qed.
Lemma norm_run_storable r : storable_run r → storable_run (norm_run r).
Proof. intros [H1 H2 H3 H4 H5 H6]. split; try done. by apply post_init_norm. Qed.
Lemma norm_bucket_idem b : norm_bucket (norm_bucket b) = norm_bucket b.
Proof.
  unfold norm_bucket. rewrite <- list_fmap_compose. apply list_fmap_ext. intros _ [rid r] _. simpl. by rewrite norm_run_idem.
Qed.
Lemma norm_runs_idem rs : norm_runs (norm_runs rs) = norm_runs rs.
Proof.
  unfold norm_runs. induction rs as [|[c b] rs IH]; [done|]. rewrite fmap_cons, filter_cons.
  destruct (decide ((prod_map id norm_bucket (c, b)).2 ≠ [])) as [Hb|Hb]; [|done].
  rewrite fmap_cons, filter_cons. cbn [prod_map fst snd id] in *. rewrite norm_bucket_idem, decide_True by done. by f_equal.
Qed.
Lemma norm_runs_elem c b rs : (c, b) ∈ norm_runs rs ↔ ∃ b0, (c, b0) ∈ rs ∧ b = norm_bucket b0 ∧ b ≠ [].
Proof.
  unfold norm_runs. rewrite list_elem_of_filter, list_elem_of_fmap. split.
  - intros [Hb ([c' b0] & [= -> ->] & Hin)]. by exists b0.
  - intros (b0 & Hin & -> & Hb). split; [done|]. by exists (c, b0).
Qed.
Lemma norm_runs_storable rs : storable rs → storable (norm_runs rs).
Proof.
  intros [Hk Hb Hr]. split.
  - unfold dict_wf in *. rewrite <- (dkeys_prod_map norm_bucket) in Hk. unfold norm_runs, dkeys in *.
    eapply sublist_NoDup; [exact Hk|]. apply fmap_sublist, sublist_filter.
  - intros c b (b0 & Hin & -> & _)%norm_runs_elem. unfold dict_wf, norm_bucket. rewrite dkeys_prod_map. by eapply Hb.
  - intros c b rid r (b0 & Hin & -> & _)%norm_runs_elem ([rid' r0] & [= -> ->] & Hr0)%list_elem_of_fmap.
    apply norm_run_storable. by eapply Hr.
Qed.
Lemma deserialize_serialize_snapshot rs : storable rs → deserialize_snapshot (serialize_snapshot rs) = norm_runs rs.
Proof. intros Hs. unfold RunStore.deserialize_snapshot. by rewrite parse_serialize_snapshot. Qed.
End roundtrip.

(** * The stores *)

Section stores.
Context (other_iso : string → option (option Z)) (now : Z).
Notation load_from_json_file := (load_from_json_file other_iso now).
Notation db_load_runs := (db_load_runs other_iso now).
Notation hybrid_load_runs := (hybrid_load_runs other_iso now).
Notation deserialize_snapshot := (deserialize_snapshot other_iso now).

(** C19. Where the writes succeed, every store gives back what was saved in it:
    the same conversations and runs, in order and with every instant, except
    that empty texts come back as [None] and conversations without runs not
    at all. *)
Theorem saved_runs_load rs f d h : storable rs →
  (readable f = true → writable f = true → (load_from_json_file (persist_json_file rs f)).1 = Some (norm_runs rs)) ∧
  (db_up d = true → db_load_runs (db_save_runs rs d) = norm_runs rs) ∧
  (db_up (db_repository h) = true → (∀ c, run_cache h = Some c → setex_ok c = true) →
   (hybrid_load_runs (hybrid_save_runs rs h)).1 = norm_runs rs).
Proof.
  intros Hs. pose proof (deserialize_serialize_snapshot other_iso now rs Hs) as Hd.
  assert (∀ d, db_up d = true → db_load_runs (db_save_runs rs d) = norm_runs rs) as Hdb.
  { intros d' Hup. unfold RunStore.db_load_runs, db_save_runs. by rewrite Hup. }
  split_and!; [|apply Hdb|].
  - intros Hread Hwrite. unfold RunStore.load_from_json_file, persist_json_file. rewrite Hwrite. simpl.
    by rewrite Hread, parse_serialize_snapshot.
  - intros Hup Hset. unfold RunStore.hybrid_load_runs, hybrid_save_runs. simpl.
    destruct (run_cache h) as [c|]; simpl; [|by apply Hdb]. unfold cache_save_runs, cache_load_runs.
    rewrite (Hset c eq_refl). destruct (client c) eqn:Ec; simpl; [|rewrite Ec; by apply Hdb].
    destruct (get_ok c) eqn:Eg; simpl; rewrite ?Ec, ?Eg; simpl; [done|by apply Hdb].
Qed.

(** ** The cache in front of the database *)

(** What happens to a hybrid store: calls of the registry, and what the Redis
    server does by itself: the value expires, reads begin or cease to work. *)
Inductive store_op : Type :=
  | SLoad
  | SSave (rs : runs_map)
  | SExpire
  | SGet (works : bool).
Definition hybrid_step (o : store_op) (h : hybrid) : hybrid * list runs_map :=
  let on_cache f := (mkHybrid (db_repository h) (f <$> run_cache h), []) in
  match o with
  | SLoad => ((hybrid_load_runs h).2, [(hybrid_load_runs h).1])
  | SSave rs => (hybrid_save_runs rs h, [])
  | SExpire => on_cache (λ c, mkCache (client c) None (get_ok c) (setex_ok c))
  | SGet works => on_cache (λ c, mkCache (client c) (cached c) works (setex_ok c))
  end.
(** The specification: one cell with the last snapshot. *)
Definition cell_step (o : store_op) (cell : runs_map) : runs_map * list runs_map :=
  match o with
  | SLoad => (cell, [cell])
  | SSave rs => (norm_runs rs, [])
  | _ => (cell, [])
  end.
(** What the loads of a sequence return. *)
Fixpoint loads {S} (step : store_op → S → S * list runs_map) (ops : list store_op) (s : S) : list runs_map :=
  match ops with
  | [] => []
  | o :: ops' => (step o s).2 ++ loads step ops' (step o s).1
  end.

Record hybrid_ok (cell : runs_map) (h : hybrid) : Prop := {
  ho_storable : storable cell;
  ho_norm : norm_runs cell = cell;
  ho_db : db_up (db_repository h) = true ∧ db_load_runs (db_repository h) = cell;
  ho_cache : ∀ c, run_cache h = Some c → client c = true →
    setex_ok c = true ∧ ∀ p, cached c = Some p → deserialize_snapshot p = cell;
}.
Lemma cache_save_ok rs o c : storable rs → (∀ c, o = Some c → client c = true → setex_ok c = true) →
  cache_save_runs rs <$> o = Some c → client c = true →
  setex_ok c = true ∧ ∀ p, cached c = Some p → deserialize_snapshot p = norm_runs rs.
Proof.
  intros Hs Hset Ho. destruct o as [c0|]; [|done]. injection Ho as <-. unfold cache_save_runs. intros Hcl.
  destruct (client c0) eqn:Ec; simpl in *; [|congruence].
  rewrite (Hset c0 eq_refl Ec) in *. simpl. split; [done|]. intros p [= <-]. by apply deserialize_serialize_snapshot.
Qed.
Lemma hybrid_step_ok o cell h : hybrid_ok cell h → (∀ rs, o = SSave rs → storable rs) →
  (hybrid_step o h).2 = (cell_step o cell).2 ∧ hybrid_ok (cell_step o cell).1 (hybrid_step o h).1.
Proof.
  intros [Hst Hn [Hup Hdb] Hc] Ho. assert (∀ c, run_cache h = Some c → client c = true → setex_ok c = true) as Hset.
  { intros c Hrc Hcl. by apply (Hc c). }
  destruct o as [|rs| |works]; simpl.
  - unfold RunStore.hybrid_load_runs. destruct (c ← run_cache h; cache_load_runs other_iso now c) as [rs|] eqn:E; simpl.
    + apply bind_Some in E as (c & Hrc & Hl). unfold cache_load_runs in Hl.
      destruct (client c && get_ok c) eqn:Ecl; [|done]. apply andb_true_iff in Ecl as [Ecl _].
      apply fmap_Some in Hl as (p & Hp & ->). destruct (Hc c Hrc Ecl) as [_ Hcell]. rewrite (Hcell p Hp). by split.
    + rewrite Hdb. split; [done|]. split; simpl; [done..|]. intros c Hrc Hcl.
      destruct (cache_save_ok cell (run_cache h) c Hst Hset Hrc Hcl) as [? Hx]. by rewrite Hn in Hx.
  - specialize (Ho rs eq_refl). split; [done|]. split; simpl.
    + by apply norm_runs_storable.
    + apply norm_runs_idem.
    + unfold db_save_runs, RunStore.db_load_runs. rewrite Hup. split; [done|]. by apply deserialize_serialize_snapshot.
    + intros c Hrc Hcl. by eapply cache_save_ok.
  - split; [done|]. split; simpl; [done..|]. intros c Hrc Hcl. destruct (run_cache h) as [c0|] eqn:E; [|done].
    injection Hrc as <-. split; [exact (Hset c0 eq_refl Hcl)|done].
  - split; [done|]. split; simpl; [done..|]. intros c Hrc Hcl. destruct (run_cache h) as [c0|] eqn:E; [|done].
    injection Hrc as <-. exact (Hc c0 eq_refl Hcl).
Qed.

(** C20. While the database answers and the writes to Redis succeed, the cache
    cannot be seen: whatever expires and whichever reads of Redis fail, every
    load returns the last snapshot saved, as one cell would. *)
Theorem hybrid_refines ops cell h : hybrid_ok cell h → (∀ rs, SSave rs ∈ ops → storable rs) →
  loads hybrid_step ops h = loads cell_step ops cell.
Proof.
  revert cell h. induction ops as [|o ops IH]; intros cell h Hok Hs; [done|].
  destruct (hybrid_step_ok o cell h Hok) as [H1 H2].
  { intros rs ->. apply Hs, list_elem_of_here. }
  simpl. rewrite H1. f_equal. apply IH; [done|]. intros rs Hin. by apply Hs, list_elem_of_further.
Qed.

(** ** The stores behind the registry *)

#[refine] Instance json_file_reliable : ReliableRepository json_file (H := json_file_repository other_iso now) := {
  held := λ rs f, readable f = true ∧ writable f = true ∧ norm_runs rs = rs ∧ (load_from_json_file f).1 = Some rs;
  keepable := storable;
  stored := norm_runs;
}.
Proof.
  - intros rs f (H1 & H2 & H3 & H4). by split.
  - intros rs rs' f (H1 & H2 & _) Hk. cbn. unfold persist_json_file. rewrite H2. split_and!; [done|done|apply norm_runs_idem|].
    unfold RunStore.load_from_json_file. cbn [contents readable mbind option_bind fst].
    by rewrite H1, parse_serialize_snapshot.
  - by intros rs f (_ & _ & ? & _).
Defined.
#[refine] Instance database_reliable : ReliableRepository database (H := database_repository other_iso now) := {
  held := λ rs d, db_up d = true ∧ norm_runs rs = rs ∧ db_load_runs d = rs;
  keepable := storable;
  stored := norm_runs;
}.
Proof.
  - intros rs d (H1 & H2 & H3). split; [|done]. by rewrite <-H3.
  - intros rs rs' d (H1 & _) Hk. cbn. unfold db_save_runs. rewrite H1. split_and!; [done|apply norm_runs_idem|].
    unfold RunStore.db_load_runs. cbn. by apply deserialize_serialize_snapshot.
  - by intros rs d (_ & ? & _).
Defined.
#[refine] Instance hybrid_reliable : ReliableRepository hybrid (H := hybrid_repository other_iso now) := {
  held := hybrid_ok;
  keepable := storable;
  stored := norm_runs;
}.
Proof.
  - intros rs h Hh. destruct (hybrid_step_ok SLoad rs h Hh) as [H1 H2]; [done|]. cbn in *. by injection H1 as ->.
  - intros rs rs' h Hh Hk. by destruct (hybrid_step_ok (SSave rs') rs h Hh) as [_ H2]; [intros ? [= <-]|].
  - intros rs h []. done.
Defined.

(** C18. Processes that share a JSON file, a database or a database behind
    the Redis cache, and call the registry one at a time, as its lock file
    makes them, cannot tell it from one registry in memory: whatever each has
    in memory and while the store works, every call returns what that
    registry would, the store then holds what it would hold, as it comes back
    from JSON (empty texts are [None], conversations without runs are gone),
    and a query that synchronises sees exactly that. *)
Theorem shared_registry_refines {St} `{ReliableRepository St} (calls : list process_call) rs (st : St) :
  held rs st → keepable_run (St := St) calls rs →
  let shared := answers shared_call calls st in
  let spec := answers (memory_call (St := St)) calls rs in
  shared.1 = spec.1 ∧ held spec.2 shared.2 ∧
  (∀ A cfg mem (f : runs_map → A), sync_across_processes cfg = true →
     (query cfg f (mkReg mem (Some shared.2))).2 = f spec.2).
Proof.
  intros Hh Hk. destruct (shared_calls_refine calls rs st Hh Hk) as [H1 H2].
  split_and!; [done|done|]. intros A cfg mem f Hsync. by apply query_held.
Qed.

(** ** What the cache hides *)

(** The cache is never checked against the database: as long as a value is
    in it, an operation of the registry acts on that value, and its save
    replaces the row of the database, whatever the row held.  Such a value is
    left behind by a save whose write to Redis failed, and by a load while
    the database was down, which puts an empty snapshot there. *)
Theorem stale_cache_wins cfg t op rs h c p :
  run_cache h = Some c → client c = true → get_ok c = true → cached c = Some p → db_up (db_repository h) = true →
  let H := hybrid_repository other_iso now in
  let a := apply_op (H := H) cfg t op (mkReg rs (Some h)) in
  let m := apply_op (H := H) cfg t op (in_memory (deserialize_snapshot p)) in
  a.2 = m.2 ∧ (store a.1 = Some h ∨
    runs a.1 = runs m.1 ∧ ∃ h', store a.1 = Some h' ∧ row (db_repository h') = Some (serialize_snapshot (runs m.1))) ∧
  (∀ rs', setex_ok c = false → run_cache (hybrid_save_runs rs' h) = Some c) ∧
  (∀ h0 c0, run_cache h0 = Some c0 → client c0 = true → setex_ok c0 = true → cache_load_runs other_iso now c0 = None →
     db_up (db_repository h0) = false →
     (hybrid_load_runs h0).1 = [] ∧
     ∃ c1 p1, run_cache (hybrid_load_runs h0).2 = Some c1 ∧ cached c1 = Some p1 ∧ deserialize_snapshot p1 = []).
Proof.
  intros Hrc Hcl Hget Hp Hup H a m.
  assert (hybrid_load_runs h = (deserialize_snapshot p, h)) as Hl.
  { unfold RunStore.hybrid_load_runs. rewrite Hrc. simpl. unfold cache_load_runs. by rewrite Hcl, Hget, Hp. }
  assert (sync_locked (H := H) (mkReg rs (Some h)) = mkReg (deserialize_snapshot p) (Some h)) as Hsync.
  { unfold sync_locked. simpl. by rewrite Hl. }
  destruct (apply_op_synced (H := H) cfg t op (mkReg rs (Some h))) as [H1 H2]. rewrite Hsync in H1, H2. simpl in H1, H2.
  split; [exact H1|]. split_and!.
  - destruct H2 as [[[H2 _]|[H2 H3]]|[H2 _]].
    + left. unfold a. by rewrite H2.
    + right. split; [exact H2|]. eexists. split; [exact H3|]. simpl. unfold db_save_runs. by rewrite Hup.
    + left. unfold a. by rewrite H2.
  - intros rs' Hset. unfold hybrid_save_runs. simpl. rewrite Hrc. simpl. unfold cache_save_runs. by rewrite Hset, andb_false_r.
  - intros h0 c0 Hrc0 Hcl0 Hset0 Hmiss Hdown. unfold RunStore.hybrid_load_runs, RunStore.db_load_runs.
    rewrite Hrc0. simpl. rewrite Hmiss, Hdown. split; [done|]. simpl. eexists _, _. split; [done|].
    unfold cache_save_runs. rewrite Hcl0, Hset0. simpl. split; [done|]. done.
Qed.
End stores.

(** * Witnesses *)

Definition no_iso (s : string) : option (option Z) := None.
Definition quiet_run : SubAgentRun :=
  mkRun "c" "worker" "work" "old" COMPLETED 63870000000000000 (Some 63870000000000001%Z) (Some 63870000001500000%Z)
    (Some "") None (Some 1500%Z) None [("parent_run_id", PStr "r"); ("tags", PList [PStr "a"; PInt 2])]
    None None None None (Some ANNOUNCED).
Definition stored_runs : runs_map := [("c", [("old", quiet_run)]); ("d", [])].
Lemma stored_runs_storable : storable stored_runs.
Proof.
  split; [vm_decide| |].
  - intros c b Hin. unfold stored_runs in Hin. rewrite !elem_of_cons, elem_of_nil in Hin.
    destruct Hin as [[= -> ->]|[[= -> ->]|[]]]; vm_decide.
  - intros c b rid r Hin Hr. unfold stored_runs in Hin. rewrite !elem_of_cons, elem_of_nil in Hin.
    destruct Hin as [[= -> ->]|[[= -> ->]|[]]]; [|by apply elem_of_nil in Hr].
    apply list_elem_of_singleton in Hr as [= -> ->].
    split; [reflexivity|..|intros t [=]];
      [|unfold in_range, max_instant; simpl; lia|intros t [= <-]; unfold in_range, max_instant; lia..].
    constructor; [vm_decide|]. intros kv Hkv. simpl in Hkv. rewrite !elem_of_cons, elem_of_nil in Hkv.
    destruct Hkv as [->|[->|[]]]; simpl; constructor. intros v Hv. rewrite !elem_of_cons, elem_of_nil in Hv.
    destruct Hv as [->|[->|[]]]; constructor.
Qed.

Definition fresh_hybrid : hybrid := mkHybrid (mkDb None true) (Some (mkCache true None true true)).
Lemma saved_runs_load_witness :
  (hybrid_load_runs no_iso 0 (hybrid_save_runs stored_runs fresh_hybrid)).1 = norm_runs stored_runs ∧
  dkeys (norm_runs stored_runs) = ["c"].
Proof.
  split; [|reflexivity]. apply (saved_runs_load no_iso 0 stored_runs (mkFile None true true) (mkDb None true) fresh_hybrid).
  - apply stored_runs_storable.
  - reflexivity.
  - intros c [= <-]. reflexivity.
Defined.

Lemma fresh_hybrid_ok : hybrid_ok no_iso 0 [] fresh_hybrid.
Proof.
  split; [|done|done|].
  - split; [vm_decide|..]; intros c b; [|intros ? ?]; by intros ?%elem_of_nil.
  - intros c [= <-] _. done.
Qed.
Definition store_ops : list store_op := [SLoad; SSave stored_runs; SExpire; SLoad; SGet false; SLoad].
Lemma hybrid_refines_witness :
  loads (hybrid_step no_iso 0) store_ops fresh_hybrid = [[]; norm_runs stored_runs; norm_runs stored_runs].
Proof.
  rewrite (hybrid_refines no_iso 0 store_ops [] fresh_hybrid); [reflexivity|apply fresh_hybrid_ok|].
  intros rs Hin. unfold store_ops in Hin. rewrite !elem_of_cons, elem_of_nil in Hin.
  destruct Hin as [?|[[= ->]|[?|[?|[?|[?|[]]]]]]]; try done. apply stored_runs_storable.
Defined.

(** The row holds a run; the cache, filled while the database was down, holds
    nothing; a run is created. *)
Definition outage_hybrid : hybrid :=
  mkHybrid (mkDb (Some (serialize_snapshot stored_runs)) true) (Some (mkCache true (Some (serialize_snapshot [])) true true)).
Definition created : SubAgentRun :=
  mkRun "d" "worker" "work" "new" PENDING 63870000002000000 None None None None None None
    [("lineage_root_run_id", PStr "new")] None None None None None.
Definition create_op : reg_op := Create "new" "d" "worker" "work" [] None None None None.
(** Two processes with nothing in memory: one creates a run, the other starts it. *)
Definition started : SubAgentRun :=
  mkRun "d" "worker" "work" "new" RUNNING 63870000002000000 (Some 63870000003000000%Z) None None None None None
    [("lineage_root_run_id", PStr "new")] None None None None None.
Definition two_processes : list process_call :=
  [mkProcessCall sample_cfg [] 63870000002000000 create_op;
   mkProcessCall sample_cfg [] 63870000003000000 (MarkRunning "d" "new" [] [])].
Lemma one_run_storable c rid r : storable_run r → storable [(c, [(rid, r)])].
Proof.
  intros Hr. split.
  - unfold dict_wf. simpl. apply NoDup_singleton.
  - intros c' b [= -> ->]%list_elem_of_singleton. unfold dict_wf. simpl. apply NoDup_singleton.
  - intros c' b rid' r' [= -> ->]%list_elem_of_singleton [= -> ->]%list_elem_of_singleton. done.
Qed.
Lemma lineage_json s : json_wf (PDict [("lineage_root_run_id", PStr s)]).
Proof. constructor; [vm_decide|]. intros kv ->%list_elem_of_singleton. simpl. constructor. Qed.
Lemma created_storable : storable_run created.
Proof.
  split; [reflexivity|apply lineage_json|unfold in_range, max_instant; simpl; lia|by intros t [=]..].
Qed.
Lemma started_storable : storable_run started.
Proof.
  split; [reflexivity|apply lineage_json|unfold in_range, max_instant; simpl; lia| |by intros t [=]..].
  intros t [= <-]. unfold in_range, max_instant; lia.
Qed.
Lemma shared_registry_witness :
  (answers (shared_call (H := hybrid_repository no_iso 0)) two_processes fresh_hybrid).1 =
    [Ok (Some created); Ok (Some started)].
Proof.
  rewrite (proj1 (shared_registry_refines (H0 := hybrid_reliable no_iso 0) two_processes [] fresh_hybrid
    (fresh_hybrid_ok) ltac:(split; [|split; [|exact I]];
      [vm_compute; apply (one_run_storable "d" "new" created), created_storable
      |vm_compute; apply (one_run_storable "d" "new" started), started_storable]))).
  vm_compute. reflexivity.
Defined.
Lemma stale_cache_wins_witness :
  ∃ h', store (apply_op (H := hybrid_repository no_iso 0) sample_cfg 63870000002000000 create_op
    (mkReg [] (Some outage_hybrid))).1 = Some h' ∧
  row (db_repository h') = Some (serialize_snapshot [("d", [("new", created)])]).
Proof.
  destruct (stale_cache_wins no_iso 0 sample_cfg 63870000002000000 create_op [] outage_hybrid
    (mkCache true (Some (serialize_snapshot [])) true true) (serialize_snapshot []))
    as (_ & [H|(_ & h' & Hs & Hr)] & _); try reflexivity.
  - exfalso. revert H. vm_compute. discriminate.
  - exists h'. split; [exact Hs|]. rewrite Hr. vm_compute. reflexivity.
Defined.
