(* ===== verification/SessionRegistry.v ===== *)
(** The registry of agent sessions: which agent owns which conversation.

    Source: src/src/infrastructure/agent/orchestration/session_registry.py.
    Every method holds the registry's lock from its first access to its last,
    so each is one step. *)

From S2P Require Import Prelude.

Open Scope string_scope.
Open Scope list_scope.
Open Scope nat_scope.

Record AgentSession : Type := mkSession {
  session_agent : string;
  session_conversation : string;
  session_project : string;
  registered_at : Z;
}.

(** [_sessions], keyed by project and conversation. *)
Notation sessions := (list ((string * string) * AgentSession)).

Definition register (now : Z) (agent conv project : string) (s : sessions) : sessions * AgentSession :=
  let session := mkSession agent conv project now in
  (dset (project, conv) session s, session).
Definition unregister (conv project : string) (s : sessions) : sessions * option AgentSession :=
  (ddel (project, conv) s, dget (project, conv) s).
Definition get_session_for_conversation (conv project : string) (s : sessions) : option AgentSession :=
  dget (project, conv) s.
Definition get_sessions (project : string) (s : sessions) : list AgentSession :=
  snd <$> filter (λ ks, ks.1.1 = project) s.
Definition get_active_agent_ids (project : string) (s : sessions) : list string :=
  foldl (λ ids i, set_add i ids) [] (session_agent <$> get_sessions project s).
Definition clear_project (project : string) (s : sessions) : sessions * nat :=
  let keys_to_remove := filter (λ k, k.1 = project) (dkeys s) in
  (foldl (λ s k, ddel k s) s keys_to_remove, length keys_to_remove).

(** * The operations as steps *)

Inductive session_op : Type :=
  | Register (now : Z) (agent conv project : string)
  | Unregister (conv project : string)
  | ClearProject (project : string).
Definition session_step (s : sessions) (o : session_op) : sessions :=
  match o with
  | Register now agent conv project => (register now agent conv project s).1
  | Unregister conv project => (unregister conv project s).1
  | ClearProject project => (clear_project project s).1
  end.
(** What a step leaves of the owner of a conversation. *)
Definition owner_after (conv project : string) (owner : option AgentSession) (o : session_op) : option AgentSession :=
  match o with
  | Register now agent c p => if decide (c = conv ∧ p = project) then Some (mkSession agent c p now) else owner
  | Unregister c p => if decide (c = conv ∧ p = project) then None else owner
  | ClearProject p => if decide (p = project) then None else owner
  end.

Record sessions_ok (s : sessions) : Prop := {
  so_wf : dict_wf s;
  so_key : ∀ k x, (k, x) ∈ s → k = (session_project x, session_conversation x);
}.

Lemma delete_all ks (s : sessions) : foldl (λ s k, ddel k s) s ks = filter (λ p, p.1 ∉ ks) s.
Proof.
  revert s. induction ks as [|k ks IH]; intros s; cbn [foldl].
  - symmetry. apply filter_all. intros p _. apply not_elem_of_nil.
  - rewrite IH. unfold ddel. rewrite list_filter_filter. apply list_filter_iff. intros p.
    rewrite not_elem_of_cons. tauto.
Qed.
Lemma clear_project_filter p s : (clear_project p s).1 = filter (λ ks, ks.1.1 ≠ p) s.
Proof.
  unfold clear_project. cbn [fst]. rewrite delete_all. apply filter_ext_elem. intros ks Hin.
  rewrite list_elem_of_filter. unfold dkeys. rewrite list_elem_of_fmap. naive_solver.
Qed.
Lemma clear_project_count p s : (clear_project p s).2 = length (get_sessions p s).
Proof.
  unfold clear_project, get_sessions. cbn [snd]. rewrite length_fmap. unfold dkeys.
  by rewrite filter_of_fmap, length_fmap.
Qed.

Lemma step_owner s o conv project :
  dget (project, conv) (session_step s o) = owner_after conv project (dget (project, conv) s) o.
Proof.
  destruct o as [now agent c p|c p|p]; cbn [session_step owner_after register unregister fst].
  - rewrite dget_dset. apply decide_ext. naive_solver.
  - rewrite dget_ddel. apply decide_ext. naive_solver.
  - rewrite clear_project_filter. etrans; [apply (dget_key_filter (λ k, k.1 ≠ p))|]. cbn [fst].
    destruct (decide (p = project)); [by rewrite decide_False by naive_solver|by rewrite decide_True by naive_solver].
Qed.
Lemma step_sessions_ok s o : sessions_ok s → sessions_ok (session_step s o).
Proof.
  intros [Hw Hk]. destruct o as [now agent c p|c p|p]; cbn [session_step register unregister fst].
  - split; [by apply dset_wf|]. intros k x [[= -> ->]|Hin]%elem_of_dset; [done|]. by apply Hk.
  - split; [by apply ddel_wf|]. intros k x [Hin _]%elem_of_ddel. by apply Hk.
  - rewrite clear_project_filter. split.
    + eapply sublist_NoDup; [exact Hw|]. apply fmap_sublist, sublist_filter.
    + intros k x [_ Hin]%list_elem_of_filter. by apply Hk.
Qed.
Definition run_sessions (ops : list session_op) (s : sessions) : sessions := foldl session_step s ops.
Lemma run_sessions_ok ops s : sessions_ok s → sessions_ok (run_sessions ops s).
Proof. revert s. induction ops as [|o ops IH]; intros s Hs; [done|]. by apply IH, step_sessions_ok. Qed.
Lemma run_owner ops conv project s : dget (project, conv) (run_sessions ops s) =
  foldl (owner_after conv project) (dget (project, conv) s) ops.
Proof.
  revert s. induction ops as [|o ops IH]; intros s; [done|]. cbn [run_sessions foldl]. fold (run_sessions ops (session_step s o)).
  by rewrite IH, step_owner.
Qed.

(** * What the registry promises *)

Lemma elem_of_get_sessions s x p : sessions_ok s →
  x ∈ get_sessions p s ↔ session_project x = p ∧ dget (p, session_conversation x) s = Some x.
Proof.
  intros [Hw Hk]. unfold get_sessions. rewrite list_elem_of_fmap. split.
  - intros ([k y] & -> & [Hp Hin]%list_elem_of_filter). cbn [fst snd] in *. pose proof (Hk _ _ Hin) as ->.
    cbn [fst] in Hp. subst p. split; [done|]. by apply elem_of_dget.
  - intros [Hp Hx]. exists ((p, session_conversation x), x). split; [done|]. apply list_elem_of_filter.
    split; [done|]. by apply dget_Some_elem.
Qed.
Lemma elem_of_agent_ids a p s : a ∈ get_active_agent_ids p s ↔ ∃ x, x ∈ get_sessions p s ∧ session_agent x = a.
Proof.
  unfold get_active_agent_ids. assert (∀ l acc, a ∈ foldl (λ ids i, set_add i ids) acc l ↔ a ∈ acc ∨ a ∈ l) as Hf.
  { induction l as [|i l IH]; intros acc; cbn [foldl]; [rewrite elem_of_nil; tauto|].
    rewrite IH, elem_of_set_add, elem_of_cons. tauto. }
  rewrite Hf, elem_of_nil, list_elem_of_fmap. naive_solver.
Qed.
Lemma get_sessions_nodup p s : sessions_ok s → NoDup (session_conversation <$> get_sessions p s).
Proof.
  intros [Hw Hk]. unfold get_sessions. rewrite <- list_fmap_compose.
  assert (NoDup (filter (λ k, k.1 = p) (dkeys s))) as Hnd by by apply NoDup_filter.
  unfold dkeys in Hnd. rewrite filter_of_fmap in Hnd.
  eapply (NoDup_fmap_2_strong snd) in Hnd; [rewrite <- list_fmap_compose in Hnd; erewrite list_fmap_ext; [exact Hnd|]|].
  - intros i [k x] Hi. apply list_elem_of_lookup_2, list_elem_of_filter in Hi as [_ Hin]. cbn. by rewrite (Hk _ _ Hin).
  - intros [p1 c1] [p2 c2] ([k1 x1] & -> & [H1 _]%list_elem_of_filter)%list_elem_of_fmap ([k2 x2] & -> & [H2 _]%list_elem_of_filter)%list_elem_of_fmap.
    cbn in *. destruct k1, k2. cbn in *. naive_solver.
Qed.

(** After any sequence of operations a conversation has the owner the last
    operation that concerns it left; the queries of a project list those
    owners, each conversation once; and clearing a project ends the sessions
    that were listed, and tells their number. *)
Theorem session_queries ops s p c : sessions_ok s →
  let s' := run_sessions ops s in
  get_session_for_conversation c p s' = foldl (owner_after c p) (get_session_for_conversation c p s) ops ∧
  (∀ x, x ∈ get_sessions p s' ↔ session_project x = p ∧ get_session_for_conversation (session_conversation x) p s' = Some x) ∧
  NoDup (session_conversation <$> get_sessions p s') ∧
  (∀ a, a ∈ get_active_agent_ids p s' ↔ ∃ x, x ∈ get_sessions p s' ∧ session_agent x = a) ∧
  get_sessions p (clear_project p s').1 = [] ∧ (clear_project p s').2 = length (get_sessions p s') ∧
  (∀ p', p' ≠ p → get_sessions p' (clear_project p s').1 = get_sessions p' s').
Proof.
  intros Hs s'. assert (sessions_ok s') as Hs' by by apply run_sessions_ok.
  split_and!.
  - apply run_owner.
  - intros x. by apply elem_of_get_sessions.
  - by apply get_sessions_nodup.
  - intros a. apply elem_of_agent_ids.
  - rewrite clear_project_filter. unfold get_sessions. rewrite list_filter_filter.
    clear. induction s' as [|x l IH]; [done|]. by rewrite filter_cons_False by naive_solver.
  - apply clear_project_count.
  - intros p' Hp. rewrite clear_project_filter. unfold get_sessions. rewrite list_filter_filter. f_equal.
    apply list_filter_iff. naive_solver.
Qed.

Lemma session_queries_witness :
  session_agent <$> get_sessions "p" (run_sessions [Register 1 "a" "c1" "p"; Register 2 "b" "c2" "q";
     Register 3 "d" "c1" "p"; ClearProject "q"] []) = ["d"] ∧
  get_session_for_conversation "c2" "q" (run_sessions [Register 1 "a" "c1" "p"; Register 2 "b" "c2" "q";
     Register 3 "d" "c1" "p"; ClearProject "q"] []) = None.
Proof.
  split; [reflexivity|].
  destruct (session_queries [Register 1 "a" "c1" "p"; Register 2 "b" "c2" "q"; Register 3 "d" "c1" "p"; ClearProject "q"]
    [] "q" "c2") as [H _].
  - split; [constructor|]. intros k x Hin. by apply elem_of_nil in Hin.
  - rewrite H. reflexivity.
Defined.
