(* ===== verification/Conversation.v ===== *)
(** A conversation between a user and one or several agents.

    Sources: src/src/domain/model/agent/conversation/conversation.py,
    conversation_mode.py, agent_config.py and errors.py beside it,
    src/src/domain/model/agent/merge_strategy.py and agent_mode.py.  A method
    that mutates [self] returns the new conversation; one that raises raises
    before it changes anything.  A method reads the clock once. *)

From S2P Require Import Prelude Json Datetime.

Open Scope string_scope.
Open Scope list_scope.
Open Scope nat_scope.

(** * Data *)

Inductive ConversationStatus : Set := CONV_ACTIVE | ARCHIVED | DELETED.
Inductive ConversationMode : Set := SINGLE_AGENT | MULTI_AGENT_SHARED | MULTI_AGENT_ISOLATED | AUTONOMOUS.
Inductive AgentMode : Set := BUILD | PLAN | EXPLORE.
Inductive MergeStrategy : Set := RESULT_ONLY | FULL_HISTORY | SUMMARY.
#[export] Instance ConversationStatus_eq_dec : EqDecision ConversationStatus.
Proof. solve_decision. Defined.
#[export] Instance ConversationMode_eq_dec : EqDecision ConversationMode.
Proof. solve_decision. Defined.
#[export] Instance AgentMode_eq_dec : EqDecision AgentMode.
Proof. solve_decision. Defined.

Definition status_value (s : ConversationStatus) : string :=
  match s with CONV_ACTIVE => "active" | ARCHIVED => "archived" | DELETED => "deleted" end.
Definition mode_value (m : ConversationMode) : string :=
  match m with
  | SINGLE_AGENT => "single_agent" | MULTI_AGENT_SHARED => "multi_agent_shared"
  | MULTI_AGENT_ISOLATED => "multi_agent_isolated" | AUTONOMOUS => "autonomous"
  end.
Definition merge_value (m : MergeStrategy) : string :=
  match m with RESULT_ONLY => "result_only" | FULL_HISTORY => "full_history" | SUMMARY => "summary" end.
Definition is_multi_agent (m : ConversationMode) : bool := negb (bool_decide (m = SINGLE_AGENT)).
Definition requires_coordinator (m : ConversationMode) : bool := bool_decide (m = AUTONOMOUS).

(** [ConversationParticipantJoinedEvent] and [ConversationParticipantLeftEvent] *)
Inductive roster_event : Type :=
  | Joined (agent_id : string) (actor_id role : option string)
  | Left (agent_id : string) (actor_id reason : option string).

Notation dict := (list (string * pyval)).
Record Conversation : Type := mkConversation {
  conv_id : string;
  project_id : string;
  tenant_id : string;
  user_id : string;
  title : string;
  conv_status : ConversationStatus;
  agent_config : dict;
  conv_metadata : dict;
  message_count : Z;
  conv_created_at : Z;
  updated_at : option Z;
  workflow_pattern_id : option string;
  current_mode : AgentMode;
  current_plan_id : option string;
  parent_conversation_id : option string;
  branch_point_message_id : option string;
  conv_summary : option string;
  fork_source_id : option string;
  fork_context_snapshot : option string;
  merge_strategy : MergeStrategy;
  participant_agents : list string;
  conversation_mode : option ConversationMode;
  coordinator_agent_id : option string;
  focused_agent_id : option string;
  workspace_id : option string;
  linked_workspace_task_id : option string;
  pending_events : list roster_event;
}.

Inductive conv_error : Set :=
  | AlreadyInPlanMode | ParticipantAlreadyPresent | ParticipantLimit | ParticipantNotPresent
  | CoordinatorRequired | SenderNotInRoster.

(** * Methods *)

Section methods.
Context (now : Z) (c : Conversation).

Definition with_status (s : ConversationStatus) : Conversation :=
  mkConversation (conv_id c) (project_id c) (tenant_id c) (user_id c) (title c) s (agent_config c) (conv_metadata c)
    (message_count c) (conv_created_at c) (Some now) (workflow_pattern_id c) (current_mode c) (current_plan_id c)
    (parent_conversation_id c) (branch_point_message_id c) (conv_summary c) (fork_source_id c)
    (fork_context_snapshot c) (merge_strategy c) (participant_agents c) (conversation_mode c)
    (coordinator_agent_id c) (focused_agent_id c) (workspace_id c) (linked_workspace_task_id c) (pending_events c).
Definition archive : Conversation := with_status ARCHIVED.
Definition delete : Conversation := with_status DELETED.
(** The title, configuration and counter a method sets, the rest kept. *)
Definition with_text (t : string) (config : dict) (count : Z) : Conversation :=
  mkConversation (conv_id c) (project_id c) (tenant_id c) (user_id c) t (conv_status c) config (conv_metadata c)
    count (conv_created_at c) (Some now) (workflow_pattern_id c) (current_mode c) (current_plan_id c)
    (parent_conversation_id c) (branch_point_message_id c) (conv_summary c) (fork_source_id c)
    (fork_context_snapshot c) (merge_strategy c) (participant_agents c) (conversation_mode c)
    (coordinator_agent_id c) (focused_agent_id c) (workspace_id c) (linked_workspace_task_id c) (pending_events c).
Definition increment_message_count : Conversation := with_text (title c) (agent_config c) (message_count c + 1).
Definition update_agent_config (config : dict) : Conversation :=
  with_text (title c) (foldl (λ d kv, dset kv.1 kv.2 d) (agent_config c) config) (message_count c).
Definition update_title (new_title : string) : Conversation := with_text new_title (agent_config c) (message_count c).

Definition with_mode (m : AgentMode) (plan : option string) : Conversation :=
  mkConversation (conv_id c) (project_id c) (tenant_id c) (user_id c) (title c) (conv_status c) (agent_config c)
    (conv_metadata c) (message_count c) (conv_created_at c) (Some now) (workflow_pattern_id c) m plan
    (parent_conversation_id c) (branch_point_message_id c) (conv_summary c) (fork_source_id c)
    (fork_context_snapshot c) (merge_strategy c) (participant_agents c) (conversation_mode c)
    (coordinator_agent_id c) (focused_agent_id c) (workspace_id c) (linked_workspace_task_id c) (pending_events c).
Definition enter_plan_mode (plan_id : option string) : result conv_error Conversation :=
  if bool_decide (current_mode c = PLAN) then Err AlreadyInPlanMode else Ok (with_mode PLAN plan_id).
Definition exit_plan_mode : Conversation := with_mode BUILD None.
Definition set_explore_mode : Conversation := with_mode EXPLORE (current_plan_id c).
Definition is_in_plan_mode : bool := bool_decide (current_mode c = PLAN).
Definition is_in_explore_mode : bool := bool_decide (current_mode c = EXPLORE).
Definition is_subagent_session : bool := bool_decide (is_Some (parent_conversation_id c)).
Definition is_forked : bool := bool_decide (is_Some (fork_source_id c)).

(** The constructor with its defaults; [fresh] is the new uuid. *)
Definition fork (fresh user new_title : string) (strategy : MergeStrategy) (snapshot : option string) : Conversation :=
  mkConversation fresh (project_id c) (tenant_id c) user new_title CONV_ACTIVE [] [] 0 now None None BUILD None
    (Some (conv_id c)) None None (Some (conv_id c)) snapshot strategy [] None None None None None [].

(** [project_default] as text raises a ValueError when it is no mode: [None]. *)
Definition mode_of (s : string) : option ConversationMode :=
  head (filter (λ m, mode_value m = s) [SINGLE_AGENT; MULTI_AGENT_SHARED; MULTI_AGENT_ISOLATED; AUTONOMOUS]).
Definition resolve_mode (project_default : string + ConversationMode) : option ConversationMode :=
  match conversation_mode c with
  | Some m => Some m
  | None => match project_default with inr m => Some m | inl s => mode_of s end
  end.

(** ** The roster *)

Definition with_roster (agents : list string) (coordinator focused : option string) (events : list roster_event)
    : Conversation :=
  mkConversation (conv_id c) (project_id c) (tenant_id c) (user_id c) (title c) (conv_status c) (agent_config c)
    (conv_metadata c) (message_count c) (conv_created_at c) (Some now) (workflow_pattern_id c) (current_mode c)
    (current_plan_id c) (parent_conversation_id c) (branch_point_message_id c) (conv_summary c) (fork_source_id c)
    (fork_context_snapshot c) (merge_strategy c) agents (conversation_mode c)
    coordinator focused (workspace_id c) (linked_workspace_task_id c) events.
Definition has_participant (a : string) : bool := bool_decide (a ∈ participant_agents c).
Definition add_participant (a : string) (effective_mode : ConversationMode) (actor role : option string)
    : result conv_error Conversation :=
  if has_participant a then Err ParticipantAlreadyPresent
  else if bool_decide (effective_mode = SINGLE_AGENT) && (1 <=? length (participant_agents c)) then Err ParticipantLimit
  else Ok (with_roster (participant_agents c ++ [a]) (coordinator_agent_id c) (focused_agent_id c)
             (pending_events c ++ [Joined a actor role])).
(** [list.remove] *)
Fixpoint remove_first (a : string) (l : list string) : list string :=
  match l with [] => [] | b :: l' => if decide (b = a) then l' else b :: remove_first a l' end.
Definition cleared (a : string) (o : option string) : option string := if decide (o = Some a) then None else o.
Definition remove_participant (a : string) (actor reason : option string) : result conv_error Conversation :=
  if negb (has_participant a) then Err ParticipantNotPresent
  else Ok (with_roster (remove_first a (participant_agents c)) (cleared a (coordinator_agent_id c))
             (cleared a (focused_agent_id c)) (pending_events c ++ [Left a actor reason])).
Definition in_roster (o : option string) : bool := match o with Some a => has_participant a | None => true end.
Definition set_coordinator (o : option string) : result conv_error Conversation :=
  if in_roster o then Ok (with_roster (participant_agents c) o (focused_agent_id c) (pending_events c))
  else Err ParticipantNotPresent.
Definition set_focused_agent (o : option string) : result conv_error Conversation :=
  if in_roster o then Ok (with_roster (participant_agents c) (coordinator_agent_id c) o (pending_events c))
  else Err ParticipantNotPresent.
Definition assert_sender_in_roster (sender : option string) : result conv_error unit :=
  if in_roster sender then Ok tt else Err SenderNotInRoster.
Definition assert_autonomous_invariants (effective_mode : ConversationMode) : result conv_error unit :=
  if negb (bool_decide (effective_mode = AUTONOMOUS)) then Ok tt
  else
    match coordinator_agent_id c with
    | None => Err CoordinatorRequired
    | Some a =>
        if negb (has_participant a) then Err ParticipantNotPresent
        else if negb (truthy_opt (workspace_id c)) then Err CoordinatorRequired
        else Ok tt
    end.
Definition consume_pending_events : Conversation * list roster_event :=
  (mkConversation (conv_id c) (project_id c) (tenant_id c) (user_id c) (title c) (conv_status c) (agent_config c)
    (conv_metadata c) (message_count c) (conv_created_at c) (updated_at c) (workflow_pattern_id c) (current_mode c)
    (current_plan_id c) (parent_conversation_id c) (branch_point_message_id c) (conv_summary c) (fork_source_id c)
    (fork_context_snapshot c) (merge_strategy c) (participant_agents c) (conversation_mode c)
    (coordinator_agent_id c) (focused_agent_id c) (workspace_id c) (linked_workspace_task_id c) [],
   pending_events c).
End methods.

(** * Agent configuration *)

Definition SELECTED_AGENT_ID_KEY : string := "selected_agent_id".
Definition LEGACY_AGENT_DEFINITION_ID_KEY : string := "agent_definition_id".
Definition non_empty_string (v : option pyval) : option string :=
  match v with Some (PStr s) => if truthy (strip s) then Some (strip s) else None | _ => None end.
Definition selected_agent_id_from_config (config : option dict) : option string :=
  d ← config;
  match non_empty_string (dget SELECTED_AGENT_ID_KEY d) with
  | Some a => Some a
  | None => non_empty_string (dget LEGACY_AGENT_DEFINITION_ID_KEY d)
  end.
Definition normalize_agent_config (config : option dict) : dict :=
  match config with
  | None => []
  | Some d =>
      let normalized := ddel LEGACY_AGENT_DEFINITION_ID_KEY d in
      match selected_agent_id_from_config config with
      | Some a => dset SELECTED_AGENT_ID_KEY (PStr a) normalized
      | None => ddel SELECTED_AGENT_ID_KEY normalized
      end
  end.

(** * Dictionaries *)

Definition or_none {A} (f : A → pyval) (o : option A) : pyval := from_option f PNone o.
Definition to_dict (c : Conversation) : dict :=
  [("id", PStr (conv_id c)); ("project_id", PStr (project_id c)); ("tenant_id", PStr (tenant_id c));
   ("user_id", PStr (user_id c)); ("title", PStr (title c)); ("status", PStr (status_value (conv_status c)));
   ("message_count", PInt (message_count c)); ("created_at", PStr (isoformat (conv_created_at c)));
   ("updated_at", or_none (λ t, PStr (isoformat t)) (updated_at c)); ("summary", or_none PStr (conv_summary c));
   ("fork_source_id", or_none PStr (fork_source_id c));
   ("fork_context_snapshot", or_none PStr (fork_context_snapshot c));
   ("merge_strategy", PStr (merge_value (merge_strategy c)));
   ("participant_agents", PList (PStr <$> participant_agents c));
   ("conversation_mode", or_none (λ m, PStr (mode_value m)) (conversation_mode c));
   ("coordinator_agent_id", or_none PStr (coordinator_agent_id c));
   ("focused_agent_id", or_none PStr (focused_agent_id c)); ("workspace_id", or_none PStr (workspace_id c));
   ("linked_workspace_task_id", or_none PStr (linked_workspace_task_id c))].

(** What [from_dict] raises.  A value that has not the annotated type, which
    Python stores unchecked, is outside the model. *)
Inductive load_error : Set := KeyError (k : string) | ValueError (k : string) | Unmodelled (k : string).
Definition status_of (s : string) : option ConversationStatus :=
  head (filter (λ x, status_value x = s) [CONV_ACTIVE; ARCHIVED; DELETED]).
Definition merge_of (s : string) : option MergeStrategy :=
  head (filter (λ x, merge_value x = s) [RESULT_ONLY; FULL_HISTORY; SUMMARY]).

Section from_dict.
(** How [fromisoformat] reads the texts that [isoformat] does not write. *)
Context (other_iso : string → option Z) (data : dict).
Definition required (k : string) : result load_error pyval :=
  match dget k data with Some v => Ok v | None => Err (KeyError k) end.
Definition required_str (k : string) : result load_error string :=
  v ← required k; match v with PStr s => Ok s | _ => Err (Unmodelled k) end.
Definition get_str (k : string) : result load_error (option string) :=
  match dget k data with
  | None | Some PNone => Ok None
  | Some (PStr s) => Ok (Some s)
  | Some _ => Err (Unmodelled k)
  end.
(** [Enum(value)] *)
Definition enum_of {A} (of_value : string → option A) (k : string) (v : pyval) : result load_error A :=
  match v with
  | PStr s => match of_value s with Some x => Ok x | None => Err (ValueError k) end
  | _ => Err (ValueError k)
  end.
Definition get_enum {A} (of_value : string → option A) (k : string) (default : A) : result load_error A :=
  match dget k data with
  | Some v => if py_truth v then enum_of of_value k v else Ok default
  | None => Ok default
  end.
Definition instant_of (k : string) (v : pyval) : result load_error Z :=
  match v with
  | PStr s =>
      match iso_instant s with
      | Some t => Ok t
      | None => match other_iso s with Some t => Ok t | None => Err (ValueError k) end
      end
  | _ => Err (ValueError k)
  end.
Definition strings_of (k : string) (v : option pyval) : result load_error (list string) :=
  match v with
  | None => Ok []
  | Some (PList l) => mapM (λ x, match x with PStr s => Ok s | _ => Err (Unmodelled k) end) l
  | Some v => if py_truth v then Err (Unmodelled k) else Ok []
  end.

Definition from_dict : result load_error Conversation :=
  strategy ← get_enum merge_of "merge_strategy" RESULT_ONLY;
  mode ← get_enum (λ s, Some <$> mode_of s) "conversation_mode" None;
  cid ← required_str "id"; project ← required_str "project_id"; tenant ← required_str "tenant_id";
  user ← required_str "user_id"; t ← required_str "title";
  st ← required "status"; st ← enum_of status_of "status" st;
  count ← match dget "message_count" data with
          | None => Ok 0%Z | Some (PInt z) => Ok z | Some _ => Err (Unmodelled "message_count") end;
  created ← required "created_at"; created ← instant_of "created_at" created;
  updated ← match dget "updated_at" data with
            | Some v => if py_truth v then u ← instant_of "updated_at" v; Ok (Some u) else Ok None
            | None => Ok None end;
  summ ← get_str "summary"; source ← get_str "fork_source_id"; snapshot ← get_str "fork_context_snapshot";
  agents ← strings_of "participant_agents" (dget "participant_agents" data);
  coordinator ← get_str "coordinator_agent_id"; focused ← get_str "focused_agent_id";
  workspace ← get_str "workspace_id"; wtask ← get_str "linked_workspace_task_id";
  Ok (mkConversation cid project tenant user t st [] [] count created updated None BUILD None None None
        summ source snapshot strategy agents mode coordinator focused workspace wtask []).
End from_dict.

(** * The roster *)

Inductive conv_op : Type :=
  | Archive | Delete | Increment
  | UpdateConfig (config : dict)
  | UpdateTitle (t : string)
  | EnterPlan (plan_id : option string)
  | ExitPlan | SetExplore
  | AddParticipant (a : string) (m : ConversationMode) (actor role : option string)
  | RemoveParticipant (a : string) (actor reason : option string)
  | SetCoordinator (o : option string)
  | SetFocused (o : option string)
  | Consume.
(** A method that raises leaves the conversation as it was. *)
Definition or_unchanged (c : Conversation) (r : result conv_error Conversation) : Conversation :=
  match r with Ok c' => c' | Err _ => c end.
(** The conversation after a call, and the events it handed out. *)
Definition conv_step (s : Conversation * list roster_event) (call : Z * conv_op)
    : Conversation * list roster_event :=
  let '(c, drained) := s in let '(now, op) := call in
  match op with
  | Archive => (archive now c, drained)
  | Delete => (delete now c, drained)
  | Increment => (increment_message_count now c, drained)
  | UpdateConfig config => (update_agent_config now c config, drained)
  | UpdateTitle t => (update_title now c t, drained)
  | EnterPlan p => (or_unchanged c (enter_plan_mode now c p), drained)
  | ExitPlan => (exit_plan_mode now c, drained)
  | SetExplore => (set_explore_mode now c, drained)
  | AddParticipant a m actor role => (or_unchanged c (add_participant now c a m actor role), drained)
  | RemoveParticipant a actor reason => (or_unchanged c (remove_participant now c a actor reason), drained)
  | SetCoordinator o => (or_unchanged c (set_coordinator now c o), drained)
  | SetFocused o => (or_unchanged c (set_focused_agent now c o), drained)
  | Consume => ((consume_pending_events c).1, drained ++ (consume_pending_events c).2)
  end.
Definition run_conv (calls : list (Z * conv_op)) (c : Conversation) : Conversation * list roster_event :=
  foldl conv_step (c, []) calls.

Record roster_ok (c : Conversation) : Prop := {
  ro_nodup : NoDup (participant_agents c);
  ro_coordinator : in_roster c (coordinator_agent_id c) = true;
  ro_focused : in_roster c (focused_agent_id c) = true;
}.
(** The roster that a reader of the events keeps. *)
Definition replay (roster : list string) (e : roster_event) : list string :=
  match e with Joined a _ _ => roster ++ [a] | Left a _ _ => filter (.≠ a) roster end.
(** Every call that adds says SINGLE_AGENT. *)
Definition single_only (call : Z * conv_op) : bool :=
  match call.2 with AddParticipant _ m _ _ => bool_decide (m = SINGLE_AGENT) | _ => true end.

Lemma remove_first_filter a l : NoDup l → remove_first a l = filter (.≠ a) l.
Proof.
  induction 1 as [|b l Hb Hl IH]; [done|]. rewrite filter_cons. simpl.
  destruct (decide (b = a)) as [->|Hne]; [|by rewrite decide_True, IH].
  rewrite decide_False by naive_solver. symmetry. apply filter_all. naive_solver.
Qed.
Lemma in_roster_true c o : in_roster c o = true ↔ ∀ a, o = Some a → a ∈ participant_agents c.
Proof.
  destruct o as [a|]; simpl; [|by split]. unfold has_participant. rewrite bool_decide_eq_true. naive_solver.
Qed.
Lemma cleared_in_roster now c a l events o : (∀ b, o = Some b → b ∈ participant_agents c) →
  (∀ b, b ∈ participant_agents c → b ≠ a → b ∈ l) →
  ∀ co fo, in_roster (with_roster now c l co fo events) (cleared a o) = true.
Proof.
  intros Ho Hl co fo. apply in_roster_true. intros b. unfold cleared. case_decide as Hd; [done|]. intros ->.
  apply Hl; [by apply Ho|]. by intros ->.
Qed.

Section roster.
Context (start : list string).
(** The roster is the one that all events, handed out and pending, describe. *)
Definition journal_ok (s : Conversation * list roster_event) : Prop :=
  foldl replay start (s.2 ++ pending_events s.1) = participant_agents s.1.

Lemma journal_snoc s e : journal_ok s → ∀ c', pending_events c' = pending_events s.1 ++ [e] →
  participant_agents c' = replay (participant_agents s.1) e → journal_ok (c', s.2).
Proof.
  unfold journal_ok. intros H c' He Hp. simpl. by rewrite He, app_assoc, foldl_app, H, Hp.
Qed.
Lemma conv_step_ok s call : roster_ok s.1 →
  roster_ok (conv_step s call).1 ∧ (journal_ok s → journal_ok (conv_step s call)).
Proof.
  destruct s as [c drained], call as [now op]. intros Hr. cbn [fst] in *.
  pose proof Hr as [Hnd Hco Hfo]. rewrite !in_roster_true in *.
  destruct op as [| | |config|t|p| | |a m actor role|a actor reason|o|o|]; cbn [conv_step fst];
    try (destruct Hr; split; [by split|done]).
  - unfold enter_plan_mode. destruct (bool_decide _); [by split|]. destruct Hr. split; [by split|done].
  - unfold add_participant. destruct (has_participant c a) eqn:Ha; [by split|].
    destruct (_ && _); [by split|]. cbn [or_unchanged]. unfold has_participant in Ha. rewrite bool_decide_eq_false in Ha.
    split; [|intros Hj; by eapply (journal_snoc (c, drained))].
    split; cbn; rewrite ?in_roster_true; cbn; [|intros ? ?; apply elem_of_app; left; auto..].
    apply NoDup_app. split; [done|]. split; [|apply NoDup_singleton]. by intros x Hx ->%list_elem_of_singleton.
  - unfold remove_participant. destruct (has_participant c a) eqn:Ha; cbn [negb or_unchanged]; [|by split].
    split; [|intros Hj; eapply (journal_snoc (c, drained)); [done..|]; cbn; by apply remove_first_filter].
    rewrite remove_first_filter by done.
    assert (∀ b, b ∈ participant_agents c → b ≠ a → b ∈ filter (.≠ a) (participant_agents c)) as Hl.
    { intros b Hb Hne. by apply list_elem_of_filter. }
    split; cbn; [by apply NoDup_filter|by apply cleared_in_roster..].
  - unfold set_coordinator. destruct (in_roster c o) eqn:Ho; [|by split]. rewrite in_roster_true in Ho.
    split; [split; cbn; by rewrite ?in_roster_true|done].
  - unfold set_focused_agent. destruct (in_roster c o) eqn:Ho; [|by split]. rewrite in_roster_true in Ho.
    split; [split; cbn; by rewrite ?in_roster_true|done].
  - split; [split; cbn; by rewrite ?in_roster_true|]. unfold journal_ok. cbn. by rewrite app_nil_r.
Qed.
End roster.

Lemma single_step n s call : length (participant_agents s.1) ≤ n → 1 ≤ n → single_only call = true →
  length (participant_agents (conv_step s call).1) ≤ n.
Proof.
  destruct s as [c drained], call as [now op]. cbn [fst]. intros Hl Hn Hs.
  destruct op as [| | |config|t|p| | |a m actor role|a actor reason|o|o|]; cbn [conv_step fst]; try done.
  - unfold enter_plan_mode. by destruct (bool_decide _).
  - unfold add_participant. destruct (has_participant c a); [done|]. cbn in Hs. rewrite Hs. cbn [andb].
    destruct (Nat.leb_spec 1 (length (participant_agents c))) as [?|Hz]; [done|]. cbn. rewrite length_app. simpl. lia.
  - unfold remove_participant. destruct (negb _); [done|]. cbn.
    assert (∀ l, length (remove_first a l) ≤ length l) as Hrem.
    { induction l as [|b l IH]; simpl; [done|]. case_decide; simpl; lia. }
    specialize (Hrem (participant_agents c)). lia.
  - unfold set_coordinator. by destruct (in_roster c o).
  - unfold set_focused_agent. by destruct (in_roster c o).
Qed.
Lemma run_conv_ok calls c : roster_ok c → pending_events c = [] →
  roster_ok (run_conv calls c).1 ∧ journal_ok (participant_agents c) (run_conv calls c).
Proof.
  intros Hr Hp. unfold run_conv.
  assert (roster_ok (c, @nil roster_event).1 ∧ journal_ok (participant_agents c) (c, [])) as H0.
  { split; [done|]. unfold journal_ok. cbn. by rewrite Hp. }
  revert H0. generalize (c, @nil roster_event). induction calls as [|call calls IH]; intros s [H1 H2]; [by split|].
  cbn [foldl]. apply IH. destruct (conv_step_ok (participant_agents c) s call H1). by auto.
Qed.
Lemma run_single calls s : forallb single_only calls = true →
  length (participant_agents (foldl conv_step s calls).1) ≤ length (participant_agents s.1) `max` 1.
Proof.
  intros Hs. set (n := length (participant_agents s.1) `max` 1).
  assert (length (participant_agents s.1) ≤ n) as Hn by (subst n; lia). assert (1 ≤ n) as H1 by (subst n; lia).
  clearbody n. revert s Hn Hs. induction calls as [|call calls IH]; intros s Hn Hs; [done|].
  cbn [forallb] in Hs. apply andb_true_iff in Hs as [Hc Hs]. cbn [foldl]. apply IH; [by apply single_step|done].
Qed.

(** Whatever is called, in whatever order and with whatever arguments: no agent is
    twice on the roster, the coordinator and the focused agent are on it, the
    events handed out and pending describe exactly the roster there is, and
    where agents are only added in single-agent mode the roster does not
    outgrow one agent. *)
Theorem roster_invariant calls c : roster_ok c → pending_events c = [] →
  let s := run_conv calls c in
  NoDup (participant_agents s.1) ∧
  (∀ a, coordinator_agent_id s.1 = Some a ∨ focused_agent_id s.1 = Some a → a ∈ participant_agents s.1) ∧
  foldl replay (participant_agents c) (s.2 ++ pending_events s.1) = participant_agents s.1 ∧
  (forallb single_only calls = true → length (participant_agents s.1) ≤ length (participant_agents c) `max` 1).
Proof.
  intros Hr Hp s. destruct (run_conv_ok calls c Hr Hp) as [[Hn Hco Hfo] Hj]. rewrite !in_roster_true in *.
  split; [done|]. split; [intros a [Ha|Ha]; auto|]. split; [exact Hj|].
  apply (run_single calls (c, [])).
Qed.

(** * Autonomous conversations *)

Lemma autonomous_ok c : assert_autonomous_invariants c AUTONOMOUS = Ok tt ↔
  ∃ a, coordinator_agent_id c = Some a ∧ a ∈ participant_agents c ∧ truthy_opt (workspace_id c) = true.
Proof.
  unfold assert_autonomous_invariants. cbn [bool_decide decide_rel negb]. rewrite bool_decide_eq_true_2 by done. cbn [negb].
  destruct (coordinator_agent_id c) as [a|]; [|naive_solver]. unfold has_participant.
  destruct (bool_decide_reflect (a ∈ participant_agents c)) as [Hin|Hin]; cbn [negb]; [|naive_solver].
  destruct (truthy_opt (workspace_id c)) eqn:Hw; cbn [negb]; naive_solver.
Qed.
(** The two calls that take the coordinator away. *)
Definition drops_coordinator (c : Conversation) (op : conv_op) : bool :=
  match op with
  | RemoveParticipant a _ _ => bool_decide (coordinator_agent_id c = Some a)
  | SetCoordinator None => true
  | _ => false
  end.

(** C37. A conversation that meets the preconditions of autonomous mode goes on
    meeting them until a call takes its coordinator away, which two calls
    do without an error: removing the coordinator from the roster, and setting
    no coordinator. *)
Theorem autonomous_until_dropped c now op : roster_ok c →
  assert_autonomous_invariants c AUTONOMOUS = Ok tt →
  let c' := (conv_step (c, []) (now, op)).1 in
  assert_autonomous_invariants c' AUTONOMOUS =
    (if drops_coordinator c op then Err CoordinatorRequired else Ok tt) ∧
  conversation_mode c' = conversation_mode c.
Proof.
  intros Hr Hok c'. assert (conversation_mode c' = conversation_mode c) as Hm.
  { unfold c'. destruct op as [| | |config|t|p| | |a m actor role|a actor reason|o|o|]; cbn [conv_step fst]; try done;
      unfold enter_plan_mode, add_participant, remove_participant, set_coordinator, set_focused_agent;
      by repeat case_match. }
  split; [|exact Hm].
  destruct (conv_step_ok [] (c, []) (now, op) Hr) as [[_ Hco' _] _]. fold c' in Hco'. rewrite in_roster_true in Hco'.
  apply autonomous_ok in Hok as (co & Hco & Hin & Hw).
  assert (workspace_id c' = workspace_id c ∧
    coordinator_agent_id c' = (if drops_coordinator c op then None else coordinator_agent_id c) ∨
    ∃ b, op = SetCoordinator (Some b) ∧ workspace_id c' = workspace_id c ∧ is_Some (coordinator_agent_id c')) as Hc'.
  { unfold c'. destruct op as [| | |config|t|p| | |a m actor role|a actor reason|o|o|]; cbn [conv_step fst drops_coordinator];
      try by left.
    - left. unfold enter_plan_mode. by destruct (bool_decide _).
    - left. unfold add_participant. by destruct (has_participant c a); [|destruct (_ && _)].
    - left. unfold remove_participant. destruct (has_participant c a) eqn:Ha; cbn.
      + unfold cleared. by destruct (decide _) as [Hd|Hd]; [rewrite bool_decide_eq_true_2|rewrite bool_decide_eq_false_2].
      + rewrite bool_decide_eq_false_2; [done|]. intros Heq. unfold has_participant in Ha.
        rewrite bool_decide_eq_false in Ha. naive_solver.
    - destruct o as [b|]; [|by left]. right. exists b. unfold set_coordinator. destruct (in_roster c (Some b)); cbn; eauto.
    - left. unfold set_focused_agent. by destruct (in_roster c o). }
  destruct Hc' as [[Hw' Hc']|(b & -> & Hw' & [co' Hc'])].
  - destruct (drops_coordinator c op).
    + unfold assert_autonomous_invariants. by rewrite Hc'.
    + apply autonomous_ok. exists co. rewrite Hw', Hc'. split; [done|]. split; [|done]. apply Hco'. by rewrite Hc'.
  - cbn [drops_coordinator]. apply autonomous_ok. exists co'. rewrite Hw'. auto.
Qed.

(** * What a dictionary keeps *)

(** The conversation a cached dictionary gives back: the configuration, the
    metadata, the workflow pattern, the mode and plan, the parent and the branch
    point are not in it, and nothing is pending. *)
Definition cached (c : Conversation) : Conversation :=
  mkConversation (conv_id c) (project_id c) (tenant_id c) (user_id c) (title c) (conv_status c) [] []
    (message_count c) (conv_created_at c) (updated_at c) None BUILD None None None (conv_summary c) (fork_source_id c)
    (fork_context_snapshot c) (merge_strategy c) (participant_agents c) (conversation_mode c)
    (coordinator_agent_id c) (focused_agent_id c) (workspace_id c) (linked_workspace_task_id c) [].
Record stamped (c : Conversation) : Prop := {
  sp_created : in_range (conv_created_at c);
  sp_updated : ∀ t, updated_at c = Some t → in_range t;
}.

Lemma to_dict_spec c :
  dget "id" (to_dict c) = Some (PStr (conv_id c)) ∧
  dget "project_id" (to_dict c) = Some (PStr (project_id c)) ∧
  dget "tenant_id" (to_dict c) = Some (PStr (tenant_id c)) ∧
  dget "user_id" (to_dict c) = Some (PStr (user_id c)) ∧
  dget "title" (to_dict c) = Some (PStr (title c)) ∧
  dget "status" (to_dict c) = Some (PStr (status_value (conv_status c))) ∧
  dget "message_count" (to_dict c) = Some (PInt (message_count c)) ∧
  dget "created_at" (to_dict c) = Some (PStr (isoformat (conv_created_at c))) ∧
  dget "updated_at" (to_dict c) = Some (or_none (λ t, PStr (isoformat t)) (updated_at c)) ∧
  dget "summary" (to_dict c) = Some (or_none PStr (conv_summary c)) ∧
  dget "fork_source_id" (to_dict c) = Some (or_none PStr (fork_source_id c)) ∧
  dget "fork_context_snapshot" (to_dict c) = Some (or_none PStr (fork_context_snapshot c)) ∧
  dget "merge_strategy" (to_dict c) = Some (PStr (merge_value (merge_strategy c))) ∧
  dget "participant_agents" (to_dict c) = Some (PList (PStr <$> participant_agents c)) ∧
  dget "conversation_mode" (to_dict c) = Some (or_none (λ m, PStr (mode_value m)) (conversation_mode c)) ∧
  dget "coordinator_agent_id" (to_dict c) = Some (or_none PStr (coordinator_agent_id c)) ∧
  dget "focused_agent_id" (to_dict c) = Some (or_none PStr (focused_agent_id c)) ∧
  dget "workspace_id" (to_dict c) = Some (or_none PStr (workspace_id c)) ∧
  dget "linked_workspace_task_id" (to_dict c) = Some (or_none PStr (linked_workspace_task_id c)).
Proof. repeat split. Qed.
Lemma to_dict_wf c : json_wf (PDict (to_dict c)).
Proof.
  constructor; [vm_decide|]. apply Forall_forall.
  assert (∀ A (f : A → pyval) o, (∀ x, json_wf (f x)) → json_wf (or_none f o)) as Ho.
  { intros A f [x|] Hx; [apply Hx|constructor]. }
  unfold to_dict. repeat apply Forall_cons_2; try apply Forall_nil_2; cbn [snd]; try (apply Ho; intros ?); try constructor.
  by intros v (x & -> & _)%list_elem_of_fmap; constructor.
Qed.
Lemma isoformat_truthy t : truthy (isoformat t) = true.
Proof. apply truthy_true. intros E. apply (isoformat_nonblank t). by rewrite E. Qed.
Lemma mapM_strings k (l : list string) :
  mapM (λ x, match x with PStr s => Ok s | _ => Err (Unmodelled k) end) (PStr <$> l) = Ok l.
Proof. induction l as [|x l IH]; [done|]. cbn [fmap list_fmap mapM]. cbn [mbind result_bind]. by rewrite IH. Qed.
Lemma or_none_str k (d : dict) o : dget k d = Some (or_none PStr o) → get_str d k = Ok o.
Proof. unfold get_str. intros ->. by destruct o. Qed.
Section stored_dict.
Context (other_iso : string → option Z) (c : Conversation) (Hc : stamped c).
Lemma stored_str k v : dget k (to_dict c) = Some (PStr v) → required_str (to_dict c) k = Ok v.
Proof. unfold required_str, required. by intros ->. Qed.
Lemma stored_merge : get_enum (to_dict c) merge_of "merge_strategy" RESULT_ONLY = Ok (merge_strategy c).
Proof. unfold get_enum. change (dget _ _) with (Some (PStr (merge_value (merge_strategy c)))). by destruct (merge_strategy c). Qed.
Lemma stored_mode : get_enum (to_dict c) (λ s, Some <$> mode_of s) "conversation_mode" None = Ok (conversation_mode c).
Proof.
  unfold get_enum. change (dget _ _) with (Some (or_none (λ m, PStr (mode_value m)) (conversation_mode c))).
  by destruct (conversation_mode c) as [[]|].
Qed.
Lemma stored_instant k t : in_range t → instant_of other_iso k (PStr (isoformat t)) = Ok t.
Proof. intros Ht. unfold instant_of. by rewrite iso_instant_isoformat. Qed.
Lemma stored_updated : match dget "updated_at" (to_dict c) with
  | Some v => if py_truth v then u ← instant_of other_iso "updated_at" v; Ok (Some u) else Ok None
  | None => Ok None end = Ok (updated_at c).
Proof.
  change (dget _ _) with (Some (or_none (λ t, PStr (isoformat t)) (updated_at c))).
  destruct (updated_at c) as [t|] eqn:E; [|done]. cbn [or_none from_option py_truth]. rewrite isoformat_truthy.
  by rewrite stored_instant by (by apply (sp_updated _ Hc)).
Qed.
Lemma from_to_dict : from_dict other_iso (to_dict c) = Ok (cached c).
Proof.
  unfold from_dict. rewrite stored_merge, stored_mode, stored_updated.
  destruct (to_dict_spec c) as (H1 & H2 & H3 & H4 & H5 & H6 & H7 & H8 & H9 & H10 & H11 & H12 & H13 & H14 & H15 & H16 & H17 & H18 & H19).
  rewrite (stored_str _ _ H1), (stored_str _ _ H2), (stored_str _ _ H3), (stored_str _ _ H4), (stored_str _ _ H5).
  rewrite !(or_none_str _ _ _ H10), !(or_none_str _ _ _ H11), !(or_none_str _ _ _ H12), !(or_none_str _ _ _ H16),
    !(or_none_str _ _ _ H17), !(or_none_str _ _ _ H18), !(or_none_str _ _ _ H19).
  unfold required. rewrite H6, H7, H8, H14. cbn [mbind result_bind strings_of].
  rewrite mapM_strings, stored_instant by apply Hc. cbn [mbind result_bind].
  assert (enum_of status_of "status" (PStr (status_value (conv_status c))) = Ok (conv_status c)) as -> by by destruct (conv_status c).
  done.
Qed.
End stored_dict.

(** A conversation written to the cache as JSON and read back is the same
    conversation without what a dictionary does not keep: a sub-agent session
    comes back as an ordinary one, in build mode and without its
    configuration. *)
Theorem conversation_roundtrip other_iso c : stamped c →
  ∃ d, json_loads (json_dumps false true (PDict (to_dict c))) = Some (PDict d) ∧
    from_dict other_iso d = Ok (cached c) ∧
    is_subagent_session (cached c) = false ∧ is_in_plan_mode (cached c) = false ∧
    (agent_config c = [] → conv_metadata c = [] → workflow_pattern_id c = None → current_mode c = BUILD →
     current_plan_id c = None → parent_conversation_id c = None → branch_point_message_id c = None →
     pending_events c = [] → cached c = c).
Proof.
  intros Hc. exists (to_dict c). split; [apply json_loads_dumps, to_dict_wf|]. split; [by apply from_to_dict|].
  split; [done|]. split; [done|]. destruct c. cbn. by intros -> -> -> -> -> -> -> ->.
Qed.

(** * Witnesses *)

Definition team_conversation : Conversation :=
  mkConversation "c1" "p" "t" "u" "Release" CONV_ACTIVE [("temperature", PInt 1)] [] 3 63870000000000000
    (Some 63870000001000000%Z) None PLAN (Some "plan") (Some "c0") None (Some "") None None SUMMARY ["lead"; "dev"]
    (Some AUTONOMOUS) (Some "lead") None (Some "w") None [].
Lemma team_ok : roster_ok team_conversation.
Proof. split; [vm_decide|reflexivity|reflexivity]. Qed.
Definition team_calls : list (Z * conv_op) :=
  [(1, SetFocused (Some "dev")); (2, AddParticipant "qa" AUTONOMOUS None None); (3, Consume);
   (4, RemoveParticipant "dev" None None); (5, AddParticipant "qa" AUTONOMOUS None None)]%Z.

Lemma roster_invariant_witness :
  NoDup (participant_agents (run_conv team_calls team_conversation).1) ∧
  participant_agents (run_conv team_calls team_conversation).1 = ["lead"; "qa"] ∧
  focused_agent_id (run_conv team_calls team_conversation).1 = None.
Proof.
  split; [|split; reflexivity].
  apply (roster_invariant team_calls team_conversation); [apply team_ok|reflexivity].
Defined.
Lemma autonomous_until_dropped_witness :
  assert_autonomous_invariants (conv_step (team_conversation, []) (7%Z, RemoveParticipant "lead" None None)).1 AUTONOMOUS
  = Err CoordinatorRequired.
Proof.
  apply (autonomous_until_dropped team_conversation 7 (RemoveParticipant "lead" None None)); [apply team_ok|reflexivity].
Defined.
Lemma conversation_roundtrip_witness :
  ∃ d, json_loads (json_dumps false true (PDict (to_dict team_conversation))) = Some (PDict d) ∧
    from_dict (λ _, None) d = Ok (cached team_conversation) ∧
    is_subagent_session team_conversation = true ∧ is_subagent_session (cached team_conversation) = false.
Proof.
  destruct (conversation_roundtrip (λ _, None) team_conversation) as (d & H1 & H2 & H3 & _).
  - split; [unfold in_range, max_instant; simpl; lia|]. intros t [= <-]. unfold in_range, max_instant. lia.
  - exists d. split; [exact H1|]. split; [exact H2|]. split; [reflexivity|exact H3].
Defined.
