(* ===== verification/ConversationManager.v ===== *)
(** The conversations of a project, as their users reach them.

    Sources: src/src/application/services/agent/conversation_manager.py and,
    for the cached lists, src/src/application/services/agent_service.py.  The
    repositories are the class [ConversationRepository], the protocols of
    src/src/domain/ports/repositories/agent_repository.py, whose
    implementations talk to a database; no law of them is assumed.  Calls of
    the agent service share one Redis and interleave at every call of it, any
    of which may fail.  A character is a code point below 256, so the full-width
    punctuation and the Chinese prefix of a title do not occur. *)

From stdpp Require Import gmap.
From S2P Require Import Prelude PyText Json Datetime Conversation.
From Stdlib Require Import Ascii.

Open Scope string_scope.
Open Scope list_scope.
Open Scope nat_scope.

(** * The repositories *)

Class ConversationRepository (St Event Execution : Type) : Type := {
  find_by_id : string → St → option Conversation;
  save : Conversation → St → St;
  delete_row : string → St → St;
  list_by_project : string → nat → nat → option ConversationStatus → St → list Conversation;
  count_by_project : string → option ConversationStatus → St → nat;
  message_events : string → nat → St → list Event;
  list_executions : string → nat → St → list Execution;
  (** Deletes the executions, events, tool records and checkpoints of a
      conversation, those of them that have a repository. *)
  delete_by_conversation : string → St → St;
}.

(** * Titles *)

Definition new_conversation : string := "New Conversation".
Definition double_quote : ascii := ascii_of_nat 34.
Definition single_quote : ascii := ascii_of_nat 39.
(** [s.rstrip(chars)], [s.strip(chars)] *)
Fixpoint rstrip_of (p : ascii → bool) (s : string) : string :=
  match s with
  | EmptyString => EmptyString
  | String a s' =>
      match rstrip_of p s' with
      | EmptyString => if p a then EmptyString else String a EmptyString
      | t => String a t
      end
  end.
Fixpoint lstrip_of (p : ascii → bool) (s : string) : string :=
  match s with String a s' => if p a then lstrip_of p s' else s | EmptyString => EmptyString end.
Definition strip_of (p : ascii → bool) (s : string) : string := rstrip_of p (lstrip_of p s).
(** A literal without regard to case. *)
Fixpoint strip_prefix (lit s : string) : option string :=
  match lit, s with
  | EmptyString, _ => Some s
  | String a lit', String b s' => if Ascii.eqb a (lower b) then strip_prefix lit' s' else None
  | _, EmptyString => None
  end.
(** [_TITLE_PREFIX_RE.sub("", title)] *)
Definition strip_title_prefix (s : string) : string :=
  match strip_prefix "title" (lstrip s) with
  | Some s' => match lstrip s' with String ":" s'' => lstrip s'' | _ => s end
  | None => s
  end.
Definition trailing_punctuation (a : ascii) : bool :=
  existsb (Ascii.eqb a) (String.list_ascii_of_string ".!?;:").
Definition slice (n : nat) (s : string) : string := String.substring 0 n s.
Definition normalize_generated_title (raw : string) : string :=
  let title := strip (strip_of (Ascii.eqb single_quote) (strip_of (Ascii.eqb double_quote) (strip raw))) in
  let title := strip (strip_title_prefix title) in
  let title := strip (rstrip_of trailing_punctuation title) in
  if 50 <? String.length title then (rstrip (slice 47 title) ++ "...")%string else title.

(** [s.rfind(" ")], [None] for -1 *)
Fixpoint rfind_space (s : string) : option nat :=
  match s with
  | EmptyString => None
  | String a s' =>
      match rfind_space s' with
      | Some i => Some (S i)
      | None => if Ascii.eqb a " "%char then Some 0 else None
      end
  end.
Definition generate_fallback_title (first_message : string) : string :=
  let content := strip first_message in
  let content :=
    if 40 <? String.length content then
      let truncated := slice 40 content in
      let truncated := match rfind_space truncated with
                       | Some i => if 20 <? i then slice i truncated else truncated
                       | None => truncated end in
      (truncated ++ "...")%string
    else content in
  if truthy content then content else new_conversation.
(** [generate_conversation_title]: the LLM answers or raises, at most three times. *)
Fixpoint try_titles (attempts : nat) (llm : nat → option string) (first_message : string) : string :=
  match attempts with
  | 0 => generate_fallback_title first_message
  | S n =>
      match llm n with
      | Some answer =>
          let title := normalize_generated_title answer in
          if truthy title then title else generate_fallback_title first_message
      | None => try_titles n llm first_message
      end
  end.
Definition generate_conversation_title (llm : nat → option string) (first_message : string) : string :=
  try_titles 3 llm first_message.

(** * The manager *)

Inductive access_error : Set := NotFound | NoPermission.

Section manager.
Context {St Event Execution : Type} `{ConversationRepository St Event Execution}.
Implicit Types (st : St).

Definition create_conversation (now : Z) (fresh project user tenant : string) (t : option string)
    (config : option dict) (workspace : option string) st : St * Conversation :=
  let c := mkConversation fresh project tenant user (if truthy_opt t then default "" t else new_conversation)
             CONV_ACTIVE (normalize_agent_config config) [("created_at", PStr (isoformat now))] 0 now None None BUILD
             None None None None None None RESULT_ONLY [] None None None workspace None [] in
  (save c st, c).
(** [conversation.project_id != project_id or conversation.user_id != user_id] *)
Definition is_owner (project user : string) (c : Conversation) : bool :=
  bool_decide (project_id c = project) && bool_decide (user_id c = user).
Definition get_conversation (cid project user : string) st : option Conversation :=
  c ← find_by_id cid st; if is_owner project user c then Some c else None.
Definition list_conversations (project user : string) (limit offset : nat) (s : option ConversationStatus) st
    : list Conversation := list_by_project project limit offset s st.
Definition count_conversations (project : string) (s : option ConversationStatus) st : nat :=
  count_by_project project s st.
Definition delete_conversation (cid project user : string) st : St * bool :=
  match find_by_id cid st with
  | None => (st, false)
  | Some c =>
      if is_owner project user c then (delete_row cid (delete_by_conversation cid st), true) else (st, false)
  end.
Definition update_conversation_title (now : Z) (cid project user t : string) st : St * option Conversation :=
  match find_by_id cid st with
  | None => (st, None)
  | Some c =>
      if is_owner project user c then let c' := update_title now c t in (save c' st, Some c') else (st, None)
  end.
Definition get_conversation_messages (cid project user : string) (limit : nat) st : list Event :=
  match find_by_id cid st with
  | None => []
  | Some c => if is_owner project user c then message_events cid limit st else []
  end.
Definition get_execution_history (cid project user : string) (limit : nat) st : result access_error (list Execution) :=
  match find_by_id cid st with
  | None => Err NotFound
  | Some c => if is_owner project user c then Ok (list_executions cid limit st) else Err NoPermission
  end.
(** No user is asked for: the caller is the agent. *)
Definition get_conversation_context (event_data : Event → dict) (cid : string) (max_messages : nat) st
    : list (pyval * pyval) :=
  (λ e, (default (PStr "user") (dget "role" (event_data e)), default (PStr "") (dget "content" (event_data e))))
    <$> message_events cid max_messages st.
End manager.

(** * The cached lists of [AgentService] *)

(** A key is the text of its parts, which the colons between them keep apart
    as long as an id has none, nor a character of a pattern. *)
Inductive cache_key : Type :=
  | ListKey (project : string) (s : option ConversationStatus) (offset limit : nat)
  | CountKey (project : string) (s : option ConversationStatus).
#[export] Instance cache_key_dec : EqDecision cache_key.
Proof. solve_decision. Defined.
(** Lists of dictionaries as JSON, and counts, whose text [int] reads back. *)
Inductive cache_value : Type := ListText (text : string) | CountText (n : nat).
(** What Redis holds, each value until an instant. *)
Notation conv_cache := (list (cache_key * (cache_value * Z))).
(** In microseconds. *)
Definition conv_list_cache_ttl : Z := 30000000.
Definition redis_get (k : cache_key) (now : Z) (c : conv_cache) : option cache_value :=
  ve ← dget k c; if (now <? ve.2)%Z then Some ve.1 else None.
Definition redis_set (k : cache_key) (x : cache_value) (now : Z) (c : conv_cache) : conv_cache :=
  dset k (x, now + conv_list_cache_ttl)%Z c.
Definition redis_delete (ks : list cache_key) (c : conv_cache) : conv_cache := filter (λ kv, kv.1 ∉ ks) c.

Inductive key_prefix : Set := ConvList | ConvCount.
Definition matches (prefix : key_prefix) (project : string) (k : cache_key) : bool :=
  match prefix, k with
  | ConvList, ListKey p _ _ _ => bool_decide (p = project)
  | ConvCount, CountKey p _ => bool_decide (p = project)
  | _, _ => false
  end.
Definition scan_keys (prefix : key_prefix) (project : string) (c : conv_cache) : list cache_key :=
  filter (λ k, matches prefix project k) c.*1.
(** The rest of a call, from its next command to Redis on: a value to store, the
    keys of a project to look for, the keys found to delete. *)
Inductive command : Type :=
  | SetKey (k : cache_key) (x : cache_value)
  | Scan (prefix : key_prefix) (project : string)
  | DeleteKeys (prefix : key_prefix) (project : string) (keys : list cache_key).
Definition invalidate_conv_cache (project : string) : command := Scan ConvList project.
(** The turn of the other prefix. *)
Definition next_prefix (prefix : key_prefix) (project : string) : option command :=
  match prefix with ConvList => Some (Scan ConvCount project) | ConvCount => None end.
Definition delete_rest (prefix : key_prefix) (project : string) (keys : list cache_key) : option command :=
  match keys with [] => next_prefix prefix project | _ => Some (DeleteKeys prefix project keys) end.
(** One command, and what remains of the call.  SCAN finds the keys that are
    there when it begins; of a key stored meanwhile nothing is said. *)
Definition send_command (t : command) (now : Z) (c : conv_cache) : conv_cache * option command :=
  match t with
  | SetKey k x => (redis_set k x now c, None)
  | Scan prefix p => (c, delete_rest prefix p (scan_keys prefix p c))
  | DeleteKeys prefix p ks => (redis_delete (take 100 ks) c, delete_rest prefix p (drop 100 ks))
  end.

(** The Redis of the services, if there is one, its clock, and the calls that
    wait for it. *)
Record agent_service : Type := mkService { redis_client : option conv_cache; clock : Z; pending : list command }.
(** [if self._redis_client], the call goes on with [t]. *)
Definition await (t : command) (v : agent_service) : agent_service :=
  if redis_client v then mkService (redis_client v) (clock v) (pending v ++ [t]) else v.

Section service.
Context {St Event Execution : Type} `{ConversationRepository St Event Execution}.
Context (other_iso : string → option Z).
Implicit Types (v : agent_service) (st : St).

Definition encode_list (cs : list Conversation) : string :=
  json_dumps false true (PList ((λ c, PDict (to_dict c)) <$> cs)).
(** [None] when an exception sends the call to the database. *)
Definition decode_list (text : string) : option (list Conversation) :=
  match json_loads text with
  | Some (PList l) =>
      mapM (λ x, match x with
                 | PDict d => match from_dict other_iso d with Ok c => Some c | Err _ => None end
                 | _ => None end) l
  | _ => None
  end.

(** Every call sees the database as its session shows it, [st]; sessions
    commit later, and others write to it too.  [missed] when [get] raises, or
    found nothing and something was stored before the database was asked. *)
Definition service_list (missed : bool) (project user : string) (limit offset : nat) (s : option ConversationStatus)
    st v : agent_service * list Conversation :=
  let key := ListKey project s offset limit in
  let hit := if missed then None else
    c ← redis_client v; x ← redis_get key (clock v) c;
    match x with ListText text => decode_list text | CountText _ => None end in
  match hit with
  | Some cs => (v, cs)
  | None =>
      let cs := list_conversations project user limit offset s st in
      (await (SetKey key (ListText (encode_list cs))) v, cs)
  end.
Definition service_count (missed : bool) (project : string) (s : option ConversationStatus) st v
    : agent_service * nat :=
  let key := CountKey project s in
  let hit := if missed then None else
    c ← redis_client v; x ← redis_get key (clock v) c;
    match x with CountText n => Some n | ListText _ => None end in
  match hit with
  | Some n => (v, n)
  | None => let n := count_conversations project s st in (await (SetKey key (CountText n)) v, n)
  end.
Definition service_create (now : Z) (fresh project user tenant : string) (t : option string) (config : option dict)
    (workspace : option string) st v : agent_service * (St * Conversation) :=
  let r := create_conversation now fresh project user tenant t config workspace st in
  (await (invalidate_conv_cache project) v, r).
Definition service_delete (cid project user : string) st v : agent_service * (St * bool) :=
  let r := delete_conversation cid project user st in
  ((if r.2 then await (invalidate_conv_cache project) v else v), r).
Definition service_update_title (now : Z) (cid project user t : string) st v
    : agent_service * (St * option Conversation) :=
  let r := update_conversation_title now cid project user t st in
  ((if r.2 then await (invalidate_conv_cache project) v else v), r).

(** A call of the services up to where it awaits Redis; the next command of the
    [i]th call that does; its command that raises, with or without effect, and
    whose exception ends the call's use of Redis; a value Redis drops; time. *)
Inductive service_event : Type :=
  | CreateConv (now : Z) (fresh project user tenant : string) (t : option string) (config : option dict)
      (workspace : option string) st
  | DeleteConv (cid project user : string) st
  | RenameConv (now : Z) (cid project user t : string) st
  | ListConv (missed : bool) (project user : string) (limit offset : nat) (s : option ConversationStatus) st
  | CountConv (missed : bool) (project : string) (s : option ConversationStatus) st
  | Proceed (i : nat)
  | Raise (i : nat) (done : bool)
  | Forget (k : cache_key)
  | Elapse (d : N).
Definition service_step v (e : service_event) : agent_service :=
  match e with
  | CreateConv now fresh p u tenant t config w st => (service_create now fresh p u tenant t config w st v).1
  | DeleteConv cid p u st => (service_delete cid p u st v).1
  | RenameConv now cid p u t st => (service_update_title now cid p u t st v).1
  | ListConv missed p u limit offset s st => (service_list missed p u limit offset s st v).1
  | CountConv missed p s st => (service_count missed p s st v).1
  | Proceed i =>
      match redis_client v, pending v !! i with
      | Some c, Some t =>
          let '(c', rest) := send_command t (clock v) c in
          mkService (Some c') (clock v) (match rest with Some t' => <[i := t']> (pending v) | None => base.delete i (pending v) end)
      | _, _ => v
      end
  | Raise i done =>
      match redis_client v, pending v !! i with
      | Some c, Some t =>
          mkService (Some (if done then (send_command t (clock v) c).1 else c)) (clock v) (base.delete i (pending v))
      | _, _ => v
      end
  | Forget k => mkService (redis_delete [k] <$> redis_client v) (clock v) (pending v)
  | Elapse d => mkService (redis_client v) (clock v + Z.of_N d)%Z (pending v)
  end.
Definition run_service (es : list service_event) v : agent_service := foldl service_step v es.
End service.
Arguments service_event St : clear implicits.
(** A call that nothing disturbs, from its next command on. *)
Fixpoint alone (fuel : nat) (t : option command) (now : Z) (c : conv_cache) : conv_cache * option command :=
  match fuel, t with
  | S fuel', Some t' => let '(c', rest) := send_command t' now c in alone fuel' rest now c'
  | _, _ => (c, t)
  end.

(** * Titles have a length *)

Lemma rstrip_of_length p s : String.length (rstrip_of p s) ≤ String.length s.
Proof.
  induction s as [|a s IH]; simpl; [done|]. destruct (rstrip_of p s); [destruct (p a); simpl; lia|]. simpl in *. lia.
Qed.
Lemma rstrip_length s : String.length (rstrip s) ≤ String.length s.
Proof.
  induction s as [|a s IH]; simpl; [done|]. destruct (rstrip s); [destruct (is_space a); simpl; lia|]. simpl in *. lia.
Qed.
Lemma slice_length n s : String.length (slice n s) = n `min` String.length s.
Proof.
  unfold slice. revert n. induction s as [|a s IH]; intros [|n]; simpl; try done. by rewrite IH.
Qed.
Lemma string_app_length s t : String.length (s ++ t)%string = String.length s + String.length t.
Proof. induction s as [|a s IH]; simpl; [done|]. by rewrite IH. Qed.
Lemma truthy_length s : truthy s = true → 0 < String.length s.
Proof. rewrite truthy_true. destruct s; simpl; [done|lia]. Qed.
Definition titled (s : string) : Prop := 0 < String.length s ≤ 50.

Lemma normalized_length raw : String.length (normalize_generated_title raw) ≤ 50.
Proof.
  unfold normalize_generated_title. cbv zeta. set (t := strip (rstrip_of _ _)). clearbody t.
  destruct (Nat.ltb_spec 50 (String.length t)) as [Hl|Hl]; [|done].
  rewrite string_app_length. pose proof (rstrip_length (slice 47 t)). rewrite slice_length in *. simpl. lia.
Qed.
Lemma rfind_space_bound s i : rfind_space s = Some i → i < String.length s.
Proof.
  revert i. induction s as [|a s IH]; intros i; simpl; [done|].
  destruct (rfind_space s) as [j|]; [intros [= <-]; specialize (IH j eq_refl); lia|].
  destruct (Ascii.eqb a _); [intros [= <-]; lia|done].
Qed.
Lemma fallback_titled msg : titled (generate_fallback_title msg).
Proof.
  unfold generate_fallback_title, titled. cbv zeta. generalize (strip msg). intros t.
  destruct (Nat.ltb_spec 40 (String.length t)) as [Hl|Hl].
  - set (u := match rfind_space (slice 40 t) with Some i => _ | None => _ end).
    assert (String.length u ≤ 40) as Hu.
    { subst u. destruct (rfind_space _) as [i|]; [destruct (20 <? i)|]; rewrite ?slice_length; lia. }
    clearbody u. assert (String.length (u ++ "...")%string = String.length u + 3) as Ha by by rewrite string_app_length.
    destruct (truthy _) eqn:E; [lia|]. simpl. lia.
  - destruct (truthy t) eqn:E; [apply truthy_length in E; lia|]. simpl. lia.
Qed.

(** Whatever the LLM answers and however often it raises, a conversation
    gets a title of one to fifty characters. *)
Theorem title_bounds llm first_message :
  0 < String.length (generate_conversation_title llm first_message) ≤ 50.
Proof.
  assert (∀ n, titled (try_titles n llm first_message)) as Ht; [|apply Ht].
  induction n as [|n IH]; [apply fallback_titled|]. cbn [try_titles]. destruct (llm n) as [answer|]; [|exact IH].
  destruct (truthy _) eqn:E; [|apply fallback_titled].
  split; [by apply truthy_length|apply normalized_length].
Qed.

(** * Who reaches a conversation *)

Section access.
Context {St Event Execution : Type} `{ConversationRepository St Event Execution}.
Implicit Types (st : St).

Lemma is_owner_true p u c : is_owner p u c = true ↔ project_id c = p ∧ user_id c = u.
Proof. unfold is_owner. by rewrite andb_true_iff, !bool_decide_eq_true. Qed.

(** A conversation is read, renamed and deleted through its id by its own
    user in its own project and by nobody else; but the lists and counts of a
    project are the same for every user. *)
Theorem access_by_owner cid c p u st : find_by_id cid st = Some c →
  get_conversation cid p u st = (if is_owner p u c then Some c else None) ∧
  (∀ limit, get_conversation_messages cid p u limit st = if is_owner p u c then message_events cid limit st else []) ∧
  (∀ limit, get_execution_history cid p u limit st =
     if is_owner p u c then Ok (list_executions cid limit st) else Err NoPermission) ∧
  (∀ now t, update_conversation_title now cid p u t st =
     if is_owner p u c then (save (update_title now c t) st, Some (update_title now c t)) else (st, None)) ∧
  delete_conversation cid p u st =
    (if is_owner p u c then (delete_row cid (delete_by_conversation cid st), true) else (st, false)) ∧
  (∀ u' limit offset s, list_conversations p u limit offset s st = list_conversations p u' limit offset s st).
Proof.
  intros Hc. unfold get_conversation, get_conversation_messages, get_execution_history, update_conversation_title,
    delete_conversation. rewrite Hc. cbn [mbind option_bind]. by destruct (is_owner p u c).
Qed.
End access.

(** * An invalidation that nothing disturbs *)

(** The entries the deletion of what a scan found leaves. *)
Lemma filter_ext_in {A} (P Q : A → Prop) `{!∀ x, Decision (P x), !∀ x, Decision (Q x)} (l : list A) :
  (∀ x, x ∈ l → P x ↔ Q x) → filter P l = filter Q l.
Proof.
  induction l as [|x l IH]; intros Hl; [done|]. rewrite !filter_cons.
  rewrite IH by (intros y Hy; by apply Hl, list_elem_of_further).
  pose proof (Hl x (list_elem_of_here _ _)). repeat case_decide; tauto.
Qed.
Lemma redis_delete_scan prefix p c :
  redis_delete (scan_keys prefix p c) c = filter (λ kv, ¬ matches prefix p kv.1) c.
Proof.
  apply filter_ext_in. intros kv Hkv. unfold scan_keys. rewrite list_elem_of_filter.
  assert (kv.1 ∈ c.*1) by by apply list_elem_of_fmap_2. tauto.
Qed.
Lemma redis_delete_nil c : redis_delete [] c = c.
Proof.
  unfold redis_delete. induction c as [|kv c IH]; [done|]. rewrite filter_cons_True by apply not_elem_of_nil. by f_equal.
Qed.
Lemma redis_delete_app ks ks' c : redis_delete ks' (redis_delete ks c) = redis_delete (ks ++ ks') c.
Proof.
  unfold redis_delete. rewrite list_filter_filter. apply filter_ext_in. intros kv _. rewrite elem_of_app. tauto.
Qed.
Lemma alone_none fuel now c : alone fuel None now c = (c, None).
Proof. by destruct fuel. Qed.
Lemma alone_delete prefix p now ks c :
  ∃ n, n ≤ length ks ∧ ∀ fuel, alone (n + fuel) (delete_rest prefix p ks) now c =
    alone fuel (next_prefix prefix p) now (redis_delete ks c).
Proof.
  remember (length ks) as m eqn:Hm. revert ks c Hm. induction (lt_wf m) as [m _ IH]. intros ks c ->.
  destruct ks as [|k ks].
  - exists 0. split; [done|]. intros fuel. cbn. by rewrite redis_delete_nil.
  - destruct (IH (length (drop 100 (k :: ks)))) with (ks := drop 100 (k :: ks)) (c := redis_delete (take 100 (k :: ks)) c)
      as (n & Hn & Hf); [rewrite length_drop; cbn; lia|done|].
    exists (S n). rewrite length_drop in Hn. split; [cbn in *; lia|]. intros fuel.
    cbn [Nat.add alone delete_rest send_command]. rewrite Hf, redis_delete_app. by rewrite take_drop.
Qed.
Lemma alone_scan prefix p now c :
  ∃ n, n ≤ S (length c) ∧ ∀ fuel, alone (n + fuel) (Some (Scan prefix p)) now c =
    alone fuel (next_prefix prefix p) now (filter (λ kv, ¬ matches prefix p kv.1) c).
Proof.
  destruct (alone_delete prefix p now (scan_keys prefix p c) c) as (n & Hn & Hf). exists (S n). split.
  - unfold scan_keys in Hn. pose proof (length_filter (λ k, matches prefix p k) c.*1). rewrite length_fmap in *. lia.
  - intros fuel. cbn [Nat.add alone send_command]. by rewrite Hf, redis_delete_scan.
Qed.
Definition key_project (k : cache_key) : string := match k with ListKey p _ _ _ | CountKey p _ => p end.
Lemma invalidated_alone p now c :
  alone (2 + 2 * length c) (Some (invalidate_conv_cache p)) now c = (filter (λ kv, key_project kv.1 ≠ p) c, None).
Proof.
  destruct (alone_scan ConvList p now c) as (n & Hn & Hf).
  set (c' := filter (λ kv : cache_key * (cache_value * Z), ¬ matches ConvList p kv.1) c) in *.
  destruct (alone_scan ConvCount p now c') as (m & Hm & Hf').
  assert (length c' ≤ length c) by apply length_filter.
  replace (2 + 2 * length c) with (n + (m + (2 + 2 * length c - n - m))) by lia.
  unfold invalidate_conv_cache. rewrite Hf. cbn [next_prefix]. rewrite Hf'. cbn [next_prefix]. rewrite alone_none.
  f_equal. unfold c'. rewrite list_filter_filter. apply filter_ext_in. intros [[p' s o l|p' s] ve] _; cbn;
    rewrite ?bool_decide_spec; naive_solver.
Qed.

(** * How old an answer is *)

Section cache.
Context {St Event Execution : Type} `{ConversationRepository St Event Execution}.
Context (other_iso : string → option Z).
Implicit Types (st : St) (v : agent_service) (e : service_event St) (es : list (service_event St)).
Local Notation run := (run_service other_iso).
Local Notation step := (service_step other_iso).

Lemma decode_encode cs : (∀ c, c ∈ cs → stamped c) → decode_list other_iso (encode_list cs) = Some (cached <$> cs).
Proof.
  intros Hcs. unfold decode_list, encode_list. rewrite json_loads_dumps.
  - induction cs as [|c cs IH]; [done|]. cbn [fmap list_fmap mapM].
    rewrite from_to_dict by (apply Hcs, list_elem_of_here). cbn [mbind option_bind].
    by rewrite IH by (intros c' Hc'; apply Hcs, list_elem_of_further, Hc').
  - constructor. intros x (c & -> & _)%list_elem_of_fmap. apply to_dict_wf.
Qed.

(** The key a call asks for, and the database it sees. *)
Definition query e : option (cache_key * St) :=
  match e with
  | ListConv _ p _ limit offset s st => Some (ListKey p s offset limit, st)
  | CountConv _ p s st => Some (CountKey p s, st)
  | _ => None
  end.
Definition db_value (k : cache_key) st : cache_value :=
  match k with
  | ListKey p s offset limit => ListText (encode_list (list_by_project p limit offset s st))
  | CountKey p s => CountText (count_by_project p s st)
  end.
(** The command an event brings to Redis. *)
Definition sent e v : option command :=
  match e with
  | Proceed i | Raise i true => match redis_client v with Some _ => pending v !! i | None => None end
  | _ => None
  end.
Definition removes e v (k : cache_key) : Prop :=
  match sent e v with
  | Some (DeleteKeys _ _ ks) => k ∈ take 100 ks
  | _ => match e with Forget k' => k = k' | _ => False end
  end.
(** A call asked for [k], [st'] answered, and the answer was stored when it
    was [at] o'clock and has not been removed since. *)
Definition asked es (k : cache_key) st' : Prop := ∃ es1 a es2, es = es1 ++ a :: es2 ∧ query a = Some (k, st').
Definition stored es v0 (k : cache_key) st' (at_ : Z) : Prop :=
  ∃ es1 e es2, es = es1 ++ e :: es2 ∧ asked es1 k st' ∧ sent e (run es1 v0) = Some (SetKey k (db_value k st')) ∧
    clock (run es1 v0) = at_ ∧ ∀ es3 e' es4, es2 = es3 ++ e' :: es4 → ¬ removes e' (run (es1 ++ e :: es3) v0) k.

Lemma run_snoc es e v : run (es ++ [e]) v = step (run es v) e.
Proof. apply foldl_snoc. Qed.
Lemma await_pending t t' v : t' ∈ pending (await t v) → t' = t ∨ t' ∈ pending v.
Proof.
  unfold await. destruct (redis_client v); cbn; [|by right]. rewrite elem_of_app, list_elem_of_singleton. tauto.
Qed.
Lemma rest_not_set t now c k x : (send_command t now c).2 ≠ Some (SetKey k x).
Proof. by destruct t as [| [] p|[] p ks]; cbn; unfold delete_rest; try case_match. Qed.
Lemma elem_of_delete_list (l : list command) i t : t ∈ base.delete i l → t ∈ l.
Proof. intros Ht. eapply elem_of_sublist; [exact Ht|apply sublist_delete]. Qed.

(** What waits to be stored was there or is what the event's query answers. *)
Lemma step_pending v e k x : SetKey k x ∈ pending (step v e) →
  SetKey k x ∈ pending v ∨ ∃ st, query e = Some (k, st) ∧ x = db_value k st.
Proof.
  destruct e as [now fresh p u tn t cf w st|cid p u st|now cid p u t st|missed p u limit offset s st|missed p s st|i|i d|k'|d]; cbn.
  - intros [[=]|?]%await_pending. by left.
  - unfold service_delete. cbn. case_match; [|by left]. intros [[=]|?]%await_pending. by left.
  - unfold service_update_title. cbn. case_match; [|by left]. intros [[=]|?]%await_pending. by left.
  - unfold service_list. case_match; [by left|]. intros [[= -> ->]|?]%await_pending; [right; eauto|by left].
  - unfold service_count. case_match; [by left|]. intros [[= -> ->]|?]%await_pending; [right; eauto|by left].
  - destruct (redis_client v) as [c|]; [|by left]. destruct (pending v !! i) as [t|]; [|by left].
    destruct (send_command t (clock v) c) as [c' rest] eqn:Hs. cbn. left. destruct rest as [t'|].
    + apply list_elem_of_lookup in H0 as [j Hj]. destruct (decide (i = j)) as [->|Hij].
      * apply list_lookup_insert_Some in Hj as [(_ & Hx & _)|[? _]]; [|done]. destruct (rest_not_set t (clock v) c k x). by rewrite Hs, Hx.
      * rewrite list_lookup_insert_ne in Hj by done. by eapply list_elem_of_lookup_2.
    + by eapply elem_of_delete_list.
  - destruct (redis_client v) as [c|]; [|by left]. destruct (pending v !! i) as [t|]; [|by left]. cbn.
    left. by eapply elem_of_delete_list.
  - by left.
  - by left.
Qed.
Lemma dget_redis_delete ks k (c : conv_cache) ve : dget k (redis_delete ks c) = Some ve → dget k c = Some ve ∧ k ∉ ks.
Proof.
  unfold redis_delete. rewrite (dget_key_filter (λ k, k ∉ ks)). by case_decide.
Qed.
Lemma send_entry t now c k ve : dget k (send_command t now c).1 = Some ve →
  dget k c = Some ve ∧ (∀ prefix p ks, t = DeleteKeys prefix p ks → k ∉ take 100 ks) ∨
  t = SetKey k ve.1 ∧ ve.2 = (now + conv_list_cache_ttl)%Z.
Proof.
  destruct t as [k' x|prefix p|prefix p ks]; cbn.
  - unfold redis_set. rewrite dget_dset. case_decide as Hk; [intros [= <-]; subst; by right|by left].
  - by left.
  - intros [??]%dget_redis_delete. left. split; [done|]. by intros ??? [= -> -> ->].
Qed.
(** An entry was there and stays, or is stored now. *)
Lemma step_entry v e c' k ve : redis_client (step v e) = Some c' → dget k c' = Some ve →
  (∃ c, redis_client v = Some c ∧ dget k c = Some ve ∧ ¬ removes e v k) ∨
  sent e v = Some (SetKey k ve.1) ∧ ve.2 = (clock v + conv_list_cache_ttl)%Z.
Proof.
  assert (Ha : ∀ t, redis_client (await t v) = redis_client v) by (intros t; unfold await; by case_match).
  destruct e as [now fresh p u tn t cf w st|cid p u st|now cid p u t st|missed p u limit offset s st|missed p s st|i|i d|k'|d]; cbn.
  - rewrite Ha. left. exists c'. auto.
  - unfold service_delete. cbn. case_match; rewrite ?Ha; left; exists c'; auto.
  - unfold service_update_title. cbn. case_match; rewrite ?Ha; left; exists c'; auto.
  - unfold service_list. case_match; cbn; rewrite ?Ha; left; exists c'; auto.
  - unfold service_count. case_match; cbn; rewrite ?Ha; left; exists c'; auto.
  - unfold removes, sent. destruct (redis_client v) as [c|] eqn:Hc; [|by rewrite Hc].
    destruct (pending v !! i) as [t|] eqn:Ht; [|rewrite Hc; left; exists c'; auto].
    pose proof (send_entry t (clock v) c k ve) as Hs. destruct (send_command t (clock v) c) as [c1 rest]. cbn in *.
    intros [= <-] Hk. apply Hs in Hk as [[Hk Hn]|[-> Hk]]; [left|by right]. exists c. split; [done|]. split; [done|].
    destruct t; naive_solver.
  - unfold removes, sent. destruct (redis_client v) as [c|] eqn:Hc; [|by rewrite Hc].
    destruct (pending v !! i) as [t|] eqn:Ht; [|rewrite Hc; left; exists c'; destruct d; auto].
    cbn. intros [= <-]. destruct d; cbn; [|left; exists c; auto]. intros Hk.
    apply send_entry in Hk as [[Hk Hn]|[-> Hk]]; [left|by right]. exists c. split; [done|]. split; [done|].
    destruct t; naive_solver.
  - unfold removes, sent. destruct (redis_client v) as [c|]; [|done]. cbn. intros [= <-] Hk.
    apply dget_redis_delete in Hk as [Hk Hn]. left. exists c. split; [done|]. split; [done|]. intros ->. apply Hn, list_elem_of_here.
  - left. exists c'. auto.
Qed.

Lemma asked_snoc es e k st : asked es k st → asked (es ++ [e]) k st.
Proof. intros (es1 & a & es2 & -> & Ha). exists es1, a, (es2 ++ [e]). by rewrite <- app_assoc. Qed.
Lemma stored_snoc es e v0 k st at_ : stored es v0 k st at_ → ¬ removes e (run es v0) k → stored (es ++ [e]) v0 k st at_.
Proof.
  intros (es1 & e0 & es2 & -> & Ha & Hs & Hc & Hn) Hr. exists es1, e0, (es2 ++ [e]). rewrite <- app_assoc. split_and!; try done.
  intros es3 e' es4 He. destruct es4 as [|e5 es4 _] using rev_ind.
  - apply app_inj_tail in He as [-> ->]. done.
  - rewrite app_comm_cons, app_assoc in He. apply app_inj_tail in He as [-> ->]. by eapply Hn.
Qed.
(** What waits to be stored was asked; what is stored was asked and stored. *)
Lemma cache_history es v0 : pending v0 = [] → (∀ c, redis_client v0 = Some c → c = []) →
  (∀ k x, SetKey k x ∈ pending (run es v0) → ∃ st, asked es k st ∧ x = db_value k st) ∧
  (∀ c k ve, redis_client (run es v0) = Some c → dget k c = Some ve →
     ∃ st at_, stored es v0 k st at_ ∧ ve = (db_value k st, at_ + conv_list_cache_ttl)%Z).
Proof.
  intros Hp Hc. induction es as [|e es [IHp IHc]] using rev_ind.
  - cbn. rewrite Hp. split; [by intros k x ?%elem_of_nil|]. intros c k ve ->%Hc. done.
  - rewrite run_snoc. split.
    + intros k x [Hx|(st & Hq & ->)]%step_pending.
      * destruct (IHp _ _ Hx) as (st & Ha & ->). exists st. eauto using asked_snoc.
      * exists st. split; [|done]. by exists es, e, [].
    + intros c' k ve Hc' Hk. destruct (step_entry _ _ _ _ _ Hc' Hk) as [(c & Hr & Hd & Hn)|[Hs Ht]].
      * destruct (IHc c k ve Hr Hd) as (st & at_ & Hst & ->). exists st, at_. eauto using stored_snoc.
      * assert (SetKey k ve.1 ∈ pending (run es v0)) as Hin.
        { unfold sent in Hs. repeat case_match; try done; by eapply list_elem_of_lookup_2. }
        destruct (IHp _ _ Hin) as (st & Ha & Hx). exists st, (clock (run es v0)). destruct ve as [x tm]. cbn in *. subst.
        split; [|done]. exists es, e, []. split_and!; try done. by intros [|??] ??.
Qed.

(** The project whose conversations a call changes. *)
Definition changes e : option string :=
  match e with
  | CreateConv _ _ p _ _ _ _ _ _ => Some p
  | DeleteConv cid p u st | RenameConv _ cid p u _ st =>
      c ← find_by_id cid st; if is_owner p u c then Some (project_id c) else None
  | _ => None
  end.
Lemma changes_awaits v c e p : redis_client v = Some c → changes e = Some p →
  step v e = mkService (Some c) (clock v) (pending v ++ [invalidate_conv_cache p]).
Proof.
  intros Hc. destruct v as [r cl pe]. cbn in Hc. subst r. destruct e; cbn; try done.
  - by intros [= ->].
  - unfold service_delete, delete_conversation. rewrite bind_Some. intros (c0 & -> & Hp). destruct (is_owner _ _ c0) eqn:Ho; [|done].
    apply is_owner_true in Ho as [Ho _]. injection Hp as <-. by rewrite <- Ho.
  - unfold service_update_title, update_conversation_title. rewrite bind_Some. intros (c0 & -> & Hp).
    destruct (is_owner _ _ c0) eqn:Ho; [|done]. apply is_owner_true in Ho as [Ho _]. injection Hp as <-. by rewrite <- Ho.
Qed.

(** C38. From an empty cache, and over databases whose instants are datetimes,
    however the calls of the services, the commands they send to Redis and its
    failures interleave, and whatever others do to the database: a
    list is the one the call's database gives, or what a dictionary keeps of
    the one an earlier call's database gave, and a count likewise, stored less
    than thirty seconds ago and not removed since.  A call that changes a
    conversation goes on to an invalidation that, when nothing disturbs it,
    deletes exactly what is stored for the project. *)
Theorem cached_answers_recent es v0 :
  pending v0 = [] → (∀ c, redis_client v0 = Some c → c = []) →
  (∀ e k st p limit offset s c, e ∈ es → query e = Some (k, st) → c ∈ list_by_project p limit offset s st → stamped c) →
  let v := run es v0 in
  (∀ missed p u limit offset s st, let cs := (service_list other_iso missed p u limit offset s st v).2 in
     cs = list_by_project p limit offset s st ∨
     ∃ st' at_, stored es v0 (ListKey p s offset limit) st' at_ ∧ (clock v < at_ + 30000000)%Z ∧
       cs = cached <$> list_by_project p limit offset s st') ∧
  (∀ missed p s st, let n := (service_count missed p s st v).2 in
     n = count_by_project p s st ∨
     ∃ st' at_, stored es v0 (CountKey p s) st' at_ ∧ (clock v < at_ + 30000000)%Z ∧ n = count_by_project p s st') ∧
  (∀ e p c, redis_client v = Some c → changes e = Some p →
     ∃ t, step v e = mkService (Some c) (clock v) (pending v ++ [t]) ∧
       alone (2 + 2 * length c) (Some t) (clock v) c = (filter (λ kv, key_project kv.1 ≠ p) c, None)).
Proof.
  intros Hp0 Hc0 Hst v. destruct (cache_history es v0 Hp0 Hc0) as [_ Hh]. fold v in Hh.
  assert (Hget : ∀ c k x, redis_client v = Some c → redis_get k (clock v) c = Some x →
    ∃ st' at_, stored es v0 k st' at_ ∧ (clock v < at_ + 30000000)%Z ∧ x = db_value k st').
  { intros c k x Hc. unfold redis_get. rewrite bind_Some. intros ([y tm] & Hk & Hx). cbn in Hx.
    destruct (clock v <? tm)%Z eqn:Hlt; [|done]. injection Hx as <-. apply Z.ltb_lt in Hlt.
    destruct (Hh c k _ Hc Hk) as (st' & at_ & Hs & [= -> ->]). by exists st', at_. }
  split_and!.
  - intros missed p u limit offset s st. unfold service_list. case_match eqn:Hhit; [|by left]. right.
    destruct missed; [done|]. apply bind_Some in Hhit as (c & Hc & (x & Hx & Hhit)%bind_Some).
    destruct (Hget c _ x Hc Hx) as (st' & at_ & Hs & Ht & ->). exists st', at_. split; [done|]. split; [done|].
    cbn [db_value snd] in Hhit |- *. rewrite decode_encode in Hhit; [congruence|]. intros c' Hc'.
    destruct Hs as (es1 & e & es2 & -> & (es3 & a & es4 & -> & Hq) & _). eapply Hst; [|exact Hq|exact Hc'].
    rewrite <- app_assoc. apply elem_of_app. right. apply list_elem_of_here.
  - intros missed p s st. unfold service_count. case_match eqn:Hhit; [|by left]. right.
    destruct missed; [done|]. apply bind_Some in Hhit as (c & Hc & (x & Hx & Hhit)%bind_Some).
    destruct (Hget c _ x Hc Hx) as (st' & at_ & Hs & Ht & ->). exists st', at_. cbn in *. by simplify_eq.
  - intros e p c Hc He. exists (invalidate_conv_cache p). split; [by apply changes_awaits|apply invalidated_alone].
Qed.
End cache.


(** * A repository in memory *)

Notation memory := (gmap string Conversation).
Definition in_project (p : string) (kc : string * Conversation) : Prop := conv_id kc.2 = kc.1 ∧ project_id kc.2 = p.
Definition has_status (s : option ConversationStatus) (c : Conversation) : Prop :=
  match s with Some x => conv_status c = x | None => True end.
#[export] Instance in_project_dec p kc : Decision (in_project p kc).
Proof. unfold in_project. apply _. Defined.
#[export] Instance has_status_dec s c : Decision (has_status s c).
Proof. destruct s; cbn; apply _. Defined.
Definition project_rows (p : string) (s : option ConversationStatus) (st : memory) : list Conversation :=
  filter (has_status s) (snd <$> map_to_list (filter (in_project p) st)).
#[export] Instance memory_repository : ConversationRepository memory string string := {
  find_by_id := λ i (st : memory), c ← st !! i; if decide (conv_id c = i) then Some c else None;
  save := λ c (st : memory), <[conv_id c := c]> st;
  delete_row := λ i (st : memory), base.delete i st;
  list_by_project := λ p limit offset s st, take limit (drop offset (project_rows p s st));
  count_by_project := λ p s st, length (project_rows p s st);
  message_events := λ i _ (st : memory), if st !! i then ["hello"] else [];
  list_executions := λ _ _ _, [];
  delete_by_conversation := λ _ st, st;
}.

(** * Witnesses *)

Definition two_users : memory :=
  (create_conversation 63870000000000000 "c2" "p" "bob" "t" (Some "Salaries") None None
    (create_conversation 63870000000000000 "c1" "p" "alice" "t" None None None ∅).1).1.
Example title_of_last_attempt : generate_conversation_title (λ n, if n =? 0 then Some "Title: 'Fix it'." else None) "hello" = "'Fix it'".
Proof. reflexivity. Qed.
Lemma access_by_owner_witness :
  get_conversation "c2" "p" "alice" two_users = None ∧
  conv_id <$> list_conversations "p" "alice" 50 0 None two_users = ["c1"; "c2"].
Proof.
  destruct (find_by_id "c2" two_users) as [c|] eqn:Hc; [|discriminate (eq_trans (eq_sym Hc) eq_refl)].
  split; [|vm_compute; reflexivity].
  by rewrite (proj1 (access_by_owner "c2" c "p" "alice" two_users Hc)); vm_compute in Hc; injection Hc as <-.
Defined.

(** Alice's list is stored; Bob creates a conversation, and Redis fails when
    his call scans its keys. *)
Definition one_user : memory := (create_conversation 63870000000000000 "c1" "p" "alice" "t" None None None ∅).1.
Lemma memory_listed p limit offset s (st : memory) c : c ∈ list_by_project p limit offset s st → ∃ i, st !! i = Some c.
Proof.
  intros Hc. cbn in Hc.
  assert (c ∈ project_rows p s st) as Hin.
  { eapply elem_of_sublist; [exact Hc|]. etrans; [apply sublist_take|apply sublist_drop]. }
  apply list_elem_of_filter in Hin as [_ Hin]. apply list_elem_of_fmap in Hin as ([i c'] & -> & Hin).
  apply elem_of_map_to_list, map_lookup_filter_Some in Hin as [Hin _]. by exists i.
Qed.
Lemma one_user_stamped p limit offset s c : c ∈ list_by_project p limit offset s one_user → stamped c.
Proof.
  intros [i Hi]%memory_listed. unfold one_user in Hi. cbn in Hi.
  apply lookup_insert_Some in Hi as [[_ <-]|[_ Hi]]; [|by rewrite lookup_empty in Hi].
  split; cbn; [unfold in_range, max_instant; lia|by intros t [=]].
Qed.
Definition no_entries : agent_service := mkService (Some []) 0 [].
Definition failing_redis : list (service_event memory) :=
  [ListConv false "p" "alice" 50 0 None one_user; Proceed 0;
   CreateConv 63870000000000000 "c2" "p" "bob" "t" (Some "Salaries") None None one_user; Raise 0 false; Elapse 29999999].
(** A list is read from the database before the creation and stored after
    its invalidation. *)
Definition late_store : list (service_event memory) :=
  [ListConv false "p" "alice" 50 0 None one_user;
   CreateConv 63870000000000000 "c2" "p" "bob" "t" (Some "Salaries") None None one_user; Proceed 1; Proceed 1; Proceed 0].
Definition listed (es : list (service_event memory)) : list string :=
  conv_id <$> (service_list (λ _, None) false "p" "alice" 50 0 None two_users (run_service (λ _, None) es no_entries)).2.
Example listed_stale : listed failing_redis = ["c1"] ∧ listed (failing_redis ++ [Elapse 1]) = ["c1"; "c2"] ∧
  listed late_store = ["c1"] ∧ listed (late_store ++ [Elapse 30000000]) = ["c1"; "c2"].
Proof. by vm_compute. Qed.
Lemma cached_answers_recent_witness :
  listed failing_redis = ["c1"] ∧
  ∃ st' at_, stored (λ _, None) failing_redis no_entries (ListKey "p" None 0 50) st' at_ ∧ (29999999 < at_ + 30000000)%Z.
Proof.
  split; [vm_compute; reflexivity|].
  destruct (cached_answers_recent (λ _, None) failing_redis no_entries) as [Hl _].
  - reflexivity.
  - intros c [= <-]. reflexivity.
  - intros e k st p limit offset s c He Hq Hc. unfold failing_redis in He.
    repeat (apply elem_of_cons in He as [->|He]; [try discriminate Hq|]); [|by apply elem_of_nil in He].
    injection Hq as <- <-. apply (one_user_stamped p limit offset s c Hc).
  - destruct (Hl false "p" "alice" 50 0 None two_users) as [Hd|(st' & at_ & Hs & Ht & _)].
    + apply (f_equal length) in Hd. vm_compute in Hd. discriminate Hd.
    + by exists st', at_.
Defined.
