(* ===== verification/Termination.v ===== *)
(** When a conversation ends, and when it waits for a human.

    Sources: src/src/domain/model/agent/conversation/termination.py,
    verdict_status.py and hitl_policy.py beside it,
    src/src/application/services/agent/termination_service.py and
    workspace_termination_resolver.py beside it.  A float is a rational, an
    infinity or not a number, without rounding; [float] of a text and the rendering of the budget
    rationales, which format floats, are left out (a parameter, a constructor). *)

From Stdlib Require Import QArith.
From S2P Require Import Prelude PyText Conversation.

Open Scope string_scope.
Open Scope list_scope.
Open Scope nat_scope.

(** * Reasons, verdicts, counters *)

Inductive TerminationReason : Set :=
  | GOAL_COMPLETED | BUDGET_TURNS | BUDGET_USD | BUDGET_WALL_SECONDS | SAFETY_LOOPING | SAFETY_DOOM_LOOP | USER_CANCEL.
#[export] Instance TerminationReason_eq_dec : EqDecision TerminationReason.
Proof. solve_decision. Defined.
Definition reason_value (r : TerminationReason) : string :=
  match r with
  | GOAL_COMPLETED => "goal_completed" | BUDGET_TURNS => "budget_turns" | BUDGET_USD => "budget_usd"
  | BUDGET_WALL_SECONDS => "budget_wall_seconds" | SAFETY_LOOPING => "safety_looping"
  | SAFETY_DOOM_LOOP => "safety_doom_loop" | USER_CANCEL => "user_cancel"
  end.
Definition gate (r : TerminationReason) : string :=
  match r with
  | GOAL_COMPLETED => "goal"
  | BUDGET_TURNS | BUDGET_USD | BUDGET_WALL_SECONDS => "budget"
  | SAFETY_LOOPING | SAFETY_DOOM_LOOP => "safety"
  | USER_CANCEL => "user"
  end.

Inductive VerdictStatus : Set := HEALTHY | STALLED | LOOPING | GOAL_DRIFT | BUDGET_RISK.
#[export] Instance VerdictStatus_eq_dec : EqDecision VerdictStatus.
Proof. solve_decision. Defined.
Definition verdict_value (v : VerdictStatus) : string :=
  match v with
  | HEALTHY => "healthy" | STALLED => "stalled" | LOOPING => "looping"
  | GOAL_DRIFT => "goal_drift" | BUDGET_RISK => "budget_risk"
  end.
Definition verdict_of (s : string) : option VerdictStatus :=
  head (filter (λ v, verdict_value v = s) [HEALTHY; STALLED; LOOPING; GOAL_DRIFT; BUDGET_RISK]).
Definition is_actionable (v : VerdictStatus) : bool := negb (bool_decide (v = HEALTHY)).

(** [x >= y] for a finite [x] *)
Definition at_least (x : Q) (y : float) : bool :=
  match y with Fin q => Qle_bool q x | Inf positive => negb positive | Nan => false end.
Record BudgetCounters : Type := mkCounters { turns : Z; usd : Q; wall_seconds : Z }.
Definition no_counters : BudgetCounters := mkCounters 0 0 0.
(** [BudgetCounters(...)]; the name of the field that is negative. *)
Definition new_counters (t : Z) (u : Q) (w : Z) : result string BudgetCounters :=
  if bool_decide (t < 0)%Z then Err "turns"
  else if negb (Qle_bool 0 u) then Err "usd"
  else if bool_decide (w < 0)%Z then Err "wall_seconds"
  else Ok (mkCounters t u w).

(** The rationale: the numbers it is formatted from, or the text. *)
Inductive rationale : Type :=
  | TurnsReached (n max : Z)
  | UsdReached (x : Q) (max : float)
  | WallReached (n max : Z)
  | Rationale (text : string).
Record TerminationDecision : Type := mkDecision {
  reason : TerminationReason;
  actor : string;
  why : rationale;
  triggered_by_event : string;
  decision_metadata : list (string * string);
}.
Definition user_cancel (who text : string) : TerminationDecision :=
  mkDecision USER_CANCEL who (Rationale text) "" [].

(** * The gates *)

Definition evaluate_budget (max_turns : option Z) (max_usd : option float) (max_wall_seconds : option Z)
    (k : BudgetCounters) : option TerminationDecision :=
  let over_turns := m ← max_turns; if (m <=? turns k)%Z then Some (TurnsReached (turns k) m) else None in
  let over_usd := m ← max_usd; if at_least (usd k) m then Some (UsdReached (usd k) m) else None in
  let over_wall := m ← max_wall_seconds;
                   if (m <=? wall_seconds k)%Z then Some (WallReached (wall_seconds k) m) else None in
  match over_turns, over_usd, over_wall with
  | Some w, _, _ => Some (mkDecision BUDGET_TURNS "system" w "" [])
  | None, Some w, _ => Some (mkDecision BUDGET_USD "system" w "" [])
  | None, None, Some w => Some (mkDecision BUDGET_WALL_SECONDS "system" w "" [])
  | None, None, None => None
  end.

(** A verdict is the status or its text. *)
Definition verdict : Type := string + VerdictStatus.
Definition status_of_verdict (v : verdict) : option VerdictStatus :=
  match v with inl s => verdict_of s | inr x => Some x end.
Definition evaluate_safety (v : option verdict) (doom_loop_triggered : bool) (verdict_rationale supervisor_actor : string)
    : option TerminationDecision :=
  s ← v; s ← status_of_verdict s;
  if bool_decide (s = LOOPING) then
    let text := strip verdict_rationale in
    let text := if truthy text then text
                else if doom_loop_triggered then "doom_loop + supervisor looping" else "supervisor verdict=looping" in
    Some (mkDecision (if doom_loop_triggered then SAFETY_DOOM_LOOP else SAFETY_LOOPING) supervisor_actor
            (Rationale text) "" [])
  else None.

(** * [TerminationService] *)

Record TerminationContext : Type := mkContext {
  ctx_conversation_id : string;
  ctx_user_id : string;
  max_turns : option Z;
  max_usd : option float;
  max_wall_seconds : option Z;
  counters : BudgetCounters;
  latest_verdict : option verdict;
  latest_verdict_rationale : string;
  supervisor_actor : string;
  doom_loop_triggered : bool;
  goal_completed_event_id : string;
  goal_completed_summary : string;
  goal_completed_artifacts : list string;
  goal_completed_actor : string;
}.
Definition evaluate (ctx : TerminationContext) : option TerminationDecision :=
  if truthy (goal_completed_event_id ctx) then
    Some (mkDecision GOAL_COMPLETED
      (if truthy (goal_completed_actor ctx) then goal_completed_actor ctx else "coordinator")
      (Rationale (String.substring 0 500 (strip (goal_completed_summary ctx)))) (goal_completed_event_id ctx)
      [("artifacts", String.concat "," (goal_completed_artifacts ctx))])
  else
    match evaluate_budget (max_turns ctx) (max_usd ctx) (max_wall_seconds ctx) (counters ctx) with
    | Some d => Some d
    | None => evaluate_safety (latest_verdict ctx) (doom_loop_triggered ctx) (latest_verdict_rationale ctx)
                (supervisor_actor ctx)
    end.

(** The values of a terminal state. *)
Inductive state_value : Type :=
  | SvStr (s : string) | SvWhy (w : rationale) | SvInt (z : Z) | SvUsd (x : float) | SvNone
  | SvDict (d : list (string * state_value)).
Definition sv_opt {A} (f : A → state_value) (o : option A) : state_value := from_option f SvNone o.
Definition verdict_text (v : verdict) : string := match v with inl s => s | inr x => verdict_value x end.
Record AgentConversationFinishedEvent : Type := mkFinished {
  fin_conversation_id : string;
  fin_reason : string;
  fin_actor : string;
  fin_rationale : rationale;
  terminal_state : list (string * state_value);
  resumable_state : list (string * state_value);
  fin_metadata : list (string * string);
}.
Definition update_all {A} (d e : list (string * A)) : list (string * A) := foldl (λ d kv, dset kv.1 kv.2 d) d e.
Definition finished_event (ctx : TerminationContext) (d : TerminationDecision)
    (resumable extra : list (string * state_value)) : AgentConversationFinishedEvent :=
  let k := counters ctx in
  let st :=
    [("reason", SvStr (reason_value (reason d))); ("gate", SvStr (gate (reason d))); ("actor", SvStr (actor d));
     ("rationale", SvWhy (why d));
     ("counters", SvDict [("turns", SvInt (turns k)); ("usd", SvUsd (Fin (usd k))); ("wall_seconds", SvInt (wall_seconds k))]);
     ("budget_caps", SvDict [("max_turns", sv_opt SvInt (max_turns ctx)); ("max_usd", sv_opt SvUsd (max_usd ctx));
                             ("max_wall_seconds", sv_opt SvInt (max_wall_seconds ctx))])] in
  let st := match latest_verdict ctx with
            | None => st
            | Some v =>
                let st := dset "latest_verdict" (SvStr (verdict_text v)) st in
                if truthy (latest_verdict_rationale ctx)
                then dset "latest_verdict_rationale" (SvStr (latest_verdict_rationale ctx)) st else st
            end in
  mkFinished (ctx_conversation_id ctx) (reason_value (reason d)) (actor d) (why d) (update_all st extra) resumable
    (update_all [("triggered_by_event", triggered_by_event d)] (decision_metadata d)).

(** What [finalize] does to the outside: it publishes, then notifies, with the
    artifacts of a completed goal.  [None] when the sink raises; an
    exception of the notifier is swallowed. *)
Inductive effect : Type :=
  | Published (e : AgentConversationFinishedEvent)
  | Delivered (e : AgentConversationFinishedEvent) (artifacts : list string).
Definition finalize (publish_ok deliver_ok : bool) (ctx : TerminationContext) (d : TerminationDecision)
    (resumable extra : list (string * state_value)) : list effect * option AgentConversationFinishedEvent :=
  let e := finished_event ctx d resumable extra in
  if publish_ok then
    (Published e ::
       (if deliver_ok then [Delivered e (match reason d with GOAL_COMPLETED => goal_completed_artifacts ctx | _ => [] end)]
        else []), Some e)
  else ([], None).

(** * Context from a workspace task *)

(** A value of the task's metadata, as [int] and [float] see it. *)
Inductive raw_value : Type :=
  | RawBool (b : bool) | RawInt (z : Z) | RawFloat (x : float) | RawStr (s : string) | RawNone | RawOther.
(** [Err] is the OverflowError of [int(float("inf"))], which is not caught. *)
Definition coerce_int (raw : raw_value) : result unit (option Z) :=
  let positive z := if (0 <? z)%Z then Some z else None in
  match raw with
  | RawBool b => Ok (positive (if b then 1 else 0)%Z)
  | RawInt z => Ok (positive z)
  | RawFloat (Fin q) => Ok (positive (truncate_q q))
  | RawFloat (Inf _) => Err tt
  | RawFloat Nan => Ok None
  | RawStr s => Ok (z ← int_of_string s; positive z)
  | RawNone | RawOther => Ok None
  end.
Definition positive_float (x : float) : option float :=
  match x with Fin q => if negb (Qle_bool q 0) then Some x else None | Inf true => Some x | _ => None end.
Section resolver.
Context (parse_float : string → option float).
Definition coerce_float (raw : raw_value) : option float :=
  match raw with
  | RawBool b => positive_float (Fin (if b then 1 else 0))
  | RawInt z => positive_float (Fin (inject_Z z))
  | RawFloat x => positive_float x
  | RawStr s => x ← parse_float s; positive_float x
  | RawNone | RawOther => None
  end.
Definition raw_get (k : string) (meta : list (string * raw_value)) : raw_value := default RawNone (dget k meta).
(** What a context takes of a [WorkspaceTask]. *)
Record task_view : Type := mkTaskView {
  task_id : string;
  task_done : bool;
  task_title : string;
  assignee_agent_id : option string;
  task_metadata : list (string * raw_value);
}.
Definition build_context_from_task (conversation user : string) (task : option task_view) (k : option BudgetCounters)
    (v : option verdict) (v_rationale supervisor : string) (doom : bool) : result unit TerminationContext :=
  let meta := from_option task_metadata [] task in
  turns_cap ← coerce_int (raw_get "max_turns" meta);
  wall_cap ← coerce_int (raw_get "max_wall_seconds" meta);
  let usd_cap := coerce_float (raw_get "max_usd" meta) in
  let '(event, summ, who) :=
    match task with
    | Some t =>
        if task_done t then
          (("workspace_task:" ++ task_id t ++ ":done")%string,
           (if truthy (strip (task_title t)) then String.substring 0 500 (strip (task_title t)) else "workspace task completed"),
           (if truthy_opt (assignee_agent_id t) then default "" (assignee_agent_id t) else "coordinator"))
        else ("", "", "coordinator")
    | None => ("", "", "coordinator")
    end in
  Ok (mkContext conversation user turns_cap usd_cap wall_cap (default no_counters k) v v_rationale supervisor doom
        event summ [] who).
(** [WorkspaceTerminationResolver.resolve]; [find_by_id] is the task repository. *)
Definition resolve (find_by_id : string → option task_view) (c : Conversation) :=
  build_context_from_task (conv_id c) (user_id c)
    (t ← linked_workspace_task_id c; if truthy t then find_by_id t else None).
End resolver.

(** * Waiting for a human *)

Inductive HitlCategory : Set := BLOCKING_HUMAN_ONLY | PREFERENCE | INFORMATIONAL.
Inductive HitlVisibility : Set := PRIVATE | ROOM.
#[export] Instance HitlCategory_eq_dec : EqDecision HitlCategory.
Proof. solve_decision. Defined.
Definition blocks_conversation (c : HitlCategory) : bool := bool_decide (c = BLOCKING_HUMAN_ONLY).
Record HitlPolicyDecision : Type := mkHitl {
  declared_category : HitlCategory;
  effective_category : HitlCategory;
  visibility : HitlVisibility;
  structurally_upgraded : bool;
  blocking_intersection : list string;
}.
Definition resolve_hitl_visibility (m : ConversationMode) : HitlVisibility :=
  if bool_decide (m ∈ [MULTI_AGENT_SHARED; AUTONOMOUS]) then ROOM else PRIVATE.
(** The intersection is a set: a list without order. *)
Definition resolve_hitl_policy (declared : HitlCategory) (m : ConversationMode)
    (tool_side_effects blocking_categories : option (list string)) : HitlPolicyDecision :=
  let side_effects := default [] tool_side_effects in
  let blocking := default [] blocking_categories in
  match filter (.∈ blocking) (remove_dups side_effects) with
  | [] => mkHitl declared declared (resolve_hitl_visibility m) false []
  | common => mkHitl declared BLOCKING_HUMAN_ONLY (resolve_hitl_visibility m)
                (negb (bool_decide (declared = BLOCKING_HUMAN_ONLY))) common
  end.

(** * The order of the gates *)

(** Which reasons hold in a context, whatever their order. *)
Definition holds (ctx : TerminationContext) (r : TerminationReason) : Prop :=
  let looping := ∃ v, latest_verdict ctx = Some v ∧ status_of_verdict v = Some LOOPING in
  match r with
  | GOAL_COMPLETED => goal_completed_event_id ctx ≠ ""
  | BUDGET_TURNS => ∃ m, max_turns ctx = Some m ∧ (m <= turns (counters ctx))%Z
  | BUDGET_USD => ∃ m, max_usd ctx = Some m ∧ at_least (usd (counters ctx)) m = true
  | BUDGET_WALL_SECONDS => ∃ m, max_wall_seconds ctx = Some m ∧ (m <= wall_seconds (counters ctx))%Z
  | SAFETY_LOOPING => looping ∧ doom_loop_triggered ctx = false
  | SAFETY_DOOM_LOOP => looping ∧ doom_loop_triggered ctx = true
  | USER_CANCEL => False
  end.
Definition gate_order : list TerminationReason :=
  [GOAL_COMPLETED; BUDGET_TURNS; BUDGET_USD; BUDGET_WALL_SECONDS; SAFETY_LOOPING; SAFETY_DOOM_LOOP].
(** [r] is the first of the reasons that holds. *)
Definition first_holding (ctx : TerminationContext) (r : TerminationReason) : Prop :=
  ∃ before after, gate_order = before ++ r :: after ∧ holds ctx r ∧ ∀ r', r' ∈ before → ¬ holds ctx r'.

Definition is_looping (ctx : TerminationContext) : bool :=
  match latest_verdict ctx with
  | Some v => bool_decide (status_of_verdict v = Some LOOPING)
  | None => false
  end.
Definition holdsb (ctx : TerminationContext) (r : TerminationReason) : bool :=
  match r with
  | GOAL_COMPLETED => truthy (goal_completed_event_id ctx)
  | BUDGET_TURNS => from_option (λ m, (m <=? turns (counters ctx))%Z) false (max_turns ctx)
  | BUDGET_USD => from_option (at_least (usd (counters ctx))) false (max_usd ctx)
  | BUDGET_WALL_SECONDS => from_option (λ m, (m <=? wall_seconds (counters ctx))%Z) false (max_wall_seconds ctx)
  | SAFETY_LOOPING => is_looping ctx && negb (doom_loop_triggered ctx)
  | SAFETY_DOOM_LOOP => is_looping ctx && doom_loop_triggered ctx
  | USER_CANCEL => false
  end.
Lemma is_looping_true ctx : is_looping ctx = true ↔ ∃ v, latest_verdict ctx = Some v ∧ status_of_verdict v = Some LOOPING.
Proof.
  unfold is_looping. destruct (latest_verdict ctx) as [v|]; [|naive_solver]. rewrite bool_decide_eq_true. naive_solver.
Qed.
Lemma holdsb_spec ctx r : holdsb ctx r = true ↔ holds ctx r.
Proof.
  destruct r; cbn; rewrite ?truthy_true, ?andb_true_iff, ?negb_true_iff, ?is_looping_true; try done.
  - destruct (max_turns ctx); cbn; rewrite ?Z.leb_le; naive_solver.
  - destruct (max_usd ctx); cbn; naive_solver.
  - destruct (max_wall_seconds ctx); cbn; rewrite ?Z.leb_le; naive_solver.
Qed.
Lemma evaluate_find ctx : reason <$> evaluate ctx = List.find (holdsb ctx) gate_order.
Proof.
  unfold evaluate, evaluate_budget, evaluate_safety, gate_order. cbn [List.find holdsb].
  destruct (truthy _); [done|]. destruct (max_turns ctx) as [m|]; cbn [mbind option_bind from_option].
  1: destruct (m <=? turns (counters ctx))%Z; [done|].
  all: destruct (max_usd ctx) as [x|]; cbn [mbind option_bind from_option].
  all: try (destruct (at_least (usd (counters ctx)) x); [done|]).
  all: destruct (max_wall_seconds ctx) as [w|]; cbn [mbind option_bind from_option].
  all: try (destruct (w <=? wall_seconds (counters ctx))%Z; [done|]).
  all: unfold is_looping; destruct (latest_verdict ctx) as [v|]; cbn [mbind option_bind from_option]; [|done].
  all: destruct (status_of_verdict v) as [s|]; cbn [mbind option_bind]; [|by rewrite bool_decide_eq_false_2].
  all: destruct (decide (s = LOOPING)) as [->|Hs];
    [rewrite !bool_decide_eq_true_2 by done; by destruct (doom_loop_triggered ctx)
    |rewrite !bool_decide_eq_false_2 by congruence; done].
Qed.
Lemma find_split {A} (f : A → bool) l x : List.find f l = Some x ↔
  ∃ l1 l2, l = l1 ++ x :: l2 ∧ f x = true ∧ ∀ y, y ∈ l1 → f y = false.
Proof.
  induction l as [|y l IH]; cbn [List.find].
  - split; [done|]. by intros (l1 & l2 & E & _); destruct l1.
  - destruct (f y) eqn:Hy.
    + split.
      * intros [= <-]. exists [], l. split; [done|]. split; [done|]. by intros ? ?%elem_of_nil.
      * intros (l1 & l2 & E & Hx & Hl). destruct l1 as [|z l1]; [by injection E as ->|].
        injection E as -> ->. by rewrite (Hl z (list_elem_of_here _ _)) in Hy.
    + rewrite IH. split.
      * intros (l1 & l2 & -> & Hx & Hl). exists (y :: l1), l2. split; [done|]. split; [done|].
        by intros z [->|Hz]%elem_of_cons; [|apply Hl].
      * intros (l1 & l2 & E & Hx & Hl). destruct l1 as [|z l1]; [injection E as -> ->; congruence|].
        injection E as -> ->. exists l1, l2. split; [done|]. split; [done|]. intros w Hw. by apply Hl, list_elem_of_further.
Qed.

Lemma at_least_mono x y m : (x <= y)%Q → at_least x m = true → at_least y m = true.
Proof. destruct m as [q|b|]; cbn; rewrite ?Qle_bool_iff; [|done..]. intros ??. by eapply Qle_trans. Qed.

(** The caps and the goal of the one context are those of the other, whose
    counters are as high or higher. *)
Definition later (ctx ctx' : TerminationContext) : Prop :=
  max_turns ctx' = max_turns ctx ∧ max_usd ctx' = max_usd ctx ∧ max_wall_seconds ctx' = max_wall_seconds ctx ∧
  goal_completed_event_id ctx' = goal_completed_event_id ctx ∧ latest_verdict ctx' = latest_verdict ctx ∧
  doom_loop_triggered ctx' = doom_loop_triggered ctx ∧
  (turns (counters ctx) <= turns (counters ctx'))%Z ∧ (usd (counters ctx) <= usd (counters ctx'))%Q ∧
  (wall_seconds (counters ctx) <= wall_seconds (counters ctx'))%Z.
Lemma later_holds ctx ctx' r : later ctx ctx' → holds ctx r → holds ctx' r.
Proof.
  intros (Ht & Hu & Hw & Hg & Hv & Hd & Kt & Ku & Kw). destruct r; cbn; rewrite ?Ht, ?Hu, ?Hw, ?Hg, ?Hv, ?Hd; try done.
  - intros (m & -> & ?). exists m. split; [done|lia].
  - intros (m & -> & ?). exists m. split; [done|]. by eapply at_least_mono.
  - intros (m & -> & ?). exists m. split; [done|lia].
Qed.
Lemma evaluate_none ctx : evaluate ctx = None ↔ ∀ r, ¬ holds ctx r.
Proof.
  rewrite <- (fmap_None reason), evaluate_find. split.
  - intros E r H. apply holdsb_spec in H. destruct (decide (r = USER_CANCEL)) as [->|Hr]; [done|].
    assert (In r gate_order) as Hin by (destruct r; cbn; tauto).
    pose proof (List.find_none _ _ E _ Hin). congruence.
  - intros H. destruct (List.find _ _) as [r|] eqn:E; [|done].
    apply List.find_some in E as [_ E]. by apply holdsb_spec, H in E.
Qed.
Lemma evaluate_reason ctx r : (∃ d, evaluate ctx = Some d ∧ reason d = r) ↔ first_holding ctx r.
Proof.
  transitivity (reason <$> evaluate ctx = Some r); [rewrite fmap_Some; naive_solver|].
  rewrite evaluate_find, find_split. unfold first_holding.
  setoid_rewrite holdsb_spec. setoid_rewrite <- not_true_iff_false. by setoid_rewrite holdsb_spec.
Qed.

(** A conversation is ended for the first reason that holds, in the order goal, turns,
    money, time, loop; it goes on exactly when none holds; and what has ended a
    conversation still ends it when its counters have grown. *)
Theorem gates_in_order ctx :
  (∀ r, (∃ d, evaluate ctx = Some d ∧ reason d = r) ↔ first_holding ctx r) ∧
  (evaluate ctx = None ↔ ∀ r, ¬ holds ctx r) ∧
  (∀ ctx', later ctx ctx' → evaluate ctx' = None → evaluate ctx = None).
Proof.
  split; [apply evaluate_reason|]. split; [apply evaluate_none|].
  intros ctx' L. rewrite !evaluate_none. intros H r Hr. by apply (H r), (later_holds ctx).
Qed.
(** A goal, a loop, and budgets of which one is spent. *)
Definition busy_context : TerminationContext :=
  mkContext "c1" "u1" (Some 10%Z) (Some (Fin (1 # 2))) None (mkCounters 12 0 40) (Some (inl "looping")) "" "supervisor"
    true "" "" [] "coordinator".
Lemma gates_in_order_witness :
  evaluate (mkContext "c1" "u1" (Some 10%Z) (Some (Fin (1 # 2))) None (mkCounters 13 1 40) (Some (inl "looping")) ""
    "supervisor" true "" "" [] "coordinator") ≠ None ∧
  first_holding busy_context BUDGET_TURNS.
Proof.
  pose proof (gates_in_order busy_context) as (F & _ & L). split.
  - intros E. eapply L in E; [discriminate E|]. unfold later. by split_and!.
  - apply F. eexists. split; reflexivity.
Defined.

(** * What a workspace task contributes *)

Lemma coerce_int_positive raw z : coerce_int raw = Ok (Some z) → (0 < z)%Z.
Proof.
  assert (∀ z' : Z, @Ok unit _ (if (0 <? z')%Z then Some z' else None) = Ok (Some z) → (0 < z)%Z) as P.
  { intros z'. destruct (Z.ltb_spec 0 z'); congruence. }
  destruct raw as [b|i|[q|s|]|s| |]; cbn -[Z.ltb]; try apply P; try done.
  destruct (int_of_string s) as [i|]; cbn -[Z.ltb]; [apply P|done].
Qed.
Lemma positive_float_unspent x y : positive_float x = Some y → at_least 0 y = false.
Proof.
  destruct x as [q|[]|]; cbn; try done; [|by intros [= <-]].
  destruct (Qle_bool q 0) eqn:E; cbn; [done|]. by intros [= <-].
Qed.
Lemma coerce_float_unspent parse raw y : coerce_float parse raw = Some y → at_least 0 y = false.
Proof.
  destruct raw as [b|i|x|s| |]; cbn [coerce_float]; try done; try apply positive_float_unspent.
  destruct (parse s) as [x|]; cbn; [apply positive_float_unspent|done].
Qed.

Definition linked_task (find_by_id : string → option task_view) (c : Conversation) : option task_view :=
  t ← linked_workspace_task_id c; if truthy t then find_by_id t else None.
(** The caps of a context are above nothing spent. *)
Definition caps_unspent (ctx : TerminationContext) : Prop :=
  (∀ m, max_turns ctx = Some m → (0 < m)%Z) ∧ (∀ m, max_usd ctx = Some m → at_least 0 m = false) ∧
  (∀ m, max_wall_seconds ctx = Some m → (0 < m)%Z).
Lemma build_context_fields parse conversation user task k v why_v sup doom ctx :
  build_context_from_task parse conversation user task k v why_v sup doom = Ok ctx →
  caps_unspent ctx ∧ counters ctx = default no_counters k ∧ latest_verdict ctx = v ∧
  truthy (goal_completed_event_id ctx) = from_option task_done false task.
Proof.
  unfold build_context_from_task.
  destruct (coerce_int (raw_get "max_turns" _)) as [tc|] eqn:Ht; cbn [mbind result_bind]; [|done].
  destruct (coerce_int (raw_get "max_wall_seconds" _)) as [wc|] eqn:Hw; cbn [mbind result_bind]; [|done].
  assert (∀ m, coerce_float parse (raw_get "max_usd" (from_option task_metadata [] task)) = Some m → at_least 0 m = false)
    as Hu by (intros m; apply coerce_float_unspent).
  assert (∀ m, tc = Some m → (0 < m)%Z) as Ht' by (intros m ->; by eapply coerce_int_positive).
  assert (∀ m, wc = Some m → (0 < m)%Z) as Hw' by (intros m ->; by eapply coerce_int_positive).
  destruct task as [t|]; cbn [from_option]; [destruct (task_done t)|]; by intros [= <-].
Qed.
Lemma goal_ends ctx : truthy (goal_completed_event_id ctx) = true → reason <$> evaluate ctx = Some GOAL_COMPLETED.
Proof. unfold evaluate. by intros ->. Qed.
Lemma unspent_goes_on ctx : caps_unspent ctx → counters ctx = no_counters →
  goal_completed_event_id ctx = "" → (∀ x, latest_verdict ctx = Some x → status_of_verdict x ≠ Some LOOPING) →
  evaluate ctx = None.
Proof.
  intros (Ct & Cu & Cw) K G V. apply evaluate_none. intros r.
  destruct r; cbn; rewrite ?K; cbn; try naive_solver.
  - intros (m & E & ?). specialize (Ct _ E). lia.
  - intros (m & E & ?). rewrite (Cu _ E) in *. done.
  - intros (m & E & ?). specialize (Cw _ E). lia.
Qed.

(** A conversation whose linked workspace task is done is ended as a completed goal
    whatever its budgets and its verdict; and the caps of a task's metadata,
    zero, negative, malformed or sound, never end a conversation that has spent
    nothing and was not found looping. *)
Theorem task_ends_conversation parse_float find_by_id c k v why_v sup doom ctx :
  resolve parse_float find_by_id c k v why_v sup doom = Ok ctx →
  (∀ t, linked_task find_by_id c = Some t → task_done t = true → reason <$> evaluate ctx = Some GOAL_COMPLETED) ∧
  ((∀ t, linked_task find_by_id c = Some t → task_done t = false) →
    default no_counters k = no_counters → (∀ x, v = Some x → status_of_verdict x ≠ Some LOOPING) →
    evaluate ctx = None).
Proof.
  intros E. apply build_context_fields in E as (C & K & V & G). fold (linked_task find_by_id c) in G. split.
  - intros t Ht D. apply goal_ends. by rewrite G, Ht.
  - intros Ht Hk Hv. apply unspent_goes_on; [done|congruence| |by rewrite V].
    destruct (linked_task find_by_id c) as [t|]; cbn in G; [rewrite (Ht t eq_refl) in G|]; by destruct (goal_completed_event_id ctx).
Qed.
Definition linked_conversation : Conversation :=
  mkConversation "c1" "p" "t" "u" "Release" CONV_ACTIVE [] [] 3 0 None None BUILD None None None None None None SUMMARY
    ["lead"] (Some AUTONOMOUS) (Some "lead") None (Some "w") (Some "t1") [].
Definition linked_view (done : bool) : task_view :=
  mkTaskView "t1" done " Ship it " None
    [("max_turns", RawStr " 5 "); ("max_usd", RawFloat (Fin (-1 # 2))); ("max_wall_seconds", RawBool false)].
Definition find_task (done : bool) (id : string) : option task_view :=
  if bool_decide (id = "t1") then Some (linked_view done) else None.
Definition resolved (done : bool) : result unit TerminationContext :=
  resolve (λ _, None) (find_task done) linked_conversation None (Some (inl "stalled")) "" "supervisor" true.
Lemma task_ends_conversation_witness :
  (∃ ctx, resolved true = Ok ctx ∧ reason <$> evaluate ctx = Some GOAL_COMPLETED) ∧
  (∃ ctx, resolved false = Ok ctx ∧ max_turns ctx = Some 5%Z ∧ max_usd ctx = None ∧ evaluate ctx = None).
Proof.
  assert (∀ done, { ctx | resolved done = Ok ctx }) as R by (intros []; eexists; reflexivity).
  split.
  - destruct (R true) as [ctx E]. exists ctx. split; [done|].
    by eapply (task_ends_conversation (λ _, None) (find_task true) linked_conversation None (Some (inl "stalled")) ""
      "supervisor" true ctx E).
  - destruct (R false) as [ctx E]. exists ctx. split; [done|].
    split; [by injection E as <-|]. split; [by injection E as <-|].
    apply (task_ends_conversation (λ _, None) (find_task false) linked_conversation None (Some (inl "stalled")) ""
      "supervisor" true ctx E); [|done|].
    + intros t Ht. by injection Ht as <-.
    + by intros x [= <-].
Defined.
