(* ===== verification/SpawnManager.v ===== *)
(** Parent-child tracking of spawned agent sessions.

    Sources: src/src/infrastructure/agent/orchestration/spawn_manager.py,
    src/src/domain/model/agent/spawn_record.py and spawn_mode.py.  The
    manager talks to the run registry through the interface [RunTracker],
    which the registry implements, and ends sessions in a
    [SessionRegistry]; a call is one step (the manager's lock),
    and [cascade_stop] runs without another call in between.  A [set] of
    session ids is a list without repetition. *)

From stdpp Require Import pretty.
From S2P Require Import Prelude Machine Bfs SubAgentRun RunRegistry SessionRegistry.

Open Scope string_scope.
Open Scope list_scope.
Open Scope nat_scope.

(** * The interface to the run registry *)

Class RunTracker (R : Type) : Type := {
  rt_create : string → string → string → metadata_dict → string → option string →
    option string → option string → R → R * result reg_error SubAgentRun;
  rt_trace : string → string → string → option string → R → R * option SubAgentRun;
  rt_running : string → string → R → R * option SubAgentRun;
  rt_completed : string → string → R → R * option SubAgentRun;
  rt_failed : string → string → string → R → R * option SubAgentRun;
  rt_cancelled : string → string → option string → R → R * option SubAgentRun;
  rt_status : R → string → string → option SubAgentRunStatus;
  rt_ok : R → Prop;
}.

(** What a [mark_*] towards [t] promises: it moves the run when the status
    machine lets it, after which a finished run may have been evicted, and
    answers [None] and changes nothing otherwise. *)
Definition mark_law {R} `{RunTracker R} (t : SubAgentRunStatus)
    (mark : string → string → R → R * option SubAgentRun) : Prop :=
  ∀ c k r, rt_ok r →
    rt_ok (mark c k r).1 ∧
    match rt_status r c k with
    | Some s =>
        if run_can s t then
          is_Some (mark c k r).2 ∧
          (rt_status (mark c k r).1 c k = Some t ∨
           (run_active t = false ∧ rt_status (mark c k r).1 c k = None))
        else mark c k r = (r, None)
    | None => mark c k r = (r, None)
    end.
Class TrackerLaws (R : Type) `{RunTracker R} : Prop := {
  law_running : mark_law RUNNING rt_running;
  law_completed : mark_law COMPLETED rt_completed;
  law_failed : ∀ e, mark_law FAILED (λ c k, rt_failed c k e);
  law_cancelled : ∀ reason, mark_law CANCELLED (λ c k, rt_cancelled c k reason);
}.

Section tracker.
Context {R : Type} `{RunTracker R}.

(** [_sync_run_registry_status] *)
Definition sync_run_registry_status (c rid st : string) (r : R) : R :=
  if bool_decide (st = "running") then (rt_running c rid r).1
  else if bool_decide (st = "completed") then
    match rt_completed c rid r with
    | (r1, Some _) => r1
    | (r1, None) =>
        match rt_running c rid r1 with
        | (r2, Some _) => (rt_completed c rid r2).1
        | (r2, None) => r2
        end
    end
  else if bool_decide (st = "failed") then
    match rt_failed c rid "Spawn failed" r with
    | (r1, Some _) => r1
    | (r1, None) =>
        match rt_running c rid r1 with
        | (r2, Some _) => (rt_failed c rid "Spawn failed" r2).1
        | (r2, None) => r2
        end
    end
  else if bool_decide (st ∈ ["stopped"; "cancelled"]) then
    (rt_cancelled c rid (Some ("Spawn " +:+ st)) r).1
  else r.
End tracker.

(** * Sessions and records *)

Inductive SpawnMode : Set := RUN | SESSION.
Definition mode_value (m : SpawnMode) : string :=
  match m with RUN => "run" | SESSION => "session" end.

Record SpawnRecord : Type := mkRecord {
  rec_id : string;
  parent_agent_id : string;
  child_agent_id : string;
  child_session_id : string;
  project_id : string;
  mode : SpawnMode;
  task_summary : string;
  rec_status : string;
  rec_trace_id : string;
  span_id : string;
  rec_created_at : Z;
}.

Inductive spawn_error : Type :=
  | SpawnDepthExceeded (current_depth max_depth : nat)
  | RunRegistryError (e : reg_error)
  | OutOfFuel.

Record manager (R : Type) : Type := mkManager {
  max_spawn_depth : nat;
  records : list (string * SpawnRecord);         (** [_records_by_child_session] *)
  children : list (string * list string);        (** [_children_by_parent] *)
  agent_sessions : sessions;
  run_registry : option R;
}.
Arguments mkManager {R}.
Arguments max_spawn_depth {R}.
Arguments records {R}.
Arguments children {R}.
Arguments agent_sessions {R}.
Arguments run_registry {R}.

Section manager.
Context {R : Type} `{RunTracker R}.
Implicit Types (m : manager R).

(** [__init__] *)
Definition new_manager (depth : Z) (s : sessions) (r : option R) : manager R :=
  mkManager (Z.to_nat (Z.max 1 depth)) [] [] s r.

Definition set_index (recs : list (string * SpawnRecord)) (ch : list (string * list string)) m
    : manager R := mkManager (max_spawn_depth m) recs ch (agent_sessions m) (run_registry m).

(** * Depth *)

Definition find_parent_session (ch : list (string * list string)) (child : string)
    : option string :=
  fst <$> List.find (λ kv, bool_decide (child ∈ kv.2)) ch.

Fixpoint depth_loop (fuel : nat) (recs : list (string * SpawnRecord))
    (ch : list (string * list string)) (current : option string) (visited : list string)
    (depth : nat) : option nat :=
  match fuel with
  | O => None
  | S fuel' =>
      match current with
      | None => Some depth
      | Some cur =>
          if negb (truthy cur) || bool_decide (cur ∈ visited) then Some depth
          else
            match dget cur recs with
            | None => Some depth
            | Some _ =>
                depth_loop fuel' recs ch (find_parent_session ch cur) (cur :: visited) (S depth)
            end
      end
  end.
Definition compute_depth (session : option string) m : option nat :=
  if truthy_opt session
  then depth_loop (S (S (length (records m)))) (records m) (children m) session [] 0
  else Some 0.

(** * Registration *)

Record spawn_args : Type := mkArgs {
  a_parent_agent : string;
  a_child_agent : string;
  a_child_session : string;
  a_project : string;
  a_mode : SpawnMode;
  a_task : string;
  a_parent_session : option string;
  a_conversation : option string;
  a_metadata : metadata_dict;
  a_trace : string;
  a_span : string;
  a_requester : option string;
  a_parent_run : option string;
  a_lineage : option string;
}.

Definition new_record (a : spawn_args) (uuid : string) (now : Z) : SpawnRecord :=
  mkRecord uuid (a_parent_agent a) (a_child_agent a) (a_child_session a) (a_project a)
    (a_mode a) (a_task a) "running" (a_trace a) (a_span a) now.

(** The part of [register_spawn] under the lock. *)
Definition store_record (a : spawn_args) (rec : SpawnRecord) m : manager R :=
  set_index (dset (a_child_session a) rec (records m))
    (match a_parent_session a with
     | Some p =>
         if truthy p then dset p (set_add (a_child_session a) (dget_or [] p (children m))) (children m)
         else children m
     | None => children m
     end) m.

(** The part after it: the run in the registry, with its trace context. *)
Definition register_run (a : spawn_args) (rec : SpawnRecord) (c : string) (r : R)
    : R * result reg_error unit :=
  let meta := dict_update
    [("spawn_record_id", PStr (rec_id rec)); ("parent_agent_id", PStr (a_parent_agent a));
     ("child_agent_id", PStr (a_child_agent a)); ("spawn_mode", PStr (mode_value (a_mode a)))]
    (a_metadata a) in
  let requester := if truthy_opt (a_requester a) then a_requester a else a_parent_session a in
  match rt_create c (a_child_agent a) (a_task a) meta (rec_id rec) requester
          (a_parent_run a) (a_lineage a) r with
  | (r1, Err e) => (r1, Err e)
  | (r1, Ok _) =>
      (if truthy (a_trace a) then
         (rt_trace c (rec_id rec) (a_trace a)
            (if truthy (a_span a) then Some (a_span a) else None) r1).1
       else r1, Ok tt)
  end.

Definition register_spawn (a : spawn_args) (uuid : string) (now : Z)
    : M (manager R) spawn_error SpawnRecord :=
  m ← mget;
  depth ← match compute_depth (a_parent_session a) m with
          | Some d => mret d
          | None => mraise OutOfFuel
          end;
  mguard (bool_decide (depth < max_spawn_depth m)) (SpawnDepthExceeded depth (max_spawn_depth m));;
  let rec := new_record a uuid now in
  mmodify (store_record a rec);;
  match run_registry m with
  | Some r =>
      if truthy_opt (a_conversation a) then
        let '(r', o) := register_run a rec (default "" (a_conversation a)) r in
        mmodify (λ m, mkManager (max_spawn_depth m) (records m) (children m)
                        (agent_sessions m) (Some r'));;
        match o with
        | Ok _ => mret rec
        | Err e => mraise (RunRegistryError e)
        end
      else mret rec
  | None => mret rec
  end.

(** * Queries *)

Definition record_older (x y : SpawnRecord) : bool := Z.leb (rec_created_at x) (rec_created_at y).
Definition find_children (parent : string) (st : option string) m : list SpawnRecord :=
  let cs := omap (λ c, dget c (records m)) (dget_or [] parent (children m)) in
  let cs := match st with
            | Some s => if truthy s then filter (λ r, rec_status r = s) cs else cs
            | None => cs
            end in
  sort_by record_older cs.
Definition has_active_children (parent : string) m : bool :=
  bool_decide (0 < length (find_children parent (Some "running") m)).
Definition count_children (parent : string) (st : option string) m : nat :=
  length (find_children parent st m).
Definition get_record (child : string) m : option SpawnRecord := dget child (records m).

(** The breadth-first loop over sorted child ids. *)
Definition descendant_ids (session : string) m : option (list string) :=
  bfs (λ c, sort_by String.leb (dget_or [] c (children m))) (λ c, dmem c (records m))
    (S (S (length (records m)))) ([session], [session], []).
Definition find_descendants (session : string) (include_self : bool) m
    : option (list SpawnRecord) :=
  ids ← descendant_ids session m;
  let own := if include_self then option_list (get_record session m) else [] in
  Some (own ++ omap (λ i, dget i (records m)) ids).

(** * Status and stopping *)

Definition with_status (st : string) (r : SpawnRecord) : SpawnRecord :=
  mkRecord (rec_id r) (parent_agent_id r) (child_agent_id r) (child_session_id r)
    (project_id r) (mode r) (task_summary r) st (rec_trace_id r) (span_id r) (rec_created_at r).

Definition update_status (child st : string) (conv : option string) m
    : manager R * option SpawnRecord :=
  match dget child (records m) with
  | None => (m, None)
  | Some old =>
      let new := with_status st old in
      let m1 := set_index (dset child new (records m)) (children m) m in
      let rr := match run_registry m1 with
                | Some r =>
                    if truthy_opt conv
                    then Some (sync_run_registry_status (default "" conv) (rec_id old) st r)
                    else Some r
                | None => None
                end in
      (mkManager (max_spawn_depth m1) (records m1) (children m1) (agent_sessions m1) rr, Some new)
  end.

(** [_stop_single]; the second component is the [on_stop] call, whose
    exceptions are swallowed. *)
Definition stop_single (rec : SpawnRecord) (project : string) (conv : option string) m
    : manager R * (string * string) :=
  let m1 := (update_status (child_session_id rec) "stopped" conv m).1 in
  (mkManager (max_spawn_depth m1) (records m1) (children m1)
     (unregister (child_session_id rec) project (agent_sessions m1)).1 (run_registry m1),
   (child_session_id rec, child_agent_id rec)).

Fixpoint stop_all (recs : list SpawnRecord) (project : string) (conv : option string) m
    : manager R * list string * list (string * string) :=
  match recs with
  | [] => (m, [], [])
  | r :: recs' =>
      if bool_decide (rec_status r = "running") then
        let '(m1, call) := stop_single r project conv m in
        let '(m2, stopped, calls) := stop_all recs' project conv m1 in
        (m2, child_session_id r :: stopped, call :: calls)
      else stop_all recs' project conv m
  end.

(** The ids stopped and the [on_stop] calls, in order. *)
Definition cascade_stop (session project : string) (conv : option string) m
    : option (manager R * list string * list (string * string)) :=
  descendants ← find_descendants session false m;
  let '(m1, stopped, calls) := stop_all (reverse descendants) project conv m in
  Some (match get_record session m1 with
        | Some root =>
            if bool_decide (rec_status root = "running") then
              let '(m2, call) := stop_single root project conv m1 in
              (m2, stopped ++ [session], calls ++ [call])
            else (m1, stopped, calls)
        | None => (m1, stopped, calls)
        end).

(** * Cleanup *)

Definition cleanup_session (child : string) m : manager R :=
  match dget child (records m) with
  | None => m
  | Some _ =>
      let recs := ddel child (records m) in
      let ch := filter (λ kv : string * list string, kv.2 ≠ [])
        ((λ kv : string * list string, (kv.1, filter (.≠ child) kv.2)) <$> children m) in
      let orphaned := dget_or [] child ch in
      set_index (foldl (λ rs o, ddel o rs) recs orphaned) (ddel child ch) m
  end.

Definition rebuild_secondary_index (recs : list (string * SpawnRecord))
    (ch : list (string * list string)) : list (string * list string) :=
  filter (λ kv : string * list string, kv.2 ≠ [])
    ((λ kv : string * list string, (kv.1, filter (.∈ dkeys recs) kv.2)) <$> ch).
Definition cleanup_project (project : string) m : manager R * nat :=
  let to_remove := dkeys (filter (λ kv, project_id kv.2 = project) (records m)) in
  let recs := foldl (λ rs sid, ddel sid rs) (records m) to_remove in
  (set_index recs (rebuild_secondary_index recs (children m)) m, length to_remove).

Definition count_by {A} (f : A → string) (l : list A) : list (string * nat) :=
  foldl (λ d x, dset (f x) (dget_or 0 (f x) d + 1) d) [] l.
Definition get_stats m : nat * nat * list (string * nat) * list (string * nat) * nat :=
  (length (records m), length (children m), count_by rec_status (dvals (records m)),
   count_by (λ r, mode_value (mode r)) (dvals (records m)), max_spawn_depth m).
End manager.

(** * The registry of RunRegistry.v implements the interface *)

Section instance.
Context (cfg : config) (now : Z).

(** An in-memory registry; by [RunStore.shared_registry_refines] a reliable shared
    one behaves the same. *)
#[local] Instance registry_tracker : RunTracker (registry runs_map) := {
  rt_create c name tsk meta rid requester parent lineage :=
    create_run cfg now "" c name tsk meta (Some rid) requester parent lineage;
  rt_trace c rid tid span := set_trace_context cfg now c rid tid span [];
  rt_running c rid := mark_running cfg now c rid [] [];
  rt_completed c rid := mark_completed cfg now c rid None None None [] [];
  rt_failed c rid e := mark_failed cfg now c rid e None [] [];
  rt_cancelled c rid reason := mark_cancelled cfg now c rid reason [] [];
  rt_status g c k := status <$> dget k (bucket_of c (runs g));
  rt_ok g := store g = None ∧ runs_wf (runs g);
}.

Lemma upsert_store r (g : registry runs_map) :
  store g = None → store (upsert_locked cfg now r g) = None.
Proof. intros Hs. unfold upsert_locked, persist_locked. simpl. by rewrite Hs. Qed.

Lemma mutate_mark_law t (f : SubAgentRun → result run_error SubAgentRun) :
  mutator_ok f →
  (∀ r, run_wf r → if run_can (status r) t then ∃ r', f r = Ok r' ∧ status r' = t
                   else ∃ e, f r = Err e) →
  mark_law t (λ c k, mutate_run cfg now c k [] f).
Proof.
  intros Hf Ht c k g [Hs Hw]. unfold mutate_run, sync_locked, rt_status, rt_ok. simpl. rewrite Hs.
  destruct (dget k (bucket_of c (runs g))) as [r|] eqn:Hr; simpl; [|done].
  destruct (rw_run _ Hw c k r Hr) as [Hwr Hc]. specialize (Ht r Hwr).
  destruct (run_can (status r) t); [|destruct Ht as [e ->]; done].
  destruct Ht as (r' & Hfr & Hst). rewrite Hfr. simpl.
  destruct (Hf r r' Hwr Hfr) as (Hwr' & Hid & Hcid & _).
  pose proof (rw_bucket _ Hw c) as Hbk. pose proof (bk_id _ Hbk _ _ Hr) as Hk.
  split; [split; [by apply upsert_store|by apply upsert_wf]|]. split; [eauto|].
  rewrite upsert_bucket, Hcid, Hc, decide_True by done.
  destruct (evict_progress cfg now _ (keyed_dset_run _ r' Hbk)) as (_ & _ & Hev).
  destruct (Hev k r') as [->|[-> Ha]].
  - rewrite Hid, Hk. apply dget_dset_eq.
  - left. simpl. by rewrite Hst.
  - right. unfold is_active in Ha. by rewrite Hst in Ha.
Qed.

Lemma lifecycle_ok r st started ended summ err tokens ms : run_wf r →
  ∃ r', set_lifecycle r st started ended summ err tokens ms = Ok r' ∧ status r' = st.
Proof.
  intros Hw. eexists. split; [|shelve]. unfold set_lifecycle.
  apply (post_init_fields r); [apply Hw|done..].
  Unshelve. done.
Qed.

Ltac mark_law_tac :=
  apply mutate_mark_law;
    [ apply bind_mutator_ok; [|apply extra_mutator_ok];
      first [apply (cmd_mutator_ok (Start _))|apply (cmd_mutator_ok (Complete _ _ _ _))
            |apply (cmd_mutator_ok (Fail _ _ _))|apply (cmd_mutator_ok (Cancel _ _))]
    | intros r Hw; unfold start, complete, fail, cancel, run_can;
      destruct (status r); simpl;
      first [by eexists|
        match goal with |- context [set_lifecycle ?a ?b ?c ?d ?e ?f ?g ?h] =>
          destruct (lifecycle_ok a b c d e f g h Hw) as (r' & -> & ?) end; simpl; eauto] ].

#[local] Instance registry_tracker_laws : TrackerLaws (registry runs_map).
Proof. split; [mark_law_tac|mark_law_tac|intros e; mark_law_tac|intros reason; mark_law_tac]. Qed.
End instance.

(** * What the status mirror does *)

Section mirror.
Context {R : Type} `{TrackerLaws R}.

(** Where [_sync_run_registry_status] means to take a run. *)
Definition mirror_target (st : string) (s : SubAgentRunStatus) : SubAgentRunStatus :=
  if bool_decide (st = "running") then if bool_decide (s = PENDING) then RUNNING else s
  else if bool_decide (st = "completed") then if run_active s then COMPLETED else s
  else if bool_decide (st = "failed") then if run_active s then FAILED else s
  else if bool_decide (st ∈ ["stopped"; "cancelled"]) then if run_active s then CANCELLED else s
  else s.

Lemma use_mark t mark c k r s : mark_law t mark → rt_ok r → rt_status r c k = Some s →
  (run_can s t = true → ∃ x, mark c k r = ((mark c k r).1, Some x) ∧
     rt_ok (mark c k r).1 ∧
     (rt_status (mark c k r).1 c k = Some t ∨
      (run_active t = false ∧ rt_status (mark c k r).1 c k = None))) ∧
  (run_can s t = false → mark c k r = (r, None)).
Proof.
  intros Hl Hok Hs. destruct (Hl c k r Hok) as [Hok' Hm]. rewrite Hs in Hm.
  split; intros Hc; rewrite Hc in Hm; [|done]. destruct Hm as [[x Hx] Hst].
  exists x. split_and!; [by rewrite <-Hx, <-surjective_pairing|done|done].
Qed.

Lemma finish_via_running t mark c k r s :
  t = COMPLETED ∨ t = FAILED → mark_law t mark → rt_ok r → rt_status r c k = Some s →
  let r' := match mark c k r with
            | (r1, Some _) => r1
            | (r1, None) =>
                match rt_running c k r1 with
                | (r2, Some _) => (mark c k r2).1
                | (r2, None) => r2
                end
            end in
  rt_ok r' ∧ let s' := if run_active s then t else s in
  (rt_status r' c k = Some s' ∨ (run_active s' = false ∧ rt_status r' c k = None)).
Proof.
  intros Ht Hl Hok Hs. pose proof (use_mark t mark c k r s Hl Hok Hs) as [Hyes Hno].
  pose proof (use_mark RUNNING rt_running c k r s law_running Hok Hs) as [Ryes Rno].
  destruct s; try (rewrite Hno, Rno by (destruct Ht as [->| ->]; done); simpl; by auto).
  - rewrite Hno by (destruct Ht as [->| ->]; done). simpl.
    destruct Ryes as (x & -> & Hok1 & Hs1); [done|]. simpl.
    destruct Hs1 as [Hs1|[? _]]; [|done].
    pose proof (use_mark t mark c k _ RUNNING Hl Hok1 Hs1) as [Hyes1 _].
    destruct Hyes1 as (y & -> & Hok2 & Hs2); [by destruct Ht as [->| ->]|]. done.
  - destruct Hyes as (x & -> & Hok1 & Hs1); [by destruct Ht as [->| ->]|]. done.
Qed.
End mirror.

(** * The spawn tree *)

Section tree.
Context {R : Type} `{RunTracker R}.
Implicit Types (m : manager R).

(** [y] has a record and is in the child set of [x]. *)
Definition spawn_edge m (x y : string) : Prop :=
  y ∈ dget_or [] x (children m) ∧ y ∈ dkeys (records m).

(** Keys of the primary index are the session ids of their records. *)
Record records_keyed m : Prop := {
  rk_dict : dict_wf (records m);
  rk_id : ∀ k r, dget k (records m) = Some r → child_session_id r = k;
}.

Lemma descendant_ids_spec s m :
  ∃ ids, descendant_ids s m = Some ids ∧ NoDup ids ∧
    (∀ x, x ∈ ids ↔ x ≠ s ∧ tc (spawn_edge m) s x) ∧
    (∀ i1 x i2, ids = i1 ++ x :: i2 → ∃ y, (y = s ∨ y ∈ i1) ∧ spawn_edge m y x).
Proof.
  unfold descendant_ids. set (ch := λ c, sort_by String.leb (dget_or [] c (children m))).
  set (push := λ c, dmem c (records m)).
  assert (He : ∀ x y, bfs_edge ch push x y ↔ spawn_edge m x y).
  { intros x y. unfold bfs_edge, ch, push, spawn_edge. by rewrite elem_of_sort_by, dmem_true. }
  destruct (bfs_total ch push [s] [s] (dkeys (records m)) (S (S (length (records m)))))
    as [ids Hids].
  - intros x c _ Hc. by apply dmem_true.
  - unfold dkeys. rewrite length_fmap. simpl. lia.
  - exists ids. split; [done|]. apply bfs_correct in Hids as (Hnd & Hex & Hfrom); [|done].
    split; [done|]. split.
    + intros x. rewrite Hex, list_elem_of_singleton. setoid_rewrite list_elem_of_singleton.
      setoid_rewrite (tc_iff _ _ _ _ He). naive_solver.
    + intros i1 x i2 Hi. destruct (Hfrom _ _ _ Hi) as (y & Hy & Hyx%He). exists y.
      split; [|done]. set_solver.
Qed.

Lemma spawn_tc_record m x y : tc (spawn_edge m) x y → y ∈ dkeys (records m).
Proof. induction 1 as [x y [_ ?]|x y z _ _ ?]; done. Qed.

Lemma omap_records_ids m (ids : list string) : records_keyed m → (∀ x, x ∈ ids → x ∈ dkeys (records m)) →
  child_session_id <$> omap (λ i, dget i (records m)) ids = ids.
Proof.
  intros Hk. induction ids as [|i ids IH]; intros Hin; [done|].
  destruct (proj2 (dget_is_Some_keys i (records m)) (Hin i ltac:(left))) as [r Hr].
  csimpl. rewrite Hr. csimpl. rewrite (rk_id _ Hk _ _ Hr), IH; [done|]. intros x Hx. apply Hin. by right.
Qed.

Lemma find_descendants_ids s m : records_keyed m →
  ∃ ds, find_descendants s false m = Some ds ∧
    descendant_ids s m = Some (child_session_id <$> ds) ∧
    (∀ r, r ∈ ds → dget (child_session_id r) (records m) = Some r).
Proof.
  intros Hk. unfold find_descendants.
  destruct (descendant_ids_spec s m) as (ids & -> & _ & Hids & _). simpl.
  eexists. split; [done|]. split.
  - rewrite omap_records_ids; [done|done|]. intros x [_ Hx]%Hids. by eapply spawn_tc_record.
  - intros r (i & _ & Hr)%list_elem_of_omap. by rewrite (rk_id _ Hk _ _ Hr).
Qed.

(** ** Stopping *)

(** What a stop leaves of the records: [dead] stopped, the rest as before. *)
Definition stopped_records (dead : list string) (recs recs' : list (string * SpawnRecord)) : Prop :=
  ∀ k, dget k recs' =
    (if decide (k ∈ dead) then with_status "stopped" <$> dget k recs else dget k recs).

Lemma stop_single_spec r project conv m :
  let m' := (stop_single r project conv m).1 in
  stopped_records [child_session_id r] (records m) (records m') ∧
  children m' = children m ∧
  agent_sessions m' = ddel (project, child_session_id r) (agent_sessions m) ∧
  (stop_single r project conv m).2 = (child_session_id r, child_agent_id r).
Proof.
  simpl. unfold update_status. destruct (dget (child_session_id r) (records m)) as [old|] eqn:Ho;
    simpl; split_and!; try done; intros k; rewrite ?dget_dset;
    destruct (decide (k ∈ [child_session_id r])) as [->%list_elem_of_singleton|Hk].
  - by rewrite decide_True, Ho by done.
  - rewrite decide_False; [done|]. set_solver.
  - by rewrite Ho.
  - done.
Qed.

Lemma stop_all_spec recs : ∀ project conv m m' stopped calls,
  stop_all recs project conv m = (m', stopped, calls) →
  stopped = child_session_id <$> filter (λ r, rec_status r = "running") recs ∧
  calls = (λ r, (child_session_id r, child_agent_id r)) <$>
            filter (λ r, rec_status r = "running") recs ∧
  stopped_records stopped (records m) (records m') ∧ children m' = children m ∧
  (∀ p c, dget (p, c) (agent_sessions m') =
     if decide (p = project ∧ c ∈ stopped) then None else dget (p, c) (agent_sessions m)).
Proof.
  induction recs as [|r recs IH]; intros project conv m m' stopped calls; cbn [stop_all].
  { intros [= <- <- <-]. split_and!; [done..| |done|].
    - intros k. rewrite decide_False; [done|]. by intros ?%elem_of_nil.
    - intros p c. rewrite decide_False; [done|]. by intros [_ ?%elem_of_nil]. }
  rewrite filter_cons. case_bool_decide as Hr; [|rewrite decide_False by done; apply IH].
  rewrite decide_True by done.
  pose proof (stop_single_spec r project conv m) as (H1 & H2 & H3 & H4).
  destruct (stop_single r project conv m) as [m1 call]. cbn [fst snd] in *.
  destruct (stop_all recs project conv m1) as [[m2 stopped2] calls2] eqn:E.
  intros [= <- <- <-]. destruct (IH _ _ _ _ _ _ E) as (-> & -> & Hrec & Hch & Hses).
  rewrite !fmap_cons, H4. split_and!; [done..| |congruence|].
  - intros k. rewrite Hrec, H1. set (l := child_session_id <$> _). set (sid := child_session_id r).
    destruct (decide (k = sid)) as [->|Hne].
    + rewrite (decide_True (P := sid ∈ [sid])), (decide_True (P := sid ∈ sid :: l)) by left.
      by case_decide; [destruct (dget sid (records m))|].
    + rewrite (decide_False (P := k ∈ [sid])) by (by rewrite list_elem_of_singleton).
      destruct (decide (k ∈ l)) as [Hl|Hl];
        [rewrite (decide_True (P := k ∈ sid :: l)) by (by right)
        |rewrite (decide_False (P := k ∈ sid :: l)) by (rewrite elem_of_cons; tauto)]; done.
  - intros p c. rewrite Hses, H3, dget_ddel. set (l := child_session_id <$> _).
    set (sid := child_session_id r). destruct (decide (p = project)) as [->|Hp].
    + destruct (decide (c = sid)) as [->|Hc].
      * rewrite (decide_True (P := (project, sid) = (project, sid))) by done.
        rewrite (decide_True (P := project = project ∧ sid ∈ sid :: l)) by (split; [done|left]).
        by case_decide.
      * rewrite (decide_False (P := (project, sid) = (project, c))) by congruence.
        destruct (decide (c ∈ l)) as [Hl|Hl].
        -- rewrite !decide_True by (split; [done|]; first [done|by right]). done.
        -- rewrite !decide_False by (intros [_ ?]; rewrite ?elem_of_cons in *; tauto). done.
    + rewrite !decide_False by (naive_solver congruence). done.
Qed.
End tree.

(** * Depth *)

Section depth.
Context {R : Type} `{RunTracker R}.
Implicit Types (m : manager R) (recs : list (string * SpawnRecord))
  (ch : list (string * list string)).

Lemma find_parent_Some ch c p : find_parent_session ch c = Some p →
  ∃ s, (p, s) ∈ ch ∧ c ∈ s.
Proof.
  unfold find_parent_session. intros ([q s] & [Hin Hc]%find_Some_first & ->)%fmap_Some.
  simpl in Hc. split_bools. eauto.
Qed.

Lemma depth_loop_total fuel recs ch : ∀ cur visited d,
  NoDup visited → (∀ x, x ∈ visited → x ∈ dkeys recs) →
  length recs - length visited + 1 < fuel + 0 →
  ∃ d', depth_loop fuel recs ch cur visited d = Some d' ∧ d ≤ d'.
Proof.
  induction fuel as [|fuel IH]; intros cur visited d Hnd Hsub Hf; [lia|]. simpl.
  destruct cur as [cur|]; [|eauto]. case_bool_decide as Hv; [rewrite orb_true_r; eauto|].
  rewrite orb_false_r. destruct (negb (truthy cur)); [eauto|].
  destruct (dget cur recs) as [r|] eqn:Hr; [|eauto].
  assert (Hcur : cur ∈ dkeys recs) by (apply dget_is_Some_keys; eauto).
  assert (length (cur :: visited) ≤ length (dkeys recs)) as Hl.
  { apply submseteq_length, NoDup_submseteq; [by constructor|].
    intros x [->|Hx]%elem_of_cons; auto. }
  unfold dkeys in Hl. rewrite length_fmap in Hl. simpl in Hl.
  destruct (IH (find_parent_session ch cur) (cur :: visited) (S d)) as (d' & -> & ?);
    [by constructor|intros x [->|Hx]%elem_of_cons; auto|simpl; lia|].
  exists d'. split; [done|lia].
Qed.
End depth.

Section fresh.
Context {R : Type} `{RunTracker R}.
Implicit Types (m : manager R) (recs : list (string * SpawnRecord))
  (ch : list (string * list string)).

Lemma find_parent_dset_other ch p s x :
  (x ∈ s ↔ x ∈ dget_or [] p ch) → find_parent_session (dset p s ch) x = find_parent_session ch x.
Proof.
  unfold find_parent_session, dget_or. induction ch as [|[k v] ch IH]; simpl.
  - intros Hx. rewrite bool_decide_false; [done|]. rewrite Hx. apply not_elem_of_nil.
  - case_decide as Hp; simpl.
    + intros Hx. rewrite (bool_decide_ext _ _ Hx). by case_bool_decide.
    + intros Hx. case_bool_decide; [done|]. by apply IH.
Qed.
Lemma find_parent_dset_new ch p s x :
  x ∈ s → (∀ q s', (q, s') ∈ ch → x ∉ s') → find_parent_session (dset p s ch) x = Some p.
Proof.
  intros Hx. unfold find_parent_session. induction ch as [|[k v] ch IH]; simpl; intros Hno.
  - by rewrite bool_decide_true.
  - case_decide as Hp; simpl.
    + by rewrite bool_decide_true, Hp.
    + rewrite bool_decide_false by (eapply Hno; left). apply IH. intros q s' Hin.
      apply (Hno q). by right.
Qed.
Lemma find_parent_absent ch x :
  (∀ q s', (q, s') ∈ ch → x ∉ s') → find_parent_session ch x = None.
Proof.
  intros Hno. destruct (find_parent_session ch x) as [p|] eqn:E; [|done].
  apply find_parent_Some in E as (s & Hin & Hx). by destruct (Hno p s Hin).
Qed.

(** The session id was never used: not recorded, nobody's child or parent. *)
Record fresh_child (c : string) (parent : option string) m : Prop := {
  fc_nonempty : c ≠ "";
  fc_parent : parent ≠ Some c;
  fc_record : c ∉ dkeys (records m);
  fc_key : c ∉ dkeys (children m);
  fc_set : ∀ q s, (q, s) ∈ children m → c ∉ s;
}.

(** Walking up from anywhere but [c] is not affected by a leaf [c]. *)
Lemma depth_loop_leaf recs ch recs' ch' c fuel :
  (∀ x, x ≠ c → dget x recs' = dget x recs) →
  (∀ x, x ≠ c → find_parent_session ch' x = find_parent_session ch x) → c ∉ dkeys ch →
  ∀ cur v v' d, cur ≠ Some c → (∀ x, x ≠ c → x ∈ v' ↔ x ∈ v) →
    depth_loop fuel recs' ch' cur v' (S d) = S <$> depth_loop fuel recs ch cur v d.
Proof.
  intros Hrec Hpar Hkey. induction fuel as [|fuel IH]; intros cur v v' d Hcur Hv; [done|].
  simpl. destruct cur as [x|]; [|done]. assert (x ≠ c) by congruence.
  rewrite (bool_decide_ext _ _ (Hv x ltac:(done))).
  destruct (negb (truthy x) || bool_decide (x ∈ v)); [done|].
  rewrite Hrec by done. destruct (dget x recs); [|done]. rewrite Hpar by done. apply IH.
  - intros E. apply find_parent_Some in E as (cs & Hin & _). apply Hkey.
    apply list_elem_of_fmap. by exists (c, cs).
  - intros y Hy. rewrite !elem_of_cons. by rewrite Hv.
Qed.

Lemma compute_depth_total session m : is_Some (compute_depth session m).
Proof.
  unfold compute_depth. destruct (truthy_opt session); [|eauto].
  destruct (depth_loop_total (S (S (length (records m)))) (records m) (children m) session [] 0)
    as (d & -> & _); [constructor|by intros ? ?%elem_of_nil|simpl; lia|eauto].
Qed.

Lemma depth_loop_S fuel recs ch cur v d r :
  cur ≠ "" → cur ∉ v → dget cur recs = Some r →
  depth_loop (S fuel) recs ch (Some cur) v d =
  depth_loop fuel recs ch (find_parent_session ch cur) (cur :: v) (S d).
Proof.
  intros Hne Hv Hr. simpl. by rewrite (proj2 (truthy_true cur)), bool_decide_false, Hr by done.
Qed.

Lemma compute_depth_stored a rec m : fresh_child (a_child_session a) (a_parent_session a) m →
  compute_depth (Some (a_child_session a)) (store_record a rec m) =
  S <$> compute_depth (a_parent_session a) m.
Proof.
  intros [Hne Hpar Hrec Hkey Hset]. set (c := a_child_session a) in *.
  unfold compute_depth at 1. simpl truthy_opt. rewrite (proj2 (truthy_true c)) by done.
  unfold store_record, set_index. cbn [records children].
  set (ch' := match a_parent_session a with Some p => _ | None => _ end).
  rewrite dset_length_new by done. fold c.
  rewrite (depth_loop_S _ _ _ _ _ _ rec) by (done || apply not_elem_of_nil || apply dget_dset_eq).
  assert (Hrecs : ∀ x, x ≠ c → dget x (dset c rec (records m)) = dget x (records m)).
  { intros x Hx. by rewrite dget_dset_ne. }
  unfold compute_depth.
  destruct (a_parent_session a) as [p|] eqn:Hp; simpl truthy_opt in *.
  - destruct (truthy p) eqn:Ht.
    + unfold ch'. rewrite find_parent_dset_new; [|by apply elem_of_set_add; left|done].
      apply (depth_loop_leaf _ _ _ _ c); [done| |done|congruence|].
      * intros x Hx. apply find_parent_dset_other. rewrite elem_of_set_add. naive_solver.
      * intros x Hx. rewrite elem_of_cons. naive_solver.
    + unfold ch'. rewrite find_parent_absent by done. by destruct (records m).
  - unfold ch'. by rewrite find_parent_absent by done.
Qed.
End fresh.

Lemma filter_split {A : Type} (P : A → Prop) `{!∀ x, Decision (P x)} (l f1 f2 : list A) x :
  filter P l = f1 ++ x :: f2 →
  ∃ l1 l2, l = l1 ++ x :: l2 ∧ f1 = filter P l1 ∧ f2 = filter P l2.
Proof.
  revert f1. induction l as [|y l IH]; intros f1; [by destruct f1|].
  rewrite filter_cons. case_decide as Hy.
  - destruct f1 as [|z f1]; simpl; intros [= <- Hl].
    + by exists [], l.
    + destruct (IH f1 Hl) as (l1 & l2 & -> & -> & ->). exists (y :: l1), l2.
      by rewrite filter_cons, decide_True.
  - intros Hl. destruct (IH f1 Hl) as (l1 & l2 & -> & -> & ->). exists (y :: l1), l2.
    by rewrite filter_cons, decide_False.
Qed.

Section cascade.
Context {R : Type} `{RunTracker R}.
Implicit Types (m : manager R).

Definition running m (x : string) : Prop :=
  match dget x (records m) with Some r => rec_status r = "running" | None => False end.
#[local] Instance running_dec m x : Decision (running m x).
Proof. unfold running. destruct (dget x (records m)); apply _. Defined.

(** The descendants are stopped in reverse, then the root. *)
Lemma cascade_stop_ids s project conv m : records_keyed m →
  ∃ ids m' stopped calls, descendant_ids s m = Some ids ∧
    cascade_stop s project conv m = Some (m', stopped, calls) ∧
    stopped = filter (running m) (reverse ids) ++ (if decide (running m s) then [s] else []) ∧
    calls.*1 = stopped ∧ stopped_records stopped (records m) (records m') ∧
    (∀ p c, dget (p, c) (agent_sessions m') =
       if decide (p = project ∧ c ∈ stopped) then None else dget (p, c) (agent_sessions m)).
Proof.
  intros Hk. destruct (find_descendants_ids s m Hk) as (ds & Hds & Hids & Hrec).
  destruct (descendant_ids_spec s m) as (ids & Hids' & _ & Hex & _).
  rewrite Hids in Hids'. injection Hids' as <-.
  exists (child_session_id <$> ds). unfold cascade_stop. rewrite Hds.
  cbn [mbind option_bind].
  destruct (stop_all (reverse ds) project conv m) as [[m1 stopped] calls] eqn:E.
  destruct (stop_all_spec _ _ _ _ _ _ _ E) as (Hst & Hcalls & Hr & Hch & Hses).
  assert (HD : stopped = filter (running m) (reverse (child_session_id <$> ds))).
  { rewrite Hst, <-fmap_reverse, filter_of_fmap. f_equal. apply filter_ext_elem.
    intros r Hin. rewrite elem_of_reverse in Hin. unfold running. by rewrite (Hrec r Hin). }
  assert (Hs : s ∉ stopped).
  { rewrite HD. intros [_ Hin]%list_elem_of_filter. rewrite elem_of_reverse in Hin.
    by apply Hex in Hin as [? _]. }
  assert (Hroot : get_record s m1 = get_record s m).
  { unfold get_record. by rewrite Hr, decide_False. }
  rewrite Hroot. unfold get_record.
  assert (Hc1 : calls.*1 = stopped).
  { rewrite Hcalls, Hst, <-list_fmap_compose. by apply list_fmap_ext. }
  destruct (dget s (records m)) as [root|] eqn:Hg.
  - assert (Hrs : running m s ↔ rec_status root = "running") by (unfold running; by rewrite Hg).
    case_bool_decide as Hrun; [rewrite decide_True by tauto|rewrite decide_False by tauto].
    + pose proof (stop_single_spec root project conv m1) as (H1 & _ & H3 & H4).
      destruct (stop_single root project conv m1) as [m2 call]. cbn [fst snd] in *.
      pose proof (rk_id _ Hk _ _ Hg) as Hid. rewrite Hid in *.
      do 3 eexists. split; [done|]. split; [done|]. rewrite <-HD. split_and!; [done| | |].
      * by rewrite fmap_app, Hc1, H4.
      * intros k. rewrite H1, Hr. destruct (decide (k = s)) as [->|Hne].
        -- rewrite (decide_True (P := s ∈ [s])) by left.
           rewrite (decide_False (P := s ∈ stopped)) by done.
           rewrite (decide_True (P := s ∈ stopped ++ [s])) by (apply elem_of_app; right; left).
           done.
        -- rewrite (decide_False (P := k ∈ [s])) by (by rewrite list_elem_of_singleton).
           destruct (decide (k ∈ stopped)) as [Hin|Hin];
             [rewrite (decide_True (P := k ∈ stopped ++ [s])) by (apply elem_of_app; by left)
             |rewrite (decide_False (P := k ∈ stopped ++ [s]))
                by (rewrite elem_of_app, list_elem_of_singleton; tauto)]; done.
      * intros p c. rewrite H3, dget_ddel, Hses.
        destruct (decide (p = project ∧ c ∈ stopped)) as [[-> Hin]|Hn].
        -- rewrite (decide_True (P := project = project ∧ c ∈ stopped ++ [s]))
             by (split; [done|apply elem_of_app; by left]). by case_decide.
        -- case_decide as Heq; [injection Heq as -> ->; rewrite decide_True; [done|]|
             rewrite decide_False; [done|]].
           ++ split; [done|apply elem_of_app; right; left].
           ++ intros [-> [?|Hcs%list_elem_of_singleton]%elem_of_app]; [tauto|].
              subst c. tauto.
    + do 3 eexists. rewrite app_nil_r. by rewrite <-HD.
  - rewrite decide_False by (unfold running; rewrite Hg; tauto). do 3 eexists. rewrite app_nil_r. by rewrite <-HD.
Qed.

(** In reverse breadth-first order a child precedes its only parent. *)
Lemma reverse_bfs_order m s (ids : list string) x y l1 l2 :
  NoDup ids → s ∉ ids →
  (∀ i1 x i2, ids = i1 ++ x :: i2 → ∃ y, (y = s ∨ y ∈ i1) ∧ spawn_edge m y x) →
  (∀ a b c, spawn_edge m a c → spawn_edge m b c → a = b) →
  filter (running m) (reverse ids) = l1 ++ x :: l2 → y ∈ l2 → ¬ spawn_edge m x y.
Proof.
  intros Hnd Hs Hfrom Hforest Hf Hy Hxy.
  destruct (filter_split _ _ _ _ _ Hf) as (r1 & r2 & Hr & _ & ->).
  apply list_elem_of_filter in Hy as [_ Hy].
  assert (Hids : ids = reverse r2 ++ x :: reverse r1).
  { rewrite <-(reverse_involutive ids), Hr, reverse_app, reverse_cons, <-app_assoc. done. }
  assert (Hy' : y ∈ reverse r2) by (by rewrite elem_of_reverse).
  destruct (list_elem_of_split _ _ Hy') as (a & b & Hab). rewrite Hab, <-app_assoc in Hids.
  destruct (Hfrom _ _ _ Hids) as (z & Hz & Hzy).
  rewrite (Hforest _ _ _ Hzy Hxy) in Hz. destruct Hz as [->|Hxa].
  - apply Hs. rewrite Hids. set_solver.
  - rewrite Hids in Hnd. apply NoDup_app in Hnd as (_ & Hd & _). apply (Hd x Hxa). set_solver.
Qed.
End cascade.

(** * Properties *)

(** The status mirror takes a run that can still move to the status
    the spawn reached, through RUNNING when it had not started; a finished
    or unknown run is left alone. *)
Theorem status_mirror {R} `{TrackerLaws R} c k st r s : rt_ok r → rt_status r c k = Some s →
  let r' := sync_run_registry_status c k st r in
  rt_ok r' ∧
  (rt_status r' c k = Some (mirror_target st s) ∨
   (run_active (mirror_target st s) = false ∧ rt_status r' c k = None)).
Proof.
  intros Hok Hs. unfold sync_run_registry_status, mirror_target. cbv zeta.
  case_bool_decide.
  { destruct (use_mark RUNNING rt_running c k r s law_running Hok Hs) as [Hyes Hno].
    case_bool_decide as Hp.
    - subst s. by destruct Hyes as (x & _ & Hok1 & Hs1).
    - rewrite Hno by (by destruct s). auto. }
  case_bool_decide; [apply finish_via_running; auto using law_completed|].
  case_bool_decide.
  { apply (finish_via_running FAILED (λ c k, rt_failed c k "Spawn failed"));
      auto using law_failed. }
  case_bool_decide; [|by auto].
  destruct (use_mark CANCELLED (λ c k, rt_cancelled c k (Some ("Spawn " +:+ st))) c k r s
    (law_cancelled _) Hok Hs) as [Hyes Hno].
  destruct (run_active s) eqn:Ha.
  - by destruct Hyes as (x & _ & Hok1 & Hs1); [destruct s|].
  - rewrite Hno by (by destruct s). auto.
Qed.

(** A fresh child registers one level below its parent and only while
    the parent is above the bound; beyond it [register_spawn] raises and
    stores nothing.  The depth computation always terminates. *)
Theorem register_spawn_depth {R} `{RunTracker R} (m : manager R) a uuid now :
  fresh_child (a_child_session a) (a_parent_session a) m →
  ∃ d, compute_depth (a_parent_session a) m = Some d ∧
    (if decide (d < max_spawn_depth m)
     then compute_depth (Some (a_child_session a)) (register_spawn a uuid now m).1 = Some (S d) ∧
          S d ≤ max_spawn_depth (register_spawn a uuid now m).1 ∧
          dget (a_child_session a) (records (register_spawn a uuid now m).1) =
            Some (new_record a uuid now)
     else register_spawn a uuid now m = (m, Err (SpawnDepthExceeded d (max_spawn_depth m)))).
Proof.
  intros Hf. destruct (compute_depth_total (a_parent_session a) m) as [d Hd]. exists d.
  split; [done|]. pose proof (compute_depth_stored a (new_record a uuid now) m Hf) as Hs.
  rewrite Hd in Hs. simpl in Hs.
  set (m1 := store_record a (new_record a uuid now) m) in *.
  unfold register_spawn; unfold_M. rewrite Hd.
  case_decide as Hlt; [rewrite bool_decide_true by done|by rewrite bool_decide_false].
  fold m1. set (m' := fst _). assert (compute_depth (Some (a_child_session a)) m' =
    compute_depth (Some (a_child_session a)) m1 ∧ max_spawn_depth m' = max_spawn_depth m ∧
    records m' = records m1) as (-> & -> & ->).
  { unfold m'. destruct (run_registry m) as [r|]; [|done].
    destruct (truthy_opt (a_conversation a)); [|done].
    by destruct (register_run _ _ _ _) as [r' [[]|e]]. }
  split_and!; [done|lia|]. apply dget_dset_eq.
Qed.

(** When the run registry refuses the run, as it does for the default
    empty task summary, [register_spawn] raises but the child is recorded
    as running. *)
Theorem failed_registration_recorded {R} `{RunTracker R} (m m' : manager R) a uuid now e :
  register_spawn a uuid now m = (m', Err (RunRegistryError e)) →
  get_record (a_child_session a) m' = Some (new_record a uuid now) ∧
  rec_status (new_record a uuid now) = "running".
Proof.
  unfold register_spawn; unfold_M. destruct (compute_depth _ _) as [d|]; [|done].
  case_bool_decide; [|done]. destruct (run_registry m) as [r|]; [|done].
  destruct (truthy_opt (a_conversation a)); [|done].
  destruct (register_run _ _ _ _) as [r' [[]|e']]; [done|]. intros [= <- <-].
  split; [|done]. apply dget_dset_eq.
Qed.

(** [find_descendants] terminates and lists each recorded session
    that a chain of child sets connects to the given one, once, after the
    session it was reached from. *)
Theorem find_descendants_spec {R} `{RunTracker R} (m : manager R) s : records_keyed m →
  ∃ ds, find_descendants s false m = Some ds ∧ NoDup (child_session_id <$> ds) ∧
    (∀ r, r ∈ ds ↔ dget (child_session_id r) (records m) = Some r ∧ child_session_id r ≠ s ∧
       tc (spawn_edge m) s (child_session_id r)) ∧
    (∀ d1 r d2, ds = d1 ++ r :: d2 → ∃ y, (y = s ∨ y ∈ child_session_id <$> d1) ∧
       spawn_edge m y (child_session_id r)).
Proof.
  intros Hk. destruct (find_descendants_ids s m Hk) as (ds & Hds & Hids & Hrec).
  destruct (descendant_ids_spec s m) as (ids & Hids' & Hnd & Hex & Hfrom).
  rewrite Hids in Hids'. injection Hids' as <-.
  exists ds. split_and!; [done..| |].
  - intros r. rewrite <-Hex. split.
    + intros Hr. split; [auto|by apply list_elem_of_fmap_2].
    + intros [Hg (x & Hx & Hin)%list_elem_of_fmap]. pose proof (Hrec x Hin). congruence.
  - intros d1 r d2 ->. rewrite fmap_app, fmap_cons in Hfrom. by apply (Hfrom _ _ _ eq_refl).
Qed.

(** C7. [cascade_stop] terminates; it stops exactly the running sessions
    of the subtree, the root last, calls [on_stop] on each in that order,
    unregisters them from the project and leaves every other record alone,
    so nothing of the subtree is running afterwards.  When no session has
    two parents, no session is stopped before a child of it. *)
Theorem cascade_stop_spec {R} `{RunTracker R} (m : manager R) s project conv :
  records_keyed m →
  ∃ m' stopped calls, cascade_stop s project conv m = Some (m', stopped, calls) ∧
    NoDup stopped ∧ calls.*1 = stopped ∧
    (∀ k, k ∈ stopped ↔ (k = s ∨ tc (spawn_edge m) s k) ∧ running m k) ∧
    stopped_records stopped (records m) (records m') ∧
    (∀ k, k = s ∨ tc (spawn_edge m) s k → ¬ running m' k) ∧
    (∀ p c, dget (p, c) (agent_sessions m') =
       if decide (p = project ∧ c ∈ stopped) then None else dget (p, c) (agent_sessions m)) ∧
    ((∀ a b c, spawn_edge m a c → spawn_edge m b c → a = b) →
     ∀ l1 x l2 y, stopped = l1 ++ x :: l2 → y ∈ l2 → spawn_edge m x y → y = s).
Proof.
  intros Hk.
  destruct (cascade_stop_ids s project conv m Hk)
    as (ids & m' & stopped & calls & Hids & Hc & Hst & Hcalls & Hrec & Hses).
  destruct (descendant_ids_spec s m) as (ids' & Hids' & Hnd & Hex & Hfrom).
  rewrite Hids in Hids'. injection Hids' as <-.
  assert (Hs : s ∉ ids) by (by intros [? _]%Hex).
  assert (Hin : ∀ k, k ∈ stopped ↔ (k = s ∨ tc (spawn_edge m) s k) ∧ running m k).
  { intros k. rewrite Hst, elem_of_app, list_elem_of_filter, elem_of_reverse, Hex.
    destruct (decide (k = s)) as [->|Hne].
    - case_decide; [rewrite list_elem_of_singleton|rewrite elem_of_nil]; tauto.
    - case_decide; [rewrite list_elem_of_singleton|rewrite elem_of_nil]; tauto. }
  exists m', stopped, calls. split_and!; [done| |done..| |done|].
  - rewrite Hst. apply NoDup_app. split;
      [by apply NoDup_filter; rewrite reverse_Permutation|]. split.
    + intros x [_ Hx]%list_elem_of_filter. rewrite elem_of_reverse in Hx.
      case_decide; [intros ->%list_elem_of_singleton; done|by intros ?%elem_of_nil].
    + case_decide; [apply NoDup_singleton|constructor].
  - intros k Hsub Hrun. unfold running in Hrun. rewrite Hrec in Hrun.
    destruct (decide (k ∈ stopped)) as [Hks|Hks].
    + destruct (dget k (records m)); simpl in Hrun; [discriminate Hrun|done].
    + apply Hks, Hin. by split.
  - intros Hforest l1 x l2 y Hl Hy Hxy. destruct (decide (y = s)) as [|Hys]; [done|exfalso].
    set (D := filter (running m) (reverse ids)) in *.
    assert (HsD : s ∉ D).
    { unfold D. intros [_ Hx]%list_elem_of_filter. by rewrite elem_of_reverse in Hx. }
    assert (∃ l2', D = l1 ++ x :: l2' ∧ y ∈ l2') as (l2' & HD & Hy2).
    { rewrite Hl in Hst. case_decide as Hrs; [|rewrite app_nil_r in Hst; eauto].
      destruct (decide (l2 = [])) as [->|Hne]; [by apply elem_of_nil in Hy|].
      destruct (exists_last Hne) as (l2' & z & ->).
      rewrite app_comm_cons, app_assoc in Hst. apply app_inj_tail in Hst as [HD ->].
      exists l2'. split; [done|]. apply elem_of_app in Hy as [|Hy%list_elem_of_singleton]; done. }
    by eapply (reverse_bfs_order m s ids x y).
Qed.

(** * Admission control: spawn_policy.py and spawn_validator.py *)

Module SpawnValidator.

Inductive SpawnRejectionCode : Set :=
  | DEPTH_EXCEEDED | CONCURRENCY_EXCEEDED | CHILDREN_EXCEEDED | SUBAGENT_NOT_ALLOWED.

Record SpawnPolicy : Type := mkPolicy {
  max_depth : Z;
  max_active_runs : Z;
  max_children_per_requester : Z;
  allowed_subagents : option (list string);
}.
Inductive policy_error : Set := NegativeDepth | ActiveRunsTooSmall | ChildrenTooSmall.
Definition new_policy (d a c : Z) (allow : option (list string)) : result policy_error SpawnPolicy :=
  if bool_decide (d < 0)%Z then Err NegativeDepth
  else if bool_decide (a < 1)%Z then Err ActiveRunsTooSmall
  else if bool_decide (c < 1)%Z then Err ChildrenTooSmall
  else Ok (mkPolicy d a c allow).

(** The result without its message and diagnostic context. *)
Definition SpawnValidationResult : Type := option SpawnRejectionCode.

(** [validate]; the requester's session is not used. *)
Definition validate (p : SpawnPolicy) (subagent_name : string) (current_depth : Z)
    (conversation_id : string) (requester_session_id : option string) (rs : runs_map)
    : SpawnValidationResult :=
  if bool_decide (max_depth p <= current_depth)%Z then Some DEPTH_EXCEEDED
  else if match allowed_subagents p with
          | Some l => negb (bool_decide (subagent_name ∈ l))
          | None => false
          end then Some SUBAGENT_NOT_ALLOWED
  else if bool_decide (max_children_per_requester p <=
                         Z.of_nat (count_active_runs conversation_id rs))%Z
  then Some CHILDREN_EXCEEDED
  else if bool_decide (max_active_runs p <= Z.of_nat (count_all_active_runs rs))%Z
  then Some CONCURRENCY_EXCEEDED
  else None.
End SpawnValidator.

(** [n] active runs of one requester, all in one conversation. *)
Definition busy_run (i : nat) : SubAgentRun :=
  mkRun "c" "worker" "work" (pretty i) RUNNING 0 (Some 1%Z) None None None None None
    [("requester_session_key", PStr "busy")] None None None None None.
Definition busy_bucket (n : nat) : bucket := (λ i, (pretty i, busy_run i)) <$> seq 0 n.
Lemma busy_keyed n : bucket_keyed (busy_bucket n).
Proof.
  unfold busy_bucket. split.
  - unfold dict_wf, dkeys. rewrite <-list_fmap_compose. apply NoDup_fmap_2; [|apply NoDup_seq].
    by intros i j ?%(inj pretty).
  - by intros k r (i & [= -> ->] & _)%dget_Some_elem%list_elem_of_fmap.
Qed.
Lemma busy_vals n : dvals (busy_bucket n) = busy_run <$> seq 0 n.
Proof. unfold dvals, busy_bucket. by rewrite <-list_fmap_compose. Qed.
Lemma busy_active n : length (filter (λ r, is_active r = true) (dvals (busy_bucket n))) = n.
Proof.
  rewrite busy_vals. generalize 0. induction n as [|n IH]; intros k; [done|].
  cbn [seq]. rewrite fmap_cons, filter_cons_True by done. cbn [length]. by rewrite IH.
Qed.
Lemma busy_idle n :
  filter (λ r, is_active r = true ∧ run_requester_key r = "idle") (dvals (busy_bucket n)) = [].
Proof.
  rewrite busy_vals. generalize 0. induction n as [|n IH]; intros k; [done|].
  cbn [seq]. rewrite fmap_cons, filter_cons_False; [apply IH|].
  intros [_ Hk]. vm_compute in Hk. discriminate.
Qed.

(** The validator reports the first check that fails, in the documented
    order, and accepts when none does.  The children it counts against
    [max_children_per_requester] are the conversation's: whatever the policy
    bounds, a requester without a single active child can be refused because
    of the children of another. *)
Theorem validator_spec :
  (∀ p name depth c req rs,
    let in_depth := (depth < SpawnValidator.max_depth p)%Z in
    let in_allowlist := ∀ l, SpawnValidator.allowed_subagents p = Some l → name ∈ l in
    let in_children :=
      (Z.of_nat (count_active_runs c rs) < SpawnValidator.max_children_per_requester p)%Z in
    let in_total :=
      (Z.of_nat (count_all_active_runs rs) < SpawnValidator.max_active_runs p)%Z in
    match SpawnValidator.validate p name depth c req rs with
    | Some SpawnValidator.DEPTH_EXCEEDED => ¬ in_depth
    | Some SpawnValidator.SUBAGENT_NOT_ALLOWED => in_depth ∧ ¬ in_allowlist
    | Some SpawnValidator.CHILDREN_EXCEEDED => in_depth ∧ in_allowlist ∧ ¬ in_children
    | Some SpawnValidator.CONCURRENCY_EXCEEDED =>
        in_depth ∧ in_allowlist ∧ in_children ∧ ¬ in_total
    | None => in_depth ∧ in_allowlist ∧ in_children ∧ in_total
    end) ∧
  (∀ n, 0 < n → ∃ rs,
    SpawnValidator.validate (SpawnValidator.mkPolicy 1 (Z.of_nat (S n)) (Z.of_nat n) None)
      "worker" 0 "c" (Some "idle") rs = Some SpawnValidator.CHILDREN_EXCEEDED ∧
    count_active_runs_for_requester "c" "idle" rs = 0 ∧ bucket_keyed (bucket_of "c" rs)).
Proof.
  split.
  - intros p name depth c req rs in_depth in_allow in_children in_total.
    unfold SpawnValidator.validate, in_depth, in_allow, in_children, in_total.
    case_bool_decide; [lia|].
    destruct (SpawnValidator.allowed_subagents p) as [l|].
    + case_bool_decide as Hl; simpl.
      * repeat case_bool_decide; split_and?; try lia; intros ? [= <-]; done.
      * split; [lia|]. auto.
    + repeat case_bool_decide; split_and?; try lia; by intros ? [=].
  - intros n Hn. exists [("c", busy_bucket n)].
    assert (bucket_of "c" [("c", busy_bucket n)] = busy_bucket n) as Hb by done.
    split_and!; [|by unfold count_active_runs_for_requester; rewrite Hb; cbn -[filter];
                   rewrite busy_idle|apply busy_keyed].
    unfold SpawnValidator.validate, count_active_runs. rewrite Hb, busy_active.
    cbn -[Z.of_nat bool_decide]. rewrite bool_decide_false by lia. by rewrite bool_decide_true by lia.
Qed.

Lemma sum_list_dset (rs : runs_map) c b : dict_wf rs →
  sum_list ((λ b, length (filter (λ r, is_active r = true) (dvals b))) <$> dvals (dset c b rs)) +
    length (filter (λ r, is_active r = true) (dvals (bucket_of c rs))) =
  sum_list ((λ b, length (filter (λ r, is_active r = true) (dvals b))) <$> dvals rs) +
    length (filter (λ r, is_active r = true) (dvals b)).
Proof.
  intros _. unfold bucket_of, dget_or. induction rs as [|[k v] rs IH]; csimpl; [lia|].
  case_decide; csimpl; lia.
Qed.

Lemma active_length_dset (b : bucket) r k : dget k b = None → is_active r = true →
  length (filter (λ r, is_active r = true) (dvals (dset k r b))) =
  S (length (filter (λ r, is_active r = true) (dvals b))).
Proof.
  intros Hk Ha. rewrite dset_new by (by apply dget_None_keys).
  unfold dvals. rewrite fmap_app, filter_app, length_app. csimpl.
  rewrite filter_cons, decide_True by done. simpl. lia.
Qed.
Lemma active_length_without dead (b : bucket) :
  length (filter (λ r, is_active r = true) (dvals (without dead b))) ≤
  length (filter (λ r, is_active r = true) (dvals b)).
Proof.
  unfold without, dvals. induction b as [|[k r] b IH]; [done|].
  rewrite filter_cons. case_decide; csimpl; rewrite ?filter_cons; repeat case_decide; simpl; lia.
Qed.

(** Admission is a bound: when the validator accepts and the run is
    created under a new id, the active runs of the whole registry stay
    within [max_active_runs] and those of the conversation within
    [max_children_per_requester]. *)
Theorem admitted_run_within_bounds {St} `{RunRepository St} cfg now p name depth c req fresh
    agent tsk meta rid requester parent lineage (g g' : registry St) r :
  store g = None → runs_wf (runs g) →
  SpawnValidator.validate p name depth c req (runs g) = None →
  create_run cfg now fresh c agent tsk meta rid requester parent lineage g = (g', Ok r) →
  dget (run_id r) (bucket_of c (runs g)) = None →
  (Z.of_nat (count_active_runs c (runs g')) <= SpawnValidator.max_children_per_requester p)%Z ∧
  (Z.of_nat (count_all_active_runs (runs g')) <= SpawnValidator.max_active_runs p)%Z.
Proof.
  intros Hs Hw Hv (-> & Hwr & _ & <- & Hst & _)%create_run_ok Hnew.
  set (c := conversation_id r) in *.
  unfold SpawnValidator.validate in Hv. case_all Hv. split_bools.
  unfold sync_locked. rewrite Hs.
  assert (Hact : is_active r = true) by (unfold is_active; by rewrite Hst).
  set (n := λ b : bucket, length (filter (λ r, is_active r = true) (dvals b))) in *.
  pose proof (rw_bucket _ Hw c) as Hbk.
  assert (Hb' : n (evict_bucket cfg now (dset (run_id r) r (bucket_of c (runs g)))) ≤
    S (n (bucket_of c (runs g)))).
  { destruct (evict_bucket_spec cfg now _ (keyed_dset_run _ r Hbk)) as (d1 & d2 & rest & -> & _).
    unfold n. rewrite <-(active_length_dset _ r (run_id r)) by done. apply active_length_without. }
  assert (Hcount : ∀ x (rs : runs_map), count_active_runs x rs = n (bucket_of x rs)) by done.
  rewrite Hcount, upsert_bucket, decide_True by done. rewrite Hcount in *.
  split; [lia|].
  unfold upsert_locked, persist_locked, evict_if_needed. simpl store. rewrite Hs. simpl runs. fold c.
  set (b0 := dset (run_id r) r (bucket_of c (runs g))) in *.
  rewrite bucket_of_dset, decide_True by done.
  destruct b0 as [|kv b0'] eqn:Hb0.
  { unfold b0 in Hb0. by destruct (bucket_of c (runs g)) as [|[??]?]; simpl in Hb0; [|case_decide]. }
  unfold count_all_active_runs in *. simpl runs.
  pose proof (sum_list_dset (dset c (kv :: b0') (runs g)) c (evict_bucket cfg now (kv :: b0'))
    (dset_wf _ _ _ (rw_dict _ Hw))) as E1.
  pose proof (sum_list_dset (runs g) c (kv :: b0') (rw_dict _ Hw)) as E2.
  rewrite bucket_of_dset, decide_True in E1 by done. unfold n in *. lia.
Qed.

(** * Witnesses *)

Definition spawn_tracker : RunTracker (registry runs_map) := registry_tracker sample_cfg 9.
Definition spawn_tracker_laws : TrackerLaws (registry runs_map) (H := spawn_tracker) :=
  registry_tracker_laws sample_cfg 9.
#[local] Existing Instance spawn_tracker.

Definition sample_registry : registry runs_map := mkReg [("c", sample_bucket)] None.
Definition sample_args (child : string) (parent : option string) (tsk : string) : spawn_args :=
  mkArgs "main" "worker" child "p" RUN tsk parent (Some "c") [] "" "" None None None.
(** The root session [s] spawned [a], which spawned [b]. *)
Definition spawn_m0 : manager (registry runs_map) := new_manager 2 [] (Some sample_registry).
Definition spawn_m1 := (register_spawn (sample_args "a" (Some "s") "work") "u1" 1 spawn_m0).1.
Definition spawn_m2 := (register_spawn (sample_args "b" (Some "a") "work") "u2" 2 spawn_m1).1.

Lemma status_mirror_witness :
  rt_status (sync_run_registry_status "c" "r" "completed" sample_registry) "c" "r" =
    Some COMPLETED ∨
  rt_status (sync_run_registry_status "c" "r" "completed" sample_registry) "c" "r" = None.
Proof.
  destruct (status_mirror (H0 := spawn_tracker_laws) "c" "r" "completed" sample_registry RUNNING)
    as [_ [H|[_ H]]]; [split; [reflexivity|exact reg_sample_wf]|reflexivity|left|right]; exact H.
Defined.

Lemma spawn_fresh0 : fresh_child "a" (Some "s") spawn_m0.
Proof.
  split; [discriminate|discriminate| | |intros q s Hq; by apply elem_of_nil in Hq];
    apply not_elem_of_nil.
Qed.
Lemma register_spawn_depth_witness : compute_depth (Some "a") spawn_m1 = Some 1.
Proof.
  destruct (register_spawn_depth spawn_m0 (sample_args "a" (Some "s") "work") "u1" 1 spawn_fresh0)
    as (d & Hd & H). injection Hd as <-. exact (proj1 H).
Defined.

Lemma failed_registration_witness :
  get_record "a" (register_spawn (sample_args "a" (Some "s") "") "u1" 1 spawn_m0).1 =
  Some (new_record (sample_args "a" (Some "s") "") "u1" 1).
Proof.
  exact (proj1 (failed_registration_recorded spawn_m0
    (register_spawn (sample_args "a" (Some "s") "") "u1" 1 spawn_m0).1
    (sample_args "a" (Some "s") "") "u1" 1 (RunError (EmptyField "task")) eq_refl)).
Defined.

Lemma spawn_m2_keyed : records_keyed spawn_m2.
Proof.
  split; [apply (bool_decide_unpack _); vm_compute; exact I|].
  intros k r Hr. vm_compute in Hr. by repeat (case_match; simplify_eq/=).
Qed.
Lemma find_descendants_witness : is_Some (find_descendants "s" false spawn_m2).
Proof.
  destruct (find_descendants_spec spawn_m2 "s" spawn_m2_keyed) as (ds & H & _).
  exists ds. exact H.
Defined.
Lemma cascade_stop_witness : ∃ m' stopped calls,
  cascade_stop "s" "p" (Some "c") spawn_m2 = Some (m', stopped, calls) ∧ NoDup stopped.
Proof.
  destruct (cascade_stop_spec spawn_m2 "s" "p" (Some "c") spawn_m2_keyed)
    as (m' & stopped & calls & H & Hn & _).
  exists m', stopped, calls. split; [exact H|exact Hn].
Defined.
Example cascade_order : (λ x, x.1.2) <$> cascade_stop "s" "p" (Some "c") spawn_m2 = Some ["b"; "a"].
Proof. vm_compute. reflexivity. Qed.

Lemma admitted_run_witness :
  (Z.of_nat (count_active_runs "c"
    (runs (create_run sample_cfg 9 "new" "c" "worker" "work" [] None None None None
             (mkReg (St := runs_map) [("c", sample_bucket)] None)).1)) <= 8)%Z.
Proof.
  destruct (create_run sample_cfg 9 "new" "c" "worker" "work" [] None None None None
             (mkReg (St := runs_map) [("c", sample_bucket)] None)) as [g' r] eqn:E.
  destruct r as [r|e]; [|vm_compute in E; discriminate E].
  assert (Hid : run_id r = "new") by (vm_compute in E; injection E as _ <-; reflexivity).
  apply (admitted_run_within_bounds sample_cfg 9 (SpawnValidator.mkPolicy 2 16 8 None) "worker" 0
    "c" None "new" "worker" "work" [] None None None None
    (mkReg (St := runs_map) [("c", sample_bucket)] None) g' r eq_refl reg_sample_wf eq_refl E).
  rewrite Hid. reflexivity.
Defined.
