(* ===== verification/Breaker.v ===== *)
(** What a circuit breaker promises, whichever of the two implementations
    answers: the phases it moves through, when it lets a request pass and
    when it fails fast.  [LlmBreaker.v] and [PoolBreaker.v] discharge the
    laws; the lemmas here are proved against the interface and applied to
    both in [Breakers.v]. *)

From S2P Require Import Prelude Machine.

Inductive CircuitState : Set := CLOSED | OPEN | HALF_OPEN.
#[export] Instance CircuitState_eq_dec : EqDecision CircuitState.
Proof. solve_decision. Defined.

Definition state_value (s : CircuitState) : string :=
  match s with
  | CLOSED => "closed"%string | OPEN => "open"%string | HALF_OPEN => "half_open"%string
  end.

(** What happens to a breaker, with the clock. *)
Inductive event : Set :=
  | Attempt (now : Z)      (** a caller asks to go through *)
  | Succeeded (now : Z)    (** a request it let through returned *)
  | Failed (now : Z).      (** a request it let through raised *)
Definition event_time (e : event) : Z :=
  match e with Attempt t | Succeeded t | Failed t => t end.

(** The phase changes each event may cause. *)
Definition may_move (e : event) (s t : CircuitState) : bool :=
  match e, s, t with
  | Attempt _, OPEN, HALF_OPEN => true
  | Succeeded _, HALF_OPEN, CLOSED => true
  | Failed _, (CLOSED | HALF_OPEN), OPEN => true
  | _, _, _ => false
  end.

Class Breaker (B : Type) : Type := {
  phase : B → CircuitState;
  open_since : B → option Z;          (** what the recovery timeout counts from *)
  recovery : B → Z;
  bk_ok : B → Prop;                   (** the breaker's invariant *)
  bk_step : event → B → B * bool;     (** the flag answers an [Attempt] *)
}.

Class BreakerLaws (B : Type) `{Breaker B} : Prop := {
  law_ok : ∀ e b, bk_ok b → bk_ok (bk_step e b).1;
  law_recovery : ∀ e b, recovery (bk_step e b).1 = recovery b;
  law_moves : ∀ e b, phase (bk_step e b).1 = phase b ∨
    may_move e (phase b) (phase (bk_step e b).1) = true;
  law_closed : ∀ now b, phase b = CLOSED →
    (bk_step (Attempt now) b).2 = true ∧ phase (bk_step (Attempt now) b).1 = CLOSED;
  law_open : ∀ b, bk_ok b → phase b = OPEN → is_Some (open_since b);
  law_fail_fast : ∀ now b t, phase b = OPEN → open_since b = Some t → (now < t + recovery b)%Z →
    (bk_step (Attempt now) b).2 = false ∧ phase (bk_step (Attempt now) b).1 = OPEN ∧
    open_since (bk_step (Attempt now) b).1 = Some t;
  law_probe : ∀ now b t, phase b = OPEN → open_since b = Some t → (t + recovery b <= now)%Z →
    phase (bk_step (Attempt now) b).1 = HALF_OPEN;
  law_late : ∀ e b t, phase b = OPEN → open_since b = Some t → (∀ now, e ≠ Attempt now) →
    phase (bk_step e b).1 = OPEN ∧
    ∃ t', open_since (bk_step e b).1 = Some t' ∧ (t' = t ∨ t' = event_time e);
}.

Section client.
Context {B : Type} `{BreakerLaws B}.

(** A history: the final breaker and the answers to the attempts. *)
Fixpoint run_events (es : list event) (b : B) : B * list bool :=
  match es with
  | [] => (b, [])
  | e :: es' =>
      let '(b1, ok) := bk_step e b in
      let '(b2, oks) := run_events es' b1 in
      (b2, match e with Attempt _ => ok :: oks | _ => oks end)
  end.

Lemma open_step e b t0 t : phase b = OPEN → open_since b = Some t → (t0 <= t)%Z →
  (t0 <= event_time e < t0 + recovery b)%Z →
  phase (bk_step e b).1 = OPEN ∧
  (∃ t', open_since (bk_step e b).1 = Some t' ∧ (t0 <= t')%Z) ∧
  (∀ now, e = Attempt now → (bk_step e b).2 = false).
Proof.
  intros Hp Ho Ht [He1 He2]. destruct e as [now|now|now].
  - destruct (law_fail_fast now b t Hp Ho) as (H1 & H2 & H3); [simpl in *; lia|].
    split; [done|]. split; [eauto|done].
  - destruct (law_late (Succeeded now) b t Hp Ho) as (H1 & t' & H2 & H3); [done|].
    split; [done|]. split; [|done]. exists t'. split; [done|]. destruct H3 as [->| ->]; done.
  - destruct (law_late (Failed now) b t Hp Ho) as (H1 & t' & H2 & H3); [done|].
    split; [done|]. split; [|done]. exists t'. split; [done|]. destruct H3 as [->| ->]; done.
Qed.

Lemma open_window es : ∀ b t0 t, phase b = OPEN → open_since b = Some t → (t0 <= t)%Z →
  Forall (λ e, t0 <= event_time e < t0 + recovery b)%Z es →
  phase (run_events es b).1 = OPEN ∧ Forall (.= false) (run_events es b).2.
Proof.
  induction es as [|e es IH]; intros b t0 t Hp Ho Ht Hes; [done|].
  inversion Hes as [|? ? He Hes']; subst. simpl.
  destruct (open_step e b t0 t Hp Ho Ht He) as (Hp' & (t' & Ho' & Ht') & Ha).
  pose proof (law_recovery e b) as Hr.
  destruct (bk_step e b) as [b1 ok]. simpl in *. rewrite <-Hr in Hes'.
  specialize (IH b1 t0 t' Hp' Ho' Ht' Hes'). destruct (run_events es b1) as [b2 oks].
  simpl in *. destruct IH as [? ?]. split; [done|].
  destruct e as [now|now|now]; [|done..]. constructor; [by apply (Ha now)|done].
Qed.

(** What attempts and failures leave of a breaker that is not closed. *)
Definition not_closed (b : B) : Prop :=
  phase b = HALF_OPEN ∨ (phase b = OPEN ∧ is_Some (open_since b)).

Lemma run_events_ok es : ∀ b, bk_ok b → bk_ok (run_events es b).1.
Proof.
  induction es as [|e es IH]; intros b Hb; [done|]. simpl.
  pose proof (law_ok e b Hb) as H1. destruct (bk_step e b) as [b1 ok]. specialize (IH b1 H1).
  by destruct (run_events es b1).
Qed.

(** Attempts alone never close a breaker. *)
Lemma attempts_never_close es : ∀ b, phase b ≠ CLOSED →
  Forall (λ e, ∃ now, e = Attempt now ∨ e = Failed now) es → phase (run_events es b).1 ≠ CLOSED.
Proof.
  induction es as [|e es IH]; intros b Hb Hes; [done|].
  inversion Hes as [|? ? He Hes']; subst. simpl.
  pose proof (law_moves e b) as Hm. destruct (bk_step e b) as [b1 ok]. simpl in *.
  specialize (IH b1). destruct (run_events es b1) as [b2 oks]. simpl in *.
  apply IH; [|done]. destruct He as [now [->| ->]]; destruct Hm as [->|Hm]; try done;
    intros Hc; rewrite Hc in Hm; by destruct (phase b).
Qed.
Lemma stays_not_closed b es : bk_ok b → phase b ≠ CLOSED →
  Forall (λ e, ∃ now, e = Attempt now ∨ e = Failed now) es → not_closed (run_events es b).1.
Proof.
  intros Hok Hp Hes. pose proof (run_events_ok es b Hok) as Hok'.
  pose proof (attempts_never_close es b Hp Hes). unfold not_closed.
  destruct (phase (run_events es b).1) eqn:E; [done|right|by left].
  split; [done|]. by apply law_open.
Qed.
End client.
