(* ===== verification/LlmBreaker.v ===== *)
(** The circuit breaker of the LLM providers, and its registry.

    Source: src/src/infrastructure/llm/resilience/circuit_breaker.py.  The
    state-change callback and the log are left out: the callback's
    exceptions are swallowed and nothing reads its result.  The state store
    is a parameter (Redis), as an optional saved state. *)

From S2P Require Import Prelude Machine Breaker.

Open Scope string_scope.
Open Scope list_scope.
Open Scope nat_scope.

Record config : Type := mkConfig {
  failure_threshold : nat;
  success_threshold : nat;
  recovery_timeout : Z;
  half_open_max_requests : nat;
}.
Definition default_config : config := mkConfig 5 2 60 3.

Record stats : Type := mkStats {
  total_requests : nat;
  successful_requests : nat;
  failed_requests : nat;
  rejected_requests : nat;
  state_changes : nat;
  stats_last_failure : option Z;
  stats_last_success : option Z;
  stats_last_change : option Z;
}.

Record breaker : Type := mkBreaker {
  cfg : config;
  state : CircuitState;
  failure_count : nat;
  success_count : nat;
  half_open_requests : nat;
  last_failure_time : option Z;
  last_state_change : Z;
  st : stats;
}.
Definition new_breaker (c : config) (now : Z) : breaker :=
  mkBreaker c CLOSED 0 0 0 None now (mkStats 0 0 0 0 0 None None None).

Definition set_stats (s : stats) (b : breaker) : breaker :=
  mkBreaker (cfg b) (state b) (failure_count b) (success_count b) (half_open_requests b)
    (last_failure_time b) (last_state_change b) s.
Definition set_counts (f s h : nat) (b : breaker) : breaker :=
  mkBreaker (cfg b) (state b) f s h (last_failure_time b) (last_state_change b) (st b).

Definition transition_to (new : CircuitState) (now : Z) (b : breaker) : breaker :=
  if bool_decide (state b = new) then b
  else
    let s := st b in
    let b := mkBreaker (cfg b) new (failure_count b) (success_count b) (half_open_requests b)
      (last_failure_time b) now
      (mkStats (total_requests s) (successful_requests s) (failed_requests s)
         (rejected_requests s) (S (state_changes s)) (stats_last_failure s)
         (stats_last_success s) (Some now)) in
    match new with
    | CLOSED => set_counts 0 0 0 b
    | HALF_OPEN => set_counts (failure_count b) 0 0 b
    | OPEN => set_counts (failure_count b) 0 (half_open_requests b) b
    end.

Definition check_state_transition (now : Z) (b : breaker) : breaker :=
  if bool_decide (state b = OPEN) then
    match last_failure_time b with
    | Some t =>
        if bool_decide (recovery_timeout (cfg b) <= now - t)%Z
        then transition_to HALF_OPEN now b else b
    | None => b
    end
  else b.

Definition reject (b : breaker) : breaker :=
  let s := st b in
  set_stats (mkStats (total_requests s) (successful_requests s) (failed_requests s)
    (S (rejected_requests s)) (state_changes s) (stats_last_failure s) (stats_last_success s)
    (stats_last_change s)) b.

Definition can_execute (now : Z) (b : breaker) : breaker * bool :=
  let b := check_state_transition now b in
  match state b with
  | CLOSED => (b, true)
  | HALF_OPEN =>
      if bool_decide (half_open_requests b < half_open_max_requests (cfg b))
      then (b, true) else (reject b, false)
  | OPEN => (reject b, false)
  end.

Definition record_success (now : Z) (b : breaker) : breaker :=
  let s := st b in
  let b := set_stats (mkStats (S (total_requests s)) (S (successful_requests s))
    (failed_requests s) (rejected_requests s) (state_changes s) (stats_last_failure s)
    (Some now) (stats_last_change s)) b in
  match state b with
  | HALF_OPEN =>
      let b := set_counts (failure_count b) (S (success_count b)) (half_open_requests b) b in
      if bool_decide (success_threshold (cfg b) <= success_count b)
      then transition_to CLOSED now b else b
  | CLOSED => set_counts 0 (success_count b) (half_open_requests b) b
  | OPEN => b
  end.

Definition record_failure (now : Z) (b : breaker) : breaker :=
  let s := st b in
  let b := mkBreaker (cfg b) (state b) (failure_count b) (success_count b)
    (half_open_requests b) (Some now) (last_state_change b)
    (mkStats (S (total_requests s)) (successful_requests s) (S (failed_requests s))
       (rejected_requests s) (state_changes s) (Some now) (stats_last_success s)
       (stats_last_change s)) in
  match state b with
  | HALF_OPEN => transition_to OPEN now b
  | CLOSED =>
      let b := set_counts (S (failure_count b)) (success_count b) (half_open_requests b) b in
      if bool_decide (failure_threshold (cfg b) <= failure_count b)
      then transition_to OPEN now b else b
  | OPEN => b
  end.

Definition reset (now : Z) (b : breaker) : breaker :=
  set_counts 0 0 0 (transition_to CLOSED now b).

(** What [sync_to_store] saves and [sync_from_store] restores. *)
Record saved_state : Type := mkSaved {
  sv_state : CircuitState;
  sv_failure_count : nat;
  sv_success_count : nat;
  sv_half_open_requests : nat;
  sv_last_failure_time : option Z;
  sv_last_state_change : Z;
}.
Definition sync_to_store (b : breaker) : saved_state :=
  mkSaved (state b) (failure_count b) (success_count b) (half_open_requests b)
    (last_failure_time b) (last_state_change b).
Definition sync_from_store (loaded : option saved_state) (b : breaker) : breaker :=
  match loaded with
  | None => b
  | Some l => mkBreaker (cfg b) (sv_state l) (sv_failure_count l) (sv_success_count l)
      (sv_half_open_requests l) (sv_last_failure_time l) (sv_last_state_change l) (st b)
  end.

(** * The registry *)

Definition breakers : Type := list (string * breaker).
Definition get_breaker (dflt : config) (now : Z) (pid : string) (c : option config)
    (bs : breakers) : breakers * breaker :=
  match dget pid bs with
  | Some b => (bs, b)
  | None => let b := new_breaker (default dflt c) now in (dset pid b bs, b)
  end.
Definition reset_all (now : Z) (bs : breakers) : breakers :=
  (λ pb : string * breaker, (pb.1, reset now pb.2)) <$> bs.

(** * The laws *)

(** An open breaker has seen a failure; the counters stay below their
    thresholds; nothing ever counts a half-open request. *)
Record breaker_ok (b : breaker) : Prop := {
  ok_open : state b = OPEN → is_Some (last_failure_time b);
  ok_half : half_open_requests b = 0;
}.

#[export] Instance llm_breaker : Breaker breaker := {
  phase := state;
  open_since := last_failure_time;
  recovery := λ b, recovery_timeout (cfg b);
  bk_ok := breaker_ok;
  bk_step := λ e b,
    match e with
    | Attempt now => can_execute now b
    | Succeeded now => (record_success now b, true)
    | Failed now => (record_failure now b, true)
    end;
}.

Ltac breaker_cases :=
  unfold can_execute, check_state_transition, record_success, record_failure, reset, reject,
    transition_to, set_counts, set_stats in *; simpl in *;
  repeat (case_bool_decide; simpl in * ); try done.

#[export] Instance llm_laws : BreakerLaws breaker.
Proof.
  split.
  - intros e b [Ho Hh]. destruct e as [now|now|now], b as [c s f sc h lf lc stt]; simpl in *;
      destruct s, lf; breaker_cases; split; simpl; eauto; try done.
  - intros e b. destruct e as [now|now|now], b as [c s f sc h lf lc stt]; simpl in *;
      destruct s, lf; by breaker_cases.
  - intros e b. destruct e as [now|now|now], b as [c s f sc h lf lc stt]; simpl in *;
      destruct s, lf; breaker_cases; auto.
  - intros now b Hc. destruct b as [c s f sc h lf lc stt]; simpl in *; subst; by breaker_cases.
  - intros b [Ho _] Hs. by apply Ho.
  - intros now b t Hp Ho Ht. destruct b as [c s f sc h lf lc stt]; simpl in *; subst.
    breaker_cases; lia.
  - intros now b t Hp Ho Ht. destruct b as [c s f sc h lf lc stt]; simpl in *; subst.
    breaker_cases; lia.
  - intros e b t Hp Ho He. destruct b as [c s f sc h lf lc stt]; simpl in *; subst.
    destruct e as [now|now|now]; [by destruct (He now)|..]; breaker_cases; eauto 10.
Qed.

(** * Counting towards the thresholds *)

Fixpoint iter_failures (n : nat) (now : Z) (b : breaker) : breaker :=
  match n with O => b | S n' => iter_failures n' now (record_failure now b) end.

(** The operations on a breaker as one type; [Sync] restores a saved state. *)
Inductive llm_op : Type :=
  | CanExecute (now : Z) | Success (now : Z) | Failure (now : Z) | Reset (now : Z).
Definition apply_op (o : llm_op) (b : breaker) : breaker :=
  match o with
  | CanExecute now => (can_execute now b).1
  | Success now => record_success now b
  | Failure now => record_failure now b
  | Reset now => reset now b
  end.

Record counts_ok (b : breaker) : Prop := {
  co_half : half_open_requests b = 0;
  co_closed : state b = CLOSED → failure_count b < failure_threshold (cfg b);
  co_success : state b = HALF_OPEN → success_count b < success_threshold (cfg b);
  co_open : state b = OPEN → is_Some (last_failure_time b);
}.

Lemma counts_ok_op o b : 0 < failure_threshold (cfg b) → 0 < success_threshold (cfg b) →
  counts_ok b → counts_ok (apply_op o b) ∧ cfg (apply_op o b) = cfg b.
Proof.
  intros Hft Hst [H1 H2 H3 H4].
  destruct o as [now|now|now|now], b as [c s f sc h lf lc stt]; simpl in *;
    destruct s, lf; breaker_cases; (split; [|done]); constructor; simpl; intros; try done;
    eauto; try lia.
Qed.

(** * Properties *)

(** The counters never pass their thresholds: from a new breaker, every
    history keeps the failures of a closed breaker below
    [failure_threshold] and the successes of a half-open one below
    [success_threshold], and an open breaker always has the failure time
    its recovery waits on. *)
Theorem llm_counters_bounded c now ops :
  0 < failure_threshold c → 0 < success_threshold c →
  let b := foldl (λ b o, apply_op o b) (new_breaker c now) ops in
  (state b = CLOSED → failure_count b < failure_threshold c) ∧
  (state b = HALF_OPEN → success_count b < success_threshold c) ∧
  (state b = OPEN → is_Some (last_failure_time b)).
Proof.
  intros Hft Hst.
  assert (∀ ops b, cfg b = c → counts_ok b →
    counts_ok (foldl (λ b o, apply_op o b) b ops) ∧
    cfg (foldl (λ b o, apply_op o b) b ops) = c) as Hall.
  { induction ops0 as [|o ops0 IH]; intros b Hc Hb; [done|]. simpl. subst c.
    destruct (counts_ok_op o b Hft Hst Hb) as [Hb' Hc']. by apply IH. }
  destruct (Hall ops (new_breaker c now)) as [[_ H2 H3 H4] Hc]; [done|by split|].
  simpl. rewrite Hc in *. done.
Qed.

(** A closed breaker with [k] failures since the last success opens
    at exactly the failure that makes them [failure_threshold], and a
    success in between starts the count again. *)
Theorem llm_trips_exactly b now n :
  state b = CLOSED → failure_count b < failure_threshold (cfg b) →
  n ≤ failure_threshold (cfg b) - failure_count b →
  (state (iter_failures n now b) =
     if decide (n = failure_threshold (cfg b) - failure_count b) then OPEN else CLOSED) ∧
  failure_count (record_success now b) = 0.
Proof.
  intros Hs Hlt Hn. split; [|destruct b as [c s f sc h lf lc stt]; simpl in *; by subst].
  revert b Hs Hlt Hn. induction n as [|n IH]; intros b Hs Hlt Hn.
  { simpl. rewrite decide_False by lia. done. }
  destruct b as [c s f sc h lf lc stt]. simpl in Hs, Hlt, Hn. subst s.
  cbn [iter_failures]. unfold record_failure. simpl. unfold set_counts. simpl.
  case_bool_decide as Hge.
  - assert (n = 0) as -> by lia. simpl. by rewrite decide_True by lia.
  - rewrite IH by (simpl; lia || done). simpl.
    destruct (decide (n = failure_threshold c - S f)), (decide (S n = failure_threshold c - f));
      try done; lia.
Qed.

(** The half-open limit is never enforced: nothing increments
    [half_open_requests], so after the recovery timeout every attempt of
    any sequence is let through. *)
Theorem llm_half_open_unlimited b nows :
  breaker_ok b → state b = HALF_OPEN → 0 < half_open_max_requests (cfg b) →
  (run_events (Attempt <$> nows) b).2 = replicate (length nows) true.
Proof.
  intros [_ Hh] Hs Hm. induction nows as [|now nows IH]; [done|]. csimpl.
  assert (can_execute now b = (b, true)) as ->.
  { destruct b as [c s f sc h lf lc stt]; simpl in *; subst. breaker_cases. }
  by destruct (run_events (Attempt <$> nows) b) as [b2 oks]; simpl in *; subst.
Qed.

(** * Witnesses *)

Definition opened_breaker : breaker := iter_failures 5 100 (new_breaker default_config 0).
Definition half_open_breaker : breaker := (can_execute 200 opened_breaker).1.

Lemma opened_ok : breaker_ok opened_breaker.
Proof. split; [by intros _; exists 100%Z|done]. Qed.
Lemma llm_counters_witness :
  state (foldl (λ b o, apply_op o b) (new_breaker default_config 0) [Failure 1; Failure 2]) =
    CLOSED ∧
  failure_count (foldl (λ b o, apply_op o b) (new_breaker default_config 0)
    [Failure 1; Failure 2]) < 5.
Proof.
  split; [reflexivity|].
  apply (llm_counters_bounded default_config 0 [Failure 1; Failure 2]);
    [simpl; lia|simpl; lia|reflexivity].
Defined.
Lemma llm_trips_witness : state (iter_failures 5 100 (new_breaker default_config 0)) = OPEN.
Proof.
  destruct (llm_trips_exactly (new_breaker default_config 0) 100 5) as [H _];
    [reflexivity|simpl; lia|simpl; lia|]. exact H.
Defined.
Lemma llm_half_open_witness :
  (run_events (Attempt <$> [201; 202; 203; 204; 205]%Z) half_open_breaker).2 =
  [true; true; true; true; true].
Proof.
  apply (llm_half_open_unlimited half_open_breaker [201; 202; 203; 204; 205]%Z);
    [split; done|reflexivity|simpl; lia].
Defined.
