(* ===== verification/PoolBreaker.v ===== *)
(** The circuit breaker of the agent pool, and its registry.

    Source: src/src/infrastructure/agent/pool/circuit_breaker/breaker.py.
    [call] is split where it awaits: [begin_call] is the part under the
    lock, [on_success] and [on_failure] what follows the protected function.
    A call that is cancelled (an exception outside [Exception]) has a
    [begin_call] and nothing after it.  Times are integers; the state-change
    callback, the log and the timestamps nothing reads are left out. *)

From S2P Require Import Prelude Machine Breaker.

Open Scope string_scope.
Open Scope list_scope.
Open Scope nat_scope.

Record config : Type := mkConfig {
  failure_threshold : nat;
  recovery_timeout : Z;
  half_open_limit : nat;      (** [half_open_requests] *)
  success_threshold : nat;
  window : Z;
}.
Definition default_config : config := mkConfig 5 60 3 2 60.

Record stats : Type := mkStats {
  total_calls : nat;
  successful_calls : nat;
  failed_calls : nat;
  rejected_calls : nat;
  state_changes : list (CircuitState * CircuitState);
}.

Record breaker : Type := mkBreaker {
  cfg : config;
  state : CircuitState;
  failure_count : nat;
  success_count : nat;
  half_open_calls : nat;
  opened_at : option Z;
  failure_timestamps : list Z;
  st : stats;
}.
Definition new_breaker (c : config) : breaker :=
  mkBreaker c CLOSED 0 0 0 None [] (mkStats 0 0 0 0 []).

(** The most recent [n] entries, [l[-n:]]. *)
Definition last_n {A} (n : nat) (l : list A) : list A := drop (length l - n) l.

Definition transition_to (new : CircuitState) (now : Z) (b : breaker) : breaker :=
  let s := st b in
  let changes := state_changes s ++ [(state b, new)] in
  let changes := if bool_decide (100 < length changes) then last_n 100 changes else changes in
  let s := mkStats (total_calls s) (successful_calls s) (failed_calls s) (rejected_calls s)
             changes in
  match new with
  | CLOSED => mkBreaker (cfg b) CLOSED 0 0 0 None (failure_timestamps b) s
  | OPEN => mkBreaker (cfg b) OPEN (failure_count b) 0 (half_open_calls b) (Some now)
              (failure_timestamps b) s
  | HALF_OPEN => mkBreaker (cfg b) HALF_OPEN (failure_count b) 0 0 (opened_at b)
                   (failure_timestamps b) s
  end.

Definition should_try_reset (now : Z) (b : breaker) : bool :=
  match opened_at b with
  | None => true
  | Some t => bool_decide (recovery_timeout (cfg b) <= now - t)%Z
  end.

Definition reject (b : breaker) : breaker :=
  let s := st b in
  mkBreaker (cfg b) (state b) (failure_count b) (success_count b) (half_open_calls b)
    (opened_at b) (failure_timestamps b)
    (mkStats (total_calls s) (successful_calls s) (failed_calls s) (S (rejected_calls s))
       (state_changes s)).
Definition set_half_open (n : nat) (b : breaker) : breaker :=
  mkBreaker (cfg b) (state b) (failure_count b) (success_count b) n (opened_at b)
    (failure_timestamps b) (st b).
Definition count_call (b : breaker) : breaker :=
  let s := st b in
  mkBreaker (cfg b) (state b) (failure_count b) (success_count b) (half_open_calls b)
    (opened_at b) (failure_timestamps b)
    (mkStats (S (total_calls s)) (successful_calls s) (failed_calls s) (rejected_calls s)
       (state_changes s)).

(** [call] up to the protected function; [false] is [CircuitOpenError]. *)
Definition begin_call (now : Z) (b : breaker) : breaker * bool :=
  let try_half_open b :=
    if bool_decide (state b = HALF_OPEN) then
      if bool_decide (half_open_limit (cfg b) <= half_open_calls b) then (reject b, false)
      else (count_call (set_half_open (S (half_open_calls b)) b), true)
    else (count_call b, true) in
  if bool_decide (state b = OPEN) then
    if should_try_reset now b then try_half_open (transition_to HALF_OPEN now b)
    else (reject b, false)
  else try_half_open b.

Definition on_success (now : Z) (b : breaker) : breaker :=
  let s := st b in
  let b := mkBreaker (cfg b) (state b) (failure_count b) (S (success_count b))
    (half_open_calls b) (opened_at b) (failure_timestamps b)
    (mkStats (total_calls s) (S (successful_calls s)) (failed_calls s) (rejected_calls s)
       (state_changes s)) in
  match state b with
  | HALF_OPEN =>
      if bool_decide (success_threshold (cfg b) <= success_count b)
      then transition_to CLOSED now b else b
  | CLOSED => mkBreaker (cfg b) (state b) 0 (success_count b) (half_open_calls b) (opened_at b)
                (failure_timestamps b) (st b)
  | OPEN => b
  end.

Definition recent (now : Z) (b : breaker) (ts : list Z) : list Z :=
  filter (λ t, now - window (cfg b) < t)%Z ts.

Definition on_failure (now : Z) (b : breaker) : breaker :=
  let s := st b in
  let b := mkBreaker (cfg b) (state b) (S (failure_count b)) (success_count b)
    (half_open_calls b) (opened_at b)
    (recent now b (failure_timestamps b ++ [now]))      (** [_cleanup_old_failures] *)
    (mkStats (total_calls s) (successful_calls s) (S (failed_calls s)) (rejected_calls s)
       (state_changes s)) in
  match state b with
  | HALF_OPEN => transition_to OPEN now b
  | CLOSED =>
      if bool_decide (failure_threshold (cfg b) <= length (recent now b (failure_timestamps b)))
      then transition_to OPEN now b else b
  | OPEN => b
  end.

(** The end of a call: an exception of an excluded type counts as a success. *)
Inductive outcome : Set := Returned | RaisedExcluded | Raised.
Definition end_call (o : outcome) (now : Z) (b : breaker) : breaker :=
  match o with
  | Returned | RaisedExcluded => on_success now b
  | Raised => on_failure now b
  end.

Definition reset (now : Z) (b : breaker) : breaker :=
  let b := transition_to CLOSED now b in
  mkBreaker (cfg b) (state b) (failure_count b) (success_count b) (half_open_calls b)
    (opened_at b) [] (st b).
Definition trip (now : Z) (b : breaker) : breaker :=
  if bool_decide (state b = OPEN) then b else transition_to OPEN now b.
Definition get_time_until_reset (now : Z) (b : breaker) : option Z :=
  match state b, opened_at b with
  | OPEN, Some t => Some (Z.max 0 (recovery_timeout (cfg b) - (now - t)))%Z
  | _, _ => None
  end.

(** * The registry *)

Definition breakers : Type := list (string * breaker).
Definition get_or_create (dflt : config) (name : string) (c : option config) (bs : breakers)
    : breakers * breaker :=
  match dget name bs with
  | Some b => (bs, b)
  | None => let b := new_breaker (default dflt c) in (dset name b bs, b)
  end.
Definition remove (name : string) (bs : breakers) : breakers * bool :=
  (ddel name bs, dmem name bs).
Definition reset_all (now : Z) (bs : breakers) : breakers :=
  (λ nb : string * breaker, (nb.1, reset now nb.2)) <$> bs.

(** * The laws *)

#[export] Instance pool_breaker : Breaker breaker := {
  phase := state;
  open_since := opened_at;
  recovery := λ b, recovery_timeout (cfg b);
  bk_ok := λ b, state b = OPEN → is_Some (opened_at b);
  bk_step := λ e b,
    match e with
    | Attempt now => begin_call now b
    | Succeeded now => (on_success now b, true)
    | Failed now => (on_failure now b, true)
    end;
}.

Ltac pool_cases :=
  unfold begin_call, should_try_reset, on_success, on_failure, reject, count_call,
    set_half_open, transition_to in *; simpl in *;
  repeat (case_bool_decide; simpl in * ); try done.

#[export] Instance pool_laws : BreakerLaws breaker.
Proof.
  split.
  - intros e b Ho. destruct e as [now|now|now], b as [c s f sc h oa ts stt]; simpl in *;
      destruct s, oa; pool_cases; eauto.
  - intros e b. destruct e as [now|now|now], b as [c s f sc h oa ts stt]; simpl in *;
      destruct s, oa; by pool_cases.
  - intros e b. destruct e as [now|now|now], b as [c s f sc h oa ts stt]; simpl in *;
      destruct s, oa; pool_cases; auto.
  - intros now b Hc. destruct b as [c s f sc h oa ts stt]; simpl in *; subst; by pool_cases.
  - auto.
  - intros now b t Hp Ho Ht. destruct b as [c s f sc h oa ts stt]; simpl in *; subst.
    pool_cases; lia.
  - intros now b t Hp Ho Ht. destruct b as [c s f sc h oa ts stt]; simpl in *; subst.
    pool_cases; lia.
  - intros e b t Hp Ho He. destruct b as [c s f sc h oa ts stt]; simpl in *; subst.
    destruct e as [now|now|now]; [by destruct (He now)|..]; pool_cases; eauto 10.
Qed.

(** * Half-open slots *)

(** The slots in use never exceed the limit. *)
Lemma half_open_bounded e b : half_open_calls b ≤ half_open_limit (cfg b) →
  half_open_calls (bk_step e b).1 ≤ half_open_limit (cfg (bk_step e b).1).
Proof.
  intros Hh. destruct e as [now|now|now], b as [c s f sc h oa ts stt]; simpl in *;
    destruct s, oa; pool_cases; lia.
Qed.

Lemma exhausted_step now b :
  state b = HALF_OPEN → half_open_limit (cfg b) ≤ half_open_calls b →
  (begin_call now b).2 = false ∧ state (begin_call now b).1 = HALF_OPEN ∧
  half_open_limit (cfg (begin_call now b).1) ≤ half_open_calls (begin_call now b).1 ∧
  success_count (begin_call now b).1 = success_count b ∧ cfg (begin_call now b).1 = cfg b.
Proof.
  intros Hs Hh. destruct b as [c s f sc h oa ts stt]; simpl in *; subst. by pool_cases.
Qed.

(** The failures within the window of [now], the one of [now] included. *)
Definition window_failures (now : Z) (b : breaker) : nat :=
  length (filter (λ t, now - window (cfg b) < t)%Z (failure_timestamps b ++ [now])).

Lemma filter_filter_same {A : Type} (P : A → Prop) `{!∀ x, Decision (P x)} (l : list A) :
  filter P (filter P l) = filter P l.
Proof. rewrite list_filter_filter. apply list_filter_iff. tauto. Qed.

(** * Properties *)

(** A closed breaker opens on a failure exactly when the failures in
    the window, this one included, reach the threshold; successes in
    between do not matter, although the documented condition is a number
    of consecutive failures. *)
Theorem pool_trips_on_window b now later : state b = CLOSED →
  (state (on_failure now b) = OPEN ↔ failure_threshold (cfg b) ≤ window_failures now b) ∧
  state (on_success now b) = CLOSED ∧
  failure_count (on_success now b) = 0 ∧
  window_failures later (on_success now b) = window_failures later b.
Proof.
  intros Hs. destruct b as [c s f sc h oa ts stt]; simpl in *; subst.
  split; [|done]. unfold on_failure, recent, window_failures. simpl.
  rewrite filter_filter_same. case_bool_decide; simpl; split; done.
Qed.

(** A half-open breaker lets at most [half_open_limit] calls through
    in all: once that many were admitted without closing or opening it,
    because they were cancelled or because fewer successes than
    [success_threshold] came of them, it refuses every later attempt
    forever. *)
Theorem pool_half_open_stuck b nows :
  state b = HALF_OPEN → half_open_limit (cfg b) ≤ half_open_calls b →
  (run_events (Attempt <$> nows) b).2 = replicate (length nows) false ∧
  state (run_events (Attempt <$> nows) b).1 = HALF_OPEN.
Proof.
  revert b. induction nows as [|now nows IH]; intros b Hs Hh; [done|]. csimpl.
  destruct (exhausted_step now b Hs Hh) as (H1 & H2 & H3 & _).
  destruct (begin_call now b) as [b1 ok]. simpl in *. destruct (IH b1 H2 H3) as [H4 H5].
  destruct (run_events (Attempt <$> nows) b1) as [b2 oks]. simpl in *. by subst.
Qed.

(** * Witnesses *)

Definition alternating : breaker :=
  on_failure 5 (on_success 4 (on_failure 3 (on_success 2 (on_failure 1
    (new_breaker (mkConfig 3 60 3 2 60)))))).
Definition cancelled_probes : breaker :=
  (run_events [Attempt 100; Attempt 101; Attempt 102] (trip 0 (new_breaker default_config))).1.

Lemma pool_trips_witness : state alternating = OPEN.
Proof.
  apply (pool_trips_on_window (on_success 4 (on_failure 3 (on_success 2 (on_failure 1
    (new_breaker (mkConfig 3 60 3 2 60)))))) 5 5); [reflexivity|].
  vm_compute. lia.
Defined.
Lemma pool_half_open_stuck_witness :
  (run_events (Attempt <$> [1000; 2000; 1000000]%Z) cancelled_probes).2 = [false; false; false].
Proof.
  apply (pool_half_open_stuck cancelled_probes [1000; 2000; 1000000]%Z);
    [reflexivity|vm_compute; lia].
Defined.
