(* ===== verification/Breakers.v ===== *)
(** The two circuit breakers as clients see them: what both promise because
    both keep the laws of [Breaker.v]. *)

From S2P Require Import Prelude Breaker LlmBreaker PoolBreaker.

(** Fail fast: from the moment either breaker opens until its recovery
    timeout no attempt is let through, whatever late results of earlier
    requests arrive in between. *)
Theorem breakers_fail_fast (lb : LlmBreaker.breaker) (pb : PoolBreaker.breaker) t es :
  (LlmBreaker.state lb = OPEN → LlmBreaker.last_failure_time lb = Some t →
   Forall (λ e, t <= event_time e < t + LlmBreaker.recovery_timeout (LlmBreaker.cfg lb))%Z es →
   LlmBreaker.state (run_events es lb).1 = OPEN ∧ Forall (.= false) (run_events es lb).2) ∧
  (PoolBreaker.state pb = OPEN → PoolBreaker.opened_at pb = Some t →
   Forall (λ e, t <= event_time e < t + PoolBreaker.recovery_timeout (PoolBreaker.cfg pb))%Z es →
   PoolBreaker.state (run_events es pb).1 = OPEN ∧ Forall (.= false) (run_events es pb).2).
Proof.
  split; intros Hp Ho Hes.
  - exact (open_window (B := LlmBreaker.breaker) es lb t t Hp Ho (Z.le_refl t) Hes).
  - exact (open_window (B := PoolBreaker.breaker) es pb t t Hp Ho (Z.le_refl t) Hes).
Qed.

(** Neither breaker closes without a success, and neither gets stuck
    open: a history of attempts and failures leaves it half-open, or open
    with the time its recovery counts from, and an attempt after the timeout
    makes it half-open. *)
Theorem breakers_close_on_success (lb : LlmBreaker.breaker) (pb : PoolBreaker.breaker) es :
  Forall (λ e, ∃ now, e = Attempt now ∨ e = Failed now) es →
  (breaker_ok lb → LlmBreaker.state lb ≠ CLOSED →
   not_closed (run_events es lb).1 ∧
   ∀ t now, LlmBreaker.state lb = OPEN → LlmBreaker.last_failure_time lb = Some t →
     (t + LlmBreaker.recovery_timeout (LlmBreaker.cfg lb) <= now)%Z →
     LlmBreaker.state (can_execute now lb).1 = HALF_OPEN) ∧
  ((PoolBreaker.state pb = OPEN → is_Some (PoolBreaker.opened_at pb)) →
   PoolBreaker.state pb ≠ CLOSED →
   not_closed (run_events es pb).1 ∧
   ∀ t now, PoolBreaker.state pb = OPEN → PoolBreaker.opened_at pb = Some t →
     (t + PoolBreaker.recovery_timeout (PoolBreaker.cfg pb) <= now)%Z →
     PoolBreaker.state (begin_call now pb).1 = HALF_OPEN).
Proof.
  intros Hes. split; (split; [by apply stays_not_closed|intros t now]).
  - exact (law_probe (B := LlmBreaker.breaker) now lb t).
  - exact (law_probe (B := PoolBreaker.breaker) now pb t).
Qed.

(** * Witnesses *)

Lemma breakers_fail_fast_witness :
  Forall (.= false) (run_events [Attempt 101; Failed 110; Attempt 159] opened_breaker).2 ∧
  Forall (.= false) (run_events [Attempt 101; Failed 110; Attempt 159]
    (trip 100 (PoolBreaker.new_breaker PoolBreaker.default_config))).2.
Proof.
  split.
  - apply (breakers_fail_fast opened_breaker
      (PoolBreaker.new_breaker PoolBreaker.default_config) 100
      [Attempt 101; Failed 110; Attempt 159]); [reflexivity|reflexivity|].
    repeat constructor; simpl; lia.
  - apply (breakers_fail_fast opened_breaker
      (trip 100 (PoolBreaker.new_breaker PoolBreaker.default_config)) 100
      [Attempt 101; Failed 110; Attempt 159]); [reflexivity|reflexivity|].
    repeat constructor; simpl; lia.
Defined.
Lemma breakers_close_witness :
  not_closed (run_events [Attempt 200; Failed 201; Attempt 202] opened_breaker).1.
Proof.
  apply (breakers_close_on_success opened_breaker
    (PoolBreaker.new_breaker PoolBreaker.default_config) [Attempt 200; Failed 201; Attempt 202]);
    [repeat constructor; eauto|exact opened_ok|discriminate].
Defined.
