(* ===== verification/PoolLifecycle.v ===== *)
(** The lifecycle of an agent instance in the pool.

    Source: src/src/infrastructure/agent/pool/lifecycle/state_machine.py and
    the status enumeration of ../types.py.  No transition of the table has a
    guard or an action; listeners cannot affect the machine (their
    exceptions are suppressed).  Both are left out, as are the free-form
    details of an event. *)

From S2P Require Import Prelude Machine.

Open Scope string_scope.
Open Scope list_scope.

Inductive AgentInstanceStatus : Set :=
  | CREATED | INITIALIZING | INITIALIZATION_FAILED | READY | EXECUTING | PAUSED
  | UNHEALTHY | DEGRADED | TERMINATING | TERMINATED.
#[export] Instance AgentInstanceStatus_eq_dec : EqDecision AgentInstanceStatus.
Proof. solve_decision. Defined.

Record LifecycleTransition : Set := mkT {
  t_from : AgentInstanceStatus;
  t_to : AgentInstanceStatus;
  trigger : string;
}.
#[export] Instance LifecycleTransition_eq_dec : EqDecision LifecycleTransition.
Proof. solve_decision. Defined.

Definition VALID_TRANSITIONS : list LifecycleTransition :=
  [ mkT CREATED INITIALIZING "initialize";
    mkT INITIALIZING READY "initialization_complete";
    mkT INITIALIZING INITIALIZATION_FAILED "initialization_failed";
    mkT INITIALIZATION_FAILED INITIALIZING "retry";
    mkT READY EXECUTING "execute";
    mkT EXECUTING READY "complete";
    mkT READY PAUSED "pause";
    mkT PAUSED READY "resume";
    mkT EXECUTING PAUSED "pause";
    mkT READY UNHEALTHY "health_check_failed";
    mkT EXECUTING UNHEALTHY "health_check_failed";
    mkT PAUSED UNHEALTHY "health_check_failed";
    mkT UNHEALTHY READY "recover";
    mkT UNHEALTHY DEGRADED "degrade";
    mkT DEGRADED READY "recover";
    mkT DEGRADED UNHEALTHY "health_check_failed";
    mkT READY TERMINATING "terminate";
    mkT PAUSED TERMINATING "terminate";
    mkT UNHEALTHY TERMINATING "terminate";
    mkT DEGRADED TERMINATING "terminate";
    mkT INITIALIZATION_FAILED TERMINATING "terminate";
    mkT TERMINATING TERMINATED "terminated";
    mkT EXECUTING TERMINATING "force_terminate";
    mkT CREATED TERMINATED "force_terminate";
    mkT INITIALIZING TERMINATED "force_terminate" ].

Record LifecycleEvent : Type := mkEvent {
  event_type : string;
  from_status : option AgentInstanceStatus;
  to_status : AgentInstanceStatus;
  timestamp : Z;
  error_message : option string;
}.

Record LifecycleStateMachine : Type := mkMachine {
  instance_id : string;
  status : AgentInstanceStatus;
  history : list LifecycleEvent;
}.

Inductive lifecycle_error : Set :=
  | InvalidStateTransition (from to : AgentInstanceStatus) (tr : string).

(** [_build_transition_map] *)
Definition transition_map : list (AgentInstanceStatus * list (string * LifecycleTransition)) :=
  foldl (λ m t,
    let m := if dmem (t_from t) m then m else dset (t_from t) [] m in
    dset (t_from t) (dset (trigger t) t (dget_or [] (t_from t) m)) m) [] VALID_TRANSITIONS.

Definition lookup_transition (s : AgentInstanceStatus) (tr : string) : option LifecycleTransition :=
  dget tr (dget_or [] s transition_map).

Definition record_event (ty : string) (from : option AgentInstanceStatus)
    (to : AgentInstanceStatus) (now : Z) (err : option string) (m : LifecycleStateMachine)
    : LifecycleStateMachine :=
  mkMachine (instance_id m) (status m) (history m ++ [mkEvent ty from to now err]).
Definition new_machine (iid : string) (initial : AgentInstanceStatus) (now : Z)
    : LifecycleStateMachine :=
  record_event "created" None initial now None (mkMachine iid initial []).

Definition can_transition (tr : string) (m : LifecycleStateMachine) : bool :=
  bool_decide (is_Some (lookup_transition (status m) tr)).
Definition get_allowed_triggers (m : LifecycleStateMachine) : list string :=
  dkeys (dget_or [] (status m) transition_map).

Definition transition (tr : string) (now : Z) (err : option string)
    : M LifecycleStateMachine lifecycle_error AgentInstanceStatus :=
  m ← mget;
  match lookup_transition (status m) tr with
  | None => mraise (InvalidStateTransition (status m) TERMINATED tr)
  | Some t =>
      mmodify (λ m, mkMachine (instance_id m) (t_to t) (history m));;
      mmodify (record_event tr (Some (status m)) (t_to t) now err);;
      mret (t_to t)
  end.

Definition is_active (m : LifecycleStateMachine) : bool :=
  bool_decide (status m ∈ [READY; EXECUTING; DEGRADED]).
Definition is_terminal (m : LifecycleStateMachine) : bool :=
  bool_decide (status m ∈ [TERMINATED; INITIALIZATION_FAILED]).
Definition is_healthy (m : LifecycleStateMachine) : bool :=
  negb (bool_decide (status m ∈ [UNHEALTHY; DEGRADED; INITIALIZATION_FAILED])).
Definition get_uptime (now : Z) (m : LifecycleStateMachine) : Z :=
  match history m with [] => 0%Z | e :: _ => (now - timestamp e)%Z end.
Definition get_last_event (m : LifecycleStateMachine) : option LifecycleEvent := last (history m).

(** * The machine of the table *)

Definition lifecycle_step (s t : AgentInstanceStatus) : bool :=
  existsb (λ x, bool_decide (t_from x = s) && bool_decide (t_to x = t)) VALID_TRANSITIONS.
Lemma lifecycle_final_stuck s t :
  bool_decide (s = TERMINATED) = true → lifecycle_step s t = true → s = t.
Proof. by destruct s, t; vm_compute. Qed.
#[export] Instance lifecycle_machine : Machine AgentInstanceStatus := {
  mstep := lifecycle_step;
  mfinal := λ s, bool_decide (s = TERMINATED);
  mfinal_stuck := lifecycle_final_stuck;
}.

Lemma lookup_transition_table s tr t : lookup_transition s tr = Some t →
  t ∈ VALID_TRANSITIONS ∧ t_from t = s ∧ trigger t = tr.
Proof.
  assert (Forall (λ se : AgentInstanceStatus * list (string * LifecycleTransition),
    Forall (λ ke : string * LifecycleTransition,
      ke.2 ∈ VALID_TRANSITIONS ∧ t_from ke.2 = se.1 ∧ trigger ke.2 = ke.1) se.2)
    transition_map) as Hall.
  { apply (bool_decide_unpack _). vm_compute. exact I. }
  unfold lookup_transition, dget_or. intros Hl.
  destruct (dget s transition_map) as [d|] eqn:Hs; [|done]. cbn [default] in Hl.
  rewrite Forall_forall in Hall. apply dget_Some_elem, Hall in Hs.
  rewrite Forall_forall in Hs. by apply dget_Some_elem, Hs in Hl.
Qed.

(** The recorded events form a path that ends in the current status. *)
Fixpoint chained (from : option AgentInstanceStatus) (h : list LifecycleEvent) : Prop :=
  match h with
  | [] => True
  | e :: h' =>
      from_status e = from ∧
      (∀ s, from = Some s → lifecycle_step s (to_status e) = true) ∧
      chained (Some (to_status e)) h'
  end.
Record history_ok (m : LifecycleStateMachine) : Prop := {
  ho_chain : chained None (history m);
  ho_last : to_status <$> last (history m) = Some (status m);
}.

Lemma chained_snoc h e : ∀ from,
  chained from h →
  from_status e = from_option (λ x, Some (to_status x)) from (last h) →
  (∀ s, from_status e = Some s → lifecycle_step s (to_status e) = true) →
  chained from (h ++ [e]).
Proof.
  induction h as [|x h IH]; intros from Hh He Hs; simpl in *.
  - split_and!; [done| |done]. intros s Hf. apply Hs. by rewrite He.
  - destruct Hh as (H1 & H2 & H3). split_and!; [done..|]. apply IH; [done| |done].
    rewrite He, last_cons. by destruct (last h).
Qed.

(** * Properties *)

(** A transition of an instance either raises and changes nothing,
    when the table has none for the trigger, or takes the table's and logs
    it: the history stays a path of table transitions from the creation
    event to the current status. *)
Theorem lifecycle_history m tr now err : history_ok m →
  match transition tr now err m with
  | (m', Ok s) =>
      can_transition tr m = true ∧ status m' = s ∧ lifecycle_step (status m) s = true ∧
      history_ok m' ∧ length (history m') = S (length (history m))
  | (m', Err e) => m' = m ∧ can_transition tr m = false ∧
      e = InvalidStateTransition (status m) TERMINATED tr
  end.
Proof.
  intros [Hc Hl]. unfold transition; unfold_M. unfold can_transition.
  destruct (lookup_transition (status m) tr) as [t|] eqn:Ht.
  - destruct (lookup_transition_table _ _ _ Ht) as (Hin & Hf & _).
    assert (Hstep : lifecycle_step (status m) (t_to t) = true).
    { apply existsb_exists. exists t. rewrite <-list_elem_of_In. split; [done|].
      by rewrite !bool_decide_true by done. }
    simpl. split_and!; [done|done|done| |rewrite length_app; simpl; lia].
    split; simpl; [|by rewrite last_snoc].
    apply chained_snoc; [done| |simpl; by intros s [= <-]]. simpl.
    destruct (last (history m)) as [e|]; [|done]. simpl in *. congruence.
  - split_and!; [done| |done]. apply bool_decide_false. by intros [? ?].
Qed.

(** TERMINATED is final and reachable from every status, and every
    status is reachable from CREATED; but [force_terminate] exists in three
    statuses only, although announced for any, and INITIALIZATION_FAILED,
    which [is_terminal] counts as final, still leads to READY. *)
Theorem lifecycle_reachability :
  (∀ s, mreach s TERMINATED) ∧ (∀ s, mreach CREATED s) ∧
  (∀ s, mreach TERMINATED s → s = TERMINATED) ∧
  (∀ m, can_transition "force_terminate" m = true ↔
     status m ∈ [EXECUTING; CREATED; INITIALIZING]) ∧
  (∀ m, status m = INITIALIZATION_FAILED → is_terminal m = true ∧ mreach (status m) READY).
Proof.
  assert (Hin : ∀ p s t, path_end s p = t → accepts s p = true → mreach s t)
    by (intros; by eapply reach_by_path).
  split_and!.
  - intros s. destruct s;
      [apply (Hin [TERMINATED])|apply (Hin [TERMINATED])|apply (Hin [TERMINATING; TERMINATED])
      |apply (Hin [TERMINATING; TERMINATED])|apply (Hin [TERMINATING; TERMINATED])
      |apply (Hin [TERMINATING; TERMINATED])|apply (Hin [TERMINATING; TERMINATED])
      |apply (Hin [TERMINATING; TERMINATED])|apply (Hin [TERMINATED])|apply (Hin [])];
      reflexivity.
  - intros s. destruct s;
      [apply (Hin [])|apply (Hin [INITIALIZING])|apply (Hin [INITIALIZING; INITIALIZATION_FAILED])
      |apply (Hin [INITIALIZING; READY])|apply (Hin [INITIALIZING; READY; EXECUTING])
      |apply (Hin [INITIALIZING; READY; PAUSED])|apply (Hin [INITIALIZING; READY; UNHEALTHY])
      |apply (Hin [INITIALIZING; READY; UNHEALTHY; DEGRADED])
      |apply (Hin [INITIALIZING; READY; TERMINATING])|apply (Hin [TERMINATED])]; reflexivity.
  - intros s. by apply final_absorbing.
  - intros m. unfold can_transition.
    assert (bool_decide (is_Some (lookup_transition (status m) "force_terminate")) =
      bool_decide (status m ∈ [EXECUTING; CREATED; INITIALIZING])) as ->
      by (destruct (status m); vm_compute; reflexivity).
    apply bool_decide_eq_true.
  - intros m Hm. unfold is_terminal. rewrite Hm. split; [reflexivity|].
    apply (Hin [INITIALIZING; READY]); reflexivity.
Qed.

Definition created_machine : LifecycleStateMachine := new_machine "i" CREATED 0.
Lemma created_history : history_ok created_machine.
Proof. by split. Qed.
Lemma lifecycle_history_witness : ∃ m',
  transition "initialize" 1 None created_machine = (m', Ok INITIALIZING) ∧ history_ok m'.
Proof.
  pose proof (lifecycle_history created_machine "initialize" 1 None created_history) as H.
  assert (Hs : (transition "initialize" 1 None created_machine).2 = Ok INITIALIZING)
    by (vm_compute; reflexivity).
  destruct (transition "initialize" 1 None created_machine) as [m' r].
  cbn [snd] in Hs. subst r. destruct H as (_ & _ & _ & H & _).
  exists m'. split; [reflexivity|exact H].
Defined.
