(* ===== verification/ResourcePool.v ===== *)
(** The sandbox resource pool: tasks that take resources, wait for them, give
    them back, remove them.

    Source: src/src/domain/model/sandbox/resource_pool.py.  What happens under
    the pool's condition is one step, up to an end or to [cond.wait()]; a
    waiter is woken by a notification, runs when it has the lock again, and
    may run out of time before.  The factory, the validation and the clean-up
    are the caller's: their outcomes are arguments. *)

From S2P Require Import Prelude.

Open Scope string_scope.
Open Scope list_scope.
Open Scope nat_scope.

(** * Configuration *)

(** Times in milliseconds. *)
Record PoolConfig : Type := mkConfig {
  min_size : Z;
  max_size : Z;
  acquire_timeout : Z;
  idle_timeout : Z;
  max_lifetime : Z;
}.
(** The names of the fields the [ValueError] is about. *)
Definition new_config (mn mx at_ it ml : Z) : result (list string) PoolConfig :=
  if bool_decide (mn < 0)%Z then Err ["min_size"]
  else if bool_decide (mx < 1)%Z then Err ["max_size"]
  else if bool_decide (mn > mx)%Z then Err ["min_size"; "max_size"]
  else if bool_decide (at_ <= 0)%Z then Err ["acquire_timeout"]
  else Ok (mkConfig mn mx at_ it ml).

(** * The pool *)

Inductive pool_error : Set :=
  | PoolClosed | AlreadyInUse | AtCapacity | TimedOut | FactoryRaised | ValidateRaised.

Section pool.
Context {T : Type}.

(** [cleaned] lists the calls of the clean-up function. *)
Record pool : Type := mkPool {
  config : PoolConfig;
  resources : gmap string T;
  available : gset string;
  in_use : gset string;
  created_at : gmap string Z;
  last_used : gmap string Z;
  is_closed : bool;
  cleaned : list (string * T);
}.
Definition new_pool (c : PoolConfig) : pool := mkPool c ∅ ∅ ∅ ∅ ∅ false [].

(** What the outside contributes to a step: the clock, the set iterator's
    preference, a fresh id, the factory's result ([None] if it raises), the
    verdict of the validation ([None] if it raises), and which resources
    Python takes for true. *)
Record env : Type := mkEnv {
  now : Z;
  first : string;
  fresh : string;
  made : option T;
  validate : T → option bool;
  truthy_resource : T → bool;
}.

Implicit Types (p : pool) (e : env) (rid : string).

(** [next(iter(s))] *)
Definition next_iter e (s : gset string) : option string :=
  if bool_decide (first e ∈ s) then Some (first e) else head (elements s).
Definition size_lt_max p : bool := bool_decide (Z.of_nat (size (resources p)) < max_size (config p))%Z.
Definition with_sets p (a u : gset string) : pool :=
  mkPool (config p) (resources p) a u (created_at p) (last_used p) (is_closed p) (cleaned p).
(** Move a resource between the sets, and note the time. *)
Definition used e rid (a u : gset string) p : pool :=
  mkPool (config p) (resources p) a u (created_at p) (<[rid := now e]> (last_used p)) (is_closed p) (cleaned p).
(** [_create_resource]; [None] when the factory raises. *)
Definition create_resource e (rid : option string) p : option (pool * string) :=
  let rid := default (fresh e) rid in
  r ← made e;
  Some (mkPool (config p) (<[rid := r]> (resources p)) (available p) ({[rid]} ∪ in_use p)
          (<[rid := now e]> (created_at p)) (<[rid := now e]> (last_used p)) (is_closed p) (cleaned p), rid).
(** Drop a resource and its metadata, and clean up after it. *)
Definition forget e rid p : pool :=
  mkPool (config p) (base.delete rid (resources p)) (available p) (in_use p)
    (base.delete rid (created_at p)) (base.delete rid (last_used p)) (is_closed p)
    (cleaned p ++ match resources p !! rid with
                  | Some r => if truthy_resource e r then [(rid, r)] else []
                  | None => []
                  end).
Definition discard e rid p : pool := forget e rid (with_sets p (available p ∖ {[rid]}) (in_use p ∖ {[rid]})).

(** [_try_take_validated_resource]: [Ok None] when nothing was taken. *)
Definition try_take_validated_resource e p : pool * result pool_error (option string) :=
  match next_iter e (available p) with
  | None => (p, Ok None)
  | Some rid =>
      let p' := with_sets p (available p ∖ {[rid]}) (in_use p) in
      let verdict :=
        match resources p !! rid with
        | Some r => if truthy_resource e r then validate e r else Some false
        | None => Some false
        end in
      match verdict with
      | Some true => (used e rid (available p') ({[rid]} ∪ in_use p') p', Ok (Some rid))
      | Some false => (forget e rid p', Ok None)
      | None => (p', Err ValidateRaised)
      end
  end.
Definition acquire_specific e rid p : pool * result pool_error string :=
  if bool_decide (rid ∈ available p) then
    (used e rid (available p ∖ {[rid]}) ({[rid]} ∪ in_use p) p, Ok rid)
  else if bool_decide (rid ∈ in_use p) then (p, Err AlreadyInUse)
  else if size_lt_max p then
    match create_resource e (Some rid) p with
    | Some (p', rid) => (p', Ok rid)
    | None => (p, Err FactoryRaised)
    end
  else (p, Err AtCapacity).
(** One turn of the loop of [_acquire_any]; [Ok None] when it has to wait. *)
Definition attempt e p : pool * result pool_error (option string) :=
  match try_take_validated_resource e p with
  | (p', Ok None) =>
      if size_lt_max p' then
        match create_resource e None p' with
        | Some (p'', rid) => (p'', Ok (Some rid))
        | None => (p', Err FactoryRaised)
        end
      else (p', Ok None)
  | taken => taken
  end.

(** * Tasks *)

Record waiter : Type := mkWaiter { task : nat; deadline : Z }.
(** The pool, the tasks in [cond.wait()] in their order, and those that were
    notified and have not run again. *)
Record system : Type := mkSystem { the_pool : pool; waiting : list waiter; woken : list waiter }.
Inductive event : Type :=
  | Acquired (t : nat) (rid : string)
  | Raised (t : nat) (why : pool_error)
  | Waits (t : nat)
  | Released (rid : string)
  | NotInUse (rid : string)
  | Removed (rid : string)
  | Closed
  | Idle.
Inductive op : Type :=
  | Acquire (t : nat) (rid : option string) (timeout : option Z)
  | Wake (t : nat)
  | Expire (t : nat) (renotify : bool)
  | Release (rid : string)
  | Remove (rid : string)
  | Close.
Implicit Types (s : system).

Definition notify (n : nat) s : system :=
  mkSystem (the_pool s) (drop n (waiting s)) (woken s ++ take n (waiting s)).
(** The loop of [_acquire_any], to its end or to its next wait. *)
Definition acquire_any e (w : waiter) s : system * event :=
  match attempt e (the_pool s) with
  | (p, Ok (Some rid)) => (mkSystem p (waiting s) (woken s), Acquired (task w) rid)
  | (p, Err why) => (mkSystem p (waiting s) (woken s), Raised (task w) why)
  | (p, Ok None) =>
      if bool_decide (deadline w <= now e)%Z
      then (mkSystem p (waiting s) (woken s), Raised (task w) TimedOut)
      else (mkSystem p (waiting s ++ [w]) (woken s), Waits (task w))
  end.
(** [timeout or self._config.acquire_timeout] *)
Definition timeout_of p (timeout : option Z) : Z :=
  match timeout with
  | Some t => if bool_decide (t = 0)%Z then acquire_timeout (config p) else t
  | None => acquire_timeout (config p)
  end.
Definition acquire e (t : nat) (rid : option string) (timeout : option Z) s : system * event :=
  let p := the_pool s in
  if is_closed p then (s, Raised t PoolClosed)
  else if truthy_opt rid then
    match acquire_specific e (default "" rid) p with
    | (p', Ok rid) => (mkSystem p' (waiting s) (woken s), Acquired t rid)
    | (p', Err why) => (mkSystem p' (waiting s) (woken s), Raised t why)
    end
  else acquire_any e (mkWaiter t (now e + timeout_of p timeout)) s.
Definition release e rid s : system * event :=
  let p := the_pool s in
  if bool_decide (rid ∈ in_use p) then
    (notify 1 (mkSystem (used e rid ({[rid]} ∪ available p) (in_use p ∖ {[rid]}) p) (waiting s) (woken s)), Released rid)
  else (s, NotInUse rid).
(** Removal notifies nobody. *)
Definition remove e rid s : system * event :=
  (mkSystem (discard e rid (the_pool s)) (waiting s) (woken s), Removed rid).
(** The order of the clean-ups, that of the dictionary, is left out. *)
Definition close e s : system * event :=
  let p := the_pool s in
  if is_closed p then (s, Idle)
  else
    let p' := mkPool (config p) (resources p) (available p) (in_use p) (created_at p) (last_used p) true (cleaned p) in
    (notify (length (waiting s))
       (mkSystem (foldl (λ p rid, discard e rid p) p' (map_to_list (resources p)).*1) (waiting s) (woken s)), Closed).
Fixpoint take_task (t : nat) (l : list waiter) : option (waiter * list waiter) :=
  match l with
  | [] => None
  | w :: l' => if decide (task w = t) then Some (w, l') else prod_map id (cons w) <$> take_task t l'
  end.
(** A waiter whose [wait_for] runs out of time; [renotify]: a notification it
    had got goes on to the next one (CPython from 3.13), or is lost. *)
Definition expire (t : nat) (renotify : bool) s : system * event :=
  match take_task t (waiting s), take_task t (woken s) with
  | Some (_, rest), _ => (mkSystem (the_pool s) rest (woken s), Raised t TimedOut)
  | None, Some (_, rest) =>
      let s' := mkSystem (the_pool s) (waiting s) rest in
      (if renotify then notify 1 s' else s', Raised t TimedOut)
  | None, None => (s, Idle)
  end.
Definition wake e (t : nat) s : system * event :=
  match take_task t (woken s) with
  | Some (w, rest) => acquire_any e w (mkSystem (the_pool s) (waiting s) rest)
  | None => (s, Idle)
  end.
Definition step s (eo : env * op) : system * event :=
  let e := eo.1 in
  match eo.2 with
  | Acquire t rid timeout => acquire e t rid timeout s
  | Wake t => wake e t s
  | Expire t renotify => expire t renotify s
  | Release rid => release e rid s
  | Remove rid => remove e rid s
  | Close => close e s
  end.
Fixpoint run s (ops : list (env * op)) : system * list event :=
  match ops with
  | [] => (s, [])
  | eo :: ops' => let '(s', ev) := step s eo in let '(s'', evs) := run s' ops' in (s'', ev :: evs)
  end.

(** The other views of a pool. *)
Definition get_resource rid p : option T := resources p !! rid.
Definition pool_size p : nat := size (available p) + size (in_use p).
Definition available_count p : nat := size (available p).
Definition in_use_count p : nat := size (in_use p).
End pool.
Arguments pool T : clear implicits.
Arguments env T : clear implicits.
Arguments system T : clear implicits.

(** * The pool's invariant *)

Lemma size_without (x : string) (a : gset string) : x ∈ a → size a = S (size (a ∖ {[x]})).
Proof.
  intros Hx. rewrite (union_difference_singleton_L x a) at 1 by done. rewrite size_union by set_solver.
  by rewrite size_singleton.
Qed.
Lemma size_with (x : string) (a : gset string) : x ∉ a → size ({[x]} ∪ a) = S (size a).
Proof. intros Hx. rewrite size_union by set_solver. by rewrite size_singleton. Qed.

Section invariant.
Context {T : Type}.
Implicit Types (p : pool T) (e : env T) (s : system T) (rid : string).

Record pool_ok p : Prop := {
  ok_apart : available p ## in_use p;
  ok_known : available p ∪ in_use p ⊆ dom (resources p);
  ok_created : dom (created_at p) = dom (resources p);
  ok_used : dom (last_used p) = dom (resources p);
  ok_capacity : (Z.of_nat (size (resources p)) <= max_size (config p))%Z;
}.
(** Resources that could be had at once. *)
Definition slack p : Z := (Z.of_nat (size (available p)) + (max_size (config p) - Z.of_nat (size (resources p))))%Z.

Lemma size_lt_max_true p : size_lt_max p = true ↔ (Z.of_nat (size (resources p)) < max_size (config p))%Z.
Proof. apply bool_decide_eq_true. Qed.
Lemma next_iter_Some e a rid : next_iter e a = Some rid → rid ∈ a.
Proof.
  unfold next_iter. case_bool_decide as H; [by intros [= <-]|].
  destruct (elements a) as [|x l] eqn:E; intros [= <-]. apply elem_of_elements. rewrite E. apply list_elem_of_here.
Qed.
Lemma next_iter_None e a : next_iter e a = None → a = ∅.
Proof.
  unfold next_iter. case_bool_decide as H; [done|]. destruct (elements a) as [|x l] eqn:E; [|done].
  intros _. by apply elements_empty_inv, leibniz_equiv in E.
Qed.

Lemma take_ok e rid p : pool_ok p → rid ∈ available p →
  pool_ok (used e rid (available p ∖ {[rid]}) ({[rid]} ∪ in_use p) p).
Proof.
  intros [Ha Hk Hc Hu Hm] Hr. split; cbn; try done; [set_solver..|].
  rewrite dom_insert_L, Hu. set_solver.
Qed.
Lemma give_back_ok e rid p : pool_ok p → rid ∈ in_use p →
  pool_ok (used e rid ({[rid]} ∪ available p) (in_use p ∖ {[rid]}) p).
Proof.
  intros [Ha Hk Hc Hu Hm] Hr. split; cbn; try done; [set_solver..|].
  rewrite dom_insert_L, Hu. set_solver.
Qed.
Lemma hide_ok rid p : pool_ok p → pool_ok (with_sets p (available p ∖ {[rid]}) (in_use p)).
Proof. intros []. split; cbn; try done; set_solver. Qed.
Lemma forget_ok e rid p : pool_ok p → rid ∉ available p → rid ∉ in_use p → pool_ok (forget e rid p).
Proof.
  intros [Ha Hk Hc Hu Hm] Hra Hru. split; cbn; [done|rewrite dom_delete_L; set_solver|rewrite !dom_delete_L; congruence..|].
  rewrite map_size_delete. destruct (resources p !! rid); cbn; lia.
Qed.
Lemma discard_ok e rid p : pool_ok p → pool_ok (discard e rid p).
Proof.
  intros []. apply forget_ok; [|set_solver..]. split; cbn; try done; set_solver.
Qed.
Lemma create_ok e o p p' rid : pool_ok p → size_lt_max p = true → default (fresh e) o ∉ available p →
  create_resource e o p = Some (p', rid) → pool_ok p' ∧ rid = default (fresh e) o ∧ in_use p' = {[rid]} ∪ in_use p.
Proof.
  intros [Ha Hk Hc Hu Hm] Hlt%size_lt_max_true Hfresh. unfold create_resource. destruct (made e) as [r|]; cbn [mbind option_bind]; [|done].
  intros [= <- <-]. split; [|done]. split; cbn; [set_solver|rewrite dom_insert_L; set_solver|rewrite !dom_insert_L; congruence..|].
  rewrite map_size_insert. destruct (resources p !! _); cbn; lia.
Qed.

(** What one turn of the loop does. *)
Lemma attempt_ok e p : pool_ok p → fresh e ∉ dom (resources p) →
  pool_ok (attempt e p).1 ∧
  match (attempt e p).2 with
  | Ok (Some rid) => rid ∉ in_use p ∧ in_use (attempt e p).1 = {[rid]} ∪ in_use p
  | _ => in_use (attempt e p).1 = in_use p
  end.
Proof.
  intros Hp Hf.
  assert (∀ p', pool_ok p' → in_use p' = in_use p → fresh e ∉ dom (resources p') →
    let r := (if size_lt_max p' then match create_resource e None p' with
                                     | Some (p'', rid) => (p'', Ok (Some rid)) | None => (p', Err FactoryRaised) end
              else (p', Ok None)) in
    pool_ok r.1 ∧ match r.2 with
                  | Ok (Some rid) => rid ∉ in_use p ∧ in_use r.1 = {[rid]} ∪ in_use p
                  | _ => in_use r.1 = in_use p end) as Hcreate.
  { intros p' Hp' Hu Hf'. destruct (size_lt_max p') eqn:Hlt; [|done].
    destruct (create_resource e None p') as [[p'' rid]|] eqn:E; [|done].
    pose proof (ok_known _ Hp'). apply create_ok in E as (H1 & -> & H3); [|done..|set_solver].
    cbn in *. rewrite <- Hu. split; [done|]. split; [set_solver|done]. }
  unfold attempt, try_take_validated_resource. destruct (next_iter e (available p)) as [rid|] eqn:Hn; [|by apply Hcreate].
  apply next_iter_Some in Hn. pose proof (ok_apart _ Hp) as Ha.
  destruct (match resources p !! rid with
            | Some r => if truthy_resource e r then validate e r else Some false | None => Some false end) as [[]|].
  - split; [exact (take_ok e rid p Hp Hn)|]. cbn. set_solver.
  - apply Hcreate; [apply forget_ok; [by apply hide_ok|cbn; set_solver..]|done|]. cbn. rewrite dom_delete_L. set_solver.
  - split; [by apply hide_ok|done].
Qed.
Lemma acquire_specific_ok e rid p : pool_ok p →
  pool_ok (acquire_specific e rid p).1 ∧
  match (acquire_specific e rid p).2 with
  | Ok rid' => rid' = rid ∧ rid ∉ in_use p ∧ in_use (acquire_specific e rid p).1 = {[rid]} ∪ in_use p
  | Err _ => in_use (acquire_specific e rid p).1 = in_use p
  end.
Proof.
  intros Hp. pose proof (ok_apart _ Hp) as Ha. unfold acquire_specific.
  case_bool_decide as Hav; [split; [by apply take_ok|]; cbn; set_solver|].
  case_bool_decide as Hin; [done|]. destruct (size_lt_max p) eqn:Hlt; [|done].
  destruct (create_resource e (Some rid) p) as [[p' rid']|] eqn:E; [|done].
  by apply create_ok in E as (H1 & -> & H3).
Qed.
Lemma discard_all_ok e l p : pool_ok p →
  pool_ok (foldl (λ p rid, discard e rid p) p l) ∧
  resources (foldl (λ p rid, discard e rid p) p l) = foldl (λ m rid, base.delete rid m) (resources p) l.
Proof. revert p. induction l as [|rid l IH]; intros p Hp; [done|]. apply (IH (discard e rid p)), discard_ok, Hp. Qed.
Lemma delete_tasks_all {A} (m : gmap string A) (l : list string) :
  (∀ k, is_Some (m !! k) → k ∈ l) → foldl (λ m rid, base.delete rid m) m l = ∅.
Proof.
  revert m. induction l as [|k l IH]; intros m H; cbn.
  - apply map_empty. intros i. destruct (m !! i) eqn:E; [|done]. assert (i ∈ []) as []%not_elem_of_nil by (apply H; eauto).
  - apply IH. intros k' [x [Hne Hx]%lookup_delete_Some]. assert (k' ∈ k :: l) as [->|?]%elem_of_cons by (apply H; eauto); [congruence|done].
Qed.
End invariant.

(** * Runs *)

(** Who holds what, as the events tell it. *)
Definition holding (h : gset string) (ev : event) : gset string :=
  match ev with
  | Acquired _ rid => {[rid]} ∪ h
  | Released rid | Removed rid => h ∖ {[rid]}
  | Closed => ∅
  | _ => h
  end.
(** Nothing is handed out that is held. *)
Fixpoint exclusive (h : gset string) (evs : list event) : Prop :=
  match evs with
  | [] => True
  | ev :: evs' => match ev with Acquired _ rid => rid ∉ h | _ => True end ∧ exclusive (holding h ev) evs'
  end.

Section runs.
Context {T : Type}.
Implicit Types (p : pool T) (e : env T) (s : system T) (rid : string) (w : waiter).

(** Fresh ids are fresh. *)
Fixpoint fresh_ids s (ops : list (env T * op)) : Prop :=
  match ops with
  | [] => True
  | eo :: ops' => fresh eo.1 ∉ dom (resources (the_pool s)) ∧ fresh_ids (step s eo).1 ops'
  end.
Lemma run_cons s eo ops :
  run s (eo :: ops) = ((run (step s eo).1 ops).1, (step s eo).2 :: (run (step s eo).1 ops).2).
Proof. cbn. destruct (step s eo) as [s' ev]. cbn. by destruct (run s' ops). Qed.

Lemma the_pool_notify n s : the_pool (notify n s) = the_pool s.
Proof. done. Qed.
Lemma acquire_any_ok e w s : pool_ok (the_pool s) → fresh e ∉ dom (resources (the_pool s)) →
  pool_ok (the_pool (acquire_any e w s).1) ∧
  in_use (the_pool (acquire_any e w s).1) = holding (in_use (the_pool s)) (acquire_any e w s).2 ∧
  match (acquire_any e w s).2 with Acquired _ rid => rid ∉ in_use (the_pool s) | _ => True end.
Proof.
  intros Hp Hf. pose proof (attempt_ok e _ Hp Hf) as [H1 H2]. unfold acquire_any.
  destruct (attempt e (the_pool s)) as [p' [[rid|]|why]]; cbn in *; [naive_solver| |done].
  by case_bool_decide.
Qed.
Lemma close_ok e s : pool_ok (the_pool s) → is_closed (the_pool s) = false →
  pool_ok (the_pool (close e s).1) ∧ resources (the_pool (close e s).1) = ∅ ∧ is_closed (the_pool (close e s).1) = true ∧
  config (the_pool (close e s).1) = config (the_pool s).
Proof.
  intros Hp Hc. unfold close. rewrite Hc. cbn [fst]. rewrite the_pool_notify. cbn [the_pool].
  set (p' := mkPool _ _ _ _ _ _ true _).
  assert (∀ l p, is_closed (foldl (λ p rid, discard e rid p) p l) = is_closed p ∧
                 config (foldl (λ p rid, discard e rid p) p l) = config p) as Hkeep.
  { induction l as [|rid l IH]; intros p; [done|]. apply (IH (discard e rid p)). }
  destruct (discard_all_ok e (map_to_list (resources (the_pool s))).*1 p') as [H1 H2]; [by destruct Hp; split|].
  destruct (Hkeep (map_to_list (resources (the_pool s))).*1 p') as [Hk1 Hk2].
  split; [done|]. split; [|done]. rewrite H2. apply delete_tasks_all. cbn.
  intros k [x Hx]. apply list_elem_of_fmap. exists (k, x). split; [done|]. by apply elem_of_map_to_list.
Qed.
Lemma empty_not_in_use p : pool_ok p → resources p = ∅ → available p = ∅ ∧ in_use p = ∅.
Proof. intros [_ Hk _ _ _] E. rewrite E, dom_empty_L in Hk. set_solver. Qed.

Lemma pool_step_ok s eo : pool_ok (the_pool s) → fresh eo.1 ∉ dom (resources (the_pool s)) →
  pool_ok (the_pool (step s eo).1) ∧
  in_use (the_pool (step s eo).1) = holding (in_use (the_pool s)) (step s eo).2 ∧
  match (step s eo).2 with Acquired _ rid => rid ∉ in_use (the_pool s) | _ => True end.
Proof.
  intros Hp Hf. destruct eo as [e [t rid timeout|t|t b|rid|rid|]]; cbn [step fst snd] in *.
  - unfold acquire. destruct (is_closed _); [done|]. destruct (truthy_opt rid); [|by apply acquire_any_ok].
    pose proof (acquire_specific_ok e (default "" rid) _ Hp) as [H1 H2].
    destruct (acquire_specific _ _ _) as [p' [r|why]]; cbn in *; [naive_solver|done].
  - unfold wake. destruct (take_task t (woken s)) as [[w rest]|]; [|done]. by apply (acquire_any_ok e w (mkSystem _ _ _)).
  - unfold expire. destruct (take_task t (waiting s)) as [[w rest]|]; [done|].
    destruct (take_task t (woken s)) as [[w rest]|]; [|done]. by destruct b.
  - unfold release. case_bool_decide as Hin; [|done]. split; [by apply give_back_ok|done].
  - split; [by apply discard_ok|done].
  - destruct (is_closed (the_pool s)) eqn:Hc; [unfold close; by rewrite Hc|].
    destruct (close_ok e s Hp Hc) as (H1 & H2 & _). split; [done|]. unfold close in *. rewrite Hc in *. cbn [fst snd holding] in *.
    split; [by apply empty_not_in_use|done].
Qed.
Lemma pool_run_ok ops s : pool_ok (the_pool s) → fresh_ids s ops →
  pool_ok (the_pool (run s ops).1) ∧
  in_use (the_pool (run s ops).1) = foldl holding (in_use (the_pool s)) (run s ops).2 ∧
  exclusive (in_use (the_pool s)) (run s ops).2.
Proof.
  revert s. induction ops as [|eo ops IH]; intros s Hp; [done|]. intros [Hf Hops].
  destruct (pool_step_ok s eo Hp Hf) as (H1 & H2 & H3). rewrite run_cons. cbn [fst snd foldl exclusive].
  destruct (IH _ H1 Hops) as (H4 & H5 & H6). rewrite <- H2. by split_and!.
Qed.
Lemma new_pool_ok c : (1 <= max_size c)%Z → pool_ok (T:=T) (new_pool c).
Proof. intros Hc. split; cbn; [done|done|done|done|]. rewrite map_size_empty. lia. Qed.
Lemma pool_size_bound p : pool_ok p → (Z.of_nat (pool_size p) <= max_size (config p))%Z.
Proof.
  intros [Ha Hk _ _ Hm]. unfold pool_size. rewrite <- size_union by done.
  apply subseteq_size in Hk. rewrite size_dom in Hk. lia.
Qed.
Definition start (c : PoolConfig) : system T := mkSystem (new_pool c) [] [].

Lemma attempt_config e p : config (attempt e p).1 = config p.
Proof.
  assert (∀ p' : pool T, config p' = config p →
    config (if size_lt_max p' then match create_resource e None p' with
                                   | Some (p'', rid) => (p'', Ok (Some rid)) | None => (p', Err FactoryRaised) end
            else (p', Ok None)).1 = config p) as Hcreate.
  { intros p' E. unfold create_resource. by destruct (size_lt_max p'), (made e). }
  unfold attempt, try_take_validated_resource. destruct (next_iter e (available p)) as [rid|]; [|by apply Hcreate].
  destruct (match resources p !! rid with
            | Some r => if truthy_resource e r then validate e r else Some false | None => Some false end) as [[]|];
    [done|by apply Hcreate|done].
Qed.
Lemma acquire_any_config e w s : config (the_pool (acquire_any e w s).1) = config (the_pool s).
Proof.
  pose proof (attempt_config e (the_pool s)) as E. unfold acquire_any.
  destruct (attempt e (the_pool s)) as [p' [[rid|]|why]]; cbn in *; try done. by case_bool_decide.
Qed.
Lemma step_config s eo : pool_ok (the_pool s) → config (the_pool (step s eo).1) = config (the_pool s).
Proof.
  intros Hp. destruct eo as [e [t rid timeout|t|t b|rid|rid|]]; cbn [step fst snd].
  - unfold acquire. destruct (is_closed _); [done|]. destruct (truthy_opt rid); [|apply acquire_any_config].
    unfold acquire_specific. do 2 (case_bool_decide; [done|]). destruct (size_lt_max _); [|done].
    unfold create_resource. by destruct (made e).
  - unfold wake. destruct (take_task t (woken s)) as [[w rest]|]; [|done]. apply (acquire_any_config e w (mkSystem _ _ _)).
  - unfold expire. destruct (take_task t (waiting s)) as [[w rest]|]; [done|].
    destruct (take_task t (woken s)) as [[w rest]|]; [|done]. by destruct b.
  - unfold release. by case_bool_decide.
  - done.
  - destruct (is_closed (the_pool s)) eqn:Hc; [unfold close; by rewrite Hc|]. by apply close_ok.
Qed.
Lemma run_config ops s : pool_ok (the_pool s) → fresh_ids s ops →
  config (the_pool (run s ops).1) = config (the_pool s).
Proof.
  revert s. induction ops as [|eo ops IH]; intros s Hp; [done|]. intros [Hf Hops]. rewrite run_cons. cbn [fst].
  rewrite IH; [by apply step_config|by apply pool_step_ok|done].
Qed.

(** C33. Whatever tasks do and in whatever order they run, wait, time out, remove and close,
    no resource is handed out while it is held, what is in use is what was
    handed out and not given back, available and used resources are apart and
    known, and there are never more than the configured number of them. *)
Theorem pool_exclusive mn mx at_ it ml c ops :
  new_config mn mx at_ it ml = Ok c → fresh_ids (start c) ops →
  let '(s, evs) := run (start c) ops in
  exclusive ∅ evs ∧ in_use (the_pool s) = foldl holding ∅ evs ∧ pool_ok (the_pool s) ∧
  (Z.of_nat (pool_size (the_pool s)) <= mx)%Z.
Proof.
  intros Hc Hops. assert (max_size c = mx ∧ (1 <= mx)%Z) as [<- Hmx].
  { unfold new_config in Hc. do 4 (case_bool_decide; [done|]). injection Hc as <-. cbn. lia. }
  destruct (pool_run_ok ops (start c) (new_pool_ok c Hmx) Hops) as (H1 & H2 & H3).
  pose proof (run_config ops (start c) (new_pool_ok c Hmx) Hops) as H4.
  destruct (run (start c) ops) as [s evs] eqn:E. cbn in *. split_and!; [done..|].
  rewrite <- H4. by apply pool_size_bound.
Qed.

(** * Wake-ups *)

(** Nothing is removed while tasks wait, factory and validation do not raise. *)
Definition calm s (eo : env T * op) : Prop :=
  is_Some (made eo.1) ∧ (∀ r, is_Some (validate eo.1 r)) ∧
  match eo.2 with Remove _ => waiting s = [] | _ => True end.
Fixpoint calm_run s (ops : list (env T * op)) : Prop :=
  match ops with
  | [] => True
  | eo :: ops' => calm s eo ∧ calm_run (step s eo).1 ops'
  end.
(** The notifications that end with a task that has run out of time, as they
    do before CPython 3.13. *)
Definition drops s (eo : env T * op) : nat :=
  match eo.2 with
  | Expire t false => match take_task t (waiting s), take_task t (woken s) with None, Some _ => 1 | _, _ => 0 end
  | _ => 0
  end.
Fixpoint dropped s (ops : list (env T * op)) : nat :=
  match ops with
  | [] => 0
  | eo :: ops' => drops s eo + dropped (step s eo).1 ops'
  end.
(** While tasks wait, enough of them are on their way for what there is, but
    for [k] lost notifications. *)
Definition served (k : nat) s : Prop :=
  waiting s ≠ [] → (slack (the_pool s) <= Z.of_nat (length (woken s) + k))%Z.

Lemma slack_hide rid p : rid ∈ available p →
  slack (with_sets p (available p ∖ {[rid]}) (in_use p)) = (slack p - 1)%Z.
Proof. intros Hr. unfold slack. cbn. rewrite (size_without rid (available p)) by done. lia. Qed.
Lemma slack_forget e rid p : is_Some (resources p !! rid) → slack (forget e rid p) = (slack p + 1)%Z.
Proof.
  intros Hr. unfold slack. cbn. rewrite map_size_delete_Some by done.
  assert (size (resources p) ≠ 0) by (rewrite map_size_non_empty_iff; intros E; rewrite E in Hr; by destruct Hr). lia.
Qed.
Lemma slack_create e o p p' rid : create_resource e o p = Some (p', rid) →
  resources p !! default (fresh e) o = None → slack p' = (slack p - 1)%Z.
Proof.
  unfold create_resource. destruct (made e); cbn [mbind option_bind]; [|done]. intros [= <- <-] Hn.
  unfold slack. cbn. rewrite map_size_insert_None by done. lia.
Qed.
Lemma create_slack_le e o p p' rid : create_resource e o p = Some (p', rid) → (slack p' <= slack p)%Z.
Proof.
  unfold create_resource. destruct (made e); cbn [mbind option_bind]; [|done]. intros [= <- <-].
  unfold slack. cbn. rewrite map_size_insert. destruct (resources p !! _); cbn; lia.
Qed.
Lemma attempt_slack e p : pool_ok p → fresh e ∉ dom (resources p) → is_Some (made e) → (∀ r, is_Some (validate e r)) →
  match (attempt e p).2 with
  | Ok (Some _) => slack (attempt e p).1 = (slack p - 1)%Z
  | Ok None => slack (attempt e p).1 = 0%Z
  | Err _ => False
  end.
Proof.
  intros Hp Hf [r Hmade] Hv.
  assert (∀ p', slack p' = slack p → (size_lt_max p' = false → slack p' = 0%Z) → resources p' !! fresh e = None →
    let r := (if size_lt_max p' then match create_resource e None p' with
                                     | Some (p'', rid) => (p'', Ok (Some rid)) | None => (p', Err FactoryRaised) end
              else (p', Ok None)) in
    match r.2 with
    | Ok (Some _) => slack r.1 = (slack p - 1)%Z | Ok None => slack r.1 = 0%Z | Err _ => False end) as Hcreate.
  { intros p' E H0 Hn. destruct (size_lt_max p') eqn:Hlt; [|by apply H0].
    destruct (create_resource e None p') as [[p'' rid]|] eqn:Ec.
    - rewrite <- E. by eapply slack_create.
    - unfold create_resource in Ec. by rewrite Hmade in Ec. }
  assert (∀ p' : pool T, pool_ok p' → size_lt_max p' = false → Z.of_nat (size (resources p')) = max_size (config p')) as Hfull.
  { intros p' [] Hlt%bool_decide_eq_false. lia. }
  unfold attempt, try_take_validated_resource. destruct (next_iter e (available p)) as [rid|] eqn:Hn.
  - apply next_iter_Some in Hn. pose proof (ok_known _ Hp) as Hk. pose proof (ok_apart _ Hp) as Ha.
    assert (is_Some (resources p !! rid)) as [x Hx] by (apply elem_of_dom; set_solver). rewrite Hx.
    destruct (if truthy_resource e x then validate e x else Some false) as [[]|] eqn:Hver.
    + by apply (slack_hide rid p).
    + assert (slack (forget e rid (with_sets p (available p ∖ {[rid]}) (in_use p))) = slack p) as E
        by (rewrite slack_forget by (cbn; eauto); rewrite slack_hide by done; lia).
      apply Hcreate; [done| |].
      * intros Hlt%bool_decide_eq_false. cbn in Hlt. destruct Hlt. rewrite map_size_delete_Some by eauto.
        pose proof (ok_capacity _ Hp).
        assert (size (resources p) ≠ 0) by (rewrite map_size_non_empty_iff; intros E'; by rewrite E' in Hx). lia.
      * cbn. apply lookup_delete_None. right. by apply not_elem_of_dom.
    + destruct (truthy_resource e x); [|done]. destruct (Hv x) as [b Hb]. congruence.
  - apply next_iter_None in Hn. apply Hcreate; [done| |by apply not_elem_of_dom].
    intros Hlt. unfold slack. rewrite Hn, size_empty, (Hfull p Hp Hlt). lia.
Qed.
Lemma acquire_specific_slack e rid p : (slack (acquire_specific e rid p).1 <= slack p)%Z.
Proof.
  unfold acquire_specific. case_bool_decide as Ha.
  - pose proof (slack_hide rid p Ha) as E. unfold slack in *. cbn in *. lia.
  - case_bool_decide; [cbn; lia|]. destruct (size_lt_max p); [|cbn; lia].
    destruct (create_resource e (Some rid) p) as [[p' rid']|] eqn:E; [|cbn; lia]. by eapply create_slack_le.
Qed.
Lemma acquire_any_served k e w s : pool_ok (the_pool s) → fresh e ∉ dom (resources (the_pool s)) →
  is_Some (made e) → (∀ r, is_Some (validate e r)) →
  (waiting s ≠ [] → (slack (the_pool s) <= Z.of_nat (length (woken s) + k) + 1)%Z) →
  served k (acquire_any e w s).1.
Proof.
  intros Hp Hf Hm Hv Hs. pose proof (attempt_slack e _ Hp Hf Hm Hv) as Ha. unfold acquire_any, served.
  destruct (attempt e (the_pool s)) as [p' [[rid|]|why]]; cbn in *; [|case_bool_decide; cbn; lia|done].
  intros Hw. specialize (Hs Hw). lia.
Qed.
Lemma served_notify k s : (waiting s ≠ [] → slack (the_pool s) <= Z.of_nat (length (woken s) + k) + 1)%Z → served k (notify 1 s).
Proof.
  intros H. unfold served. cbn. destruct (waiting s) as [|w ws]; cbn; [done|]. intros _.
  rewrite length_app. cbn. specialize (H ltac:(done)). lia.
Qed.
Lemma take_task_length t l w rest : take_task t l = Some (w, rest) → length l = S (length rest).
Proof.
  revert rest. induction l as [|w' l IH]; intros rest; [done|]. cbn. destruct (decide _); [by intros [= <- <-]|].
  destruct (take_task t l) as [[w'' rest']|]; [|done]. intros [= <- <-]. cbn. by rewrite (IH rest').
Qed.
Lemma step_served k s eo : pool_ok (the_pool s) → fresh eo.1 ∉ dom (resources (the_pool s)) →
  calm s eo → served k s → served (drops s eo + k) (step s eo).1.
Proof.
  intros Hp Hf (Hm & Hv & Ho) Hs.
  destruct eo as [e [t rid timeout|t|t b|rid|rid|]]; cbn [step fst snd] in *.
  - unfold acquire. destruct (is_closed _); [done|]. destruct (truthy_opt rid).
    + pose proof (acquire_specific_slack e (default "" rid) (the_pool s)).
      destruct (acquire_specific _ _ _) as [p' [r|why]]; intros Hw; cbn in *; specialize (Hs Hw); lia.
    + apply acquire_any_served; try done. intros Hw. specialize (Hs Hw). lia.
  - unfold wake. destruct (take_task t (woken s)) as [[w rest]|] eqn:E; [|done].
    apply take_task_length in E. apply acquire_any_served; cbn; try done.
    intros Hw. specialize (Hs Hw). lia.
  - unfold drops, expire. cbn [snd]. destruct (take_task t (waiting s)) as [[w rest]|] eqn:E.
    + assert (served k (mkSystem (the_pool s) rest (woken s))) as H1
        by (apply take_task_length in E; intros Hw; cbn in *; apply Hs; by destruct (waiting s)).
      by destruct b.
    + destruct (take_task t (woken s)) as [[w rest]|] eqn:E'; [|by destruct b]. apply take_task_length in E'.
      destruct b; [apply served_notify|]; cbn; intros Hw; specialize (Hs Hw); cbn in *; lia.
  - unfold release. case_bool_decide as Hin; [|done]. apply served_notify. cbn. intros Hw. specialize (Hs Hw).
    pose proof (ok_apart _ Hp). unfold slack in *. cbn. rewrite size_with by set_solver. lia.
  - intros Hw. cbn in Hw. congruence.
  - unfold close. destruct (is_closed _); [done|]. intros Hw. cbn in Hw. by rewrite drop_all in Hw.
Qed.
Lemma run_served k ops s : pool_ok (the_pool s) → fresh_ids s ops → calm_run s ops → served k s → served (k + dropped s ops) (run s ops).1.
Proof.
  revert k s. induction ops as [|eo ops IH]; intros k s Hp; [cbn; by rewrite Nat.add_0_r|].
  intros [Hf Hops] [Hc Hcs] Hs. rewrite run_cons. cbn [fst dropped].
  replace (k + (drops s eo + dropped (step s eo).1 ops)) with (drops s eo + k + dropped (step s eo).1 ops) by lia.
  apply IH; [by apply pool_step_ok|done..|by apply step_served].
Qed.

(** Only the waiting tasks themselves move. *)
Definition left_alone (eo : env T * op) : Prop :=
  match eo.2 with Wake _ | Expire _ _ => True | _ => False end.
Lemma left_alone_times_out ops s : woken s = [] → Forall left_alone ops →
  Forall (λ ev, ev = Idle ∨ ∃ t, ev = Raised t TimedOut) (run s ops).2 ∧ the_pool (run s ops).1 = the_pool s.
Proof.
  intros Hw Hops. revert s Hw. induction Hops as [|eo ops Ho _ IH]; intros s Hw; [done|]. rewrite run_cons. cbn [snd fst].
  assert (woken (step s eo).1 = [] ∧ the_pool (step s eo).1 = the_pool s ∧
    ((step s eo).2 = Idle ∨ ∃ t, (step s eo).2 = Raised t TimedOut)) as (H1 & H2 & H3).
  { destruct eo as [e []]; cbn in *; try done.
    - unfold wake. rewrite Hw. cbn. eauto.
    - unfold expire. rewrite Hw. destruct (take_task t (waiting s)) as [[w rest]|]; cbn; eauto. }
  destruct (IH _ H1) as [H4 H5]. split; [by constructor|congruence].
Qed.
(** Removing a resource makes room and tells nobody: left to themselves, tasks that wait
    then do nothing but run out of time; and a task that waits while the pool
    is closed goes on to create a resource in the closed pool, which a second
    [close] does not clean up. *)
Theorem unnoticed_changes e s rid :
  pool_ok (the_pool s) → is_Some (resources (the_pool s) !! rid) → woken s = [] →
  (let s' := (step s (e, Remove rid)).1 in
   size_lt_max (the_pool s') = true ∧ waiting s' = waiting s ∧
   ∀ ops, Forall left_alone ops → Forall (λ ev, ev = Idle ∨ ∃ t, ev = Raised t TimedOut) (run s' ops).2) ∧
  (∀ w ws, is_closed (the_pool s) = false → waiting s = w :: ws → is_Some (made e) → (1 <= max_size (config (the_pool s)))%Z →
   let s' := (run s [(e, Close); (e, Wake (task w)); (e, Close)]).1 in
   is_closed (the_pool s') = true ∧ is_Some (get_resource (fresh e) (the_pool s')) ∧ fresh e ∈ in_use (the_pool s')).
Proof.
  intros Hp Hr Hw. split.
  - cbn. split_and!; [|done|].
    + apply bool_decide_eq_true. cbn. rewrite map_size_delete_Some by done. pose proof (ok_capacity _ Hp).
      assert (size (resources (the_pool s)) ≠ 0) by (rewrite map_size_non_empty_iff; intros E; rewrite E in Hr; by destruct Hr). lia.
    + intros ops Hops. by apply left_alone_times_out.
  - intros w ws Hcl Hwait Hm Hmax. rewrite !run_cons. cbn [run fst].
    destruct (close_ok e s Hp Hcl) as (H1 & H2 & H3 & H4). cbn [step fst snd].
    assert (woken (close e s).1 = w :: ws) as Hwk by (unfold close; rewrite Hcl; cbn; by rewrite Hw, firstn_all, Hwait).
    destruct (empty_not_in_use _ H1 H2) as [Ha Hu]. destruct (close e s) as [s1 ev1]. cbn in *.
    unfold wake. rewrite Hwk. cbn [take_task]. rewrite decide_True by done.
    unfold acquire_any, attempt, try_take_validated_resource. cbn [the_pool].
    assert (next_iter e (available (the_pool s1)) = None) as -> by (rewrite Ha; unfold next_iter; by rewrite bool_decide_eq_false_2 by set_solver).
    assert (size_lt_max (the_pool s1) = true) as ->
      by (apply bool_decide_eq_true; rewrite H2, map_size_empty, H4; lia).
    unfold create_resource. destruct Hm as [r ->]. cbn. unfold close. cbn. rewrite H3. cbn.
    split; [done|]. unfold get_resource. cbn. rewrite lookup_insert_eq. split; [eauto|set_solver].
Qed.
End runs.

(** * Witnesses *)

Definition small_config : PoolConfig := mkConfig 0 1 30000 300000 3600000.
(** A clock, a fresh id; every port is a good one. *)
Definition at_ (now : Z) (fresh : string) : env nat :=
  mkEnv now "a" fresh (Some 8080) (λ _, Some true) (λ n, negb (n =? 0)).
(** Task 2 waits for the resource of task 1, which task 3 takes first. *)
Definition barging : list (env nat * op) :=
  [(at_ 0 "a", Acquire 1 None None); (at_ 5 "b", Acquire 2 None (Some 60%Z)); (at_ 10 "c", Release "a");
   (at_ 10 "c", Acquire 3 None None); (at_ 11 "c", Wake 2); (at_ 20 "c", Release "a"); (at_ 21 "c", Wake 2);
   (at_ 22 "c", Acquire 4 None None); (at_ 23 "c", Acquire 5 (Some "a") None)]%Z.
(** Task 2, woken for the resource of task 1, runs out of time before it has
    the lock; task 3 goes on waiting. *)
Definition late : list (env nat * op) :=
  [(at_ 0 "a", Acquire 1 None None); (at_ 5 "b", Acquire 2 None (Some 60%Z)); (at_ 6 "c", Acquire 3 None (Some 1000%Z));
   (at_ 65 "c", Release "a"); (at_ 65 "c", Expire 2 false)]%Z.

Lemma at_calm s t f o : match o with Remove _ => False | _ => True end → calm s (at_ t f, o).
Proof. intros H. split; [by eexists|]. split; [by eexists|]. by destruct o. Qed.
Ltac fresh_run := cbn [fresh_ids barging take firstn]; split_and!; try exact I; apply not_elem_of_dom; reflexivity.

Lemma pool_exclusive_witness :
  (run (start small_config) barging).2 =
    [Acquired 1 "a"; Waits 2; Released "a"; Acquired 3 "a"; Waits 2; Released "a"; Acquired 2 "a"; Waits 4; Raised 5 AlreadyInUse] ∧
  exclusive ∅ (run (start small_config) barging).2.
Proof.
  split; [reflexivity|].
  pose proof (pool_exclusive 0 1 30000 300000 3600000 small_config barging eq_refl) as H.
  destruct (run (start small_config) barging) as [s evs]. apply H. fresh_run.
Defined.
Lemma unnoticed_changes_witness :
  let s := (run (start small_config) (take 2 barging)).1 in
  waiting (step s (at_ 6 "b", Remove "a")).1 = [mkWaiter 2 65] ∧
  size_lt_max (the_pool (step s (at_ 6 "b", Remove "a")).1) = true ∧
  fresh (at_ 6 "b") ∈ in_use (the_pool (run s [(at_ 6 "b", Close); (at_ 6 "b", Wake 2); (at_ 6 "b", Close)]).1).
Proof.
  pose proof (unnoticed_changes (at_ 6 "b") (run (start small_config) (take 2 barging)).1 "a") as H.
  destruct H as [(H1 & H2 & _) H3].
  - apply pool_run_ok; [by apply new_pool_ok|]. fresh_run.
  - eexists. reflexivity.
  - reflexivity.
  - split; [reflexivity|]. split; [done|].
    eapply (H3 (mkWaiter 2 65) []); [reflexivity|reflexivity|by eexists|done].
Defined.
