(* ===== verification/RateLimiter.v ===== *)
(** The rate limiter of LLM providers: a semaphore and a sliding window per
    provider, and the counters that workers share in Redis.

    Source: src/src/infrastructure/llm/resilience/rate_limiter.py.  A provider
    is the text of its type.  What a task does between two awaits is one step.
    The semaphore is that of asyncio (CPython 3.12): FIFO, a released permit
    goes to the first waiter at once, and a task that may pass still waits
    behind those that were let through and have not run yet.  Times are in
    milliseconds. *)

From S2P Require Import Prelude.

Open Scope string_scope.
Open Scope list_scope.
Open Scope nat_scope.

Notation provider := string (only parsing).

(** * Configuration *)

Record RateLimitConfig : Type := mkLimits {
  max_concurrent : nat;
  rpm : Z;
  tpm : Z;
  burst_allowance : Z;
  window_seconds : Z;
}.
Definition limits (n : nat) (r t : Z) : RateLimitConfig := mkLimits n r t 5 60.
Definition DEFAULT_RATE_LIMITS : list (provider * RateLimitConfig) :=
  [("openai", limits 50 10000 2000000); ("openrouter", limits 50 10000 2000000); ("gemini", limits 100 60000 4000000);
   ("dashscope", limits 30 6000 300000); ("deepseek", limits 20 2000 100000); ("zai", limits 30 5000 200000);
   ("anthropic", limits 40 4000 400000); ("kimi", limits 20 3000 100000); ("groq", limits 30 30000 500000);
   ("mistral", limits 30 5000 200000); ("cohere", limits 20 10000 200000); ("ollama", limits 10 0 0);
   ("lmstudio", limits 10 0 0)]%Z.
Definition DEFAULT_FALLBACK_CONFIG : RateLimitConfig := limits 10 1000 50000.
Definition max_requests (c : RateLimitConfig) : Z := (rpm c + burst_allowance c)%Z.
Definition window_ms (c : RateLimitConfig) : Z := (window_seconds c * 1000)%Z.

Record RateLimitStats : Type := mkStats {
  total_requests : Z;
  waiting_requests : Z;
  rejected_requests : Z;
  total_wait_time_ms : Z;
}.
Definition no_stats : RateLimitStats := mkStats 0 0 0 0.

(** * [asyncio.Semaphore] *)

(** Its capacity; free permits; waiters, and whether they were let through;
    the tasks whose context has not been released. *)
Record sem : Type := mkSem { cap : nat; value : nat; queue : list (nat * bool); holders : list nat }.
Definition new_sem (n : nat) : sem := mkSem n n [] [].
(** The first waiter not let through is; [None] when there is none. *)
Fixpoint let_through (q : list (nat * bool)) : option (list (nat * bool)) :=
  match q with
  | [] => None
  | (t, false) :: q' => Some ((t, true) :: q')
  | (t, true) :: q' => cons (t, true) <$> let_through q'
  end.
(** [_wake_up_next] *)
Definition wake_up_next (m : sem) : sem :=
  match let_through (queue m) with
  | Some q => mkSem (cap m) (value m - 1) q (holders m)
  | None => m
  end.
Definition locked (m : sem) : bool := bool_decide (value m = 0) || bool_decide (queue m ≠ []).
(** [acquire] up to its first suspension: whether the task goes on. *)
Definition sem_acquire (t : nat) (m : sem) : sem * bool :=
  if locked m then (mkSem (cap m) (value m) (queue m ++ [(t, false)]) (holders m), false)
  else (mkSem (cap m) (value m - 1) (queue m) (t :: holders m), true).
Fixpoint remove_one {A} `{EqDecision A} (x : A) (l : list A) : list A :=
  match l with [] => [] | y :: l' => if decide (y = x) then l' else y :: remove_one x l' end.
(** The rest of [acquire] when the waiter runs again. *)
Definition sem_resume (t : nat) (m : sem) : sem :=
  let m' := mkSem (cap m) (value m) (remove_one (t, true) (queue m)) (t :: holders m) in
  if bool_decide (0 < value m') then wake_up_next m' else m'.
(** The same after a cancellation, which gives back a permit it had got. *)
Definition sem_cancel (t : nat) (m : sem) : sem :=
  if bool_decide ((t, true) ∈ queue m)
  then wake_up_next (mkSem (cap m) (S (value m)) (remove_one (t, true) (queue m)) (holders m))
  else mkSem (cap m) (value m) (remove_one (t, false) (queue m)) (holders m).
(** [release], by a task that holds a permit. *)
Definition sem_release (t : nat) (m : sem) : sem :=
  wake_up_next (mkSem (cap m) (S (value m)) (queue m) (remove_one t (holders m))).

(** * [ProviderRateLimiter] *)

(** An [acquire] in progress, or a context: the semaphore it uses and when it
    started. *)
Record job : Type := mkJob { job_provider : provider; job_sem : nat; started : Z }.
(** [admitted] lists every admission. *)
Record limiter : Type := mkLimiter {
  configs : gmap provider RateLimitConfig;
  semaphores : gmap provider nat;
  objects : list sem;
  stats : gmap provider RateLimitStats;
  request_times : gmap provider (list Z);
  jobs : gmap nat job;
  asleep : gset nat;
  admitted : list (provider * Z);
}.
Definition new_limiter (c : option (list (provider * RateLimitConfig))) : limiter :=
  mkLimiter (list_to_map (default DEFAULT_RATE_LIMITS c)) ∅ [] ∅ ∅ ∅ ∅ [].

Implicit Types (l : limiter) (p : provider).
Definition get_config p l : RateLimitConfig := default DEFAULT_FALLBACK_CONFIG (configs l !! p).
Definition on_sem (i : nat) (f : sem → sem) l : limiter :=
  mkLimiter (configs l) (semaphores l) (alter f i (objects l)) (stats l) (request_times l) (jobs l) (asleep l) (admitted l).
Definition on_stats p (f : RateLimitStats → RateLimitStats) l : limiter :=
  mkLimiter (configs l) (semaphores l) (objects l) (alter f p (stats l)) (request_times l) (jobs l) (asleep l) (admitted l).
Definition with_jobs (j : gmap nat job) (a : gset nat) l : limiter :=
  mkLimiter (configs l) (semaphores l) (objects l) (stats l) (request_times l) j a (admitted l).
(** [_get_semaphore] *)
Definition get_semaphore p l : limiter * nat :=
  match semaphores l !! p with
  | Some i => (l, i)
  | None =>
      let i := length (objects l) in
      (mkLimiter (configs l) (<[p := i]> (semaphores l)) (objects l ++ [new_sem (max_concurrent (get_config p l))])
         (<[p := no_stats]> (stats l)) (<[p := []]> (request_times l)) (jobs l) (asleep l) (admitted l), i)
  end.
(** [_check_rpm_limit] *)
Definition check_rpm_limit (now : Z) p l : limiter * bool :=
  let c := get_config p l in
  if bool_decide (rpm c <= 0)%Z then (l, true)
  else
    let times := filter (λ t, (now - window_ms c < t)%Z) (default [] (request_times l !! p)) in
    (mkLimiter (configs l) (semaphores l) (objects l) (stats l) (<[p := times]> (request_times l)) (jobs l) (asleep l)
       (admitted l), bool_decide (Z.of_nat (length times) < max_requests c)%Z).
(** [_record_request] *)
Definition record_request (now : Z) p l : limiter :=
  mkLimiter (configs l) (semaphores l) (objects l) (stats l)
    (<[p := default [] (request_times l !! p) ++ [now]]> (request_times l)) (jobs l) (asleep l) (admitted l ++ [(p, now)]).
(** [acquire] from where it has a permit: it has it for good, or gives it back and sleeps. *)
Definition permitted (now : Z) (t : nat) (j : job) l : limiter :=
  let p := job_provider j in
  let '(l, ok) := check_rpm_limit now p l in
  if ok then
    record_request now p
      (on_stats p (λ s, mkStats (total_requests s) (waiting_requests s - 1) (rejected_requests s)
                          (total_wait_time_ms s + (now - started j))) l)
  else
    let l := on_sem (job_sem j) (sem_release t) l in
    with_jobs (jobs l) ({[t]} ∪ asleep l) l.
(** [await semaphore.acquire()] *)
Definition await_semaphore (now : Z) (t : nat) (j : job) l : limiter :=
  match objects l !! job_sem j with
  | Some m =>
      let '(m', ok) := sem_acquire t m in
      let l := on_sem (job_sem j) (λ _, m') l in
      if ok then permitted now t j l else l
  | None => l
  end.

Inductive op : Type :=
  | Start (t : nat) (p : provider)
  | Resume (t : nat)
  | Awake (t : nat)
  | Finish (t : nat)
  | Cancel (t : nat)
  | Configure (p : provider) (c : RateLimitConfig).

Definition start (now : Z) (t : nat) p l : limiter :=
  let '(l, i) := get_semaphore p l in
  let l := on_stats p (λ s, mkStats (total_requests s + 1) (waiting_requests s + 1) (rejected_requests s)
                              (total_wait_time_ms s)) l in
  let j := mkJob p i now in
  await_semaphore now t j (with_jobs (<[t := j]> (jobs l)) (asleep l) l).
Definition update_config p (c : RateLimitConfig) l : limiter :=
  let old := configs l !! p in
  let l := mkLimiter (<[p := c]> (configs l)) (semaphores l) (objects l) (stats l) (request_times l) (jobs l) (asleep l)
             (admitted l) in
  match old, semaphores l !! p with
  | Some o, Some _ =>
      if bool_decide (max_concurrent o ≠ max_concurrent c) then
        mkLimiter (configs l) (<[p := length (objects l)]> (semaphores l)) (objects l ++ [new_sem (max_concurrent c)])
          (stats l) (request_times l) (jobs l) (asleep l) (admitted l)
      else l
  | _, _ => l
  end.
(** A step of a task does nothing when the task is not where the step starts. *)
Definition step l (no : Z * op) : limiter :=
  let now := no.1 in
  match no.2 with
  | Start t p => if bool_decide (jobs l !! t = None) then start now t p l else l
  | Resume t =>
      match jobs l !! t with
      | Some j =>
          match objects l !! job_sem j with
          | Some m => if bool_decide ((t, true) ∈ queue m)
                      then permitted now t j (on_sem (job_sem j) (sem_resume t) l) else l
          | None => l
          end
      | None => l
      end
  | Awake t =>
      match jobs l !! t with
      | Some j => if bool_decide (t ∈ asleep l) then await_semaphore now t j (with_jobs (jobs l) (asleep l ∖ {[t]}) l) else l
      | None => l
      end
  | Finish t =>
      match jobs l !! t with
      | Some j =>
          match objects l !! job_sem j with
          | Some m => if bool_decide (t ∈ holders m)
                      then let l := on_sem (job_sem j) (sem_release t) l in with_jobs (base.delete t (jobs l)) (asleep l) l
                      else l
          | None => l
          end
      | None => l
      end
  | Cancel t =>
      match jobs l !! t with
      | Some j =>
          if bool_decide (t ∈ asleep l) then with_jobs (base.delete t (jobs l)) (asleep l ∖ {[t]}) l
          else match objects l !! job_sem j with
               | Some m => if bool_decide ((t, true) ∈ queue m ∨ (t, false) ∈ queue m)
                           then let l := on_sem (job_sem j) (sem_cancel t) l in with_jobs (base.delete t (jobs l)) (asleep l) l
                           else l
               | None => l
               end
      | None => l
      end
  | Configure p c => update_config p c l
  end.
Definition run l (ops : list (Z * op)) : limiter := foldl step l ops.

(** [get_stats]: the average wait is the quotient of its two numbers. *)
Record stats_view : Type := mkView { view_config : RateLimitConfig; view_stats : RateLimitStats; current_rpm : nat }.
Definition get_stats_obj p l : limiter * RateLimitStats :=
  let l := match stats l !! p with Some _ => l | None => (get_semaphore p l).1 end in
  (l, default no_stats (stats l !! p)).
Definition get_stats (now : Z) p l : limiter * stats_view :=
  let '(l, s) := get_stats_obj p l in
  let c := get_config p l in
  (l, mkView c s (length (filter (λ t, (now - window_ms c < t)%Z) (default [] (request_times l !! p))))).

(** * Permits *)

Definition let_in (q : list (nat * bool)) : nat := length (filter (λ w, w.2 = true) q).
#[global] Arguments let_in : simpl never.
(** No permit is lost: each is free, on its way to a task, or held; and a free
    one is not kept from a waiting task for which nobody is on the way. *)
Record sem_ok (m : sem) : Prop := {
  ok_permits : value m + let_in (queue m) + length (holders m) = cap m;
  ok_progress : value m = 0 ∨ 0 < let_in (queue m) ∨ queue m = [];
}.

Lemma let_in_nil : let_in [] = 0.
Proof. done. Qed.
Lemma let_in_app q q' : let_in (q ++ q') = let_in q + let_in q'.
Proof. unfold let_in. by rewrite filter_app, length_app. Qed.
Lemma let_in_cons w q : let_in (w :: q) = (if w.2 then 1 else 0) + let_in q.
Proof. unfold let_in. rewrite filter_cons. destruct w as [t []]; by case_decide. Qed.
Lemma let_through_Some q q' : let_through q = Some q' → let_in q' = S (let_in q).
Proof.
  revert q'. induction q as [|[t []] q IH]; intros q'; cbn [let_through]; [done| |].
  - destruct (let_through q) as [q1|]; cbn [fmap option_fmap option_map]; [|done]. intros [= <-].
    by rewrite !let_in_cons, (IH q1).
  - intros [= <-]. by rewrite !let_in_cons.
Qed.
Lemma let_through_None q : let_through q = None → let_in q = length q.
Proof.
  induction q as [|[t []] q IH]; cbn [let_through]; [done| |done]. destruct (let_through q); [done|]. intros _.
  rewrite let_in_cons. cbn. by rewrite IH.
Qed.
Lemma length_remove_one {A} `{EqDecision A} (x : A) ys : x ∈ ys → length ys = S (length (remove_one x ys)).
Proof.
  induction ys as [|y ys IH]; [by intros ?%elem_of_nil|]. cbn. destruct (decide (y = x)); [done|].
  intros [->|H]%elem_of_cons; [done|]. cbn. by rewrite <- IH.
Qed.
Lemma let_in_remove (t : nat) (b : bool) (q : list (nat * bool)) : (t, b) ∈ q → let_in q = (if b then 1 else 0) + let_in (remove_one (t, b) q).
Proof.
  induction q as [|w q IH]; [by intros ?%elem_of_nil|]. cbn. destruct (decide (w = (t, b))) as [->|Hne].
  - by rewrite let_in_cons.
  - intros [<-|H]%elem_of_cons; [done|]. rewrite !let_in_cons, IH by done. lia.
Qed.

Lemma new_sem_ok n : sem_ok (new_sem n).
Proof. split; cbn; [unfold let_in; cbn; lia|tauto]. Qed.
(** Waking the next waiter keeps the count, and leaves nobody behind. *)
Lemma wake_up_next_ok m : value m + let_in (queue m) + length (holders m) = cap m → 0 < value m → sem_ok (wake_up_next m).
Proof.
  intros Hc Hv. unfold wake_up_next. destruct (let_through (queue m)) as [q|] eqn:E.
  - apply let_through_Some in E. split; cbn; [lia|]. right. left. lia.
  - apply let_through_None in E. split; [done|]. destruct (queue m) as [|w q]; [tauto|]. right. left. rewrite E. cbn. lia.
Qed.
Lemma sem_acquire_ok t (m : sem) : sem_ok m → sem_ok (sem_acquire t m).1.
Proof.
  intros [Hc Hp]. unfold sem_acquire, locked. case_bool_decide as Hv; case_bool_decide as Hq; cbn.
  1,2,3: split; cbn; rewrite ?let_in_app, ?let_in_cons, ?let_in_nil; cbn; [lia|].
  - tauto.
  - tauto.
  - destruct Hp as [?|[?|?]]; [tauto|right; left; lia|done].
  - split; cbn; [lia|]. right. right. destruct (queue m); [done|by destruct Hq].
Qed.
Lemma sem_resume_ok t m : sem_ok m → (t, true) ∈ queue m → sem_ok (sem_resume t m).
Proof.
  intros [Hc Hp] Ht. pose proof (let_in_remove t true (queue m) Ht) as E. unfold sem_resume. cbn in *.
  case_bool_decide as Hv; [apply wake_up_next_ok; cbn; lia|]. split; cbn; [lia|]. left. lia.
Qed.
Lemma sem_cancel_ok t m : sem_ok m → (t, true) ∈ queue m ∨ (t, false) ∈ queue m → sem_ok (sem_cancel t m).
Proof.
  intros [Hc Hp] Ht. unfold sem_cancel. case_bool_decide as Htrue.
  - pose proof (let_in_remove t true (queue m) Htrue) as E. apply wake_up_next_ok; cbn in *; lia.
  - destruct Ht as [?|Ht]; [done|]. pose proof (let_in_remove t false (queue m) Ht) as E. cbn in E.
    split; cbn; [lia|]. destruct Hp as [?|[?|Hq]]; [tauto|right; left; lia|]. rewrite Hq in Ht. by apply elem_of_nil in Ht.
Qed.
Lemma sem_release_ok t m : sem_ok m → t ∈ holders m → sem_ok (sem_release t m).
Proof.
  intros [Hc _] Ht. pose proof (length_remove_one t (holders m) Ht) as E. apply wake_up_next_ok; cbn; lia.
Qed.

(** * What every run keeps *)

(** When requests of a provider were admitted. *)
Definition times p l : list Z := (filter (λ a, a.1 = p) (admitted l)).*2.
Record limiter_ok l : Prop := {
  lo_sems : Forall sem_ok (objects l);
  lo_stats : ∀ p, match stats l !! p with
                  | Some s => is_Some (semaphores l !! p) ∧
                      waiting_requests s = (total_requests s - Z.of_nat (length (times p l)))%Z
                  | None => semaphores l !! p = None ∧ times p l = []
                  end;
  lo_jobs : ∀ t j, jobs l !! t = Some j → is_Some (semaphores l !! job_provider j);
}.
(** Configurations, semaphores by provider and the jobs stay, and so do the
    capacities. *)
Definition same_shape l l' : Prop :=
  configs l' = configs l ∧ semaphores l' = semaphores l ∧ jobs l' = jobs l ∧ cap <$> objects l' = cap <$> objects l.

Lemma wake_up_next_cap m : cap (wake_up_next m) = cap m.
Proof. unfold wake_up_next. by destruct (let_through (queue m)). Qed.
Lemma sem_acquire_cap t m : cap (sem_acquire t m).1 = cap m.
Proof. unfold sem_acquire. by destruct (locked m). Qed.
Lemma sem_resume_cap t m : cap (sem_resume t m) = cap m.
Proof. unfold sem_resume. case_bool_decide; [by rewrite wake_up_next_cap|done]. Qed.
Lemma sem_cancel_cap t m : cap (sem_cancel t m) = cap m.
Proof. unfold sem_cancel. case_bool_decide; [by rewrite wake_up_next_cap|done]. Qed.
Lemma sem_release_cap t m : cap (sem_release t m) = cap m.
Proof. unfold sem_release. by rewrite wake_up_next_cap. Qed.
Lemma sem_acquire_holds t m m' : sem_acquire t m = (m', true) → t ∈ holders m'.
Proof. unfold sem_acquire. destruct (locked m); intros [= <-]. apply list_elem_of_here. Qed.
Lemma sem_resume_holds t m : t ∈ holders (sem_resume t m).
Proof.
  unfold sem_resume. case_bool_decide; [|apply list_elem_of_here].
  unfold wake_up_next. destruct (let_through _); apply list_elem_of_here.
Qed.

Lemma objects_on_sem i f l m : objects l !! i = Some m → objects (on_sem i f l) !! i = Some (f m).
Proof. intros E. cbn. by rewrite list_lookup_alter_eq, E. Qed.
Lemma on_sem_shape i f l : (∀ m, cap (f m) = cap m) → same_shape l (on_sem i f l).
Proof.
  intros Hf. split_and!; try done. cbn. apply list_eq. intros k. rewrite !list_lookup_fmap.
  destruct (decide (i = k)) as [<-|Hne]; [rewrite list_lookup_alter_eq; destruct (objects l !! i); cbn; by rewrite ?Hf|].
  by rewrite list_lookup_alter_ne.
Qed.
Lemma on_sem_const_shape i l m m' : objects l !! i = Some m → cap m' = cap m → same_shape l (on_sem i (λ _, m') l).
Proof.
  intros Hm Hc. split_and!; try done. cbn. apply list_eq. intros k. rewrite !list_lookup_fmap.
  destruct (decide (i = k)) as [<-|Hne]; [rewrite list_lookup_alter_eq, Hm; cbn; by rewrite Hc|].
  by rewrite list_lookup_alter_ne.
Qed.
Lemma same_shape_trans l1 l2 l3 : same_shape l1 l2 → same_shape l2 l3 → same_shape l1 l3.
Proof. unfold same_shape. intuition congruence. Qed.
(** Changing a semaphore well. *)
Lemma on_sem_ok i f l : limiter_ok l → (∀ m, objects l !! i = Some m → sem_ok m → sem_ok (f m)) → limiter_ok (on_sem i f l).
Proof.
  intros [Hs Ht Hj] Hf. split; [|apply Ht|apply Hj]. by apply Forall_alter.
Qed.
Lemma with_jobs_ok j a l : limiter_ok l → (∀ t x, j !! t = Some x → is_Some (semaphores l !! job_provider x)) →
  limiter_ok (with_jobs j a l).
Proof. intros [Hs Ht Hj] H. split; [apply Hs|apply Ht|apply H]. Qed.
Lemma delete_job_ok t a l : limiter_ok l → limiter_ok (with_jobs (base.delete t (jobs l)) a l).
Proof.
  intros Hl. apply with_jobs_ok; [done|]. intros t' x [_ Hx]%lookup_delete_Some. by apply (lo_jobs _ Hl t').
Qed.
Lemma check_rpm_ok now p l : limiter_ok l → limiter_ok (check_rpm_limit now p l).1.
Proof. intros Hl. unfold check_rpm_limit. case_bool_decide; [done|]. destruct Hl. by split. Qed.
Lemma check_rpm_same now p l : objects (check_rpm_limit now p l).1 = objects l ∧
  same_shape l (check_rpm_limit now p l).1 ∧ asleep (check_rpm_limit now p l).1 = asleep l ∧
  stats (check_rpm_limit now p l).1 = stats l ∧ admitted (check_rpm_limit now p l).1 = admitted l.
Proof. unfold check_rpm_limit. by case_bool_decide. Qed.
Lemma times_app p l q now :
  (filter (λ a, a.1 = p) (admitted l ++ [(q, now)])).*2 = times p l ++ (if decide (q = p) then [now] else []).
Proof.
  unfold times. rewrite filter_app, fmap_app, filter_cons. cbn. by destruct (decide (q = p)).
Qed.
Lemma permitted_ok now t j l m : limiter_ok l → jobs l !! t = Some j → objects l !! job_sem j = Some m → t ∈ holders m →
  limiter_ok (permitted now t j l) ∧ same_shape l (permitted now t j l).
Proof.
  intros Hl Hj Hm Ht. unfold permitted. pose proof (check_rpm_ok now (job_provider j) l Hl) as H1.
  pose proof (check_rpm_same now (job_provider j) l) as (H2 & H3 & H4 & H5 & H6).
  destruct (check_rpm_limit now (job_provider j) l) as [l1 []]; cbn [fst] in *.
  - split; [|done]. destruct H1 as [Hs Hst Hjs]. split; [apply Hs| |apply Hjs].
    intros p. cbn. unfold times. cbn. rewrite times_app. specialize (Hst p).
    destruct (decide (job_provider j = p)) as [<-|Hne].
    + rewrite lookup_alter_eq. destruct (stats l1 !! job_provider j) as [s|]; cbn.
      * destruct Hst as [Hsome Hst]. split; [done|]. rewrite length_app, Hst. cbn. lia.
      * destruct Hst as [Hnone _]. destruct (lo_jobs _ Hl t j Hj) as [i Hi].
        destruct H3 as (_ & E & _). congruence.
    + rewrite lookup_alter_ne by done. destruct (stats l1 !! p) as [s|]; [|by rewrite app_nil_r].
      by rewrite app_nil_r.
  - split.
    + apply with_jobs_ok; [|apply H1]. apply on_sem_ok; [done|]. intros m' E Hok. apply sem_release_ok; [done|]. congruence.
    + eapply same_shape_trans; [done|]. apply (on_sem_shape (job_sem j) (sem_release t)), sem_release_cap.
Qed.
Lemma await_semaphore_ok now t j l : limiter_ok l → jobs l !! t = Some j →
  limiter_ok (await_semaphore now t j l) ∧ same_shape l (await_semaphore now t j l).
Proof.
  intros Hl Hj. unfold await_semaphore. destruct (objects l !! job_sem j) as [m|] eqn:Hm; [|done].
  assert (sem_ok m) as Hok by (by eapply Forall_lookup_1; [apply Hl|]).
  pose proof (sem_acquire_ok t m Hok) as Ha. pose proof (sem_acquire_cap t m) as Hc.
  destruct (sem_acquire t m) as [m' ok] eqn:E. cbn [fst] in *.
  assert (limiter_ok (on_sem (job_sem j) (λ _, m') l)) as Hl' by (by apply on_sem_ok).
  pose proof (on_sem_const_shape _ _ _ m' Hm Hc) as Hsh. destruct ok; [|done].
  destruct (permitted_ok now t j (on_sem (job_sem j) (λ _, m') l) m') as [H1 H2]; try done.
  - by erewrite objects_on_sem.
  - by eapply sem_acquire_holds.
  - split; [done|]. by eapply same_shape_trans.
Qed.

Lemma get_semaphore_ok p l : limiter_ok l →
  limiter_ok (get_semaphore p l).1 ∧ semaphores (get_semaphore p l).1 !! p = Some (get_semaphore p l).2 ∧
  (∃ s, stats (get_semaphore p l).1 !! p = Some s) ∧ jobs (get_semaphore p l).1 = jobs l.
Proof.
  intros Hl. pose proof (lo_stats _ Hl p) as Hp. unfold get_semaphore. destruct (semaphores l !! p) as [i|] eqn:E; cbn.
  - destruct (stats l !! p); [eauto|]. destruct Hp. congruence.
  - rewrite !lookup_insert_eq. split; [|eauto]. destruct (stats l !! p) as [s|]; [by destruct Hp as [[? ?] _]|].
    destruct Hl as [Hs Hst Hj], Hp as [_ Ht]. split; cbn.
    + apply Forall_app. split; [done|]. constructor; [apply new_sem_ok|constructor].
    + intros q. specialize (Hst q). destruct (decide (p = q)) as [<-|Hne].
      * rewrite !lookup_insert_eq. split; [by eexists|]. unfold times in *. cbn. by rewrite Ht.
      * by rewrite !lookup_insert_ne.
    + intros t j Hjob. apply lookup_insert_is_Some'. right. by eapply Hj.
Qed.
Lemma on_stats_total_ok p l s : limiter_ok l → stats l !! p = Some s →
  limiter_ok (on_stats p (λ s, mkStats (total_requests s + 1) (waiting_requests s + 1) (rejected_requests s)
                                 (total_wait_time_ms s)) l).
Proof.
  intros [Hs Hst Hj] E. split; [done| |done]. intros q. specialize (Hst q). unfold times in *. cbn.
  destruct (decide (p = q)) as [<-|Hne].
  - rewrite lookup_alter_eq, E. cbn. rewrite E in Hst. destruct Hst. split; [done|lia].
  - by rewrite lookup_alter_ne.
Qed.
Lemma start_ok now t p l : limiter_ok l → limiter_ok (start now t p l).
Proof.
  intros Hl. unfold start. destruct (get_semaphore_ok p l Hl) as (H1 & H2 & (s & H3) & H4).
  destruct (get_semaphore p l) as [l1 i]. cbn [fst snd] in *.
  apply await_semaphore_ok; [|cbn; by rewrite lookup_insert_eq]. apply with_jobs_ok; [by eapply on_stats_total_ok|].
  intros t' x. cbn. intros [[-> <-]|[_ Hx]]%lookup_insert_Some; [by eexists|]. by eapply lo_jobs.
Qed.
Lemma update_config_ok p c l : limiter_ok l → limiter_ok (update_config p c l).
Proof.
  intros [Hs Hst Hj]. unfold update_config. cbn [semaphores objects].
  assert (limiter_ok (mkLimiter (<[p:=c]> (configs l)) (semaphores l) (objects l) (stats l) (request_times l) (jobs l)
    (asleep l) (admitted l))) as H1 by (by split).
  destruct (configs l !! p) as [o|], (semaphores l !! p) as [i|] eqn:E; try done. case_bool_decide; [|done].
  split; cbn.
  - apply Forall_app. split; [done|]. constructor; [apply new_sem_ok|constructor].
  - intros q. specialize (Hst q). unfold times in *. cbn. destruct (decide (p = q)) as [<-|Hne].
    + rewrite lookup_insert_eq. destruct (stats l !! p); [by destruct Hst|]. destruct Hst. congruence.
    + by rewrite lookup_insert_ne.
  - intros t j Hjob. apply lookup_insert_is_Some'. right. by eapply Hj.
Qed.
Lemma limiter_step_ok l no : limiter_ok l → limiter_ok (step l no).
Proof.
  intros Hl. destruct no as [now [t p|t|t|t|t|p c]]; cbn [step fst snd].
  - case_bool_decide; [by apply start_ok|done].
  - destruct (jobs l !! t) as [j|] eqn:Hj; [|done]. destruct (objects l !! job_sem j) as [m|] eqn:Hm; [|done].
    case_bool_decide as Hq; [|done]. eapply (permitted_ok now t j _ (sem_resume t m)).
    + apply on_sem_ok; [done|]. intros m' E Hok. assert (m' = m) as -> by congruence. by apply sem_resume_ok.
    + done.
    + by erewrite objects_on_sem.
    + apply sem_resume_holds.
  - destruct (jobs l !! t) as [j|] eqn:Hj; [|done]. case_bool_decide; [|done].
    apply await_semaphore_ok; [|done]. apply with_jobs_ok; [done|apply Hl].
  - destruct (jobs l !! t) as [j|] eqn:Hj; [|done]. destruct (objects l !! job_sem j) as [m|] eqn:Hm; [|done].
    case_bool_decide; [|done]. apply (delete_job_ok t _ (on_sem _ _ l)), on_sem_ok; [done|].
    intros m' E Hok. assert (m' = m) as -> by congruence. by apply sem_release_ok.
  - destruct (jobs l !! t) as [j|] eqn:Hj; [|done]. case_bool_decide; [by apply delete_job_ok|].
    destruct (objects l !! job_sem j) as [m|] eqn:Hm; [|done]. case_bool_decide; [|done].
    apply (delete_job_ok t _ (on_sem _ _ l)), on_sem_ok; [done|].
    intros m' E Hok. assert (m' = m) as -> by congruence. by apply sem_cancel_ok.
  - by apply update_config_ok.
Qed.
Lemma new_limiter_ok c : limiter_ok (new_limiter c).
Proof. split; [constructor|done|done]. Qed.
Lemma limiter_run_ok ops l : limiter_ok l → limiter_ok (run l ops).
Proof. revert l. induction ops as [|no ops IH]; intros l Hl; [done|]. by apply IH, limiter_step_ok. Qed.

(** * Without reconfiguration *)

Definition configures (o : op) : bool := match o with Configure _ _ => true | _ => false end.
(** Every task uses its provider's semaphore, which has the configured capacity. *)
Record steady (cfg : gmap provider RateLimitConfig) l : Prop := {
  sy_configs : configs l = cfg;
  sy_jobs : ∀ t j, jobs l !! t = Some j → semaphores l !! job_provider j = Some (job_sem j);
  sy_caps : ∀ p i, semaphores l !! p = Some i → (cap <$> objects l) !! i = Some (max_concurrent (get_config p l));
}.
Lemma steady_shape cfg l l' : same_shape l l' → steady cfg l → steady cfg l'.
Proof.
  intros (E1 & E2 & E3 & E4) [H1 H2 H3]. split; [congruence|rewrite E2, E3; apply H2|].
  unfold get_config in *. rewrite E1, E2, E4. apply H3.
Qed.
Lemma steady_delete cfg t a l : steady cfg l → steady cfg (with_jobs (base.delete t (jobs l)) a l).
Proof. intros [H1 H2 H3]. split; [done| |done]. cbn. intros t' j [_ Hj]%lookup_delete_Some. by eapply H2. Qed.
Lemma get_semaphore_steady cfg p l : steady cfg l → limiter_ok l → steady cfg (get_semaphore p l).1.
Proof.
  intros [H1 H2 H3] Hl. unfold get_semaphore. destruct (semaphores l !! p) as [i|] eqn:E; [by split|]. split; cbn; [done| |].
  - intros t j Hj. rewrite lookup_insert_ne by (intros ->; rewrite (H2 t j Hj) in E; done). by eapply H2.
  - intros q i. unfold get_config. cbn. rewrite fmap_app. intros [[<- <-]|[Hne Hi]]%lookup_insert_Some.
    + rewrite lookup_app_r by (by rewrite length_fmap). rewrite length_fmap, Nat.sub_diag. done.
    + apply lookup_app_l_Some. by apply H3.
Qed.
Lemma step_steady cfg l no : configures no.2 = false → limiter_ok l → steady cfg l → steady cfg (step l no).
Proof.
  intros Hc Hl Hs. destruct no as [now [t p|t|t|t|t|p c]]; cbn [step fst snd] in *; [..|done].
  - case_bool_decide; [|done]. unfold start. destruct (get_semaphore_ok p l Hl) as (H1 & H2 & (s & H3) & H4).
    pose proof (get_semaphore_steady cfg p l Hs Hl) as Hs1. destruct (get_semaphore p l) as [l1 i]. cbn [fst snd] in *.
    set (l2 := with_jobs _ _ _).
    assert (limiter_ok l2) as Hl2.
    { apply with_jobs_ok; [by eapply on_stats_total_ok|]. intros t' x. cbn.
      intros [[-> <-]|[_ Hx]]%lookup_insert_Some; [by eexists|]. by eapply lo_jobs. }
    eapply steady_shape; [apply (await_semaphore_ok now t _ l2 Hl2); cbn; by rewrite lookup_insert_eq|].
    destruct Hs1 as [E1 E2 E3]. split; [done| |done]. cbn.
    intros t' j [[-> <-]|[_ Hx]]%lookup_insert_Some; [done|]. by eapply E2.
  - destruct (jobs l !! t) as [j|] eqn:Hj; [|done]. destruct (objects l !! job_sem j) as [m|] eqn:Hm; [|done].
    case_bool_decide as Hq; [|done]. eapply steady_shape; [|done].
    eapply same_shape_trans; [apply (on_sem_shape (job_sem j) (sem_resume t)), sem_resume_cap|].
    eapply (permitted_ok now t j _ (sem_resume t m)); [|done|by erewrite objects_on_sem|apply sem_resume_holds].
    apply on_sem_ok; [done|]. intros m' E Hok. assert (m' = m) as -> by congruence. by apply sem_resume_ok.
  - destruct (jobs l !! t) as [j|] eqn:Hj; [|done]. case_bool_decide; [|done].
    eapply steady_shape; [apply await_semaphore_ok; [|done]; apply with_jobs_ok; [done|apply Hl]|]. by destruct Hs.
  - destruct (jobs l !! t) as [j|] eqn:Hj; [|done]. destruct (objects l !! job_sem j) as [m|] eqn:Hm; [|done].
    case_bool_decide; [|done]. apply (steady_delete cfg t _ (on_sem _ _ l)).
    eapply steady_shape; [|done]. apply (on_sem_shape (job_sem j) (sem_release t)), sem_release_cap.
  - destruct (jobs l !! t) as [j|] eqn:Hj; [|done]. case_bool_decide; [by apply steady_delete|].
    destruct (objects l !! job_sem j) as [m|] eqn:Hm; [|done]. case_bool_decide; [|done].
    apply (steady_delete cfg t _ (on_sem _ _ l)).
    eapply steady_shape; [|done]. apply (on_sem_shape (job_sem j) (sem_cancel t)), sem_cancel_cap.
Qed.
Lemma run_steady cfg ops l : forallb (λ no, negb (configures no.2)) ops = true →
  limiter_ok l → steady cfg l → steady cfg (run l ops).
Proof.
  revert l. induction ops as [|no ops IH]; intros l; [done|]. cbn [forallb]. intros [Hc Hops]%andb_true_iff Hl Hs.
  apply negb_true_iff in Hc. apply IH; [done|by apply limiter_step_ok|by apply step_steady].
Qed.
(** The tasks that hold a context for a provider. *)
Definition is_holding l (t : nat) (j : job) : bool :=
  match objects l !! job_sem j with Some m => bool_decide (t ∈ holders m) | None => false end.
Definition in_flight p l : gset nat := dom (filter (λ tj, job_provider tj.2 = p ∧ is_holding l tj.1 tj.2 = true) (jobs l)).
Lemma elem_of_in_flight t p l : t ∈ in_flight p l ↔ ∃ j, jobs l !! t = Some j ∧ job_provider j = p ∧ is_holding l t j = true.
Proof.
  unfold in_flight. rewrite elem_of_dom. unfold is_Some. setoid_rewrite map_lookup_filter_Some. naive_solver.
Qed.
Lemma size_list_to_set_le (ts : list nat) : size (list_to_set ts : gset nat) ≤ length ts.
Proof.
  induction ts as [|t ts IH]; [done|]. rewrite list_to_set_cons. cbn [length].
  destruct (decide (t ∈ (list_to_set ts : gset nat))) as [H|H].
  - assert ({[t]} ∪ list_to_set ts = (list_to_set ts : gset nat)) as -> by set_solver. lia.
  - rewrite size_union by set_solver. rewrite size_singleton. lia.
Qed.
Lemma in_flight_bound cfg p l : limiter_ok l → steady cfg l → size (in_flight p l) ≤ max_concurrent (get_config p l).
Proof.
  intros Hl Hs. destruct (semaphores l !! p) as [i|] eqn:E.
  - pose proof (sy_caps _ _ Hs p i E) as Hi. rewrite list_lookup_fmap in Hi.
    destruct (objects l !! i) as [m|] eqn:Hm; [|done]. injection Hi as Hi.
    assert (in_flight p l ⊆ list_to_set (holders m)) as Hsub.
    { intros t (j & Hj & Hp & Hh)%elem_of_in_flight. apply elem_of_list_to_set.
      pose proof (sy_jobs _ _ Hs t j Hj) as Hsj. rewrite Hp, E in Hsj. injection Hsj as ->.
      unfold is_holding in Hh. rewrite Hm in Hh. by apply bool_decide_eq_true in Hh. }
    apply subseteq_size in Hsub. pose proof (size_list_to_set_le (holders m)) as Hle.
    assert (sem_ok m) as [Hp _] by (by eapply Forall_lookup_1; [apply Hl|]). lia.
  - assert (in_flight p l = ∅) as ->; [|by rewrite size_empty; lia].
    apply elem_of_equiv_empty_L. intros t (j & Hj & Hp & _)%elem_of_in_flight.
    pose proof (sy_jobs _ _ Hs t j Hj). congruence.
Qed.

(** C35. However tasks start, wait, sleep, are cancelled, finish and however the limiter is
    reconfigured: no permit of a semaphore is lost or made up, and none stays
    free while a task waits that nobody is on the way to let in; without
    reconfiguration, no provider has more requests in flight than configured;
    and the statistics count as waiting every request never admitted, a
    cancelled one for ever. *)
Theorem permits_kept c ops :
  let l := run (new_limiter c) ops in
  Forall sem_ok (objects l) ∧
  (forallb (λ no, negb (configures no.2)) ops = true → ∀ p, size (in_flight p l) ≤ max_concurrent (get_config p l)) ∧
  (∀ p s, stats l !! p = Some s → waiting_requests s = (total_requests s - Z.of_nat (length (times p l)))%Z).
Proof.
  intros l. assert (limiter_ok l) as Hl by apply limiter_run_ok, new_limiter_ok. split; [apply Hl|]. split.
  - intros Hops p. apply (in_flight_bound (configs (new_limiter c))); [done|].
    apply run_steady; [done|apply new_limiter_ok|]. by split.
  - intros p s E. pose proof (lo_stats _ Hl p) as H. rewrite E in H. apply H.
Qed.

(** * The sliding window *)

(** No window of [w] milliseconds has more than [k] of the times. *)
Definition window_ok (w : Z) (k : nat) (ts : list Z) : Prop :=
  ∀ t, length (filter (λ x, t - w < x ∧ x <= t)%Z ts) ≤ k.
Lemma length_filter_imp {A} (P Q : A → Prop) `{DP : !∀ x, Decision (P x), DQ : !∀ x, Decision (Q x)} (ts : list A) :
  (∀ x, x ∈ ts → P x → Q x) → length (filter P ts) ≤ length (filter Q ts).
Proof.
  induction ts as [|t ts IH]; intros H; [done|]. rewrite !filter_cons.
  specialize (IH (λ x Hx, H x (list_elem_of_further _ _ _ Hx))). pose proof (H t (list_elem_of_here _ _)).
  destruct (decide (P t)), (decide (Q t)); cbn; try lia. tauto.
Qed.
Lemma window_snoc w k ts now : window_ok w k ts → length (filter (λ x, now - w < x)%Z ts) < k →
  window_ok w k (ts ++ [now]).
Proof.
  intros Hw Hlt t. rewrite filter_app, length_app. destruct (decide (t < now)%Z) as [Ht|Ht].
  - rewrite filter_cons, decide_False by lia. cbn. rewrite Nat.add_0_r. apply Hw.
  - assert (length (filter (λ x, t - w < x ∧ x <= t)%Z ts) ≤ length (filter (λ x, now - w < x)%Z ts)).
    { apply length_filter_imp. intros x _ [? _]. lia. }
    assert (length (filter (λ x, t - w < x ∧ x <= t)%Z [now]) ≤ 1) by (rewrite filter_cons; case_decide; cbn; lia). lia.
Qed.
Lemma filter_later (c c' : Z) (ts : list Z) : (c <= c')%Z → filter (λ t, c' < t)%Z (filter (λ t, c < t)%Z ts) = filter (λ t, c' < t)%Z ts.
Proof.
  intros Hc. rewrite list_filter_filter. apply list_filter_iff. intros x. lia.
Qed.

(** At an instant, the times that are kept are the latest ones, and the
    windows are as they should be. *)
Record windows_ok (cfg : RateLimitConfig) p (clock : Z) l : Prop := {
  wo_config : get_config p l = cfg;
  wo_none : semaphores l !! p = None → times p l = [];
  wo_jobs : ∀ t j, jobs l !! t = Some j → is_Some (semaphores l !! job_provider j);
  wo_kept : ∃ c, (c <= clock - window_ms cfg)%Z ∧ default [] (request_times l !! p) = filter (λ t, c < t)%Z (times p l);
  wo_windows : window_ok (window_ms cfg) (Z.to_nat (max_requests cfg)) (times p l);
}.
Lemma windows_later cfg p c c' l : (c <= c')%Z → windows_ok cfg p c l → windows_ok cfg p c' l.
Proof.
  intros Hc [H1 H2 H3 (x & Hx & H4) H5]. split; [done..| |done]. exists x. split; [lia|done].
Qed.
(** What the windows are about. *)
Definition same_windows l l' : Prop :=
  configs l' = configs l ∧ semaphores l' = semaphores l ∧ jobs l' = jobs l ∧ request_times l' = request_times l ∧
  admitted l' = admitted l.
Lemma windows_same cfg p c l l' : same_windows l l' → windows_ok cfg p c l → windows_ok cfg p c l'.
Proof.
  intros (E1 & E2 & E3 & E4 & E5) [H1 H2 H3 H4 H5]. unfold times, get_config in *.
  split; unfold times, get_config in *; rewrite ?E1, ?E2, ?E3, ?E4, ?E5; done.
Qed.
Lemma windows_delete cfg p c t a l : windows_ok cfg p c l → windows_ok cfg p c (with_jobs (base.delete t (jobs l)) a l).
Proof.
  intros [H1 H2 H3 H4 H5]. split; try done. cbn. intros t' j [_ Hj]%lookup_delete_Some. by eapply H3.
Qed.
Lemma check_windows cfg p clock now q l : (0 < rpm cfg)%Z → (clock <= now)%Z → windows_ok cfg p clock l →
  windows_ok cfg p now (check_rpm_limit now q l).1 ∧
  (q = p →
    default [] (request_times (check_rpm_limit now q l).1 !! p) = filter (λ t, now - window_ms cfg < t)%Z (times p l) ∧
    ((check_rpm_limit now q l).2 = true →
     length (filter (λ t, now - window_ms cfg < t)%Z (times p l)) < Z.to_nat (max_requests cfg))).
Proof.
  intros Hrpm Hnow Hw. pose proof (windows_later _ _ _ now _ Hnow Hw) as [H1 H2 H3 (c & Hc & H4) H5]. unfold check_rpm_limit.
  destruct (decide (q = p)) as [->|Hne].
  - rewrite H1, bool_decide_eq_false_2 by lia. rewrite H4, filter_later by lia. cbn [fst snd request_times].
    rewrite lookup_insert_eq. cbn [default]. split.
    + split; cbn; try done. exists (now - window_ms cfg)%Z. split; [lia|]. by rewrite lookup_insert_eq.
    + intros _. split; [done|]. intros Hlt%bool_decide_eq_true. lia.
  - split; [|done]. case_bool_decide; [split; eauto|]. split; cbn; try done. exists c. split; [done|].
    by rewrite lookup_insert_ne.
Qed.
Lemma record_windows cfg p now q l : (0 < window_ms cfg)%Z → is_Some (semaphores l !! q) → windows_ok cfg p now l →
  (q = p → default [] (request_times l !! p) = filter (λ t, now - window_ms cfg < t)%Z (times p l) ∧
           length (filter (λ t, now - window_ms cfg < t)%Z (times p l)) < Z.to_nat (max_requests cfg)) →
  windows_ok cfg p now (record_request now q l).
Proof.
  intros Hwin [i Hi] [H1 H2 H3 (c & Hc & H4) H5] Hq. unfold record_request.
  destruct (decide (q = p)) as [->|Hne].
  - destruct (Hq eq_refl) as [Hk Hlt]. split; cbn; [done|congruence|done|..]; unfold times; cbn;
      rewrite times_app, decide_True by done.
    + exists (now - window_ms cfg)%Z. split; [lia|]. rewrite lookup_insert_eq. cbn [default]. rewrite filter_app, Hk.
      rewrite filter_cons, decide_True by lia. done.
    + by apply window_snoc.
  - split; cbn; [done| |done|..]; unfold times; cbn; rewrite times_app, decide_False by done; rewrite app_nil_r.
    + done.
    + exists c. rewrite lookup_insert_ne by done. done.
    + done.
Qed.
Lemma permitted_windows cfg p clock now t j l :
  (0 < rpm cfg)%Z → (0 < window_ms cfg)%Z → (clock <= now)%Z → is_Some (semaphores l !! job_provider j) →
  windows_ok cfg p clock l → windows_ok cfg p now (permitted now t j l).
Proof.
  intros Hrpm Hwin Hnow Hj Hw. destruct (check_windows cfg p clock now (job_provider j) l Hrpm Hnow Hw) as [H1 H2].
  pose proof (check_rpm_same now (job_provider j) l) as (_ & (_ & Es & _) & _ & _ & Ea). unfold permitted.
  destruct (check_rpm_limit now (job_provider j) l) as [l1 []]; cbn [fst snd] in *.
  - apply record_windows; [done|cbn; by rewrite Es|by apply (windows_same _ _ _ l1)|]. intros Hq. destruct (H2 Hq) as [H3 H4].
    unfold times in *. cbn. rewrite Ea. split; [done|]. by apply H4.
  - by apply (windows_same _ _ _ l1).
Qed.
Lemma await_windows cfg p clock now t j l :
  (0 < rpm cfg)%Z → (0 < window_ms cfg)%Z → (clock <= now)%Z → is_Some (semaphores l !! job_provider j) →
  windows_ok cfg p clock l → windows_ok cfg p now (await_semaphore now t j l).
Proof.
  intros Hrpm Hwin Hnow Hj Hw. unfold await_semaphore. pose proof (windows_later _ _ _ now _ Hnow Hw) as Hw'.
  destruct (objects l !! job_sem j) as [m|]; [|done]. destruct (sem_acquire t m) as [m' []]; [|by apply (windows_same _ _ _ l)].
  eapply (permitted_windows cfg p now); [done..|]. by apply (windows_same _ _ _ l).
Qed.
Lemma step_windows cfg p clock l no :
  (0 < rpm cfg)%Z → (0 < window_ms cfg)%Z → (clock <= no.1)%Z → configures no.2 = false →
  windows_ok cfg p clock l → windows_ok cfg p no.1 (step l no).
Proof.
  intros Hrpm Hwin Hnow Hc Hw. pose proof (windows_later _ _ _ no.1 _ Hnow Hw) as Hw'.
  destruct no as [now [t q|t|t|t|t|q c]]; cbn [step fst snd] in *; [..|done].
  - case_bool_decide; [|done]. unfold start.
    assert (windows_ok cfg p now (get_semaphore q l).1 ∧ is_Some (semaphores (get_semaphore q l).1 !! q)) as [H1 H2].
    { unfold get_semaphore. destruct (semaphores l !! q) as [i|] eqn:E; cbn; [by eauto|]. split; [|rewrite lookup_insert_eq; eauto].
      destruct Hw' as [H1 H2 H3 (c & Hc' & H4) H5]. split; cbn; [done| | |..].
      - intros [? _]%lookup_insert_None. by apply H2.
      - intros t' j Hj. apply lookup_insert_is_Some'. right. by eapply H3.
      - exists c. split; [done|]. destruct (decide (q = p)) as [->|Hne]; [|by rewrite lookup_insert_ne].
        rewrite lookup_insert_eq. unfold times in *. cbn. by rewrite (H2 E).
      - done. }
    destruct (get_semaphore q l) as [l1 i]. cbn [fst] in *. eapply (await_windows cfg p now); [done..|].
    destruct H1 as [E1 E2 E3 E4 E5]. split; try done. cbn.
    intros t' x [[-> <-]|[_ Hx]]%lookup_insert_Some; [done|by eapply E3].
  - destruct (jobs l !! t) as [j|] eqn:Hj; [|done]. destruct (objects l !! job_sem j) as [m|]; [|done].
    case_bool_decide; [|done]. eapply (permitted_windows cfg p now); [done..|by eapply (wo_jobs _ _ _ _ Hw')|by apply (windows_same _ _ _ l)].
  - destruct (jobs l !! t) as [j|] eqn:Hj; [|done]. case_bool_decide; [|done].
    eapply (await_windows cfg p now); [done..|by eapply (wo_jobs _ _ _ _ Hw')|by apply (windows_same _ _ _ l)].
  - destruct (jobs l !! t) as [j|]; [|done]. destruct (objects l !! job_sem j) as [m|]; [|done].
    case_bool_decide; [|done]. apply (windows_delete cfg p now t _ (on_sem _ _ l)). by apply (windows_same _ _ _ l).
  - destruct (jobs l !! t) as [j|]; [|done]. case_bool_decide; [by apply windows_delete|].
    destruct (objects l !! job_sem j) as [m|]; [|done]. case_bool_decide; [|done].
    apply (windows_delete cfg p now t _ (on_sem _ _ l)). by apply (windows_same _ _ _ l).
Qed.
(** The clock does not go back. *)
Fixpoint clocked {O} (clock : Z) (ops : list (Z * O)) : Prop :=
  match ops with [] => True | no :: ops' => (clock <= no.1)%Z ∧ clocked no.1 ops' end.
Lemma run_windows cfg p ops clock l : (0 < rpm cfg)%Z → (0 < window_ms cfg)%Z → clocked clock ops →
  forallb (λ no, negb (configures no.2)) ops = true → windows_ok cfg p clock l → ∃ clock', windows_ok cfg p clock' (run l ops).
Proof.
  intros Hrpm Hwin. revert clock l. induction ops as [|no ops IH]; intros clock l; [by eauto|].
  cbn [clocked forallb]. intros [Hc Hcs] [Ho Hos]%andb_true_iff Hw. apply negb_true_iff in Ho.
  apply (IH no.1); [done..|]. by eapply step_windows.
Qed.
(** C40. While the clock does not go back and nothing is reconfigured, no window of a
    limited provider, whenever it ends, has more than its requests per minute
    and its burst allowance. *)
Theorem window_bound c p ops clock :
  let cfg := get_config p (new_limiter c) in
  (0 < rpm cfg)%Z → (0 < window_seconds cfg)%Z → clocked clock ops →
  forallb (λ no, negb (configures no.2)) ops = true →
  ∀ t, (Z.of_nat (length (filter (λ x, t - window_ms cfg < x ∧ x <= t)%Z (times p (run (new_limiter c) ops))))
        <= Z.max 0 (rpm cfg + burst_allowance cfg))%Z.
Proof.
  intros cfg Hrpm Hwin Hclock Hops t.
  assert (windows_ok cfg p clock (new_limiter c)) as H0.
  { split; [done|done|done| |].
    - exists (clock - window_ms cfg)%Z. split; [lia|done].
    - intros t'. cbn. lia. }
  destruct (run_windows cfg p ops clock _ Hrpm ltac:(unfold window_ms; lia) Hclock Hops H0) as [clock' [_ _ _ _ H]].
  specialize (H t). unfold max_requests in H. lia.
Qed.

(** * Counters in Redis *)

(** The keys that the texts of [_rpm_key] and [_concurrent_key] tell apart. *)
Inductive redis_key : Type := RpmKey (p : provider) (minute : Z) | ConcurrentKey (p : provider).
#[export] Instance redis_key_eq_dec : EqDecision redis_key.
Proof. solve_decision. Defined.
#[export] Instance redis_key_countable : Countable redis_key.
Proof.
  refine (inj_countable' (λ k, match k with RpmKey p m => inl (p, m) | ConcurrentKey p => inr p end)
    (λ x, match x with inl (p, m) => RpmKey p m | inr p => ConcurrentKey p end) _). by intros [].
Defined.
(** A counter, and when it expires. *)
Notation redis := (gmap redis_key (Z * option Z)).
Implicit Types (r : redis) (k : redis_key).
Definition live (now : Z) k r : option (Z * option Z) :=
  c ← r !! k; match c.2 with Some e => if bool_decide (now < e)%Z then Some c else None | None => Some c end.
(** INCR (by 1) and DECR (by -1): a missing counter is 0 and does not expire. *)
Definition redis_incr (now by_ : Z) k r : redis * Z :=
  let '(n, e) := default (0%Z, None) (live now k r) in (<[k := ((n + by_)%Z, e)]> r, (n + by_)%Z).
Definition redis_expire (now seconds : Z) k r : redis :=
  match live now k r with Some (n, _) => <[k := (n, Some (now + seconds * 1000)%Z)]> r | None => r end.
Definition rpm_key (now : Z) p : redis_key := RpmKey p (now / 60000).

(** [_check_rpm_redis], INCR and the EXPIRE after it in one step; the flags
    say which call of Redis succeeds. *)
Definition check_rpm_redis (now : Z) (cfg : RateLimitConfig) p (incr_ok expire_ok : bool) r : redis * bool :=
  if bool_decide (rpm cfg <= 0)%Z then (r, true)
  else if incr_ok then
    let '(r1, current) := redis_incr now 1 (rpm_key now p) r in
    if bool_decide (current = 1)%Z then
      if expire_ok then (redis_expire now 70 (rpm_key now p) r1, bool_decide (current <= max_requests cfg)%Z) else (r1, true)
    else (r1, bool_decide (current <= max_requests cfg)%Z)
  else (r, true).
(** [_incr_concurrent] and [decr_concurrent]: nothing reads the counter. *)
Definition incr_concurrent (now : Z) p (ok : bool) r : redis * Z :=
  if ok then let '(r1, v) := redis_incr now 1 (ConcurrentKey p) r in (redis_expire now 120 (ConcurrentKey p) r1, v)
  else (r, 0%Z).
Definition decr_concurrent (now : Z) p (ok : bool) r : redis :=
  if ok then (redis_incr now (-1) (ConcurrentKey p) r).1 else r.
(** [RedisRateLimiter.acquire] from where the local limiter has let the task
    in, for a limiter with a Redis client; [None] when it raises. *)
Definition redis_acquire (now : Z) (t : nat) p (incr_ok expire_ok conc_ok : bool) (s : limiter * redis)
    : (limiter * redis) * option unit :=
  let '(r1, ok) := check_rpm_redis now (get_config p s.1) p incr_ok expire_ok s.2 in
  if ok then ((s.1, (incr_concurrent now p conc_ok r1).1), Some tt)
  else
    let l := step s.1 (now, Finish t) in
    ((on_stats p (λ s, mkStats (total_requests s) (waiting_requests s) (rejected_requests s + 1) (total_wait_time_ms s)) l,
      r1), None).
(** [release_async]; [release] forgets the counter. *)
Definition release_async (now : Z) (t : nat) p (ok : bool) (s : limiter * redis) : limiter * redis :=
  (step s.1 (now, Finish t), decr_concurrent now p ok s.2).
Definition release_sync (now : Z) (t : nat) (s : limiter * redis) : limiter * redis := (step s.1 (now, Finish t), s.2).

(** What the workers together do to Redis. *)
Inductive redis_op : Type :=
  | RCheck (p : provider) (incr_ok expire_ok : bool)
  | RIncr (p : provider) (ok : bool)
  | RDecr (p : provider) (ok : bool).
Definition redis_step (cfg : provider → RateLimitConfig) r (no : Z * redis_op) : redis * bool :=
  match no.2 with
  | RCheck p incr_ok expire_ok => check_rpm_redis no.1 (cfg p) p incr_ok expire_ok r
  | RIncr p ok => ((incr_concurrent no.1 p ok r).1, true)
  | RDecr p ok => (decr_concurrent no.1 p ok r, true)
  end.
Fixpoint redis_run (cfg : provider → RateLimitConfig) r (ops : list (Z * redis_op)) : redis * list bool :=
  match ops with
  | [] => (r, [])
  | no :: ops' => let '(r1, b) := redis_step cfg r no in let '(r2, bs) := redis_run cfg r1 ops' in (r2, b :: bs)
  end.
(** A check for a provider in a minute that Redis answers. *)
Definition counts (p : provider) (minute : Z) (no : Z * redis_op) : bool :=
  match no.2 with RCheck q true true => bool_decide (q = p) && bool_decide (no.1 / 60000 = minute)%Z | _ => false end.
Fixpoint passed (p : provider) (minute : Z) (ops : list (Z * redis_op)) (bs : list bool) : nat :=
  match ops, bs with
  | no :: ops', b :: bs' => (if counts p minute no && b then 1 else 0) + passed p minute ops' bs'
  | _, _ => 0
  end.
Definition asked (p : provider) (minute : Z) (ops : list (Z * redis_op)) : nat := length (filter (λ no, counts p minute no = true) ops).
Definition answered (no : Z * redis_op) : bool := match no.2 with RCheck _ a b => a && b | _ => true end.

(** The counter of a minute, and that it lasts as long. *)
Definition count_ok (p : provider) (minute n : Z) r : Prop :=
  match r !! RpmKey p minute with
  | Some (c, Some e) => c = n ∧ (0 < n)%Z ∧ ((minute + 1) * 60000 < e)%Z
  | Some (_, None) => False
  | None => n = 0%Z
  end.
Lemma minute_end now : (60000 * (now / 60000) <= now < (now / 60000 + 1) * 60000)%Z.
Proof. pose proof (Z.div_mod now 60000 ltac:(lia)). pose proof (Z.mod_pos_bound now 60000 ltac:(lia)). lia. Qed.
Lemma redis_incr_other now b k k' r : k' ≠ k → (redis_incr now b k r).1 !! k' = r !! k'.
Proof. intros Hk. unfold redis_incr. destruct (default _ _) as [n e]. by apply lookup_insert_ne. Qed.
Lemma redis_expire_other now sec k k' r : k' ≠ k → redis_expire now sec k r !! k' = r !! k'.
Proof. intros Hk. unfold redis_expire. destruct (live now k r) as [[n e]|]; [by apply lookup_insert_ne|done]. Qed.
Lemma concurrent_step_other cfg r no p m : (∀ q a b, no.2 ≠ RCheck q a b) →
  (redis_step cfg r no).1 !! RpmKey p m = r !! RpmKey p m.
Proof.
  intros H. destruct no as [now [q a b|q []|q []]]; cbn in *; try done; [by destruct (H q a b)|..].
  - unfold incr_concurrent. pose proof (redis_incr_other now 1 (ConcurrentKey q) (RpmKey p m) r ltac:(done)) as E.
    destruct (redis_incr now 1 (ConcurrentKey q) r) as [r1 v]. cbn in *. by rewrite redis_expire_other.
  - by apply redis_incr_other.
Qed.
Lemma check_other now cfg q r p m : (q, (now / 60000)%Z) ≠ (p, m) →
  (check_rpm_redis now cfg q true true r).1 !! RpmKey p m = r !! RpmKey p m.
Proof.
  intros Hne. assert (RpmKey p m ≠ rpm_key now q) as Hk by (unfold rpm_key; congruence).
  unfold check_rpm_redis. case_bool_decide; [done|].
  pose proof (redis_incr_other now 1 (rpm_key now q) (RpmKey p m) r Hk) as E.
  destruct (redis_incr now 1 (rpm_key now q) r) as [r1 v]. cbn in E. case_bool_decide; cbn; [by rewrite redis_expire_other|done].
Qed.
Lemma check_counted now cfg p r n : (0 < rpm cfg)%Z → count_ok p (now / 60000) n r → (0 <= n)%Z →
  count_ok p (now / 60000) (n + 1) (check_rpm_redis now cfg p true true r).1 ∧
  (check_rpm_redis now cfg p true true r).2 = bool_decide (n + 1 <= max_requests cfg)%Z.
Proof.
  intros Hrpm Hn Hn0. pose proof (minute_end now) as Hend. unfold check_rpm_redis. rewrite bool_decide_eq_false_2 by lia.
  unfold count_ok, redis_incr, live, rpm_key in *. destruct (r !! RpmKey p (now / 60000)) as [[c [e|]]|] eqn:E; cbn in *; [|done|].
  - destruct Hn as (-> & Hpos & He). rewrite bool_decide_eq_true_2 by lia. cbn.
    rewrite bool_decide_eq_false_2 by lia. cbn. rewrite lookup_insert_eq. split; [split_and!; [done|lia|done]|done].
  - subst n. rewrite bool_decide_eq_true_2 by done. cbn. unfold redis_expire, live. rewrite lookup_insert_eq. cbn.
    rewrite lookup_insert_eq. split; [split_and!; [done|lia|lia]|done].
Qed.
Lemma passed_spec cfg p m ops clock n r : (0 < rpm (cfg p))%Z → (0 <= n)%Z → clocked clock ops →
  Forall (λ no, answered no = true) ops → ((clock < (m + 1) * 60000)%Z → count_ok p m n r) →
  passed p m ops (redis_run cfg r ops).2 = asked p m ops `min` Z.to_nat (max_requests (cfg p) - n).
Proof.
  intros Hrpm. revert clock n r. induction ops as [|no ops IH]; intros clock n r Hn; [done|].
  intros [Hc Hcs] Ha%Forall_cons Hok. destruct Ha as [Ha Has]. cbn [redis_run].
  destruct (redis_step cfg r no) as [r1 b] eqn:E. specialize (IH no.1).
  destruct (redis_run cfg r1 ops) as [r2 bs] eqn:E2. cbn [snd passed]. unfold asked in *. rewrite filter_cons.
  pose proof (minute_end no.1) as Hend. destruct (counts p m no) eqn:Hcount.
  - rewrite decide_True by done. destruct no as [now [q [] []|q a|q a]]; cbn in *; try done.
    apply andb_true_iff in Hcount as [->%bool_decide_eq_true Hm%bool_decide_eq_true]. rewrite Hm in Hend.
    destruct (check_counted now (cfg p) p r n Hrpm) as [H1 H2]; [rewrite Hm; apply Hok; lia|done|].
    rewrite E in H1, H2. cbn in *. rewrite Hm in H1. specialize (IH (n + 1)%Z r1 ltac:(lia) Hcs Has (λ _, H1)).
    rewrite E2 in IH. cbn in IH. rewrite IH, H2. destruct (Z.to_nat (max_requests (cfg p) - n)) eqn:Em; case_bool_decide; lia.
  - rewrite decide_False by congruence. cbn [andb]. specialize (IH n r1 Hn Hcs Has). rewrite E2 in IH. cbn in IH. apply IH.
    intros Hlt. unfold count_ok. assert (r1 !! RpmKey p m = r !! RpmKey p m) as ->; [|apply Hok; lia].
    replace r1 with (redis_step cfg r no).1 by (by rewrite E).
    destruct no as [now [q a1 a2|q a|q a]]; [|by apply concurrent_step_other..].
    cbn in Ha. apply andb_true_iff in Ha as [-> ->]. apply check_other. intros [= -> Hm]. cbn in Hcount.
    rewrite !bool_decide_eq_true_2 in Hcount; done.
Qed.
(** Whatever the workers do, when Redis answers and their clock does not go back, the
    checks of a provider that pass in one minute are the first ones asked, up
    to its requests per minute and burst allowance.  The counter of concurrent
    requests limits nothing, and is below zero once a request outlives it. *)
Theorem minute_bound cfg p m ops clock :
  (0 < rpm (cfg p))%Z → clocked clock ops → Forall (λ no, answered no = true) ops →
  passed p m ops (redis_run cfg ∅ ops).2 = asked p m ops `min` Z.to_nat (rpm (cfg p) + burst_allowance (cfg p)) ∧
  (∀ now later r, (now + 120000 <= later)%Z → r !! ConcurrentKey p = None →
    let r1 := decr_concurrent later p true (incr_concurrent now p true r).1 in
    r1 !! ConcurrentKey p = Some ((-1)%Z, None)).
Proof.
  intros Hrpm Hc Ha. split.
  - rewrite (passed_spec cfg p m ops clock 0); [|done|done|done|done|].
    + unfold max_requests. by rewrite Z.sub_0_r.
    + intros _. done.
  - intros now later r Hlater Hr. unfold decr_concurrent, incr_concurrent, redis_incr, redis_expire, live. rewrite Hr. cbn.
    rewrite lookup_insert_eq. cbn. rewrite lookup_insert_eq. cbn. rewrite bool_decide_eq_false_2 by lia. cbn.
    by rewrite lookup_insert_eq.
Qed.

(** * Witnesses *)

(** One request at a time, two in a second. *)
Definition tight : list (provider * RateLimitConfig) := [("openai", mkLimits 1 1 0 1 1)].
(** The second task waits for the first; the third, let in third in one
    second, sleeps; the fourth is cancelled. *)
Definition busy_second : list (Z * op) :=
  [(0, Start 1 "openai"); (100, Start 2 "openai"); (150, Start 4 "openai"); (200, Cancel 4); (250, Finish 1);
   (260, Resume 2); (300, Finish 2); (310, Start 3 "openai"); (1310, Awake 3)]%Z.
Lemma permits_kept_witness :
  in_flight "openai" (run (new_limiter (Some tight)) busy_second) = {[3]} ∧
  size (in_flight "openai" (run (new_limiter (Some tight)) busy_second)) ≤ 1 ∧
  (waiting_requests <$> stats (run (new_limiter (Some tight)) busy_second) !! "openai") = Some 1%Z.
Proof.
  split; [by vm_compute|]. split; [|by vm_compute].
  apply (permits_kept (Some tight) busy_second). reflexivity.
Defined.
Lemma window_bound_witness :
  times "openai" (run (new_limiter (Some tight)) busy_second) = [0; 260; 1310]%Z ∧
  (Z.of_nat (length (filter (λ x, 999 - 1000 < x ∧ x <= 999)%Z
     (times "openai" (run (new_limiter (Some tight)) busy_second)))) <= 2)%Z.
Proof.
  split; [by vm_compute|].
  apply (window_bound (Some tight) "openai" busy_second 0); [done|done| |reflexivity].
  unfold busy_second. cbn [clocked fst]. split_and!; done || lia.
Defined.
Definition worker_checks : list (Z * redis_op) :=
  [(59000, RCheck "groq" true true); (60000, RCheck "groq" true true); (60500, RIncr "groq" true);
   (61000, RCheck "groq" true true); (61001, RCheck "groq" true true); (119999, RCheck "groq" true true);
   (120000, RCheck "groq" true true)]%Z.
Lemma minute_bound_witness :
  passed "groq" 1 worker_checks (redis_run (λ _, mkLimits 1 1 0 1 60) ∅ worker_checks).2 = 2 ∧
  asked "groq" 1 worker_checks = 4.
Proof.
  split; [|by vm_compute].
  destruct (minute_bound (λ _, mkLimits 1 1 0 1 60) "groq" 1 worker_checks 0) as [H _].
  - done.
  - unfold worker_checks. cbn [clocked fst]. split_and!; done || lia.
  - by repeat constructor.
  - exact H.
Defined.
