(* ===== verification/LlmErrors.v ===== *)
(** Which errors of an LLM provider are worth another try, and when.

    Sources: src/src/infrastructure/agent/retry/policy.py and the classifier of
    src/src/infrastructure/llm/failover_chain.py.  An exception is what the code
    asks of it.  The patterns are regular expressions over a small grammar
    with [re.search]; a text's characters are code points below 256, and
    matching a lower-case text ignores case.  [float] of a header and an HTTP
    date are parameters. *)

From stdpp Require Import pretty.
From Stdlib Require Import QArith Qround Qpower Lqa.
From S2P Require Import Prelude PyText.
From Stdlib Require Import Ascii.

Open Scope string_scope.
Open Scope list_scope.
Open Scope nat_scope.

(** * Patterns *)

Inductive regex : Type :=
  | Lit (s : list ascii)
  | Opt (f : ascii → bool)
  | Many (f : ascii → bool)
  | Seq (r1 r2 : regex)
  | Alt (r1 r2 : regex).
(** What is left of a text after a prefix that matches. *)
Fixpoint strip_lit (l s : list ascii) : option (list ascii) :=
  match l, s with
  | [], _ => Some s
  | a :: l', b :: s' => if bool_decide (a = b) then strip_lit l' s' else None
  | _ :: _, [] => None
  end.
Fixpoint ends_many (f : ascii → bool) (s : list ascii) : list (list ascii) :=
  s :: match s with c :: s' => if f c then ends_many f s' else [] | [] => [] end.
Fixpoint ends (r : regex) (s : list ascii) : list (list ascii) :=
  match r with
  | Lit l => match strip_lit l s with Some s' => [s'] | None => [] end
  | Opt f => s :: match s with c :: s' => if f c then [s'] else [] | [] => [] end
  | Many f => ends_many f s
  | Seq r1 r2 => s' ← ends r1 s; ends r2 s'
  | Alt r1 r2 => ends r1 s ++ ends r2 s
  end.
Definition starts (r : regex) (s : list ascii) : bool := match ends r s with [] => false | _ :: _ => true end.
(** [re.search] *)
Fixpoint search (r : regex) (s : list ascii) : bool :=
  starts r s || match s with _ :: s' => search r s' | [] => false end.

(** The texts a pattern stands for. *)
Inductive matches : regex → list ascii → Prop :=
  | m_lit l : matches (Lit l) l
  | m_opt_none f : matches (Opt f) []
  | m_opt_some f c : f c = true → matches (Opt f) [c]
  | m_many f s : Forall (λ c, f c = true) s → matches (Many f) s
  | m_seq r1 r2 s1 s2 : matches r1 s1 → matches r2 s2 → matches (Seq r1 r2) (s1 ++ s2)
  | m_alt_l r1 r2 s : matches r1 s → matches (Alt r1 r2) s
  | m_alt_r r1 r2 s : matches r2 s → matches (Alt r1 r2) s.

Definition lit (s : string) : regex := Lit (String.list_ascii_of_string s).
(** [.?], without a flag; [\s*] *)
Definition dot : ascii → bool := λ c, negb (nat_of_ascii c =? 10).
Definition any_opt : regex := Opt dot.
Definition spaces : regex := Many is_space.
(** The words of a pattern with [.?] between them. *)
Fixpoint words (w : string) (ws : list string) : regex :=
  match ws with [] => lit w | w' :: ws' => Seq (lit w) (Seq any_opt (words w' ws')) end.

(** * Errors *)

(** A status code, as [int] sees it. *)
Inductive raw_code : Type := CodeInt (z : Z) | CodeStr (s : string) | CodeOther.
Definition headers : Type := list (string * string).
(** A response may count as false, as that of requests does for an error. *)
Record response : Type := mkResponse {
  resp_truthy : bool;
  resp_attr : string → option raw_code;
  resp_headers : option headers;
}.
(** An exception: its text, the name of its type, whether it is a
    TimeoutError or a ConnectionError, the attributes asked for that are not
    [None]. *)
Record exn : Type := mkExn {
  exn_text : string;
  exn_type : string;
  exn_connection : bool;
  exn_attr : string → option raw_code;
  exn_response : string → option response;
  exn_headers : option headers;
}.
Definition int_code (c : raw_code) : option Z :=
  match c with CodeInt z => Some z | CodeStr s => int_of_string s | CodeOther => None end.
Definition direct_attrs : list string := ["status_code"; "status"; "code"; "http_status"].
Definition response_attrs : list string := ["response"; "http_response"; "_response"].
Definition response_code_attrs : list string := ["status_code"; "status"; "code"].
(** The first attribute, of the exception or of a response, that is a number;
    [counts] says which responses are looked at. *)
Definition status_code (counts : response → bool) (e : exn) : option Z :=
  head (omap (λ a, c ← exn_attr e a; int_code c) direct_attrs ++
        (a ← response_attrs;
         match exn_response e a with
         | Some r => if counts r then omap (λ b, c ← resp_attr r b; int_code c) response_code_attrs else []
         | None => []
         end)).
Definition lower_text (s : string) : list ascii := lower <$> String.list_ascii_of_string s.
(** [any(word in name ...)] *)
Definition has_word (ws : list string) (name : list ascii) : bool := existsb (λ w, search (lit w) name) ws.

(** * [is_failover_worthy] *)

Definition FAILOVER_STATUS_CODES : list Z := [429; 500; 502; 503; 504]%Z.
Definition NON_FAILOVER_STATUS_CODES : list Z := [401; 403]%Z.
Definition FAILOVER_PATTERNS : list regex :=
  [words "rate" ["limit"]; lit "too_many_requests"; lit "overloaded"; words "server" ["error"]; words "bad" ["gateway"];
   words "gateway" ["timeout"]; words "service" ["unavailable"]; lit "unavailable"; lit "timeout";
   Seq (lit "time") (Seq (Alt (lit "d") (lit "")) (Seq spaces (lit "out")));
   words "connection" ["reset"]; words "connection" ["refused"]; words "connection" ["error"]; words "temporary" ["failure"]].
Definition NON_FAILOVER_PATTERNS : list regex :=
  [lit "auth"; lit "unauthorized"; lit "forbidden"; words "invalid" ["api"; "key"];
   Seq (lit "context") (Seq any_opt (Alt (lit "length") (Alt (Seq (lit "too") (Seq spaces (lit "long"))) (lit "window"))));
   Seq (lit "max") (Seq any_opt (Seq (lit "token") (Seq (Alt (lit "s") (lit "")) (Seq any_opt (lit "exceeded")))));
   lit "validation"; words "invalid" ["request"]].
Definition transient_types : list string := ["timeout"; "connection"; "temporary"].
Definition any_pattern (ps : list regex) (s : list ascii) : bool := existsb (λ r, search r s) ps.
Definition is_failover_worthy (e : exn) : bool :=
  let by_text :=
    let s := lower_text (exn_text e) in
    if any_pattern NON_FAILOVER_PATTERNS s then false
    else if any_pattern FAILOVER_PATTERNS s then true
    else has_word transient_types (lower_text (exn_type e)) in
  match status_code (λ _, true) e with
  | Some c => if bool_decide (c ∈ NON_FAILOVER_STATUS_CODES) then false
              else if bool_decide (c ∈ FAILOVER_STATUS_CODES) then true else by_text
  | None => by_text
  end.

(** * [RetryPolicy] *)

Definition RETRYABLE_PATTERNS : list regex :=
  [lit "overloaded"; lit "too_many_requests"; words "rate" ["limit"]; lit "exhausted"; lit "unavailable"; lit "no_kv_space";
   words "server" ["error"]; lit "timeout"; words "connection" ["reset"]; words "connection" ["refused"];
   words "temporary" ["failure"]; words "service" ["unavailable"]; words "bad" ["gateway"]; words "gateway" ["timeout"]].
Definition RETRYABLE_STATUS_CODES : list Z := [429; 500; 502; 503; 504]%Z.
Definition NON_RETRYABLE_STATUS_CODES : list Z := [400; 401; 403; 404; 422]%Z.
Definition NON_RETRYABLE_PATTERNS : list regex :=
  [Seq (lit "anthropicexception") (Seq spaces (Seq (lit "-") (Seq spaces (lit "400"))));
   lit "expected http/, rtsp/ or ice/"].
Definition MAX_ERROR_STR_LEN : nat := 4096.
Record RetryPolicy : Type := mkPolicy {
  initial_delay_ms : Z;
  backoff_factor : Z;
  max_delay_ms : Z;
  max_attempts : Z;
}.
Definition default_policy : RetryPolicy := mkPolicy 2000 2 30000 5.
(** [if status_code:] does not look at a zero. *)
Definition is_retryable (e : exn) : bool :=
  if exn_connection e then true
  else
    let s := take MAX_ERROR_STR_LEN (lower_text (exn_text e)) in
    let by_text :=
      if any_pattern NON_RETRYABLE_PATTERNS s then false
      else if any_pattern RETRYABLE_PATTERNS s then true
      else has_word transient_types (lower_text (exn_type e)) in
    match status_code resp_truthy e with
    | Some c => if bool_decide (c = 0)%Z then by_text
                else if bool_decide (c ∈ RETRYABLE_STATUS_CODES) then true
                else if bool_decide (c ∈ NON_RETRYABLE_STATUS_CODES) then false else by_text
    | None => by_text
    end.
Definition should_retry (p : RetryPolicy) (attempt : Z) (e : exn) : bool :=
  if bool_decide (max_attempts p <= attempt)%Z then false else is_retryable e.

(** [_get_headers]: those of the first response that counts and has some, or the exception's own. *)
Definition get_headers (e : exn) : option headers :=
  let non_empty (o : option headers) : option headers := match o with Some (_ :: _) => o | _ => None end in
  match head (omap (λ a, r ← exn_response e a; if resp_truthy r then non_empty (resp_headers r) else None) response_attrs) with
  | Some h => Some h
  | None => non_empty (exn_headers e)
  end.
Section delay.
(** [float] of a text; the seconds from now to an HTTP date. *)
Context (parse_float : string → option float) (seconds_until : string → option Q).
(** [_parse_retry_after_headers]; [Err] is the OverflowError of [int] of an infinity. *)
Definition parse_retry_after_headers (e : exn) : result unit (option Z) :=
  match get_headers e with
  | None => Ok None
  | Some h =>
      match (s ← dget "retry-after-ms" h; if truthy s then int_of_string s else None) with
      | Some z => Ok (Some z)
      | None =>
          match dget "retry-after" h with
          | None => Ok None
          | Some s =>
              let date := d ← seconds_until s; if Qle_bool d 0 then None else Some (truncate_q (d * 1000)) in
              if truthy s then
                match parse_float s with
                | Some (Fin x) => Ok (Some (truncate_q (x * 1000)))
                | Some (Inf _) => Err tt
                | Some Nan | None => Ok date
                end
              else Ok None
          end
      end
  end.
(** [calculate_delay]; [u], from [0] to [1], is the random number. *)
Definition backoff (p : RetryPolicy) (attempt : Z) : Q :=
  inject_Z (initial_delay_ms p) * Qpower (inject_Z (backoff_factor p)) (attempt - 1).
Definition capped (p : RetryPolicy) (attempt : Z) : Q :=
  if Qle_bool (backoff p attempt) (inject_Z (max_delay_ms p)) then backoff p attempt else inject_Z (max_delay_ms p).
Definition calculate_delay (p : RetryPolicy) (u : Q) (attempt : Z) (e : option exn) : result unit Z :=
  header ← match e with Some e => parse_retry_after_headers e | None => Ok None end;
  match header with
  | Some z => Ok z
  | None => let c := capped p attempt in Ok (Z.max 0 (truncate_q (c + (u * 2 - 1) * (c * (1 # 4)))))
  end.
End delay.

(** [get_retry_message] *)
Definition get_retry_message (p : RetryPolicy) (attempt delay_ms : Z) (e : exn) : string :=
  let text := exn_text e in
  let text := if 100 <? String.length text then (String.substring 0 100 text ++ "...")%string else text in
  ("Retry attempt " ++ pretty attempt ++ "/" ++ pretty (max_attempts p) ++ " after " ++ pretty delay_ms ++
   "ms delay. Error: " ++ text)%string.

(** * What the matcher finds *)

Lemma strip_lit_Some l s s' : strip_lit l s = Some s' ↔ s = l ++ s'.
Proof.
  revert s. induction l as [|a l IH]; intros s; cbn; [split; congruence|].
  destruct s as [|b s]; [done|]. case_bool_decide as E; [rewrite IH; split; congruence|]. split; [done|]. congruence.
Qed.
Lemma ends_many_spec f s s' : s' ∈ ends_many f s ↔ ∃ m, s = m ++ s' ∧ Forall (λ c, f c = true) m.
Proof.
  induction s as [|c s IH]; cbn; rewrite elem_of_cons.
  - split.
    + intros [->|?%elem_of_nil]; [|done]. by exists [].
    + intros ([|??] & E & _); [by left|done].
  - destruct (f c) eqn:Hc.
    + rewrite IH. split.
      * intros [->|(m & -> & Hm)]; [by exists []|]. exists (c :: m). split; [done|]. by constructor.
      * intros ([|c' m] & E & Hm); [by left|]. injection E as <- ->. right. exists m. split; [done|]. by inversion Hm.
    + split.
      * intros [->|?%elem_of_nil]; [|done]. by exists [].
      * intros ([|c' m] & E & Hm); [by left|]. injection E as <- ->. inversion Hm. congruence.
Qed.
Lemma ends_spec r s s' : s' ∈ ends r s ↔ ∃ m, s = m ++ s' ∧ matches r m.
Proof.
  revert s s'. induction r as [l|f|f|r1 IH1 r2 IH2|r1 IH1 r2 IH2]; intros s s'; cbn.
  - split.
    + destruct (strip_lit l s) as [t|] eqn:E; [|by intros ?%elem_of_nil]. apply strip_lit_Some in E.
      intros ->%list_elem_of_singleton. exists l. split; [done|constructor].
    + intros (m & -> & Hm). inversion Hm; subst. rewrite (proj2 (strip_lit_Some m (m ++ s') s') eq_refl). by apply list_elem_of_singleton.
  - rewrite elem_of_cons. split.
    + intros [->|H]; [exists []; split; [done|constructor]|]. destruct s as [|c s]; [by apply elem_of_nil in H|].
      destruct (f c) eqn:Hc; [|by apply elem_of_nil in H]. apply list_elem_of_singleton in H as ->.
      exists [c]. split; [done|by constructor].
    + intros (m & -> & Hm). inversion Hm; subst; [by left|]. right. cbn.
      match goal with H : f _ = true |- _ => rewrite H end. by apply list_elem_of_singleton.
  - rewrite ends_many_spec. split; intros (m & -> & Hm); exists m; (split; [done|]); [by constructor|by inversion Hm].
  - rewrite list_elem_of_bind. split.
    + intros (t & Ht & (m1 & -> & H1)%IH1). apply IH2 in Ht as (m2 & -> & H2). exists (m1 ++ m2).
      split; [by rewrite <- app_assoc|by constructor].
    + intros (m & -> & Hm). inversion Hm as [| | | |r1' r2' m1 m2 H1 H2| |]; subst. exists (m2 ++ s').
      split; [apply IH2; eauto|apply IH1; exists m1; by rewrite app_assoc].
  - rewrite elem_of_app, IH1, IH2. split.
    + intros [(m & -> & H)|(m & -> & H)]; exists m; (split; [done|]); [by apply m_alt_l|by apply m_alt_r].
    + intros (m & -> & Hm). inversion Hm; subst; eauto.
Qed.
(** A pattern occurs in a text. *)
Definition occurs (r : regex) (s : list ascii) : Prop := ∃ a m b, s = a ++ m ++ b ∧ matches r m.
Lemma starts_spec r s : starts r s = true ↔ ∃ m b, s = m ++ b ∧ matches r m.
Proof.
  unfold starts. destruct (ends r s) as [|t ts] eqn:E.
  - split; [done|]. intros (m & b & Hs & Hm). assert (b ∈ ends r s) as H by (apply ends_spec; eauto).
    rewrite E in H. by apply elem_of_nil in H.
  - split; [|done]. intros _. assert (t ∈ ends r s) as (m & ? & ?)%ends_spec by (rewrite E; apply list_elem_of_here). eauto.
Qed.
Lemma search_spec r s : search r s = true ↔ occurs r s.
Proof.
  induction s as [|c s IH]; cbn; rewrite orb_true_iff, starts_spec.
  - split.
    + intros [(m & b & E & Hm)|?]; [|done]. by exists [], m, b.
    + intros ([|??] & m & b & E & Hm); [left; by exists m, b|done].
  - rewrite IH. split.
    + intros [(m & b & E & Hm)|(a & m & b & -> & Hm)]; [by exists [], m, b|by exists (c :: a), m, b].
    + intros ([|c' a] & m & b & E & Hm); [left; by exists m, b|]. injection E as <- ->. right. by exists a, m, b.
Qed.
Lemma any_pattern_spec ps s : any_pattern ps s = true ↔ ∃ r, r ∈ ps ∧ occurs r s.
Proof.
  unfold any_pattern. rewrite existsb_exists. setoid_rewrite search_spec. by setoid_rewrite list_elem_of_In.
Qed.
Lemma has_word_spec ws s : has_word ws s = true ↔ ∃ w, w ∈ ws ∧ occurs (lit w) s.
Proof. unfold has_word. rewrite existsb_exists. setoid_rewrite search_spec. by setoid_rewrite list_elem_of_In. Qed.
(** What text and type say: no phrase against, and one in favour. *)
Definition text_says (against favour : list regex) (s ty : list ascii) : Prop :=
  (¬ ∃ r, r ∈ against ∧ occurs r s) ∧
  ((∃ r, r ∈ favour ∧ occurs r s) ∨ ∃ w, w ∈ transient_types ∧ occurs (lit w) ty).
Lemma text_says_spec against favour s ty :
  (if any_pattern against s then false else if any_pattern favour s then true else has_word transient_types ty) = true ↔
  text_says against favour s ty.
Proof.
  unfold text_says. rewrite <- !any_pattern_spec, <- has_word_spec.
  destruct (any_pattern against s), (any_pattern favour s); naive_solver.
Qed.

Lemma by_code_spec (bad good : list Z) c (b : bool) : (∀ z, z ∈ bad → z ∉ good) →
  (if bool_decide (c ∈ bad) then false else if bool_decide (c ∈ good) then true else b) = true ↔
  c ∈ good ∨ (c ∉ bad ∧ b = true).
Proof.
  intros Hd. destruct (bool_decide_reflect (c ∈ bad)) as [Hb|Hb], (bool_decide_reflect (c ∈ good)) as [Hg|Hg];
    try naive_solver.
Qed.
Lemma by_code_spec' (bad good : list Z) c (b : bool) : (∀ z, z ∈ bad → z ∉ good) →
  (if bool_decide (c ∈ good) then true else if bool_decide (c ∈ bad) then false else b) = true ↔
  c ∈ good ∨ (c ∉ bad ∧ b = true).
Proof.
  intros Hd. destruct (bool_decide_reflect (c ∈ bad)) as [Hb|Hb], (bool_decide_reflect (c ∈ good)) as [Hg|Hg];
    try naive_solver.
Qed.
Lemma failover_codes_apart z : z ∈ NON_FAILOVER_STATUS_CODES → z ∉ FAILOVER_STATUS_CODES.
Proof. unfold NON_FAILOVER_STATUS_CODES, FAILOVER_STATUS_CODES. set_solver by lia. Qed.
Lemma retry_codes_apart z : z ∈ NON_RETRYABLE_STATUS_CODES → z ∉ RETRYABLE_STATUS_CODES.
Proof. unfold NON_RETRYABLE_STATUS_CODES, RETRYABLE_STATUS_CODES. set_solver by lia. Qed.
Lemma zero_not_listed : (0%Z ∉ RETRYABLE_STATUS_CODES) ∧ 0%Z ∉ NON_RETRYABLE_STATUS_CODES.
Proof. unfold NON_RETRYABLE_STATUS_CODES, RETRYABLE_STATUS_CODES. set_solver by lia. Qed.
Lemma worthy_spec e : is_failover_worthy e = true ↔
  let by_text := text_says NON_FAILOVER_PATTERNS FAILOVER_PATTERNS (lower_text (exn_text e)) (lower_text (exn_type e)) in
  match status_code (λ _, true) e with
  | Some c => c ∈ FAILOVER_STATUS_CODES ∨ (c ∉ NON_FAILOVER_STATUS_CODES ∧ by_text)
  | None => by_text
  end.
Proof.
  unfold is_failover_worthy. cbv zeta.
  destruct (status_code _ e) as [c|]; rewrite <- text_says_spec; [|done]. apply by_code_spec, failover_codes_apart.
Qed.
Lemma retryable_spec e : is_retryable e = true ↔
  let retry_text := text_says NON_RETRYABLE_PATTERNS RETRYABLE_PATTERNS
    (take MAX_ERROR_STR_LEN (lower_text (exn_text e))) (lower_text (exn_type e)) in
  exn_connection e = true ∨
  match status_code resp_truthy e with
  | Some c => c ∈ RETRYABLE_STATUS_CODES ∨ (c ∉ NON_RETRYABLE_STATUS_CODES ∧ retry_text)
  | None => retry_text
  end.
Proof.
  unfold is_retryable. cbv zeta. destruct (exn_connection e); [tauto|].
  destruct (status_code _ e) as [c|]; rewrite <- text_says_spec; [|naive_solver].
  destruct (bool_decide_reflect (c = 0)%Z) as [->|Hz]; [|rewrite by_code_spec' by (apply retry_codes_apart); naive_solver].
  pose proof zero_not_listed. naive_solver.
Qed.

(** An error fails over, and is retried, exactly when its status code says so or, where
    the code says nothing, when no phrase against occurs in its text and one
    in favour does, or its type is a transient one; a retry is also due for
    every connection error.  What a status code sends to another provider is
    also retried at the same one. *)
Theorem classifiers_spec e :
  let s := lower_text (exn_text e) in let ty := lower_text (exn_type e) in
  let by_text := text_says NON_FAILOVER_PATTERNS FAILOVER_PATTERNS s ty in
  let retry_text := text_says NON_RETRYABLE_PATTERNS RETRYABLE_PATTERNS (take MAX_ERROR_STR_LEN s) ty in
  (is_failover_worthy e = true ↔
   match status_code (λ _, true) e with
   | Some c => c ∈ FAILOVER_STATUS_CODES ∨ (c ∉ NON_FAILOVER_STATUS_CODES ∧ by_text)
   | None => by_text
   end) ∧
  (is_retryable e = true ↔ exn_connection e = true ∨
   match status_code resp_truthy e with
   | Some c => c ∈ RETRYABLE_STATUS_CODES ∨ (c ∉ NON_RETRYABLE_STATUS_CODES ∧ retry_text)
   | None => retry_text
   end) ∧
  (∀ c, status_code (λ _, true) e = Some c → status_code resp_truthy e = Some c → c ∈ FAILOVER_STATUS_CODES →
   is_failover_worthy e = true ∧ is_retryable e = true).
Proof.
  intros s ty by_text retry_text. split; [apply worthy_spec|]. split; [apply retryable_spec|].
  intros c E1 E2 Hc. rewrite worthy_spec, retryable_spec, E1, E2. cbv zeta. tauto.
Qed.

(** * How long to wait *)

Lemma truncate_floor q : (0 <= q)%Q → truncate_q q = Qfloor q.
Proof.
  intros Hq. destruct q as [n d]. unfold truncate_q. cbn. apply Z.quot_div_nonneg; [|lia].
  unfold Qle in Hq. cbn in Hq. lia.
Qed.
Lemma truncate_bounds q : (0 <= q)%Q → (q - 1 < inject_Z (truncate_q q))%Q ∧ (inject_Z (truncate_q q) <= q)%Q.
Proof.
  intros Hq. rewrite truncate_floor by done. split; [|apply Qfloor_le].
  pose proof (Qlt_floor q) as H. rewrite inject_Z_plus in H. change (inject_Z 1) with 1%Q in H. lra.
Qed.
Lemma capped_le p attempt : (capped p attempt <= inject_Z (max_delay_ms p))%Q.
Proof. unfold capped. destruct (Qle_bool _ _) eqn:E; [by apply Qle_bool_iff|apply Qle_refl]. Qed.
Lemma inject_nonneg z : (0 <= z)%Z → (0 <= inject_Z z)%Q.
Proof. intros. change 0%Q with (inject_Z 0). by rewrite <- Zle_Qle. Qed.
Lemma capped_nonneg p attempt : (0 <= initial_delay_ms p)%Z → (0 <= backoff_factor p)%Z → (0 <= max_delay_ms p)%Z →
  (0 <= capped p attempt)%Q.
Proof.
  intros Hi Hf Hm. unfold capped. destruct (Qle_bool _ _); [|by apply inject_nonneg].
  apply Qmult_le_0_compat; [by apply inject_nonneg|]. by apply Qpower_0_le, inject_nonneg.
Qed.
Lemma capped_mono p a b : (0 <= initial_delay_ms p)%Z → (1 <= backoff_factor p)%Z → (a <= b)%Z →
  (capped p a <= capped p b)%Q.
Proof.
  intros Hi Hf Hab.
  assert (backoff p a <= backoff p b)%Q as Hb.
  { apply Qmult_le_compat_nonneg; (split; [first [by apply inject_nonneg|apply Qpower_0_le, inject_nonneg; lia]|]).
    - apply Qle_refl.
    - apply Qpower_le_compat_l; [lia|]. change 1%Q with (inject_Z 1). by rewrite <- Zle_Qle. }
  unfold capped. destruct (Qle_bool (backoff p b) _) eqn:Eb; destruct (Qle_bool (backoff p a) _) eqn:Ea;
    rewrite ?Qle_bool_iff in *; try done; try apply Qle_refl.
  destruct (Qlt_le_dec (inject_Z (max_delay_ms p)) (backoff p a)) as [H|H]; [lra|].
  apply Qle_bool_iff in H. congruence.
Qed.
(** The delay without a header, for a sound policy and a random number. *)
Definition jittered (p : RetryPolicy) (u : Q) (attempt : Z) : Q := (capped p attempt * ((3 # 4) + u * (1 # 2)))%Q.
Lemma jitter_eq p u a : (capped p a + (u * 2 - 1) * (capped p a * (1 # 4)) == jittered p u a)%Q.
Proof. unfold jittered. ring. Qed.
Lemma truncate_compat x y : (0 <= x)%Q → (x == y)%Q → truncate_q x = truncate_q y.
Proof. intros Hx E. rewrite !truncate_floor; [by rewrite E|lra|done]. Qed.
Record sound (p : RetryPolicy) : Prop := {
  sound_initial : (0 <= initial_delay_ms p)%Z;
  sound_factor : (1 <= backoff_factor p)%Z;
  sound_max : (0 <= max_delay_ms p)%Z;
}.
Lemma calculate_jittered pf su p u a : sound p → (0 <= u)%Q → calculate_delay pf su p u a None = Ok (truncate_q (jittered p u a)) ∧
  (0 <= jittered p u a)%Q.
Proof.
  intros [] Hu. assert (0 <= capped p a)%Q as Hc by (apply capped_nonneg; lia).
  assert (0 <= jittered p u a)%Q as Hj by (unfold jittered; apply Qmult_le_0_compat; [done|lra]).
  split; [|done]. cbn. f_equal.
  rewrite (truncate_compat _ (jittered p u a)) by (rewrite jitter_eq; done || reflexivity).
  apply Z.max_r. rewrite truncate_floor by done. change 0%Z with (Qfloor 0). by apply Qfloor_resp_le.
Qed.
(** Without a header, the delay of a sound policy is within a quarter of the capped
    exponential backoff, so up to a quarter above the configured maximum,
    which it does exceed, and does not shrink from one attempt to a later one.
    A retry-after header in milliseconds is obeyed as it is, whatever its sign
    and size. *)
Theorem delay_bounds pf su p u a : sound p → (0 <= u <= 1)%Q →
  (∃ d, calculate_delay pf su p u a None = Ok d ∧
    (capped p a * (3 # 4) - 1 < inject_Z d <= capped p a * (5 # 4))%Q ∧ (capped p a <= inject_Z (max_delay_ms p))%Q ∧
    (∀ b d', (a <= b)%Z → calculate_delay pf su p u b None = Ok d' → (d <= d')%Z)) ∧
  calculate_delay pf su default_policy 1 5 None = Ok 37500%Z ∧
  (∀ e h z s, get_headers e = Some h → dget "retry-after-ms" h = Some s → s ≠ "" → int_of_string s = Some z →
    calculate_delay pf su p u a (Some e) = Ok z).
Proof.
  intros Hp [Hu0 Hu1]. split; [|split; [by vm_compute|]].
  - destruct (calculate_jittered pf su p u a Hp Hu0) as [E Hj]. exists (truncate_q (jittered p u a)). split; [done|].
    destruct (truncate_bounds _ Hj) as [H1 H2].
    assert (0 <= capped p a)%Q as Hc by (destruct Hp; apply capped_nonneg; lia).
    assert (capped p a * (3 # 4) <= jittered p u a <= capped p a * (5 # 4))%Q as [H3 H4].
    { unfold jittered. rewrite !(Qmult_comm (capped p a)). split; apply Qmult_le_compat_r; try done; lra. }
    split; [split; lra|]. split; [apply capped_le|]. intros b d' Hab E'.
    destruct (calculate_jittered pf su p u b Hp Hu0) as [E2 Hj2]. rewrite E2 in E'. injection E' as <-.
    rewrite !truncate_floor by done. apply Qfloor_resp_le. unfold jittered. apply Qmult_le_compat_r; [|lra].
    destruct Hp. by apply capped_mono.
  - intros e h z s Hh Hd Hs Hz. unfold calculate_delay, parse_retry_after_headers. rewrite Hh, Hd. cbn [mbind option_bind].
    assert (truthy s = true) as -> by by apply truthy_true. by rewrite Hz.
Qed.

(** * Witnesses *)

Definition plain_error (text : string) : exn :=
  mkExn text "RuntimeError" false (λ _, None) (λ _, None) (Some [("retry-after-ms", "-250")]).
Lemma delay_bounds_witness :
  calculate_delay (λ _, None) (λ _, None) default_policy (1 # 2) 3 (Some (plain_error "overloaded")) = Ok (-250)%Z ∧
  ∃ d, calculate_delay (λ _, None) (λ _, None) default_policy (1 # 2) 3 None = Ok d ∧ (inject_Z d <= 37500)%Q.
Proof.
  destruct (delay_bounds (λ _, None) (λ _, None) default_policy (1 # 2) 3) as [(d & Hd & [_ H1] & H2 & _) [_ H3]].
  - split; cbn; lia.
  - split; lra.
  - split; [by apply (H3 _ [("retry-after-ms", "-250")] _ "-250")|]. exists d. split; [done|]. change (inject_Z (max_delay_ms default_policy)) with 30000%Q in H2. lra.
Defined.
(** A rate limit behind an HTTP date; the same in an error about the context. *)
Lemma classifiers_spec_witness :
  is_failover_worthy (plain_error "Rate-Limit reached") = true ∧ is_failover_worthy (plain_error "context too  long: timed out") = false ∧
  is_failover_worthy (mkExn "" "E" false (λ a, if bool_decide (a = "status") then Some (CodeStr " 503 ") else None) (λ _, None) None)
  = true.
Proof.
  split; [by vm_compute|]. split; [by vm_compute|].
  eapply (classifiers_spec _); [reflexivity|reflexivity|]. vm_decide.
Defined.
