(* ===== verification/LoadBalancer.v ===== *)
(** The load balancer of LLM models: health records with a cooldown, calls in
    flight, smoothed latencies, and the pick of the least loaded candidate.

    Source: src/src/infrastructure/llm/load_balancer.py, and the candidates of
    src/src/infrastructure/llm/model_pool.py.  Instants and durations are in
    milliseconds; a latency or a weight is a rational. *)

From Stdlib Require Import QArith.
From S2P Require Import Prelude PyText.

Open Scope string_scope.
Open Scope list_scope.
Open Scope nat_scope.

(** * Health *)

Record CandidateHealth : Type := mkHealth {
  consecutive_failures : Z;
  last_failure_at : option Z;
  last_success_at : option Z;
  cooldown_until : option Z;
}.
Definition new_health : CandidateHealth := mkHealth 0 None None None.
Definition is_in_cooldown (now : Z) (h : CandidateHealth) : bool :=
  match cooldown_until h with Some t => bool_decide (now < t)%Z | None => false end.

(** [ProviderHealthStore] *)
Record health_store : Type := mkStore { records : gmap string CandidateHealth; cooldown_ms : Z }.
Definition new_store (cooldown : Z) : health_store := mkStore ∅ cooldown.
(** [get] puts a missing record in. *)
Definition get (key : string) (s : health_store) : health_store * CandidateHealth :=
  match records s !! key with
  | Some h => (s, h)
  | None => (mkStore (<[key := new_health]> (records s)) (cooldown_ms s), new_health)
  end.
Definition is_healthy (now : Z) (key : string) (s : health_store) : bool :=
  match records s !! key with Some h => negb (is_in_cooldown now h) | None => true end.
Definition record_failure (now : Z) (key : string) (s : health_store) : health_store :=
  let h := (get key s).2 in
  mkStore (<[key := mkHealth (consecutive_failures h + 1) (Some now) (last_success_at h) (Some (now + cooldown_ms s)%Z)]>
             (records s)) (cooldown_ms s).
Definition record_success (now : Z) (key : string) (s : health_store) : health_store :=
  mkStore (<[key := mkHealth 0 None (Some now) None]> (records s)) (cooldown_ms s).
Definition reset (key : option string) (s : health_store) : health_store :=
  match key with
  | None => mkStore ∅ (cooldown_ms s)
  | Some k => mkStore (base.delete k (records s)) (cooldown_ms s)
  end.

(** * Candidates *)

Inductive ModelTier : Set := TierSmall | TierMedium | TierLarge.
#[export] Instance ModelTier_eq_dec : EqDecision ModelTier.
Proof. solve_decision. Defined.
(** [provider_id] and [cand_type] stand for the provider row. *)
Record CandidateModel : Type := mkCandidate {
  provider_id : string;
  cand_type : string;
  model_name : string;
  cand_tier : option ModelTier;
  weight : Q;
  supports_vision : bool;
  supports_tools : bool;
}.
Definition candidate_key (c : CandidateModel) : string := (provider_id c ++ ":" ++ model_name c)%string.

(** * Load *)

Definition EWMA_ALPHA : Q := 3 # 10.
(** The balancer: its health store, latencies and counts of calls in flight. *)
Record balancer : Type := mkBalancer { health : health_store; latency : gmap string Q; inflight : gmap string Z }.
Definition new_balancer (s : health_store) : balancer := mkBalancer s ∅ ∅.
Definition get_latency (key : string) (b : balancer) : Q := default 0%Q (latency b !! key).
Definition get_inflight (key : string) (b : balancer) : Z := default 0%Z (inflight b !! key).
Definition record_latency (key : string) (ms : Q) (b : balancer) : balancer :=
  let new := match latency b !! key with None => ms | Some prev => (prev + EWMA_ALPHA * (ms - prev))%Q end in
  mkBalancer (health b) (<[key := new]> (latency b)) (inflight b).
Definition increment (key : string) (b : balancer) : balancer :=
  mkBalancer (health b) (latency b) (<[key := (get_inflight key b + 1)%Z]> (inflight b)).
Definition decrement (key : string) (b : balancer) : balancer :=
  mkBalancer (health b) (latency b) (<[key := Z.max 0 (get_inflight key b - 1)]> (inflight b)).
(** [track] around a call: before it, and after it, however it ends. *)
Definition track_enter (c : CandidateModel) (b : balancer) : balancer := increment (candidate_key c) b.
Definition track_exit (elapsed_ms : Q) (c : CandidateModel) (b : balancer) : balancer :=
  record_latency (candidate_key c) elapsed_ms (decrement (candidate_key c) b).
Definition on_health (f : health_store → health_store) (b : balancer) : balancer :=
  mkBalancer (f (health b)) (latency b) (inflight b).
Definition balancer_success (now : Z) (c : CandidateModel) (b : balancer) : balancer :=
  on_health (record_success now (candidate_key c)) b.
Definition balancer_failure (now : Z) (c : CandidateModel) (b : balancer) : balancer :=
  on_health (record_failure now (candidate_key c)) b.
Record CandidateStats : Type := mkCandStats { st_inflight : Z; st_latency : Q; st_calls : Z; st_failures : Z }.
Definition stats (c : CandidateModel) (b : balancer) : balancer * CandidateStats :=
  let '(s, h) := get (candidate_key c) (health b) in
  (mkBalancer s (latency b) (inflight b),
   mkCandStats (get_inflight (candidate_key c) b) (get_latency (candidate_key c) b) 0 (consecutive_failures h)).

(** * [pick] *)

(** (calls in flight, latency, minus the weight), compared as a tuple. *)
Record score : Type := mkScore { sc_inflight : Z; sc_latency : Q; sc_minus_weight : Q }.
Definition score_of (b : balancer) (c : CandidateModel) : score :=
  mkScore (get_inflight (candidate_key c) b) (get_latency (candidate_key c) b) (- weight c)%Q.
Definition score_le (x y : score) : bool :=
  if bool_decide (sc_inflight x = sc_inflight y) then
    if Qeq_bool (sc_latency x) (sc_latency y) then Qle_bool (sc_minus_weight x) (sc_minus_weight y)
    else Qle_bool (sc_latency x) (sc_latency y)
  else bool_decide (sc_inflight x < sc_inflight y)%Z.
Definition score_eq (x y : score) : bool :=
  bool_decide (sc_inflight x = sc_inflight y) && Qeq_bool (sc_latency x) (sc_latency y) &&
  Qeq_bool (sc_minus_weight x) (sc_minus_weight y).
Record LoadBalancerDecision : Type := mkPick {
  chosen : CandidateModel;
  best_score : score;
  alternatives : list CandidateModel;
}.
(** Those out of cooldown, or all of them. *)
Definition pool_of (now : Z) (candidates : list CandidateModel) (b : balancer) : list CandidateModel :=
  let healthy := filter (λ c, is_healthy now (candidate_key c) (health b) = true) candidates in
  match healthy with [] => candidates | _ => healthy end.
(** [choice] is the random number of [random.choice]; the alternatives leave
    out the chosen object, one of its key. *)
Definition pick (now : Z) (choice : nat) (candidates : list CandidateModel) (b : balancer) : option LoadBalancerDecision :=
  let scored := sort_by (λ x y, score_le (score_of b x) (score_of b y)) (pool_of now candidates b) in
  match scored with
  | [] => None
  | first :: _ =>
      let tied := filter (λ c, score_eq (score_of b c) (score_of b first) = true) scored in
      let c := default first (tied !! (choice mod length tied)) in
      Some (mkPick c (score_of b first) (filter (λ d, candidate_key d ≠ candidate_key c) scored))
  end.

(** * The least loaded one *)

Lemma score_le_total x y : score_le x y = false → score_le y x = true.
Proof.
  unfold score_le. destruct (bool_decide_reflect (sc_inflight x = sc_inflight y)) as [E|E].
  - rewrite (bool_decide_eq_true_2 (sc_inflight y = sc_inflight x)) by done.
    destruct (Qeq_bool (sc_latency x) (sc_latency y)) eqn:L.
    + apply Qeq_bool_iff in L. rewrite (proj2 (Qeq_bool_iff _ _)) by by symmetry.
      intros H. apply Qle_bool_iff. apply not_true_iff_false in H. rewrite Qle_bool_iff in H. by apply Qlt_le_weak, Qnot_le_lt.
    + assert (Qeq_bool (sc_latency y) (sc_latency x) = false) as ->
        by (apply not_true_iff_false; apply not_true_iff_false in L; rewrite Qeq_bool_iff in *; intros H; apply L; by symmetry).
      intros H. apply Qle_bool_iff. apply not_true_iff_false in H. rewrite Qle_bool_iff in H. by apply Qlt_le_weak, Qnot_le_lt.
  - rewrite (bool_decide_eq_false_2 (sc_inflight y = sc_inflight x)) by congruence.
    intros H%bool_decide_eq_false. apply bool_decide_eq_true. lia.
Qed.
(** The same order, lexicographic, as a proposition. *)
Definition score_lex (x y : score) : Prop :=
  (sc_inflight x < sc_inflight y)%Z ∨
  (sc_inflight x = sc_inflight y ∧
   ((sc_latency x < sc_latency y)%Q ∨ ((sc_latency x == sc_latency y)%Q ∧ (sc_minus_weight x <= sc_minus_weight y)%Q))).
Lemma score_le_lex x y : score_le x y = true ↔ score_lex x y.
Proof.
  unfold score_le, score_lex. destruct (bool_decide_reflect (sc_inflight x = sc_inflight y)) as [E|E].
  - destruct (Qeq_bool (sc_latency x) (sc_latency y)) eqn:L.
    + apply Qeq_bool_iff in L. rewrite Qle_bool_iff. split; [intros; right; split; [done|]; by right|].
      intros [?|[_ [H|[_ H]]]]; [lia| |done]. rewrite L in H. by apply Qlt_irrefl in H.
    + apply not_true_iff_false in L. rewrite Qeq_bool_iff in L. rewrite Qle_bool_iff. split.
      * intros H. right. split; [done|]. left. apply Qle_lteq in H as [H|H]; [done|tauto].
      * intros [?|[_ [H|[H _]]]]; [lia|by apply Qlt_le_weak|tauto].
  - rewrite bool_decide_eq_true. naive_solver.
Qed.
Lemma score_le_trans x y z : score_le x y = true → score_le y z = true → score_le x z = true.
Proof.
  rewrite !score_le_lex. unfold score_lex.
  intros [H1|(E1 & [L1|[L1 W1]])] [H2|(E2 & [L2|[L2 W2]])]; try (left; lia); right; (split; [lia|]).
  - left. by eapply Qlt_trans.
  - left. by rewrite <- L2.
  - left. by rewrite L1.
  - right. split; [by rewrite L1|]. by eapply Qle_trans.
Qed.
Lemma score_eq_refl x : score_eq x x = true.
Proof. unfold score_eq. rewrite bool_decide_eq_true_2 by done. by rewrite !Qeq_bool_refl. Qed.
Lemma score_eq_le x y z : score_eq x y = true → score_le y z = true → score_le x z = true.
Proof.
  unfold score_eq. rewrite !andb_true_iff, bool_decide_eq_true, !Qeq_bool_iff, !score_le_lex. unfold score_lex.
  intros [[-> L] W]. setoid_rewrite L. by setoid_rewrite W.
Qed.

Section pick.
Context (now : Z) (candidates : list CandidateModel) (b : balancer).
(** The candidates out of cooldown, or all of them. *)
Definition considered (c : CandidateModel) : Prop :=
  c ∈ candidates ∧
  (is_healthy now (candidate_key c) (health b) = true ∨
   ∀ d, d ∈ candidates → is_healthy now (candidate_key d) (health b) = false).
Lemma considered_pool c : c ∈ pool_of now candidates b ↔ considered c.
Proof.
  unfold considered, pool_of. destruct (filter _ candidates) as [|d l] eqn:E.
  - split; [|tauto]. intros Hc. split; [done|]. right. intros d Hd. apply not_true_iff_false. intros Hh.
    assert (d ∈ filter (λ c, is_healthy now (candidate_key c) (health b) = true) candidates) as H by by apply list_elem_of_filter.
    rewrite E in H. by apply elem_of_nil in H.
  - rewrite <- E, list_elem_of_filter. split; [tauto|]. intros [Hc [Hh|Hn]]; [done|].
    assert (d ∈ filter (λ c, is_healthy now (candidate_key c) (health b) = true) candidates) as H
      by (rewrite E; apply list_elem_of_here).
    apply list_elem_of_filter in H as [H Hd]. rewrite (Hn d Hd) in H. done.
Qed.
Lemma pick_Some choice d : pick now choice candidates b = Some d →
  considered (chosen d) ∧ (∀ c, considered c → score_le (score_of b (chosen d)) (score_of b c) = true) ∧
  (∀ c, considered c → c ∈ alternatives d ∨ candidate_key c = candidate_key (chosen d)).
Proof.
  unfold pick. set (pool := pool_of now candidates b).
  set (leb := λ x y, score_le (score_of b x) (score_of b y)). assert (∀ c, c ∈ sort_by leb pool ↔ considered c) as Hin.
  { intros c. rewrite elem_of_sort_by. apply considered_pool. }
  pose proof (sort_by_sorted leb (λ x y, score_le_total _ _) (λ x y z, score_le_trans _ _ _) pool) as Hs.
  destruct (sort_by leb pool) as [|first l] eqn:E; [done|]. intros [= <-]. cbn [chosen alternatives].
  set (tied := filter _ (first :: l)). set (c0 := default first _).
  assert (c0 ∈ first :: l ∧ score_eq (score_of b c0) (score_of b first) = true) as [H1 H2].
  { unfold c0. destruct (tied !! (choice mod length tied)) as [c|] eqn:Ec; cbn.
    - apply list_elem_of_lookup_2, list_elem_of_filter in Ec. tauto.
    - split; [apply list_elem_of_here|apply score_eq_refl]. }
  split; [by apply Hin|]. split.
  - intros c Hc. apply (score_eq_le _ _ _ H2). apply Hin in Hc. apply StronglySorted_inv in Hs as [_ Hall].
    apply elem_of_cons in Hc as [->|Hc]; [apply (score_eq_le _ _ _ (score_eq_refl _)), score_le_lex|by eapply Forall_forall in Hall].
    right. split; [done|]. right. split; [reflexivity|apply Qle_refl].
  - intros c Hc. destruct (decide (candidate_key c = candidate_key c0)); [by right|left].
    apply list_elem_of_filter. split; [done|by apply Hin].
Qed.
Lemma pick_None choice : pick now choice candidates b = None ↔ candidates = [].
Proof.
  unfold pick. destruct (sort_by _ _) as [|first l] eqn:E.
  - split; [|done]. intros _. destruct candidates as [|c cs] eqn:Ec; [done|]. exfalso.
    apply (f_equal length) in E. rewrite sort_by_length in E.
    unfold pool_of in E. destruct (filter _ _); cbn in E; lia.
  - split; [done|]. intros Ec. apply (f_equal length) in E. rewrite sort_by_length in E. by rewrite Ec in E.
Qed.
End pick.

Lemma record_failure_healthy now t k k' s :
  is_healthy t k' (record_failure now k s) =
  if decide (k = k') then bool_decide (now + cooldown_ms s <= t)%Z else is_healthy t k' s.
Proof.
  unfold is_healthy, record_failure. cbn. destruct (decide (k = k')) as [<-|Hne]; [|by rewrite lookup_insert_ne].
  rewrite lookup_insert_eq. unfold is_in_cooldown. cbn. do 2 case_bool_decide; try done; lia.
Qed.
(** A pick is there for every non-empty list of candidates: one out of cooldown if there
    is one, with the fewest calls in flight, then the lowest latency, then the
    highest weight; the others are its alternatives.  A candidate that has
    just failed is not picked before its cooldown has passed while another one
    is out of cooldown. *)
Theorem pick_spec now choice candidates b :
  (pick now choice candidates b = None ↔ candidates = []) ∧
  (∀ d, pick now choice candidates b = Some d →
    considered now candidates b (chosen d) ∧
    (∀ c, considered now candidates b c → score_lex (score_of b (chosen d)) (score_of b c)) ∧
    (∀ c, considered now candidates b c → c ∈ alternatives d ∨ candidate_key c = candidate_key (chosen d))) ∧
  (∀ failed c t d, c ∈ candidates → candidate_key c ≠ candidate_key failed → is_healthy t (candidate_key c) (health b) = true →
    (now <= t < now + cooldown_ms (health b))%Z →
    pick t choice candidates (balancer_failure now failed b) = Some d → candidate_key (chosen d) ≠ candidate_key failed).
Proof.
  split; [apply pick_None|]. split.
  - intros d Hd. apply pick_Some in Hd as (H1 & H2 & H3). split; [done|]. split; [|done].
    intros c Hc. by apply score_le_lex, H2.
  - intros failed c t d Hc Hne Hh Ht Hd E. apply pick_Some in Hd as ([_ [H|H]] & _).
    + cbn in H. rewrite record_failure_healthy, E, decide_True in H by done. apply bool_decide_eq_true in H. lia.
    + specialize (H c Hc). cbn in H. rewrite record_failure_healthy, decide_False in H by congruence. congruence.
Qed.

(** A busy model, a cold one, and one that failed. *)
Definition model (p m : string) : CandidateModel := mkCandidate p "openai" m None 1 false true.
Definition three_models : list CandidateModel := [model "p1" "a"; model "p2" "b"; model "p3" "c"].
Definition loaded : balancer := track_enter (model "p1" "a") (balancer_failure 0 (model "p2" "b") (new_balancer (new_store 60000))).
Lemma pick_spec_witness :
  candidate_key ∘ chosen <$> pick 10 0 three_models loaded = Some "p3:c" ∧
  candidate_key ∘ chosen <$> pick 20 0 three_models (balancer_failure 15 (model "p3" "c") loaded) = Some "p1:a" ∧
  score_lex (score_of loaded (model "p3" "c")) (score_of loaded (model "p1" "a")).
Proof.
  split; [by vm_compute|]. split; [by vm_compute|].
  destruct (pick_spec 10 0 three_models loaded) as (_ & H & _).
  destruct (H _ eq_refl) as (_ & H2 & _). apply H2. split; [|left; by vm_compute]. apply list_elem_of_here.
Defined.
