(* ===== verification/FailoverChain.v ===== *)
(** The failover chain: a request goes to the providers of a sequence in turn.

    Source: src/src/infrastructure/llm/failover_chain.py.  The clock of every
    attempt and the provider's answer are arguments.  Between two attempts
    other requests may change the shared health records; the chain looks at
    them once, before the first. *)

From S2P Require Import Prelude PyText LlmErrors LoadBalancer.

Open Scope string_scope.
Open Scope list_scope.
Open Scope nat_scope.

Record FailoverConfig : Type := mkFailover {
  max_failover_attempts : Z;
  failover_timeout_ms : Z;
  track_provider_health : bool;
  cooldown : Z;
}.
Definition default_config : FailoverConfig := mkFailover 3 30000 true 60000.
Notation target := (string * string)%type.
(** [None]: the ValueError about an empty sequence. *)
Record chain : Type := mkChain { sequence : list target; chain_config : FailoverConfig }.
Definition new_chain (fallback_sequence : list target) (c : FailoverConfig) : option chain :=
  match fallback_sequence with [] => None | _ => Some (mkChain fallback_sequence c) end.
Definition health_key (t : target) : string := ("chain:" ++ t.1 ++ ":" ++ t.2)%string.
(** [_default_model] *)
Definition default_model (provider : string) (c : chain) : string :=
  default "unknown" (snd <$> head (filter (λ t, t.1 = provider) (sequence c))).
Definition model_or_default (provider : string) (model : option string) (c : chain) : string :=
  match model with Some m => if truthy m then m else default_model provider c | None => default_model provider c end.

(** * Health *)

Definition is_provider_healthy (now : Z) (provider : string) (model : option string) (c : chain) (s : health_store) : bool :=
  match model with
  | Some m => is_healthy now (health_key (provider, m)) s
  | None =>
      match filter (λ t, t.1 = provider) (sequence c) with
      | [] => true
      | tracked => existsb (λ t, is_healthy now (health_key t) s) tracked
      end
  end.
Definition mark_provider_failed (now : Z) (provider : string) (model : option string) (c : chain) (s : health_store) : health_store :=
  record_failure now (health_key (provider, model_or_default provider model c)) s.
Definition mark_provider_recovered (now : Z) (provider : string) (model : option string) (c : chain) (s : health_store) : health_store :=
  record_success now (health_key (provider, model_or_default provider model c)) s.
Definition get_healthy_sequence (now : Z) (c : chain) (s : health_store) : list target :=
  if track_provider_health (chain_config c)
  then filter (λ t, is_healthy now (health_key t) s = true) (sequence c)
  else sequence c.
Record ProviderHealth : Type := mkView {
  view_provider : string;
  view_model : string;
  view_failures : Z;
  view_last_failure_at : option Z;
  view_is_healthy : bool;
}.
Definition get_provider_health (now : Z) (provider : string) (model : option string) (c : chain) (s : health_store)
    : health_store * option ProviderHealth :=
  let m := model_or_default provider model c in
  if bool_decide ((provider, m) ∈ sequence c) then
    let '(s', h) := get (health_key (provider, m)) s in
    (s', Some (mkView provider m (consecutive_failures h) (last_failure_at h) (is_healthy now (health_key (provider, m)) s')))
  else (s, None).

(** * [execute] *)

Section execute.
Context {A : Type}.
(** An attempt: when its time budget is checked, how long it takes, what the
    provider answers, and what others do to the health records meanwhile. *)
Record attempt_env : Type := mkAttempt {
  checked_at : Z;
  duration : Z;
  answer : A + exn;
  others : health_store → health_store;
}.
Record attempt : Type := mkEntry { at_target : target; at_error : option exn; duration_ms : Z }.
Record FailoverResult : Type := mkResult {
  success : bool;
  used : target;
  attempts : list attempt;
  response : option A;
}.
(** The loop, from the attempts that are left; [start] is the time it began. *)
Fixpoint attempt_loop (c : chain) (start : Z) (envs : list attempt_env) (targets : list target) (log : list attempt)
    (s : health_store) {struct targets} : health_store * FailoverResult :=
  let exhausted := mkResult false (default ("", "") (at_target <$> last log)) log None in
  match targets, envs with
  | t :: targets', e :: envs' =>
      if bool_decide (failover_timeout_ms (chain_config c) <= checked_at e - start)%Z then (s, exhausted)
      else
        let now := (checked_at e + duration e)%Z in
        let s := others e s in
        let track (f : health_store → health_store) := if track_provider_health (chain_config c) then f s else s in
        match answer e with
        | inl r =>
            (track (mark_provider_recovered now t.1 (Some t.2) c),
             mkResult true t (log ++ [mkEntry t None (duration e)]) (Some r))
        | inr exc =>
            let log' := log ++ [mkEntry t (Some exc) (duration e)] in
            let s' := track (mark_provider_failed now t.1 (Some t.2) c) in
            if is_failover_worthy exc then attempt_loop c start envs' targets' log' s'
            else (s', mkResult false t log' None)
        end
  | _, _ => (s, exhausted)
  end.
(** [start] is also the instant at which health is looked at. *)
Definition targets_of (start : Z) (c : chain) (s : health_store) : list target :=
  let healthy := match get_healthy_sequence start c s with [] => sequence c | l => l end in
  take (Z.to_nat (max_failover_attempts (chain_config c))) healthy.
Definition execute (start : Z) (envs : list attempt_env) (c : chain) (s : health_store) : health_store * FailoverResult :=
  attempt_loop c start envs (targets_of start c s) [] s.
End execute.
Arguments attempt_env A : clear implicits.
Arguments FailoverResult A : clear implicits.

(** * What it does *)

Section spec.
Context {A : Type}.
Implicit Types (envs : list (attempt_env A)).
(** The error of an attempt is worth another provider. *)
Definition worthy (a : attempt) : Prop := ∃ e, at_error a = Some e ∧ is_failover_worthy e = true.
(** Some environment for every attempt. *)
Definition enough envs (targets : list target) : Prop := length targets ≤ length envs.

(** The time budget was spent before a target could be tried. *)
Definition out_of_time (c : chain) (start : Z) envs (tried : list attempt) : Prop :=
  ∃ e, envs !! length tried = Some e ∧ (failover_timeout_ms (chain_config c) <= checked_at e - start)%Z.
(** What a run says: the targets tried are the first ones, in order; all but
    the last failed with errors worth another provider; it ended with an
    answer, with an error that is not, without targets or without time. *)
Inductive ended (c : chain) (start : Z) envs (targets : list target) : list attempt → FailoverResult A → Prop :=
  | ended_success before a rest r :
      targets = (at_target <$> before) ++ at_target a :: rest → Forall worthy before → at_error a = None →
      ended c start envs targets (before ++ [a]) (mkResult true (at_target a) (before ++ [a]) (Some r))
  | ended_unworthy before a rest exc :
      targets = (at_target <$> before) ++ at_target a :: rest → Forall worthy before → at_error a = Some exc →
      is_failover_worthy exc = false →
      ended c start envs targets (before ++ [a]) (mkResult false (at_target a) (before ++ [a]) None)
  | ended_exhausted tried rest :
      targets = (at_target <$> tried) ++ rest → Forall worthy tried → rest = [] ∨ out_of_time c start envs tried →
      ended c start envs targets tried (mkResult false (default ("", "") (at_target <$> last tried)) tried None).

(** The result of the loop, without the attempts logged before it. *)
Definition prepend (log : list attempt) (tried : list attempt) (r : FailoverResult A) : FailoverResult A :=
  mkResult (success r) (default (used r) (match tried with [] => at_target <$> last log | _ => None end)) (log ++ tried) (response r).
Lemma loop_ended c start envs targets log s : enough envs targets →
  ∃ tried r, ended c start envs targets tried r ∧ (attempt_loop c start envs targets log s).2 = prepend log tried r.
Proof.
  revert envs log s. induction targets as [|t targets IH]; intros envs log s Hn.
  - exists [], (mkResult false ("", "") [] None). split.
    { apply (ended_exhausted c start envs [] [] []); [reflexivity|constructor|by left]. }
    cbn. unfold prepend. cbn. rewrite app_nil_r. by destruct (last log).
  - destruct envs as [|e envs]; [unfold enough in Hn; cbn in Hn; lia|]. cbn [attempt_loop].
    case_bool_decide as Htime.
    { exists [], (mkResult false ("", "") [] None). split.
      - apply (ended_exhausted c start _ _ [] (t :: targets)); [reflexivity|constructor|right]. by exists e.
      - cbn. unfold prepend. cbn. rewrite app_nil_r. by destruct (last log). }
    destruct (answer e) as [r|exc] eqn:Ha.
    { exists [mkEntry t None (duration e)], (mkResult true t [mkEntry t None (duration e)] (Some r)). split; [|done].
      apply (ended_success c start _ _ [] (mkEntry t None (duration e)) targets); [reflexivity|constructor|reflexivity]. }
    destruct (is_failover_worthy exc) eqn:Hw.
    + destruct (IH envs (log ++ [mkEntry t (Some exc) (duration e)])
        (if track_provider_health (chain_config c)
         then mark_provider_failed (checked_at e + duration e) t.1 (Some t.2) c (others e s) else others e s))
        as (tried & r & Hend & ->); [unfold enough in *; cbn in *; lia|].
      set (a := mkEntry t (Some exc) (duration e)). assert (worthy a) as Hwa by by exists exc.
      destruct Hend as [before x rest r Ht Hb Hx|before x rest exc' Ht Hb Hx Hx'|tried rest Ht Hb Hrest].
      * exists (a :: before ++ [x]), (mkResult true (at_target x) (a :: before ++ [x]) (Some r)). split.
        -- apply (ended_success c start _ _ (a :: before) x rest); [by rewrite Ht|by constructor|done].
        -- unfold prepend. cbn. rewrite <- app_assoc. by destruct before.
      * exists (a :: before ++ [x]), (mkResult false (at_target x) (a :: before ++ [x]) None). split.
        -- apply (ended_unworthy c start _ _ (a :: before) x rest exc'); [by rewrite Ht|by constructor|done..].
        -- unfold prepend. cbn. rewrite <- app_assoc. by destruct before.
      * exists (a :: tried), (mkResult false (default ("", "") (at_target <$> last (a :: tried))) (a :: tried) None). split.
        -- apply (ended_exhausted c start _ _ (a :: tried) rest); [by rewrite Ht|by constructor|].
           destruct Hrest as [?|(e' & He & ?)]; [by left|right]. by exists e'.
        -- unfold prepend. cbn [success used response]. rewrite <- app_assoc. f_equal.
           destruct tried as [|y tried]; [by rewrite last_snoc|]. done.
    + exists [mkEntry t (Some exc) (duration e)], (mkResult false t [mkEntry t (Some exc) (duration e)] None). split; [|done].
      apply (ended_unworthy c start _ _ [] (mkEntry t (Some exc) (duration e)) targets exc); [reflexivity|constructor|reflexivity|done].
Qed.
(** What the records say of the target tried last. *)
Definition marked (a : attempt) (s : health_store) : Prop :=
  match at_error a with
  | Some _ => ∃ now, ∀ t, is_healthy t (health_key (at_target a)) s = bool_decide (now + cooldown_ms s <= t)%Z
  | None => ∀ t, is_healthy t (health_key (at_target a)) s = true
  end.
Lemma mark_failed_marked now t c s exc d : t.2 ≠ "" →
  marked (mkEntry t (Some exc) d) (mark_provider_failed now t.1 (Some t.2) c s).
Proof.
  intros Hm. unfold marked, mark_provider_failed, model_or_default. cbn [at_error at_target].
  rewrite (proj2 (truthy_true t.2) Hm). exists now. intros t'. rewrite <- surjective_pairing.
  rewrite record_failure_healthy, decide_True by done. done.
Qed.
Lemma mark_recovered_marked now t c s d : t.2 ≠ "" →
  marked (mkEntry t None d) (mark_provider_recovered now t.1 (Some t.2) c s).
Proof.
  intros Hm t'. unfold mark_provider_recovered, model_or_default. cbn [at_target].
  rewrite (proj2 (truthy_true t.2) Hm), <- surjective_pairing. unfold is_healthy, record_success. cbn.
  by rewrite lookup_insert_eq.
Qed.
Lemma loop_marked c start envs targets log s : track_provider_health (chain_config c) = true →
  Forall (λ t, t.2 ≠ "") targets →
  let sr := attempt_loop c start envs targets log s in
  (attempts sr.2 = log ∧ sr.1 = s) ∨ ∃ a, last (attempts sr.2) = Some a ∧ marked a sr.1.
Proof.
  intros Ht. revert envs log s. induction targets as [|t targets IH]; intros envs log s Hm; [by left|].
  apply Forall_cons in Hm as [Hm Hms]. destruct envs as [|e envs]; [by left|]. cbn [attempt_loop].
  case_bool_decide; [by left|]. rewrite Ht. destruct (answer e) as [r|exc]; cbn [fst snd attempts].
  - right. exists (mkEntry t None (duration e)). rewrite last_snoc. split; [done|]. by apply mark_recovered_marked.
  - pose proof (mark_failed_marked (checked_at e + duration e) t c (others e s) exc (duration e) Hm) as Hmark.
    destruct (is_failover_worthy exc).
    + destruct (IH envs (log ++ [mkEntry t (Some exc) (duration e)])
        (mark_provider_failed (checked_at e + duration e) t.1 (Some t.2) c (others e s)) Hms) as [[E1 E2]|H1]; [|by right].
      right. rewrite E1, E2, last_snoc. by eexists.
    + right. cbn [fst snd attempts]. rewrite last_snoc. by eexists.
Qed.
Lemma ended_attempts c start envs targets tried r : ended c start envs targets tried r → attempts r = tried.
Proof. by destruct 1. Qed.
Lemma ended_prefix c start envs targets tried r : ended c start envs targets tried r → length tried ≤ length targets.
Proof.
  destruct 1 as [before a rest r -> _ _|before a rest exc -> _ _ _|tried rest -> _ _];
    rewrite ?length_app, ?length_cons, ?length_fmap; cbn; lia.
Qed.

(** A failover chain tries the first of the healthy targets, or of all when none is, in
    order and at most as many as configured; all but the last one tried failed
    with errors worth another provider, and it ends with an answer, with an
    error that is not worth one, with no targets left, or out of time.  With
    health tracking, the target that answered is healthy afterwards, and the
    one that failed last rests for the cooldown, also when the error was the
    request's own and not the provider's. *)
Theorem failover_spec c start envs s :
  enough envs (targets_of start c s) →
  let sr := execute start envs c s in
  ended c start envs (targets_of start c s) (attempts sr.2) sr.2 ∧
  length (attempts sr.2) ≤ Z.to_nat (max_failover_attempts (chain_config c)) ∧
  (track_provider_health (chain_config c) = true → Forall (λ t, t.2 ≠ "") (sequence c) →
   ∀ a, last (attempts sr.2) = Some a → marked a sr.1).
Proof.
  intros Hn sr. destruct (loop_ended c start envs (targets_of start c s) [] s Hn) as (tried & r & Hend & E).
  assert (sr.2 = r) as Er.
  { unfold sr, execute. rewrite E. pose proof (ended_attempts _ _ _ _ _ _ Hend) as Ha. unfold prepend. rewrite <- Ha.
    destruct r as [ok u l o]. cbn. by destruct l. }
  rewrite Er. pose proof (ended_attempts _ _ _ _ _ _ Hend) as Ha. rewrite Ha. split; [done|]. split.
  - apply ended_prefix in Hend. pose proof (firstn_le_length (Z.to_nat (max_failover_attempts (chain_config c)))
      (match get_healthy_sequence start c s with [] => sequence c | l => l end)) as H. unfold targets_of in Hend. lia.
  - intros Ht Hm a Hl. assert (Forall (λ t, t.2 ≠ "") (targets_of start c s)) as Hms.
    { unfold targets_of. apply Forall_take. unfold get_healthy_sequence. rewrite Ht.
      destruct (filter _ (sequence c)) as [|t l] eqn:Ef; [done|]. rewrite <- Ef. apply Forall_forall.
      intros t' [_ Hin]%list_elem_of_filter. rewrite Forall_forall in Hm. by apply Hm. }
    pose proof (loop_marked c start envs (targets_of start c s) [] s Ht Hms) as [[H1 H2]|(a' & H1 & H2)].
    + fold (execute start envs c s) in H1. fold sr in H1. rewrite Er, Ha in H1. rewrite H1 in Hl. done.
    + fold (execute start envs c s) in H1, H2. fold sr in H1, H2. rewrite Er, Ha, Hl in H1. injection H1 as <-. done.
Qed.
End spec.

(** * A chain *)

Definition two_providers : chain := mkChain [("gemini", "flash"); ("openai", "gpt-4o"); ("deepseek", "chat")] default_config.
Definition rate_limited : exn := plain_error "429 rate limit".
Definition too_long : exn := plain_error "context length exceeded".
Definition failing_calls : list (attempt_env string) :=
  [mkAttempt 0 900 (inr rate_limited) id; mkAttempt 901 50 (inr too_long) id; mkAttempt 1000 10 (inl "hello") id].
Lemma failover_spec_witness :
  at_target <$> attempts (execute 0 failing_calls two_providers (new_store 60000)).2 = [("gemini", "flash"); ("openai", "gpt-4o")] ∧
  marked (mkEntry ("openai", "gpt-4o") (Some too_long) 50) (execute 0 failing_calls two_providers (new_store 60000)).1.
Proof.
  split; [by vm_compute|].
  destruct (failover_spec two_providers 0 failing_calls (new_store 60000)) as (_ & _ & H).
  - unfold enough. vm_compute. lia.
  - apply H; [reflexivity| |by vm_compute]. by repeat constructor.
Defined.
