(* ===== verification/PooledClient.v ===== *)
(** The pool of LLM models of a tenant, and the client that spreads its calls
    over it.

    Sources: src/src/infrastructure/llm/model_pool.py,
    src/src/infrastructure/llm/litellm/pooled_llm_client.py and the model lists
    of src/src/domain/llm_providers/models.py.  The provider rows, the model
    catalogue, the broker of "auto", the clients of the providers and their
    answers are parameters, with the exceptions they raise; between the steps
    of a call other calls change the balancer at will.  The cancellation of a
    call is left out. *)

From Stdlib Require Import QArith.
From S2P Require Import Prelude PyText LlmErrors LoadBalancer.
From Stdlib Require Import Ascii.

Open Scope string_scope.
Open Scope list_scope.
Open Scope nat_scope.

(** * Providers and their models *)

Record ProviderConfig : Type := mkProvider {
  pc_id : string;
  provider_type : string;
  llm_model : string;
  llm_small_model : option string;
  secondary_models : list string;
  allowed_models : list string;
  blocked_models : list string;
  model_tier : option ModelTier;
  pool_weight : Q;
}.
Definition starts_with (prefix s : list ascii) : bool := match strip_lit prefix s with Some _ => true | None => false end.
Definition is_model_allowed (p : ProviderConfig) (model_id : string) : bool :=
  let m := lower_text model_id in
  if existsb (λ b, starts_with (lower_text b) m) (blocked_models p) then false
  else match allowed_models p with
       | [] => true
       | l => existsb (λ a, starts_with (lower_text a) m) l
       end.

Record PoolFilter : Type := mkFilter {
  tier : option ModelTier;
  require_vision : bool;
  require_tools : bool;
  exclude_keys : list string;
}.

Section pool.
(** The catalogue: whether a model it knows is deprecated, and sees images. *)
Context (get_model_fuzzy : string → option (bool * bool)).

Definition maybe_candidate (p : ProviderConfig) (raw_model : string) (tier_override : option ModelTier) (seen : list string)
    : list string * list CandidateModel :=
  let name := strip raw_model in
  if negb (truthy name) || bool_decide (name ∈ seen) || negb (is_model_allowed p name) then (seen, [])
  else
    let meta := get_model_fuzzy name in
    match meta with
    | Some (true, _) => (seen, [])
    | _ =>
        (name :: seen,
         [mkCandidate (pc_id p) (provider_type p) name (match tier_override with Some t => Some t | None => model_tier p end)
            (if Qeq_bool (pool_weight p) 0 then 1 else pool_weight p) (from_option snd false meta) true])
    end.
Definition expand_provider (p : ProviderConfig) : list CandidateModel :=
  let '(seen, out) := if truthy (llm_model p) then maybe_candidate p (llm_model p) None [] else ([], []) in
  let '(seen, out) :=
    match llm_small_model p with
    | Some m =>
        if truthy m && negb (bool_decide (m = llm_model p)) then
          let '(seen, more) := maybe_candidate p m (Some TierSmall) seen in (seen, out ++ more)
        else (seen, out)
    | None => (seen, out)
    end in
  (foldl (λ so m, let '(seen, more) := maybe_candidate p m None so.1 in (seen, so.2 ++ more)) (seen, out)
     (secondary_models p)).2.
Definition passes (f : PoolFilter) (c : CandidateModel) : bool :=
  negb (bool_decide (candidate_key c ∈ exclude_keys f)) &&
  negb (require_vision f && negb (supports_vision c)) &&
  negb (require_tools f && negb (supports_tools c)) &&
  negb (match tier f, cand_tier c with Some t, Some u => negb (bool_decide (u = t)) | _, _ => false end).
Definition relaxed (f : PoolFilter) : PoolFilter := mkFilter None (require_vision f) (require_tools f) (exclude_keys f).
(** [list_candidates], for the provider rows it fetched. *)
Definition list_candidates (providers : list ProviderConfig) (f : PoolFilter) : list CandidateModel :=
  let eligible f := filter (λ c, passes f c = true) (p ← providers; expand_provider p) in
  match eligible f, tier f with
  | [], Some _ => eligible (relaxed f)
  | l, _ => l
  end.

(** The cache of provider rows by tenant; instants in milliseconds. *)
Definition CACHE_TTL_SECONDS : Z := 60.
Notation provider_cache := (gmap string (list ProviderConfig * Z)).
Definition tenant_key (tenant_id : option string) : string :=
  match tenant_id with Some t => if truthy t then t else "default" | None => "default" end.
Definition fetch_providers (now : Z) (fresh_rows : list ProviderConfig) (tenant_id : option string) (c : provider_cache)
    : provider_cache * list ProviderConfig :=
  match c !! tenant_key tenant_id with
  | Some (rows, at_) =>
      if bool_decide (now - at_ <= CACHE_TTL_SECONDS * 1000)%Z then (c, rows)
      else (<[tenant_key tenant_id := (fresh_rows, now)]> c, fresh_rows)
  | None => (<[tenant_key tenant_id := (fresh_rows, now)]> c, fresh_rows)
  end.
(** [invalidate] pops the tenant's own id. *)
Definition invalidate (tenant_id : option string) (c : provider_cache) : provider_cache :=
  match tenant_id with None => ∅ | Some t => base.delete t c end.

(** * The client *)

Inductive ModelSize : Set := SizeSmall | SizeMedium | SizeLarge.
Definition model_size_to_tier (s : ModelSize) : option ModelTier :=
  match s with SizeSmall => Some TierSmall | SizeLarge => Some TierLarge | SizeMedium => None end.
(** The [model] argument, [None] when it is not a text. *)
Definition normalize_model_arg (m : option string) : option string :=
  bare ← strip <$> m;
  if truthy bare then
    Some (if bool_decide (lower_text bare = String.list_ascii_of_string "auto") then "auto" else bare)
  else None.
Definition DEFAULT_MAX_ATTEMPTS : Z := 3.

Section client.
Context {Response : Type}.
(** What a call meets at an attempt: the provider rows and the broker's verdict
    on "auto", or what fetching them raises; what others did to the balancer
    before the pick and during the call; the clock, the random choice; what
    making the client of a candidate raises, unless it is there or is made;
    the provider's answer and how long it took. *)
Record call_env : Type := mkCall {
  rows : result exn (list ProviderConfig);
  verdict : result exn PoolFilter;
  before : balancer → balancer;
  during : balancer → balancer;
  picked_at : Z;
  choice : nat;
  client_error : CandidateModel → option exn;
  answer : CandidateModel → Response + exn;
  elapsed_ms : Q;
  ended_at : Z;
}.
Record request : Type := mkRequest { has_tools : bool; model_size : ModelSize }.
Implicit Types (e : call_env).

Definition resolve_filter e (r : request) (model_arg : option string) (excluded : list string) : result exn PoolFilter :=
  if bool_decide (normalize_model_arg model_arg = Some "auto")
  then v ← verdict e; Ok (mkFilter (tier v) (require_vision v) (require_tools v) excluded)
  else Ok (mkFilter (model_size_to_tier (model_size r)) false (has_tools r) excluded).
Definition candidates_for e (r : request) (model_arg : option string) (excluded : list string)
    : result exn (list CandidateModel) :=
  pool_filter ← resolve_filter e r model_arg excluded;
  ps ← rows e;
  let candidates := list_candidates ps pool_filter in
  Ok match normalize_model_arg model_arg with
     | Some m => if bool_decide (m = "auto") then candidates else filter (λ c, model_name c = m) candidates
     | None => candidates
     end.
(** [_pick_candidate], with the record that reading the statistics puts in. *)
Definition pick_candidate e (r : request) (model_arg : option string) (excluded : list string) (b : balancer)
    : result exn (balancer * option CandidateModel) :=
  candidates ← candidates_for e r model_arg excluded;
  Ok match pick (picked_at e) (choice e) candidates b with
     | Some d => ((stats (chosen d) b).1, Some (chosen d))
     | None => (b, None)
     end.
(** [Raised]: the exception of a pick or of making a client, which no handler
    sees. *)
Inductive outcome : Type :=
  | Answered (x : Response) (by_ : CandidateModel) (tries : nat)
  | Failed (e : exn)
  | Raised (e : exn)
  | NoCandidate.
(** A call made: to whom, and its error. *)
Notation call := (CandidateModel * option exn)%type.
(** [generate], from an attempt on; [envs] has an element for each attempt left. *)
Fixpoint attempts (r : request) (model_arg : option string) (envs : list call_env) (n : nat) (excluded : list string)
    (last_error : option exn) (log : list call) (b : balancer) : balancer * list call * outcome :=
  let surrender b := (b, log, from_option Failed NoCandidate last_error) in
  match envs with
  | [] => surrender b
  | e :: envs' =>
      match pick_candidate e r model_arg excluded (before e b) with
      | Err exc => (before e b, log, Raised exc)
      | Ok (b, None) => surrender b
      | Ok (b, Some c) =>
          match client_error e c with
          | Some exc => (b, log, Raised exc)
          | None =>
              let b := track_exit (elapsed_ms e) c (during e (track_enter c b)) in
              match answer e c with
              | inl x => (balancer_success (ended_at e) c b, log ++ [(c, None)], Answered x c (S n))
              | inr exc =>
                  if is_failover_worthy exc then
                    attempts r None envs' (S n) (candidate_key c :: excluded) (Some exc) (log ++ [(c, Some exc)])
                      (balancer_failure (ended_at e) c b)
                  else (b, log ++ [(c, Some exc)], Failed exc)
              end
          end
      end
  end.
Definition generate (max_attempts : Z) (r : request) (model_arg : option string) (envs : list call_env) (b : balancer)
    : balancer * list call * outcome :=
  attempts r model_arg (take (Z.to_nat (Z.max 1 max_attempts)) envs) 0 [] None [] b.
(** [generate_stream]: one candidate; a failure in mid-stream is raised, after
    what was received, and so are those of the pick and of making the client. *)
Definition generate_stream (r : request) (model_arg : option string) e (b : balancer)
    : balancer * result exn (option (CandidateModel * (Response + exn))) :=
  match pick_candidate e r model_arg [] (before e b) with
  | Err exc => (before e b, Err exc)
  | Ok (b, None) => (b, Ok None)
  | Ok (b, Some c) =>
      match client_error e c with
      | Some exc => (b, Err exc)
      | None =>
          let b := during e (track_enter c b) in
          let b := match answer e c with
                   | inl _ => balancer_success (ended_at e) c b
                   | inr exc => if is_failover_worthy exc then balancer_failure (ended_at e) c b else b
                   end in
          (track_exit (elapsed_ms e) c b, Ok (Some (c, answer e c)))
      end
  end.
End client.
End pool.
Arguments call_env Response : clear implicits.
Arguments outcome Response : clear implicits.

(** * What a call does *)

Section spec.
Context (meta : string → option (bool * bool)) {Response : Type}.
Implicit Types (e : call_env Response) (r : request) (b : balancer).
Notation call := (CandidateModel * option exn)%type.

Lemma list_candidates_passes ps f c : c ∈ list_candidates meta ps f → candidate_key c ∉ exclude_keys f.
Proof.
  assert (∀ f', exclude_keys f' = exclude_keys f →
    c ∈ filter (λ c, passes f' c = true) (p ← ps; expand_provider meta p) → candidate_key c ∉ exclude_keys f) as H.
  { intros f' E [Hp _]%list_elem_of_filter. unfold passes in Hp. rewrite !andb_true_iff, negb_true_iff in Hp.
    rewrite E in Hp. destruct Hp as [[[Hp _] _] _]. by apply bool_decide_eq_false in Hp. }
  unfold list_candidates. destruct (filter _ _) as [|d l] eqn:E.
  - destruct (tier f); [by apply H|by intros ?%elem_of_nil].
  - rewrite <- E. by apply H.
Qed.
(** The candidates of an attempt. *)
Definition offered e r marg excluded (c : CandidateModel) : Prop :=
  ∃ cs, candidates_for meta e r marg excluded = Ok cs ∧ c ∈ cs.
Lemma candidates_not_excluded e r marg excluded c : offered e r marg excluded c → candidate_key c ∉ excluded.
Proof.
  intros (cs & Hcs & Hc). unfold candidates_for in Hcs. apply result_bind_ok in Hcs as (f & Hf & Hcs).
  apply result_bind_ok in Hcs as (ps & _ & [= <-]).
  assert (exclude_keys f = excluded) as <-.
  { unfold resolve_filter in Hf. case_bool_decide; [apply result_bind_ok in Hf as (v & _ & Hf)|]; by injection Hf as <-. }
  apply (list_candidates_passes ps). destruct (normalize_model_arg marg); [|done].
  case_bool_decide; [done|]. by apply list_elem_of_filter in Hc as [_ Hc].
Qed.
Lemma pick_candidate_spec e r marg excluded b :
  match pick_candidate meta e r marg excluded b with
  | Err exc => candidates_for meta e r marg excluded = Err exc
  | Ok (_, None) => candidates_for meta e r marg excluded = Ok []
  | Ok (_, Some c) => offered e r marg excluded c
  end.
Proof.
  unfold pick_candidate, offered. destruct (candidates_for meta e r marg excluded) as [cs|exc]; cbn; [|done].
  destruct (pick _ _ _ _) as [d|] eqn:E; [|by apply pick_None in E as ->].
  apply pick_Some in E as [[Hc _] _]. eauto.
Qed.

(** The call and its answer: it goes to a candidate of its attempt that has
    not been tried, whose client is there; only the first attempt knows the
    model asked for; all calls but the last failed with errors worth another
    candidate. *)
Definition answered_by e (c : CandidateModel) (err : option exn) : Prop :=
  client_error e c = None ∧ match answer e c with inl _ => err = None | inr exc => err = Some exc end.
Fixpoint calls_ok r (marg : option string) (envs : list (call_env Response)) (excluded : list string) (calls : list call)
    {struct calls} : Prop :=
  match calls, envs with
  | [], _ => True
  | (c, err) :: rest, e :: envs' =>
      offered e r marg excluded c ∧ answered_by e c err ∧
      (rest ≠ [] → ∃ exc, err = Some exc ∧ is_failover_worthy exc = true) ∧
      calls_ok r None envs' (candidate_key c :: excluded) rest
  | _, [] => False
  end.
(** What the call ends as, after [calls]. *)
Definition outcome_ok (calls : list call) (o : outcome Response) : Prop :=
  match o with
  | Answered _ c tries => last calls = Some (c, None) ∧ tries = length calls
  | Failed exc => ∃ c, last calls = Some (c, Some exc)
  | Raised _ => ∀ c err, last calls = Some (c, err) → ∃ exc, err = Some exc ∧ is_failover_worthy exc = true
  | NoCandidate => calls = []
  end.
(** Nothing but this ends a call that has an attempt left and whose calls all
    failed with errors worth another candidate: the pick raises, or nobody is
    left, or the client of whoever was picked cannot be made. *)
Definition nobody_to_call e r marg excluded (o : outcome Response) : Prop :=
  match candidates_for meta e r marg excluded with
  | Err exc => o = Raised exc
  | Ok [] => ∀ exc, o ≠ Raised exc
  | Ok cs => ∃ c exc, c ∈ cs ∧ client_error e c = Some exc ∧ o = Raised exc
  end.
Definition worth_another (calls : list call) : Prop :=
  ∀ c err, last calls = Some (c, err) → ∃ exc, err = Some exc ∧ is_failover_worthy exc = true.
Definition keys_of (calls : list call) : list string := candidate_key ∘ fst <$> calls.
(** [envs] and [excluded] are those of the first of [calls]. *)
Definition goes_on r marg (envs : list (call_env Response)) excluded (calls : list call) (o : outcome Response) : Prop :=
  worth_another calls →
  match envs !! length calls with
  | Some e => nobody_to_call e r (match calls with [] => marg | _ => None end) (reverse (keys_of calls) ++ excluded) o
  | None => ∀ exc, o ≠ Raised exc
  end.

Lemma goes_on_cons r marg e envs excluded c err calls o :
  goes_on r None envs (candidate_key c :: excluded) calls o →
  goes_on r marg (e :: envs) excluded ((c, err) :: calls) o.
Proof.
  intros H Hw. cbn [length]. change ((e :: envs) !! S (length calls)) with (envs !! length calls).
  assert (worth_another calls) as Hw'.
  { intros c' err' Hl. apply (Hw c' err'). by destruct calls. }
  specialize (H Hw'). destruct (envs !! length calls); [|done].
  unfold keys_of in *. rewrite fmap_cons, reverse_cons, <-app_assoc.
  by destruct calls.
Qed.
Lemma attempts_spec r marg envs excluded last_error log b :
  (match last_error with None => log = [] | Some exc => ∃ c, last log = Some (c, Some exc) ∧ is_failover_worthy exc = true end) →
  ∃ calls, (attempts meta r marg envs (length log) excluded last_error log b).1.2 = log ++ calls ∧
    calls_ok r marg envs excluded calls ∧
    outcome_ok (log ++ calls) (attempts meta r marg envs (length log) excluded last_error log b).2 ∧
    goes_on r marg envs excluded calls (attempts meta r marg envs (length log) excluded last_error log b).2.
Proof.
  assert (∀ (log : list call) (last_error : option exn),
    match last_error with None => log = [] | Some exc => ∃ c, last log = Some (c, Some exc) ∧ is_failover_worthy exc = true end →
    outcome_ok log (from_option Failed NoCandidate last_error) ∧ worth_another log) as Hstop.
  { intros l [exc|] H; cbn; [destruct H as (c & Hc & Hw)|subst; by split]. split; [eauto|].
    intros c' err' E. rewrite Hc in E. injection E as <- <-. eauto. }
  revert marg excluded last_error log b. induction envs as [|e envs IH]; intros marg excluded last_error log b Hl; cbn [attempts];
    destruct (Hstop log last_error Hl) as [Ho Hw].
  { exists []. rewrite app_nil_r. split_and!; [done|done|done|]. intros _ exc. by destruct last_error. }
  pose proof (pick_candidate_spec e r marg excluded (before e b)) as Hp.
  destruct (pick_candidate meta e r marg excluded (before e b)) as [[b1 [c|]]|exc].
  2:{ exists []. rewrite app_nil_r. split_and!; [done|done|done|]. intros _.
      cbn. unfold nobody_to_call. rewrite Hp. intros exc. by destruct last_error. }
  2:{ exists []. rewrite app_nil_r. split_and!; [done|done|exact Hw|]. intros _.
      cbn. unfold nobody_to_call. by rewrite Hp. }
  destruct (client_error e c) as [exc|] eqn:Hc.
  { exists []. rewrite app_nil_r. split_and!; [done|done|exact Hw|]. intros _.
    cbn. unfold nobody_to_call. destruct Hp as (cs & -> & Hin).
    destruct cs as [|c' cs]; [by apply elem_of_nil in Hin|]. by exists c, exc. }
  assert (∀ x, answer e c = x → answered_by e c (match x with inl _ => None | inr exc => Some exc end)) as Hans.
  { intros x <-. split; [done|]. by destruct (answer e c). }
  destruct (answer e c) as [x|exc]; specialize (Hans _ eq_refl); cbn in Hans.
  { exists [(c, None)]. split; [done|]. split_and!; [split_and!; [done|done|by intros []|done]| |].
    - cbn [outcome_ok snd]. rewrite last_snoc, length_app. cbn. split; [done|lia].
    - intros Hw'. by destruct (Hw' c None eq_refl) as (? & [=] & _). }
  destruct (is_failover_worthy exc) eqn:Hwy.
  - destruct (IH None (candidate_key c :: excluded) (Some exc) (log ++ [(c, Some exc)])
      (balancer_failure (ended_at e) c (track_exit (elapsed_ms e) c (during e (track_enter c b1)))))
      as (calls & H1 & H2 & H3 & H4); [exists c; by rewrite last_snoc|].
    rewrite length_app, Nat.add_comm in H1, H3, H4. cbn [length Nat.add] in H1, H3, H4.
    exists ((c, Some exc) :: calls). rewrite <- !app_assoc in *. cbn [app] in *. split_and!; [done| |done|].
    + split_and!; [done|done|eauto|done].
    + apply goes_on_cons; eauto.
  - exists [(c, Some exc)]. split_and!; [done|split_and!; [done|done|by intros []|done]|exists c; by rewrite last_snoc|].
    intros Hw'. destruct (Hw' c (Some exc) eq_refl) as (? & [= <-] & ?). congruence.
Qed.
Lemma calls_ok_keys r marg envs excluded calls : calls_ok r marg envs excluded calls →
  NoDup (keys_of calls) ∧ (∀ k, k ∈ keys_of calls → k ∉ excluded) ∧ length calls ≤ length envs.
Proof.
  revert marg envs excluded. induction calls as [|[c err] calls IH]; intros marg envs excluded.
  - intros _. split; [constructor|]. split; [by intros k ?%elem_of_nil|cbn; lia].
  - destruct envs as [|e envs]; [done|]. intros (Hc & _ & _ & Hrest). apply candidates_not_excluded in Hc.
    destruct (IH _ _ _ Hrest) as (H1 & H2 & H3). cbn. split; [|split; [|lia]].
    + constructor; [|done]. intros Hin. by apply (H2 _ Hin), list_elem_of_here.
    + intros k [->|Hk]%elem_of_cons; [done|]. intros Hex. by apply (H2 k Hk), list_elem_of_further.
Qed.
Lemma pinned_candidates e r arg m excluded c : normalize_model_arg (Some arg) = Some m → m ≠ "auto" →
  offered e r (Some arg) excluded c → model_name c = m.
Proof.
  intros Hm Hne (cs & Hcs & Hc). unfold candidates_for in Hcs. apply result_bind_ok in Hcs as (f & _ & Hcs).
  apply result_bind_ok in Hcs as (ps & _ & [= <-]). rewrite Hm, bool_decide_eq_false_2 in Hc by done.
  by apply list_elem_of_filter in Hc as [? _].
Qed.

(** C34. Whatever other calls do to the balancer meanwhile, a call tries
    distinct candidates of its tenant's pool, at most as many as configured,
    and stops at an answer and at an error not worth another candidate.  After
    an error that is worth one, and at the start, it goes on as long as an
    attempt and a candidate are left; only an exception of the pick (the
    provider rows, the broker) or of making the picked candidate's client ends
    it before, and leaves [generate] as it is, without counting against the
    candidate.  Otherwise the call ends as its last attempt did.  A model
    asked for by name is what the first attempt uses.  The next attempts do
    not know it: as soon as the pool has other models left and none of that
    name, the second call goes to a model that was not asked for. *)
Theorem pooled_call_spec max_attempts r marg envs b :
  let '(_, log, o) := generate meta max_attempts r marg envs b in
  let usable := take (Z.to_nat (Z.max 1 max_attempts)) envs in
  calls_ok r marg usable [] log ∧ outcome_ok log o ∧ goes_on r marg usable [] log o ∧
  NoDup (keys_of log) ∧ (Z.of_nat (length log) <= Z.max 1 max_attempts)%Z ∧
  (∀ arg m c1 err rest, marg = Some arg → normalize_model_arg marg = Some m → m ≠ "auto" → log = (c1, err) :: rest →
    model_name c1 = m ∧
    ∀ e1 e2 envs' c2 err2 rest', envs = e1 :: e2 :: envs' → rest = (c2, err2) :: rest' →
      (∀ c, offered e2 r None [candidate_key c1] c → model_name c ≠ m) → model_name c2 ≠ m).
Proof.
  destruct (generate meta max_attempts r marg envs b) as [[b' log] o] eqn:E. unfold generate in E. cbv zeta.
  destruct (attempts_spec r marg (take (Z.to_nat (Z.max 1 max_attempts)) envs) [] None [] b eq_refl) as (calls & H1 & H2 & H3 & H3').
  cbn [length] in *. rewrite E in H1, H3, H3'. cbn in H1, H3, H3'. subst calls.
  destruct (calls_ok_keys _ _ _ _ _ H2) as (H4 & _ & H5). do 4 (split; [done|]).
  assert (length (take (Z.to_nat (Z.max 1 max_attempts)) envs) ≤ Z.to_nat (Z.max 1 max_attempts)) by apply firstn_le_length.
  split; [lia|]. intros arg m c1 err rest -> Hm Hne ->. clear E H3 H3' H4 H5.
  destruct envs as [|e1 envs]; [exfalso; by rewrite take_nil in H2|].
  destruct (Z.to_nat (Z.max 1 max_attempts)) as [|k] eqn:Ek; [lia|]. cbn in H2. destruct H2 as (Hc1 & _ & _ & Hrest).
  split; [by eapply pinned_candidates|]. intros e1' e2 envs' c2 err2 rest' [= -> ->] -> Hother.
  destruct k as [|k]; [done|]. cbn in Hrest.
  destruct Hrest as [Hc2 _]. by apply Hother.
Qed.
End spec.

(** * A pinned call *)

Definition provider_row (id m : string) : ProviderConfig := mkProvider id "openai" m None [] [] [] None 1.
Definition two_rows : list ProviderConfig := [provider_row "p1" "gpt-4o"; provider_row "p2" "gpt-4o-mini"].
Definition overloaded_once (n : nat) : call_env string :=
  mkCall (Ok two_rows) (Ok (mkFilter None false false [])) id id (Z.of_nat n) 0 (λ _, None)
    (λ c, if bool_decide (model_name c = "gpt-4o") then inr (plain_error "overloaded") else inl "hi") 5 (Z.of_nat n).
Definition pinned_call : balancer * list (CandidateModel * option exn) * outcome string :=
  generate (λ _, None) 3 (mkRequest false SizeMedium) (Some " gpt-4o ") (overloaded_once <$> seq 0 3) (new_balancer (new_store 60000)).
Lemma pooled_call_spec_witness :
  (model_name ∘ fst <$> pinned_call.1.2) = ["gpt-4o"; "gpt-4o-mini"] ∧
  match pinned_call.2 with Answered x c n => x = "hi" ∧ model_name c ≠ "gpt-4o" ∧ n = 2 | _ => False end.
Proof.
  split; [by vm_compute|].
  pose proof (pooled_call_spec (λ _, None) 3 (mkRequest false SizeMedium) (Some " gpt-4o ") (overloaded_once <$> seq 0 3)
    (new_balancer (new_store 60000))) as H.
  fold pinned_call in H. destruct pinned_call as [[b log] o] eqn:E. destruct H as (_ & _ & _ & _ & _ & H).
  assert (o = Answered "hi" (mkCandidate "p2" "openai" "gpt-4o-mini" None 1 false true) 2 ∧
    ∃ e, log = [(mkCandidate "p1" "openai" "gpt-4o" None 1 false true, Some e);
                (mkCandidate "p2" "openai" "gpt-4o-mini" None 1 false true, None)]) as [-> [e ->]].
  { vm_compute in E. injection E as <- <- <-. split; [done|]. by eexists. }
  split; [done|]. split; [|done].
  destruct (H " gpt-4o " "gpt-4o" _ _ _ eq_refl eq_refl ltac:(done) eq_refl) as [_ H2].
  eapply H2; [reflexivity|reflexivity|]. intros c (cs & Hcs & Hc). vm_compute in Hcs. injection Hcs as <-.
  by apply list_elem_of_singleton in Hc as ->.
Defined.
