(* ===== verification/Glob.v ===== *)
(** Shell-style patterns: [fnmatch.fnmatch] of the Python standard library on
    a POSIX system, where it is case-sensitive and [/] is an ordinary
    character.  A pattern is parsed into tokens the way [fnmatch.translate]
    does; [fnmatch] matches them with backtracking, [in_glob] says which
    strings a pattern stands for, and the two agree. *)

From S2P Require Import Prelude.
From Stdlib Require Import Ascii.

Open Scope string_scope.
Open Scope list_scope.
Open Scope nat_scope.

(** * Patterns *)

(** One item between brackets: a character or a range [a-z]. *)
Inductive citem : Type :=
  | One (c : ascii)
  | Range (lo hi : ascii).

Inductive token : Type :=
  | Lit (c : ascii)
  | AnyChar
  | AnySeq
  | Class_ (negated : bool) (items : list citem).

#[export] Instance citem_eq_dec : EqDecision citem.
Proof. solve_decision. Defined.
#[export] Instance token_eq_dec : EqDecision token.
Proof. solve_decision. Defined.

Definition code (c : ascii) : nat := nat_of_ascii c.
Definition in_item (c : ascii) (i : citem) : bool :=
  match i with
  | One d => bool_decide (c = d)
  | Range lo hi => (code lo <=? code c) && (code c <=? code hi)
  end.
Definition tok_char (t : token) (c : ascii) : bool :=
  match t with
  | Lit d => bool_decide (c = d)
  | AnyChar => true
  | AnySeq => false
  | Class_ neg items => xorb neg (existsb (in_item c) items)
  end.

(** The text between the brackets: [a-b] is a range when something follows
    the hyphen, a hyphen elsewhere stands for itself. *)
Fixpoint class_items (s : list ascii) : list citem :=
  match s with
  | [] => []
  | lo :: ("-"%char :: hi :: s') => Range lo hi :: class_items s'
  | c :: s' => One c :: class_items s'
  end.

(** The characters up to the closing bracket, and the rest. *)
Fixpoint until_bracket (s : list ascii) : option (list ascii * list ascii) :=
  match s with
  | [] => None
  | "]"%char :: s' => Some ([], s')
  | c :: s' => match until_bracket s' with Some (i, r) => Some (c :: i, r) | None => None end
  end.
(** After [[]: an optional [!]; a bracket that comes first is a member. *)
Definition class_body (s : list ascii) : option (bool * list ascii * list ascii) :=
  let '(neg, s) := match s with "!"%char :: s' => (true, s') | _ => (false, s) end in
  match s with
  | "]"%char :: s' =>
      match until_bracket s' with Some (i, r) => Some (neg, "]"%char :: i, r) | None => None end
  | _ => match until_bracket s with Some (i, r) => Some (neg, i, r) | None => None end
  end.

Fixpoint parse_glob (fuel : nat) (s : list ascii) : list token :=
  match fuel with
  | 0 => []
  | S fuel =>
      match s with
      | [] => []
      | "*"%char :: s' => AnySeq :: parse_glob fuel s'
      | "?"%char :: s' => AnyChar :: parse_glob fuel s'
      | "["%char :: s' =>
          match class_body s' with
          | Some (neg, i, r) => Class_ neg (class_items i) :: parse_glob fuel r
          | None => Lit "["%char :: parse_glob fuel s'
          end
      | c :: s' => Lit c :: parse_glob fuel s'
      end
  end.
Definition glob_of (p : string) : list token :=
  parse_glob (length (String.list_ascii_of_string p)) (String.list_ascii_of_string p).

(** * Matching *)

(** Some suffix satisfies [f]. *)
Fixpoint some_suffix (f : list ascii → bool) (s : list ascii) : bool :=
  f s || match s with [] => false | _ :: s' => some_suffix f s' end.

Fixpoint glob_match (p : list token) (s : list ascii) : bool :=
  match p with
  | [] => match s with [] => true | _ => false end
  | AnySeq :: p' => some_suffix (glob_match p') s
  | t :: p' => match s with [] => false | c :: s' => tok_char t c && glob_match p' s' end
  end.
(** [fnmatch.fnmatch(name, pat)] *)
Definition fnmatch (name pat : string) : bool :=
  glob_match (glob_of pat) (String.list_ascii_of_string name).

(** The strings of a pattern. *)
Inductive in_glob : list token → list ascii → Prop :=
  | glob_nil : in_glob [] []
  | glob_char t c p s : tok_char t c = true → in_glob p s → in_glob (t :: p) (c :: s)
  | glob_seq p s1 s2 : in_glob p s2 → in_glob (AnySeq :: p) (s1 ++ s2).

Lemma some_suffix_true f s : some_suffix f s = true ↔ ∃ s1 s2, s = s1 ++ s2 ∧ f s2 = true.
Proof.
  induction s as [|c s IH]; simpl; rewrite orb_true_iff.
  - split; [intros [H|[=]]; by exists [], []|]. intros (s1 & s2 & He & H).
    symmetry in He. apply app_nil in He as [-> ->]. by left.
  - rewrite IH. split.
    + intros [H|(s1 & s2 & -> & H)]; [by exists [], (c :: s)|by exists (c :: s1), s2].
    + intros ([|d s1] & s2 & He & H); simplify_eq/=; [by left|right; eauto].
Qed.
Lemma glob_match_in p s : glob_match p s = true ↔ in_glob p s.
Proof.
  revert s. induction p as [|t p IH]; intros s.
  { destruct s; simpl; (split; [try done; by constructor|by inversion 1]). }
  assert (Hc : (match s with [] => false | c :: s' => tok_char t c && glob_match p s' end = true) ↔
               ∃ c s', s = c :: s' ∧ tok_char t c = true ∧ in_glob p s').
  { destruct s as [|c s]; [naive_solver|]. rewrite andb_true_iff, IH. naive_solver. }
  destruct t; simpl in *; [| |rewrite some_suffix_true|];
    try (rewrite Hc; split; [intros (c' & s' & -> & ? & ?); by constructor|
                             inversion 1; simplify_eq; eauto]).
  split.
  - intros (s1 & s2 & -> & H). constructor. by apply IH.
  - inversion 1; simplify_eq/=. setoid_rewrite IH. eauto.
Qed.
(** [fnmatch] decides membership. *)
Lemma fnmatch_true name pat :
  fnmatch name pat = true ↔ in_glob (glob_of pat) (String.list_ascii_of_string name).
Proof. apply glob_match_in. Qed.

(** * Patterns without wildcards, and the pattern of all strings *)

Definition plain_char (c : ascii) : bool :=
  negb (bool_decide (c = "*"%char) || bool_decide (c = "?"%char) || bool_decide (c = "["%char)).
(** No wildcard in the pattern: it stands for itself. *)
Definition plain (p : string) : bool := forallb plain_char (String.list_ascii_of_string p).

Lemma parse_plain s n : forallb plain_char s = true → length s <= n → parse_glob n s = Lit <$> s.
Proof.
  revert n. induction s as [|c s IH]; intros [|n] Hp Hn; simpl in *; [done|done|lia|].
  apply andb_true_iff in Hp as [Hc Hp]. specialize (IH n Hp ltac:(lia)).
  unfold plain_char in Hc. destruct c as [[] [] [] [] [] [] [] []]; first [done|by simpl; f_equal].
Qed.
Lemma glob_lits l s : in_glob (Lit <$> l) s ↔ s = l.
Proof.
  revert s. induction l as [|c l IH]; intros s; split; csimpl.
  - by inversion 1.
  - intros ->. constructor.
  - inversion 1 as [|t d p s' Hd Hs|]; simplify_eq/=. apply bool_decide_eq_true in Hd as ->.
    apply IH in Hs. by subst.
  - intros ->. constructor; [by apply bool_decide_eq_true|by apply IH].
Qed.
Lemma list_ascii_inj s t : String.list_ascii_of_string s = String.list_ascii_of_string t → s = t.
Proof.
  intros H. by rewrite <-(String.string_of_list_ascii_of_string s), H, String.string_of_list_ascii_of_string.
Qed.
Lemma fnmatch_plain name pat : plain pat = true → fnmatch name pat = bool_decide (name = pat).
Proof.
  intros Hp. apply eq_bool_prop_intro. rewrite Is_true_true, fnmatch_true.
  unfold glob_of. rewrite parse_plain by done. rewrite glob_lits.
  rewrite bool_decide_spec. split; [apply list_ascii_inj|by intros ->].
Qed.
Lemma fnmatch_star name : fnmatch name "*" = true.
Proof.
  apply fnmatch_true. rewrite <-(app_nil_r (String.list_ascii_of_string name)). constructor. constructor.
Qed.

#[export] Hint Rewrite fnmatch_star : memstack.
