(* ===== verification/Utf8.v ===== *)
(** UTF-8: [str.encode("utf-8")] and [bytes.decode("utf-8", errors="ignore")].

    A Python string is the list of its code points, bytes are integers below
    256.  The decoder skips what is not part of a well-formed sequence the
    way CPython does, a maximal ill-formed prefix at a time.  Decoding a cut
    of a well-formed text gives the characters that lie whole in it. *)

From S2P Require Import Prelude.

Open Scope Z_scope.

(** * Encoding *)

Definition valid_char (c : Z) : bool :=
  (0 <=? c) && (c <=? 1114111) && negb ((55296 <=? c) && (c <=? 57343)).
Definition encode_char (c : Z) : list Z :=
  if c <? 128 then [c]
  else if c <? 2048 then [192 + c / 64; 128 + c mod 64]
  else if c <? 65536 then [224 + c / 4096; 128 + (c / 64) mod 64; 128 + c mod 64]
  else [240 + c / 262144; 128 + (c / 4096) mod 64; 128 + (c / 64) mod 64; 128 + c mod 64].
Definition encode_all (s : list Z) : list Z := s ≫= encode_char.
(** [None]: UnicodeEncodeError, for a lone surrogate. *)
Definition utf8_encode (s : list Z) : option (list Z) :=
  if forallb valid_char s then Some (encode_all s) else None.

(** * Decoding *)

Definition is_cont (b : Z) : bool := (128 <=? b) && (b <=? 191).
Definition ok_second3 (b c : Z) : bool :=
  is_cont c && (negb (b =? 224) || (160 <=? c)) && (negb (b =? 237) || (c <=? 159)).
Definition ok_second4 (b c : Z) : bool :=
  is_cont c && (negb (b =? 240) || (144 <=? c)) && (negb (b =? 244) || (c <=? 143)).
Fixpoint decode_ignore (bs : list Z) : list Z :=
  match bs with
  | [] => []
  | b :: r =>
      if b <? 128 then b :: decode_ignore r
      else if (194 <=? b) && (b <=? 223) then
        match r with
        | [] => []
        | c1 :: r1 =>
            if is_cont c1 then ((b - 192) * 64 + (c1 - 128)) :: decode_ignore r1 else decode_ignore r
        end
      else if (224 <=? b) && (b <=? 239) then
        match r with
        | [] => []
        | c1 :: r1 =>
            if ok_second3 b c1 then
              match r1 with
              | [] => []
              | c2 :: r2 =>
                  if is_cont c2
                  then ((b - 224) * 4096 + (c1 - 128) * 64 + (c2 - 128)) :: decode_ignore r2
                  else decode_ignore r1
              end
            else decode_ignore r
        end
      else if (240 <=? b) && (b <=? 244) then
        match r with
        | [] => []
        | c1 :: r1 =>
            if ok_second4 b c1 then
              match r1 with
              | [] => []
              | c2 :: r2 =>
                  if is_cont c2 then
                    match r2 with
                    | [] => []
                    | c3 :: r3 =>
                        if is_cont c3 then
                          ((b - 240) * 262144 + (c1 - 128) * 4096 + (c2 - 128) * 64 + (c3 - 128))
                          :: decode_ignore r3
                        else decode_ignore r2
                    end
                  else decode_ignore r1
              end
            else decode_ignore r
        end
      else decode_ignore r
  end.

(** * One character *)

Lemma valid_char_range c : valid_char c = true → 0 <= c <= 1114111 ∧ (c < 55296 ∨ 57343 < c).
Proof. unfold valid_char. lia. Qed.

(** One step of the decoder on each shape of sequence. *)
Lemma decode_ascii b r : b < 128 → decode_ignore (b :: r) = b :: decode_ignore r.
Proof. intros. simpl. by rewrite (proj2 (Z.ltb_lt b 128)). Qed.
Lemma second3_true b c : (b = 224 → 160 <= c) → (b = 237 → c <= 159) → 128 <= c <= 191 →
  ok_second3 b c = true.
Proof. intros. unfold ok_second3, is_cont. destruct (Z.eqb_spec b 224), (Z.eqb_spec b 237); lia. Qed.
Lemma second4_true b c : (b = 240 → 144 <= c) → (b = 244 → c <= 143) → 128 <= c <= 191 →
  ok_second4 b c = true.
Proof. intros. unfold ok_second4, is_cont. destruct (Z.eqb_spec b 240), (Z.eqb_spec b 244); lia. Qed.
Lemma cont_true c : 128 <= c <= 191 → is_cont c = true.
Proof. unfold is_cont. lia. Qed.

Definition seq2 (b : Z) (r : list Z) : list Z :=
  match r with
  | [] => []
  | c1 :: r1 =>
      if is_cont c1 then ((b - 192) * 64 + (c1 - 128)) :: decode_ignore r1 else decode_ignore r
  end.
Definition seq3 (b : Z) (r : list Z) : list Z :=
  match r with
  | [] => []
  | c1 :: r1 =>
      if ok_second3 b c1 then
        match r1 with
        | [] => []
        | c2 :: r2 =>
            if is_cont c2
            then ((b - 224) * 4096 + (c1 - 128) * 64 + (c2 - 128)) :: decode_ignore r2
            else decode_ignore r1
        end
      else decode_ignore r
  end.
Definition seq4 (b : Z) (r : list Z) : list Z :=
  match r with
  | [] => []
  | c1 :: r1 =>
      if ok_second4 b c1 then
        match r1 with
        | [] => []
        | c2 :: r2 =>
            if is_cont c2 then
              match r2 with
              | [] => []
              | c3 :: r3 =>
                  if is_cont c3 then
                    ((b - 240) * 262144 + (c1 - 128) * 4096 + (c2 - 128) * 64 + (c3 - 128))
                    :: decode_ignore r3
                  else decode_ignore r2
              end
            else decode_ignore r1
        end
      else decode_ignore r
  end.
Lemma decode_lead2 b r : 194 <= b <= 223 → decode_ignore (b :: r) = seq2 b r.
Proof.
  intros. simpl. rewrite (proj2 (Z.ltb_ge b 128)) by lia.
  by replace ((194 <=? b) && (b <=? 223)) with true by lia.
Qed.
Lemma decode_lead3 b r : 224 <= b <= 239 → decode_ignore (b :: r) = seq3 b r.
Proof.
  intros. simpl. rewrite (proj2 (Z.ltb_ge b 128)) by lia.
  replace ((194 <=? b) && (b <=? 223)) with false by lia.
  by replace ((224 <=? b) && (b <=? 239)) with true by lia.
Qed.
Lemma decode_lead4 b r : 240 <= b <= 244 → decode_ignore (b :: r) = seq4 b r.
Proof.
  intros. simpl. rewrite (proj2 (Z.ltb_ge b 128)) by lia.
  replace ((194 <=? b) && (b <=? 223)) with false by lia.
  replace ((224 <=? b) && (b <=? 239)) with false by lia.
  by replace ((240 <=? b) && (b <=? 244)) with true by lia.
Qed.
Lemma decode_stray b r : 128 <= b <= 191 → decode_ignore (b :: r) = decode_ignore r.
Proof.
  intros. simpl. rewrite (proj2 (Z.ltb_ge b 128)) by lia.
  replace ((194 <=? b) && (b <=? 223)) with false by lia.
  replace ((224 <=? b) && (b <=? 239)) with false by lia.
  by replace ((240 <=? b) && (b <=? 244)) with false by lia.
Qed.

(** The quotients and remainders the encoding uses. *)
Lemma digits64 c : 0 <= c ->
  c = c / 64 * 64 + c mod 64 ∧ 0 <= c mod 64 < 64 ∧
  c / 64 = c / 4096 * 64 + (c / 64) mod 64 ∧ 0 <= (c / 64) mod 64 < 64 ∧
  c / 4096 = c / 262144 * 64 + (c / 4096) mod 64 ∧ 0 <= (c / 4096) mod 64 < 64 ∧
  0 <= c / 262144.
Proof. intros. Z.to_euclidean_division_equations. lia. Qed.

Ltac use_digits c :=
  destruct (digits64 c) as (?H & ?H & ?H & ?H & ?H & ?H & ?H); [lia|];
  generalize dependent (c mod 64); generalize dependent ((c / 64) mod 64);
  generalize dependent ((c / 4096) mod 64); generalize dependent (c / 64);
  generalize dependent (c / 4096); generalize dependent (c / 262144); intros.

(** The encoding of a character, by its length. *)
Inductive encoding (c : Z) : list Z → Prop :=
  | enc1 : 0 <= c < 128 → encoding c [c]
  | enc2 b c1 : 194 <= b <= 223 → 128 <= c1 <= 191 → c = (b - 192) * 64 + (c1 - 128) → encoding c [b; c1]
  | enc3 b c1 c2 : 224 <= b <= 239 → ok_second3 b c1 = true → 128 <= c1 <= 191 → 128 <= c2 <= 191 →
      c = (b - 224) * 4096 + (c1 - 128) * 64 + (c2 - 128) → encoding c [b; c1; c2]
  | enc4 b c1 c2 c3 : 240 <= b <= 244 → ok_second4 b c1 = true → 128 <= c1 <= 191 → 128 <= c2 <= 191 →
      128 <= c3 <= 191 →
      c = (b - 240) * 262144 + (c1 - 128) * 4096 + (c2 - 128) * 64 + (c3 - 128) →
      encoding c [b; c1; c2; c3].
Lemma encode_char_encoding c : valid_char c = true → encoding c (encode_char c).
Proof.
  intros Hv%valid_char_range. unfold encode_char. use_digits c.
  destruct (Z.ltb_spec c 128); [constructor; lia|].
  destruct (Z.ltb_spec c 2048); [constructor; lia|].
  destruct (Z.ltb_spec c 65536); constructor; try lia.
  - apply second3_true; lia.
  - apply second4_true; lia.
Qed.

Lemma decode_char c r : valid_char c = true → decode_ignore (encode_char c ++ r) = c :: decode_ignore r.
Proof.
  intros Hv%encode_char_encoding. destruct Hv; simpl app.
  - apply decode_ascii; lia.
  - rewrite decode_lead2 by done. unfold seq2. rewrite cont_true by done. by f_equal.
  - rewrite decode_lead3 by done. unfold seq3. rewrite H0, cont_true by done. by f_equal.
  - rewrite decode_lead4 by done. unfold seq4. rewrite H0, !cont_true by done. by f_equal.
Qed.
(** A cut character is dropped, at the end of the text and at its start. *)
Lemma decode_cut_end c k : valid_char c = true → (k < length (encode_char c))%nat →
  decode_ignore (take k (encode_char c)) = [].
Proof.
  intros Hv%encode_char_encoding. destruct Hv; intros Hk; simpl in Hk;
    repeat (destruct k as [|k]; [try done|try lia]); simpl take.
  - by rewrite decode_lead2.
  - by rewrite decode_lead3.
  - rewrite decode_lead3 by done. unfold seq3. by rewrite H0.
  - by rewrite decode_lead4.
  - rewrite decode_lead4 by done. unfold seq4. by rewrite H0.
  - rewrite decode_lead4 by done. unfold seq4. by rewrite H0, cont_true.
Qed.
Lemma decode_cut_start c k r : valid_char c = true → (0 < k)%nat →
  decode_ignore (drop k (encode_char c) ++ r) = decode_ignore r.
Proof.
  intros Hv%encode_char_encoding Hk. destruct Hv; destruct k as [|[|[|[|k]]]]; try lia;
    simpl drop; rewrite ?drop_nil; simpl app; by rewrite ?decode_stray by done.
Qed.

(** * Cutting an encoded text *)

Lemma encode_all_cons c s : encode_all (c :: s) = encode_char c ++ encode_all s.
Proof. done. Qed.
Lemma encode_all_app s t : encode_all (s ++ t) = encode_all s ++ encode_all t.
Proof. unfold encode_all. by rewrite bind_app. Qed.
Lemma encode_char_length c : (1 <= length (encode_char c) <= 4)%nat.
Proof. unfold encode_char. repeat case_match; simpl; lia. Qed.
Lemma encode_all_length s : (length s <= length (encode_all s) <= 4 * length s)%nat.
Proof.
  induction s as [|c s IH]; simpl; [done|]. rewrite length_app.
  pose proof (encode_char_length c). lia.
Qed.

Lemma decode_all s : forallb valid_char s = true → decode_ignore (encode_all s) = s.
Proof.
  induction s as [|c s IH]; [done|]. simpl. intros [Hc Hs]%andb_true_iff.
  change (encode_char c ++ mbind encode_char s) with (encode_char c ++ encode_all s).
  by rewrite decode_char, IH.
Qed.
Lemma decode_take s n : forallb valid_char s = true →
  ∃ k, decode_ignore (take n (encode_all s)) = take k s ∧ (k <= length s)%nat ∧
     (length (encode_all (take k s)) <= n)%nat ∧
     ∀ k', (k < k' <= length s)%nat → (n < length (encode_all (take k' s)))%nat.
Proof.
  revert n. induction s as [|c s IH]; intros n; simpl forallb.
  { intros _. exists 0%nat. change (encode_all []) with (@nil Z). rewrite take_nil. split_and!; simpl; intros; (done || lia). }
  intros [Hc Hs]%andb_true_iff. rewrite encode_all_cons.
  destruct (decide (n < length (encode_char c))%nat) as [Hn|Hn].
  - exists 0%nat. rewrite take_app_le, decode_cut_end by (done || lia). split_and!; [done|lia|simpl; lia|].
    intros [|k'] Hk'; [lia|].
    change (take (S k') (c :: s)) with (c :: take k' s). rewrite encode_all_cons, length_app. lia.
  - destruct (IH (n - length (encode_char c))%nat Hs) as (k & Hd & Hk & Hle & Hmax).
    exists (S k). rewrite take_app_ge, decode_char, Hd by (done || lia).
    change (take (S k) (c :: s)) with (c :: take k s). rewrite encode_all_cons, length_app.
    split_and!; [done|simpl; lia|lia|]. intros [|k'] Hk'; [lia|]. simpl in Hk'.
    change (take (S k') (c :: s)) with (c :: take k' s). rewrite encode_all_cons, length_app.
    specialize (Hmax k' ltac:(lia)). lia.
Qed.
Lemma decode_drop s n : forallb valid_char s = true →
  ∃ k, decode_ignore (drop n (encode_all s)) = drop k s ∧ (k <= length s)%nat ∧
     (length (encode_all s) - n >= length (encode_all (drop k s)))%nat ∧
     ∀ k', (k' < k)%nat → (length (encode_all s) - n < length (encode_all (drop k' s)))%nat.
Proof.
  revert n. induction s as [|c s IH]; intros n; simpl forallb.
  { intros _. exists 0%nat. change (encode_all []) with (@nil Z). rewrite drop_nil. split_and!; simpl; intros; (done || lia). }
  intros [Hc Hs]%andb_true_iff. pose proof (encode_char_length c) as Hlen.
  destruct (decide (n = 0)%nat) as [->|Hn0].
  { exists 0%nat. rewrite drop_0, decode_all by (simpl; by rewrite Hc, Hs). split_and!; [done|lia|simpl; lia|lia]. }
  rewrite !encode_all_cons, length_app.
  destruct (decide (n <= length (encode_char c))%nat) as [Hn|Hn].
  - exists 1%nat. rewrite drop_app_le, decode_cut_start, decode_all by (done || lia). simpl.
    rewrite drop_0. split_and!; [done|lia|lia|]. intros [|k'] ?; [|lia]. simpl.
    rewrite length_app. fold (encode_all s). lia.
  - destruct (IH (n - length (encode_char c))%nat Hs) as (k & Hd & Hk & Hle & Hmax).
    exists (S k). rewrite drop_app_ge, Hd by lia. simpl. split_and!; [done|lia|lia|].
    intros [|k'] Hk'; simpl; [rewrite length_app; fold (encode_all s); lia|].
    specialize (Hmax k' ltac:(lia)). lia.
Qed.

(** Decoding inverts encoding; decoding the first [n] bytes of an encoded
    text gives the longest prefix of it whose encoding fits [n] bytes, and
    decoding what follows them the longest suffix that fits: a cut
    character is dropped and nothing else is lost or invented. *)
Theorem decode_cut s n : forallb valid_char s = true →
  decode_ignore (encode_all s) = s ∧
  (∃ k, decode_ignore (take n (encode_all s)) = take k s ∧ (k <= length s)%nat ∧
     (length (encode_all (take k s)) <= n)%nat ∧
     ∀ k', (k < k' <= length s)%nat → (n < length (encode_all (take k' s)))%nat) ∧
  (∃ k, decode_ignore (drop n (encode_all s)) = drop k s ∧ (k <= length s)%nat ∧
     (length (encode_all s) - n >= length (encode_all (drop k s)))%nat ∧
     ∀ k', (k' < k)%nat → (length (encode_all s) - n < length (encode_all (drop k' s)))%nat).
Proof. intros Hv. split_and!; [by apply decode_all|by apply decode_take|by apply decode_drop]. Qed.
