(* ===== verification/Truncation.v ===== *)
(** Truncation of tool output by bytes and by lines.

    Source: src/src/infrastructure/agent/tools/truncation.py.  Texts are lists
    of code points (Utf8.v); a text with a lone surrogate raises
    UnicodeEncodeError, [None].  Saving the full output to disk is reduced to
    the path it answers; offsets and limits are not negative. *)

From S2P Require Import Prelude Utf8.
From stdpp Require Import pretty.
From Stdlib Require Ascii.

Open Scope list_scope.
Open Scope nat_scope.

Definition text : Type := list Z.
(** A literal of the source. *)
Definition lit (s : string) : text :=
  (λ c, Z.of_nat (Ascii.nat_of_ascii c)) <$> String.list_ascii_of_string s.
#[global] Arguments lit : simpl never.
(** [str(n)] *)
Definition number (n : nat) : text := lit (pretty n).
Definition newline : text := [10%Z].
(** ["\n".join(l)] *)
Fixpoint join_lines (l : list text) : text :=
  match l with [] => [] | [x] => x | x :: l' => x ++ newline ++ join_lines l' end.
(** [s.count("\n")] *)
Definition count_newlines (s : text) : nat := length (filter (λ c, c = 10%Z) s).

Definition MAX_OUTPUT_BYTES : nat := 50 * 1024.
Definition MAX_LINE_LENGTH : nat := 2000.
Definition DEFAULT_READ_LIMIT : nat := 2000.

Inductive TruncateDirection : Set := HEAD | TAIL.

Record TruncationResult : Type := mkTruncation {
  truncated : bool;
  t_output : text;
  truncated_bytes : option nat;
  truncated_lines : option nat;
  total_lines : option nat;
  last_read_line : option nat;
  has_more : bool;
}.
Definition whole (s : text) : TruncationResult := mkTruncation false s None None None None false.

(** * By bytes *)

Definition truncate_by_bytes (content : text) (max_bytes : nat) : option TruncationResult :=
  match content with
  | [] => Some (whole [])
  | _ =>
      bytes ← utf8_encode content;
      Some (if length bytes <=? max_bytes then whole content
            else mkTruncation true (decode_ignore (take max_bytes bytes))
                   (Some (length bytes - max_bytes)) None None None false)
  end.
Definition truncate_output (content : text) (max_bytes : nat) (add_message : bool) : option text :=
  r ← truncate_by_bytes content max_bytes;
  Some (if truncated r then
          t_output r ++ (if add_message
            then newline ++ newline ++ lit "(Output truncated at " ++ number max_bytes ++ lit " bytes)"
            else [])
        else content).

(** * By lines *)

Definition cut_line (max_line_length : nat) (line : text) : text :=
  if max_line_length <? length line then take max_line_length line ++ lit "..." else line.
(** The loop over the lines: the processed ones, whether the byte limit
    stopped it. *)
Fixpoint lines_loop (max_bytes max_line_length : nat) (todo processed : list text) (bytes_count : nat)
    : option (list text * nat * bool) :=
  match todo with
  | [] => Some (processed, bytes_count, false)
  | line :: todo' =>
      let line := cut_line max_line_length line in
      bytes ← utf8_encode line;
      let line_size := length bytes + (if bool_decide (processed = []) then 0 else 1) in
      if max_bytes <? bytes_count + line_size then Some (processed, bytes_count, true)
      else lines_loop max_bytes max_line_length todo' (processed ++ [line]) (bytes_count + line_size)
  end.
(** [f"{n:5d}| {line}"] *)
Definition pad5 (s : text) : text := replicate (5 - length s) 32%Z ++ s.
Definition numbered (offset i : nat) (line : text) : text :=
  pad5 (number (i + offset + 1)) ++ lit "| " ++ line.

(** The last line of the output. *)
Definition page_message (by_bytes more : bool) (max_bytes last total : nat) : text :=
  if by_bytes then newline ++ lit "(Output truncated at " ++ number max_bytes ++ lit " bytes. "
    ++ lit "Use 'offset' parameter to read beyond line " ++ number last ++ lit ")"
  else if more then newline
    ++ lit "(File has more lines. Use 'offset' parameter to read beyond line " ++ number last ++ lit ")"
  else newline ++ lit "(End of file - total " ++ number total ++ lit " lines)".

Definition truncate_lines_by_bytes (lines : list text) (offset : nat) (limit : option nat)
    (max_bytes max_line_length : nat) : option TruncationResult :=
  match lines with
  | [] => Some (mkTruncation false [] None None (Some 0) None false)
  | _ =>
      let limit := match limit with None | Some 0 => DEFAULT_READ_LIMIT | Some n => n end in
      let total := length lines in
      '(processed, bytes_count, by_bytes) ←
        lines_loop max_bytes max_line_length (take limit (drop offset lines)) [] 0;
      let last := offset + length processed in
      let more := last <? total in
      let trunc := more || by_bytes in
      Some (mkTruncation trunc (join_lines (imap (numbered offset) processed
                ++ [page_message by_bytes more max_bytes last total]))
              (if by_bytes then Some bytes_count else None)
              (if trunc then Some (length processed) else None)
              (Some total) (Some last) more)
  end.
Definition format_file_output (lines : list text) (offset : nat) (limit : option nat) (max_bytes : nat)
    : option text :=
  r ← truncate_lines_by_bytes lines offset limit max_bytes MAX_LINE_LENGTH;
  Some (lit "<file>" ++ newline ++ t_output r ++ newline ++ lit "</file>").

(** * OutputTruncator *)

Record OutputTruncator : Type := mkTruncator {
  max_bytes : nat;
  max_line_length : nat;
  max_lines : nat;
}.
Definition default_truncator : OutputTruncator :=
  mkTruncator MAX_OUTPUT_BYTES MAX_LINE_LENGTH DEFAULT_READ_LIMIT.
Definition truncate (content : text) (o : OutputTruncator) : option TruncationResult :=
  truncate_by_bytes content (max_bytes o).
Definition truncate_lines (lines : list text) (offset : nat) (limit : option nat) (o : OutputTruncator)
    : option TruncationResult :=
  truncate_lines_by_bytes lines offset limit (max_bytes o) (max_line_length o).
Definition format_file (lines : list text) (offset : nat) (limit : option nat) (o : OutputTruncator)
    : option text :=
  format_file_output lines offset limit (max_bytes o).

(** The [ToolResult] fields [truncate_to_result] fills. *)
Record truncated_result : Type := mkTruncated {
  r_output : text;
  r_was_truncated : bool;
  r_original_bytes : option nat;
  r_full_output_path : option text;
}.
Definition build_truncation_hint (path : text) (total_lines total_bytes : nat) : text :=
  lit "[Output truncated: " ++ number total_lines ++ lit " lines, " ++ number total_bytes
  ++ lit " bytes. Full output saved to " ++ path
  ++ lit ". Use grep to search or read with offset/limit to view specific sections.]".
(** [content_bytes[-n:]] *)
Definition last_bytes (n : nat) (bytes : list Z) : list Z :=
  if bool_decide (n = 0) then bytes else drop (length bytes - n) bytes.
#[global] Arguments build_truncation_hint : simpl never.
Definition truncate_to_result (saved_path : text) (output : text) (direction : TruncateDirection)
    (o : OutputTruncator) : option truncated_result :=
  match output with
  | [] => Some (mkTruncated [] false None None)
  | _ =>
      bytes ← utf8_encode output;
      Some (if length bytes <=? max_bytes o then mkTruncated output false None None
            else
              let kept := decode_ignore
                (match direction with TAIL => last_bytes (max_bytes o) bytes | HEAD => take (max_bytes o) bytes end) in
              let hint := build_truncation_hint saved_path (count_newlines output + 1) (length bytes) in
              let out := match direction with
                | TAIL => hint ++ newline ++ lit "..." ++ newline ++ kept
                | HEAD => kept ++ newline ++ lit "..." ++ newline ++ hint
                end in
              mkTruncated out true (Some (length bytes)) (Some saved_path))
  end.

(** * Bounds *)

Definition bytes_of (s : text) : nat := length (encode_all s).

Lemma utf8_encode_valid s : forallb valid_char s = true → utf8_encode s = Some (encode_all s).
Proof. intros H. unfold utf8_encode. by rewrite H. Qed.

(** The longest prefix, the longest suffix of a text within [n] bytes. *)
Definition longest_prefix (n : nat) (s kept : text) : Prop :=
  ∃ k, kept = take k s ∧ k <= length s ∧ bytes_of kept <= n ∧
    ∀ k', k < k' <= length s → n < bytes_of (take k' s).
Definition longest_suffix (n : nat) (s kept : text) : Prop :=
  ∃ k, kept = drop k s ∧ k <= length s ∧ bytes_of kept <= n ∧ ∀ k', k' < k → n < bytes_of (drop k' s).

Lemma kept_prefix n s : forallb valid_char s = true → longest_prefix n s (decode_ignore (take n (encode_all s))).
Proof.
  intros Hv. destruct (decode_take s n Hv) as (k & -> & Hk & Hle & Hmax).
  exists k. unfold bytes_of. split_and!; done.
Qed.
Lemma kept_suffix n s : forallb valid_char s = true → 0 < n < bytes_of s →
  longest_suffix n s (decode_ignore (last_bytes n (encode_all s))).
Proof.
  intros Hv Hn. unfold last_bytes, bytes_of in *. rewrite bool_decide_false by lia.
  destruct (decode_drop s (length (encode_all s) - n) Hv) as (k & -> & Hk & Hle & Hmax).
  exists k. unfold bytes_of. split_and!; [done|done|lia|]. intros k' Hk'. specialize (Hmax k' Hk'). lia.
Qed.

(** Truncation by bytes keeps a text that fits and otherwise the longest
    prefix (with TAIL and a positive limit the longest suffix) of whole
    characters within the limit; it reports exactly when it cut, and raises
    exactly on a text that cannot be encoded. *)
Theorem truncation_keeps_longest s o path : s ≠ [] →
  (forallb valid_char s = false →
     truncate s o = None ∧ ∀ dir, truncate_to_result path s dir o = None) ∧
  (forallb valid_char s = true →
     (∃ r, truncate s o = Some r ∧ longest_prefix (max_bytes o) s (t_output r) ∧
        (truncated r = true ↔ max_bytes o < bytes_of s)) ∧
     (∀ dir, bytes_of s <= max_bytes o →
        truncate_to_result path s dir o = Some (mkTruncated s false None None)) ∧
     (max_bytes o < bytes_of s → ∃ kept hint r,
        truncate_to_result path s HEAD o = Some r ∧ longest_prefix (max_bytes o) s kept ∧
        r_output r = kept ++ hint ∧ r_was_truncated r = true) ∧
     (0 < max_bytes o < bytes_of s → ∃ kept hint r,
        truncate_to_result path s TAIL o = Some r ∧ longest_suffix (max_bytes o) s kept ∧
        r_output r = hint ++ kept ∧ r_was_truncated r = true)).
Proof.
  intros Hne. unfold truncate, truncate_by_bytes, truncate_to_result.
  destruct s as [|c s']; [done|]. cbv beta iota zeta. generalize (c :: s'). clear. intros s. split.
  { intros Hv. unfold utf8_encode. by rewrite Hv. }
  intros Hv. rewrite utf8_encode_valid by done. cbv [mbind option_bind]. unfold bytes_of. split_and!.
  - eexists; split; [done|]. case_match eqn:Hb; simpl.
    + apply Nat.leb_le in Hb. split; [|split; [done|lia]].
      exists (length s). rewrite firstn_all. unfold bytes_of. split_and!; [done|done|lia|lia].
    + apply Nat.leb_gt in Hb. split; [by apply kept_prefix|done].
  - intros dir Hb. by rewrite (proj2 (Nat.leb_le _ _) Hb).
  - intros Hb. rewrite (proj2 (Nat.leb_gt _ _) Hb).
    set (hint := build_truncation_hint _ _ _).
    exists (decode_ignore (take (max_bytes o) (encode_all s))), (newline ++ lit "..." ++ newline ++ hint).
    eexists. split; [reflexivity|]. split; [by apply kept_prefix|]. by split.
  - intros Hb. rewrite (proj2 (Nat.leb_gt _ _)) by lia.
    set (hint := build_truncation_hint _ _ _).
    exists (decode_ignore (last_bytes (max_bytes o) (encode_all s))), (hint ++ newline ++ lit "..." ++ newline).
    eexists. split; [reflexivity|]. split; [by apply kept_suffix|]. split; [|done].
    cbn [r_output]. by repeat rewrite <-app_assoc.
Qed.

(** * Lines *)

Definition valid_lines (lines : list text) : Prop := ∀ l, l ∈ lines → forallb valid_char l = true.

Lemma lit_valid s : forallb valid_char (lit s) = true.
Proof.
  apply forallb_elem. intros x. unfold lit. rewrite list_elem_of_fmap. intros (c & -> & _).
  pose proof (Ascii.nat_ascii_bounded c). unfold valid_char. lia.
Qed.
Lemma cut_line_valid n l : forallb valid_char l = true → forallb valid_char (cut_line n l) = true.
Proof.
  intros Hv. unfold cut_line. case_match; [|done]. rewrite forallb_app, lit_valid, andb_true_r.
  rewrite forallb_elem in *. intros x Hx. apply Hv. rewrite <-(take_drop n l). set_solver.
Qed.
Lemma cut_line_bytes n l : bytes_of (cut_line n l) <= 4 * n + 3.
Proof.
  unfold cut_line, bytes_of. case_match eqn:Hb.
  - rewrite encode_all_app, length_app. pose proof (encode_all_length (take n l)).
    rewrite length_take in *. change (length (encode_all (lit "..."))) with 3. lia.
  - apply Nat.ltb_ge in Hb. pose proof (encode_all_length l). lia.
Qed.
Lemma bytes_join_snoc l x : bytes_of (join_lines (l ++ [x])) =
  bytes_of (join_lines l) + bytes_of x + (if bool_decide (l = []) then 0 else 1).
Proof.
  induction l as [|y l IH]; [simpl; lia|]. rewrite bool_decide_false by done.
  destruct l as [|z l].
  - change (join_lines ([y] ++ [x])) with (y ++ newline ++ x). change (join_lines [y]) with y.
    unfold bytes_of. rewrite !encode_all_app, !length_app. change (length (encode_all newline)) with 1. lia.
  - change (join_lines ((y :: z :: l) ++ [x])) with (y ++ newline ++ join_lines ((z :: l) ++ [x])).
    change (join_lines (y :: z :: l)) with (y ++ newline ++ join_lines (z :: l)).
    unfold bytes_of in *. rewrite !encode_all_app, !length_app, IH.
    rewrite bool_decide_false by done. lia.
Qed.

(** The loop stops at the first line that would exceed the limit. *)
Lemma lines_loop_spec mb ml todo processed bytes : valid_lines todo →
  bytes = bytes_of (join_lines processed) → bytes <= mb →
  ∃ k count by_bytes, lines_loop mb ml todo processed bytes =
    Some (processed ++ (cut_line ml <$> take k todo), count, by_bytes) ∧ k <= length todo ∧
    count = bytes_of (join_lines (processed ++ (cut_line ml <$> take k todo))) ∧ count <= mb ∧
    (by_bytes = true ↔ k < length todo) ∧
    (k < length todo → mb < bytes_of (join_lines (processed ++ (cut_line ml <$> take (S k) todo)))).
Proof.
  revert processed bytes. induction todo as [|line todo IH]; intros processed bytes Hv Hb Hle.
  { exists 0, bytes, false. simpl. rewrite app_nil_r. split_and!; (done || lia). }
  simpl. rewrite utf8_encode_valid by (apply cut_line_valid, Hv; left). simpl.
  pose proof (bytes_join_snoc processed (cut_line ml line)) as Hsnoc. unfold bytes_of at 3 in Hsnoc.
  destruct (Nat.ltb_spec mb (bytes + (length (encode_all (cut_line ml line)) +
    (if bool_decide (processed = []) then 0 else 1)))) as [Hlt|Hge].
  - exists 0, bytes, true. simpl. rewrite app_nil_r. split_and!; [done|lia|done|done| |].
    + split; [lia|done].
    + intros _. rewrite Hsnoc. lia.
  - destruct (IH (processed ++ [cut_line ml line]) (bytes + (length (encode_all (cut_line ml line)) +
      (if bool_decide (processed = []) then 0 else 1)))) as (k & count & bb & -> & Hk & Hc & Hcm & Hbb & Hnext).
    + intros l Hl. apply Hv. by right.
    + rewrite Hsnoc. lia.
    + lia.
    + exists (S k), count, bb. csimpl. rewrite <-!app_assoc in *. simpl in *.
      split_and!; [done|lia|done|done| |].
      * rewrite Hbb. lia.
      * intros Hlt. apply Hnext. lia.
Qed.

Definition limit_of (limit : option nat) : nat :=
  match limit with None | Some 0 => DEFAULT_READ_LIMIT | Some n => n end.
(** The lines of a page, cut to the maximal length. *)
Definition page (lines : list text) (offset : nat) (limit : option nat) (ml : nat) : list text :=
  cut_line ml <$> take (limit_of limit) (drop offset lines).

Lemma page_length lines offset limit ml :
  length (page lines offset limit ml) = Nat.min (limit_of limit) (length lines - offset).
Proof. unfold page. by rewrite length_fmap, length_take, length_drop. Qed.
Lemma valid_lines_sub lines k offset : valid_lines lines → valid_lines (take k (drop offset lines)).
Proof.
  intros Hv l Hl. apply Hv.
  rewrite <-(take_drop offset lines), elem_of_app. right.
  rewrite <-(take_drop k (drop offset lines)), elem_of_app. by left.
Qed.

(** What a call answers, in terms of the number [k] of lines it kept. *)
Lemma truncate_lines_result lines offset limit mb ml : lines ≠ [] → valid_lines lines →
  ∃ k r msg, truncate_lines_by_bytes lines offset limit mb ml = Some r ∧
    let pg := page lines offset limit ml in
    k <= length pg ∧ t_output r = join_lines (imap (numbered offset) (take k pg) ++ [msg]) ∧
    last_read_line r = Some (offset + k) ∧ total_lines r = Some (length lines) ∧
    has_more r = (offset + k <? length lines) ∧
    bytes_of (join_lines (take k pg)) <= mb ∧
    (k < length pg → mb < bytes_of (join_lines (take (S k) pg))) ∧
    truncated r = has_more r || (k <? length pg).
Proof.
  intros Hne Hv. unfold truncate_lines_by_bytes. destruct lines as [|l0 lines]; [done|].
  set (ls := l0 :: lines) in *. fold (limit_of limit).
  set (todo := take (limit_of limit) (drop offset ls)).
  destruct (lines_loop_spec mb ml todo [] 0) as (k & count & bb & Hl & Hk & Hc & Hle & Hbb & Hnext);
    [by apply valid_lines_sub|done|lia|].
  rewrite app_nil_l in *. rewrite Hl. unfold page. fold todo.
  assert (Hlen : length (cut_line ml <$> take k todo) = k) by (rewrite length_fmap, length_take; lia).
  cbv [mbind option_bind]. rewrite Hlen. eexists k, _, _. split; [reflexivity|]. cbv zeta.
  rewrite <-!fmap_take, length_fmap. cbn [truncated t_output last_read_line total_lines has_more].
  split_and!; [done|reflexivity|done|done|done|lia|exact Hnext|]. f_equal.
  destruct (Nat.ltb_spec k (length todo)) as [Hlt|Hge]; [by apply Hbb|].
  apply not_true_is_false. intros ?%Hbb. lia.
Qed.

(** [truncate_lines_by_bytes] shows a prefix of the requested page, its
    long lines cut: within the byte limit, the whole page or the most lines
    that fit; [last_read_line] is where the next page starts and [has_more]
    tells whether there is one.  A page that is not empty advances exactly
    when its first line fits. *)
Theorem truncate_lines_spec lines offset limit mb ml : lines ≠ [] → valid_lines lines →
  ∃ k r msg, truncate_lines_by_bytes lines offset limit mb ml = Some r ∧
    let pg := page lines offset limit ml in
    t_output r = join_lines (imap (numbered offset) (take k pg) ++ [msg]) ∧
    bytes_of (join_lines (take k pg)) <= mb ∧
    (k < length pg → mb < bytes_of (join_lines (take (S k) pg))) ∧ k <= length pg ∧
    last_read_line r = Some (offset + k) ∧
    (has_more r = true ↔ offset + k < length lines) ∧
    (∀ l, head pg = Some l → (0 < k ↔ bytes_of l <= mb)).
Proof.
  intros Hne Hv. destruct (truncate_lines_result lines offset limit mb ml Hne Hv)
    as (k & r & msg & Hr & Hk & Ho & Hl & _ & Hm & Hb & Hnext & _).
  exists k, r, msg. cbv zeta in *. split_and!; try done.
  - rewrite Hm. apply Nat.ltb_lt.
  - intros l Hhd. destruct (page lines offset limit ml) as [|x pg]; [done|]. simpl in Hhd. simplify_eq. split.
    + intros Hpos. destruct k as [|k]; [lia|]. etrans; [|exact Hb]. simpl take.
      destruct (take k pg) as [|y l']; [done|].
      change (join_lines (l :: y :: l')) with (l ++ newline ++ join_lines (y :: l')).
      unfold bytes_of. rewrite encode_all_app, length_app. lia.
    + intros Hle. destruct k as [|k]; [|lia]. specialize (Hnext ltac:(simpl; lia)). simpl in Hnext. lia.
Qed.

(** Reading on from [last_read_line] until there is no more. *)
Fixpoint read_pages (fuel : nat) (lines : list text) (offset : nat) (limit : option nat) (mb ml : nat)
    : option (list (nat * nat)) :=
  match fuel with
  | 0 => None
  | S fuel =>
      r ← truncate_lines_by_bytes lines offset limit mb ml;
      last ← last_read_line r;
      if has_more r then
        rest ← read_pages fuel lines last limit mb ml;
        Some ((offset, last) :: rest)
      else Some [(offset, last)]
  end.

(** When the byte limit leaves room for one line of the maximal length,
    four bytes a character, paging through a text terminates after at most
    one page per line, and the pages show every line once, in order. *)
Theorem paging_reads_all lines limit mb ml : lines ≠ [] → valid_lines lines → 4 * ml + 3 <= mb →
  ∃ pages, read_pages (length lines) lines 0 limit mb ml = Some pages ∧
    concat ((λ p, seq p.1 (p.2 - p.1)) <$> pages) = seq 0 (length lines).
Proof.
  intros Hne Hv Hmb.
  assert (∀ fuel offset, offset < length lines → length lines - offset <= fuel →
    ∃ pages, read_pages fuel lines offset limit mb ml = Some pages ∧
      concat ((λ p, seq p.1 (p.2 - p.1)) <$> pages) = seq offset (length lines - offset)) as Hread.
  { induction fuel as [|fuel IH]; intros offset Ho Hf; [lia|]. cbn [read_pages].
    destruct (truncate_lines_result lines offset limit mb ml Hne Hv)
      as (k & r & msg & -> & Hk & _ & Hl & _ & Hm & _ & Hnext & _). cbv zeta in *.
    cbv [mbind option_bind]. rewrite Hl, Hm. pose proof (page_length lines offset limit ml) as Hpl.
    assert (Hlim : 0 < limit_of limit) by (destruct limit as [[|?]|]; unfold limit_of, DEFAULT_READ_LIMIT; lia).
    assert (Hpos : 0 < k).
    { destruct k; [|lia]. specialize (Hnext ltac:(lia)).
      unfold page in Hnext. destruct (take (limit_of limit) (drop offset lines)) as [|l pg] eqn:Ht.
      - apply (f_equal length) in Ht. rewrite length_take, length_drop in Ht. simpl in Ht. lia.
      - simpl in Hnext. pose proof (cut_line_bytes ml l). lia. }
    destruct (Nat.ltb_spec (offset + k) (length lines)) as [Hlt|Hge].
    - destruct (IH (offset + k) Hlt) as (pages & -> & Hp); [lia|].
      exists ((offset, offset + k) :: pages). split; [done|]. rewrite fmap_cons. cbn [concat fst snd].
      rewrite Hp. replace (offset + k - offset) with k by lia.
      rewrite <-seq_app. f_equal. lia.
    - exists [(offset, offset + k)]. split; [done|]. simpl. rewrite app_nil_r. f_equal. lia. }
  destruct (Hread (length lines) 0) as (pages & ? & Hp); [destruct lines; simpl; [done|lia]|lia|].
  exists pages. rewrite Nat.sub_0_r in Hp. done.
Qed.

(** * The theorems at work *)

Lemma truncation_witness : ∃ r, truncate (lit "abc" ++ [233%Z]) (mkTruncator 4 10 10) = Some r ∧
  longest_prefix 4 (lit "abc" ++ [233%Z]) (t_output r).
Proof.
  destruct (truncation_keeps_longest (lit "abc" ++ [233%Z]) (mkTruncator 4 10 10) []) as [_ H]; [done|].
  destruct H as [(r & Hr & Hl & _) _]; [reflexivity|]. by exists r.
Defined.
Lemma three_lines_valid : valid_lines [lit "one"; lit "two"; lit "three"].
Proof. intros l Hl. rewrite !elem_of_cons, elem_of_nil in Hl. destruct Hl as [->|[->|[->|[]]]]; done. Qed.
Lemma truncate_lines_witness : ∃ r,
  truncate_lines_by_bytes [lit "one"; lit "two"; lit "three"] 1 None 8 100 = Some r ∧
  last_read_line r = Some 2.
Proof.
  destruct (truncate_lines_spec [lit "one"; lit "two"; lit "three"] 1 None 8 100)
    as (k & r & msg & Hr & _ & _ & _ & _ & Hl & _); [done|apply three_lines_valid|].
  exists r. split; [exact Hr|]. revert Hr. vm_compute. by intros [= <-].
Defined.
Lemma paging_witness : ∃ pages, read_pages 3 [lit "one"; lit "two"; lit "three"] 0 (Some 2) 43 10 = Some pages.
Proof.
  destruct (paging_reads_all [lit "one"; lit "two"; lit "three"] (Some 2) 43 10) as (pages & H & _);
    [done|apply three_lines_valid|lia|]. by exists pages.
Defined.
