(* ===== verification/DoomLoop.v ===== *)
(** The doom-loop detector: repeated identical tool calls and unbroken runs
    of tool errors.

    Source: src/src/infrastructure/agent/doom_loop/detector.py.  The windows
    are [deque]s with a maximal length; the key of a call is JSON text (Json.v).
    Timestamps, which no decision reads, are left out; the lock makes each
    operation atomic. *)

From S2P Require Import Prelude Json.

Open Scope string_scope.
Open Scope list_scope.
Open Scope nat_scope.

(** * The key of a call *)

(** [type(input).__name__] *)
Definition type_name (v : pyval) : string :=
  match v with
  | PNone => "NoneType" | PBool _ => "bool" | PInt _ => "int" | PStr _ => "str" | PList _ => "list" | PDict _ => "dict"
  end.
Definition hash_input (v : pyval) : string := type_name v +:+ "::" +:+ json_dumps true true v.

(** * Bounded queues and slices *)

(** [deque(maxlen=n).append] *)
Definition push {A} (n : nat) (x : A) (l : list A) : list A :=
  drop (length (l ++ [x]) - n) (l ++ [x]).
(** [l[-t:]] *)
Definition last_slice {A} (t : Z) (l : list A) : list A :=
  if (0 <? t)%Z then drop (length l - Z.to_nat t) l else drop (Z.to_nat (- t)) l.

(** * The detector *)

Record ToolCallRecord : Type := mkCall { tool : string; input : pyval; input_hash : string }.
Record ToolErrorRecord : Type := mkError { err_tool : string; err_text : string }.
Record detector : Type := mkDetector {
  threshold : Z;
  window_size : nat;
  window : list ToolCallRecord;
  error_threshold : Z;
  error_history_max : nat;
  consecutive_errors : list ToolErrorRecord;
}.

(** [None]: a [deque] refuses a negative length. *)
Definition new_detector (thr : Z) (size : Z) (err : option Z) : option detector :=
  let et := default (thr * 2)%Z err in
  let history := Z.max (et * 2) size in
  if (0 <=? size)%Z && (0 <=? history)%Z then
    Some (mkDetector thr (Z.to_nat size) [] et (Z.to_nat history) [])
  else None.

Definition set_windows (w : list ToolCallRecord) (e : list ToolErrorRecord) (d : detector) : detector :=
  mkDetector (threshold d) (window_size d) w (error_threshold d) (error_history_max d) e.
Definition call_record (t : string) (v : pyval) : ToolCallRecord := mkCall t v (hash_input v).
Definition record (t : string) (v : pyval) (d : detector) : detector :=
  set_windows (push (window_size d) (call_record t v) (window d)) (consecutive_errors d) d.
Definition record_error (t e : string) (d : detector) : detector :=
  set_windows (window d) (push (error_history_max d) (mkError t e) (consecutive_errors d)) d.
Definition reset_errors (d : detector) : detector := set_windows (window d) [] d.
Definition consecutive_error_count (d : detector) : nat := length (consecutive_errors d).
Definition same_call (t : string) (h : string) (r : ToolCallRecord) : bool :=
  bool_decide (tool r = t) && bool_decide (input_hash r = h).
Definition should_intervene (t : string) (v : pyval) (d : detector) : bool :=
  if (Z.of_nat (length (window d)) <? threshold d)%Z then false
  else forallb (same_call t (hash_input v)) (last_slice (threshold d) (window d)).
Definition should_intervene_on_errors (d : detector) : bool :=
  (error_threshold d <=? Z.of_nat (length (consecutive_errors d)))%Z.
Definition get_recent_errors (n : Z) (d : detector) : list ToolErrorRecord :=
  last_slice n (consecutive_errors d).
Definition get_recent_calls (n : Z) (d : detector) : list ToolCallRecord := last_slice n (window d).
Definition clear (d : detector) : detector := set_windows [] [] d.
Definition reset_for_new_conversation (d : detector) : detector := clear d.

(** * Facts about queues *)

Lemma push_last {A} n (x : A) l : push n x l = drop (S (length l) - n) (l ++ [x]).
Proof. unfold push. rewrite length_app. simpl. f_equal. lia. Qed.
(** A queue that holds the end of a history still does after an [append]. *)
Lemma push_suffix {A} n (x : A) h l : l = drop (length h - n) h → push n x l = drop (S (length h) - n) (h ++ [x]).
Proof.
  intros ->. rewrite push_last, length_drop.
  destruct (decide (length h <= n)) as [Hn|Hn].
  - replace (length h - n) with 0 by lia. by rewrite drop_0, Nat.sub_0_r.
  - rewrite <-drop_app_le by lia. rewrite drop_drop. f_equal. lia.
Qed.
Lemma last_of_suffix {A} t n (h : list A) : t ≤ n →
  drop (length (drop (length h - n) h) - t) (drop (length h - n) h) = drop (length h - t) h.
Proof. intros Ht. rewrite length_drop, drop_drop. f_equal. lia. Qed.

(** * The detector against unbounded histories *)

Inductive call : Type :=
  | CRecord (t : string) (v : pyval)
  | CError (t e : string)
  | CResetErrors
  | CClear.
Definition apply_call (d : detector) (c : call) : detector :=
  match c with
  | CRecord t v => record t v d
  | CError t e => record_error t e d
  | CResetErrors => reset_errors d
  | CClear => clear d
  end.
(** The calls recorded since the last [clear], the errors since the last
    [clear] or [reset_errors]. *)
Definition call_history (cs : list call) : list (string * pyval) :=
  foldl (λ h c, match c with CRecord t v => h ++ [(t, v)] | CClear => [] | _ => h end) [] cs.
Definition error_run (cs : list call) : nat :=
  foldl (λ n c, match c with CError _ _ => S n | CResetErrors | CClear => 0 | CRecord _ _ => n end) 0 cs.

Lemma new_detector_spec thr size err d : new_detector thr size err = Some d →
  threshold d = thr ∧ Z.of_nat (window_size d) = size ∧ window d = [] ∧ consecutive_errors d = [] ∧
  error_threshold d = default (thr * 2)%Z err ∧ (error_threshold d * 2 <= Z.of_nat (error_history_max d))%Z ∧
  (0 <= size)%Z.
Proof.
  unfold new_detector. destruct (_ && _) eqn:Hb; [|done]. intros [= <-]. simpl.
  split_bools. split_and!; try done; lia.
Qed.
Lemma detector_follows d cs : window d = [] → consecutive_errors d = [] →
  let d' := foldl apply_call d cs in
  let h := (λ c, call_record c.1 c.2) <$> call_history cs in
  threshold d' = threshold d ∧ window_size d' = window_size d ∧
  error_threshold d' = error_threshold d ∧ error_history_max d' = error_history_max d ∧
  window d' = drop (length h - window_size d) h ∧
  length (consecutive_errors d') = Nat.min (error_run cs) (error_history_max d).
Proof.
  intros Hw He. cbv zeta. induction cs as [|c cs IH] using rev_ind.
  { simpl. by rewrite Hw, He. }
  unfold call_history, error_run in *. rewrite !foldl_snoc.
  set (d' := foldl apply_call d cs) in *. destruct IH as (H1 & H2 & H3 & H4 & H5 & H6).
  destruct c as [t v|t e| |]; simpl; split_and!; try done.
  - rewrite fmap_app, H2. simpl. rewrite length_app. simpl. rewrite Nat.add_1_r. by apply push_suffix.
  - rewrite push_last, length_drop, length_app, H4, H6. cbn [length].
    set (n := foldl _ _ _).
    destruct (error_history_max d); lia.
Qed.

(** C39. The bounded windows lose nothing the decisions need, as long as the
    threshold fits in the window: for a threshold between one and the window
    size, [should_intervene] holds exactly when the last [threshold] calls
    recorded since the last [clear] are the proposed one.  The constructor
    also takes a threshold above the window size, and then [should_intervene]
    never holds, whatever was recorded.  The window of errors always is long
    enough: for a non-negative error threshold [should_intervene_on_errors]
    holds exactly when the unbroken run of errors has reached it. *)
Theorem detector_refines thr size err d cs t v : new_detector thr size err = Some d →
  let d' := foldl apply_call d cs in
  let h := call_history cs in
  ((0 < thr <= size)%Z →
   should_intervene t v d' = true ↔
   Z.to_nat thr ≤ length h ∧
   ∀ c, c ∈ drop (length h - Z.to_nat thr) h → c.1 = t ∧ hash_input c.2 = hash_input v) ∧
  ((size < thr)%Z → should_intervene t v d' = false) ∧
  ((0 <= error_threshold d)%Z →
   should_intervene_on_errors d' = true ↔ (error_threshold d <= Z.of_nat (error_run cs))%Z).
Proof.
  intros Hd d' h. destruct (new_detector_spec _ _ _ _ Hd) as (H1 & H2 & H3 & H4 & H5 & H6 & _).
  destruct (detector_follows d cs H3 H4) as (E1 & _ & E3 & _ & E5 & E6).
  fold d' h in E1, E3, E5, E6. split_and!; intros Ht.
  - set (hr := (λ c : string * pyval, call_record c.1 c.2) <$> h) in *.
    assert (Hlen : length hr = length h) by apply length_fmap.
    unfold should_intervene. rewrite E1, H1, E5.
    destruct (Z.ltb_spec (Z.of_nat (length (drop (length hr - window_size d) hr))) thr) as [Hb|Hb].
    { split; [done|]. intros [Hl _]. rewrite length_drop in Hb. lia. }
    rewrite length_drop in Hb. unfold last_slice. rewrite (proj2 (Z.ltb_lt 0 thr)) by lia.
    rewrite last_of_suffix by lia. unfold hr at 2. rewrite Hlen, <-fmap_drop, forallb_elem.
    setoid_rewrite list_elem_of_fmap.
    split; [intros Hc; split; [lia|]|intros [_ Hc]].
    + intros c Hin. specialize (Hc (call_record c.1 c.2)). unfold same_call in Hc. simpl in Hc.
      assert (Hs := Hc ltac:(by exists c)). by split_bools.
    + intros x (c & -> & Hin). destruct (Hc c Hin) as [-> Hh]. unfold same_call. simpl.
      by rewrite Hh, !bool_decide_true.
  - unfold should_intervene. rewrite E1, H1, E5, (proj2 (Z.ltb_lt _ _)); [done|]. rewrite length_drop. lia.
  - unfold should_intervene_on_errors. rewrite E3, E6, Z.leb_le. lia.
Qed.

Lemma detector_refines_witness :
  let d := foldl apply_call (mkDetector 2 5 [] 4 8 []) [CRecord "ls" PNone; CRecord "ls" PNone] in
  should_intervene "ls" PNone d = true.
Proof.
  eapply (detector_refines 2 5 None (mkDetector 2 5 [] 4 8 []) [CRecord "ls" PNone; CRecord "ls" PNone]
           "ls" PNone); [reflexivity|lia|].
  split; [vm_compute; lia|]. simpl. intros c Hc. rewrite !elem_of_cons, elem_of_nil in Hc.
  destruct Hc as [->|[->|[]]]; done.
Defined.
