(* ===== verification/TaskDecomposer.v ===== *)
(** Decomposition of a query into sub-tasks by an LLM, and what is made of its
    answer.

    Source: src/src/infrastructure/agent/subagent/task_decomposer.py.  The LLM
    is a parameter: it is asked with a list of messages, with or without a
    forced tool choice, and answers a JSON value or raises.  The wording of the
    prompts is left out, what goes into them is not; a raised error is the name of
    its type, which is all that is kept of it. *)

From S2P Require Import Prelude Json.
From stdpp Require Import pretty.
From Stdlib Require Import Ascii.

Open Scope string_scope.
Open Scope list_scope.
Open Scope nat_scope.

(** * Data *)

(** The id of a task is whatever the answer holds; [K] is its type. *)
Record SubTask (K : Type) : Type := mkSubTask {
  st_id : K;
  description : pyval;
  target_subagent : pyval;
  dependencies : list K;
  task_priority : pyval;
}.
Arguments mkSubTask {K}.
Arguments st_id {K}.
Arguments description {K}.
Arguments target_subagent {K}.
Arguments dependencies {K}.
Arguments task_priority {K}.

Record DecompositionResult : Type := mkDecomposition {
  subtasks : list (SubTask pyval);
  reasoning : pyval;
  is_decomposed : bool;
}.
(** [SubTask(id="t1", description=query)] alone. *)
Definition single (query : string) (why : pyval) : DecompositionResult :=
  mkDecomposition [mkSubTask (PStr "t1") (PStr query) PNone [] (PInt 0)] why false.

Inductive prompt : Type :=
  | SystemPrompt (agents : list string) (max_subtasks min_subtasks : nat)
  | UserPrompt (context : option string) (query : string)
  | RepairPrompt (actual_count min_subtasks : nat) (query : string) (reason : pyval) (subtasks_json : string).
Inductive llm_answer : Type :=
  | Answers (v : pyval)
  | LlmRaises (error_type : string).

(** * Reading an answer *)

(** [d.get(k, default)]; AttributeError on anything but a dictionary. *)
Definition get_or (k : string) (default : pyval) (v : pyval) : result string pyval :=
  match v with
  | PDict d => Ok (dget_or default k d)
  | _ => Err "AttributeError"
  end.
(** [_read_field]: the values of JSON have no such attributes. *)
Definition read_field (source : pyval) (key : string) (default : pyval) : pyval :=
  match source with
  | PDict d => dget_or default key d
  | _ => default
  end.
(** [v[0]] for a true [v] *)
Definition first_item (v : pyval) : result string pyval :=
  match v with
  | PList (x :: _) => Ok x
  | PStr (String c _) => Ok (PStr (String c EmptyString))
  | PDict _ => Err "KeyError"
  | PList [] | PStr EmptyString => Err "IndexError"
  | _ => Err "TypeError"
  end.
(** [v[:n]], as the values a loop over it yields. *)
Definition first_items (n : nat) (v : pyval) : result string (list pyval) :=
  match v with
  | PList l => Ok (take n l)
  | PStr s => Ok (take n ((λ c, PStr (String c EmptyString)) <$> String.list_ascii_of_string s))
  | PDict _ => Err "KeyError"
  | _ => Err "TypeError"
  end.
(** [tuple(v)] *)
Definition tuple_of (v : pyval) : result string (list pyval) :=
  match v with
  | PList l => Ok l
  | PStr s => Ok ((λ c, PStr (String c EmptyString)) <$> String.list_ascii_of_string s)
  | PDict d => Ok (PStr <$> dkeys d)
  | _ => Err "TypeError"
  end.

(** [v == s] *)
Definition is_str (s : string) (v : pyval) : bool :=
  match v with PStr t => bool_decide (t = s) | _ => false end.

Section parse.
Context (max_subtasks : nat) (original_query : string).

(** One entry of [subtasks], at position [i]. *)
Definition parse_subtask (i : nat) (t : pyval) : result string (SubTask pyval) :=
  tid ← get_or "id" (PStr ("t" +:+ pretty (i + 1))) t;
  descr ← get_or "description" (PStr original_query) t;
  target ← get_or "target_agent" PNone t;
  deps ← get_or "depends_on" (PList []) t;
  deps ← tuple_of deps;
  prio ← get_or "priority" (PInt 0) t;
  Ok (mkSubTask tid descr (if is_str "auto" target then PNone else target) deps prio).
Fixpoint parse_subtasks (i : nat) (ts : list pyval) : result string (list (SubTask pyval)) :=
  match ts with
  | [] => Ok []
  | t :: ts' => st ← parse_subtask i t; rest ← parse_subtasks (S i) ts'; Ok (st :: rest)
  end.
Definition parse_arguments (args : list (string * pyval)) : result string DecompositionResult :=
  let raw_tasks := dget_or (PList []) "subtasks" args in
  let why := dget_or (PStr "") "reasoning" args in
  if negb (py_truth raw_tasks) then
    Ok (single original_query (if py_truth why then why else PStr "No sub-tasks produced"))
  else
    ts ← first_items max_subtasks raw_tasks;
    sts ← parse_subtasks 0 ts;
    Ok (mkDecomposition sts why (1 <? length sts)).

(** ** The content of an answer without a tool call *)

Definition is_break (c : ascii) : bool :=
  bool_decide (nat_of_ascii c ∈ [10; 13; 11; 12; 28; 29; 30; 133]).
(** [str.splitlines] *)
Fixpoint splitlines (cur s : chars) : list chars :=
  match s with
  | [] => match cur with [] => [] | _ => [cur] end
  | c :: s1 =>
      if is_break c then
        match s1 with
        | d :: s2 =>
            if (nat_of_ascii c =? 13) && (nat_of_ascii d =? 10) then cur :: splitlines [] s2
            else cur :: splitlines [] s1
        | [] => [cur]
        end
      else splitlines (cur ++ [c]) s1
  end.
Definition fence : string := "```".
(** The text between the first and the last line of a fenced block. *)
Definition unfence (text : string) : string :=
  if String.prefix fence text then
    let lines := splitlines [] (String.list_ascii_of_string text) in
    if 3 <=? length lines then
      strip (String.string_of_list_ascii
               (join_chars [ascii_of_nat 10] (removelast (tail lines))))
    else text
  else text.
Fixpoint find_char (c : ascii) (s : chars) : option nat :=
  match s with
  | [] => None
  | x :: s' => if Ascii.eqb x c then Some 0 else S <$> find_char c s'
  end.
Fixpoint rfind_char (c : ascii) (s : chars) : option nat :=
  match s with
  | [] => None
  | x :: s' =>
      match rfind_char c s' with
      | Some n => Some (S n)
      | None => if Ascii.eqb x c then Some 0 else None
      end
  end.
(** [text[start:end + 1]] from the first [{] to the last [}]. *)
Definition braced (text : string) : option string :=
  let s := String.list_ascii_of_string text in
  i ← find_char "{" s;
  j ← rfind_char "}" s;
  if j <=? i then None else Some (String.string_of_list_ascii (take (j + 1 - i) (drop i s))).
Definition parse_json_content (content : pyval) : option (list (string * pyval)) :=
  match content with
  | PStr c =>
      if negb (truthy (strip c)) then None
      else
        let text := unfence (strip c) in
        let parsed := match json_loads text with
                      | Some v => Some v
                      | None => t ← braced text; json_loads t
                      end in
        match parsed with Some (PDict d) => Some d | _ => None end
  | _ => None
  end.

(** The arguments of the tool call: text to be parsed, or a value already. *)
Definition load_args (args_raw : pyval) : option pyval :=
  match args_raw with PStr s => json_loads s | v => Some v end.
Definition parse_response (response : pyval) : result string DecompositionResult :=
  tool_calls ← get_or "tool_calls" (PList []) response;
  if negb (py_truth tool_calls) then
    content ← get_or "content" PNone response;
    match parse_json_content content with
    | Some args => parse_arguments args
    | None => Ok (single original_query (PStr "LLM did not decompose"))
    end
  else
    tool_call ← first_item tool_calls;
    let function_data := read_field tool_call "function" tool_call in
    let args_raw := read_field function_data "arguments" (PStr "{}") in
    match load_args args_raw with
    | Some (PDict d) => parse_arguments d
    | _ => Ok (single original_query (PStr "Failed to parse decomposition"))
    end.
End parse.

(** * The decomposer *)

Record TaskDecomposer : Type := mkDecomposer {
  has_llm : bool;
  agent_names : list string;
  max_subtasks : nat;
  min_subtasks : nat;
}.
(** [__init__] *)
Definition new_decomposer (llm : bool) (names : list string) (max min : Z) : TaskDecomposer :=
  let max := Z.max 1 max in
  mkDecomposer llm names (Z.to_nat max) (Z.to_nat (Z.max 1 (Z.min min max))).
Definition update_agents (names : list string) (d : TaskDecomposer) : TaskDecomposer :=
  mkDecomposer (has_llm d) names (max_subtasks d) (min_subtasks d).

(** The entry of [subtasks_json] for a task. *)
Definition subtask_json (st : SubTask pyval) : pyval :=
  PDict [("id", st_id st); ("description", description st);
         ("target_agent", if py_truth (target_subagent st) then target_subagent st else PStr "auto");
         ("depends_on", PList (dependencies st)); ("priority", task_priority st)].

Section decompose.
Context {St : Type} (llm : bool → list prompt → St → St * llm_answer).

(** [_generate_decomposition]: once more without the tool choice. *)
Definition generate_decomposition (messages : list prompt) (st : St) : St * llm_answer :=
  match llm true messages st with
  | (st, Answers v) => (st, Answers v)
  | (st, LlmRaises _) => llm false messages st
  end.
Definition repair_coarse (d : TaskDecomposer) (query : string) (initial : DecompositionResult)
    (requested : nat) (system : prompt) (st : St) : St * result string DecompositionResult :=
  let json := json_dumps false false (PList (subtask_json <$> subtasks initial)) in
  let why := if py_truth (reasoning initial) then reasoning initial else PStr "none" in
  match generate_decomposition
          [system; RepairPrompt (length (subtasks initial)) requested query why json] st with
  | (st, LlmRaises _) => (st, Ok initial)
  | (st, Answers response) =>
      (st, repaired ← parse_response (max_subtasks d) query response;
           Ok (if length (subtasks repaired) <=? length (subtasks initial) then initial else repaired))
  end.
(** The number of sub-tasks below which a repair is asked for. *)
Definition repair_min (d : TaskDecomposer) (result : DecompositionResult) : nat :=
  if (length (subtasks result) <=? 1) && (1 <? max_subtasks d) then Nat.max (min_subtasks d) 2
  else min_subtasks d.
Definition failed_decomposition (query error_type : string) : DecompositionResult :=
  single query (PStr ("Decomposition failed: " +:+ error_type)).
Definition decompose (d : TaskDecomposer) (query : string) (context : option string) (st : St)
    : St * DecompositionResult :=
  if negb (has_llm d) then (st, single query (PStr "No LLM client available"))
  else
    let system := SystemPrompt (agent_names d) (max_subtasks d) (min_subtasks d) in
    let context := if truthy_opt context then context else None in
    match generate_decomposition [system; UserPrompt context query] st with
    | (st, LlmRaises e) => (st, failed_decomposition query e)
    | (st, Answers response) =>
        match parse_response (max_subtasks d) query response with
        | Err e => (st, failed_decomposition query e)
        | Ok result =>
            if (length (subtasks result) <? repair_min d result) && (1 <? max_subtasks d) then
              match repair_coarse d query result (repair_min d result) system st with
              | (st, Err e) => (st, failed_decomposition query e)
              | (st, Ok repaired) =>
                  (st, if length (subtasks result) <? length (subtasks repaired) then repaired else result)
              end
            else (st, result)
        end
    end.
End decompose.

(** * What comes out *)

Lemma parse_subtasks_length q i ts sts : parse_subtasks q i ts = Ok sts → length sts = length ts.
Proof.
  revert i sts. induction ts as [|t ts IH]; intros i sts Hp; simpl in Hp; [by simplify_eq|].
  destruct (parse_subtask q i t); [|done]. simpl in Hp.
  destruct (parse_subtasks q (S i) ts) as [rest|] eqn:Hr; [|done]. simpl in Hp. simplify_eq.
  simpl. f_equal. by eapply IH.
Qed.
Lemma first_items_bounds n v ts : 0 < n → py_truth v = true → first_items n v = Ok ts → 1 ≤ length ts ≤ n.
Proof.
  intros Hn Ht. destruct v as [| | |s|l|]; try done; intros [= <-]; rewrite length_take.
  - rewrite length_fmap. destruct s; simpl in *; [done|lia].
  - destruct l; simpl in *; [done|lia].
Qed.
(** What every decomposition that is returned satisfies. *)
Definition well_sized (n : nat) (r : DecompositionResult) : Prop :=
  1 ≤ length (subtasks r) ≤ n ∧ is_decomposed r = (1 <? length (subtasks r)).
Lemma single_sized n q why : 0 < n → well_sized n (single q why).
Proof. intros Hn. split; [simpl; lia|done]. Qed.
Lemma parse_arguments_sized n q args r : 0 < n → parse_arguments n q args = Ok r → well_sized n r.
Proof.
  intros Hn. unfold parse_arguments. destruct (py_truth _) eqn:Ht; simpl.
  2:{ intros [= <-]. by apply single_sized. }
  destruct (first_items _ _) as [ts|] eqn:Hf; [|done]. simpl.
  destruct (parse_subtasks _ _ _) as [sts|] eqn:Hp; [|done]. intros [= <-].
  split; [|done]. simpl. apply parse_subtasks_length in Hp. rewrite Hp. by eapply first_items_bounds.
Qed.
Lemma parse_response_sized n q v r : 0 < n → parse_response n q v = Ok r → well_sized n r.
Proof.
  intros Hn. unfold parse_response. destruct (get_or "tool_calls" _ v) as [calls|]; [|done]. simpl.
  destruct (py_truth calls); simpl.
  - destruct (first_item calls) as [call|]; [|done]. simpl.
    destruct (load_args _) as [[| | | | |d]|];
      try (intros [= <-]; by apply single_sized). by apply parse_arguments_sized.
  - destruct (get_or "content" _ v) as [content|]; [|done]. simpl.
    destruct (parse_json_content content); [by apply parse_arguments_sized|].
    intros [= <-]. by apply single_sized.
Qed.

(** Whatever the LLM answers, twice or three times, or fails to, a
    decomposition comes out: with at least one sub-task and at most the maximum,
    and flagged as decomposed exactly when it has more than one. *)
Theorem decompose_total {St} (llm : bool → list prompt → St → St * llm_answer) has names max min query context st :
  well_sized (Z.to_nat (Z.max 1 max)) (decompose llm (new_decomposer has names max min) query context st).2.
Proof.
  set (d := new_decomposer has names max min).
  assert (Hn : 0 < max_subtasks d) by (simpl; lia). change (Z.to_nat (Z.max 1 max)) with (max_subtasks d).
  unfold decompose. destruct (has_llm d); simpl negb; cbv iota; [|by apply single_sized].
  destruct (generate_decomposition _ _ st) as [st1 [v|e]]; [|by apply single_sized].
  destruct (parse_response _ _ v) as [r|] eqn:Hp; [|by apply single_sized].
  apply parse_response_sized in Hp; [|done].
  destruct (_ && _); [|done]. unfold repair_coarse.
  destruct (generate_decomposition _ _ st1) as [st2 [v'|]]; cbn [snd]; [|by destruct (_ <? _)].
  destruct (parse_response _ _ v') as [r'|] eqn:Hp'; cbn; [|by apply single_sized].
  apply parse_response_sized in Hp'; [|done]. by repeat case_match.
Qed.

(** ** The entries of [subtasks_json] are read back *)

(** A target the code itself produces. *)
Definition plain_target (st : SubTask pyval) : Prop :=
  target_subagent st = PNone ∨ (py_truth (target_subagent st) = true ∧ target_subagent st ≠ PStr "auto").
Lemma parse_subtask_json q i st : plain_target st → parse_subtask q i (subtask_json st) = Ok st.
Proof.
  destruct st as [i' descr target deps prio]. intros [Ht|[Ht Ha]]; simpl in *.
  - subst target. reflexivity.
  - unfold parse_subtask, subtask_json.
    cbn [st_id description target_subagent dependencies task_priority]. rewrite Ht.
    cbv [mbind result_bind get_or dget_or]. simpl.
    destruct target as [| | |s| |]; try done. simpl. rewrite bool_decide_false by congruence. done.
Qed.

Lemma parse_subtasks_json q i sts : (∀ st, st ∈ sts → plain_target st) →
  parse_subtasks q i (subtask_json <$> sts) = Ok sts.
Proof.
  revert i. induction sts as [|st sts IH]; intros i Hp; [done|]. rewrite fmap_cons. cbn [parse_subtasks].
  rewrite parse_subtask_json by (apply Hp; left). cbn. rewrite IH; [done|]. intros ? ?. apply Hp. by right.
Qed.
(** The values a task carries are JSON values. *)
Definition json_task (st : SubTask pyval) : Prop :=
  json_wf (st_id st) ∧ json_wf (description st) ∧ json_wf (target_subagent st) ∧
  (∀ x, x ∈ dependencies st → json_wf x) ∧ json_wf (task_priority st).
Lemma subtask_json_wf st : json_task st → json_wf (subtask_json st).
Proof.
  intros (H1 & H2 & H3 & H4 & H5). constructor; [vm_decide|]. intros kv Hin.
  unfold subtask_json in Hin. rewrite !elem_of_cons, elem_of_nil in Hin.
  destruct Hin as [->|[->|[->|[->|[->|[]]]]]]; simpl; try done; [by case_match; [|constructor]|by constructor].
Qed.

(** The answer that calls the tool with [args]. *)
Definition tool_answer (args : pyval) : pyval :=
  PDict [("tool_calls", PList [PDict [("function", PDict [("arguments", PStr (json_dumps false false args))])]])].

Lemma parse_tool_answer n query args : parse_response n query (tool_answer args) =
  match json_loads (json_dumps false false args) with
  | Some (PDict d) => parse_arguments n query d
  | _ => Ok (single query (PStr "Failed to parse decomposition"))
  end.
Proof. reflexivity. Qed.
Lemma parse_two_arguments n query ts why : parse_arguments n query [("subtasks", ts); ("reasoning", why)] =
  if negb (py_truth ts) then Ok (single query (if py_truth why then why else PStr "No sub-tasks produced"))
  else ts ← first_items n ts; sts ← parse_subtasks query 0 ts; Ok (mkDecomposition sts why (1 <? length sts)).
Proof. reflexivity. Qed.

(** The tasks shown to the LLM for repair are written in the format its
    answers are read in: an answer that repeats them, as JSON text, is read as
    the same tasks, with their dependencies, targets and priorities. *)
Theorem subtasks_roundtrip n query sts why :
  (∀ st, st ∈ sts → json_task st ∧ plain_target st) → json_wf why → 1 ≤ length sts ≤ n →
  parse_response n query
    (tool_answer (PDict [("subtasks", PList (subtask_json <$> sts)); ("reasoning", why)])) =
  Ok (mkDecomposition sts why (1 <? length sts)).
Proof.
  intros Hst Hwhy Hlen. rewrite parse_tool_answer, json_loads_dumps.
  - rewrite parse_two_arguments. destruct sts as [|st sts]; [simpl in Hlen; lia|]. cbn [py_truth fmap list_fmap length negb Nat.eqb].
    unfold first_items. rewrite take_ge by (simpl; rewrite length_fmap; simpl in *; lia).
    cbn [mbind result_bind]. change (subtask_json st :: _) with (subtask_json <$> st :: sts).
    rewrite parse_subtasks_json; [done|]. intros x Hx. by apply Hst.
  - constructor; [vm_decide|]. intros kv Hin. rewrite !elem_of_cons, elem_of_nil in Hin.
    destruct Hin as [->|[->|[]]]; simpl; [|done]. constructor. intros v Hv.
    apply list_elem_of_fmap in Hv as (st & -> & Hin). by apply subtask_json_wf, Hst.
Qed.

(** Asking for a finer decomposition never makes it coarser, except in
    one way: an answer to the repair that cannot be read discards the valid
    decomposition the first answer gave, and a single task is returned. *)
Theorem repair_outcome {St} (llm : bool → list prompt → St → St * llm_answer) d query context st st1 v r :
  has_llm d = true →
  generate_decomposition llm [SystemPrompt (agent_names d) (max_subtasks d) (min_subtasks d);
    UserPrompt (if truthy_opt context then context else None) query] st = (st1, Answers v) →
  parse_response (max_subtasks d) query v = Ok r → length (subtasks r) < repair_min d r → 1 < max_subtasks d →
  let '(st', out) := decompose llm d query context st in
  ∃ st2 answer messages, generate_decomposition llm messages st1 = (st2, answer) ∧ st' = st2 ∧
  match answer with
  | LlmRaises _ => out = r
  | Answers v' =>
      match parse_response (max_subtasks d) query v' with
      | Ok r' => out = if length (subtasks r) <? length (subtasks r') then r' else r
      | Err e => out = failed_decomposition query e
      end
  end.
Proof.
  intros Hl Hg Hp Hlt Hmax. unfold decompose. rewrite Hl. cbn [negb]. rewrite Hg, Hp.
  rewrite (proj2 (Nat.ltb_lt _ _) Hlt), (proj2 (Nat.ltb_lt _ _) Hmax). cbn [andb].
  unfold repair_coarse. set (ms := [_; RepairPrompt _ _ _ _ _]).
  destruct (generate_decomposition llm ms st1) as [st2 answer] eqn:Ha.
  destruct answer as [v'|e].
  - destruct (parse_response _ _ v') as [r'|e] eqn:Hp'; cbn [mbind result_bind].
    + exists st2, (Answers v'), ms. rewrite Hp'. split_and!; [done|done|].
      destruct (Nat.leb_spec (length (subtasks r')) (length (subtasks r))) as [Hle|Hgt].
      * rewrite (proj2 (Nat.ltb_ge _ _) Hle). by destruct (_ <? _).
      * by rewrite !(proj2 (Nat.ltb_lt _ _) Hgt).
    + exists st2, (Answers v'), ms. by rewrite Hp'.
  - exists st2, (LlmRaises e), ms. split_and!; [done|done|]. by rewrite Nat.ltb_irrefl.
Qed.

(** * The theorems at work *)

Definition two_tasks : list (SubTask pyval) :=
  [mkSubTask (PStr "a") (PStr "find") PNone [] (PInt 0);
   mkSubTask (PStr "b") (PStr "write") (PStr "writer") [PStr "a"] (PInt 1)].
Lemma subtasks_roundtrip_witness :
  parse_response 8 "q" (tool_answer (PDict [("subtasks", PList (subtask_json <$> two_tasks));
    ("reasoning", PStr "two steps")])) = Ok (mkDecomposition two_tasks (PStr "two steps") true).
Proof.
  apply (subtasks_roundtrip 8 "q" two_tasks (PStr "two steps")); [|constructor|simpl; lia].
  intros st Hst. unfold two_tasks in Hst. rewrite !elem_of_cons, elem_of_nil in Hst.
  destruct Hst as [->|[->|[]]]; (split; [split_and!; try constructor|]).
  - by intros ? ?%elem_of_nil.
  - by left.
  - intros x Hx. apply list_elem_of_singleton in Hx as ->. constructor.
  - by right.
Defined.

(** The first answer has one task, the second a null where a list belongs. *)
Definition null_dependencies (first : bool) : pyval :=
  PDict [("tool_calls", PList [PDict [("arguments", PDict [("subtasks",
    PList [PDict [("id", PStr "a"); ("description", PStr "all of it");
                  ("depends_on", if first then PList [] else PNone)]])])]])].
Definition forgetful_llm (forced : bool) (ms : list prompt) (n : nat) : nat * llm_answer :=
  (S n, Answers (null_dependencies (n =? 0))).
Lemma repair_outcome_witness :
  (decompose forgetful_llm (new_decomposer true [] 8 1) "q" None 0).2 = failed_decomposition "q" "TypeError".
Proof.
  pose proof (repair_outcome forgetful_llm (new_decomposer true [] 8 1) "q" None 0 1
    (null_dependencies true)
    (mkDecomposition [mkSubTask (PStr "a") (PStr "all of it") PNone [] (PInt 0)] (PStr "") false)) as Hx.
  specialize (Hx eq_refl eq_refl eq_refl ltac:(vm_compute; lia) ltac:(simpl; lia)).
  destruct (decompose _ _ _ _ _) as [st' out]. destruct Hx as (st2 & a & ms & Ha & _ & Hout).
  unfold generate_decomposition in Ha. simpl in Ha. simplify_eq. exact Hout.
Defined.
