(* ===== verification/Scheduler.v ===== *)
(** Parallel execution of sub-tasks under dependencies, a concurrency limit and
    an abort signal.

    Source: src/src/infrastructure/agent/subagent/parallel_scheduler.py.  Each
    task is a coroutine, cut at its awaits: it polls its dependencies, queues
    for the semaphore, runs the agent's process, and ends.  The process itself
    (LLM calls) is a parameter: what it emits and how it ends are the operations
    [ORelay] and [OEnd].  The consumer of the generator takes one event at a
    time.  asyncio's semaphore is a counter with a first-in first-out queue. *)

From S2P Require Import Prelude Kahn TaskDecomposer.

Open Scope string_scope.
Open Scope list_scope.
Open Scope nat_scope.

Record ParallelSchedulerConfig : Type := mkSchedulerConfig {
  max_concurrency : Z;
  subtask_timeout : Z;
  abort_on_first_failure : bool;
}.
Definition default_scheduler_config : ParallelSchedulerConfig := mkSchedulerConfig 3 120 false.

(** Where the coroutine of a task is: polling its dependencies, in the queue
    of the semaphore, inside it, or over - after its process, without having
    started (aborted), or by an exception before its [try]. *)
Inductive phase : Set := Waiting | Queued | Running | Ended | Returned | Crashed.
#[export] Instance phase_eq_dec : EqDecision phase.
Proof. solve_decision. Defined.
Definition over (p : phase) : bool := bool_decide (p ∈ [Ended; Returned; Crashed]).

Section scheduler.
Context {K Agent R : Type} `{EqDecision K}.
Context (key_value : K → pyval) (display_name : Agent → string).

Record SubTaskExecution : Type := mkExecution {
  subtask : SubTask K;
  subagent : Agent;
  exec_result : option R;
  started : bool;
  completed : bool;
  exec_error : option string;
  exec_phase : phase;
}.
Inductive event : Type :=
  | ParallelStarted (task_count : nat) (task_ids : list K)
  | SubtaskStarted (task_id : K) (subagent_name : string) (descr : pyval)
  | Relayed (task_id : K) (ev : list (string * pyval))
  | SubtaskCompleted (task_id : K) (success : bool) (error : option string)
  | ParallelCompleted (total succeeded failed : nat) (results : list R).

(** [_RunTaskContext], the executions, and what the generator has yielded. *)
Record state : Type := mkState {
  executions : list (K * SubTaskExecution);
  completed_ids : list K;
  results : list R;
  event_queue : list event;
  permits : nat;
  sem_waiters : list K;
  aborted : bool;
  yielded : list event;
  finished : bool;
}.

(** * Starting *)

(** [_resolve_agent]; TypeError for a target that cannot be a key. *)
Definition resolve_agent (st : SubTask K) (agents : list (string * Agent)) : result string (option Agent) :=
  let first := snd <$> head agents in
  if py_truth (target_subagent st) then
    match target_subagent st with
    | PStr name => Ok (match dget name agents with Some a => Some a | None => first end)
    | PList _ | PDict _ => Err "TypeError"
    | _ => Ok first
    end
  else Ok first.
Definition new_execution (st : SubTask K) (a : Agent) : SubTaskExecution :=
  mkExecution st a None false false None Waiting.
Fixpoint build_execution_map (tasks : list (SubTask K)) (agents : list (string * Agent))
    (m : list (K * SubTaskExecution)) : result string (list (K * SubTaskExecution)) :=
  match tasks with
  | [] => Ok m
  | st :: tasks' =>
      agent ← resolve_agent st agents;
      build_execution_map tasks' agents
        (match agent with Some a => dset (st_id st) (new_execution st a) m | None => m end)
  end.

(** The generator up to the launch of the tasks. *)
Inductive launch : Type :=
  | NothingToDo
  | LaunchRaises (yields : list event)
  | Launched (s : state).
Definition execute (cfg : ParallelSchedulerConfig) (tasks : list (SubTask K))
    (agents : list (string * Agent)) (abort : bool) : launch :=
  match tasks with
  | [] => NothingToDo
  | _ =>
      match build_execution_map tasks agents [] with
      | Err _ => LaunchRaises []
      | Ok [] => NothingToDo
      | Ok m =>
          let start := ParallelStarted (length m) (dkeys m) in
          if (max_concurrency cfg <? 0)%Z then LaunchRaises [start]
          else Launched (mkState m [] [] [] (Z.to_nat (max_concurrency cfg)) [] abort [start] false)
      end
  end.

(** * The steps of a task *)

Definition set_execution (t : K) (e : SubTaskExecution) (s : state) : state :=
  mkState (dset t e (executions s)) (completed_ids s) (results s) (event_queue s) (permits s)
    (sem_waiters s) (aborted s) (yielded s) (finished s).
Definition set_phase (p : phase) (start : bool) (e : SubTaskExecution) : SubTaskExecution :=
  mkExecution (subtask e) (subagent e) (exec_result e) start (completed e) (exec_error e) p.
Definition put_event (ev : event) (s : state) : state :=
  mkState (executions s) (completed_ids s) (results s) (event_queue s ++ [ev]) (permits s)
    (sem_waiters s) (aborted s) (yielded s) (finished s).
Definition set_semaphore (n : nat) (waiters : list K) (s : state) : state :=
  mkState (executions s) (completed_ids s) (results s) (event_queue s) n waiters (aborted s)
    (yielded s) (finished s).

(** [description[:200]] *)
Definition slice200 (v : pyval) : option pyval :=
  match v with
  | PStr s => Some (PStr (String.substring 0 200 s))
  | PList l => Some (PList (take 200 l))
  | _ => None
  end.
(** Inside [async with ctx.semaphore], a permit taken: up to the process, or
    out of it when the description cannot be sliced. *)
Definition enter (t : K) (e : SubTaskExecution) (s : state) : state :=
  match slice200 (description (subtask e)) with
  | Some d => put_event (SubtaskStarted t (display_name (subagent e)) d)
                (set_execution t (set_phase Running true e) s)
  | None => set_semaphore (S (permits s)) (sem_waiters s) (set_execution t (set_phase Crashed true e) s)
  end.
(** The semaphore is taken at once, or the task queues for it. *)
Definition acquire (t : K) (e : SubTaskExecution) (s : state) : state :=
  match permits s, sem_waiters s with
  | S n, [] => enter t e (set_semaphore n [] s)
  | _, _ => set_semaphore (permits s) (sem_waiters s ++ [t])
              (set_execution t (set_phase Queued (started e) e) s)
  end.
Definition dependencies_done (e : SubTaskExecution) (s : state) : bool :=
  forallb (λ d, bool_decide (d ∈ completed_ids s)) (dependencies (subtask e)).
(** One round of [_wait_for_dependencies] and what follows it. *)
Definition poll (t : K) (e : SubTaskExecution) (s : state) : state :=
  if aborted s then set_execution t (set_phase Returned (started e) e) s
  else if dependencies_done e s then acquire t e s
  else s.

(** [_collect_events] *)
Definition tag_event (t : K) (ev : list (string * pyval)) : list (string * pyval) :=
  match dget "data" ev with
  | Some (PDict d) => dset "data" (PDict (dset "task_id" (key_value t) d)) ev
  | _ => dset "task_id" (key_value t) ev
  end.
Inductive outcome : Type :=
  | Succeeds (r : option R)
  | TimesOut (message : string)
  | Fails (message : string).
(** The end of the process and the [finally]. *)
Definition end_task (t : K) (e : SubTaskExecution) (o : outcome) (s : state) : state :=
  let '(r, done, err) := match o with
    | Succeeds r => (r, true, exec_error e)
    | TimesOut m | Fails m => (exec_result e, completed e, Some m)
    end in
  let e' := mkExecution (subtask e) (subagent e) r (started e) done err Ended in
  let success := done && negb (truthy_opt err) in
  mkState (dset t e' (executions s)) (set_add t (completed_ids s)) (results s ++ option_list r)
    (event_queue s ++ [SubtaskCompleted t success err]) (S (permits s)) (sem_waiters s) (aborted s)
    (yielded s) (finished s).

(** The last event. *)
Definition failed_execution (e : SubTaskExecution) : bool := truthy_opt (exec_error e).
Definition succeeded_execution (e : SubTaskExecution) : bool := completed e && negb (failed_execution e).
Definition summary (s : state) : event :=
  let es := dvals (executions s) in
  ParallelCompleted (length es) (length (filter (λ e, succeeded_execution e = true) es))
    (length (filter (λ e, failed_execution e = true) es)) (results s).
(** The consumer asks for the next event; the sentinel follows the last task. *)
Definition receive (s : state) : state :=
  if finished s then s
  else
    match event_queue s with
    | ev :: q => mkState (executions s) (completed_ids s) (results s) q (permits s) (sem_waiters s)
                   (aborted s) (yielded s ++ [ev]) (finished s)
    | [] =>
        if forallb (λ e, over (exec_phase e)) (dvals (executions s)) then
          mkState (executions s) (completed_ids s) (results s) [] (permits s) (sem_waiters s)
            (aborted s) (yielded s ++ [summary s]) true
        else s
    end.

Inductive op : Type :=
  | OPoll (t : K)
  | OAcquire
  | ORelay (t : K) (ev : list (string * pyval))
  | OEnd (t : K) (o : outcome)
  | OAbort
  | OReceive.
Definition at_phase (p : phase) (t : K) (s : state) (f : SubTaskExecution → state) : state :=
  match dget t (executions s) with
  | Some e => if decide (exec_phase e = p) then f e else s
  | None => s
  end.
Definition step (o : op) (s : state) : state :=
  match o with
  | OPoll t => at_phase Waiting t s (λ e, poll t e s)
  | OAcquire =>
      match permits s, sem_waiters s with
      | S n, t :: waiters => at_phase Queued t s (λ e, enter t e (set_semaphore n waiters s))
      | _, _ => s
      end
  | ORelay t ev => at_phase Running t s (λ _, put_event (Relayed t (tag_event t ev)) s)
  | OEnd t out => at_phase Running t s (λ e, end_task t e out s)
  | OAbort => mkState (executions s) (completed_ids s) (results s) (event_queue s) (permits s)
                (sem_waiters s) true (yielded s) (finished s)
  | OReceive => receive s
  end.
Definition run (ops : list op) (s : state) : state := foldl (λ s o, step o s) s ops.
End scheduler.

(** * The invariant *)

Section invariant.
Context {K Agent R : Type} `{EqDecision K}.
Context (key_value : K → pyval) (display_name : Agent → string).
Notation exec := (SubTaskExecution (K := K) (Agent := Agent) (R := R)).
Notation state := (state (K := K) (Agent := Agent) (R := R)).
Notation event := (event (K := K) (R := R)).
Notation step := (step (R := R) key_value display_name).
Notation run := (run (R := R) key_value display_name).
Implicit Types (s : state) (e : exec) (t d : K).

Definition phase_of t s : option phase := exec_phase <$> dget t (executions s).
Definition deps_of e : list K := dependencies (subtask e).
Definition running_weight e : nat := if decide (exec_phase e = Running) then 1 else 0.
Definition running_count s : nat := sum_list (running_weight <$> dvals (executions s)).
(** The task has passed its dependencies. *)
Definition passed (p : phase) : bool := bool_decide (p ∈ [Queued; Running; Ended; Crashed]).

Context (n : nat) (m0 : list (K * exec)).
Record sched_ok s : Prop := {
  ok_keys : dkeys (executions s) = dkeys m0;
  ok_static : ∀ t e, dget t (executions s) = Some e → ∃ e0, dget t m0 = Some e0 ∧ subtask e = subtask e0;
  ok_permits : permits s + running_count s = n;
  ok_waiters : NoDup (sem_waiters s) ∧ ∀ t, t ∈ sem_waiters s ↔ phase_of t s = Some Queued;
  ok_completed : ∀ t, t ∈ completed_ids s ↔ phase_of t s = Some Ended;
  ok_deps : ∀ t e, dget t (executions s) = Some e → passed (exec_phase e) = true →
    ∀ d, d ∈ deps_of e → d ∈ completed_ids s;
  ok_returned : aborted s = false → ∀ t, phase_of t s ≠ Some Returned;
  ok_crashed : ∀ t e, dget t (executions s) = Some e → exec_phase e = Crashed →
    slice200 (description (subtask e)) = None;
  ok_finished : finished s = true → ∀ t e, dget t (executions s) = Some e → over (exec_phase e) = true;
}.

Lemma phase_of_some t s p : phase_of t s = Some p ↔ ∃ e, dget t (executions s) = Some e ∧ exec_phase e = p.
Proof. unfold phase_of. rewrite fmap_Some. split; intros (e & ? & ?); by exists e. Qed.

(** The changes of phase, and the events they emit. *)
Definition phase_step (p q : phase) : bool :=
  match p with
  | Waiting => bool_decide (q ∈ [Queued; Running; Returned; Crashed])
  | Queued => bool_decide (q ∈ [Running; Crashed])
  | Running => bool_decide (q = Ended)
  | _ => false
  end.
Definition emits t (p : phase) (evs : list event) : Prop :=
  match p with
  | Running => ∃ name descr, evs = [SubtaskStarted t name descr]
  | Ended => ∃ success err, evs = [SubtaskCompleted t success err]
  | _ => evs = []
  end.
(** The effect of a step on one task, and what it must keep. *)
Record moves t e e' s s' : Prop := {
  mv_old : dget t (executions s) = Some e;
  mv_new : executions s' = dset t e' (executions s);
  mv_subtask : subtask e' = subtask e;
  mv_phase : phase_step (exec_phase e) (exec_phase e') = true;
  mv_permits : permits s' + running_weight e' = permits s + running_weight e;
  mv_completed : ∀ d, d ∈ completed_ids s' ↔ d ∈ completed_ids s ∨ (d = t ∧ exec_phase e' = Ended);
  mv_waiters : NoDup (sem_waiters s') ∧
    ∀ d, d ∈ sem_waiters s' ↔ (d ≠ t ∧ d ∈ sem_waiters s) ∨ (d = t ∧ exec_phase e' = Queued);
  mv_deps : passed (exec_phase e') = true → ∀ d, d ∈ deps_of e → d ∈ completed_ids s;
  mv_aborted : aborted s' = aborted s ∧ (exec_phase e' = Returned → aborted s = true);
  mv_crashed : exec_phase e' = Crashed → slice200 (description (subtask e)) = None;
  mv_finished : finished s' = finished s;
  mv_yielded : yielded s' = yielded s;
  mv_queue : ∃ evs, emits t (exec_phase e') evs ∧ event_queue s' = event_queue s ++ evs;
}.
Lemma phase_step_open p q : phase_step p q = true → over p = false.
Proof. by destruct p. Qed.
Lemma moves_phase t e e' s s' d : moves t e e' s s' →
  phase_of d s' = if decide (t = d) then Some (exec_phase e') else phase_of d s.
Proof. intros H. unfold phase_of. rewrite (mv_new _ _ _ _ _ H), dget_dset. by case_decide. Qed.

Lemma moves_ok t e e' s s' : sched_ok s → moves t e e' s s' → sched_ok s'.
Proof.
  intros [Hk Hst Hp [Hnd Hw] Hc Hd Hr Hcr Hf] Hm.
  pose proof (λ d, moves_phase _ _ _ _ _ d Hm) as Hph.
  destruct Hm as [Hold Hnew Hsub Hopen%phase_step_open Hper Hcom [Hnd' Hw'] Hdep [Hab Hab'] Hcra Hfin _ _].
  assert (Hg : ∀ d x, dget d (executions s') = Some x → (d = t ∧ x = e') ∨ (d ≠ t ∧ dget d (executions s) = Some x)).
  { intros d x. rewrite Hnew, dget_dset. case_decide; [intros; simplify_eq; by left|]. intros. right. by split. }
  assert (Hnot : phase_of t s = Some (exec_phase e)) by (unfold phase_of; by rewrite Hold).
  constructor.
  - rewrite Hnew, dkeys_dset_old; [done|]. apply dget_is_Some_keys. eauto.
  - intros d x [[-> ->]|[_ Hx]]%Hg; [rewrite Hsub; by apply (Hst t e)|by apply (Hst d)].
  - unfold running_count in *. rewrite Hnew.
    pose proof (sum_dvals_dset running_weight t e' e (executions s) Hold). lia.
  - split; [done|]. intros d. rewrite Hw', Hph, Hw. case_decide as Ht; [subst d|].
    + split; [by intros [[? _]|[_ ->]]|intros [= ->]; by right].
    + split; [by intros [[_ ?]|[-> _]]|intros ?; left; by split].
  - intros d. rewrite Hcom, Hph, Hc. case_decide as Ht; [subst d|].
    + rewrite Hnot. split; [intros [[= He]|[_ ->]]; [by rewrite He in Hopen|done]|intros [= ->]; by right].
    + split; [by intros [?|[-> _]]|by left].
  - intros d x [[-> ->]|[_ Hx]]%Hg Hpass d' Hd'; apply Hcom; left.
    + apply Hdep; [done|]. unfold deps_of in *. by rewrite <-Hsub.
    + by apply (Hd d x).
  - rewrite Hab. intros Ha d. rewrite Hph. case_decide; [|by apply Hr].
    intros [= He]. rewrite Hab' in Ha; done.
  - intros d x [[-> ->]|[_ Hx]]%Hg; [rewrite Hsub; done|by apply (Hcr d)].
  - rewrite Hfin. intros Hfi. specialize (Hf Hfi t e Hold). congruence.
Qed.

(** A step that concerns no task. *)
Inductive frame_events s s' : Prop :=
  | no_event : event_queue s' = event_queue s → yielded s' = yielded s → finished s' = finished s →
      frame_events s s'
  | relayed_event t e ev : dget t (executions s) = Some e → exec_phase e = Running →
      event_queue s' = event_queue s ++ [Relayed t ev] → yielded s' = yielded s → finished s' = finished s →
      frame_events s s'
  | received_event ev : event_queue s = ev :: event_queue s' → yielded s' = yielded s ++ [ev] →
      finished s' = finished s → frame_events s s'
  | last_event : event_queue s = [] → event_queue s' = [] → yielded s' = yielded s ++ [summary s] →
      finished s = false → finished s' = true → frame_events s s'.
Record frame s s' : Prop := {
  fr_events : frame_events s s';
  fr_executions : executions s' = executions s;
  fr_completed : completed_ids s' = completed_ids s;
  fr_permits : permits s' = permits s;
  fr_waiters : sem_waiters s' = sem_waiters s;
  fr_aborted : aborted s' = false → aborted s = false;
  fr_finished : finished s' = true → finished s = true ∨
    ∀ t e, dget t (executions s) = Some e → over (exec_phase e) = true;
}.
Lemma frame_refl s : frame s s.
Proof. constructor; auto. by apply no_event. Qed.
Lemma frame_ok s s' : sched_ok s → frame s s' → sched_ok s'.
Proof.
  intros [Hk Hst Hp Hw Hc Hd Hr Hcr Hf] [_ He Hco Hpe Hwa Hab Hfi].
  constructor; unfold running_count, phase_of in *; rewrite ?He, ?Hco, ?Hpe, ?Hwa; auto.
  intros Hfin. destruct (Hfi Hfin) as [Hfs|Hall]; [exact (Hf Hfs)|exact Hall].
Qed.

Lemma enter_moves t e s s0 : sched_ok s → dget t (executions s) = Some e →
  exec_phase e ∈ [Waiting; Queued] → (∀ d, d ∈ deps_of e → d ∈ completed_ids s) →
  s0 = set_semaphore (pred (permits s)) (sem_waiters s0) s → 0 < permits s →
  (NoDup (sem_waiters s0) ∧ ∀ d, d ∈ sem_waiters s0 ↔ d ≠ t ∧ d ∈ sem_waiters s) →
  ∃ e', moves t e e' s (enter display_name t e s0).
Proof.
  intros Hok Hg Hp Hd Hs0 Hpos [Hnd Hw]. rewrite Hs0 in *. cbn [sem_waiters set_semaphore] in *.
  assert (Hwt : running_weight e = 0 ∧ over (exec_phase e) = false).
  { unfold running_weight. rewrite !elem_of_cons, elem_of_nil in Hp. destruct Hp as [->|[->|[]]]; done. }
  destruct Hwt as [Hwt Hov]. rewrite !elem_of_cons, elem_of_nil in Hp. unfold enter. destruct (slice200 _) eqn:Hsl.
  - exists (set_phase Running true e). constructor; try done; simpl; [by destruct Hp as [->|[->|[]]]|..].
    + rewrite Hwt. unfold running_weight. simpl. lia.
    + intros d'. split; [by left|by intros [?|[_ ?]]].
    + split; [done|]. intros d'. rewrite Hw. split; [by left|by intros [?|[_ ?]]].
    + eexists. split; [by do 2 eexists|done].
  - exists (set_phase Crashed true e). constructor; try done; simpl; [by destruct Hp as [->|[->|[]]]|..].
    + rewrite Hwt. unfold running_weight. simpl. lia.
    + intros d'. split; [by left|by intros [?|[_ ?]]].
    + split; [done|]. intros d'. rewrite Hw. split; [by left|by intros [?|[_ ?]]].
    + exists []. by rewrite app_nil_r.
Qed.

Lemma poll_moves t e s : sched_ok s → dget t (executions s) = Some e → exec_phase e = Waiting →
  poll display_name t e s = s ∨ ∃ e', moves t e e' s (poll display_name t e s).
Proof.
  intros Hok Hg Hp.
  assert (Hnw : t ∉ sem_waiters s).
  { rewrite (proj2 (ok_waiters _ Hok) t). unfold phase_of. rewrite Hg. simpl. rewrite Hp. by intros [=]. }
  assert (Hwt : running_weight e = 0) by (unfold running_weight; by rewrite Hp).
  assert (Hov : over (exec_phase e) = false) by by rewrite Hp.
  unfold poll. destruct (aborted s) eqn:Ha.
  { right. exists (set_phase Returned (started e) e). constructor; try done; simpl; [by rewrite Hp|..].
    - rewrite Hwt. unfold running_weight. simpl. lia.
    - intros d. split; [by left|by intros [?|[_ ?]]].
    - destruct (ok_waiters _ Hok) as [Hnd _]. split; [done|]. intros d. split; [|by intros [[_ ?]|[_ ?]]].
      intros Hd. left. split; [|done]. by intros ->.
    - exists []. by rewrite app_nil_r. }
  destruct (dependencies_done e s) eqn:Hdd; [right|by left].
  assert (Hdeps : ∀ d, d ∈ deps_of e → d ∈ completed_ids s).
  { unfold dependencies_done in Hdd. rewrite forallb_elem in Hdd. intros d Hd.
    specialize (Hdd d Hd). by apply bool_decide_eq_true in Hdd. }
  unfold acquire. destruct (permits s) as [|k] eqn:Hper; [|destruct (sem_waiters s) as [|w ws] eqn:Hws].
  2:{ apply (enter_moves t e s _ Hok Hg); [rewrite Hp; by left|done|by rewrite Hper|lia|].
      simpl. split; [by apply NoDup_nil|]. intros d. rewrite Hws. split; [by intros ?%elem_of_nil|by intros [_ ?]]. }
  all: rewrite <-?Hws in *; exists (set_phase Queued (started e) e); constructor; try done; simpl.
  all: try (by rewrite Hp).
  all: try (exists []; by rewrite app_nil_r).
  all: try (rewrite Hwt; unfold running_weight; simpl; lia).
  all: try (intros d; split; [by left|by intros [?|[_ ?]]]).
  all: destruct (ok_waiters _ Hok) as [Hnd _]; split;
    [apply NoDup_app; split_and!; [done|by intros x Hx ->%list_elem_of_singleton|apply NoDup_singleton]|].
  all: intros d; rewrite elem_of_app, list_elem_of_singleton; split;
    [intros [Hd| ->]; [left; split; [by intros ->|done]|by right]|intros [[_ ?]|[-> _]]; [by left|by right]].
Qed.

Lemma end_moves t e o s : sched_ok s → dget t (executions s) = Some e → exec_phase e = Running →
  ∃ e', moves t e e' s (end_task t e o s) ∧ exec_phase e' = Ended.
Proof.
  intros Hok Hg Hp. unfold end_task. destruct (match o with Succeeds _ => _ | _ => _ end) as [[r done] err].
  eexists (mkExecution (subtask e) (subagent e) r (started e) done err Ended). split; [|done].
  constructor; try done; simpl.
  - by rewrite Hp.
  - unfold running_weight. rewrite Hp. simpl. lia.
  - intros d. rewrite elem_of_set_add.
    split; [intros [->|?]; [by right|by left]|intros [?|[-> _]]; [by right|by left]].
  - destruct (ok_waiters _ Hok) as [Hnd Hw]. split; [done|]. intros d. split; [|by intros [[_ ?]|[_ ?]]].
    intros Hd. left. split; [|done]. intros ->. rewrite Hw in Hd. unfold phase_of in Hd. rewrite Hg in Hd.
    simpl in Hd. by rewrite Hp in Hd.
  - intros _. apply (ok_deps _ Hok t e Hg). by rewrite Hp.
  - eexists. split; [by do 2 eexists|done].
Qed.

Lemma all_over s : dict_wf (executions s) →
  forallb (λ e, over (exec_phase e)) (dvals (executions s)) = true ↔
  ∀ t e, dget t (executions s) = Some e → over (exec_phase e) = true.
Proof.
  intros Hwf. rewrite forallb_elem. split.
  - intros H t e Hg. apply (H e). by eapply dget_dvals.
  - intros H e Hin. destruct (dvals_dget e _ Hwf Hin) as [t Hg]. by apply (H t).
Qed.
Context (m0_wf : dict_wf m0).
Lemma ok_wf s : sched_ok s → dict_wf (executions s).
Proof. intros Hok. unfold dict_wf. by rewrite (ok_keys _ Hok). Qed.

(** The steps of the tasks, and the others. *)
Definition task_op (o : op (K := K) (R := R)) : bool :=
  match o with OPoll _ | OAcquire | OEnd _ _ => true | _ => false end.
Lemma task_step o s : sched_ok s → task_op o = true →
  step o s = s ∨ ∃ t e e', moves t e e' s (step o s).
Proof.
  intros Hok. destruct o as [t| |t ev|t out| |]; try done; intros _; simpl; unfold at_phase.
  - destruct (dget t (executions s)) as [e|] eqn:Hg; [|by left].
    case_decide as Hp; [|by left].
    destruct (poll_moves t e s Hok Hg Hp) as [|[e' ?]]; eauto.
  - destruct (permits s) as [|k] eqn:Hper; [by left|].
    destruct (sem_waiters s) as [|t ws] eqn:Hws; [by left|].
    destruct (dget t (executions s)) as [e|] eqn:Hg; [|by left].
    case_decide as Hp; [|by left]. right.
    destruct (ok_waiters _ Hok) as [Hnd Hw]. rewrite Hws in Hnd, Hw.
    destruct (enter_moves t e s (set_semaphore k ws s) Hok Hg) as [e' Hm]; [rewrite Hp; right; by left| |
      simpl; by rewrite Hper|lia| |by eauto].
    + apply (ok_deps _ Hok t e Hg). by rewrite Hp.
    + apply NoDup_cons in Hnd as [Hni Hnd]. simpl. split; [done|]. intros d. rewrite Hws, elem_of_cons.
      split; [intros Hd; split; [by intros ->|by right]|by intros [? [?|?]]].
  - destruct (dget t (executions s)) as [e|] eqn:Hg; [|by left].
    case_decide as Hp; [|by left].
    destruct (end_moves t e out s Hok Hg Hp) as (e' & ? & _); eauto.
Qed.
(** What is left to do apart from the tasks. *)
Definition rest_measure s : nat :=
  length (event_queue s) + (if finished s then 0 else 1) + (if aborted s then 0 else 1).
Definition relay_op (o : op (K := K) (R := R)) : bool := match o with ORelay _ _ => true | _ => false end.
Lemma other_step o s : sched_ok s → task_op o = false → frame s (step o s) ∧
  (step o s = s ∨ (relay_op o = true ∧ rest_measure (step o s) = S (rest_measure s)) ∨
   rest_measure (step o s) < rest_measure s).
Proof.
  intros Hok. unfold rest_measure. destruct o as [t| |t ev|t out| |]; try done; intros _; simpl; unfold at_phase.
  - destruct (dget t (executions s)) as [e|] eqn:Hg; [|split; [apply frame_refl|by left]].
    case_decide; [|split; [apply frame_refl|by left]]. split.
    + constructor; auto. by eapply relayed_event.
    + right. left. simpl. rewrite length_app. simpl. split; [done|lia].
  - split; [constructor; auto; [by apply no_event|done]|].
    destruct (aborted s) eqn:Ha; [left; destruct s; simpl in *; by subst|right; right; lia].
  - unfold receive. destruct (finished s) eqn:Hf; [split; [apply frame_refl|by left]|].
    destruct (event_queue s) eqn:Hq.
    + destruct (forallb _ _) eqn:Hall; [|split; [apply frame_refl|by left]]. split.
      * constructor; simpl; auto; [by apply last_event|]. intros _. right. by apply all_over; [apply ok_wf|].
      * right. right. simpl. destruct (aborted s); lia.
    + split; [constructor; simpl; auto; [by eapply received_event|done]|].
      right. right. simpl. destruct (aborted s); lia.
Qed.
Lemma step_cases o s : sched_ok s → frame s (step o s) ∨ ∃ t e e', moves t e e' s (step o s).
Proof.
  intros Hok. destruct (task_op o) eqn:Ho; [|left; by apply other_step].
  destruct (task_step o s Hok Ho) as [->|?]; [left; apply frame_refl|by right].
Qed.
Lemma step_ok o s : sched_ok s → sched_ok (step o s).
Proof. intros Hok. destruct (step_cases o s Hok) as [|(t & e & e' & ?)]; eauto using frame_ok, moves_ok. Qed.
Lemma run_ok ops s : sched_ok s → sched_ok (run ops s).
Proof. revert s. induction ops as [|o ops IH]; intros s Hok; [done|]. simpl. apply IH. by apply step_ok. Qed.
End invariant.
