(* ===== verification/SchedulerSafety.v ===== *)
(** What the parallel scheduler promises, in every interleaving of its tasks.

    Source: src/src/infrastructure/agent/subagent/parallel_scheduler.py, the
    model of Scheduler.v. *)

From S2P Require Import Prelude Kahn TaskDecomposer Scheduler.

Open Scope string_scope.
Open Scope list_scope.
Open Scope nat_scope.

Section safety.
Context {K Agent R : Type} `{EqDecision K}.
Context (key_value : K → pyval) (display_name : Agent → string).
Notation exec := (SubTaskExecution (K := K) (Agent := Agent) (R := R)).
Notation state := (state (K := K) (Agent := Agent) (R := R)).
Notation event := (event (K := K) (R := R)).
Notation step := (step (R := R) key_value display_name).
Notation run := (run (R := R) key_value display_name).
Implicit Types (s : state) (e : exec) (t d : K).

(** * The events, delivered or still queued *)

Definition log s : list event := yielded s ++ event_queue s.
Definition task_of (ev : event) : option K :=
  match ev with
  | SubtaskStarted t _ _ | Relayed t _ | SubtaskCompleted t _ _ => Some t
  | _ => None
  end.
Definition events_of t (l : list event) : list event := filter (λ ev, task_of ev = Some t) l.
Definition is_relay t (ev : event) : Prop := ∃ x, ev = Relayed t x.
(** The events of a task by the phase it is in. *)
Definition shape t (p : phase) (l : list event) : Prop :=
  match p with
  | Running => ∃ name descr rs, l = SubtaskStarted t name descr :: rs ∧ Forall (is_relay t) rs
  | Ended => ∃ name descr rs success err,
      l = SubtaskStarted t name descr :: rs ++ [SubtaskCompleted t success err] ∧ Forall (is_relay t) rs
  | _ => l = []
  end.
(** No start before the completion of every dependency. *)
Definition starts_in_order s : Prop :=
  ∀ l1 t name descr l2, log s = l1 ++ SubtaskStarted t name descr :: l2 →
  ∀ e, dget t (executions s) = Some e → ∀ d, d ∈ deps_of e → ∃ success err, SubtaskCompleted d success err ∈ l1.

Record log_ok s : Prop := {
  lg_order : starts_in_order s;
  lg_done : ∀ d, d ∈ completed_ids s → ∃ success err, SubtaskCompleted d success err ∈ log s;
  lg_shape : ∀ t e, dget t (executions s) = Some e → shape t (exec_phase e) (events_of t (log s));
}.

Lemma frame_log s s' : frame s s' → log s' = log s ∨
  (∃ t e ev, dget t (executions s) = Some e ∧ exec_phase e = Running ∧ log s' = log s ++ [Relayed t ev]) ∨
  log s' = log s ++ [summary s].
Proof.
  intros [[Hq Hy _|t e ev Hg Hp Hq Hy _|ev Hq Hy _|Hq Hq' Hy _ _] _ _ _ _ _ _]; unfold log.
  - left. by rewrite Hq, Hy.
  - right. left. exists t, e, ev. by rewrite Hq, Hy, app_assoc.
  - left. by rewrite Hy, Hq, <-app_assoc.
  - right. right. by rewrite Hy, Hq, Hq', !app_nil_r.
Qed.
(** Appending an event that starts nothing. *)
Lemma order_snoc s s' ev : starts_in_order s → log s' = log s ++ [ev] →
  (∀ t e', dget t (executions s') = Some e' → ∃ e, dget t (executions s) = Some e ∧ subtask e = subtask e') →
  (∀ t name descr, ev = SubtaskStarted t name descr → ∀ e, dget t (executions s) = Some e →
     ∀ d, d ∈ deps_of e → ∃ success err, SubtaskCompleted d success err ∈ log s) →
  starts_in_order s'.
Proof.
  intros Ho Hlog Hsub Hnew l1 t name descr l2 Hl e' He' d Hd.
  destruct (Hsub t e' He') as (e & He & Hst). unfold deps_of in Hd. rewrite <-Hst in Hd.
  rewrite Hlog in Hl. destruct l2 as [|y l2 _] using rev_ind.
  - apply app_inj_tail in Hl as [<- ->]. by apply (Hnew t name descr eq_refl e He).
  - rewrite app_comm_cons, app_assoc in Hl. apply app_inj_tail in Hl as [Hl _].
    by apply (Ho l1 t name descr l2 Hl e He).
Qed.
Lemma order_same s s' : starts_in_order s → log s' = log s →
  (∀ t e', dget t (executions s') = Some e' → ∃ e, dget t (executions s) = Some e ∧ subtask e = subtask e') →
  starts_in_order s'.
Proof.
  intros Ho Hlog Hsub l1 t name descr l2 Hl e' He' d Hd.
  destruct (Hsub t e' He') as (e & He & Hst). unfold deps_of in Hd. rewrite <-Hst in Hd.
  rewrite Hlog in Hl. by apply (Ho l1 t name descr l2 Hl e He).
Qed.
Lemma events_snoc t l ev : events_of t (l ++ [ev]) =
  events_of t l ++ (if decide (task_of ev = Some t) then [ev] else []).
Proof. unfold events_of. rewrite filter_app, filter_cons. by case_decide. Qed.

Lemma frame_log_ok s s' : log_ok s → frame s s' → log_ok s'.
Proof.
  intros [Ho Hd Hs] Hf. pose proof (fr_executions _ _ Hf) as He. pose proof (fr_completed _ _ Hf) as Hc.
  assert (Hsub : ∀ t e', dget t (executions s') = Some e' →
    ∃ e, dget t (executions s) = Some e ∧ subtask e = subtask e').
  { rewrite He. eauto. }
  destruct (frame_log s s' Hf) as [Hl|[(t & e & ev & Hg & Hp & Hl)|Hl]].
  - constructor; [by eapply order_same|rewrite Hc, Hl; exact Hd|rewrite He, Hl; exact Hs].
  - constructor.
    + eapply order_snoc; [exact Ho|exact Hl|exact Hsub|done].
    + rewrite Hc, Hl. intros d Hin. destruct (Hd d Hin) as (a & b & ?). exists a, b. set_solver.
    + rewrite He, Hl. intros t' e' Hg'. rewrite events_snoc. specialize (Hs t' e' Hg').
      cbn [task_of]. case_decide as Ht; [|by rewrite app_nil_r]. simplify_eq. rewrite Hp in *.
      destruct Hs as (nm & ds & rs & -> & Hrs). exists nm, ds, (rs ++ [Relayed t' ev]).
      split; [done|]. apply Forall_app. split; [done|]. constructor; [by eexists|done].
  - constructor.
    + eapply order_snoc; [exact Ho|exact Hl|exact Hsub|done].
    + rewrite Hc, Hl. intros d Hin. destruct (Hd d Hin) as (a & b & ?). exists a, b. set_solver.
    + rewrite He, Hl. intros t' e' Hg'. rewrite events_snoc. rewrite decide_False by done.
      rewrite app_nil_r. by apply Hs.
Qed.

Lemma moves_log_ok t e e' s s' : log_ok s → moves t e e' s s' → log_ok s'.
Proof.
  intros [Ho Hd Hs] Hm. destruct Hm as [Hold Hnew Hsub Hph _ Hcom _ Hdep _ _ _ Hy (evs & Hem & Hq)].
  assert (Hl : log s' = log s ++ evs) by (unfold log; by rewrite Hy, Hq, app_assoc).
  assert (Hst : ∀ t' x, dget t' (executions s') = Some x →
    ∃ y, dget t' (executions s) = Some y ∧ subtask y = subtask x).
  { intros t' x. rewrite Hnew, dget_dset. case_decide; [intros; simplify_eq|]; eauto. }
  specialize (Hs t e Hold) as Hst'.
  assert (Hevs : (evs = [] ∧ exec_phase e' ≠ Running ∧ exec_phase e' ≠ Ended) ∨
    (exec_phase e' = Running ∧ ∃ name descr, evs = [SubtaskStarted t name descr]) ∨
    (exec_phase e' = Ended ∧ ∃ success err, evs = [SubtaskCompleted t success err])).
  { destruct (exec_phase e'); simpl in Hem; auto; left; split_and!; done. }
  assert (Hother : ∀ t', t' ≠ t → events_of t' (log s') = events_of t' (log s)).
  { intros t' Hne. rewrite Hl. destruct Hevs as [[-> _]|[(_ & nm & ds & ->)|(_ & a & b & ->)]];
      rewrite ?app_nil_r, ?events_snoc; try done; simpl; rewrite decide_False by congruence; by rewrite app_nil_r. }
  constructor.
  - destruct Hevs as [[-> _]|[(Hr & nm & ds & ->)|(_ & a & b & ->)]].
    + rewrite app_nil_r in Hl. by eapply order_same.
    + eapply order_snoc; [exact Ho|exact Hl|exact Hst|]. intros t' ? ? [= -> _ _] x Hx d Hin.
      rewrite Hold in Hx. simplify_eq. apply Hd, Hdep; [by rewrite Hr|done].
    + eapply order_snoc; [exact Ho|exact Hl|exact Hst|done].
  - intros d [Hin|[-> He]]%Hcom; rewrite Hl.
    + destruct (Hd d Hin) as (a & b & ?). exists a, b. set_solver.
    + destruct Hevs as [(_ & _ & ?)|[(Hr & _)|(_ & a & b & ->)]]; [done|congruence|].
      exists a, b. set_solver.
  - intros t' x Hx. destruct (decide (t' = t)) as [->|Hne].
    2:{ rewrite Hnew, dget_dset, decide_False in Hx by done. rewrite Hother by done. by apply Hs. }
    rewrite Hnew, dget_dset, decide_True in Hx by done. simplify_eq. rewrite Hl.
    destruct Hevs as [(-> & Hn1 & Hn2)|[(Hr & nm & ds & ->)|(Hr & a & b & ->)]].
    + rewrite app_nil_r. destruct (exec_phase e), (exec_phase x); try done.
    + rewrite events_snoc. cbn [task_of]. rewrite decide_True by done. rewrite Hr in *.
      destruct (exec_phase e); try done; simpl in Hst'; rewrite Hst'; by exists nm, ds, [].
    + rewrite events_snoc. cbn [task_of]. rewrite decide_True by done. rewrite Hr in *.
      destruct (exec_phase e); try done. destruct Hst' as (nm & ds & rs & -> & Hrs). by exists nm, ds, rs, a, b.
Qed.

(** * Launching *)

Notation execute := (execute (K := K) (Agent := Agent) (R := R)).
Lemma build_spec tasks agents m m' : build_execution_map (R := R) tasks agents m = Ok m' → dict_wf m →
  dict_wf m' ∧ ∀ t e, dget t m' = Some e →
    dget t m = Some e ∨ ∃ st a, st ∈ tasks ∧ st_id st = t ∧ e = new_execution st a.
Proof.
  revert m. induction tasks as [|st tasks IH]; intros m Hb Hwf; simpl in Hb.
  { simplify_eq. split; [done|by left]. }
  destruct (resolve_agent st agents) as [[a|]|]; [| |done]; simpl in Hb.
  - apply IH in Hb as [Hwf' Hm]; [|by apply dset_wf]. split; [done|]. intros t e Hg.
    destruct (Hm t e Hg) as [Hd|(st' & a' & Hin & Hid & ->)]; [|right; exists st', a'; split_and!; set_solver].
    rewrite dget_dset in Hd. case_decide; [|by left]. simplify_eq. right. exists st, a. split_and!; set_solver.
  - apply IH in Hb as [Hwf' Hm]; [|done]. split; [done|]. intros t e Hg.
    destruct (Hm t e Hg) as [Hd|(st' & a' & Hin & Hid & ->)]; [by left|right; exists st', a'; split_and!; set_solver].
Qed.
Lemma launch_spec cfg tasks agents abort s0 : execute cfg tasks agents abort = Launched s0 →
  s0 = mkState (executions s0) [] [] [] (Z.to_nat (max_concurrency cfg)) [] abort
         [ParallelStarted (length (executions s0)) (dkeys (executions s0))] false ∧
  dict_wf (executions s0) ∧ executions s0 ≠ [] ∧
  ∀ t e, dget t (executions s0) = Some e → ∃ st a, st ∈ tasks ∧ st_id st = t ∧ e = new_execution st a.
Proof.
  unfold Scheduler.execute. destruct tasks as [|st0 tasks]; [done|].
  destruct (build_execution_map _ agents []) as [m|] eqn:Hb; [|done].
  destruct m as [|x m]; [done|]. destruct (Z.ltb_spec (max_concurrency cfg) 0); [done|].
  intros [= <-]. simpl. split; [done|]. apply build_spec in Hb as [Hwf Hm]; [|constructor].
  split_and!; [done|done|]. intros t e Hg. destruct (Hm t e Hg) as [?|?]; done.
Qed.

Lemma launch_ok cfg tasks agents abort s0 : execute cfg tasks agents abort = Launched s0 →
  sched_ok (Z.to_nat (max_concurrency cfg)) (executions s0) s0 ∧ log_ok s0.
Proof.
  intros Hl. destruct (launch_spec _ _ _ _ _ Hl) as (Hs & Hwf & _ & Hm).
  assert (Hp : ∀ t e, dget t (executions s0) = Some e → exec_phase e = Waiting).
  { intros t e Hg. by destruct (Hm t e Hg) as (st & a & _ & _ & ->). }
  assert (Hph : ∀ t p, phase_of t s0 = Some p → p = Waiting).
  { intros t p Hph. apply phase_of_some in Hph as (e & Hg & <-). by apply (Hp t). }
  assert (Hrun : running_count s0 = 0).
  { unfold running_count. assert (∀ l, (∀ e, e ∈ l → exec_phase e = Waiting) →
      sum_list (running_weight (R := R) (K := K) (Agent := Agent) <$> l) = 0) as Hz.
    { induction l as [|e l IH]; intros Hin; [done|]. csimpl. rewrite IH by (intros; apply Hin; by right).
      unfold running_weight. rewrite (Hin e) by left. done. }
    apply Hz. intros e Hin. destruct (dvals_dget e _ Hwf Hin) as [t Hg]. by apply (Hp t). }
  split.
  - constructor; try (rewrite Hs; done).
    + intros t e Hg. eauto.
    + rewrite Hrun, Hs. simpl. lia.
    + rewrite Hs. simpl. split; [constructor|]. intros t. split; [by intros ?%elem_of_nil|].
      rewrite <-Hs. intros Hq. by apply Hph in Hq.
    + rewrite Hs. simpl. intros t. split; [by intros ?%elem_of_nil|]. rewrite <-Hs.
      intros Hq. by apply Hph in Hq.
    + intros t e Hg Hpa. by rewrite (Hp t e Hg) in Hpa.
    + intros _ t Ht. by apply Hph in Ht.
    + intros t e Hg Hc. by rewrite (Hp t e Hg) in Hc.
  - constructor.
    + intros l1 t name descr l2 Hlog. rewrite Hs in Hlog. unfold log in Hlog. simpl in Hlog.
      destruct l1 as [|? [|??]]; simplify_eq.
    + rewrite Hs. simpl. by intros ? ?%elem_of_nil.
    + intros t e Hg. rewrite (Hp t e Hg), Hs. done.
Qed.

Lemma run_log_ok n m0 ops s : dict_wf m0 → sched_ok n m0 s → log_ok s → log_ok (run ops s).
Proof.
  intros Hwf. revert s. induction ops as [|o ops IH]; intros s Hok Hlog; [done|]. simpl. apply IH.
  - by apply step_ok.
  - destruct (step_cases key_value display_name n m0 Hwf o s Hok) as [|(t & e & e' & ?)];
      eauto using frame_log_ok, moves_log_ok.
Qed.

Lemma running_count_filter s : running_count s = length (filter (λ e, exec_phase e = Running) (dvals (executions s))).
Proof.
  unfold running_count. induction (dvals (executions s)) as [|e l IH]; [done|]. csimpl. rewrite filter_cons, IH.
  unfold running_weight. by case_decide.
Qed.

(** C5. However the tasks, their processes, an abort and the consumer
    interleave: at most [max_concurrency] tasks are in the semaphore; no task
    has started before every one of its dependencies had completed; and the
    events of each task, delivered or queued, are none before it runs, its start
    followed by what its process emitted while it runs, and these and one
    completion once it has ended. *)
Theorem scheduled_safely cfg tasks agents abort s0 ops : execute cfg tasks agents abort = Launched s0 →
  let s := run ops s0 in
  length (filter (λ e, exec_phase e = Running) (dvals (executions s))) ≤ Z.to_nat (max_concurrency cfg) ∧
  starts_in_order s ∧
  ∀ t e, dget t (executions s) = Some e → shape t (exec_phase e) (events_of t (log s)).
Proof.
  intros Hl. destruct (launch_ok _ _ _ _ _ Hl) as [Hok Hlog].
  destruct (launch_spec _ _ _ _ _ Hl) as (_ & Hwf & _ & _). intros s.
  pose proof (run_ok key_value display_name _ _ Hwf ops s0 Hok) as Hok'.
  pose proof (run_log_ok _ _ ops s0 Hwf Hok Hlog) as [Ho _ Hs].
  split_and!; [|exact Ho|exact Hs]. rewrite <-running_count_filter.
  pose proof (ok_permits _ _ _ Hok'). unfold s. lia.
Qed.

(** * Termination *)

Definition weight e : nat :=
  match exec_phase e with Waiting => 5 | Queued => 4 | Running => 2 | _ => 0 end.
Definition measure s : nat := sum_list (weight <$> dvals (executions s)) + rest_measure s.
Lemma moves_measure t e e' s s' : moves t e e' s s' → measure s' < measure s.
Proof.
  intros Hm. destruct Hm as [Hold Hnew _ Hph _ _ _ _ [Hab _] _ Hfin _ (evs & Hem & Hq)].
  unfold measure, rest_measure. rewrite Hnew, Hq, Hab, Hfin, length_app.
  pose proof (sum_dvals_dset weight t e' e (executions s) Hold) as Hsum.
  assert (weight e' + length evs < weight e); [|lia]. unfold weight.
  destruct (exec_phase e), (exec_phase e'); try done; simpl in Hem;
    try (subst evs; simpl; lia); destruct Hem as (? & ? & ->); simpl; lia.
Qed.
Lemma step_measure n m0 o s : dict_wf m0 → sched_ok n m0 s →
  step o s = s ∨ (relay_op o = true ∧ measure (step o s) = S (measure s)) ∨ measure (step o s) < measure s.
Proof.
  intros Hwf Hok. destruct (task_op o) eqn:Ho.
  - destruct (task_step key_value display_name n m0 o s Hok Ho) as [|(t & e & e' & Hm)]; [by left|].
    right. right. by eapply moves_measure.
  - destruct (other_step key_value display_name n m0 Hwf o s Hok Ho) as [Hf Hc].
    unfold measure. rewrite (fr_executions _ _ Hf).
    destruct Hc as [|[[? ?]|?]]; [by left|right; left|right; right]; [split; [done|]|]; lia.
Qed.
(** Every operation of the sequence does something. *)
Fixpoint effective (ops : list (op (K := K) (R := R))) s : Prop :=
  match ops with [] => True | o :: ops' => step o s ≠ s ∧ effective ops' (step o s) end.
Lemma effective_bounded n m0 ops s : dict_wf m0 → sched_ok n m0 s → effective ops s →
  length ops + measure (run ops s) ≤ measure s + 2 * length (filter (λ o, relay_op o = true) ops).
Proof.
  intros Hwf. revert s. induction ops as [|o ops IH]; intros s Hok; [simpl; lia|]. intros [Hne Heff].
  specialize (IH (step o s) (step_ok key_value display_name n m0 Hwf o s Hok) Heff).
  rewrite filter_cons. simpl run. simpl length.
  destruct (step_measure n m0 o s Hwf Hok) as [|[[Hr Hs]|Hlt]]; [done| |].
  - rewrite decide_True by done. simpl. lia.
  - case_decide; simpl; lia.
Qed.
Lemma launch_measure cfg tasks agents abort s0 : execute cfg tasks agents abort = Launched s0 →
  measure s0 ≤ 5 * length (executions s0) + 2.
Proof.
  intros Hl. destruct (launch_spec _ _ _ _ _ Hl) as (Hs & Hwf & _ & Hm).
  assert (∀ l, sum_list (weight <$> l) ≤ 5 * length l) as Hw.
  { induction l as [|e l IH]; csimpl; [lia|]. assert (weight e ≤ 5) by (unfold weight; case_match; lia). lia. }
  specialize (Hw (dvals (executions s0))). unfold dvals in Hw. rewrite length_fmap in Hw.
  unfold measure, rest_measure, dvals. rewrite Hs. simpl. destruct abort; lia.
Qed.
(** A schedule terminates once the processes of its tasks stop emitting:
    between any events they emit, at most five operations per task and two more
    do anything, whatever the order. *)
Theorem schedule_terminates cfg tasks agents abort s0 ops : execute cfg tasks agents abort = Launched s0 →
  effective ops s0 →
  length ops ≤ 5 * length (executions s0) + 2 + 2 * length (filter (λ o, relay_op o = true) ops).
Proof.
  intros Hl He. destruct (launch_ok _ _ _ _ _ Hl) as [Hok _].
  destruct (launch_spec _ _ _ _ _ Hl) as (_ & Hwf & _ & _).
  pose proof (effective_bounded _ _ ops s0 Hwf Hok He). pose proof (launch_measure _ _ _ _ _ Hl). lia.
Qed.

(** * Who runs *)

(** A set of tasks each of which waits for a task that is not there or for one of
    the set: a cycle, say, or what depends on a task without an agent. *)
Definition stuck (m : list (K * exec)) (D : list K) : Prop :=
  ∀ t, t ∈ D → ∃ e, dget t m = Some e ∧ ∃ d, d ∈ deps_of e ∧ (d ∉ dkeys m ∨ d ∈ D).

Lemma run_aborted ops s : OAbort ∉ ops → aborted (run ops s) = aborted s.
Proof.
  revert s. induction ops as [|o ops IH]; intros s Hn; [done|]. apply not_elem_of_cons in Hn as [Ho Hn].
  simpl. rewrite IH by done. destruct o; try done; simpl; unfold at_phase, poll, acquire, enter, end_task, receive;
    repeat case_match; done.
Qed.
Lemma doomed_step n m0 D o s : dict_wf m0 → sched_ok n m0 s → stuck m0 D →
  (∀ t, t ∈ D → phase_of t s = Some Waiting ∨ phase_of t s = Some Returned) →
  ∀ t, t ∈ D → phase_of t (step o s) = Some Waiting ∨ phase_of t (step o s) = Some Returned.
Proof.
  intros Hwf Hok HD Hph t Ht.
  destruct (step_cases key_value display_name n m0 Hwf o s Hok) as [Hf|(t0 & e & e' & Hm)].
  { unfold phase_of. rewrite (fr_executions _ _ Hf). by apply Hph. }
  rewrite (moves_phase t0 e e' s _ t Hm). case_decide as Heq; [subst t0|by apply Hph].
  pose proof (mv_old _ _ _ _ _ Hm) as Hg. pose proof (mv_phase _ _ _ _ _ Hm) as Hps.
  assert (Hw : exec_phase e = Waiting).
  { specialize (Hph t Ht). unfold phase_of in Hph. rewrite Hg in Hph. simpl in Hph.
    destruct Hph as [[= ->]|[= He]]; [done|]. by rewrite He in Hps. }
  destruct (passed (exec_phase e')) eqn:Hpa.
  2:{ rewrite Hw in Hps. destruct (exec_phase e'); try done. by right. }
  destruct (HD t Ht) as (e0 & Hg0 & d & Hd & Hout).
  destruct (ok_static _ _ _ Hok t e Hg) as (e1 & Hg1 & Hsub). simplify_eq.
  assert (d ∈ completed_ids s) as Hc.
  { apply (mv_deps _ _ _ _ _ Hm Hpa). unfold deps_of in *. by rewrite Hsub. }
  apply (ok_completed _ _ _ Hok), phase_of_some in Hc as (x & Hx & Hxe).
  destruct Hout as [Hout|Hin].
  - destruct Hout. rewrite <-(ok_keys _ _ _ Hok). apply dget_is_Some_keys. eauto.
  - specialize (Hph d Hin). unfold phase_of in Hph. rewrite Hx in Hph. simpl in Hph. rewrite Hxe in Hph.
    by destruct Hph.
Qed.
Lemma doomed_run n m0 D ops s : dict_wf m0 → sched_ok n m0 s → stuck m0 D →
  (∀ t, t ∈ D → phase_of t s = Some Waiting ∨ phase_of t s = Some Returned) →
  ∀ t, t ∈ D → phase_of t (run ops s) = Some Waiting ∨ phase_of t (run ops s) = Some Returned.
Proof.
  intros Hwf Hok HD Hph. revert s Hok Hph. induction ops as [|o ops IH]; intros s Hok Hph; [done|].
  simpl. apply IH; [by apply step_ok|]. by apply (doomed_step n m0).
Qed.

(** C6. Without an abort, a task that waits for a cycle, for a task without an
    agent or for an id that was never a task is never started, and the event
    stream then never ends, whatever else happens and however long. *)
Theorem stuck_tasks_hang cfg tasks agents s0 D t ops : execute cfg tasks agents false = Launched s0 →
  stuck (executions s0) D → t ∈ D → OAbort ∉ ops →
  phase_of t (run ops s0) = Some Waiting ∧ finished (run ops s0) = false ∧ events_of t (log (run ops s0)) = [].
Proof.
  intros Hl HD Ht Hops. destruct (launch_ok _ _ _ _ _ Hl) as [Hok Hlog].
  destruct (launch_spec _ _ _ _ _ Hl) as (Hs & Hwf & _ & Hm).
  pose proof (run_ok key_value display_name _ _ Hwf ops s0 Hok) as Hok'.
  assert (Ha : aborted (run ops s0) = false) by (rewrite run_aborted by done; by rewrite Hs).
  assert (Hph : phase_of t (run ops s0) = Some Waiting).
  { destruct (doomed_run _ _ D ops s0 Hwf Hok HD) with t as [?|Hr]; [|done|done|].
    - intros t' Ht'. left. destruct (HD t' Ht') as (e & Hg & _). unfold phase_of. rewrite Hg.
      by destruct (Hm t' e Hg) as (st & a & _ & _ & ->).
    - by destruct (ok_returned _ _ _ Hok' Ha t). }
  apply phase_of_some in Hph as (e & Hg & Hp). split_and!.
  - apply phase_of_some. eauto.
  - destruct (finished (run ops s0)) eqn:Hf; [|done].
    pose proof (ok_finished _ _ _ Hok' Hf t e Hg) as Hov. by rewrite Hp in Hov.
  - pose proof (lg_shape _ (run_log_ok _ _ ops s0 Hwf Hok Hlog) t e Hg) as Hsh. by rewrite Hp in Hsh.
Qed.

(** * What is left when nothing more can happen *)

(** Neither a task nor the consumer can make a step. *)
Definition quiet s : Prop := ∀ o, relay_op o = false → o ≠ OAbort → step o s = s.

Lemma moves_ne t e e' s s' : moves t e e' s s' → s' ≠ s.
Proof.
  intros Hm ->. pose proof (mv_old _ _ _ _ _ Hm) as Hg. rewrite (mv_new _ _ _ _ _ Hm), dget_dset_eq in Hg.
  pose proof (mv_phase _ _ _ _ _ Hm) as Hp. simplify_eq. by destruct (exec_phase e).
Qed.
Section quiet.
Context (n : nat) (m0 : list (K * exec)) (s : state).
Context (m0_wf : dict_wf m0) (Hok : sched_ok n m0 s) (Hn : 0 < n) (Hq : quiet s).
Lemma quiet_no_running t e : dget t (executions s) = Some e → exec_phase e ≠ Running.
Proof.
  intros Hg Hp. destruct (end_moves n m0 t e (Fails "") s Hok Hg Hp) as (e' & Hm & _).
  apply (moves_ne _ _ _ _ _ Hm). pose proof (Hq (OEnd t (Fails "")) eq_refl ltac:(done)) as Heq.
  simpl in Heq. unfold at_phase in Heq. rewrite Hg, decide_True in Heq by done. exact Heq.
Qed.
Lemma quiet_permits : permits s = n.
Proof.
  pose proof (ok_permits _ _ _ Hok) as Hp. assert (running_count s = 0) as Hr; [|lia].
  unfold running_count. assert (∀ l, (∀ e, e ∈ l → exec_phase e ≠ Running) →
    sum_list (running_weight (R := R) (K := K) (Agent := Agent) <$> l) = 0) as Hz.
  { induction l as [|e l IH]; intros Hin; [done|]. csimpl. rewrite IH by (intros; apply Hin; by right).
    unfold running_weight. by rewrite decide_False by (apply Hin; left). }
  apply Hz. intros e Hin. destruct (dvals_dget e (executions s) (ok_wf n m0 m0_wf s Hok) Hin) as [t Hg].
  by apply (quiet_no_running t).
Qed.
Lemma quiet_waiters : sem_waiters s = [].
Proof.
  destruct (sem_waiters s) as [|t ws] eqn:Hw; [done|exfalso].
  assert (phase_of t s = Some Queued) as Hp by (apply (ok_waiters _ _ _ Hok); rewrite Hw; left).
  apply phase_of_some in Hp as (e & Hg & Hp).
  pose proof (Hq OAcquire eq_refl ltac:(done)) as Heq. simpl in Heq. unfold at_phase in Heq.
  rewrite quiet_permits, Hw in Heq. destruct n as [|k]; [lia|]. rewrite Hg, decide_True in Heq by done.
  apply (f_equal (λ x, length (sem_waiters x))) in Heq. rewrite Hw in Heq.
  unfold enter in Heq. case_match; simpl in Heq; lia.
Qed.
Lemma quiet_waiting t e : dget t (executions s) = Some e → exec_phase e = Waiting →
  aborted s = false ∧ ∃ d, d ∈ deps_of e ∧ d ∉ completed_ids s.
Proof.
  intros Hg Hp. pose proof (Hq (OPoll t) eq_refl ltac:(done)) as Heq. simpl in Heq. unfold at_phase in Heq.
  rewrite Hg, decide_True in Heq by done. unfold poll in Heq. destruct (aborted s) eqn:Ha.
  { apply (f_equal (phase_of t)) in Heq. unfold phase_of in Heq. simpl in Heq. rewrite dget_dset_eq, Hg in Heq.
    simpl in Heq. rewrite Hp in Heq. done. }
  split; [done|]. destruct (dependencies_done e s) eqn:Hd.
  - exfalso. unfold acquire in Heq. rewrite quiet_permits, quiet_waiters in Heq. destruct n as [|k]; [lia|].
    apply (f_equal (phase_of t)) in Heq. unfold phase_of, enter in Heq.
    case_match; simpl in Heq; rewrite dget_dset_eq, Hg in Heq; simpl in Heq; rewrite Hp in Heq; done.
  - unfold dependencies_done in Hd. apply not_true_iff_false in Hd. rewrite forallb_elem in Hd.
    destruct (decide (Exists (λ d, d ∉ completed_ids s) (deps_of e))) as [Hex|Hnex].
    + apply Exists_exists in Hex as (d & ? & ?). eauto.
    + destruct Hd. intros d Hin. apply bool_decide_eq_true. destruct (decide (d ∈ completed_ids s)); [done|].
      destruct Hnex. apply Exists_exists. eauto.
Qed.
Lemma quiet_over t e : dget t (executions s) = Some e → exec_phase e = Waiting ∨ over (exec_phase e) = true.
Proof.
  intros Hg. destruct (exec_phase e) eqn:Hp; try (by right); [by left| |].
  - assert (t ∈ sem_waiters s) as Hw by (apply (ok_waiters _ _ _ Hok), phase_of_some; eauto).
    rewrite quiet_waiters in Hw. by apply elem_of_nil in Hw.
  - by destruct (quiet_no_running t e Hg).
Qed.
Lemma quiet_finished : finished s = true ↔ ∀ t e, dget t (executions s) = Some e → over (exec_phase e) = true.
Proof.
  split; [apply (ok_finished _ _ _ Hok)|]. intros Hall.
  destruct (finished s) eqn:Hf; [done|]. pose proof (Hq OReceive eq_refl ltac:(done)) as Heq.
  simpl in Heq. unfold receive in Heq. rewrite Hf in Heq. destruct (event_queue s) as [|ev q] eqn:He.
  - rewrite (proj2 (all_over s (ok_wf n m0 m0_wf s Hok))) in Heq by done.
    apply (f_equal finished) in Heq. simpl in Heq. congruence.
  - apply (f_equal (λ x, length (event_queue x))) in Heq. rewrite He in Heq. simpl in Heq. lia.
Qed.
End quiet.

(** The tasks that have not ended. *)
Definition unended s : list K := filter (λ t, phase_of t s ≠ Some Ended) (dkeys (executions s)).
(** Every description can be sliced. *)
Definition sliceable (m : list (K * exec)) : Prop :=
  ∀ t e, dget t m = Some e → slice200 (description (subtask e)) ≠ None.
Lemma sliceable_check m :
  forallb (λ e, bool_decide (is_Some (slice200 (description (subtask e))))) (dvals m) = true → sliceable m.
Proof.
  rewrite forallb_elem. intros H t e Hg Hn. specialize (H e (dget_dvals t e m Hg)).
  apply bool_decide_eq_true in H. rewrite Hn in H. by destruct H.
Qed.
(** A state in which the stream has ended is quiet. *)
Lemma finished_quiet s : finished s = true → sem_waiters s = [] →
  forallb (λ e, over (exec_phase e)) (dvals (executions s)) = true → quiet s.
Proof.
  intros Hf Hw Hall. rewrite forallb_elem in Hall.
  assert (Hat : ∀ p t f, over p = false → at_phase (R := R) p t s f = s).
  { intros p t f Hp. unfold at_phase. destruct (dget t (executions s)) as [e|] eqn:Hg; [|done].
    case_decide as He; [|done]. specialize (Hall e (dget_dvals t e _ Hg)). congruence. }
  intros o Hr Ha. destruct o; try done; simpl; try (by apply Hat).
  - rewrite Hw. by destruct (permits s).
  - unfold receive. by rewrite Hf.
Qed.
(** The dependencies a task was given. *)
Definition preds_of (m : list (K * exec)) t : list K := from_option deps_of [] (dget t m).

Lemma quiet_outcome n m0 s : dict_wf m0 → sched_ok n m0 s → 0 < n → quiet s → sliceable m0 → aborted s = false →
  stuck m0 (unended s) ∧ (finished s = true ↔ unended s = []).
Proof.
  intros Hwf Hok Hn Hq Hsl Ha.
  assert (Hcase : ∀ t e, dget t (executions s) = Some e → exec_phase e = Waiting ∨ exec_phase e = Ended).
  { intros t e Hg. destruct (quiet_over n m0 s Hwf Hok Hn Hq t e Hg) as [|Hov]; [by left|].
    destruct (exec_phase e) eqn:Hp; try done; [by right| |].
    - destruct (ok_returned _ _ _ Hok Ha t). apply phase_of_some. eauto.
    - destruct (ok_static _ _ _ Hok t e Hg) as (e0 & Hg0 & Hs). destruct (Hsl t e0 Hg0).
      rewrite <-Hs. by apply (ok_crashed _ _ _ Hok t). }
  split.
  - intros t [Hne Hin]%list_elem_of_filter. apply dget_is_Some_keys in Hin as [e Hg].
    destruct (Hcase t e Hg) as [Hp|Hp]; [|destruct Hne; apply phase_of_some; eauto].
    destruct (quiet_waiting n m0 s Hwf Hok Hn Hq t e Hg Hp) as (_ & d & Hd & Hnc).
    destruct (ok_static _ _ _ Hok t e Hg) as (e0 & Hg0 & Hs).
    exists e0. split; [done|]. exists d. unfold deps_of in *. rewrite <-Hs. split; [done|].
    destruct (decide (d ∈ dkeys m0)) as [Hk|]; [right|by left]. apply list_elem_of_filter.
    rewrite (ok_keys _ _ _ Hok). split; [|done]. by rewrite <-(ok_completed _ _ _ Hok).
  - rewrite (quiet_finished n m0 s Hwf Hok Hn Hq). split.
    + intros Hall. destruct (unended s) as [|t l] eqn:Hu; [done|exfalso].
      assert (t ∈ unended s) as [Hne Hin]%list_elem_of_filter by (rewrite Hu; left).
      apply dget_is_Some_keys in Hin as [e Hg]. destruct (Hcase t e Hg) as [Hp|Hp].
      * specialize (Hall t e Hg). by rewrite Hp in Hall.
      * destruct Hne. apply phase_of_some. eauto.
    + intros Hu t e Hg. destruct (Hcase t e Hg) as [Hp|Hp]; [|by rewrite Hp].
      assert (t ∈ unended s) as Hin; [|by rewrite Hu in Hin; apply elem_of_nil in Hin].
      apply list_elem_of_filter. split; [|apply dget_is_Some_keys; eauto].
      intros (x & Hx & Hxe)%phase_of_some. congruence.
Qed.

(** When nothing more can happen, without an abort, the tasks that have
    not ended are stuck, and the stream has ended exactly if there are none -
    whichever tasks failed or timed out; so if every dependency names a task that
    has an agent and there is no cycle, every task has run and the stream has
    ended. *)
Theorem schedule_outcome cfg tasks agents s0 ops : execute cfg tasks agents false = Launched s0 →
  (0 < max_concurrency cfg)%Z → sliceable (executions s0) → OAbort ∉ ops → quiet (run ops s0) →
  let s := run ops s0 in
  stuck (executions s0) (unended s) ∧ (finished s = true ↔ unended s = []) ∧
  ((∀ t d, t ∈ dkeys (executions s0) → d ∈ preds_of (executions s0) t → d ∈ dkeys (executions s0)) →
   acyclic (dkeys (executions s0)) (preds_of (executions s0)) →
   finished s = true ∧ ∀ t, t ∈ dkeys (executions s0) → phase_of t s = Some Ended).
Proof.
  intros Hl Hmax Hsl Hops Hq s. destruct (launch_ok _ _ _ _ _ Hl) as [Hok _].
  destruct (launch_spec _ _ _ _ _ Hl) as (Hs & Hwf & _ & _).
  pose proof (run_ok key_value display_name _ _ Hwf ops s0 Hok) as Hok'.
  assert (Ha : aborted s = false) by (unfold s; rewrite run_aborted by done; by rewrite Hs).
  destruct (quiet_outcome _ _ s Hwf Hok' ltac:(lia) Hq Hsl Ha) as [Hst Hfin].
  split_and!; [done|done|]. intros Hknown Hac.
  assert (Hend : ∀ t, t ∈ dkeys (executions s0) → phase_of t s = Some Ended).
  { apply (acyclic_ind _ _ Hknown (λ t, phase_of t s = Some Ended) Hac). intros t Ht IH.
    destruct (decide (phase_of t s = Some Ended)) as [|Hne]; [done|].
    destruct (Hst t) as (e & Hg & d & Hd & Hout).
    { apply list_elem_of_filter. split; [done|]. unfold s. by rewrite (ok_keys _ _ _ Hok'). }
    assert (d ∈ preds_of (executions s0) t) as Hp by (unfold preds_of; by rewrite Hg).
    pose proof (Hknown t d Ht Hp) as Hk. destruct Hout as [|[Hne' _]%list_elem_of_filter]; [done|].
    destruct Hne'. by apply IH. }
  split; [|done]. apply Hfin. unfold unended. fold s in Hok'. rewrite (ok_keys _ _ _ Hok').
  destruct (filter _ (dkeys (executions s0))) as [|t l] eqn:Hf; [done|].
  assert (t ∈ t :: l) as Hin by left. rewrite <-Hf in Hin. apply list_elem_of_filter in Hin as [Hne Ht].
  destruct Hne. by apply Hend.
Qed.

(** After an abort nothing hangs on a dependency: when nothing more can
    happen the stream has ended. *)
Theorem abort_ends_stream cfg tasks agents abort s0 ops : execute cfg tasks agents abort = Launched s0 →
  (0 < max_concurrency cfg)%Z → aborted (run ops s0) = true → quiet (run ops s0) → finished (run ops s0) = true.
Proof.
  intros Hl Hmax Ha Hq. destruct (launch_ok _ _ _ _ _ Hl) as [Hok _].
  destruct (launch_spec _ _ _ _ _ Hl) as (_ & Hwf & _ & _).
  pose proof (run_ok key_value display_name _ _ Hwf ops s0 Hok) as Hok'.
  apply (quiet_finished _ _ _ Hwf Hok' ltac:(lia) Hq). intros t e Hg.
  destruct (quiet_over _ _ _ Hwf Hok' ltac:(lia) Hq t e Hg) as [Hp|]; [|done].
  destruct (quiet_waiting _ _ _ Hwf Hok' ltac:(lia) Hq t e Hg Hp) as [? _]. congruence.
Qed.
End safety.

(** * The theorems at work *)

Section witnesses.
Definition pair_tasks : list (SubTask string) :=
  [mkSubTask "a" (PStr "find") PNone [] (PInt 0); mkSubTask "b" (PStr "write") PNone ["a"] (PInt 0)].
Definition team : list (string * string) := [("worker", "Worker")].
Notation step := (step (R := string) PStr (@id string)).
Notation run := (run (R := string) PStr (@id string)).
Definition pair_start : state (K := string) (Agent := string) (R := string) :=
  match execute default_scheduler_config pair_tasks team false with Launched s => s | _ => mkState [] [] [] [] 0 [] false [] true end.
(** The first task fails; the second runs all the same. *)
Definition pair_ops : list (op (K := string) (R := string)) :=
  [OPoll "a"; OReceive; OEnd "a" (Fails "boom"); OPoll "b"; OEnd "b" (Succeeds (Some "done"));
   OReceive; OReceive; OReceive; OReceive].

Lemma scheduled_safely_witness : starts_in_order (run pair_ops pair_start).
Proof. by apply (scheduled_safely PStr id default_scheduler_config pair_tasks team false pair_start pair_ops). Defined.
Lemma schedule_terminates_witness : length pair_ops ≤ 12.
Proof.
  apply (schedule_terminates PStr (@id string) default_scheduler_config pair_tasks team false pair_start pair_ops);
    [reflexivity|]. vm_compute. split_and!; done.
Defined.
Lemma pair_keys : dkeys (executions pair_start) = ["a"; "b"].
Proof. reflexivity. Qed.
Lemma pair_edge t d : t ∈ ["a"; "b"] → d ∈ preds_of (executions pair_start) t → d = "a" ∧ t = "b".
Proof.
  rewrite !elem_of_cons, elem_of_nil. intros [->|[->|[]]].
  - change (preds_of _ "a") with (@nil string). by intros ?%elem_of_nil.
  - change (preds_of _ "b") with ["a"]. by intros ->%list_elem_of_singleton.
Qed.
Lemma schedule_outcome_witness : finished (run pair_ops pair_start) = true ∧
  ∀ t, t ∈ ["a"; "b"] → phase_of t (run pair_ops pair_start) = Some Ended.
Proof.
  destruct (schedule_outcome PStr (@id string) default_scheduler_config pair_tasks team pair_start pair_ops)
    as (_ & _ & H); [reflexivity|done| | | |apply H].
  - by apply sliceable_check.
  - unfold pair_ops. rewrite !not_elem_of_cons. split_and!; try done. by intros ?%elem_of_nil.
  - by apply finished_quiet.
  - rewrite pair_keys. intros t d Ht Hd. apply pair_edge in Hd as [-> ->]; [left|done].
  - intros x Hx. assert (∀ p n, tc (kedge (dkeys (executions pair_start)) (preds_of (executions pair_start))) p n →
      p = "a" ∧ n = "b") as Hab.
    { induction 1 as [p n [Hn Hp]|p q n [Hn Hp] _ IH]; rewrite pair_keys in Hn;
        apply pair_edge in Hp as [-> ->]; [done|done| |done]. by destruct IH. }
    destruct (Hab x x Hx). congruence.
Defined.
Lemma abort_ends_stream_witness :
  finished (run [OAbort; OPoll "a"; OPoll "b"; OReceive] pair_start) = true.
Proof.
  apply (abort_ends_stream PStr (@id string) default_scheduler_config pair_tasks team false pair_start);
    [reflexivity|done|reflexivity|by apply finished_quiet].
Defined.

(** Three tasks in a chain, listed last first, from a decomposer limited to two. *)
Definition backwards : list (string * pyval) :=
  let task (i d : string) (deps : list pyval) :=
    PDict [("id", PStr i); ("description", PStr d); ("depends_on", PList deps)] in
  [("subtasks", PList [task "report" "write the report" [PStr "data"]; task "check" "check it" [PStr "report"];
                       task "data" "collect the data" []]);
   ("reasoning", PStr "three phases")].
Definition cut_tasks : list (SubTask pyval) :=
  match parse_arguments 2 "do it" backwards with Ok r => subtasks r | Err _ => [] end.
Definition cut_start : state (K := pyval) (Agent := string) (R := string) :=
  match execute default_scheduler_config cut_tasks team false with Launched s => s | _ => mkState [] [] [] [] 0 [] false [] true end.
Lemma stuck_tasks_hang_witness :
  finished (Scheduler.run (R := string) id (@id string) [OPoll (PStr "report"); OReceive; OReceive] cut_start) = false.
Proof.
  apply (stuck_tasks_hang id (@id string) default_scheduler_config cut_tasks team cut_start
    [PStr "report"] (PStr "report")); [reflexivity| |by left|].
  - intros t Ht. apply list_elem_of_singleton in Ht as ->. eexists. split; [reflexivity|].
    exists (PStr "data"). split; [by left|]. left.
    change (dkeys (executions cut_start)) with [PStr "report"; PStr "check"].
    rewrite !not_elem_of_cons. split_and!; try done. by intros ?%elem_of_nil.
  - rewrite !not_elem_of_cons. split_and!; try done. by intros ?%elem_of_nil.
Defined.
End witnesses.
