(* ===== verification/ToolHooks.v ===== *)
(** Tool results and the hooks around a tool call.

    Source: src/src/infrastructure/agent/tools/result.py, hooks.py.  A hook is
    a callable of the plugins: a parameter that may change the surrounding
    state, change the argument dictionary it is handed in place, return a
    result or raise ([None]). *)

From S2P Require Import Prelude Glob.

Open Scope string_scope.
Open Scope list_scope.
Open Scope nat_scope.

(** * Results *)

Definition tool_args : Type := list (string * pyval).

Record ToolAttachment : Type := mkAttachment {
  att_name : string;
  att_content : string;
  att_mime_type : string;
}.
Record ToolResult : Type := mkResult {
  output : string;
  title : option string;
  metadata : list (string * pyval);
  attachments : list ToolAttachment;
  is_error : bool;
  was_truncated : bool;
  original_bytes : option nat;
  full_output_path : option string;
}.
(** [ToolResult(output=o)], [ToolResult(output=o, is_error=True)] *)
Definition plain_result (o : string) : ToolResult := mkResult o None [] [] false false None None.
Definition error_result (o : string) : ToolResult := mkResult o None [] [] true false None None.

(** [ToolEvent]: the factory methods; the time stamp is left out. *)
Inductive ToolEvent : Type :=
  | EvStarted (tool : string) (args : tool_args)
  | EvCompleted (tool : string) (r : ToolResult)
  | EvDenied (tool : string)
  | EvDoomLoop (tool : string)
  | EvPermissionAsked (tool : string)
  | EvAborted (tool : string)
  | EvOther (type tool : string) (data : list (string * pyval)).

(** * The registry *)

Inductive HookDecision : Set := CONTINUE | HOOK_DENY | HOOK_ASK.
#[export] Instance HookDecision_eq_dec : EqDecision HookDecision.
Proof. solve_decision. Defined.
Record HookResult : Type := mkHookResult {
  decision : HookDecision;
  new_args : option tool_args;
  reason : string;
}.

Module HookPriority.
Definition SECURITY : Z := 10.
Definition VALIDATION : Z := 50.
Definition DEFAULT : Z := 100.
Definition LOGGING : Z := 200.
Definition CLEANUP : Z := 500.
End HookPriority.

(** [_RegisteredBeforeHook], [_RegisteredAfterHook], [_RegisteredDefinitionHook] *)
Record registered (Hook : Type) : Type := mkRegistered {
  hook : Hook;
  hook_pattern : string;
  priority : Z;
  hook_name : string;
}.
Arguments mkRegistered {Hook}.
Arguments hook {Hook}.
Arguments hook_pattern {Hook}.
Arguments priority {Hook}.
Arguments hook_name {Hook}.

Section registry.
Context {Hook : Type}.
Definition by_priority (a b : registered Hook) : bool := (priority a <=? priority b)%Z.
(** [register_before], [register_after], [register_definition]: append, then
    the stable [list.sort]. *)
Definition register (e : registered Hook) (hooks : list (registered Hook)) : list (registered Hook) :=
  sort_by by_priority (hooks ++ [e]).

Lemma by_priority_total (a b : registered Hook) : by_priority a b = false → by_priority b a = true.
Proof. unfold by_priority. lia. Qed.
Lemma by_priority_trans (a b c : registered Hook) :
  by_priority a b = true → by_priority b c = true → by_priority a c = true.
Proof. unfold by_priority. lia. Qed.
End registry.

Section hooks.
Context {St ToolInfo : Type} (info_name : ToolInfo → string).

Definition BeforeHook : Type := string → tool_args → St → St * tool_args * option HookResult.
(** The object it was handed, possibly changed, and the result. *)
Definition AfterHook : Type := string → ToolResult → St → St * ToolResult * option ToolResult.
(** The same; [Some None]: the tool is suppressed. *)
Definition DefinitionHook : Type := ToolInfo → St → St * ToolInfo * option (option ToolInfo).

Record ToolHookRegistry : Type := mkRegistry {
  before_hooks : list (registered BeforeHook);
  after_hooks : list (registered AfterHook);
  definition_hooks : list (registered DefinitionHook);
}.
Definition empty_registry : ToolHookRegistry := mkRegistry [] [] [].
Definition register_definition (e : registered DefinitionHook) (g : ToolHookRegistry) : ToolHookRegistry :=
  mkRegistry (before_hooks g) (after_hooks g) (register e (definition_hooks g)).
Definition register_before (e : registered BeforeHook) (g : ToolHookRegistry) : ToolHookRegistry :=
  mkRegistry (register e (before_hooks g)) (after_hooks g) (definition_hooks g).
Definition register_after (e : registered AfterHook) (g : ToolHookRegistry) : ToolHookRegistry :=
  mkRegistry (before_hooks g) (register e (after_hooks g)) (definition_hooks g).
Definition clear (g : ToolHookRegistry) : ToolHookRegistry := empty_registry.
Definition before_hook_count (g : ToolHookRegistry) : nat := length (before_hooks g).
Definition after_hook_count (g : ToolHookRegistry) : nat := length (after_hooks g).
Definition definition_hook_count (g : ToolHookRegistry) : nat := length (definition_hooks g).

Fixpoint definition_loop (hooks : list (registered DefinitionHook)) (cur : option ToolInfo) (st : St)
    : St * option ToolInfo :=
  match hooks, cur with
  | [], _ | _, None => (st, cur)
  | e :: hooks', Some info =>
      if fnmatch (info_name info) (hook_pattern e) then
        match hook e info st with
        | (st', _, Some cur') => definition_loop hooks' cur' st'
        | (st', info', None) => definition_loop hooks' (Some info') st'
        end
      else definition_loop hooks' cur st
  end.
Definition apply_definition_hooks (info : ToolInfo) (g : ToolHookRegistry) (st : St)
    : St * option ToolInfo :=
  definition_loop (definition_hooks g) (Some info) st.

(** One hook: the arguments and the state after it, and its verdict if it
    stops the loop. *)
Definition before_step (tool : string) (e : registered BeforeHook) (cur : tool_args) (st : St)
    : St * tool_args * option HookResult :=
  if fnmatch tool (hook_pattern e) then
    match hook e tool cur st with
    | (st', cur', Some r) =>
        if bool_decide (decision r ≠ CONTINUE) then (st', cur', Some r)
        else (st', default cur' (new_args r), None)
    | (st', cur', None) => (st', cur', None)
    end
  else (st, cur, None).
Fixpoint before_loop (tool : string) (hooks : list (registered BeforeHook)) (cur : tool_args) (st : St)
    : St * HookResult :=
  match hooks with
  | [] => (st, mkHookResult CONTINUE (Some cur) "")
  | e :: hooks' =>
      match before_step tool e cur st with
      | (st', _, Some r) => (st', r)
      | (st', cur', None) => before_loop tool hooks' cur' st'
      end
  end.
Definition run_before (tool : string) (args : tool_args) (g : ToolHookRegistry) (st : St)
    : St * HookResult :=
  before_loop tool (before_hooks g) args st.

Fixpoint after_loop (tool : string) (hooks : list (registered AfterHook)) (cur : ToolResult) (st : St)
    : St * ToolResult :=
  match hooks with
  | [] => (st, cur)
  | e :: hooks' =>
      if fnmatch tool (hook_pattern e) then
        match hook e tool cur st with
        | (st', _, Some cur') => after_loop tool hooks' cur' st'
        | (st', cur', None) => after_loop tool hooks' cur' st'
        end
      else after_loop tool hooks' cur st
  end.
Definition run_after (tool : string) (r : ToolResult) (g : ToolHookRegistry) (st : St) : St * ToolResult :=
  after_loop tool (after_hooks g) r st.
End hooks.
Arguments ToolHookRegistry : clear implicits.

(** * The order of the hooks *)

(** Whatever the order of registration, the hooks run by ascending
    priority, and hooks of the same priority in the order they were
    registered. *)
Theorem hooks_in_order {Hook} (es : list (registered Hook)) :
  let hooks := foldl (λ hs e, register e hs) [] es in
  hooks ≡ₚ es ∧ StronglySorted (λ a b, (priority a <= priority b)%Z) hooks ∧
  ∀ p, filter (λ e, priority e = p) hooks = filter (λ e, priority e = p) es.
Proof.
  intros hooks.
  assert (hooks = sort_by by_priority es) as ->.
  { unfold hooks. induction es as [|e es IH] using rev_ind; [done|]. rewrite foldl_snoc, IH.
    apply sort_by_sort_snoc; [apply by_priority_total|apply by_priority_trans]. }
  split_and!; [apply sort_by_perm| |intros p; apply sort_by_stable].
  pose proof (sort_by_sorted by_priority by_priority_total by_priority_trans es) as Hs.
  induction Hs as [|a l Hl IH Ha]; constructor; [done|]. eapply Forall_impl; [exact Ha|].
  unfold by_priority. intros. lia.
Qed.

(** The hooks before the one that stops the loop, and what they leave. *)
Inductive passes {St} (tool : string) : list (registered (BeforeHook (St := St))) → tool_args → St →
    tool_args → St → Prop :=
  | passes_nil cur st : passes tool [] cur st cur st
  | passes_cons e hooks cur st cur1 st1 cur2 st2 :
      before_step tool e cur st = (st1, cur1, None) → passes tool hooks cur1 st1 cur2 st2 →
      passes tool (e :: hooks) cur st cur2 st2.

Lemma before_loop_spec {St} tool (hooks : list (registered (BeforeHook (St := St)))) cur st :
  (∃ cur' st', passes tool hooks cur st cur' st' ∧
     before_loop tool hooks cur st = (st', mkHookResult CONTINUE (Some cur') "")) ∨
  (∃ l1 e l2 cur1 st1 cur2 st2 r, hooks = l1 ++ e :: l2 ∧ passes tool l1 cur st cur1 st1 ∧
     before_step tool e cur1 st1 = (st2, cur2, Some r) ∧ decision r ≠ CONTINUE ∧
     before_loop tool hooks cur st = (st2, r)).
Proof.
  revert cur st. induction hooks as [|e hooks IH]; intros cur st; simpl.
  { left. exists cur, st. split; [constructor|done]. }
  destruct (before_step tool e cur st) as [[st1 cur1] [r|]] eqn:He.
  - right. exists [], e, hooks, cur, st, cur1, st1, r. split_and!; [done|constructor|done| |done].
    unfold before_step in He. destruct (fnmatch _ _); [|done].
    destruct (hook e tool cur st) as [[? ?] [r'|]]; [|done].
    case_bool_decide; by simplify_eq.
  - destruct (IH cur1 st1) as [(cur' & st' & Hp & ->)|(l1 & e' & l2 & ca & sa & cb & sb & r & -> & Hp & Hs & Hd & ->)].
    + left. exists cur', st'. split; [by econstructor|done].
    + right. exists (e :: l1), e', l2, ca, sa, cb, sb, r. split_and!; [done|by econstructor|done..].
Qed.
