(* ===== verification/PermissionRules.v ===== *)
(** Permission rules and their evaluation.

    Source: src/src/infrastructure/agent/permission/rules.py.  Rules are
    evaluated in order and the last one that matches decides.  Tool arguments
    are a dictionary of values; [str] of a value is a parameter. *)

From S2P Require Import Prelude Glob.
From Stdlib Require Import Ascii.

Open Scope string_scope.
Open Scope list_scope.
Open Scope nat_scope.

(** * Data *)

Inductive RuleScope : Set := SCOPE_AGENT | SCOPE_USER | SCOPE_SESSION.
Inductive PermissionAction : Set := ALLOW | DENY | ASK.

#[export] Instance RuleScope_eq_dec : EqDecision RuleScope.
Proof. solve_decision. Defined.
#[export] Instance PermissionAction_eq_dec : EqDecision PermissionAction.
Proof. solve_decision. Defined.

Definition scope_value (s : RuleScope) : string :=
  match s with SCOPE_AGENT => "agent" | SCOPE_USER => "user" | SCOPE_SESSION => "session" end.
Definition action_value (a : PermissionAction) : string :=
  match a with ALLOW => "allow" | DENY => "deny" | ASK => "ask" end.
(** [RuleScope(s)], [PermissionAction(s)]: [None] is the ValueError. *)
Definition parse_scope (s : string) : option RuleScope :=
  List.find (λ v, bool_decide (scope_value v = s)) [SCOPE_AGENT; SCOPE_USER; SCOPE_SESSION].
Definition parse_action (s : string) : option PermissionAction :=
  List.find (λ v, bool_decide (action_value v = s)) [ALLOW; DENY; ASK].

Record PermissionRule : Type := mkRule {
  permission : string;
  pattern : string;
  action : PermissionAction;
  scope : RuleScope;
  arg_pattern : option string;
}.
#[export] Instance PermissionRule_eq_dec : EqDecision PermissionRule.
Proof. solve_decision. Defined.

(** [PermissionRule(permission, pattern, action)] *)
Definition rule (p t : string) (a : PermissionAction) : PermissionRule :=
  mkRule p t a SCOPE_AGENT None.

(** * Matching *)

(** [s[:i]] and [s[i+1:]] for [i = s.find(":")]; [None] when [i < 0]. *)
Fixpoint split_colon (s : string) : option (string * string) :=
  match s with
  | EmptyString => None
  | String ":"%char s' => Some (EmptyString, s')
  | String c s' =>
      match split_colon s' with Some (k, v) => Some (String c k, v) | None => None end
  end.

Section rules.
Context (py_str : pyval → string).

Definition match_arg_pattern (ap : string) (args : list (string * pyval)) : bool :=
  if truthy ap then
    match split_colon ap with
    | None => true
    | Some (key, value_pattern) =>
        match dget (strip key) args with
        | None | Some PNone => false
        | Some v => fnmatch (py_str v) (strip value_pattern)
        end
    end
  else true.

Definition matches (p target : string) (args : option (list (string * pyval)))
    (r : PermissionRule) : bool :=
  if fnmatch p (permission r) && fnmatch target (pattern r) then
    match arg_pattern r, args with
    | None, _ => true
    | Some _, None => true
    | Some ap, Some args => match_arg_pattern ap args
    end
  else false.

(** [evaluate_rules]: the rule sets are concatenated, the last match decides. *)
Definition evaluate_rules (p target : string) (rulesets : list (list PermissionRule))
    (args : option (list (string * pyval))) : PermissionRule :=
  match List.find (matches p target args) (reverse (concat rulesets)) with
  | Some r => r
  | None => rule p "*" ASK
  end.
End rules.

(** * Serialization *)

Definition to_dict (r : PermissionRule) : list (string * pyval) :=
  [ ("permission", PStr (permission r)); ("pattern", PStr (pattern r));
    ("action", PStr (action_value (action r))) ]
  ++ (if decide (scope r = SCOPE_AGENT) then [] else [("scope", PStr (scope_value (scope r)))])
  ++ match arg_pattern r with Some ap => [("arg_pattern", PStr ap)] | None => [] end.

Inductive rule_error : Type :=
  | MissingKey (k : string)        (** KeyError *)
  | BadEnum (k : string)           (** the ValueError of an Enum call *)
  | IllTyped (k : string).         (** a value the annotations exclude *)

Definition required_str (k : string) (d : list (string * pyval)) : result rule_error string :=
  match dget k d with
  | None => Err (MissingKey k)
  | Some (PStr s) => Ok s
  | Some _ => Err (IllTyped k)
  end.
Definition enum_field {A} (parse : string → option A) (k : string) (v : pyval)
    : result rule_error A :=
  match v with PStr s => of_option (parse s) (BadEnum k) | _ => Err (BadEnum k) end.
Definition from_dict (d : list (string * pyval)) : result rule_error PermissionRule :=
  p ← required_str "permission" d;
  t ← required_str "pattern" d;
  av ← of_option (dget "action" d) (MissingKey "action");
  a ← enum_field parse_action "action" av;
  sc ← match dget "scope" d with
       | Some v => enum_field parse_scope "scope" v
       | None => Ok SCOPE_AGENT
       end;
  ap ← match dget "arg_pattern" d with
       | None | Some PNone => Ok None
       | Some (PStr s) => Ok (Some s)
       | Some _ => Err (IllTyped "arg_pattern")
       end;
  mret (mkRule p t a sc ap).

(** * Disabled tools *)

Definition EDIT_TOOLS : list string := ["edit"; "write"; "patch"; "multiedit"].
Definition tool_permission (tool : string) : string :=
  if decide (tool ∈ EDIT_TOOLS) then "edit" else tool.
Definition tool_disabled (ruleset : list PermissionRule) (tool : string) : bool :=
  match List.find (λ r, fnmatch (tool_permission tool) (permission r)) (reverse ruleset) with
  | Some r => bool_decide (pattern r = "*") && bool_decide (action r = DENY)
  | None => false
  end.
(** The set as the list of its elements in the order they are added. *)
Definition get_disabled_tools (tools : list string) (ruleset : list PermissionRule) : list string :=
  foldl (λ acc t, if tool_disabled ruleset t then set_add t acc else acc) [] tools.

(** * Rule sets *)

Definition default_ruleset : list PermissionRule :=
  [ rule "*" "*" ALLOW; rule "doom_loop" "*" ASK; rule "external_directory" "*" ASK;
    rule "read" "*.env" ASK; rule "read" "*.env.*" ASK; rule "read" "*.env.example" ALLOW;
    rule "question" "*" DENY ].

Definition explore_mode_ruleset : list PermissionRule :=
  [ rule "edit" "*" DENY; rule "write" "*" DENY; rule "patch" "*" DENY;
    rule "multiedit" "*" DENY; rule "bash" "*" DENY; rule "code_executor" "*" DENY;
    rule "read" "*" ALLOW; rule "glob" "*" ALLOW; rule "grep" "*" ALLOW;
    rule "memory_search" "*" ALLOW; rule "entity_lookup" "*" ALLOW;
    rule "episode_retrieval" "*" ALLOW; rule "graph_query" "*" ALLOW;
    rule "web_search" "*" ALLOW; rule "web_scrape" "*" ALLOW;
    rule "memory_create" "*" DENY; rule "ask_clarification" "*" DENY;
    rule "ask_decision" "*" DENY;
    rule "*" "bash" DENY; rule "*" "write" DENY; rule "*" "file_write" DENY;
    rule "*" "edit" DENY; rule "*" "patch" DENY; rule "*" "execute" DENY ].

Definition sandbox_mcp_ruleset : list PermissionRule :=
  [ rule "*" "*" ASK;
    rule "read" "read" ALLOW; rule "read" "file_read" ALLOW; rule "read" "list_files" ALLOW;
    rule "read" "cat" ALLOW; rule "read" "grep" ALLOW; rule "read" "glob" ALLOW;
    rule "read" "find" ALLOW;
    rule "write" "write" ASK; rule "write" "file_write" ASK; rule "write" "write_file" ASK;
    rule "write" "create_file" ASK; rule "write" "edit_file" ASK;
    rule "write" "delete_file" ASK; rule "write" "edit" ASK; rule "write" "patch" ASK;
    rule "bash" "bash" ASK; rule "bash" "execute" ASK; rule "bash" "run" ASK;
    rule "bash" "python" ASK; rule "bash" "sh" ASK; rule "bash" "shell" ASK ].

(** * Sandbox tools *)

Definition read_tools : list string :=
  ["file_read"; "read_file"; "list_files"; "cat"; "grep"; "glob"; "find"; "ls"; "dir"].
Definition write_tools : list string :=
  ["file_write"; "write_file"; "create_file"; "edit_file"; "delete_file"; "remove"; "rm"; "mv";
   "rename"; "mkdir"; "touch"].
Definition execute_tools : list string :=
  ["bash"; "execute"; "run_command"; "python"; "node"; "sh"; "shell"].
(** [str.lower] on ASCII. *)
Definition lower_char (c : ascii) : ascii :=
  let n := nat_of_ascii c in
  if (65 <=? n) && (n <=? 90) then ascii_of_nat (n + 32) else c.
Fixpoint lower (s : string) : string :=
  match s with EmptyString => EmptyString | String c s' => String (lower_char c) (lower s') end.
Definition classify_sandbox_tool_permission (tool_name : string) : string :=
  let t := lower tool_name in
  if decide (t ∈ read_tools) then "read"
  else if decide (t ∈ write_tools) then "write"
  else if decide (t ∈ execute_tools) then "bash"
  else "ask".

(** * The last match decides *)

Lemma split_colon_spec s k v : split_colon s = Some (k, v) → s = (k +:+ ":" +:+ v)%string.
Proof.
  revert k. induction s as [|c s IH]; intros k H; [done|]. simpl in H.
  destruct (decide (c = ":"%char)) as [->|Hc]; [by simplify_eq|].
  assert (H' : match split_colon s with Some (k, v) => Some (String c k, v) | None => None end
               = Some (k, v)) by (destruct c as [[] [] [] [] [] [] [] []]; (exact H || done)).
  destruct (split_colon s) as [[k' v']|]; simplify_eq. by rewrite (IH k').
Qed.

Lemma find_app {A} (f : A → bool) l k :
  List.find f (l ++ k) = match List.find f l with Some x => Some x | None => List.find f k end.
Proof. induction l as [|x l IH]; simpl; [done|]. by destruct (f x). Qed.

(** [find] on the reversed list is the last index that satisfies [f]. *)
Lemma find_reverse_last {A} (f : A → bool) l x :
  List.find f (reverse l) = Some x ↔
  ∃ l1 l2, l = l1 ++ x :: l2 ∧ f x = true ∧ ∀ y, y ∈ l2 → f y = false.
Proof.
  induction l as [|y l IH] using rev_ind; [split; [done|by intros ([] & ? & ? & _)]|].
  rewrite reverse_snoc. simpl. destruct (f y) eqn:Hy.
  - split; [intros [= <-]; exists l, []; by repeat split; [|set_solver]|].
    intros (l1 & l2 & He & Hx & Hn). destruct l2 as [|z l2 _] using rev_ind.
    + by apply app_inj_tail in He as [_ ->].
    + rewrite app_comm_cons, app_assoc in He. apply app_inj_tail in He as [_ <-].
      rewrite Hn in Hy by set_solver. done.
  - rewrite IH. split; intros (l1 & l2 & He & Hx & Hn).
    + exists l1, (l2 ++ [y]). subst. rewrite <-app_assoc. repeat split; [done|].
      intros z [Hz|Hz]%elem_of_app; [auto|]. apply list_elem_of_singleton in Hz. by subst.
    + destruct l2 as [|z l2 _] using rev_ind.
      * apply app_inj_tail in He as [_ <-]. congruence.
      * rewrite app_comm_cons, app_assoc in He. apply app_inj_tail in He as [-> _].
        exists l1, l2. repeat split; [done|]. intros; apply Hn. set_solver.
Qed.
Lemma find_reverse_none {A} (f : A → bool) l :
  List.find f (reverse l) = None ↔ ∀ y, y ∈ l → f y = false.
Proof. rewrite find_None_all. setoid_rewrite elem_of_reverse. done. Qed.

Section facts.
Context (py_str : pyval → string).
Notation evaluate_rules := (evaluate_rules py_str).
Notation matches := (matches py_str).

(** A later rule set overrides the earlier ones where it has a match. *)
Lemma evaluate_snoc p t sets R args :
  evaluate_rules p t (sets ++ [R]) args =
  match List.find (matches p t args) (reverse R) with
  | Some r => r
  | None => evaluate_rules p t sets args
  end.
Proof.
  unfold PermissionRules.evaluate_rules.
  rewrite concat_app. simpl. rewrite app_nil_r, reverse_app, find_app.
  by destruct (List.find _ (reverse R)).
Qed.

(** Rules on one permission for all targets, and on one target for all permissions. *)
Definition perm_rules (a : PermissionAction) (l : list string) : list PermissionRule :=
  (λ x, rule x "*" a) <$> l.
Definition target_rules (a : PermissionAction) (l : list string) : list PermissionRule :=
  (λ x, rule "*" x a) <$> l.

Lemma find_perm_rules p t args a l : forallb plain l = true →
  List.find (matches p t args) (perm_rules a l) =
  if decide (p ∈ l) then Some (rule p "*" a) else None.
Proof.
  induction l as [|x l IH]; [done|]. simpl. intros [Hx Hl]%andb_true_iff.
  unfold PermissionRules.matches at 1. simpl. rewrite fnmatch_star, (fnmatch_plain p x) by done.
  rewrite IH by done. destruct (decide (p = x)) as [->|Hne].
  - rewrite bool_decide_true by done. simpl. by rewrite decide_True by set_solver.
  - rewrite bool_decide_false by done. simpl.
    destruct (decide (p ∈ l)); [rewrite decide_True|rewrite decide_False]; set_solver.
Qed.
Lemma find_target_rules p t args a l : forallb plain l = true →
  List.find (matches p t args) (target_rules a l) =
  if decide (t ∈ l) then Some (rule "*" t a) else None.
Proof.
  induction l as [|x l IH]; [done|]. simpl. intros [Hx Hl]%andb_true_iff.
  unfold PermissionRules.matches at 1. simpl. rewrite fnmatch_star, (fnmatch_plain t x) by done.
  rewrite IH by done. destruct (decide (t = x)) as [->|Hne].
  - rewrite bool_decide_true by done. simpl. by rewrite decide_True by set_solver.
  - rewrite bool_decide_false by done. simpl.
    destruct (decide (t ∈ l)); [rewrite decide_True|rewrite decide_False]; set_solver.
Qed.

Definition explore_targets : list string :=
  ["execute"; "patch"; "edit"; "file_write"; "write"; "bash"].
Definition explore_denied : list string :=
  ["ask_decision"; "ask_clarification"; "memory_create"; "code_executor"; "bash"; "multiedit";
   "patch"; "write"; "edit"].
Definition explore_allowed : list string :=
  ["web_scrape"; "web_search"; "graph_query"; "episode_retrieval"; "entity_lookup";
   "memory_search"; "grep"; "glob"; "read"].

(** What the explore rules decide, [None] where they say nothing. *)
Lemma explore_find p t args :
  action <$> List.find (matches p t args) (reverse explore_mode_ruleset) =
  if decide (t ∈ explore_targets) then Some DENY
  else if decide (p ∈ explore_denied) then Some DENY
  else if decide (p ∈ explore_allowed) then Some ALLOW
  else None.
Proof.
  assert (reverse explore_mode_ruleset =
    target_rules DENY explore_targets ++ perm_rules DENY (take 3 explore_denied) ++
    perm_rules ALLOW explore_allowed ++ perm_rules DENY (drop 3 explore_denied)) as -> by reflexivity.
  rewrite !find_app, find_target_rules by reflexivity.
  destruct (decide (t ∈ explore_targets)); [done|].
  rewrite !find_perm_rules by reflexivity.
  destruct (decide (p ∈ take 3 explore_denied)) as [H1|H1].
  { rewrite decide_True; [done|]. rewrite <-(take_drop 3 explore_denied), elem_of_app. tauto. }
  destruct (decide (p ∈ explore_allowed)) as [H2|H2].
  { rewrite decide_False; [done|]. clear H1. revert p H2. apply Forall_forall.
    by vm_decide. }
  destruct (decide (p ∈ drop 3 explore_denied)) as [H3|H3].
  - rewrite decide_True; [done|]. rewrite <-(take_drop 3 explore_denied), elem_of_app. tauto.
  - rewrite decide_False; [done|]. rewrite <-(take_drop 3 explore_denied), elem_of_app. tauto.
Qed.
Lemma evaluate_explore base p t args :
  action (evaluate_rules p t [base; explore_mode_ruleset] args) =
  if decide (t ∈ explore_targets) then DENY
  else if decide (p ∈ explore_denied) then DENY
  else if decide (p ∈ explore_allowed) then ALLOW
  else action (evaluate_rules p t [base] args).
Proof.
  change [base; explore_mode_ruleset] with ([base] ++ [explore_mode_ruleset]).
  rewrite evaluate_snoc. pose proof (explore_find p t args) as Hf.
  destruct (List.find _ _) as [r|]; simpl in Hf; repeat case_decide; by simplify_eq.
Qed.
End facts.

(** * What the rule sets promise *)

Section promises.
Context (py_str : pyval → string).
Notation evaluate_rules := (evaluate_rules py_str).

(** The arguments a rule asks for: [key:value_glob] against the value of the key. *)
Definition args_ok (ap : option string) (args : option (list (string * pyval))) : Prop :=
  ∀ s a k v, ap = Some s → args = Some a → s ≠ "" → split_colon s = Some (k, v) →
  ∃ x, dget (strip k) a = Some x ∧ x ≠ PNone ∧
       in_glob (glob_of (strip v)) (String.list_ascii_of_string (py_str x)).
(** A rule speaks about a request. *)
Definition applies (p t : string) (args : option (list (string * pyval))) (r : PermissionRule) : Prop :=
  in_glob (glob_of (permission r)) (String.list_ascii_of_string p) ∧
  in_glob (glob_of (pattern r)) (String.list_ascii_of_string t) ∧
  args_ok (arg_pattern r) args.

Lemma match_arg_pattern_true s a :
  match_arg_pattern py_str s a = true ↔ args_ok (Some s) (Some a).
Proof.
  unfold match_arg_pattern, args_ok.
  destruct (truthy s) eqn:Ht; [apply truthy_true in Ht|].
  2:{ unfold truthy in Ht. split_bools. naive_solver. }
  destruct (split_colon s) as [[k v]|] eqn:Hs; [|naive_solver].
  destruct (dget (strip k) a) as [x|] eqn:Hx; [|naive_solver].
  assert (Hd : fnmatch (py_str x) (strip v) = true ↔
    in_glob (glob_of (strip v)) (String.list_ascii_of_string (py_str x))) by apply fnmatch_true.
  destruct x; rewrite ?Hd; naive_solver.
Qed.
Lemma matches_true p t args r : matches py_str p t args r = true ↔ applies p t args r.
Proof.
  unfold matches, applies. rewrite <-!fnmatch_true.
  destruct (fnmatch p (permission r)), (fnmatch t (pattern r)); simpl; try naive_solver.
  destruct (arg_pattern r) as [s|]; [|by unfold args_ok; naive_solver].
  destruct args as [a|]; [rewrite match_arg_pattern_true|unfold args_ok]; naive_solver.
Qed.
Lemma matches_false p t args r : matches py_str p t args r = false ↔ ¬ applies p t args r.
Proof. rewrite <-matches_true. by destruct (matches _ _ _ _ _). Qed.

(** [evaluate_rules] agrees with the declarative reading of the rules: of
    the concatenated rule sets, the last rule whose permission pattern,
    target pattern and argument pattern stand for the request decides, and
    the default ASK rule is the answer exactly when no rule applies. *)
Theorem last_match_wins p t sets args r :
  evaluate_rules p t sets args = r ↔
  (∃ l1 l2, concat sets = l1 ++ r :: l2 ∧ applies p t args r ∧ ∀ r', r' ∈ l2 → ¬ applies p t args r')
  ∨ ((∀ r', r' ∈ concat sets → ¬ applies p t args r') ∧ r = rule p "*" ASK).
Proof.
  unfold PermissionRules.evaluate_rules. setoid_rewrite <-matches_false. setoid_rewrite <-matches_true.
  destruct (List.find _ _) as [r0|] eqn:Hf.
  - apply find_reverse_last in Hf as Hl. split; [intros <-; by left|].
    intros [Hr|[Hn _]]; [apply find_reverse_last in Hr; congruence|].
    destruct Hl as (l1 & l2 & Heq & Hm & _). rewrite Hn in Hm; [done|]. rewrite Heq. set_solver.
  - pose proof Hf as Hn. rewrite find_reverse_none in Hn. split; [intros <-; by right|].
    intros [(l1 & l2 & Heq & Hm & _)|[_ ->]]; [|done].
    rewrite Hn in Hm; [done|]. rewrite Heq. set_solver.
Qed.

(** In the read-only modes, whatever the base rules are and before any
    approval: a target named like an editing tool is denied for every
    permission, the editing, execution and interaction permissions are
    denied for every target, the search permissions are allowed, and a
    permission the mode does not list falls through to the base rules. *)
Theorem explore_mode_decides base p t args :
  action (evaluate_rules p t [base; explore_mode_ruleset; []] args) =
  if decide (t ∈ explore_targets) then DENY
  else if decide (p ∈ explore_denied) then DENY
  else if decide (p ∈ explore_allowed) then ALLOW
  else action (evaluate_rules p t [base] args).
Proof.
  change [base; explore_mode_ruleset; []] with ([base; explore_mode_ruleset] ++ [[]]).
  rewrite evaluate_snoc. apply evaluate_explore.
Qed.

Lemma find_same {A} (f g : A → bool) l : (∀ x, x ∈ l → f x = g x) → List.find f l = List.find g l.
Proof.
  induction l as [|x l IH]; intros H; [done|]. simpl. rewrite H by set_solver.
  destruct (g x); [done|]. apply IH. set_solver.
Qed.
End promises.

Lemma elem_of_get_disabled tools rs t :
  t ∈ get_disabled_tools tools rs ↔ t ∈ tools ∧ tool_disabled rs t = true.
Proof.
  unfold get_disabled_tools.
  assert (∀ acc, t ∈ foldl (λ acc t, if tool_disabled rs t then set_add t acc else acc) acc tools ↔
                 t ∈ acc ∨ t ∈ tools ∧ tool_disabled rs t = true) as ->; [|set_solver].
  induction tools as [|x l IH]; intros acc; simpl; [set_solver|]. rewrite IH, elem_of_cons.
  destruct (tool_disabled rs x) eqn:Hx; [rewrite elem_of_set_add|]; intuition (subst; auto; congruence).
Qed.

(** A tool [get_disabled_tools] reports is denied whatever it is applied
    to; but in the read-only modes it reports no tool at all, although every
    editing tool is denied for every target. *)
Theorem disabled_tools_sound py_str tools rs t target :
  t ∈ get_disabled_tools tools rs →
  action (evaluate_rules py_str (tool_permission t) target [rs] None) = DENY ∧
  (∀ base, get_disabled_tools tools (base ++ explore_mode_ruleset) = []) ∧
  (∀ base x, x ∈ EDIT_TOOLS →
   action (evaluate_rules py_str (tool_permission x) target [base; explore_mode_ruleset] None) = DENY).
Proof.
  rewrite elem_of_get_disabled. intros [_ Hd]. split_and!.
  - unfold tool_disabled in Hd. destruct (List.find _ _) as [r|] eqn:Hf; [|done]. split_bools.
    change [rs] with ([] ++ [rs]). rewrite evaluate_snoc.
    apply find_reverse_last in Hf as (l1 & l2 & -> & Hm & Hn).
    assert (List.find (matches py_str (tool_permission t) target None) (reverse (l1 ++ r :: l2)) = Some r)
      as ->; [|done].
    apply find_reverse_last. exists l1, l2. split_and!; [done| |].
    + unfold matches. rewrite Hm. replace (pattern r) with "*"%string by done.
      rewrite fnmatch_star. by destruct (arg_pattern r).
    + intros y Hy. unfold matches. by rewrite (Hn y Hy).
  - intros base. apply elem_of_nil_inv. intros x Hx. apply elem_of_get_disabled in Hx as [_ Hx].
    assert (∃ l, reverse explore_mode_ruleset = rule "*" "execute" DENY :: l) as [l Hl] by (by eexists).
    unfold tool_disabled in Hx. rewrite reverse_app, Hl in Hx. simpl in Hx.
    by rewrite fnmatch_star in Hx.
  - intros base x Hx. rewrite evaluate_explore. unfold tool_permission.
    rewrite (decide_True _ _ Hx). by case_decide.
Qed.

Lemma required_str_ok k d s : required_str k d = Ok s → dget k d = Some (PStr s).
Proof. unfold required_str. destruct (dget k d) as [[]|]; naive_solver. Qed.
Lemma enum_field_ok {A} (value : A → string) (l : list A) k v a :
  enum_field (λ s, List.find (λ x, bool_decide (value x = s)) l) k v = Ok a → v = PStr (value a).
Proof.
  destruct v; simpl; try done. destruct (List.find _ l) as [b|] eqn:Hf; simpl; [|done].
  apply find_Some_first in Hf as [_ Hb%bool_decide_eq_true]. naive_solver.
Qed.

(** [PermissionRule.from_dict] inverts [to_dict]; and whatever dictionary
    it accepts holds every entry [to_dict] of the rule writes. *)
Theorem rule_roundtrip :
  (∀ r, from_dict (to_dict r) = Ok r) ∧
  (∀ d r k v, from_dict d = Ok r → (k, v) ∈ to_dict r → dget k d = Some v).
Proof.
  split; [by intros [p t [] [] [ap|]]|]. intros d r k v H Hin. unfold from_dict in H.
  apply result_bind_ok in H as (p & Hp%required_str_ok & H).
  apply result_bind_ok in H as (t & Ht%required_str_ok & H).
  apply result_bind_ok in H as (av & Hav & H). apply result_bind_ok in H as (a & Ha & H).
  apply result_bind_ok in H as (sc & Hsc & H). apply result_bind_ok in H as (ap & Hap & H).
  apply enum_field_ok in Ha as ->. injection H as <-. unfold to_dict in Hin; simpl in Hin.
  destruct (dget "action" d) eqn:?; simplify_eq/=.
  repeat (apply elem_of_cons in Hin as [Hin|Hin]; [by simplify_eq|]).
  apply elem_of_app in Hin as [Hin|Hin].
  - case_decide; [by apply elem_of_nil in Hin|]. apply list_elem_of_singleton in Hin as [= -> ->].
    destruct (dget "scope" d); [|by simplify_eq]. by apply enum_field_ok in Hsc as ->.
  - destruct ap as [s|]; [|by apply elem_of_nil in Hin].
    apply list_elem_of_singleton in Hin as [= -> ->]. case_all Hap; done.
Qed.

(** * Sandbox tools under the rule sets *)

Section sandbox.
Context (py_str : pyval → string).
Notation evaluate_rules := (evaluate_rules py_str).
Notation matches := (matches py_str).

Definition pair_rules (q : string) (a : PermissionAction) (l : list string) : list PermissionRule :=
  (λ x, rule q x a) <$> l.
Lemma find_pair_rules q p t args a l : plain q = true → forallb plain l = true →
  List.find (matches p t args) (pair_rules q a l) =
  if decide (p = q ∧ t ∈ l) then Some (rule q t a) else None.
Proof.
  intros Hq. induction l as [|x l IH]; [by rewrite decide_False by set_solver|].
  simpl. intros [Hx Hl]%andb_true_iff. unfold PermissionRules.matches at 1. simpl.
  rewrite (fnmatch_plain p q), (fnmatch_plain t x), IH by done.
  destruct (decide (p = q)) as [->|]; [|by rewrite !decide_False, bool_decide_false by tauto].
  rewrite (bool_decide_true (q = q)) by done. simpl.
  destruct (decide (t = x)) as [->|Hne].
  - rewrite bool_decide_true, decide_True by set_solver. done.
  - rewrite bool_decide_false by done.
    destruct (decide (q = q ∧ t ∈ l)); [rewrite decide_True|rewrite decide_False]; set_solver.
Qed.

(** The targets the sandbox rules allow to read. *)
Definition mcp_readable : list string :=
  ["find"; "glob"; "grep"; "cat"; "list_files"; "file_read"; "read"].
Lemma mcp_find p t args :
  action <$> List.find (matches p t args) (reverse sandbox_mcp_ruleset) =
  Some (if decide (p = "read" ∧ t ∈ mcp_readable) then ALLOW else ASK).
Proof.
  set (bash := ["shell"; "sh"; "python"; "run"; "execute"; "bash"]).
  set (wr := ["patch"; "edit"; "delete_file"; "edit_file"; "create_file"; "write_file"; "file_write";
              "write"]).
  assert (reverse sandbox_mcp_ruleset =
    pair_rules "bash" ASK bash ++ pair_rules "write" ASK wr ++
    pair_rules "read" ALLOW mcp_readable ++ perm_rules ASK ["*"]) as -> by reflexivity.
  rewrite !find_app, !find_pair_rules by reflexivity.
  destruct (decide (p = "bash" ∧ t ∈ bash)) as [[-> _]|_]; [by rewrite decide_False by naive_solver|].
  destruct (decide (p = "write" ∧ t ∈ wr)) as [[-> _]|_]; [by rewrite decide_False by naive_solver|].
  destruct (decide (p = "read" ∧ t ∈ mcp_readable)); [done|].
  simpl. unfold PermissionRules.matches. simpl. by rewrite !fnmatch_star.
Qed.

(** A name matched by a pattern has the pattern's literal characters. *)
Lemma in_glob_lit c p s : in_glob p s → Lit c ∈ p → c ∈ s.
Proof.
  induction 1 as [|t d p s Ht _ IH|p s1 s2 _ IH]; intros Hc.
  - by apply elem_of_nil in Hc.
  - apply elem_of_cons in Hc as [<-|Hc]; [|right; auto].
    apply bool_decide_eq_true in Ht as ->. left.
  - apply elem_of_cons in Hc as [?|Hc]; [done|]. apply elem_of_app; auto.
Qed.
Lemma lower_dot t : "."%char ∈ String.list_ascii_of_string t →
  "."%char ∈ String.list_ascii_of_string (lower t).
Proof.
  induction t as [|c t IH]; simpl; [done|]. rewrite !elem_of_cons.
  intros [<-|H]; [by left|right; auto].
Qed.
Lemma not_env t pat : Lit "."%char ∈ glob_of pat → lower t ∈ read_tools → fnmatch t pat = false.
Proof.
  intros Hp Ht. apply not_true_is_false. intros Hm%fnmatch_true.
  pose proof (lower_dot _ (in_glob_lit _ _ _ Hm Hp)) as Hd. revert Hd.
  assert (Forall (λ x, "."%char ∉ String.list_ascii_of_string x) read_tools) as HF
    by (by vm_decide).
  rewrite Forall_forall in HF. by apply HF.
Qed.

(** The four categories. *)
Lemma classify_cases tool :
  (classify_sandbox_tool_permission tool = "read" ∧ lower tool ∈ read_tools) ∨
  (classify_sandbox_tool_permission tool = "write" ∧ lower tool ∈ write_tools) ∨
  (classify_sandbox_tool_permission tool = "bash" ∧ lower tool ∈ execute_tools) ∨
  (classify_sandbox_tool_permission tool = "ask" ∧
   lower tool ∉ read_tools ∧ lower tool ∉ write_tools ∧ lower tool ∉ execute_tools).
Proof.
  unfold classify_sandbox_tool_permission. repeat case_decide; naive_solver.
Qed.

Lemma default_allows_sandbox tool args :
  action (evaluate_rules (classify_sandbox_tool_permission tool) tool [default_ruleset] args) = ALLOW.
Proof.
  unfold PermissionRules.evaluate_rules. change (concat [default_ruleset]) with default_ruleset.
  assert (Lit "."%char ∈ glob_of "*.env" ∧ Lit "."%char ∈ glob_of "*.env.*" ∧
          Lit "."%char ∈ glob_of "*.env.example") as (H1 & H2 & H3)
    by (split_and!; by vm_decide).
  destruct (classify_cases tool) as [[-> Hr]|[[-> _]|[[-> _]|[-> _]]]];
    unfold PermissionRules.matches; simpl; rewrite ?fnmatch_star, ?not_env by done; done.
Qed.

(** How a sandbox tool, classified by its name, fares under the rule
    sets: with the default rules alone every tool is allowed, the editing,
    executing and unknown ones included; with the sandbox rules after them
    the listed read tools are allowed and everything else asks; in the
    read-only modes the writing and executing categories are denied and an
    unknown tool is allowed unless it has one of the six denied names. *)
Theorem sandbox_tool_decisions tool args :
  let p := classify_sandbox_tool_permission tool in
  let decision sets := action (evaluate_rules p tool sets args) in
  decision [default_ruleset] = ALLOW ∧
  decision [default_ruleset; sandbox_mcp_ruleset] =
    (if decide (tool ∈ ["find"; "glob"; "grep"; "cat"; "list_files"; "file_read"]) then ALLOW else ASK) ∧
  decision [default_ruleset; explore_mode_ruleset; []] =
    (if decide (p = "write" ∨ p = "bash" ∨ tool ∈ ["write"; "edit"; "patch"]) then DENY else ALLOW).
Proof.
  cbv zeta. split_and!; [apply default_allows_sandbox| |].
  - change [default_ruleset; sandbox_mcp_ruleset] with ([default_ruleset] ++ [sandbox_mcp_ruleset]).
    rewrite evaluate_snoc. pose proof (mcp_find (classify_sandbox_tool_permission tool) tool args) as Hf.
    destruct (List.find _ _) as [r|]; simpl in Hf; [|done]. injection Hf as ->.
    assert (classify_sandbox_tool_permission tool = "read" ∧ tool ∈ mcp_readable ↔
            tool ∈ ["find"; "glob"; "grep"; "cat"; "list_files"; "file_read"]) as Hiff.
    { split.
      - intros [Hc Ht]. change mcp_readable with
          (["find"; "glob"; "grep"; "cat"; "list_files"; "file_read"] ++ ["read"]) in Ht.
        apply elem_of_app in Ht as [Ht|Ht]; [done|]. by apply list_elem_of_singleton in Ht as ->.
      - intros Ht. split; [|unfold mcp_readable; set_solver]. revert tool Ht.
        apply Forall_forall. by vm_decide. }
    destruct (decide (_ ∧ _)); [rewrite decide_True|rewrite decide_False]; tauto.
  - change [default_ruleset; explore_mode_ruleset; []] with
      ([default_ruleset; explore_mode_ruleset] ++ [[]]).
    rewrite evaluate_snoc. simpl List.find. cbv iota. rewrite evaluate_explore, default_allows_sandbox.
    destruct (decide (tool ∈ explore_targets)) as [Ht|Ht].
    + rewrite decide_True; [done|]. revert tool Ht. apply Forall_forall. by vm_decide.
    + assert (tool ∉ ["write"; "edit"; "patch"]) by (unfold explore_targets in Ht; set_solver).
      destruct (classify_cases tool) as [[-> _]|[[-> _]|[[-> _]|[-> _]]]];
        destruct (decide (_ ∨ _)); first [done|naive_solver].
Qed.
End sandbox.
