(* ===== verification/PermissionManager.v ===== *)
(** The permission manager: requests that wait for the user, the replies that
    wake them, and the rules an "always" adds.

    Source: src/src/infrastructure/agent/permission/manager.py.  A waiting
    [ask] and the pending table share an event and a result dictionary: the
    [cell]s, a store of the model.  [ask] and [reply] are coroutines, cut at
    their awaits: [ask_begin] runs to the wait, [ask_resume] goes on when the
    event is set, [reply] runs to its first await and [continue_reply] from
    one await to the next, so that other operations can come in between. *)

From S2P Require Import Prelude Glob PermissionRules.
From stdpp Require Import pretty.

Open Scope string_scope.
Open Scope list_scope.
Open Scope nat_scope.

(** * The approval store *)

(** [PermissionStore]: [None] of [store_save] is an exception. *)
Class PermissionStore (St : Type) : Type := {
  store_is_approved : string → string → option (list (string * pyval)) → St → bool;
  store_save : string → string → option string → St → option St;
  store_remove : string → string → St → St;
  store_list_approvals : St → list (list (string * pyval));
}.

Module InMemory.
Section store.
Context (py_str : pyval → string).

Definition is_approved (p t : string) (args : option (list (string * pyval)))
    (approvals : list PermissionRule) : bool :=
  existsb (matches py_str p t args) (reverse approvals).
Definition save (p pat : string) (ap : option string) (approvals : list PermissionRule)
    : list PermissionRule :=
  approvals ++ [mkRule p pat ALLOW SCOPE_USER ap].
Definition remove (p pat : string) (approvals : list PermissionRule) : list PermissionRule :=
  filter (λ r, ¬ (permission r = p ∧ pattern r = pat)) approvals.
Definition list_approvals (approvals : list PermissionRule) : list (list (string * pyval)) :=
  to_dict <$> approvals.
End store.

(** [InMemoryPermissionStore] *)
Definition instance (py_str : pyval → string) : PermissionStore (list PermissionRule) := {|
  store_is_approved := is_approved py_str;
  store_save := λ p pat ap st, Some (save p pat ap st);
  store_remove := remove;
  store_list_approvals := list_approvals;
|}.
End InMemory.

(** * State *)

Inductive AgentPermissionMode : Set := BUILD | PLAN | EXPLORE.
Inductive ApprovalScope : Set := ONCE | SESSION | ALWAYS.
#[export] Instance AgentPermissionMode_eq_dec : EqDecision AgentPermissionMode.
Proof. solve_decision. Defined.

Record PermissionRequest : Type := mkRequest {
  rq_id : string;
  rq_permission : string;
  rq_patterns : list string;
  rq_session : string;
  rq_always : list string;
}.
(** The event and the result dictionary of a request: its cell. *)
Record pending_request : Type := mkPending { request : PermissionRequest; p_cell : nat }.
#[export] Instance PermissionRequest_eq_dec : EqDecision PermissionRequest.
Proof. solve_decision. Defined.
#[export] Instance pending_request_eq_dec : EqDecision pending_request.
Proof. solve_decision. Defined.
Record cell : Type := mkCell { c_set : bool; c_result : option string }.
Definition unset_cell : cell := mkCell false None.
Definition answered (r : string) : cell := mkCell true (Some r).

Inductive perm_event : Type :=
  | PermissionAsked (rid permission : string) (patterns : list string)
  | PermissionReplied (rid reply session : string) (auto_approved : bool).

Record manager (St : Type) : Type := mkManager {
  ruleset : list PermissionRule;
  approved : list PermissionRule;
  mode_rules : list PermissionRule;
  pending : list (string * pending_request);
  request_counter : nat;
  current_mode : AgentPermissionMode;
  store : option St;
  has_publisher : bool;
  published : list perm_event;
  cells : list cell;
}.
Arguments mkManager {St}.
Arguments ruleset {St}.
Arguments approved {St}.
Arguments mode_rules {St}.
Arguments pending {St}.
Arguments request_counter {St}.
Arguments current_mode {St}.
Arguments store {St}.
Arguments has_publisher {St}.
Arguments published {St}.
Arguments cells {St}.

Inductive ask_outcome : Type :=
  | Granted (res : string)                            (** the coroutine returns *)
  | PermissionDenied (permission pattern : string)    (** PermissionDeniedError *)
  | PermissionRejected (permission : string)          (** PermissionRejectedError *)
  | AskKeyError (rid : string)                        (** the KeyError of [del] *)
  | Waiting (rid : string) (c : nat).                 (** suspended on the event of the cell *)

(** Where a [reply] is suspended: the peers or the patterns still to do. *)
Inductive reply_k : Type :=
  | KReject (session : string) (items : list (string * pending_request))
  | KSave (p : pending_request) (todo : list string)
  | KAlways (session : string) (items : list (string * pending_request)).
Inductive reply_outcome : Type :=
  | ReplyDone
  | ReplySuspended (k : reply_k)
  | ReplyKeyError (rid : string)
  | ReplyStoreError.

(** * Operations *)

Section manager.
Context (py_str : pyval → string) {St : Type} `{PermissionStore St}.
Implicit Types (m : manager St) (p : pending_request).

Definition new_manager (rs : option (list PermissionRule)) (st : option St) : manager St :=
  mkManager (match rs with None | Some [] => default_ruleset | Some l => l end)
    [] [] [] 0 BUILD st false [] [].

Definition set_rules (rs ap mr : list PermissionRule) m : manager St :=
  mkManager rs ap mr (pending m) (request_counter m) (current_mode m) (store m) (has_publisher m)
    (published m) (cells m).
Definition set_pending (pd : list (string * pending_request)) (cs : list cell) m : manager St :=
  mkManager (ruleset m) (approved m) (mode_rules m) pd (request_counter m) (current_mode m) (store m)
    (has_publisher m) (published m) cs.
Definition set_store (st : option St) m : manager St :=
  mkManager (ruleset m) (approved m) (mode_rules m) (pending m) (request_counter m) (current_mode m) st
    (has_publisher m) (published m) (cells m).
Definition publish (e : perm_event) m : manager St :=
  mkManager (ruleset m) (approved m) (mode_rules m) (pending m) (request_counter m) (current_mode m)
    (store m) (has_publisher m) (published m ++ [e]) (cells m).

Definition set_event_publisher m : manager St :=
  mkManager (ruleset m) (approved m) (mode_rules m) (pending m) (request_counter m) (current_mode m)
    (store m) true (published m) (cells m).

Definition set_mode (md : AgentPermissionMode) m : manager St :=
  mkManager (ruleset m) (approved m) (match md with BUILD => [] | _ => explore_mode_ruleset end)
    (pending m) (request_counter m) md (store m) (has_publisher m) (published m) (cells m).
Definition get_mode m : AgentPermissionMode := current_mode m.
Definition is_plan_mode m : bool := bool_decide (current_mode m = PLAN).
Definition is_explore_mode m : bool := bool_decide (current_mode m = EXPLORE).
Definition is_build_mode m : bool := bool_decide (current_mode m = BUILD).

Definition evaluate (perm pat : string) (args : option (list (string * pyval))) m : PermissionRule :=
  evaluate_rules py_str perm pat [ruleset m; mode_rules m; approved m] args.

Definition request_id (n : nat) : string := "perm_" +:+ pretty n.

(** The ASK branch of [ask] up to its first await. *)
Definition register_request (perm : string) (pats : list string) (session : string)
    (always : list string) m : manager St * ask_outcome :=
  let n := S (request_counter m) in
  let rid := request_id n in
  let req := mkRequest rid perm pats session (match always with [] => pats | _ => always end) in
  let c := length (cells m) in
  let m' := mkManager (ruleset m) (approved m) (mode_rules m)
              (dset rid (mkPending req c) (pending m)) n (current_mode m) (store m) (has_publisher m)
              (published m ++ if has_publisher m then [PermissionAsked rid perm pats] else [])
              (cells m ++ [unset_cell]) in
  (m', Waiting rid c).
Fixpoint ask_loop (perm : string) (pats : list string) (session : string) (always todo : list string)
    m : manager St * ask_outcome :=
  match todo with
  | [] => (m, Granted "allow")
  | pat :: todo' =>
      match action (evaluate perm pat None m) with
      | DENY => (m, PermissionDenied perm pat)
      | ASK => register_request perm pats session always m
      | ALLOW => ask_loop perm pats session always todo' m
      end
  end.
Definition ask_begin (perm : string) (pats : list string) (session : string) (always : list string)
    m : manager St * ask_outcome :=
  ask_loop perm pats session always pats m.
(** The publisher of the "permission_asked" event raised. *)
Definition ask_publish_failed (rid perm : string) m : manager St * ask_outcome :=
  if dmem rid (pending m) then (set_pending (ddel rid (pending m)) (cells m) m, PermissionRejected perm)
  else (m, AskKeyError rid).
(** [event.wait()] was cancelled, as [asyncio.wait_for] does on a timeout. *)
Definition ask_cancelled (rid : string) m : manager St :=
  if dmem rid (pending m) then set_pending (ddel rid (pending m)) (cells m) m else m.
(** The wait is over when the event is set; [None]: still waiting. *)
Definition ask_resume (c : nat) (perm : string) m : option ask_outcome :=
  match cells m !! c with
  | Some (mkCell true (Some r)) =>
      Some (if bool_decide (r = "reject") then PermissionRejected perm else Granted r)
  | _ => None
  end.

(** Set the result and the event of a request. *)
Definition answer (r : string) p m : manager St :=
  set_pending (pending m) (<[p_cell p := answered r]> (cells m)) m.
Definition drop_pending (rid : string) m : manager St :=
  set_pending (ddel rid (pending m)) (cells m) m.

(** The rest of the loop of [_handle_reject_reply]. *)
Fixpoint reject_loop (session : string) (items : list (string * pending_request)) m
    : manager St * reply_outcome :=
  match items with
  | [] => (m, ReplyDone)
  | (pid, p) :: rest =>
      if decide (rq_session (request p) = session) then
        if dmem pid (pending m) then
          let m1 := answer "reject" p (drop_pending pid m) in
          if has_publisher m then
            (publish (PermissionReplied pid "reject" session false) m1,
             ReplySuspended (KReject session rest))
          else reject_loop session rest m1
        else (m, ReplyKeyError pid)
      else reject_loop session rest m
  end.
Definition handle_reject_reply p m : manager St * reply_outcome :=
  let m1 := answer "reject" p m in
  reject_loop (rq_session (request p)) (pending m1) m1.

Definition all_allowed p m : bool :=
  forallb (λ pat, bool_decide (action (evaluate (rq_permission (request p)) pat None m) = ALLOW))
    (rq_patterns (request p)).
(** The rest of the loop of [_handle_always_reply]. *)
Fixpoint always_loop (session : string) (items : list (string * pending_request)) m
    : manager St * reply_outcome :=
  match items with
  | [] => (m, ReplyDone)
  | (pid, p) :: rest =>
      if decide (rq_session (request p) = session) then
        if all_allowed p m then
          if dmem pid (pending m) then
            let m1 := answer "allow" p (drop_pending pid m) in
            if has_publisher m then
              (publish (PermissionReplied pid "always" session true) m1,
               ReplySuspended (KAlways session rest))
            else always_loop session rest m1
          else (m, ReplyKeyError pid)
        else always_loop session rest m
      else always_loop session rest m
  end.
(** The patterns still to persist, then the request and its peers. *)
Definition save_loop p (todo : list string) m : manager St * reply_outcome :=
  match store m, todo with
  | Some st, pat :: todo' =>
      match store_save (rq_permission (request p)) pat None st with
      | Some st' => (set_store (Some st') m, ReplySuspended (KSave p todo'))
      | None => (m, ReplyStoreError)
      end
  | _, _ =>
      let m1 := answer "allow" p m in
      always_loop (rq_session (request p)) (pending m1) m1
  end.
Definition handle_always_reply p m : manager St * reply_outcome :=
  let rules := (λ pat, rule (rq_permission (request p)) pat ALLOW) <$> rq_always (request p) in
  save_loop p (rq_always (request p)) (set_rules (ruleset m) (approved m ++ rules) (mode_rules m) m).

Definition reply (rid verb : string) m : manager St * reply_outcome :=
  match dget rid (pending m) with
  | None => (m, ReplyDone)
  | Some p =>
      let m := drop_pending rid m in
      if bool_decide (verb = "reject") then handle_reject_reply p m
      else if bool_decide (verb = "once") then (answer "allow" p m, ReplyDone)
      else if bool_decide (verb = "always") then handle_always_reply p m
      else (m, ReplyDone)
  end.
Definition continue_reply (k : reply_k) m : manager St * reply_outcome :=
  match k with
  | KReject s items => reject_loop s items m
  | KSave p todo => save_loop p todo m
  | KAlways s items => always_loop s items m
  end.
(** A reply that nothing interrupts: [n] bounds its awaits. *)
Fixpoint finish_reply (n : nat) (r : manager St * reply_outcome) : manager St * reply_outcome :=
  match n, r with
  | S n, (m, ReplySuspended k) => finish_reply n (continue_reply k m)
  | _, _ => r
  end.

Definition get_pending_requests (session : option string) m : list PermissionRequest :=
  let requests := request <$> dvals (pending m) in
  match session with
  | Some s => if truthy s then filter (λ r, rq_session r = s) requests else requests
  | None => requests
  end.

(** [cancel_all]: the loop over the snapshot never awaits. *)
Definition cancel_step (session : string) m (it : string * pending_request) : manager St :=
  if decide (rq_session (request it.2) = session) then answer "reject" it.2 (drop_pending it.1 m) else m.
Definition cancel_all (session : string) m : manager St * nat :=
  (foldl (cancel_step session) m (pending m),
   length (filter (λ it, rq_session (request it.2) = session) (pending m))).

Definition add_rule (r : PermissionRule) m : manager St :=
  set_rules (ruleset m ++ [r]) (approved m) (mode_rules m) m.
Definition clear_approved m : manager St := set_rules (ruleset m) [] (mode_rules m) m.
Definition reset m : manager St :=
  mkManager (ruleset m) [] [] [] 0 BUILD (store m) (has_publisher m) (published m) (cells m).

Definition get_disabled_tools (tools : list string) m : list string :=
  PermissionRules.get_disabled_tools tools (ruleset m ++ mode_rules m ++ approved m).
Definition get_allowed_tools (tools : list string) m : list string :=
  filter (λ t, t ∉ get_disabled_tools tools m) tools.

(** [None]: the store raised. *)
Definition approve (perm pat : string) (sc : ApprovalScope) (ap : option string) m : option (manager St) :=
  match sc with
  | ALWAYS =>
      let r := mkRule perm pat ALLOW SCOPE_USER ap in
      match store m with
      | Some st =>
          match store_save perm pat ap st with
          | Some st' => Some (set_store (Some st')
                                (set_rules (ruleset m) (approved m ++ [r]) (mode_rules m) m))
          | None => None
          end
      | None => Some (set_rules (ruleset m) (approved m ++ [r]) (mode_rules m) m)
      end
  | SESSION =>
      Some (set_rules (ruleset m) (approved m ++ [mkRule perm pat ALLOW SCOPE_SESSION ap]) (mode_rules m) m)
  | ONCE => Some m
  end.
End manager.

(** * Answering many requests at once *)

Section sweep.
Context (py_str : pyval → string) {St : Type} `{PermissionStore St}.
Implicit Types (m : manager St) (p : pending_request) (its : list (string * pending_request)).

(** The state without the record of published events. *)
Definition unpublished m : manager St :=
  mkManager (ruleset m) (approved m) (mode_rules m) (pending m) (request_counter m) (current_mode m)
    (store m) (has_publisher m) [] (cells m).

Definition answer_all (r : string) (its : list (string * pending_request)) (cs : list cell) : list cell :=
  foldl (λ cs it, <[p_cell it.2 := answered r]> cs) cs its.
(** The requests of [its] leave the table and are answered [r]. *)
Definition sweep (r : string) (its : list (string * pending_request)) m : manager St :=
  set_pending (filter (λ it, it.1 ∉ its.*1) (pending m)) (answer_all r its (cells m)) m.

Lemma answer_all_length r its cs : length (answer_all r its cs) = length cs.
Proof. revert cs. induction its as [|it its IH]; intros cs; [done|]. simpl. by rewrite IH, length_insert. Qed.
Lemma answer_all_lookup r its cs c : c < length cs →
  answer_all r its cs !! c =
  if decide (c ∈ (λ it : string * pending_request, p_cell it.2) <$> its) then Some (answered r) else cs !! c.
Proof.
  revert cs. induction its as [|it its IH]; intros cs Hc; [by rewrite decide_False by set_solver|].
  simpl. rewrite IH by (by rewrite length_insert).
  destruct (decide (c ∈ (λ it : string * pending_request, p_cell it.2) <$> its)) as [Hin|Hin].
  - rewrite decide_True; [done|]. by right.
  - destruct (decide (c = p_cell it.2)) as [->|Hne].
    + rewrite list_lookup_insert_eq, decide_True; [done|left|done].
    + rewrite list_lookup_insert_ne, decide_False; [done| |done].
      rewrite elem_of_cons. naive_solver.
Qed.
(** Answering the same requests in another order. *)
Lemma answer_all_ext r its its' cs :
  (∀ c, c ∈ (λ it : string * pending_request, p_cell it.2) <$> its ↔
        c ∈ (λ it : string * pending_request, p_cell it.2) <$> its') →
  answer_all r its cs = answer_all r its' cs.
Proof.
  intros He. apply list_eq. intros c. destruct (decide (c < length cs)) as [Hc|Hc].
  - rewrite !answer_all_lookup by done. by destruct (decide (_ ∈ _ <$> its)), (decide (_ ∈ _ <$> its'));
      try done; exfalso; naive_solver.
  - rewrite !lookup_ge_None_2; [done|rewrite answer_all_length; lia..].
Qed.

Lemma sweep_nil r m : sweep r [] m = m.
Proof.
  unfold sweep, set_pending. destruct m. simpl. f_equal. apply filter_all. intros ? _. apply not_elem_of_nil.
Qed.
Lemma sweep_cons r it its m : sweep r (it :: its) m = sweep r its (answer r it.2 (drop_pending it.1 m)).
Proof.
  unfold sweep, answer, drop_pending, set_pending, ddel. destruct m. simpl. f_equal.
  rewrite list_filter_filter. apply list_filter_iff. intros x.
  change (it :: its).*1 with (it.1 :: its.*1). rewrite not_elem_of_cons. tauto.
Qed.

(** The loops over the peers, [_handle_reject_reply], [_handle_always_reply]
    and [cancel_all], sweep the requests that pass their test. *)
Fixpoint peer_loop (test : manager St → pending_request → bool) (r : string)
    (ev : string → perm_event) (K : list (string * pending_request) → reply_k)
    (items : list (string * pending_request)) m : manager St * reply_outcome :=
  match items with
  | [] => (m, ReplyDone)
  | (pid, p) :: rest =>
      if test m p then
        if dmem pid (pending m) then
          let m1 := answer r p (drop_pending pid m) in
          if has_publisher m then (publish (ev pid) m1, ReplySuspended (K rest))
          else peer_loop test r ev K rest m1
        else (m, ReplyKeyError pid)
      else peer_loop test r ev K rest m
  end.
Definition same_session (s : string) (_ : manager St) p : bool :=
  bool_decide (rq_session (request p) = s).
Definition approved_peer (s : string) m p : bool := same_session s m p && all_allowed py_str p m.

Lemma reject_loop_peer s items m :
  reject_loop s items m =
  peer_loop (same_session s) "reject" (λ pid, PermissionReplied pid "reject" s false) (KReject s) items m.
Proof.
  revert m. induction items as [|[pid p] items IH]; intros m; [done|]. simpl. unfold same_session at 1.
  destruct (decide (rq_session (request p) = s)); [rewrite bool_decide_true|rewrite bool_decide_false];
    rewrite ?IH; done.
Qed.
Lemma always_loop_peer s items m :
  always_loop py_str s items m =
  peer_loop (approved_peer s) "allow" (λ pid, PermissionReplied pid "always" s true) (KAlways s) items m.
Proof.
  revert m. induction items as [|[pid p] items IH]; intros m; [done|]. simpl.
  unfold approved_peer at 1, same_session.
  destruct (decide (rq_session (request p) = s)); [rewrite bool_decide_true|rewrite bool_decide_false];
    simpl; rewrite ?IH; done.
Qed.

Lemma unpublished_pending m m' : unpublished m = unpublished m' → pending m = pending m'.
Proof. by intros [=]. Qed.

(** Uninterrupted, a peer loop sweeps the requests that pass the test: it
    raises nothing and takes at most one await per request. *)
Lemma peer_loop_sweeps test r ev K :
  (∀ m p q pid, test (answer r q (drop_pending pid m)) p = test m p) →
  (∀ m e p, test (publish e m) p = test m p) →
  (∀ items m, continue_reply py_str (K items) m = peer_loop test r ev K items m) →
  ∀ items m n, NoDup items.*1 → length items ≤ n →
  (∀ pid p, (pid, p) ∈ items → test m p = true → pid ∈ dkeys (pending m)) →
  ∃ m', finish_reply py_str n (peer_loop test r ev K items m) = (m', ReplyDone) ∧
    unpublished m' = unpublished (sweep r (filter (λ it, test m it.2 = true) items) m).
Proof.
  intros Ht Hp HK. induction items as [|[pid p] items IH]; intros m n Hnd Hn Hin.
  { exists m. rewrite filter_nil, sweep_nil. by destruct n. }
  csimpl in *. apply NoDup_cons in Hnd as [Hpid Hnd].
  destruct (test m p) eqn:Htp.
  2:{ rewrite filter_cons_False by (simpl; congruence). apply IH; [done|lia|].
      intros q x Hq. apply Hin. by right. }
  rewrite filter_cons_True by done. rewrite sweep_cons. simpl.
  assert (pid ∈ dkeys (pending m)) as Hk by (apply (Hin pid p); [left|done]).
  rewrite (proj2 (dmem_true pid (pending m)) Hk). destruct n as [|n]; [lia|].
  set (m1 := answer r p (drop_pending pid m)).
  assert (Hin1 : ∀ q x, (q, x) ∈ items → test m1 x = true → q ∈ dkeys (pending m1)).
  { intros q x Hq. unfold m1. rewrite Ht. intros Hx. apply elem_of_dkeys_ddel. split.
    - apply (Hin q x); [by right|done].
    - intros ->. apply Hpid. apply list_elem_of_fmap. by exists (pid, x). }
  assert (Hf : filter (λ it : string * pending_request, test m1 it.2 = true) items =
               filter (λ it, test m it.2 = true) items)
    by (apply list_filter_iff; intros x; unfold m1; by rewrite Ht).
  destruct (has_publisher m).
  - simpl. rewrite HK. edestruct (IH (publish (ev pid) m1) n) as (m' & -> & Hm'); [done|lia| |].
    { intros q x Hq. rewrite Hp. by apply Hin1. }
    exists m'. split; [done|]. rewrite Hm'.
    assert (filter (λ it : string * pending_request, test (publish (ev pid) m1) it.2 = true) items =
            filter (λ it, test m it.2 = true) items) as ->; [|done].
    rewrite <-Hf. apply list_filter_iff. intros x. by rewrite Hp.
  - edestruct (IH m1 (S n)) as (m' & -> & Hm'); [done|lia|done|]. exists m'. split; [done|].
    by rewrite Hm', Hf.
Qed.

(** * The invariant of the manager

    The table has every request under its own id, waiting: its event is not
    set and no other request shares its cell; a set event carries "allow" or
    "reject". *)
Record manager_ok m : Prop := {
  mo_wf : dict_wf (pending m);
  mo_id : ∀ id p, (id, p) ∈ pending m → rq_id (request p) = id;
  mo_cell : ∀ id p, (id, p) ∈ pending m → cells m !! p_cell p = Some unset_cell;
  mo_inj : ∀ id p id' p', (id, p) ∈ pending m → (id', p') ∈ pending m → p_cell p = p_cell p' → id = id';
  mo_answers : ∀ c x, cells m !! c = Some x →
    x = unset_cell ∨ x = answered "allow" ∨ x = answered "reject";
}.

Lemma pending_same m id p p' : manager_ok m → (id, p) ∈ pending m → (id, p') ∈ pending m → p = p'.
Proof.
  intros Hok H1 H2. pose proof (elem_of_dget _ _ _ (mo_wf _ Hok) H1).
  pose proof (elem_of_dget _ _ _ (mo_wf _ Hok) H2). congruence.
Qed.
Lemma pending_cells m id p its : manager_ok m → (∀ it, it ∈ its → it ∈ pending m) →
  (id, p) ∈ pending m →
  p_cell p ∈ ((λ it : string * pending_request, p_cell it.2) <$> its) ↔ (id, p) ∈ its.
Proof.
  intros Hok Hsub Hin. rewrite list_elem_of_fmap. split; [|intros; by exists (id, p)].
  intros ([id' p'] & Hc & Hi). pose proof (Hsub _ Hi) as Hi'. simpl in Hc.
  assert (id = id') as <- by (eapply (mo_inj _ Hok); eauto).
  by rewrite (pending_same _ _ _ _ Hok Hin Hi').
Qed.

(** What the coroutines waiting for the requests see after a sweep. *)
Lemma sweep_resume m r its id p perm : manager_ok m → (∀ it, it ∈ its → it ∈ pending m) →
  (id, p) ∈ pending m →
  ask_resume (p_cell p) perm (sweep r its m) =
  if decide ((id, p) ∈ its)
  then Some (if bool_decide (r = "reject") then PermissionRejected perm else Granted r) else None.
Proof.
  intros Hok Hsub Hin. unfold ask_resume. simpl. pose proof (mo_cell _ Hok _ _ Hin) as Hc.
  rewrite answer_all_lookup by (by eapply lookup_lt_Some).
  pose proof (pending_cells m id p its Hok Hsub Hin) as Hiff.
  destruct (decide (_ ∈ _ <$> its)), (decide ((id, p) ∈ its)); rewrite ?Hc; first [done|tauto].
Qed.
Lemma resume_unpublished c perm m m' :
  unpublished m = unpublished m' → ask_resume c perm m = ask_resume c perm m'.
Proof.
  intros He. pose proof (f_equal cells He) as Hc. simpl in Hc. unfold ask_resume. by rewrite Hc.
Qed.

Lemma sweep_same r its its' m : (∀ it, it ∈ its ↔ it ∈ its') → sweep r its m = sweep r its' m.
Proof.
  intros He. unfold sweep. f_equal.
  - apply list_filter_iff. intros x. by rewrite !list_elem_of_fmap; setoid_rewrite He.
  - apply answer_all_ext. intros c. by rewrite !list_elem_of_fmap; setoid_rewrite He.
Qed.
(** Removing and answering [rid], then the rest, is one sweep. *)
Lemma drop_then_sweep m r rid p its its' : manager_ok m → dget rid (pending m) = Some p →
  (∀ it, it ∈ its' → it ∈ pending m) → (rid, p) ∈ its' →
  (∀ it, it ∈ its ↔ it ∈ its' ∧ it.1 ≠ rid) →
  sweep r its (answer r p (drop_pending rid m)) = sweep r its' m.
Proof.
  intros Hok Hp Hsub Hin He. rewrite <-(sweep_cons r (rid, p)). apply sweep_same. intros [k q].
  rewrite elem_of_cons, He. simpl. split; [by intros [[= -> ->]|[? _]]|]. intros Hq.
  destruct (decide (k = rid)) as [->|]; [left|by right].
  f_equal. exact (pending_same _ _ _ _ Hok (Hsub _ Hq) (Hsub _ Hin)).
Qed.

Lemma cancel_sweeps s items m :
  foldl (cancel_step s) m items =
  sweep "reject" (filter (λ it, rq_session (request it.2) = s) items) m.
Proof.
  revert m. induction items as [|it items IH]; intros m; [by rewrite filter_nil, sweep_nil|].
  simpl. rewrite IH, filter_cons. unfold cancel_step. case_decide; [by rewrite sweep_cons|done].
Qed.
(** What a sweep of the requests of the table with [P] leaves in it. *)
Lemma sweep_pending m r (P : string * pending_request → Prop) `{!∀ it, Decision (P it)} : manager_ok m →
  pending (sweep r (filter P (pending m)) m) = filter (λ it, ¬ P it) (pending m).
Proof.
  intros Hok. unfold sweep. simpl. apply filter_ext_elem. intros [id p] Hin. simpl.
  rewrite list_elem_of_fmap. split.
  - intros Hn HP. apply Hn. exists (id, p). by rewrite list_elem_of_filter.
  - intros HP ([id' p'] & ? & Hi). simpl in *. subst id'. apply list_elem_of_filter in Hi as [HP' Hi].
    by rewrite (pending_same _ _ _ _ Hok Hin Hi) in HP.
Qed.
(** Answering "reject" to a request that nothing interrupts rejects every
    request of its session and no other: it has the effect of
    [cancel_all] on the session, it returns after at most one await per
    request, the coroutines of the session's requests raise
    PermissionRejectedError and those of the others still wait. *)
Theorem reject_reply_spec m rid p : manager_ok m → dget rid (pending m) = Some p →
  let s := rq_session (request p) in
  ∃ m', finish_reply py_str (length (pending m)) (reply py_str rid "reject" m) = (m', ReplyDone) ∧
    unpublished m' = unpublished (cancel_all s m).1 ∧
    pending m' = filter (λ it, rq_session (request it.2) ≠ s) (pending m) ∧
    (∀ id q perm, (id, q) ∈ pending m → ask_resume (p_cell q) perm m' =
       if decide (rq_session (request q) = s) then Some (PermissionRejected perm) else None).
Proof.
  intros Hok Hp s. pose proof (dget_Some_elem _ _ _ Hp) as Hin.
  unfold reply. rewrite Hp. simpl. unfold handle_reject_reply. rewrite reject_loop_peer.
  set (m1 := answer "reject" p (drop_pending rid m)).
  set (its' := filter (λ it : string * pending_request, rq_session (request it.2) = s) (pending m)).
  destruct (peer_loop_sweeps (same_session s) "reject" (λ pid, PermissionReplied pid "reject" s false)
    (KReject s)) with (items := pending m1) (m := m1) (n := length (pending m)) as (m' & Hf & Hm'); try done.
  { intros items m2. apply reject_loop_peer. }
  { apply ddel_wf, mo_wf, Hok. }
  { apply ddel_length. }
  { intros q x Hq _. apply list_elem_of_fmap. by exists (q, x). }
  assert (Hs : unpublished m' = unpublished (sweep "reject" its' m)).
  { rewrite Hm'. f_equal. change (pending m1) with (ddel rid (pending m)). unfold m1. apply drop_then_sweep; try done.
    - intros it. unfold its'. rewrite list_elem_of_filter. tauto.
    - unfold its'. by rewrite list_elem_of_filter.
    - intros it. unfold its', same_session. rewrite !list_elem_of_filter, elem_of_ddel.
      rewrite bool_decide_eq_true. tauto. }
  exists m'. split; [exact Hf|]. split; [|split].
  - simpl. rewrite cancel_sweeps. exact Hs.
  - rewrite (unpublished_pending _ _ Hs). by apply sweep_pending.
  - intros id q perm Hq. rewrite (resume_unpublished _ _ _ _ Hs), (sweep_resume m _ _ id q); try done.
    + apply decide_ext. unfold its'. rewrite list_elem_of_filter. simpl. tauto.
    + intros it. unfold its'. rewrite list_elem_of_filter. tauto.
Qed.

(** A rule decision depends on the rules only. *)
Lemma all_allowed_rules p m m' : ruleset m = ruleset m' → mode_rules m = mode_rules m' →
  approved m = approved m' → all_allowed py_str p m = all_allowed py_str p m'.
Proof. intros H1 H2 H3. unfold all_allowed, evaluate. by rewrite H1, H2, H3. Qed.
Lemma ask_loop_granted perm pats s al todo m :
  (ask_loop py_str perm pats s al todo m).2 = Granted "allow" ↔
  forallb (λ pat, bool_decide (action (evaluate py_str perm pat None m) = ALLOW)) todo = true.
Proof.
  induction todo as [|pat todo IH]; [done|]. simpl.
  destruct (action (evaluate py_str perm pat None m)); simpl; rewrite ?IH; naive_solver.
Qed.

(** Persisting the patterns takes one await each. *)
Lemma save_loop_saves p todo m n : (∀ perm pat ap st, is_Some (store_save perm pat ap st)) →
  length todo ≤ n → ∃ k st, n - length todo ≤ k ∧
  finish_reply py_str n (save_loop py_str p todo m) = finish_reply py_str k (save_loop py_str p [] (set_store st m)).
Proof.
  intros Hs. revert m n. induction todo as [|pat todo IH]; intros m n Hn; simpl in Hn.
  { exists n, (store m). split; [simpl; lia|by destruct m]. }
  destruct (store m) as [st|] eqn:Hst.
  2:{ exists n, None. split; [lia|]. unfold save_loop. rewrite Hst. destruct m. simpl in *. by subst. }
  destruct n as [|n]; [lia|]. unfold save_loop at 1. rewrite Hst.
  destruct (Hs (rq_permission (request p)) pat None st) as [st' Hst']. rewrite Hst'. simpl.
  destruct (IH (set_store (Some st') m) n) as (k & st'' & Hk & He); [lia|].
  exists k, st''. split; [lia|]. by rewrite He.
Qed.

(** The rules an "always" adds. *)
Definition perm_patterns_rules p : list PermissionRule :=
  (λ pat, rule (rq_permission (request p)) pat ALLOW) <$> rq_always (request p).

(** The state with the new rules, the approvals saved as [st]. *)
Definition with_always p (st : option St) m : manager St :=
  set_store st (set_rules (ruleset m) (approved m ++ perm_patterns_rules p) (mode_rules m) m).
(** The requests an "always" to [rid] answers. *)
Definition granted_by (rid : string) p m (it : string * pending_request) : Prop :=
  it.1 = rid ∨ rq_session (request it.2) = rq_session (request p) ∧ all_allowed py_str it.2 m = true.
#[local] Instance granted_by_dec rid p m it : Decision (granted_by rid p m it).
Proof. unfold granted_by. apply _. Defined.

Lemma always_reply_sweeps m rid p : manager_ok m → dget rid (pending m) = Some p →
  (∀ perm pat ap st, is_Some (store_save (St := St) perm pat ap st)) →
  ∃ m' st, finish_reply py_str (length (rq_always (request p)) + length (pending m))
             (reply py_str rid "always" m) = (m', ReplyDone) ∧
    unpublished m' = unpublished
      (sweep "allow" (filter (granted_by rid p (with_always p st m)) (pending m)) (with_always p st m)).
Proof.
  intros Hok Hp Hstore. pose proof (dget_Some_elem _ _ _ Hp) as Hin.
  unfold reply. rewrite Hp. simpl. unfold handle_always_reply.
  set (mr := set_rules _ _ _ (drop_pending rid m)).
  destruct (save_loop_saves p (rq_always (request p)) mr
    (length (rq_always (request p)) + length (pending m)) Hstore) as (k & st & Hk & ->); [lia|].
  set (mm := with_always p st m).
  assert (Hokm : manager_ok mm) by (destruct Hok; by constructor).
  set (m2 := answer "allow" p (drop_pending rid mm)). set (s := rq_session (request p)).
  assert (save_loop py_str p [] (set_store st mr) =
    peer_loop (approved_peer s) "allow" (λ pid, PermissionReplied pid "always" s true)
      (KAlways s) (pending m2) m2) as ->.
  { unfold save_loop. rewrite always_loop_peer. by destruct st. }
  destruct (peer_loop_sweeps (approved_peer s) "allow" (λ pid, PermissionReplied pid "always" s true)
    (KAlways s)) with (items := pending m2) (m := m2) (n := k) as (m' & Hf & Hm'); try done.
  { intros items mx. apply always_loop_peer. }
  { apply ddel_wf, (mo_wf _ Hokm). }
  { pose proof (ddel_length rid (pending m)). simpl. lia. }
  { intros q x Hq _. apply list_elem_of_fmap. by exists (q, x). }
  exists m', st. split; [exact Hf|]. rewrite Hm'. f_equal. apply (drop_then_sweep mm); try done.
  - intros it. rewrite list_elem_of_filter. tauto.
  - rewrite list_elem_of_filter. split; [by left|done].
  - intros it. change (pending m2) with (ddel rid (pending m)).
    rewrite !list_elem_of_filter, elem_of_ddel. unfold granted_by, approved_peer, same_session.
    rewrite andb_true_iff, bool_decide_eq_true.
    change (all_allowed py_str it.2 m2) with (all_allowed py_str it.2 mm). tauto.
Qed.

(** C9. Answering "always", uninterrupted and with a store that does not
    raise: the patterns of the request become allow-rules, the request and
    the requests of its session that the rules now allow are granted, every
    other request keeps waiting; and no request left waiting in the session
    would be granted without a question, were it asked again. *)
Theorem always_reply_spec m rid p : manager_ok m → dget rid (pending m) = Some p →
  (∀ perm pat ap st, is_Some (store_save (St := St) perm pat ap st)) →
  ∃ m', finish_reply py_str (length (rq_always (request p)) + length (pending m))
          (reply py_str rid "always" m) = (m', ReplyDone) ∧
    approved m' = approved m ++ perm_patterns_rules p ∧
    pending m' = filter (λ it, ¬ granted_by rid p m' it) (pending m) ∧
    (∀ id q perm, (id, q) ∈ pending m → ask_resume (p_cell q) perm m' =
       if decide (granted_by rid p m' (id, q)) then Some (Granted "allow") else None) ∧
    (∀ id q s al, (id, q) ∈ pending m' → rq_session (request q) = rq_session (request p) →
       (ask_begin py_str (rq_permission (request q)) (rq_patterns (request q)) s al m').2 ≠ Granted "allow").
Proof.
  intros Hok Hp Hstore. destruct (always_reply_sweeps m rid p Hok Hp Hstore) as (m' & st & Hf & Hs).
  set (mm := with_always p st m) in *.
  assert (Hokm : manager_ok mm) by (destruct Hok; by constructor).
  assert (Hr : ∀ it, granted_by rid p m' it ↔ granted_by rid p mm it).
  { intros it. unfold granted_by. rewrite (all_allowed_rules it.2 m' mm); [done|..];
      [apply (f_equal ruleset Hs)|apply (f_equal mode_rules Hs)|apply (f_equal approved Hs)]. }
  assert (Hpd : pending m' = filter (λ it, ¬ granted_by rid p m' it) (pending m)).
  { rewrite (unpublished_pending _ _ Hs), (sweep_pending mm "allow" _ Hokm).
    apply list_filter_iff. intros it. by rewrite Hr. }
  exists m'. split_and!; [exact Hf|apply (f_equal approved Hs)|exact Hpd| |].
  - intros id q perm Hq. rewrite (resume_unpublished _ _ _ _ Hs), (sweep_resume mm _ _ id q); try done.
    + apply decide_ext. rewrite list_elem_of_filter, Hr. tauto.
    + intros it. rewrite list_elem_of_filter. tauto.
  - intros id q s al Hq Hsame. rewrite Hpd in Hq. apply list_elem_of_filter in Hq as [Hn _].
    unfold ask_begin. rewrite ask_loop_granted. intros Ha. apply Hn. right. by split.
Qed.

(** [ask] decides by the first pattern that is not allowed: without one it
    returns "allow" and changes nothing; a denied one raises
    PermissionDeniedError for it; one to ask about registers a single request
    for all the patterns, and the answer "once" then grants the whole call,
    whatever the rules say of the patterns after it. *)
Theorem ask_begin_spec perm pats session al m :
  let act pat := action (evaluate py_str perm pat None m) in
  ((∀ pat, pat ∈ pats → act pat = ALLOW) ∧
   ask_begin py_str perm pats session al m = (m, Granted "allow")) ∨
  ∃ l1 pat l2, pats = l1 ++ pat :: l2 ∧ (∀ x, x ∈ l1 → act x = ALLOW) ∧
    ((act pat = DENY ∧ ask_begin py_str perm pats session al m = (m, PermissionDenied perm pat)) ∨
     (act pat = ASK ∧ ∃ m' rid p, ask_begin py_str perm pats session al m = (m', Waiting rid (p_cell p)) ∧
        dget rid (pending m') = Some p ∧ rq_patterns (request p) = pats ∧
        ask_resume (p_cell p) perm m' = None ∧
        ask_resume (p_cell p) perm (reply py_str rid "once" m').1 = Some (Granted "allow"))).
Proof.
  intros act.
  assert (∀ l0 todo, (∀ x, x ∈ l0 → act x = ALLOW) → pats = l0 ++ todo →
    ((∀ pat, pat ∈ pats → act pat = ALLOW) ∧
      ask_loop py_str perm pats session al todo m = (m, Granted "allow")) ∨
    ∃ l1 pat l2, pats = l1 ++ pat :: l2 ∧ (∀ x, x ∈ l1 → act x = ALLOW) ∧
      ((act pat = DENY ∧ ask_loop py_str perm pats session al todo m = (m, PermissionDenied perm pat)) ∨
       (act pat = ASK ∧
        ask_loop py_str perm pats session al todo m = register_request perm pats session al m)))
    as Hloop.
  { intros l0 todo. revert l0. induction todo as [|pat todo IH]; intros l0 Hl0 He; simpl.
    - left. rewrite app_nil_r in He. subst. done.
    - destruct (action (evaluate py_str perm pat None m)) eqn:Ha.
      + apply (IH (l0 ++ [pat])); [|by rewrite <-app_assoc].
        intros x [Hx|Hx]%elem_of_app; [auto|]. apply list_elem_of_singleton in Hx. by subst.
      + right. exists l0, pat, todo. auto.
      + right. exists l0, pat, todo. auto. }
  destruct (Hloop [] pats) as [?|(l1 & pat & l2 & He & Hl1 & [?|[Ha Hr]])]; [set_solver|done|by left| |].
  { right. exists l1, pat, l2. split_and!; [done|done|by left]. }
  right. exists l1, pat, l2. split_and!; [done|done|]. right. split; [done|].
  unfold ask_begin. rewrite Hr. unfold register_request.
  set (rid := request_id _). set (p := mkPending _ (length (cells m))).
  eexists _, rid, p. split_and!; [done|simpl; by rewrite dget_dset_eq|done| |].
  - unfold ask_resume. simpl. by rewrite lookup_app_r, Nat.sub_diag by done.
  - unfold reply. simpl. rewrite dget_dset_eq. simpl. unfold ask_resume. simpl.
    rewrite list_lookup_insert_eq; [done|]. rewrite length_app. simpl. lia.
Qed.

(** An approval for the session or for good is stronger than any mode and
    wider than its argument pattern: until it is cleared, whatever its
    two patterns match is granted by [ask] in every mode, since [ask] does
    not pass the arguments on; [evaluate] with arguments the pattern
    excludes decides as if there were no approval. *)
Theorem approval_grants perm pat sc ap m m' md (q : string) t s al :
  approve perm pat sc ap m = Some m' → sc ≠ ONCE →
  fnmatch q perm = true → fnmatch t pat = true →
  ask_begin py_str q [t] s al (set_mode md m') = (set_mode md m', Granted "allow") ∧
  (∀ a args, ap = Some a → match_arg_pattern py_str a args = false →
     evaluate py_str q t (Some args) (set_mode md m') = evaluate py_str q t (Some args) (set_mode md m)).
Proof.
  intros Ha Hsc Hp Ht.
  assert (∃ r, approved m' = approved m ++ [r] ∧ ruleset m' = ruleset m ∧ permission r = perm ∧
     pattern r = pat ∧ action r = ALLOW ∧ arg_pattern r = ap) as (r & Hap & Hrs & H1 & H2 & H3 & H4).
  { unfold approve in Ha. case_all Ha; eauto 10. }
  assert (Hsnoc : ∀ args, evaluate py_str q t args (set_mode md m') =
    if matches py_str q t args r then r else evaluate py_str q t args (set_mode md m)).
  { intros args. unfold evaluate. simpl. rewrite Hap, Hrs.
    set (mr := match md with BUILD => _ | _ => _ end).
    change [ruleset m; mr; approved m ++ [r]] with ([ruleset m; mr] ++ [approved m ++ [r]]).
    change [ruleset m; mr; approved m] with ([ruleset m; mr] ++ [approved m]).
    rewrite !evaluate_snoc, reverse_snoc. simpl. by destruct (matches py_str q t args r). }
  split.
  - unfold ask_begin. simpl. rewrite Hsnoc. unfold matches. rewrite H1, H2, H4, Hp, Ht. simpl.
    destruct ap; by rewrite H3.
  - intros a args -> Hm. rewrite Hsnoc. unfold matches. by rewrite H1, H2, H4, Hp, Ht, Hm.
Qed.
End sweep.
