(* ===== verification/PermissionSafety.v ===== *)
(** Interleavings of the permission manager: replies that are suspended at an
    await while other operations run.

    Source: src/src/infrastructure/agent/permission/manager.py, the model of
    PermissionManager.v.  A system is the manager and the replies in flight;
    an operation is a call, an [ask] coming back from its await, or the next
    segment of a reply in flight. *)

From S2P Require Import Prelude Glob PermissionRules PermissionManager.
From stdpp Require Import pretty.

Open Scope string_scope.
Open Scope list_scope.
Open Scope nat_scope.

(** * The system *)

Record sys (St : Type) : Type := mkSys { mgr : manager St; replies : list reply_k }.
Arguments mkSys {St}.
Arguments mgr {St}.
Arguments replies {St}.

Inductive op : Type :=
  | OAsk (perm : string) (pats : list string) (session : string) (always : list string)
  | OPublishFailed (rid perm : string)
  | OCancelled (rid : string)
  | OReply (rid verb : string)
  | OContinue (i : nat)
  | OCancelAll (session : string)
  | OAddRule (r : PermissionRule)
  | OClearApproved
  | OSetMode (md : AgentPermissionMode)
  | OSetPublisher
  | OApprove (perm pat : string) (sc : ApprovalScope) (ap : option string)
  | OReset.

Section system.
Context (py_str : pyval → string) {St : Type} `{PermissionStore St}.
Implicit Types (m : manager St) (p : pending_request) (s : sys St) (it : string * pending_request).
Implicit Types (its : list (string * pending_request)).

Definition settle (r : manager St * reply_outcome) (ks : list reply_k) : sys St :=
  mkSys r.1 (match r.2 with ReplySuspended k => k :: ks | _ => ks end).
Definition step (o : op) s : sys St :=
  let on f := mkSys (f (mgr s)) (replies s) in
  match o with
  | OAsk perm pats ses al => on (λ m, (ask_begin py_str perm pats ses al m).1)
  | OPublishFailed rid perm => on (λ m, (ask_publish_failed rid perm m).1)
  | OCancelled rid => on (ask_cancelled rid)
  | OReply rid verb => settle (reply py_str rid verb (mgr s)) (replies s)
  | OContinue i =>
      match replies s !! i with
      | Some k => settle (continue_reply py_str k (mgr s)) (delete i (replies s))
      | None => s
      end
  | OCancelAll ses => on (λ m, (cancel_all ses m).1)
  | OAddRule r => on (add_rule r)
  | OClearApproved => on clear_approved
  | OSetMode md => on (set_mode md)
  | OSetPublisher => on set_event_publisher
  | OApprove perm pat sc ap => on (λ m, default m (approve perm pat sc ap m))
  | OReset => on reset
  end.
Definition run (ops : list op) s : sys St := foldl (λ s o, step o s) s ops.

(** * The invariant *)

(** The requests a suspended reply still holds. *)
Definition k_items (k : reply_k) : list (string * pending_request) :=
  match k with KReject _ its | KAlways _ its => its | KSave p _ => [(rq_id (request p), p)] end.
(** The request whose answer a reply being saved owes. *)
Definition save_cell (k : reply_k) : option nat :=
  match k with KSave p _ => Some (p_cell p) | _ => None end.

(** A request under the id of its cell, the cell allocated. *)
Definition it_ok m it : Prop :=
  it.1 = request_id (S (p_cell it.2)) ∧ rq_id (request it.2) = it.1 ∧ p_cell it.2 < length (cells m).
Definition free_cell m (c : nat) : Prop :=
  cells m !! c = Some unset_cell ∧ ∀ it, it ∈ pending m → p_cell it.2 ≠ c.

Record mgr_inv m : Prop := {
  mi_wf : dict_wf (pending m);
  mi_count : request_counter m = length (cells m);
  mi_items : ∀ it, it ∈ pending m → it_ok m it ∧ cells m !! p_cell it.2 = Some unset_cell;
  mi_answers : ∀ c x, cells m !! c = Some x →
    x = unset_cell ∨ x = answered "allow" ∨ x = answered "reject";
}.
Record sys_inv s : Prop := {
  si_mgr : mgr_inv (mgr s);
  si_items : ∀ k it, k ∈ replies s → it ∈ k_items k → it_ok (mgr s) it;
  si_nodup : NoDup (omap save_cell (replies s));
  si_save : ∀ c, c ∈ omap save_cell (replies s) → free_cell (mgr s) c;
}.

(** What a segment does to the cells: answers are final, new requests take
    fresh cells, and the cells outside the table and [X] are left alone. *)
Record evolves (X : nat → Prop) m m' : Prop := {
  ev_final : ∀ c x, cells m !! c = Some x → c_set x = true → cells m' !! c = Some x;
  ev_grow : length (cells m) ≤ length (cells m');
  ev_pending : ∀ it, it ∈ pending m' → it ∈ pending m ∨ length (cells m) ≤ p_cell it.2;
  ev_free : ∀ c, ¬ X c → free_cell m c → cells m' !! c = Some unset_cell;
}.

Lemma evolves_refl X m : evolves X m m.
Proof. constructor; auto. by intros c _ [? _]. Qed.
Lemma evolves_trans X m1 m2 m3 : evolves X m1 m2 → evolves X m2 m3 → evolves X m1 m3.
Proof.
  intros H1 H2. constructor.
  - intros c x Hc Hx. eapply ev_final; eauto. eapply ev_final; eauto.
  - pose proof (ev_grow _ _ _ H1). pose proof (ev_grow _ _ _ H2). lia.
  - intros it Hi. pose proof (ev_grow _ _ _ H1).
    destruct (ev_pending _ _ _ H2 it Hi) as [Hi'|]; [|right; lia]. by apply (ev_pending _ _ _ H1).
  - intros c HX Hf. eapply ev_free; [eassumption..|]. split; [by eapply ev_free|].
    intros it Hi Hc. destruct Hf as [Hu Hn]. destruct (ev_pending _ _ _ H1 it Hi) as [Hi'|Hl].
    + by apply (Hn it).
    + apply lookup_lt_Some in Hu. lia.
Qed.
Lemma evolves_weaken (X Y : nat → Prop) m m' : (∀ c, X c → Y c) → evolves X m m' → evolves Y m m'.
Proof. intros HXY [? ? ? ?]. constructor; auto. Qed.
Lemma evolves_free X m m' c : evolves X m m' → ¬ X c → free_cell m c → free_cell m' c.
Proof.
  intros He HX Hf. split; [by eapply ev_free|]. intros it Hi Hc. destruct Hf as [Hu Hn].
  destruct (ev_pending _ _ _ He it Hi) as [Hi'|Hl]; [by apply (Hn it)|].
  apply lookup_lt_Some in Hu. lia.
Qed.
Lemma evolves_it_ok X m m' it : evolves X m m' → it_ok m it → it_ok m' it.
Proof. intros He (? & ? & ?). pose proof (ev_grow _ _ _ He). split_and!; [done..|lia]. Qed.

Lemma request_id_inj n n' : request_id n = request_id n' → n = n'.
Proof. unfold request_id. intros Hn. by simplify_eq. Qed.

Lemma mgr_inv_ok m : mgr_inv m → manager_ok m.
Proof.
  intros [Hwf Hc Hi Ha]. constructor; [done|..|done].
  - intros id p Hin. by destruct (Hi _ Hin) as [(_ & ? & _) _].
  - intros id p Hin. by destruct (Hi _ Hin) as [_ ?].
  - intros id p id' p' H1 H2 Hcell. destruct (Hi _ H1) as [(E1 & _) _], (Hi _ H2) as [(E2 & _) _].
    simpl in *. congruence.
Qed.

(** * The elementary changes *)

(** States with the same table, counter and cells. *)
Definition same_table m m' : Prop :=
  pending m' = pending m ∧ request_counter m' = request_counter m ∧ cells m' = cells m.
Lemma same_table_keeps m m' : same_table m m' → mgr_inv m → mgr_inv m' ∧ evolves (λ _, False) m m'.
Proof.
  intros (Hp & Hc & Hl) [Hwf Hn Hi Ha]. unfold it_ok in *. split.
  - constructor; unfold it_ok; rewrite ?Hp, ?Hc, ?Hl; done.
  - constructor; unfold free_cell; rewrite ?Hp, ?Hl; auto. by intros c _ [? _].
Qed.

Lemma drop_keeps rid m : mgr_inv m → mgr_inv (drop_pending rid m) ∧ evolves (λ _, False) m (drop_pending rid m).
Proof.
  intros [Hwf Hc Hi Ha]. split.
  - constructor; simpl; [by apply ddel_wf|done| |done]. intros it [Hin _]%elem_of_ddel. by apply Hi.
  - constructor; simpl; auto; [|by intros c _ [? _]]. intros it [Hin _]%elem_of_ddel. by left.
Qed.

(** Answering a request that is no longer in the table. *)
Lemma answer_keeps r p m : mgr_inv m → free_cell m (p_cell p) → r = "allow" ∨ r = "reject" →
  mgr_inv (answer r p m) ∧ evolves (λ c, c = p_cell p) m (answer r p m).
Proof.
  intros [Hwf Hc Hi Ha] [Hu Hf] Hr. pose proof (lookup_lt_Some _ _ _ Hu) as Hlt. split.
  - constructor; simpl; [done|by rewrite length_insert| |].
    + intros it Hin. destruct (Hi it Hin) as [(? & ? & ?) Hx]. unfold it_ok. simpl.
      rewrite length_insert, list_lookup_insert_ne by (symmetry; by apply Hf). done.
    + intros c x. destruct (decide (c = p_cell p)) as [->|Hne].
      * rewrite list_lookup_insert_eq by done. intros [= <-]. naive_solver.
      * rewrite list_lookup_insert_ne by done. apply Ha.
  - constructor; simpl; [|by rewrite length_insert|auto|].
    + intros c x Hx Hs. destruct (decide (c = p_cell p)) as [->|Hne]; [|by rewrite list_lookup_insert_ne].
      rewrite Hu in Hx. by injection Hx as <-.
    + intros c Hne [Hx _]. by rewrite list_lookup_insert_ne.
Qed.

(** Taking a request out of the table and answering it. *)
Lemma take_keeps r pid p m : mgr_inv m → it_ok m (pid, p) → pid ∈ dkeys (pending m) →
  r = "allow" ∨ r = "reject" →
  mgr_inv (answer r p (drop_pending pid m)) ∧
  evolves (λ _, False) m (answer r p (drop_pending pid m)) ∧
  cells m !! p_cell p = Some unset_cell ∧ ∃ q, (pid, q) ∈ pending m ∧ p_cell q = p_cell p.
Proof.
  intros Hm (Hid & Hrq & Hlt) Hk Hr. simpl in *.
  apply dget_is_Some_keys in Hk as [q Hq%dget_Some_elem].
  destruct (mi_items _ Hm _ Hq) as [(Hid' & _ & _) Hu]. simpl in Hid', Hu.
  assert (p_cell q = p_cell p) as Hpq by (rewrite Hid in Hid'; apply request_id_inj in Hid'; congruence).
  rewrite Hpq in Hu. destruct (drop_keeps pid m Hm) as [Hm1 He1].
  assert (Hfree : free_cell (drop_pending pid m) (p_cell p)).
  { split; [done|]. intros [id x] [Hx Hne]%elem_of_ddel Hc. simpl in *.
    destruct (mi_items _ Hm _ Hx) as [(Hidx & _) _]. simpl in Hidx. congruence. }
  destruct (answer_keeps r p _ Hm1 Hfree Hr) as [Hm2 He2]. split_and!; [done| |done|by exists q].
  destruct He1, He2. constructor; simpl in *; [eauto|lia|eauto|]. intros c _ [Hc Hn].
  assert (c ≠ p_cell p) by (intros ->; by apply (Hn _ Hq)). by rewrite list_lookup_insert_ne.
Qed.

(** * The segments *)

(** What a segment of a reply leaves: the invariant, and a suspended reply
    that holds known requests and, while saving, a free cell. *)
Definition outcome_ok m (o : reply_outcome) : Prop :=
  match o with
  | ReplySuspended k => (∀ it, it ∈ k_items k → it_ok m it) ∧ ∀ c, save_cell k = Some c → free_cell m c
  | _ => True
  end.

Record segment_ok (X : nat → Prop) m (r : manager St * reply_outcome) : Prop := {
  sg_mgr : mgr_inv r.1;
  sg_evolves : evolves X m r.1;
  sg_outcome : outcome_ok r.1 r.2;
  sg_saving : ∀ k c, r.2 = ReplySuspended k → save_cell k = Some c → X c;
}.
Lemma segment_done X m m' : mgr_inv m' → evolves X m m' → ∀ o,
  (∀ k, o ≠ ReplySuspended k) → segment_ok X m (m', o).
Proof. intros Hm He o Ho. constructor; simpl; [done..| |naive_solver]. destruct o; naive_solver. Qed.
(** A segment after a change that touches at most [X]. *)
Lemma segment_after (X Y : nat → Prop) m m' r : evolves X m m' → (∀ c, Y c → X c) →
  segment_ok Y m' r → segment_ok X m r.
Proof.
  intros He HYX [H1 H2 H3 H4]. constructor; [done| |done|eauto].
  eapply evolves_trans; [exact He|]. by eapply evolves_weaken.
Qed.

Lemma peer_loop_keeps test r ev K : r = "allow" ∨ r = "reject" →
  (∀ items, k_items (K items) = items ∧ save_cell (K items) = None) →
  ∀ items m, mgr_inv m → (∀ it, it ∈ items → it_ok m it) →
  segment_ok (λ _, False) m (peer_loop test r ev K items m).
Proof.
  intros Hr HK. induction items as [|[pid p] items IH]; intros m Hm Hit; simpl.
  { apply segment_done; [done|apply evolves_refl|done]. }
  assert (Hit' : ∀ it, it ∈ items → it_ok m it) by (intros; apply Hit; by right).
  destruct (test m p); [|by apply IH].
  destruct (dmem pid (pending m)) eqn:Hk; [|apply segment_done; [done|apply evolves_refl|done]].
  apply dmem_true in Hk.
  destruct (take_keeps r pid p m Hm (Hit _ (list_elem_of_here _ _)) Hk Hr) as (Hm1 & He1 & _).
  set (m1 := answer r p (drop_pending pid m)) in *.
  assert (Hit1 : ∀ it, it ∈ items → it_ok m1 it) by (intros; eapply evolves_it_ok; eauto).
  eapply (segment_after _ (λ _, False)); [exact He1|done|]. destruct (has_publisher m); [|by apply IH].
  destruct (same_table_keeps m1 (publish (ev pid) m1)) as [Hm2 He2]; [done|done|].
  destruct (HK items) as [HK1 HK2]. constructor; simpl; [done|done| |intros k c [= <-]; congruence].
  split; [|congruence]. rewrite HK1. intros it Hin. eapply evolves_it_ok; [exact He2|auto].
Qed.

Lemma pending_it_ok m : mgr_inv m → ∀ it, it ∈ pending m → it_ok m it.
Proof. intros Hm it Hin. by apply (mi_items _ Hm). Qed.

Lemma reject_loop_keeps ses its m : mgr_inv m → (∀ it, it ∈ its → it_ok m it) →
  segment_ok (λ _, False) m (reject_loop ses its m).
Proof. rewrite reject_loop_peer. apply peer_loop_keeps; [by right|done]. Qed.
Lemma always_loop_keeps ses its m : mgr_inv m → (∀ it, it ∈ its → it_ok m it) →
  segment_ok (λ _, False) m (always_loop py_str ses its m).
Proof. rewrite always_loop_peer. apply peer_loop_keeps; [by left|done]. Qed.

(** Saving the patterns of [p], whose request left the table unanswered. *)
Lemma save_loop_keeps p todo m : mgr_inv m → free_cell m (p_cell p) → it_ok m (rq_id (request p), p) →
  segment_ok (λ c, c = p_cell p) m (save_loop py_str p todo m).
Proof.
  intros Hm Hf Hit.
  assert (Hdone : segment_ok (λ c, c = p_cell p) m
    (always_loop py_str (rq_session (request p)) (pending (answer "allow" p m)) (answer "allow" p m))).
  { destruct (answer_keeps "allow" p m Hm Hf) as [Hm1 He1]; [by left|].
    eapply (segment_after _ (λ _, False)); [exact He1|done|].
    apply always_loop_keeps; [done|by apply pending_it_ok]. }
  unfold save_loop. destruct (store m) as [st|]; [|exact Hdone].
  destruct todo as [|pat todo]; [exact Hdone|].
  destruct (store_save _ _ _ _) as [st'|]; [|apply segment_done; [done|apply evolves_refl|done]].
  destruct (same_table_keeps m (set_store (Some st') m)) as [Hm1 He1]; [done|done|].
  constructor; simpl; [done|by apply (evolves_weaken (λ _, False))| |by intros k c [= <-] [= <-]].
  split; [intros it Hin; apply list_elem_of_singleton in Hin; by subst|]. intros c [= <-]. exact Hf.
Qed.

(** * One operation *)

(** Replies in flight survive a segment that leaves their cells alone. *)
Lemma replies_survive X m r ks : segment_ok X m r →
  (∀ k it, k ∈ ks → it ∈ k_items k → it_ok m it) → NoDup (omap save_cell ks) →
  (∀ c, c ∈ omap save_cell ks → free_cell m c ∧ ¬ X c) → sys_inv (settle r ks).
Proof.
  destruct r as [m' o]. intros [Hm He Ho Hnew] Hit Hnd Hf. simpl in *.
  assert (Hold : sys_inv (mkSys m' ks)).
  { constructor; simpl; [done| |done|].
    - intros k it Hk Hi. eapply evolves_it_ok; eauto.
    - intros c Hc. destruct (Hf c Hc). by eapply evolves_free. }
  destruct o as [|k| |]; try exact Hold. destruct Ho as [Ho1 Ho2]. unfold settle. simpl.
  destruct Hold as [_ Hi Hn Hs]. simpl in *. constructor; simpl; [done| | |].
  - intros k' it [->|Hk]%elem_of_cons; [apply Ho1|by apply Hi].
  - destruct (save_cell k) as [c|] eqn:Hc; [|done]. apply NoDup_cons. split; [|done].
    intros Hin. destruct (Hf c Hin) as [_ HX]. by apply HX, (Hnew k).
  - destruct (save_cell k) as [c|] eqn:Hc; [|done]. intros c' [->|Hc']%elem_of_cons; auto.
Qed.

Lemma register_keeps perm pats ses al m : mgr_inv m →
  let m' := (register_request perm pats ses al m).1 in mgr_inv m' ∧ evolves (λ _, False) m m'.
Proof.
  intros [Hwf Hc Hi Ha]. cbv zeta. simpl.
  set (rid := request_id _). set (p := mkPending _ _).
  assert (Hlen : length (cells m ++ [unset_cell]) = S (length (cells m))) by (rewrite length_app; simpl; lia).
  split; constructor; simpl.
  - by apply dset_wf.
  - by rewrite Hc, Hlen.
  - intros it [->|Hin]%elem_of_dset; unfold it_ok; simpl; rewrite Hlen.
    + rewrite lookup_app_r, Nat.sub_diag by done. unfold rid. rewrite Hc. split_and!; [done..|lia|done].
    + destruct (Hi it Hin) as [(? & ? & ?) ?]. rewrite lookup_app_l by done. split_and!; [done..|lia|done].
  - intros c x [Hx|[_ Hx]]%lookup_app_Some; [eauto|].
    apply list_lookup_singleton_Some in Hx as [_ <-]. by left.
  - intros c x Hx _. by apply lookup_app_l_Some.
  - lia.
  - intros it [->|Hin]%elem_of_dset; [right; simpl; lia|by left].
  - intros c _ [Hu _]. by apply lookup_app_l_Some.
Qed.
Lemma ask_keeps perm pats ses al m : mgr_inv m →
  let m' := (ask_begin py_str perm pats ses al m).1 in mgr_inv m' ∧ evolves (λ _, False) m m'.
Proof.
  intros Hm. cbv zeta. unfold ask_begin. generalize pats at 2 4 as todo.
  intros todo. induction todo as [|pat todo IH]; simpl; [split; [done|apply evolves_refl]|].
  destruct (action _); [done|split; [done|apply evolves_refl]|by apply register_keeps].
Qed.

Lemma cancel_keeps ses items m : mgr_inv m → NoDup items.*1 → (∀ it, it ∈ items → it ∈ pending m) →
  mgr_inv (foldl (cancel_step ses) m items) ∧ evolves (λ _, False) m (foldl (cancel_step ses) m items).
Proof.
  revert m. induction items as [|[pid p] items IH]; intros m Hm Hnd Hin;
    [split; [done|apply evolves_refl]|].
  csimpl in *. apply NoDup_cons in Hnd as [Hpid Hnd].
  assert (Hhere : (pid, p) ∈ pending m) by (apply Hin; left).
  unfold cancel_step at 2 4. simpl. case_decide.
  2:{ apply IH; [done..|]. intros; apply Hin; by right. }
  destruct (take_keeps "reject" pid p m Hm) as (Hm1 & He1 & _).
  { by apply pending_it_ok. } { apply list_elem_of_fmap. by exists (pid, p). } { by right. }
  destruct (IH (answer "reject" p (drop_pending pid m)) Hm1 Hnd) as [Hm2 He2].
  { intros it Hit. apply elem_of_ddel. split; [apply Hin; by right|].
    intros He. apply Hpid. apply list_elem_of_fmap. by exists it. }
  split; [done|by eapply evolves_trans].
Qed.

(** A request taken out of the table leaves its cell free. *)
Lemma dropped_free rid p m : mgr_inv m → dget rid (pending m) = Some p →
  free_cell (drop_pending rid m) (p_cell p) ∧ it_ok m (rid, p) ∧ rq_id (request p) = rid ∧
  ∀ c, free_cell m c → c ≠ p_cell p.
Proof.
  intros Hm Hp%dget_Some_elem. destruct (mi_items _ Hm _ Hp) as [Hit Hu]. simpl in Hu.
  split; [split; [done|]|split; [done|]].
  - intros [id q] [Hq Hne]%elem_of_ddel Hc. simpl in *. apply Hne.
    exact (mo_inj _ (mgr_inv_ok _ Hm) _ _ _ _ Hq Hp Hc).
  - split; [by destruct Hit as (_ & ? & _)|]. intros c [_ Hn] ->. by apply (Hn _ Hp).
Qed.

(** The call of [reply]: at most the cell of its request is touched. *)
Lemma reply_keeps rid verb m p : mgr_inv m → dget rid (pending m) = Some p →
  segment_ok (λ c, c = p_cell p) m (reply py_str rid verb m).
Proof.
  intros Hm Hp. unfold reply. rewrite Hp.
  destruct (dropped_free rid p m Hm Hp) as (Hf & Hit & Hrid & _).
  destruct (drop_keeps rid m Hm) as [Hm1 He1].
  eapply (segment_after _ (λ c, c = p_cell p)); [eapply evolves_weaken; [|exact He1]; done|done|].
  set (m1 := drop_pending rid m) in *.
  assert (Hans : ∀ r, r = "allow" ∨ r = "reject" →
    mgr_inv (answer r p m1) ∧ evolves (λ c, c = p_cell p) m1 (answer r p m1)) by (intros; by apply answer_keeps).
  repeat case_bool_decide.
  - destruct (Hans "reject") as [Hm2 He2]; [by right|]. unfold handle_reject_reply.
    eapply (segment_after _ (λ _, False)); [exact He2|done|].
    apply reject_loop_keeps; [done|by apply pending_it_ok].
  - destruct (Hans "allow") as [Hm2 He2]; [by left|]. by apply segment_done.
  - unfold handle_always_reply. set (m2 := set_rules _ _ _ m1).
    destruct (same_table_keeps m1 m2) as [Hm2 He2]; [done|done|].
    eapply (segment_after _ (λ c, c = p_cell p)); [eapply evolves_weaken; [|exact He2]; done|done|].
    apply save_loop_keeps; [done|exact Hf|]. by rewrite Hrid.
  - apply segment_done; [done|apply evolves_refl|done].
Qed.

Lemma continue_keeps k m : mgr_inv m → (∀ it, it ∈ k_items k → it_ok m it) →
  (∀ c, save_cell k = Some c → free_cell m c) →
  segment_ok (λ c, save_cell k = Some c) m (continue_reply py_str k m).
Proof.
  intros Hm Hit Hf. destruct k as [ses its|p todo|ses its]; simpl in *.
  - eapply (segment_after _ (λ _, False)); [apply evolves_refl|done|]. by apply reject_loop_keeps.
  - eapply (segment_after _ (λ c, c = p_cell p)); [apply evolves_refl|by intros c ->|].
    apply save_loop_keeps; [done|auto|apply Hit; left].
  - eapply (segment_after _ (λ _, False)); [apply evolves_refl|done|]. by apply always_loop_keeps.
Qed.

Lemma call_keeps (f : manager St → manager St) X s : sys_inv s → mgr_inv (f (mgr s)) →
  evolves X (mgr s) (f (mgr s)) → (∀ c, c ∈ omap save_cell (replies s) → ¬ X c) →
  sys_inv (mkSys (f (mgr s)) (replies s)) ∧ ∃ X, evolves X (mgr s) (f (mgr s)).
Proof.
  intros Hs Hm He HX. split; [|by exists X].
  apply (replies_survive X (mgr s) (f (mgr s), ReplyDone)); [by apply segment_done|..].
  - by apply Hs.
  - by apply Hs.
  - intros c Hc. split; [by apply Hs|by apply HX].
Qed.

Lemma step_keeps o s : o ≠ OReset → sys_inv s →
  sys_inv (step o s) ∧ ∃ X, evolves X (mgr s) (mgr (step o s)).
Proof.
  intros Ho Hs. pose proof (si_mgr _ Hs) as Hm.
  assert (Hcall : ∀ f : manager St → manager St,
    mgr_inv (f (mgr s)) ∧ evolves (λ _, False) (mgr s) (f (mgr s)) →
    sys_inv (mkSys (f (mgr s)) (replies s)) ∧ ∃ X, evolves X (mgr s) (f (mgr s))).
  { intros f [? ?]. apply (call_keeps f (λ _, False)); auto. }
  assert (Hst : ∀ f : manager St → manager St, same_table (mgr s) (f (mgr s)) →
    sys_inv (mkSys (f (mgr s)) (replies s)) ∧ ∃ X, evolves X (mgr s) (f (mgr s))).
  { intros f Hf. apply Hcall. by apply same_table_keeps. }
  destruct o; try done; try (by apply Hst).
  - apply (Hcall (λ m, (ask_begin py_str perm pats session always m).1)). by apply ask_keeps.
  - apply (Hcall (λ m, (ask_publish_failed rid perm m).1)). unfold ask_publish_failed.
    destruct (dmem _ _); [by apply drop_keeps|split; [done|apply evolves_refl]].
  - apply (Hcall (ask_cancelled rid)). unfold ask_cancelled.
    destruct (dmem _ _); [by apply drop_keeps|split; [done|apply evolves_refl]].
  - simpl. destruct (dget rid (pending (mgr s))) as [p|] eqn:Hp.
    2:{ unfold reply. rewrite Hp. split; [by destruct s|]. exists (λ _, False). apply evolves_refl. }
    pose proof (reply_keeps rid verb _ p Hm Hp) as Hsg. split; [|by exists (λ c, c = p_cell p); apply Hsg].
    eapply replies_survive; [exact Hsg|apply Hs|apply Hs|].
    intros c Hc%(si_save _ Hs). split; [done|]. by apply (dropped_free rid p _ Hm Hp).
  - simpl. destruct (replies s !! i) as [k|] eqn:Hk.
    2:{ split; [done|]. exists (λ _, False). apply evolves_refl. }
    pose proof (delete_Permutation (replies s) i k Hk) as Hperm.
    assert (k ∈ replies s) as Hin by (by eapply list_elem_of_lookup_2).
    pose proof (si_nodup _ Hs) as Hnd. rewrite Hperm in Hnd. simpl in Hnd.
    assert (Hsub : ∀ c, c ∈ omap save_cell (delete i (replies s)) → c ∈ omap save_cell (replies s)).
    { intros c Hc. rewrite Hperm. simpl. destruct (save_cell k); [by right|done]. }
    assert (Hsg : segment_ok (λ c, save_cell k = Some c) (mgr s) (continue_reply py_str k (mgr s))).
    { apply continue_keeps; [done|intros; by eapply (si_items _ Hs)|].
      intros c Hc. apply (si_save _ Hs). apply list_elem_of_omap. by exists k. }
    split; [|by eexists; apply Hsg]. eapply replies_survive; [exact Hsg|..].
    + intros k' it Hk'. apply (si_items _ Hs). rewrite Hperm. by right.
    + destruct (save_cell k); [by apply NoDup_cons in Hnd as [_ ?]|done].
    + intros c Hc. split; [by apply (si_save _ Hs), Hsub|]. intros Hsc. rewrite Hsc in Hnd.
      by apply NoDup_cons in Hnd as [? _].
  - apply (Hcall (λ m, (cancel_all session m).1)). apply cancel_keeps; [done|apply Hm|done].
  - apply (Hst (λ m, default m (approve perm pat sc ap m))). unfold approve.
    destruct sc; [done|done|]. destruct (store (mgr s)); [|done]. by destruct (store_save _ _ _ _).
Qed.

Definition init (rs : option (list PermissionRule)) (st : option St) : sys St :=
  mkSys (new_manager rs st) [].
Lemma init_inv rs st : sys_inv (init rs st).
Proof.
  constructor; simpl; [|by intros ? ? ?%elem_of_nil|constructor|by intros ? ?%elem_of_nil].
  constructor; simpl; [constructor|done|by intros ? ?%elem_of_nil|done].
Qed.
Lemma run_keeps ops s : OReset ∉ ops → sys_inv s →
  sys_inv (run ops s) ∧ ∀ c x, cells (mgr s) !! c = Some x → c_set x = true →
    cells (mgr (run ops s)) !! c = Some x.
Proof.
  revert s. induction ops as [|o ops IH]; intros s Hno Hs; [by split|].
  apply not_elem_of_cons in Hno as [Ho Hno].
  destruct (step_keeps o s) as [Hs' [X He]]; [done|done|].
  destruct (IH _ Hno Hs') as [? Hf]. split; [done|]. intros c x Hc Hx. apply Hf; [|done].
  by eapply ev_final.
Qed.

(** * Theorems *)

(** C2. However asks, replies and cancellations interleave with replies that
    are suspended, short of [reset]: the ids in the table are apart, and a
    request that is in the table is one that waits, under the id of its cell
    and with its event unset; and an answer is final: what the coroutine of a
    request was answered never changes.  (The converse fails: a request that
    waits may have left the table, [lost_waiter] below.) *)
Theorem permission_runs_safe rs st ops1 ops2 : OReset ∉ ops1 ++ ops2 →
  let s1 := run ops1 (init rs st) in
  let s2 := run ops2 s1 in
  manager_ok (mgr s2) ∧
  (∀ id p, (id, p) ∈ pending (mgr s2) → id = request_id (S (p_cell p)) ∧
     ask_resume (p_cell p) (rq_permission (request p)) (mgr s2) = None) ∧
  (∀ c perm r, ask_resume c perm (mgr s1) = Some r → ask_resume c perm (mgr s2) = Some r).
Proof.
  intros Hno s1 s2. rewrite not_elem_of_app in Hno. destruct Hno as [H1 H2].
  destruct (run_keeps ops1 _ H1 (init_inv rs st)) as [Hs1 _].
  destruct (run_keeps ops2 _ H2 Hs1) as [Hs2 Hf]. fold s1 s2 in Hs1, Hs2, Hf.
  split; [by apply mgr_inv_ok, Hs2|]. split.
  - intros id p Hin. destruct (mi_items _ (si_mgr _ Hs2) _ Hin) as [(Hid & _) Hu]. split; [done|].
    unfold ask_resume. simpl in Hu. by rewrite Hu.
  - intros c perm r. unfold ask_resume.
    destruct (cells (mgr s1) !! c) as [[[] [x|]]|] eqn:Hc; try done. by rewrite (Hf _ _ Hc).
Qed.

(** ** Waiters nobody can wake *)

Definition untouched (c : nat) m m' : Prop :=
  cells m' !! c = cells m !! c ∧ length (cells m) ≤ length (cells m') ∧
  ∀ it, it ∈ pending m' → it ∈ pending m ∨ length (cells m) ≤ p_cell it.2.
Definition free_of (c : nat) its : Prop := ∀ it, it ∈ its → p_cell it.2 ≠ c.

Lemma untouched_refl c m : untouched c m m.
Proof. split_and!; auto. Qed.
Lemma untouched_trans c m1 m2 m3 : untouched c m1 m2 → untouched c m2 m3 → untouched c m1 m3.
Proof.
  intros (H1 & H2 & H3) (H4 & H5 & H6). split_and!; [congruence|lia|].
  intros it [Hi|?]%H6; [by apply H3|right; lia].
Qed.
Lemma untouched_table c m m' : cells m' = cells m → (∀ it, it ∈ pending m' → it ∈ pending m) →
  untouched c m m'.
Proof. intros Hc Hp. unfold untouched. rewrite Hc. split_and!; auto. Qed.
Lemma untouched_drop c rid m : untouched c m (drop_pending rid m).
Proof. apply untouched_table; [done|]. by intros it [? _]%elem_of_ddel. Qed.
Lemma untouched_answer c r p m : p_cell p ≠ c → untouched c m (answer r p m).
Proof.
  intros Hne. split_and!; simpl; [by apply list_lookup_insert_ne|by rewrite length_insert|auto].
Qed.
(** A cell nothing in flight refers to. *)
Definition unreferenced (c : nat) s : Prop :=
  c < length (cells (mgr s)) ∧ free_of c (pending (mgr s)) ∧
  ∀ k, k ∈ replies s → free_of c (k_items k).

Lemma peer_loop_untouched c test r ev K items m :
  (∀ items, k_items (K items) = items) → free_of c items →
  let res := peer_loop test r ev K items m in
  untouched c m res.1 ∧ ∀ k, res.2 = ReplySuspended k → free_of c (k_items k).
Proof.
  intros HK. revert m. induction items as [|[pid p] items IH]; intros m Hf; cbv zeta; simpl.
  { split; [apply untouched_refl|done]. }
  assert (Hf' : free_of c items) by (intros it Hin; apply Hf; by right).
  destruct (test m p); [|by apply IH].
  destruct (dmem pid (pending m)); [|split; [apply untouched_refl|done]].
  assert (untouched c m (answer r p (drop_pending pid m))) as Hu.
  { eapply untouched_trans; [apply untouched_drop|apply untouched_answer].
    apply (Hf (pid, p)). left. }
  destruct (has_publisher m).
  - split; [eapply untouched_trans; [exact Hu|]; by apply untouched_table|].
    intros k [= <-]. by rewrite HK.
  - destruct (IH (answer r p (drop_pending pid m)) Hf') as [Hu' ?].
    split; [|done]. by eapply untouched_trans.
Qed.

Lemma save_loop_untouched c p todo m : p_cell p ≠ c → free_of c (pending m) →
  let res := save_loop py_str p todo m in
  untouched c m res.1 ∧ ∀ k, res.2 = ReplySuspended k → free_of c (k_items k).
Proof.
  intros Hp Hf. cbv zeta.
  assert (Hdone : let m1 := answer "allow" p m in
    let res := always_loop py_str (rq_session (request p)) (pending m1) m1 in
    untouched c m res.1 ∧ ∀ k, res.2 = ReplySuspended k → free_of c (k_items k)).
  { cbv zeta. rewrite always_loop_peer.
    edestruct (peer_loop_untouched c) as [Hu Hk]; [| |split; [|exact Hk]]; [done|exact Hf|].
    eapply untouched_trans; [by apply untouched_answer|exact Hu]. }
  unfold save_loop. destruct (store m), todo; try exact Hdone.
  destruct (store_save _ _ _ _); simpl; (split; [by apply untouched_table|]); [|done].
  intros k [= <-] it Hit. apply list_elem_of_singleton in Hit. by subst.
Qed.
Lemma continue_untouched c k m : free_of c (k_items k) → free_of c (pending m) →
  let res := continue_reply py_str k m in
  untouched c m res.1 ∧ ∀ k, res.2 = ReplySuspended k → free_of c (k_items k).
Proof.
  intros Hk Hf. destruct k as [ses its|p todo|ses its]; simpl.
  - rewrite reject_loop_peer. by apply peer_loop_untouched.
  - apply save_loop_untouched; [|done]. apply (Hk (rq_id (request p), p)). left.
  - rewrite always_loop_peer. by apply peer_loop_untouched.
Qed.
Lemma reply_untouched c rid verb m : free_of c (pending m) →
  let res := reply py_str rid verb m in
  untouched c m res.1 ∧ ∀ k, res.2 = ReplySuspended k → free_of c (k_items k).
Proof.
  intros Hf. cbv zeta. unfold reply.
  destruct (dget rid (pending m)) as [p|] eqn:Hp; [|split; [apply untouched_refl|done]].
  assert (Hpc : p_cell p ≠ c) by (by apply (Hf (rid, p)), dget_Some_elem).
  assert (Hf1 : free_of c (pending (drop_pending rid m))) by (intros it [? _]%elem_of_ddel; by apply Hf).
  repeat case_bool_decide.
  - unfold handle_reject_reply. rewrite reject_loop_peer.
    edestruct (peer_loop_untouched c) as [Hu Hk]; [| |split; [|exact Hk]]; [done|exact Hf1|].
    eapply untouched_trans; [apply untouched_drop|].
    eapply untouched_trans; [by apply untouched_answer|exact Hu].
  - split; [|done]. eapply untouched_trans; [apply untouched_drop|by apply untouched_answer].
  - unfold handle_always_reply. set (m2 := set_rules _ _ _ _).
    destruct (save_loop_untouched c p (rq_always (request p)) m2 Hpc Hf1) as [Hu Hk].
    split; [|exact Hk]. eapply untouched_trans; [apply (untouched_drop c rid)|].
    eapply untouched_trans; [|exact Hu]. by apply untouched_table.
  - split; [apply untouched_drop|done].
Qed.

Lemma cancel_untouched c ses items m : free_of c items → untouched c m (foldl (cancel_step ses) m items).
Proof.
  revert m. induction items as [|[pid p] items IH]; intros m Hf; [apply untouched_refl|].
  eapply untouched_trans; [|apply IH; intros it Hin; apply Hf; by right].
  unfold cancel_step. simpl. case_decide; [|apply untouched_refl].
  eapply untouched_trans; [apply untouched_drop|apply untouched_answer]. apply (Hf (pid, p)). left.
Qed.

Lemma register_untouched c perm pats ses al m : c < length (cells m) →
  untouched c m (register_request perm pats ses al m).1.
Proof.
  intros Hc. split_and!; simpl; [by apply lookup_app_l|rewrite length_app; lia|].
  intros it [->|Hq]%elem_of_dset; [right; simpl; lia|by left].
Qed.

Lemma step_untouched c o s : unreferenced c s →
  unreferenced c (step o s) ∧ cells (mgr (step o s)) !! c = cells (mgr s) !! c.
Proof.
  intros (Hc & Hf & Hk).
  assert (Hcall : ∀ r ks, untouched c (mgr s) r.1 → (∀ k, r.2 = ReplySuspended k → free_of c (k_items k)) →
    (∀ k, k ∈ ks → k ∈ replies s) →
    unreferenced c (settle r ks) ∧ cells (mgr (settle r ks)) !! c = cells (mgr s) !! c).
  { intros r ks (H1 & H2 & H3) H4 Hks. split; [|done]. split_and!; simpl; [lia| |].
    - intros it Hin Heq. destruct (H3 it Hin) as [Hi|]; [by apply (Hf it)|lia].
    - intros k. destruct (r.2) as [|k'| |] eqn:Hr; try (by intros ?%Hks; apply Hk).
      intros [->|?%Hks]%elem_of_cons; [by apply H4|by apply Hk]. }
  assert (Hon : ∀ m', untouched c (mgr s) m' →
    unreferenced c (mkSys m' (replies s)) ∧ cells (mgr (mkSys m' (replies s))) !! c = cells (mgr s) !! c).
  { intros m' Hm. by apply (Hcall (m', ReplyDone) (replies s)). }
  destruct o; simpl; try (by apply Hon, untouched_table).
  - apply Hon. unfold ask_begin. generalize pats at 2 as todo. intros todo.
    induction todo as [|pat todo IH]; simpl; [apply untouched_refl|].
    destruct (action _); [done|apply untouched_refl|by apply register_untouched].
  - apply Hon. unfold ask_publish_failed. destruct (dmem _ _); [apply untouched_drop|apply untouched_refl].
  - apply Hon. unfold ask_cancelled. destruct (dmem _ _); [apply untouched_drop|apply untouched_refl].
  - apply Hcall; [by apply reply_untouched..|done].
  - destruct (replies s !! i) as [k|] eqn:Hi; [|done].
    assert (free_of c (k_items k)) as Hki by (apply Hk; by eapply list_elem_of_lookup_2).
    apply Hcall; [by apply continue_untouched..|].
    intros k' Hk'. rewrite (delete_Permutation _ _ _ Hi). by right.
  - apply Hon. by apply cancel_untouched.
  - apply Hon. unfold approve. destruct sc; try (by apply untouched_table).
    destruct (store (mgr s)); [|by apply untouched_table].
    destruct (store_save _ _ _ _); [by apply untouched_table|apply untouched_refl].
  - apply Hon. apply untouched_table; [done|]. by intros it ?%elem_of_nil.
Qed.
Lemma run_untouched c ops s : unreferenced c s → cells (mgr (run ops s)) !! c = cells (mgr s) !! c.
Proof.
  revert s. induction ops as [|o ops IH]; intros s Hs; [done|].
  destruct (step_untouched c o s Hs) as [Hs' Hc]. simpl. by rewrite (IH _ Hs').
Qed.

(** The operations that lose the request [rid]: [reset], a reply that is none
    of the three words, an "always" the store fails to persist. *)
Inductive loses s (rid : string) p : op → Prop :=
  | lose_reset : loses s rid p OReset
  | lose_verb verb : verb ∉ ["reject"; "once"; "always"] → loses s rid p (OReply rid verb)
  | lose_store st pat rest : store (mgr s) = Some st → rq_always (request p) = pat :: rest →
      store_save (rq_permission (request p)) pat None st = None → loses s rid p (OReply rid "always").

(** A lost request waits for ever: after [reset], after a reply with an
    unknown word, or after an "always" whose approval the store fails to
    save, the request is gone from the table but its event was not set, and
    no later operation sets it. *)
Theorem lost_waiter rs st ops rid p o : OReset ∉ ops →
  let s := run ops (init rs st) in
  dget rid (pending (mgr s)) = Some p →
  (∀ k, k ∈ replies s → free_of (p_cell p) (k_items k)) → loses s rid p o →
  ∀ ops' perm, ask_resume (p_cell p) perm (mgr (run ops' (step o s))) = None.
Proof.
  intros Hno s Hp Hk Hl ops' perm.
  destruct (run_keeps ops _ Hno (init_inv rs st)) as [Hs _]. fold s in Hs.
  pose proof (si_mgr _ Hs) as Hm. pose proof (dget_Some_elem _ _ _ Hp) as Hin.
  destruct (mi_items _ Hm _ Hin) as [(_ & _ & Hlt) Hu]. simpl in Hlt, Hu.
  destruct (dropped_free rid p _ Hm Hp) as ([_ Hfree] & _ & _ & _).
  assert (Hun : unreferenced (p_cell p) (step o s) ∧ cells (mgr (step o s)) !! p_cell p = Some unset_cell).
  { destruct Hl as [|verb Hv|st' pat rest Hst Hal Hsave]; simpl.
    - split; [|done]. split_and!; [done|by intros ? ?%elem_of_nil|done].
    - rewrite !elem_of_cons in Hv. unfold reply. rewrite Hp, !bool_decide_false by tauto.
      split; [|done]. split_and!; [done|exact Hfree|done].
    - unfold reply. rewrite Hp. simpl. unfold handle_always_reply, save_loop. simpl. rewrite Hst, Hal, Hsave.
      split; [|done]. split_and!; [done|exact Hfree|done]. }
  destruct Hun as [Hun Hc]. unfold ask_resume. by rewrite (run_untouched _ _ _ Hun), Hc.
Qed.

(** With an event publisher a "reject" can be overtaken: when another
    reply removes a request of the session while the rejection of an
    earlier one is being published, the loop raises KeyError at it and the
    requests after it are not rejected. *)
Theorem interrupted_reject_raises st :
  let ask t := OAsk "doom_loop" [t] "s" [] in
  let s := run [OSetPublisher; ask "a"; ask "b"; ask "c"; ask "d"; OReply "perm_1" "reject";
                OReply "perm_3" "once"] (init None st) in
  ∃ k, replies s = [k] ∧ (continue_reply py_str k (mgr s)).2 = ReplyKeyError "perm_3" ∧
       replies (step (OContinue 0) s) = [] ∧
       dkeys (pending (mgr (step (OContinue 0) s))) = ["perm_4"].
Proof. destruct st; (eexists; split; [vm_compute; reflexivity|done]). Qed.
End system.

(** * The theorems at work *)

Section witnesses.
#[local] Instance in_memory : PermissionStore (list PermissionRule) := InMemory.instance (λ _, "").
#[local] Instance broken_store : PermissionStore unit := {|
  store_is_approved := λ _ _ _ _, false; store_save := λ _ _ _ _, None;
  store_remove := λ _ _ st, st; store_list_approvals := λ _, [] |}.

Definition three_asks : list op :=
  [OAsk "doom_loop" ["a"] "s" []; OAsk "doom_loop" ["a"] "s" []; OAsk "external_directory" ["/"] "s" []].
Definition asked_manager : manager (list PermissionRule) :=
  mgr (run (λ _, "") three_asks (init None (Some []))).
Definition first_request : pending_request :=
  mkPending (mkRequest "perm_1" "doom_loop" ["a"] "s" ["a"]) 0.

Lemma three_asks_no_reset : OReset ∉ three_asks.
Proof. unfold three_asks. rewrite !elem_of_cons, elem_of_nil. naive_solver. Qed.
Lemma asked_manager_ok : manager_ok asked_manager.
Proof.
  apply mgr_inv_ok. apply (run_keeps (λ _, "") three_asks); [apply three_asks_no_reset|apply init_inv].
Qed.
Lemma reject_reply_witness : ∃ m' : manager (list PermissionRule), unpublished m' = unpublished (cancel_all "s" asked_manager).1 ∧ pending m' = [].
Proof.
  destruct (reject_reply_spec (λ _, "") asked_manager "perm_1" first_request asked_manager_ok)
    as (m' & _ & H1 & H2 & _); [vm_compute; reflexivity|].
  exists m'. split; [exact H1|]. rewrite H2. vm_compute. reflexivity.
Defined.
Lemma always_reply_witness : ∃ m' : manager (list PermissionRule), approved m' = [rule "doom_loop" "a" ALLOW] ∧
  dkeys (pending m') = ["perm_3"].
Proof.
  destruct (always_reply_spec (λ _, "") asked_manager "perm_1" first_request asked_manager_ok)
    as (m' & Hf & H1 & _); [vm_compute; reflexivity|by eexists|].
  exists m'. split; [exact H1|]. revert Hf. vm_compute. intros [= <-]. reflexivity.
Defined.
Lemma approval_grants_witness :
  (ask_begin (λ _, "") "bash" ["bash"] "s" [] (set_mode EXPLORE
    (default asked_manager (approve "bash" "*" SESSION (Some "command:git *") asked_manager)))).2
  = Granted "allow".
Proof.
  destruct (approval_grants (λ _, "") "bash" "*" SESSION (Some "command:git *") asked_manager
    (default asked_manager (approve "bash" "*" SESSION (Some "command:git *") asked_manager)) EXPLORE
    "bash" "bash" "s" []) as [-> _]; [reflexivity|done|reflexivity|reflexivity|reflexivity].
Defined.
Lemma disabled_tools_witness : "question" ∈ PermissionRules.get_disabled_tools ["read"; "question"] default_ruleset ∧
  action (evaluate_rules (λ _, "") "question" "anything" [default_ruleset] None) = DENY.
Proof.
  split; [by apply (bool_decide_unpack _)|].
  apply (disabled_tools_sound (λ _, "") ["read"; "question"] default_ruleset "question" "anything").
  by apply (bool_decide_unpack _).
Defined.
Lemma permission_runs_witness :
  ask_resume 0 "doom_loop" (mgr (run (λ _, "") [OReply "perm_2" "reject"]
    (run (λ _, "") (three_asks ++ [OReply "perm_1" "once"]) (init None (Some [])))))
  = Some (Granted "allow").
Proof.
  destruct (permission_runs_safe (λ _, "") None (Some []) (three_asks ++ [OReply "perm_1" "once"])
    [OReply "perm_2" "reject"]) as (_ & _ & H).
  - unfold three_asks. rewrite !elem_of_app, !elem_of_cons, !elem_of_nil. naive_solver.
  - apply H. vm_compute. reflexivity.
Defined.
Lemma lost_waiter_witness : ask_resume 0 "doom_loop"
  (mgr (run (λ _, "") [OReply "perm_1" "once"; OReply "perm_2" "always"] (step (λ _, "") (OReply "perm_1" "always")
     (run (λ _, "") three_asks (init None (Some tt)))))) = None.
Proof.
  apply (lost_waiter (λ _, "") None (Some tt) three_asks "perm_1" first_request).
  - apply three_asks_no_reset.
  - vm_compute. reflexivity.
  - by intros k ?%elem_of_nil.
  - eapply lose_store; reflexivity.
Defined.
End witnesses.
