(* ===== verification/ToolPipeline.v ===== *)
(** The tool pipeline: hooks, doom-loop check, permission check, execution and
    the treatment of the result, in this order.

    Source: src/src/infrastructure/agent/tools/pipeline.py.  The permission
    manager is the protocol the file declares, with the value [evaluate]
    answers left open; the detector and the hooks are those of DoomLoop.v and
    ToolHooks.v; the tool and the truncator are callables.  An exception of
    [ask] leaves the pipeline. *)

From S2P Require Import Prelude Glob Json PermissionRules PermissionManager DoomLoop ToolHooks.

Open Scope string_scope.
Open Scope list_scope.
Open Scope nat_scope.

(** * Actions of two classes

    [rules.PermissionAction] is an [Enum]; [executor.PermissionAction], the
    one the pipeline imports, is a [str] and an [Enum] with the same members.
    [==] between them compares identities, and is false. *)
Inductive py_action : Type :=
  | RulesAction (a : PermissionAction)
  | ExecutorAction (a : PermissionAction)
  | StrAction (s : string).
(** [v == executor.PermissionAction.a] *)
Definition action_is (v : py_action) (a : PermissionAction) : bool :=
  match v with
  | RulesAction _ => false
  | ExecutorAction b => bool_decide (b = a)
  | StrAction s => bool_decide (s = action_value a)
  end.

(** * Collaborators *)

Inductive ask_answer : Type :=
  | AskReturns (res : string)
  | AskRaises.              (** PermissionDeniedError, PermissionRejectedError *)
Class PermissionManagerProtocol (P : Type) : Type := {
  pm_evaluate : string → string → P → py_action;
  pm_ask : string → list string → string → P → P * ask_answer;
}.

Inductive raw_value : Type :=
  | RawResult (r : ToolResult)
  | RawValue (v : pyval).
Inductive exec_outcome : Type :=
  | Returned (v : raw_value)
  | ToolAborted
  | ToolRaised (msg : string).

(** What a tool emitted through the context: a [ToolEvent] or a dictionary. *)
Inductive ctx_event : Type :=
  | CtxEvent (e : ToolEvent)
  | CtxLegacy (d : pyval).
Class ToolContext (St : Type) : Type := {
  pending_events : St → list ctx_event;
  clear_pending : St → St;
}.

Record world (P St : Type) : Type := mkWorld { w_perm : P; w_doom : detector; w_env : St }.
Arguments mkWorld {P St}.
Arguments w_perm {P St}.
Arguments w_doom {P St}.
Arguments w_env {P St}.

Record tool_info (St : Type) : Type := mkTool {
  t_name : string;
  t_permission : option string;
  t_execute : tool_args → St → St * exec_outcome;
}.
Arguments mkTool {St}.
Arguments t_name {St}.
Arguments t_permission {St}.
Arguments t_execute {St}.

(** How the generator ends. *)
Inductive finish : Type := Finished | Raised.

Section pipeline.
Context (py_str : pyval → string) {P St : Type} `{PermissionManagerProtocol P, ToolContext St}.
Context (truncate_to_result : string → string → St → St * ToolResult).
Context (hooks : ToolHookRegistry St unit).
Notation W := (world P St).

Definition normalize_result (raw : raw_value) : ToolResult :=
  match raw with
  | RawResult r => r
  | RawValue (PDict d) =>
      match dget "output" d with
      | Some o => mkResult (py_str o) None (filter (λ kv, kv.1 ≠ "output") d) [] false false None None
      | None => plain_result (json_dumps false true (PDict d))
      end
  | RawValue (PStr s) => plain_result s
  | RawValue v => plain_result (json_dumps false true v)
  end.

(** [{**original, **new}] *)
Definition merge_metadata (d1 d2 : list (string * pyval)) : list (string * pyval) :=
  foldl (λ d kv, dset kv.1 kv.2 d) d1 d2.
Definition maybe_truncate (r : ToolResult) (tool : string) (st : St) : St * ToolResult :=
  if is_error r || negb (truthy (output r)) then (st, r)
  else
    let '(st', t) := truncate_to_result (output r) tool st in
    (st', mkResult (output t) (title r) (merge_metadata (metadata r) (metadata t)) (attachments r)
            (is_error t) (was_truncated t) (original_bytes t) (full_output_path t)).

Definition side_event (tool : string) (e : ctx_event) : ToolEvent :=
  match e with
  | CtxEvent e => e
  | CtxLegacy d => EvOther "legacy_event" tool [("event", d)]
  end.

(** [_execute_and_finalize] *)
Definition execute_and_finalize (t : tool_info St) (args : tool_args) (st : St) : St * list ToolEvent :=
  let n := t_name t in
  match t_execute t args st with
  | (st, ToolAborted) => (st, [EvStarted n args; EvAborted n])
  | (st, ToolRaised msg) =>
      let '(st, r) := run_after n (error_result msg) hooks st in
      (st, [EvStarted n args; EvCompleted n r])
  | (st, Returned raw) =>
      let '(st, r) := maybe_truncate (normalize_result raw) n st in
      let '(st, r) := run_after n r hooks st in
      (clear_pending st,
       [EvStarted n args] ++ (side_event n <$> pending_events st) ++ [EvCompleted n r])
  end.

(** [_check_permission]: [Ok None] when the call may go on. *)
Definition check_permission (t : tool_info St) (session : string) (p : P)
    : P * result unit (option ToolEvent) :=
  match t_permission t with
  | Some perm =>
      if truthy perm then
        let a := pm_evaluate perm (t_name t) p in
        if action_is a DENY then (p, Ok (Some (EvDenied (t_name t))))
        else if action_is a ASK then
          match pm_ask perm [t_name t] session p with
          | (p', AskReturns res) =>
              (p', Ok (if bool_decide (res = "reject") then Some (EvDenied (t_name t)) else None))
          | (p', AskRaises) => (p', Err tt)
          end
        else (p, Ok None)
      else (p, Ok None)
  | None => (p, Ok None)
  end.

(** [tool.permission or tool.name] *)
Definition ask_permission_name (t : tool_info St) : string :=
  match t_permission t with Some p => if truthy p then p else t_name t | None => t_name t end.

(** Steps 2 to 9, after the pre-hooks let the call through. *)
Definition checked_call (t : tool_info St) (args : tool_args) (session : string) (w : W)
    : W * list ToolEvent * finish :=
  if should_intervene (t_name t) (PDict args) (w_doom w) then (w, [EvDoomLoop (t_name t)], Finished)
  else
    let d := record (t_name t) (PDict args) (w_doom w) in
    match check_permission t session (w_perm w) with
    | (p, Err _) => (mkWorld p d (w_env w), [], Raised)
    | (p, Ok (Some ev)) => (mkWorld p d (w_env w), [ev], Finished)
    | (p, Ok None) =>
        let '(st, evs) := execute_and_finalize t args (w_env w) in (mkWorld p d st, evs, Finished)
    end.

(** [ToolPipeline.execute] *)
Definition execute (t : tool_info St) (args : tool_args) (session : string) (w : W)
    : W * list ToolEvent * finish :=
  let '(st, hr) := run_before (t_name t) args hooks (w_env w) in
  let w := mkWorld (w_perm w) (w_doom w) st in
  let effective := default args (new_args hr) in
  match decision hr with
  | HOOK_DENY => (w, [EvDenied (t_name t)], Finished)
  | HOOK_ASK =>
      match pm_ask (ask_permission_name t) [t_name t] session (w_perm w) with
      | (p, AskRaises) => (mkWorld p (w_doom w) (w_env w), [EvPermissionAsked (t_name t)], Raised)
      | (p, AskReturns res) =>
          let w := mkWorld p (w_doom w) (w_env w) in
          if bool_decide (res = "reject") then
            (w, [EvPermissionAsked (t_name t); EvDenied (t_name t)], Finished)
          else
            let '(w, evs, f) := checked_call t effective session w in
            (w, EvPermissionAsked (t_name t) :: evs, f)
      end
  | CONTINUE => checked_call t effective session w
  end.
End pipeline.

(** * What the pipeline promises *)

Section promises.
Context (py_str : pyval → string) {P St : Type} `{PermissionManagerProtocol P, ToolContext St}.
Context (truncate_to_result : string → string → St → St * ToolResult).
Context (hooks : ToolHookRegistry St unit).
Implicit Types (t : tool_info St) (w : world P St).
Notation execute := (execute py_str truncate_to_result hooks).
Notation checked_call := (checked_call py_str truncate_to_result hooks).

(** An answer of [ask] the pipeline takes for a yes. *)
Definition accepted (perm : string) t (session : string) (p : P) : Prop :=
  ∃ res, (pm_ask perm [t_name t] session p).2 = AskReturns res ∧ res ≠ "reject".
(** The permission check lets the call through, by the comparisons it makes. *)
Definition passes_permission t (session : string) (p : P) : Prop :=
  ∀ perm, t_permission t = Some perm → perm ≠ "" →
    action_is (pm_evaluate perm (t_name t) p) DENY = false ∧
    (action_is (pm_evaluate perm (t_name t) p) ASK = true → accepted perm t session p).
(** Every gate lets the call through, after the pre-hooks answered [hr]: none
    denied it, and if one asked, the answer was not "reject"; the doom-loop
    detector does not intervene on the effective arguments; the permission
    check lets it through. *)
Definition passes_gates t args session w (hr : HookResult) : Prop :=
  ∃ p, (decision hr = CONTINUE ∧ p = w_perm w ∨
        decision hr = HOOK_ASK ∧ accepted (ask_permission_name t) t session (w_perm w) ∧
        p = (pm_ask (ask_permission_name t) [t_name t] session (w_perm w)).1) ∧
    should_intervene (t_name t) (PDict (default args (new_args hr))) (w_doom w) = false ∧
    passes_permission t session p.
(** The events of a call that was stopped before the tool ran. *)
Definition stopped t (evs : list ToolEvent) : Prop :=
  ∀ e, e ∈ evs → e = EvDenied (t_name t) ∨ e = EvDoomLoop (t_name t) ∨ e = EvPermissionAsked (t_name t).

Lemma check_permission_iff t session p :
  (check_permission t session p).2 = Ok None ↔ passes_permission t session p.
Proof.
  unfold check_permission, passes_permission. destruct (t_permission t) as [perm|]; [|naive_solver].
  destruct (truthy perm) eqn:Hne.
  2:{ assert (¬ perm ≠ "") as Hn by (rewrite <-truthy_true, Hne; done). split; [|done]. by intros _ q [= <-]. }
  apply truthy_true in Hne. unfold accepted.
  destruct (action_is (pm_evaluate perm (t_name t) p) DENY) eqn:Hd.
  { split; [done|]. intros Hall. destruct (Hall perm eq_refl Hne). congruence. }
  destruct (action_is (pm_evaluate perm (t_name t) p) ASK) eqn:Ha.
  2:{ split; [|done]. intros _ q [= <-] _. by rewrite Ha. }
  destruct (pm_ask perm [t_name t] session p) as [q [res|]] eqn:Hq; cbn [snd].
  - split.
    + intros Hr ? [= <-] _. split; [done|]. intros _. exists res. rewrite Hq. split; [done|]. intros ->. by vm_compute in Hr.
    + intros Hall. destruct (Hall perm eq_refl Hne) as [_ Hacc]. destruct (Hacc Ha) as (res' & Hres & Hnr).
      rewrite Hq in Hres. injection Hres as <-. by rewrite bool_decide_false.
  - split; [done|]. intros Hall. destruct (Hall perm eq_refl Hne) as [_ Hacc].
    destruct (Hacc Ha) as (res' & Hres & _). by rewrite Hq in Hres.
Qed.
Lemma check_permission_event t session p ev :
  (check_permission t session p).2 = Ok (Some ev) → ev = EvDenied (t_name t).
Proof. unfold check_permission. repeat case_match; simpl; intros; by simplify_eq. Qed.
Lemma execute_and_finalize_starts t args st :
  ∃ later, (execute_and_finalize py_str truncate_to_result hooks t args st).2 = EvStarted (t_name t) args :: later.
Proof.
  unfold execute_and_finalize. destruct (t_execute t args st) as [st1 [raw| |msg]]; [|by eexists|].
  - destruct (maybe_truncate _ _ _ _) as [st2 r]. destruct (run_after _ _ _ _). by eexists.
  - destruct (run_after _ _ _ _). by eexists.
Qed.
(** After the pre-hooks: the tool runs, or the call is stopped. *)
Lemma checked_call_cases t args session w :
  let '(w', evs, f) := checked_call t args session w in
  let finalized := execute_and_finalize py_str truncate_to_result hooks t args (w_env w) in
  let ok := should_intervene (t_name t) (PDict args) (w_doom w) = false ∧ passes_permission t session (w_perm w) in
  (ok ∧ evs = finalized.2 ∧ w_env w' = finalized.1 ∧ f = Finished) ∨ (¬ ok ∧ stopped t evs ∧ w_env w' = w_env w).
Proof.
  unfold ToolPipeline.checked_call. destruct (should_intervene _ _ _).
  { right. split_and!; [by intros []| |done]. intros e He. apply list_elem_of_singleton in He. auto. }
  pose proof (check_permission_iff t session (w_perm w)) as Hiff.
  pose proof (check_permission_event t session (w_perm w)) as Hev.
  destruct (check_permission t session (w_perm w)) as [p [[ev|]|]]; cbn [snd] in *.
  - right. split_and!; [intros [_ H3]; by apply Hiff in H3| |done].
    rewrite (Hev ev eq_refl). intros e He. apply list_elem_of_singleton in He. auto.
  - destruct (execute_and_finalize _ _ _ _ _ _). left. split_and!; try done. by apply Hiff.
  - right. split_and!; [intros [_ H3]; by apply Hiff in H3| |done]. by intros ev ?%elem_of_nil.
Qed.
Lemma stopped_asked t evs : stopped t evs → stopped t (EvPermissionAsked (t_name t) :: evs).
Proof. intros Hs e [->|He]%elem_of_cons; [auto|by apply Hs]. Qed.
Lemma execute_cases t args session w :
  let '(st, hr) := run_before (t_name t) args hooks (w_env w) in
  let '(w', evs, f) := execute t args session w in
  let effective := default args (new_args hr) in
  (passes_gates t args session w hr ∧ EvStarted (t_name t) effective ∈ evs ∧
   w_env w' = (execute_and_finalize py_str truncate_to_result hooks t effective st).1 ∧ f = Finished) ∨
  (¬ passes_gates t args session w hr ∧ stopped t evs ∧ w_env w' = st).
Proof.
  unfold ToolPipeline.execute, passes_gates.
  destruct (run_before (t_name t) args hooks (w_env w)) as [st hr]. cbv zeta.
  set (eff := default args (new_args hr)).
  destruct (execute_and_finalize_starts t eff st) as [later Hlater].
  destruct (decision hr) eqn:Hd.
  - pose proof (checked_call_cases t eff session (mkWorld (w_perm w) (w_doom w) st)) as Hc.
    destruct (checked_call _ _ _ _) as [[w' evs] f]. cbn [w_perm w_doom w_env] in Hc.
    destruct Hc as [([Hs Hp] & -> & -> & ->)|(Hn & Hst & ->)]; [left|right]; split_and!; try done.
    + exists (w_perm w). split_and!; [by left|done|done].
    + rewrite Hlater. apply list_elem_of_here.
    + intros (p & [[_ ->]|[? _]] & Hs & Hp); [by apply Hn|done].
  - right. split_and!; [by intros (p & [[? _]|[? _]] & _)| |done].
    intros e He. apply list_elem_of_singleton in He. auto.
  - unfold accepted. cbn [w_perm w_doom w_env].
    destruct (pm_ask (ask_permission_name t) [t_name t] session (w_perm w)) as [p [res|]] eqn:Ha.
    2:{ right. split_and!; [intros (q & [[? _]|(_ & (res & Hr & _) & _)] & _); done| |done].
        intros e He. apply list_elem_of_singleton in He. auto. }
    cbn [fst snd]. case_bool_decide as Hres.
    { subst res. right. split_and!; [|intros e He; rewrite !elem_of_cons, elem_of_nil in He; naive_solver|done].
      intros (q & [[? _]|(_ & (res & Hr & Hnr) & _)] & _); [done|]. by injection Hr as <-. }
    pose proof (checked_call_cases t eff session (mkWorld p (w_doom w) st)) as Hc.
    destruct (checked_call _ _ _ _) as [[w' evs] f]. cbn [w_perm w_doom w_env] in Hc.
    destruct Hc as [([Hs Hp] & -> & -> & ->)|(Hn & Hst & ->)]; [left|right]; split_and!; try done.
    + exists p. split_and!; [right; split_and!; [done|by exists res|done]|done|done].
    + rewrite Hlater. apply list_elem_of_further, list_elem_of_here.
    + intros (q & [[? _]|(_ & _ & ->)] & Hs & Hp); [done|by apply Hn].
    + by apply stopped_asked.
Qed.

(** A pre-hook that asks gives the call its original arguments back: what
    the hooks before it made of the arguments is lost when its result
    carries none. *)
Theorem ask_hook_restores_arguments t args session w l1 e l2 cur1 st1 cur2 st2 r p res :
  before_hooks hooks = l1 ++ e :: l2 → passes (t_name t) l1 args (w_env w) cur1 st1 →
  before_step (t_name t) e cur1 st1 = (st2, cur2, Some r) → decision r = HOOK_ASK → new_args r = None →
  pm_ask (ask_permission_name t) [t_name t] session (w_perm w) = (p, AskReturns res) → res ≠ "reject" →
  let '(w', evs, f) := checked_call t args session (mkWorld p (w_doom w) st2) in
  execute t args session w = (w', EvPermissionAsked (t_name t) :: evs, f).
Proof.
  intros Hh Hp Hs Hd Hn Ha Hres.
  assert (run_before (t_name t) args hooks (w_env w) = (st2, r)) as Hrun.
  { unfold run_before. rewrite Hh. clear Hh. induction Hp as [|e' l1 cur st c1 s1 c2 s2 He Hp IH]; simpl.
    - by rewrite Hs.
    - rewrite He. by apply IH. }
  unfold ToolPipeline.execute. rewrite Hrun, Hd, Hn. simpl. rewrite Ha. rewrite bool_decide_false by done.
  by destruct (checked_call _ _ _ _) as [[? ?] ?].
Qed.
End promises.

(** * With the permission manager of permission/manager.py *)

Section real_manager.
Context (py_str : pyval → string) {Store St : Type} `{ToolContext St}.
(** [ask] of the manager and the user's answer, as the pipeline sees them. *)
Context (asker : string → list string → string → manager Store → manager Store * ask_answer).
Context (truncate_to_result : string → string → St → St * ToolResult).
Context (hooks : ToolHookRegistry St unit).

#[local] Instance real_manager : PermissionManagerProtocol (manager Store) := {|
  pm_evaluate := λ perm tool m, RulesAction (action (PermissionManager.evaluate py_str perm tool None m));
  pm_ask := asker;
|}.

(** Over the real permission manager the pipeline's permission check
    never stops anything: the rules' actions equal none of the constants it
    compares them with, so a call no pre-hook stops and that is no doom loop
    runs its tool, without a question, whatever the rules say of it; in
    particular when they deny it. *)
Theorem real_manager_never_consulted (t : tool_info St) args session (w : world (manager Store) St) :
  let '(st, hr) := run_before (t_name t) args hooks (w_env w) in
  let effective := default args (new_args hr) in
  decision hr = CONTINUE → should_intervene (t_name t) (PDict effective) (w_doom w) = false →
  let '(w', evs, f) := execute py_str truncate_to_result hooks t args session w in
  let '(st', evs') := execute_and_finalize py_str truncate_to_result hooks t effective st in
  f = Finished ∧ w_perm w' = w_perm w ∧ w_env w' = st' ∧ evs = evs' ∧
  ∃ later, evs = EvStarted (t_name t) effective :: later.
Proof.
  destruct (run_before (t_name t) args hooks (w_env w)) as [st hr] eqn:Hrun. intros eff Hd Hs.
  unfold execute. rewrite Hrun, Hd. unfold checked_call. simpl. fold eff. rewrite Hs.
  assert (check_permission t session (w_perm w) = (w_perm w, Ok None)) as ->.
  { unfold check_permission. destruct (t_permission t) as [perm|]; [|done]. by destruct (truthy perm). }
  unfold execute_and_finalize. destruct (t_execute t _ st) as [st1 [raw| |msg]].
  - destruct (maybe_truncate _ _ _ _) as [st2 r]. destruct (run_after _ _ _ _) as [st3 r']. simpl. eauto 10.
  - simpl. eauto 10.
  - destruct (run_after _ _ _ _) as [st3 r']. simpl. eauto 10.
Qed.

End real_manager.

(** * Repeated calls *)

Section repeated.
Context (py_str : pyval → string) {P St : Type} `{PermissionManagerProtocol P, ToolContext St}.
Context (truncate_to_result : string → string → St → St * ToolResult).
Context (t : tool_info St) (args : tool_args) (session : string).
Notation execute := (execute py_str truncate_to_result empty_registry t args session).

(** The same call, [n] times over. *)
Definition repeat_call (n : nat) (w : world P St) : world P St := Nat.iter n (λ w, (execute w).1.1) w.

Lemma execute_empty w :
  (should_intervene (t_name t) (PDict args) (w_doom w) = true ∧
   execute w = (w, [EvDoomLoop (t_name t)], Finished)) ∨
  (should_intervene (t_name t) (PDict args) (w_doom w) = false ∧
   w_doom (execute w).1.1 = record (t_name t) (PDict args) (w_doom w)).
Proof.
  unfold ToolPipeline.execute, run_before. simpl. unfold checked_call.
  destruct w as [p d st]. simpl. destruct (should_intervene _ _ _); [by left|right]. split; [done|].
  destruct (check_permission _ _ _) as [p' [[ev|]|]]; try done.
  by destruct (execute_and_finalize _ _ _ _ _ _).
Qed.

Lemma history_replicate n tl v : call_history (replicate n (CRecord tl v)) = replicate n (tl, v).
Proof.
  induction n as [|n IH]; [done|]. rewrite !(replicate_S_end n). unfold call_history in *.
  by rewrite foldl_snoc, IH.
Qed.
Lemma follows_replicate d thr size err n tl v : new_detector thr size err = Some d →
  (0 < thr <= size)%Z → (Z.of_nat n <= thr)%Z →
  let d' := foldl apply_call d (replicate n (CRecord tl v)) in
  threshold d' = thr ∧ window d' = replicate n (call_record tl v).
Proof.
  intros Hd Ht Hn. destruct (new_detector_spec _ _ _ _ Hd) as (H1 & H2 & H3 & H4 & _).
  destruct (detector_follows d (replicate n (CRecord tl v)) H3 H4) as (E1 & _ & _ & _ & E5 & _).
  split; [congruence|]. rewrite E5, history_replicate, fmap_replicate, length_replicate.
  by replace (n - window_size d) with 0 by lia.
Qed.

(** A fresh detector with a threshold between one and its window size
    lets the same call through as many times as the threshold; from then on
    each further one is answered by a doom-loop event and changes nothing,
    for ever. *)
Theorem identical_calls_stop thr size err (w : world P St) n :
  new_detector thr size err = Some (w_doom w) → (0 < thr <= size)%Z →
  ((Z.of_nat n < thr)%Z →
     w_doom (repeat_call (S n) w) = record (t_name t) (PDict args) (w_doom (repeat_call n w))) ∧
  ((thr <= Z.of_nat n)%Z →
     execute (repeat_call n w) = (repeat_call n w, [EvDoomLoop (t_name t)], Finished)).
Proof.
  intros Hd Ht.
  assert (Hrun : ∀ k, (Z.of_nat k <= thr)%Z →
    w_doom (repeat_call k w) = foldl apply_call (w_doom w) (replicate k (CRecord (t_name t) (PDict args))) ∧
    ((Z.of_nat k < thr)%Z → should_intervene (t_name t) (PDict args) (w_doom (repeat_call k w)) = false)).
  { induction k as [|k IH]; intros Hk.
    - split; [done|]. intros _. destruct (new_detector_spec _ _ _ _ Hd) as (H1 & _ & H3 & _).
      unfold should_intervene. cbn [repeat_call Nat.iter nat_rect]. rewrite H1, H3.
      by rewrite (proj2 (Z.ltb_lt _ thr)) by (simpl; lia).
    - destruct IH as [He Hs]; [lia|].
      destruct (follows_replicate _ _ _ _ (S k) (t_name t) (PDict args) Hd Ht) as [Ew1 Ew2]; [lia|].
      assert (w_doom (repeat_call (S k) w) =
        foldl apply_call (w_doom w) (replicate (S k) (CRecord (t_name t) (PDict args)))) as Hw.
      { rewrite replicate_S_end, foldl_snoc, <-He. simpl.
        destruct (execute_empty (repeat_call k w)) as [[Hc _]|[_ Hc]]; [|exact Hc].
        rewrite Hs in Hc by lia. done. }
      split; [exact Hw|]. intros Hlt. rewrite Hw. unfold should_intervene. rewrite Ew1, Ew2, length_replicate.
      by rewrite (proj2 (Z.ltb_lt _ thr)) by lia. }
  split.
  - intros Hn. destruct (Hrun n) as [_ Hs]; [lia|]. simpl.
    destruct (execute_empty (repeat_call n w)) as [[Hc _]|[_ Hc]]; [|exact Hc]. by rewrite Hs in Hc.
  - intros Hn. assert (∃ k, n = k + Z.to_nat thr) as [k ->] by (exists (n - Z.to_nat thr); lia). clear Hn.
    set (w0 := repeat_call (Z.to_nat thr) w).
    assert (Hfix : execute w0 = (w0, [EvDoomLoop (t_name t)], Finished)).
    { destruct (execute_empty w0) as [[_ Hc]|[Hc _]]; [exact Hc|]. exfalso.
      destruct (Hrun (Z.to_nat thr)) as [He _]; [lia|]. fold w0 in He.
      destruct (follows_replicate _ _ _ _ (Z.to_nat thr) (t_name t) (PDict args) Hd Ht) as [Ew1 Ew2]; [lia|].
      unfold should_intervene in Hc. rewrite He, Ew1, Ew2, length_replicate in Hc.
      rewrite Z2Nat.id, Z.ltb_irrefl in Hc by lia. apply not_true_iff_false in Hc. apply Hc, forallb_elem.
      unfold last_slice. rewrite (proj2 (Z.ltb_lt 0 thr)) by lia.
      rewrite length_replicate, Nat.sub_diag. intros x Hx. apply elem_of_replicate in Hx as [-> _].
      unfold same_call. simpl. by rewrite !bool_decide_true. }
    assert (repeat_call (k + Z.to_nat thr) w = w0) as ->; [|exact Hfix].
    unfold repeat_call. rewrite Nat.iter_add. fold (repeat_call (Z.to_nat thr) w) w0.
    induction k as [|k IH]; [done|]. simpl. by rewrite IH, Hfix.
Qed.
End repeated.

(** * The theorems at work *)

Section witnesses.
(** The environment is the log of the calls that reached the tool. *)
#[local] Instance log_context : ToolContext (list tool_args) := {|
  pending_events := λ _, []; clear_pending := λ st, st |}.
(** A manager that denies [bash] with an action of the class the pipeline knows. *)
#[local] Instance strict_manager : PermissionManagerProtocol unit := {|
  pm_evaluate := λ perm _ _, ExecutorAction (if decide (perm = "bash") then DENY else ALLOW);
  pm_ask := λ _ _ _ p, (p, AskReturns "allow") |}.
Definition logging_tool (name perm : string) : tool_info (list tool_args) :=
  mkTool name (Some perm) (λ args st, (st ++ [args], Returned (RawValue (PStr "done")))).
Definition no_truncation (o _ : string) (st : list tool_args) : list tool_args * ToolResult :=
  (st, plain_result o).
Definition fresh_detector : detector := mkDetector 3 10 [] 6 12 [].
Definition fresh_world : world unit (list tool_args) := mkWorld tt fresh_detector [].

(** The first hook replaces the arguments, the second asks. *)
Definition redact : registered (BeforeHook (St := list tool_args)) :=
  mkRegistered (λ _ _ st, (st, [], Some (mkHookResult CONTINUE (Some [("path", PStr "redacted")]) "")))
    "*" 10 "redact".
Definition asks : registered (BeforeHook (St := list tool_args)) :=
  mkRegistered (λ _ _ st, (st, [], Some (mkHookResult HOOK_ASK None "confirm"))) "*" 50 "asks".
Lemma ask_hook_witness :
  w_env (execute (λ _, "") no_truncation (mkRegistry [redact; asks] [] []) (logging_tool "cat" "read")
           [("path", PStr "secret")] "s" fresh_world).1.1 = [[("path", PStr "secret")]].
Proof.
  pose proof (ask_hook_restores_arguments (λ _, "") no_truncation (mkRegistry [redact; asks] [] [])
    (logging_tool "cat" "read") [("path", PStr "secret")] "s" fresh_world [redact] asks []
    [("path", PStr "redacted")] [] [] [] (mkHookResult HOOK_ASK None "confirm") tt "allow") as Hx.
  destruct (checked_call _ _ _ _ _ _ _) as [[w' evs] f] eqn:Hc. rewrite Hx; try done.
  - simpl. revert Hc. vm_compute. by intros [= <- _ _].
  - eapply passes_cons; [vm_compute; reflexivity|constructor].
Defined.

#[local] Instance no_store : PermissionStore unit := {|
  store_is_approved := λ _ _ _ _, false; store_save := λ _ _ _ st, Some st;
  store_remove := λ _ _ st, st; store_list_approvals := λ _, [] |}.
Definition deny_all : manager unit := new_manager (Some [rule "*" "*" DENY]) None.
Lemma real_manager_witness :
  action (PermissionManager.evaluate (λ _, "") "bash" "sh" None deny_all) = DENY ∧
  (execute (H := real_manager (λ _, "") (λ _ _ _ m, (m, AskRaises))) (λ _, "") no_truncation empty_registry
     (logging_tool "sh" "bash") [] "s" (mkWorld deny_all fresh_detector [])).2 = Finished.
Proof.
  split; [reflexivity|].
  pose proof (real_manager_never_consulted (λ _, "") (λ _ _ _ m, (m, AskRaises)) no_truncation
    empty_registry (logging_tool "sh" "bash") [] "s" (mkWorld deny_all fresh_detector [])) as Hx.
  simpl run_before in Hx. specialize (Hx eq_refl eq_refl).
  destruct (execute _ _ _ _ _ _ _) as [[w' evs] f].
  destruct (execute_and_finalize _ _ _ _ _ _) as [st' evs']. by destruct Hx as [-> _].
Defined.


Lemma identical_calls_witness :
  execute (λ _, "") no_truncation empty_registry (logging_tool "ls" "read") [] "s"
    (repeat_call (λ _, "") no_truncation (logging_tool "ls" "read") [] "s" 3 fresh_world) =
  (repeat_call (λ _, "") no_truncation (logging_tool "ls" "read") [] "s" 3 fresh_world,
   [EvDoomLoop "ls"], Finished).
Proof.
  apply (identical_calls_stop (λ _, "") no_truncation (logging_tool "ls" "read") [] "s" 3 10 None
    fresh_world 3); [reflexivity|lia|lia].
Defined.
End witnesses.
