(* ===== verification/HitlTypes.v ===== *)
(** Questions to the user: their data, how they are built from what a tool
    hands in, and which answers fit them.

    Sources: src/src/domain/model/agent/hitl/hitl_types.py; the strategies in
    src/src/infrastructure/agent/hitl/hitl_strategies.py (all but the creation
    of environment-variable requests, whose filters are patterns of secrets);
    the sanitizing of text in utils.py and the validation of answers in
    ray_hitl_handler.py.  [unescape], the table of HTML entities of the
    standard library, is a parameter.  Timeouts are microseconds. *)

From Stdlib Require Import Ascii.
From S2P Require Import Prelude PyText.

Open Scope string_scope.
Open Scope list_scope.
Open Scope nat_scope.

Notation dict := (list (string * pyval)).

(** * Enumerations *)

Module HITLType.
Inductive t : Set := CLARIFICATION | DECISION | ENV_VAR | PERMISSION | A2UI_ACTION.
#[global] Instance t_eq_dec : EqDecision t.
Proof. solve_decision. Defined.
Definition value (x : t) : string :=
  match x with
  | CLARIFICATION => "clarification" | DECISION => "decision" | ENV_VAR => "env_var"
  | PERMISSION => "permission" | A2UI_ACTION => "a2ui_action"
  end.
End HITLType.
Module HITLStatus.
Inductive t : Set := PENDING | ANSWERED | COMPLETED | TIMEOUT | CANCELLED.
#[global] Instance t_eq_dec : EqDecision t.
Proof. solve_decision. Defined.
Definition value (x : t) : string :=
  match x with
  | PENDING => "pending" | ANSWERED => "answered" | COMPLETED => "completed"
  | TIMEOUT => "timeout" | CANCELLED => "cancelled"
  end.
End HITLStatus.
Module ClarificationType.
Inductive t : Set := SCOPE | APPROACH | PREREQUISITE | PRIORITY | CONFIRMATION | CUSTOM.
#[global] Instance t_eq_dec : EqDecision t.
Proof. solve_decision. Defined.
Definition value (x : t) : string :=
  match x with
  | SCOPE => "scope" | APPROACH => "approach" | PREREQUISITE => "prerequisite"
  | PRIORITY => "priority" | CONFIRMATION => "confirmation" | CUSTOM => "custom"
  end.
Definition all : list t := [SCOPE; APPROACH; PREREQUISITE; PRIORITY; CONFIRMATION; CUSTOM].
End ClarificationType.
Module DecisionType.
Inductive t : Set := BRANCH | METHOD | CONFIRMATION | RISK | SINGLE_CHOICE | MULTI_CHOICE | CUSTOM.
#[global] Instance t_eq_dec : EqDecision t.
Proof. solve_decision. Defined.
Definition value (x : t) : string :=
  match x with
  | BRANCH => "branch" | METHOD => "method" | CONFIRMATION => "confirmation" | RISK => "risk"
  | SINGLE_CHOICE => "single_choice" | MULTI_CHOICE => "multi_choice" | CUSTOM => "custom"
  end.
Definition all : list t := [BRANCH; METHOD; CONFIRMATION; RISK; SINGLE_CHOICE; MULTI_CHOICE; CUSTOM].
End DecisionType.
Module RiskLevel.
Inductive t : Set := LOW | MEDIUM | HIGH | CRITICAL.
#[global] Instance t_eq_dec : EqDecision t.
Proof. solve_decision. Defined.
Definition value (x : t) : string :=
  match x with LOW => "low" | MEDIUM => "medium" | HIGH => "high" | CRITICAL => "critical" end.
Definition all : list t := [LOW; MEDIUM; HIGH; CRITICAL].
End RiskLevel.
Module EnvVarInputType.
Inductive t : Set := TEXT | PASSWORD | URL | API_KEY | FILE_PATH.
#[global] Instance t_eq_dec : EqDecision t.
Proof. solve_decision. Defined.
Definition value (x : t) : string :=
  match x with
  | TEXT => "text" | PASSWORD => "password" | URL => "url" | API_KEY => "api_key"
  | FILE_PATH => "file_path"
  end.
End EnvVarInputType.
Module PermissionAction.
Inductive t : Set := ALLOW | DENY | ALLOW_ALWAYS | DENY_ALWAYS.
#[global] Instance t_eq_dec : EqDecision t.
Proof. solve_decision. Defined.
Definition value (x : t) : string :=
  match x with
  | ALLOW => "allow" | DENY => "deny" | ALLOW_ALWAYS => "allow_always" | DENY_ALWAYS => "deny_always"
  end.
Definition all : list t := [ALLOW; DENY; ALLOW_ALWAYS; DENY_ALWAYS].
End PermissionAction.

(** The call of an enumeration: the member with this value, or [ValueError]. *)
Definition member {A} (value : A → string) (all : list A) (v : pyval) : option A :=
  match v with PStr s => head (filter (λ x, value x = s) all) | _ => None end.

(** * Data *)

(** [opt_str], [opt]: an optional field of a dictionary. *)
Definition opt {A} (f : A → pyval) (o : option A) : pyval := from_option f PNone o.
Definition opt_str : option string → pyval := opt PStr.

Record ClarificationOption : Type := mkClarificationOption {
  co_id : string; co_label : string; co_description : option string; co_recommended : pyval }.
Definition clarification_option_dict (o : ClarificationOption) : dict :=
  [("id", PStr (co_id o)); ("label", PStr (co_label o)); ("description", opt_str (co_description o));
   ("recommended", co_recommended o)].
Record ClarificationRequestData : Type := mkClarification {
  cl_question : string;
  cl_type : ClarificationType.t;
  cl_options : list ClarificationOption;
  cl_allow_custom : pyval;
  cl_context : dict;
  cl_default_value : option string }.
Definition clarification_dict (d : ClarificationRequestData) : dict :=
  [("question", PStr (cl_question d)); ("clarification_type", PStr (ClarificationType.value (cl_type d)));
   ("options", PList (PDict <$> (clarification_option_dict <$> cl_options d)));
   ("allow_custom", cl_allow_custom d); ("context", PDict (cl_context d));
   ("default_value", opt_str (cl_default_value d))].

Record DecisionOption : Type := mkDecisionOption {
  do_id : string; do_label : string; do_description : option string; do_recommended : pyval;
  do_risk_level : option RiskLevel.t; do_estimated_time : option string;
  do_estimated_cost : option string; do_risks : list string }.
Definition decision_option_dict (o : DecisionOption) : dict :=
  [("id", PStr (do_id o)); ("label", PStr (do_label o)); ("description", opt_str (do_description o));
   ("recommended", do_recommended o); ("risk_level", opt (λ r, PStr (RiskLevel.value r)) (do_risk_level o));
   ("estimated_time", opt_str (do_estimated_time o)); ("estimated_cost", opt_str (do_estimated_cost o));
   ("risks", PList (PStr <$> do_risks o))].
Record DecisionRequestData : Type := mkDecision {
  de_question : string;
  de_type : DecisionType.t;
  de_options : list DecisionOption;
  de_allow_custom : pyval;
  de_default_option : pyval;
  de_max_selections : pyval;
  de_context : dict }.
Definition decision_dict (d : DecisionRequestData) : dict :=
  [("question", PStr (de_question d)); ("decision_type", PStr (DecisionType.value (de_type d)));
   ("options", PList (PDict <$> (decision_option_dict <$> de_options d)));
   ("allow_custom", de_allow_custom d); ("default_option", de_default_option d);
   ("max_selections", de_max_selections d); ("context", PDict (de_context d))].

Record EnvVarField : Type := mkField {
  ef_name : string; ef_label : string; ef_description : option string; ef_required : bool;
  ef_secret : bool; ef_input_type : EnvVarInputType.t; ef_default_value : option string;
  ef_placeholder : option string; ef_pattern : option string }.
Definition field_dict (f : EnvVarField) : dict :=
  [("name", PStr (ef_name f)); ("label", PStr (ef_label f)); ("description", opt_str (ef_description f));
   ("required", PBool (ef_required f)); ("secret", PBool (ef_secret f));
   ("input_type", PStr (EnvVarInputType.value (ef_input_type f)));
   ("default_value", opt_str (ef_default_value f)); ("placeholder", opt_str (ef_placeholder f));
   ("pattern", opt_str (ef_pattern f))].
Record EnvVarRequestData : Type := mkEnvVar {
  ev_tool_name : string; ev_fields : list EnvVarField; ev_message : option string;
  ev_allow_save : pyval; ev_context : dict }.
Definition env_var_dict (d : EnvVarRequestData) : dict :=
  [("tool_name", PStr (ev_tool_name d)); ("fields", PList (PDict <$> (field_dict <$> ev_fields d)));
   ("message", opt_str (ev_message d)); ("allow_save", ev_allow_save d); ("context", PDict (ev_context d))].

Record PermissionRequestData : Type := mkPermission {
  pm_tool_name : string; pm_action : string; pm_risk_level : RiskLevel.t; pm_details : dict;
  pm_description : option string; pm_allow_remember : pyval;
  pm_default_action : option PermissionAction.t; pm_context : dict }.
Definition permission_dict (d : PermissionRequestData) : dict :=
  [("tool_name", PStr (pm_tool_name d)); ("action", PStr (pm_action d));
   ("risk_level", PStr (RiskLevel.value (pm_risk_level d))); ("details", PDict (pm_details d));
   ("description", opt_str (pm_description d)); ("allow_remember", pm_allow_remember d);
   ("default_action", opt (λ a, PStr (PermissionAction.value a)) (pm_default_action d));
   ("context", PDict (pm_context d))].

(** [a2_allowed_actions]: dictionaries of strings. *)
Record A2UIActionRequestData : Type := mkA2UI {
  a2_title : pyval; a2_block_id : pyval; a2_allowed_actions : list (list (string * string));
  a2_context : pyval }.
Definition str_dict (d : list (string * string)) : dict := prod_map id PStr <$> d.
Definition a2ui_dict (d : A2UIActionRequestData) : dict :=
  [("question", a2_title d); ("title", a2_title d); ("block_id", a2_block_id d);
   ("allowed_actions", PList (PDict <$> (str_dict <$> a2_allowed_actions d))); ("context", a2_context d)].

Record HITLRequest : Type := mkRequest {
  request_id : string;
  hitl_type : HITLType.t;
  conversation_id : string;
  message_id : option string;
  clarification_data : option ClarificationRequestData;
  decision_data : option DecisionRequestData;
  env_var_data : option EnvVarRequestData;
  permission_data : option PermissionRequestData;
  a2ui_data : option A2UIActionRequestData;
  status : HITLStatus.t;
  timeout_seconds : Z;
  created_at : Z;
  expires_at : option Z;
  tenant_id : option string;
  project_id : option string;
  user_id : option string }.

(** An object is true in an [if]. *)
Definition question (r : HITLRequest) : pyval :=
  match clarification_data r, decision_data r, env_var_data r, permission_data r, a2ui_data r with
  | Some d, _, _, _, _ => PStr (cl_question d)
  | _, Some d, _, _, _ => PStr (de_question d)
  | _, _, Some d, _, _ =>
      PStr (if truthy_opt (ev_message d) then default "" (ev_message d)
            else "Please provide environment variables for " +:+ ev_tool_name d)
  | _, _, _, Some d, _ =>
      PStr (if truthy_opt (pm_description d) then default "" (pm_description d)
            else "Allow " +:+ pm_tool_name d +:+ " to " +:+ pm_action d +:+ "?")
  | _, _, _, _, Some d => a2_title d
  | _, _, _, _, _ => PStr ""
  end.
Definition type_specific_data (r : HITLRequest) : dict :=
  match clarification_data r, decision_data r, env_var_data r, permission_data r, a2ui_data r with
  | Some d, _, _, _, _ => clarification_dict d
  | _, Some d, _, _, _ => decision_dict d
  | _, _, Some d, _, _ => env_var_dict d
  | _, _, _, Some d, _ => permission_dict d
  | _, _, _, _, Some d => a2ui_dict d
  | _, _, _, _, _ => []
  end.
(** [is_request_expired] *)
Definition is_request_expired (now : Z) (r : HITLRequest) : bool :=
  match expires_at r with Some e => (e <? now)%Z | None => false end.
(** [get_remaining_time_seconds]: [int] truncates. *)
Definition get_remaining_time_seconds (now : Z) (r : HITLRequest) : option Z :=
  (λ e, Z.quot (e - now) 1000000) <$> expires_at r.

(** [HITLRequest(...)] with its [__post_init__]; [scope]: the keyword arguments
    the strategies hand on. *)
Record scope : Type := mkScope { sc_tenant : option string; sc_project : option string; sc_message : option string }.
Section factories.
Context (now : Z) (rid conv : string) (timeout : Z) (sc : scope).

Definition new_request (ty : HITLType.t) (cl : option ClarificationRequestData)
    (de : option DecisionRequestData) (ev : option EnvVarRequestData)
    (pm : option PermissionRequestData) (a2 : option A2UIActionRequestData) : HITLRequest :=
  mkRequest rid ty conv (sc_message sc) cl de ev pm a2 HITLStatus.PENDING timeout now
    (Some (now + timeout)%Z) (sc_tenant sc) (sc_project sc) None.
Definition create_clarification_request (q : string) (options : list ClarificationOption)
    (ty : ClarificationType.t) (allow_custom : pyval) (context : dict) (default_value : option string)
    : HITLRequest :=
  new_request HITLType.CLARIFICATION
    (Some (mkClarification q ty options allow_custom context default_value)) None None None None.
Definition create_decision_request (q : string) (options : list DecisionOption) (ty : DecisionType.t)
    (allow_custom : pyval) (context : dict) (default_option max_selections : pyval) : HITLRequest :=
  new_request HITLType.DECISION None
    (Some (mkDecision q ty options allow_custom default_option max_selections context)) None None None.
Definition create_env_var_request (tool_name : string) (fields : list EnvVarField)
    (message : option string) (context : dict) (allow_save : pyval) : HITLRequest :=
  new_request HITLType.ENV_VAR None None (Some (mkEnvVar tool_name fields message allow_save context))
    None None.
Definition create_permission_request (tool_name action : string) (risk : RiskLevel.t) (details : dict)
    (description : option string) (allow_remember : pyval) (default_action : option PermissionAction.t)
    (context : dict) : HITLRequest :=
  new_request HITLType.PERMISSION None None None
    (Some (mkPermission tool_name action risk details description allow_remember default_action context))
    None.
End factories.

(** * Sanitizing *)

Inductive hitl_error : Set :=
  | TypeError | ValueError | AttributeError | TimeoutError | CancelledError | DatabaseError.
#[export] Instance hitl_error_eq_dec : EqDecision hitl_error.
Proof. solve_decision. Defined.

(** [_CONTROL_CHARS_RE] *)
Definition is_control (c : ascii) : bool :=
  let n := nat_of_ascii c in
  (n <=? 8) || (n =? 11) || (n =? 12) || ((14 <=? n) && (n <=? 31)) || (n =? 127).
Definition on_chars (f : list ascii → list ascii) (s : string) : string :=
  String.string_of_list_ascii (f (String.list_ascii_of_string s)).
Definition strip_controls : string → string := on_chars (filter (λ c, is_control c = false)).
(** [html.escape] *)
Definition escape_char (c : ascii) : list ascii :=
  String.list_ascii_of_string
    (if Ascii.eqb c "&" then "&amp;" else if Ascii.eqb c "<" then "&lt;" else if Ascii.eqb c ">" then "&gt;"
     else if Nat.eqb (nat_of_ascii c) 34 then "&quot;" else if Nat.eqb (nat_of_ascii c) 39 then "&#x27;"
     else String c "").
Definition escape : string → string := on_chars (λ l, concat (escape_char <$> l)).

(** What a loop over a value goes through. *)
Definition iterate (v : pyval) : result hitl_error (list pyval) :=
  match v with
  | PList l => Ok l
  | PDict d => Ok (PStr <$> dkeys d)
  | PStr s => Ok ((λ c, PStr (String c "")) <$> String.list_ascii_of_string s)
  | _ => Err TypeError
  end.
(** [d.get(k, v)] *)
Definition get (k : string) (v : pyval) (d : dict) : pyval := dget_or v k d.
(** [a or b] *)
Definition or_text (o : option string) (s : string) : string := if truthy_opt o then default "" o else s.

Section sanitizing.
Context (unescape : string → string).

Definition sanitize_hitl_text (v : pyval) : option string :=
  match v with
  | PStr s =>
      let candidate := strip (unescape (strip_controls s)) in
      if truthy candidate then Some (escape candidate) else None
  | _ => None
  end.
Definition sanitize_hitl_scalar (v : pyval) : option pyval :=
  match v with PBool _ | PInt _ => Some v | _ => PStr <$> sanitize_hitl_text v end.
Definition sanitize_hitl_sequence (v : pyval) : option (list pyval) :=
  match v with
  | PList l => l' ← mapM sanitize_hitl_scalar l; match l' with [] => None | _ => Some l' end
  | _ => None
  end.
Definition sanitized_value (v : pyval) : option pyval :=
  match sanitize_hitl_scalar v with Some x => Some x | None => PList <$> sanitize_hitl_sequence v end.
Definition context_entry (acc : dict) (kv : string * pyval) : dict :=
  match sanitize_hitl_text (PStr kv.1) with
  | Some k => match sanitized_value kv.2 with Some v => dset k v acc | None => acc end
  | None => acc
  end.
Definition sanitize_hitl_context (v : pyval) : result hitl_error dict :=
  match v with
  | PNone => Ok []
  | PDict d => Ok (foldl context_entry [] d)
  | _ => Err AttributeError
  end.

(** * Strategies *)

(** The texts of a list, sanitized; what becomes empty is dropped. *)
Definition sanitized_texts (l : list pyval) : list string := omap sanitize_hitl_text l.
(** [str(...).strip() or str(len(options))] *)
Definition option_id (o : dict) (n : nat) : string :=
  let s := strip (py_str (get "id" (PStr (pretty.pretty n)) o)) in
  if truthy s then s else pretty.pretty n.

Definition clarification_option (o : pyval) (n : nat) : option ClarificationOption :=
  match o with
  | PDict d =>
      label ← sanitize_hitl_text (get "label" (PStr "") d);
      Some (mkClarificationOption (option_id d n) label (sanitize_hitl_text (get "description" PNone d))
        (get "recommended" (PBool false) d))
  | PStr _ =>
      label ← sanitize_hitl_text o;
      Some (mkClarificationOption (pretty.pretty n) label None (PBool false))
  | _ => None
  end.
Definition decision_option_risk_level (o : dict) : option RiskLevel.t :=
  if py_truth (get "risk_level" PNone o)
  then member RiskLevel.value RiskLevel.all (get "risk_level" PNone o) else None.
Definition sanitize_decision_option_risks (v : pyval) : list string :=
  match v with PList l => sanitized_texts l | _ => [] end.
Definition decision_option_from_mapping (o : dict) (n : nat) : option DecisionOption :=
  label ← sanitize_hitl_text (get "label" (PStr "") o);
  Some (mkDecisionOption (option_id o n) label (sanitize_hitl_text (get "description" PNone o))
    (get "recommended" (PBool false) o) (decision_option_risk_level o)
    (sanitize_hitl_text (get "estimated_time" PNone o)) (sanitize_hitl_text (get "estimated_cost" PNone o))
    (sanitize_decision_option_risks (get "risks" (PList []) o))).
Definition decision_option (o : pyval) (n : nat) : option DecisionOption :=
  match o with
  | PDict d => decision_option_from_mapping d n
  | PStr _ =>
      label ← sanitize_hitl_text o;
      Some (mkDecisionOption (pretty.pretty n) label None (PBool false) None None None [])
  | _ => None
  end.
(** The loop over the options: the next number is the length so far. *)
Definition collect {A} (f : pyval → nat → option A) (l : list pyval) : list A :=
  foldl (λ acc v, match f v (length acc) with Some x => acc ++ [x] | None => acc end) [] l.
(** [request_data.get("options", []) or []] *)
Definition options_data (d : dict) : result hitl_error (list pyval) :=
  let v := get "options" (PList []) d in if py_truth v then iterate v else Ok [].
Definition decision_type_from_request_data (d : dict) : option DecisionType.t :=
  if decide (get "selection_mode" (PStr "single") d = PStr "multiple") then Some DecisionType.MULTI_CHOICE
  else member DecisionType.value DecisionType.all (get "decision_type" (PStr "single_choice") d).
(** The id handed in, a string, or a new one. *)
Definition chosen_id (d : dict) (fresh : string) : string :=
  match dget "_request_id" d with Some (PStr s) => if truthy s then s else fresh | _ => fresh end.

Section create.
Context (now : Z) (fresh conv : string) (timeout : Z) (sc : scope) (d : dict).

(** [ClarificationStrategy.create_request]; [kw]: the keyword argument
    [default_value], where it is given *)
Definition create_clarification (kw : option pyval) : result hitl_error HITLRequest :=
  ty ← of_option (member ClarificationType.value ClarificationType.all
                    (get "clarification_type" (PStr "custom") d)) ValueError;
  items ← options_data d;
  let options := collect clarification_option items in
  context ← sanitize_hitl_context (get "context" (PDict []) d);
  mret (create_clarification_request now (chosen_id d fresh) conv timeout sc
    (default "" (sanitize_hitl_text (get "question" (PStr "") d))) options ty
    (match options with [] => PBool true | _ => get "allow_custom" (PBool true) d end) context
    (sanitize_hitl_text (default (get "default_value" PNone d) kw))).
(** [DecisionStrategy.create_request] *)
Definition create_decision : result hitl_error HITLRequest :=
  ty ← of_option (decision_type_from_request_data d) ValueError;
  items ← options_data d;
  let options := collect decision_option items in
  context ← sanitize_hitl_context (get "context" (PDict []) d);
  mret (create_decision_request now (chosen_id d fresh) conv timeout sc
    (default "" (sanitize_hitl_text (get "question" (PStr "") d))) options ty
    (match options with [] => PBool true | _ => get "allow_custom" (PBool false) d end) context
    (get "default_option" PNone d) (get "max_selections" PNone d)).
(** [PermissionStrategy.create_request] *)
Definition create_permission : result hitl_error HITLRequest :=
  let risk := default RiskLevel.MEDIUM
    (member RiskLevel.value RiskLevel.all (get "risk_level" (PStr "medium") d)) in
  let action := get "default_action" PNone d in
  default_action ← (if py_truth action
                    then a ← of_option (member PermissionAction.value PermissionAction.all action) ValueError; mret (Some a)
                    else mret None);
  details ← sanitize_hitl_context (get "details" (PDict []) d);
  context ← sanitize_hitl_context (get "context" (PDict []) d);
  mret (create_permission_request now (chosen_id d fresh) conv timeout sc
    (or_text (sanitize_hitl_text (get "tool_name" (PStr "unknown") d)) "unknown")
    (or_text (sanitize_hitl_text (get "action" (PStr "execute") d)) "execute") risk details
    (sanitize_hitl_text (get "description" PNone d)) (get "allow_remember" (PBool true) d) default_action
    context).
(** An action a surface publishes: a dictionary with two non-blank texts. *)
Definition allowed_action (v : pyval) : option (list (string * string)) :=
  match v with
  | PDict a =>
      match dget "source_component_id" a, dget "action_name" a with
      | Some (PStr c), Some (PStr n) =>
          if truthy (strip c) && truthy (strip n)
          then Some [("source_component_id", c); ("action_name", n)] else None
      | _, _ => None
      end
  | _ => None
  end.
(** [A2UIActionStrategy.create_request], which takes no id from its caller *)
Definition create_a2ui : result hitl_error HITLRequest :=
  items ← iterate (get "allowed_actions" (PList []) d);
  mret (new_request now fresh conv timeout sc HITLType.A2UI_ACTION None None None None
    (Some (mkA2UI (get "title" (PStr "A2UI interaction required") d) (get "block_id" (PStr "") d)
      (omap allowed_action items) (get "context" (PDict []) d)))).
End create.

(** [extract_response_value] *)
Definition extract_choice (key : string) (v : pyval) : pyval :=
  match v with
  | PStr _ => PStr (default "" (sanitize_hitl_text v))
  | PDict d =>
      match get key (PStr "") d with
      | PList l => PList (PStr <$> sanitized_texts l)
      | x => PStr (default "" (sanitize_hitl_text x))
      end
  | _ => PStr ""
  end.
Definition allows (a : string) : bool := bool_decide (a ∈ ["allow"; "allow_always"]).
Definition valid_actions : list string := PermissionAction.value <$> PermissionAction.all.
Definition extract_env_var (v : pyval) : pyval := match v with PDict d => get "values" v d | _ => v end.
Definition extract_permission (v : pyval) : bool :=
  match v with
  | PStr s => allows s
  | PDict d =>
      let granted := dget "granted" d in
      let by_granted := match granted with Some (PBool b) => b | _ => false end in
      match get "action" (PStr "deny") d with
      | PStr a =>
          if decide (a ∈ valid_actions)
          then match granted with
               | Some (PBool b) => if eqb b (allows a) then allows a else false
               | _ => allows a
               end
          else by_granted
      | _ => by_granted
      end
  | _ => false
  end.
Definition extract_a2ui (v : pyval) : pyval :=
  match v with
  | PDict d => PDict [("action_name", get "action_name" (PStr "") d);
                      ("source_component_id", get "source_component_id" (PStr "") d);
                      ("context", get "context" (PDict []) d)]
  | _ => PDict [("action_name", PStr ""); ("source_component_id", PStr ""); ("context", PDict [])]
  end.
Definition extract_response_value (ty : HITLType.t) (v : pyval) : pyval :=
  match ty with
  | HITLType.CLARIFICATION => extract_choice "answer" v
  | HITLType.DECISION => extract_choice "decision" v
  | HITLType.ENV_VAR => extract_env_var v
  | HITLType.PERMISSION => PBool (extract_permission v)
  | HITLType.A2UI_ACTION => extract_a2ui v
  end.
End sanitizing.

(** * Which answers fit a request *)

Definition unhashable (v : pyval) : bool := match v with PList _ | PDict _ => true | _ => false end.
(** [len(value) > max_selections] *)
Definition too_many (n : nat) (max_selections : pyval) : result hitl_error bool :=
  match max_selections with
  | PNone => Ok false
  | PInt m => Ok (m <? Z.of_nat n)%Z
  | PBool b => Ok (Z.b2z b <? Z.of_nat n)%Z
  | _ => Err TypeError
  end.
Definition choice_ok (allowed : list string) (allow_custom : pyval) (v : pyval) : bool :=
  match v with
  | PStr s => bool_decide (s ∈ allowed) || (py_truth allow_custom && truthy (strip s))
  | _ => false
  end.
(** [_validate_choice_response].  A list that [set] cannot hold raises.  [1] and
    [True] are one element of a set; a list with either is rejected anyway. *)
Definition validate_choice_response (v : pyval) (allowed : list string) (allow_custom : pyval)
    (max_selections : pyval) (allow_multiple : bool) : result hitl_error bool :=
  match v with
  | PList l =>
      if (length l =? 0) || negb allow_multiple then mret false
      else
        many ← too_many (length l) max_selections;
        if (many : bool) then mret false
        else if existsb unhashable l then Err TypeError
        else mret (bool_decide (NoDup l) && forallb (choice_ok allowed allow_custom) l)
  | _ => mret (choice_ok allowed allow_custom v)
  end.
(** [_allowed_option_values], from the ids and the labels *)
Definition allowed_option_values (options : list (string * string)) : list string :=
  filter (λ s, truthy s = true) (flat_map (λ o, [o.1; o.2]) options).
Definition is_str (v : pyval) : bool := match v with PStr _ => true | _ => false end.
Definition is_true (o : option pyval) : bool := match o with Some (PBool true) => true | _ => false end.
Definition filled (v : pyval) : bool := match v with PStr s => truthy (strip s) | _ => false end.
(** The values of the variables asked for: texts, under names that were asked
    for, and not blank where required *)
Definition env_var_ok (fields : list EnvVarField) (v : pyval) : bool :=
  match v with
  | PDict values =>
      forallb (λ kv, is_str kv.2) values &&
      forallb (λ k, bool_decide (k ∈ ef_name <$> fields)) (dkeys values) &&
      forallb (λ f, negb (ef_required f) || existsb (λ kv, bool_decide (kv.1 = ef_name f) && filled kv.2) values)
        fields
  | _ => false
  end.
Definition permission_ok (d : dict) : bool :=
  match dget "action" d, dget "granted" d with
  | Some (PStr a), Some (PBool b) => bool_decide (a ∈ valid_actions) && eqb b (allows a)
  | Some (PStr a), _ => bool_decide (a ∈ valid_actions)
  | _, Some (PBool _) => true
  | _, _ => false
  end.
Definition a2ui_ok (allowed : list (list (string * string))) (d : dict) : bool :=
  match get "action_name" PNone d, get "source_component_id" (PStr "") d, get "context" (PDict []) d with
  | PStr n, PStr c, PDict _ =>
      truthy (strip n) && truthy (strip c) &&
      existsb (λ e, bool_decide ((dget_or "" "source_component_id" e, dget_or "" "action_name" e) = (c, n)))
        allowed
  | _, _, _ => false
  end.
(** [RayHITLHandler._matches_request_semantics] *)
Definition matches_request_semantics (r : HITLRequest) (d : dict) : result hitl_error bool :=
  if is_true (dget "cancelled" d) || is_true (dget "timeout" d) then mret true
  else
    match hitl_type r, clarification_data r, decision_data r, env_var_data r, permission_data r, a2ui_data r with
    | HITLType.CLARIFICATION, Some c, _, _, _, _ =>
        validate_choice_response (get "answer" PNone d)
          (allowed_option_values ((λ o, (co_id o, co_label o)) <$> cl_options c)) (cl_allow_custom c) PNone true
    | HITLType.DECISION, _, Some c, _, _, _ =>
        validate_choice_response (get "decision" PNone d)
          (allowed_option_values ((λ o, (do_id o, do_label o)) <$> de_options c)) (de_allow_custom c)
          (de_max_selections c) (bool_decide (de_type c = DecisionType.MULTI_CHOICE))
    | HITLType.ENV_VAR, _, _, Some c, _, _ => mret (env_var_ok (ev_fields c) (get "values" (PDict d) d))
    | HITLType.PERMISSION, _, _, _, Some _, _ => mret (permission_ok d)
    | HITLType.A2UI_ACTION, _, _, _, _, Some c => mret (a2ui_ok (a2_allowed_actions c) d)
    | _, _, _, _, _, _ => mret true
    end.
(** [RayHITLHandler._is_valid_preinjected_response] *)
Definition str_or_strs (v : option pyval) : bool :=
  match v with Some (PStr _) => true | Some (PList l) => forallb is_str l | _ => false end.
Definition is_valid_preinjected_response (ty : HITLType.t) (d : dict) : bool :=
  if is_true (dget "cancelled" d) || is_true (dget "timeout" d) then true
  else
    match ty with
    | HITLType.CLARIFICATION => str_or_strs (dget "answer" d)
    | HITLType.DECISION => str_or_strs (dget "decision" d)
    | HITLType.ENV_VAR => match dget "values" d with Some (PDict v) => forallb (λ kv, is_str kv.2) v | _ => false end
    | HITLType.PERMISSION =>
        match dget "action" d with Some (PStr a) => bool_decide (a ∈ valid_actions) | _ => false end ||
        match dget "granted" d with Some (PBool _) => true | _ => false end
    | HITLType.A2UI_ACTION => true
    end.

(** * What an accepted permission answer means *)

(** An accepted permission answer grants exactly when its action is one of the
    two allowing ones, or when there is an action that is no text and the flag
    [granted] is set.  So an answer with the flag alone, which is accepted, is
    always read as a refusal. *)
Theorem permission_answers r pd d : hitl_type r = HITLType.PERMISSION → permission_data r = Some pd →
  matches_request_semantics r d = Ok true → is_true (dget "cancelled" d) = false →
  is_true (dget "timeout" d) = false →
  (extract_permission (PDict d) = true ↔
     match dget "action" d with
     | Some (PStr a) => allows a = true
     | Some _ => dget "granted" d = Some (PBool true)
     | None => False
     end) ∧
  (dget "action" d = None → ∃ b, dget "granted" d = Some (PBool b) ∧ extract_permission (PDict d) = false).
Proof.
  intros Hty Hpd Hm Hc Ht. unfold matches_request_semantics in Hm. rewrite Hc, Ht, Hty, Hpd in Hm.
  cbn [orb] in Hm. injection Hm as Hm. unfold permission_ok in Hm.
  assert (Hdeny : "deny" ∈ valid_actions) by vm_decide.
  unfold extract_permission, get, dget_or.
  destruct (dget "action" d) as [[| | |a|l|l]|]; simpl.
  4: { destruct (dget "granted" d) as [[|b| | | |]|]; split_bools; rewrite ?decide_True by done;
         try (by split).
       match goal with H : eqb _ _ = true |- _ => apply eqb_prop in H; subst b end. rewrite eqb_reflx.
       by destruct (allows a). }
  6: { rewrite ?decide_True by done. destruct (dget "granted" d) as [[|b| | | |]|]; try done.
       split; [by destruct b|]. intros _. eexists. split; [done|by destruct b]. }
  all: destruct (dget "granted" d) as [[|g| | | |]|]; try done; split; try done; by destruct g.
Qed.
Definition sample_permission : HITLRequest :=
  create_permission_request 0 "perm_1" "conv" 60000000 (mkScope (Some "t") (Some "p") None) "bash" "execute"
    RiskLevel.MEDIUM [] None (PBool true) None [].
Lemma permission_answers_witness :
  matches_request_semantics sample_permission [("granted", PBool true)] = Ok true ∧
  extract_permission (PDict [("granted", PBool true)]) = false.
Proof.
  assert (Hm : matches_request_semantics sample_permission [("granted", PBool true)] = Ok true) by (by vm_compute).
  split; [done|].
  destruct (permission_answers sample_permission
    (mkPermission "bash" "execute" RiskLevel.MEDIUM [] None (PBool true) None []) [("granted", PBool true)])
    as [_ Hx]; [done..|]. destruct Hx as (b & _ & Hb); [done|exact Hb].
Defined.
