(* ===== verification/HitlStore.v ===== *)
(** Persisted questions to the user: the entity, the table it is kept in, and
    the leases under which workers process answers.

    Sources: src/src/domain/model/agent/hitl/hitl_request.py,
    src/src/application/services/hitl_response_contract.py, the lease metadata
    of src/src/infrastructure/agent/hitl/utils.py, and
    src/src/infrastructure/adapters/secondary/persistence/sql_hitl_request_repository.py.

    A table is its rows by id, in the order of their insertion.  Each [UPDATE
    ... WHERE] is atomic and locks its row to the end of its transaction, which
    is the method.  The heartbeat of a lease is no such [UPDATE]: it selects
    the row, without a lock, and writes the metadata it computed when its
    session flushes; both are steps of their own ([sys_op]).  An
    operator of JSON columns yields a text or NULL; the keys it reads only ever
    hold texts. *)

From Stdlib Require Import Ascii.
From S2P Require Import Prelude Datetime HitlTypes.

Open Scope string_scope.
Open Scope list_scope.
Open Scope nat_scope.

(** * The entity *)

Inductive HITLRequestType : Set := CLARIFICATION | DECISION | ENV_VAR | A2UI_ACTION.
#[export] Instance HITLRequestType_eq_dec : EqDecision HITLRequestType.
Proof. solve_decision. Defined.
Definition type_value (t : HITLRequestType) : string :=
  match t with
  | CLARIFICATION => "clarification" | DECISION => "decision" | ENV_VAR => "env_var"
  | A2UI_ACTION => "a2ui_action"
  end.
Inductive HITLRequestStatus : Set := PENDING | ANSWERED | PROCESSING | COMPLETED | TIMEOUT | CANCELLED.
#[export] Instance HITLRequestStatus_eq_dec : EqDecision HITLRequestStatus.
Proof. solve_decision. Defined.
Definition status_value (s : HITLRequestStatus) : string :=
  match s with
  | PENDING => "pending" | ANSWERED => "answered" | PROCESSING => "processing"
  | COMPLETED => "completed" | TIMEOUT => "timeout" | CANCELLED => "cancelled"
  end.
(** The status in a formatted string. *)
Definition status_text (s : HITLRequestStatus) : string :=
  "HITLRequestStatus." +:+
  match s with
  | PENDING => "PENDING" | ANSWERED => "ANSWERED" | PROCESSING => "PROCESSING"
  | COMPLETED => "COMPLETED" | TIMEOUT => "TIMEOUT" | CANCELLED => "CANCELLED"
  end.

(** [HITLRequest] of the domain.  The question of a surface may be any value. *)
Record HITLRequestEntity : Type := mkEntity {
  en_id : string;
  en_type : HITLRequestType;
  en_conversation : string;
  en_tenant : string;
  en_project : string;
  en_question : pyval;
  en_message : option string;
  en_user : option string;
  en_options : pyval;
  en_context : pyval;
  en_metadata : option dict;
  en_status : HITLRequestStatus;
  en_response : option string;
  en_response_metadata : option dict;
  en_created_at : Z;
  en_expires_at : option Z;
  en_answered_at : option Z }.
#[export] Instance HITLRequestEntity_eq_dec : EqDecision HITLRequestEntity.
Proof. solve_decision. Defined.

Definition default_expiry_us : Z := 300000000.
(** [__post_init__] *)
Definition validated (e : HITLRequestEntity) : result string HITLRequestEntity :=
  if negb (truthy (en_conversation e)) then Err "conversation_id is required"
  else if negb (truthy (en_tenant e)) then Err "tenant_id is required"
  else if negb (truthy (en_project e)) then Err "project_id is required"
  else if negb (py_truth (en_question e)) then Err "question is required"
  else Ok (mkEntity (en_id e) (en_type e) (en_conversation e) (en_tenant e) (en_project e) (en_question e)
    (en_message e) (en_user e) (en_options e) (en_context e) (en_metadata e) (en_status e) (en_response e)
    (en_response_metadata e) (en_created_at e)
    (Some (default (en_created_at e + default_expiry_us)%Z (en_expires_at e))) (en_answered_at e)).

Section entity.
Implicit Types e : HITLRequestEntity.

Definition with_answer (s : HITLRequestStatus) (r : option string) (m : option dict) (t : option Z) e
    : HITLRequestEntity :=
  mkEntity (en_id e) (en_type e) (en_conversation e) (en_tenant e) (en_project e) (en_question e)
    (en_message e) (en_user e) (en_options e) (en_context e) (en_metadata e) s r m (en_created_at e)
    (en_expires_at e) t.
Definition with_status (s : HITLRequestStatus) e : HITLRequestEntity :=
  with_answer s (en_response e) (en_response_metadata e) (en_answered_at e) e.
Definition with_response_metadata (m : option dict) e : HITLRequestEntity :=
  with_answer (en_status e) (en_response e) m (en_answered_at e) e.

Definition is_pending e : bool := bool_decide (en_status e = PENDING).
Definition is_answered e : bool := bool_decide (en_status e = ANSWERED).
Definition needs_processing e : bool := bool_decide (en_status e = ANSWERED).
Definition is_expired (now : Z) e : bool :=
  match en_expires_at e with Some t => (t <? now)%Z | None => false end.

Definition refuse (what : string) e : result string HITLRequestEntity :=
  Err (what +:+ status_text (en_status e)).
Definition answer (now : Z) (response : string) (m : option dict) e : result string HITLRequestEntity :=
  if is_pending e then Ok (with_answer ANSWERED (Some response) m (Some now) e)
  else refuse "Cannot answer request with status: " e.
Definition mark_processing e : result string HITLRequestEntity :=
  if decide (en_status e = ANSWERED) then Ok (with_status PROCESSING e)
  else refuse "Cannot mark processing for status: " e.
Definition mark_completed e : result string HITLRequestEntity :=
  if decide (en_status e ∈ [ANSWERED; PROCESSING]) then Ok (with_status COMPLETED e)
  else refuse "Cannot mark completed for status: " e.
Definition mark_timeout (default_response : option string) e : result string HITLRequestEntity :=
  if is_pending e then
    Ok (if truthy_opt default_response
        then with_answer TIMEOUT default_response (Some [("is_default", PBool true)]) (en_answered_at e) e
        else with_status TIMEOUT e)
  else refuse "Cannot timeout request with status: " e.
Definition cancel e : result string HITLRequestEntity :=
  if is_pending e then Ok (with_status CANCELLED e)
  else refuse "Cannot cancel request with status: " e.
(** [default_option], of the options in a list *)
Definition default_option e : pyval :=
  match en_type e, en_options e with
  | DECISION, PList l =>
      default PNone (head (omap (λ o, match o with
                                      | PDict d => if py_truth (get "is_default" PNone d)
                                                   then Some (get "value" PNone d) else None
                                      | _ => None
                                      end) l))
  | _, _ => PNone
  end.
Definition instant (o : option Z) : pyval := opt (λ t, PStr (isoformat t)) o.
Definition to_dict e : dict :=
  [("id", PStr (en_id e)); ("request_type", PStr (type_value (en_type e)));
   ("conversation_id", PStr (en_conversation e)); ("message_id", opt_str (en_message e));
   ("tenant_id", PStr (en_tenant e)); ("project_id", PStr (en_project e)); ("user_id", opt_str (en_user e));
   ("question", en_question e); ("options", en_options e); ("context", en_context e);
   ("metadata", opt PDict (en_metadata e)); ("status", PStr (status_value (en_status e)));
   ("response", opt_str (en_response e)); ("response_metadata", opt PDict (en_response_metadata e));
   ("created_at", PStr (isoformat (en_created_at e))); ("expires_at", instant (en_expires_at e));
   ("answered_at", instant (en_answered_at e))].
End entity.

(** * Leases *)

Definition heartbeat_key : string := "processing_heartbeat_at".
Definition started_key : string := "processing_started_at".
Definition owner_key : string := "processing_owner".
(** [merge_processing_lease_metadata] *)
Definition merge_lease (m : option dict) (now : Z) (owner : option string) : dict :=
  let d := dset heartbeat_key (PStr (isoformat now)) (default [] m) in
  let d := if dmem started_key d then d else dset started_key (PStr (isoformat now)) d in
  match owner with Some o => if truthy o then dset owner_key (PStr o) d else d | None => d end.
(** [clear_processing_lease_metadata] *)
Definition clear_lease (m : option dict) : option dict :=
  match m with
  | None => None
  | Some d =>
      match ddel owner_key (ddel heartbeat_key (ddel started_key d)) with [] => None | d' => Some d' end
  end.
(** A text under a key of a JSON column, NULL where there is none. *)
Definition json_text (k : string) (m : option dict) : option string :=
  d ← m; match dget k d with Some (PStr s) => Some s | _ => None end.
(** [get_processing_owner] *)
Definition processing_owner (m : option dict) : option string :=
  o ← json_text owner_key m; if truthy o then Some o else None.
Definition parse_lease_time (v : option string) : option Z :=
  s ← v; if truthy s then iso_instant s else None.
(** [get_processing_lease_time] *)
Definition processing_lease_time (m : option dict) : option Z :=
  match parse_lease_time (json_text heartbeat_key m) with
  | Some t => Some t
  | None => parse_lease_time (json_text started_key m)
  end.
Definition is_processing_lease_stale (before : Z) (e : HITLRequestEntity) : bool :=
  match processing_lease_time (en_response_metadata e) with Some t => (t <? before)%Z | None => false end.

(** * Receipts of revisioned answers *)

Definition PENDING_AUTHORITY_REVISION : Z := 1.
Definition SETTLED_AUTHORITY_REVISION : Z := 2.
Definition CONTRACT_VERSION : Z := 2.
Definition contract_key : string := "_hitl_response_contract".
Definition authority_revision (s : HITLRequestStatus) : Z :=
  if decide (s = PENDING) then PENDING_AUTHORITY_REVISION else SETTLED_AUTHORITY_REVISION.
Record receipt : Type := mkReceipt {
  contract_version : Z; expected_revision : Z; idempotency_key : string; payload_digest : string }.
(** [^[!-~]{1,255}$] and [^[0-9a-f]{64}$], of the whole text *)
Definition valid_key (s : string) : bool :=
  (1 <=? String.length s) && (String.length s <=? 255) &&
  forallb (λ c, (33 <=? nat_of_ascii c) && (nat_of_ascii c <=? 126)) (String.list_ascii_of_string s).
Definition is_hex (c : ascii) : bool :=
  let n := nat_of_ascii c in ((48 <=? n) && (n <=? 57)) || ((97 <=? n) && (n <=? 102)).
Definition valid_digest (s : string) : bool :=
  (String.length s =? 64) && forallb is_hex (String.list_ascii_of_string s).
Definition merge_contract (m : option dict) (revision : Z) (key digest : string) : result string dict :=
  if negb (revision =? PENDING_AUTHORITY_REVISION)%Z
  then Err "HITL response claims must target pending authority revision 1"
  else if negb (valid_key key) then Err "Invalid HITL response idempotency key"
  else if negb (valid_digest digest) then Err "Invalid HITL response payload digest"
  else Ok (dset contract_key
             (PDict [("contract_version", PInt CONTRACT_VERSION); ("expected_revision", PInt revision);
                     ("idempotency_key", PStr key); ("payload_digest", PStr digest)]) (default [] m)).
Definition contract_fields : list string :=
  ["contract_version"; "expected_revision"; "idempotency_key"; "payload_digest"].
Definition read_contract (m : option dict) : option receipt :=
  match dget contract_key (default [] m) with
  | Some (PDict c) =>
      if forallb (λ k, bool_decide (k ∈ contract_fields)) (dkeys c) then
        match dget "contract_version" c, dget "expected_revision" c, dget "idempotency_key" c,
              dget "payload_digest" c with
        | Some (PInt v), Some (PInt r), Some (PStr k), Some (PStr d) =>
            if (v =? CONTRACT_VERSION)%Z && (r =? PENDING_AUTHORITY_REVISION)%Z && valid_key k && valid_digest d
            then Some (mkReceipt CONTRACT_VERSION PENDING_AUTHORITY_REVISION k d) else None
        | _, _, _, _ => None
        end
      else None
  | _ => None
  end.

(** * The table *)

Notation table := (list (string * HITLRequestEntity)).

Section store.
Implicit Types (t : table) (e : HITLRequestEntity) (rid : string).

(** [INSERT]: the id is the primary key. *)
Definition create e t : option table := if dmem (en_id e) t then None else Some (dset (en_id e) e t).
(** [UPDATE ... SET f WHERE id = rid AND p RETURNING]: the row as it is then *)
Definition update (rid : string) (p : HITLRequestEntity → bool) (f : HITLRequestEntity → HITLRequestEntity) t
    : table * option HITLRequestEntity :=
  match dget rid t with
  | Some e => if p e then (dset rid (f e) t, Some (f e)) else (t, None)
  | None => (t, None)
  end.
Definition has_status (s : HITLRequestStatus) e : bool := bool_decide (en_status e = s).
Definition unexpired (now : Z) e : bool :=
  match en_expires_at e with Some x => (now <? x)%Z | None => true end.

Definition update_response (now : Z) rid (response : string) (m : option dict) t :=
  update rid (λ e, has_status PENDING e && unexpired now e) (with_answer ANSWERED (Some response) m (Some now)) t.
Definition claim_response_v2 (now : Z) rid (response : string) (m : option dict) (revision : Z)
    (key digest : string) t : result string (table * option HITLRequestEntity) :=
  if negb (revision =? PENDING_AUTHORITY_REVISION)%Z then Ok (t, None)
  else
    m' ← merge_contract m revision key digest;
    mret (update_response now rid response (Some m') t).
Definition reopen_pending rid t :=
  update rid (has_status ANSWERED) (with_answer PENDING None None None) t.
Definition mark_row_timeout rid (default_response : option string) t :=
  update rid (has_status PENDING)
    (λ e, with_answer TIMEOUT default_response
            (if truthy_opt default_response then Some [("is_default", PBool true)] else None)
            (en_answered_at e) e) t.
Definition mark_cancelled rid t := update rid (has_status PENDING) (with_status CANCELLED) t.
(** [owner_expr == lease_owner]: NULL is not equal *)
Definition owned_by (o : string) e : bool :=
  bool_decide (json_text owner_key (en_response_metadata e) = Some o).
Definition may_complete (owner : option string) e : bool :=
  match owner with
  | Some o => has_status PROCESSING e && owned_by o e
  | None => has_status ANSWERED e || has_status PROCESSING e
  end.
(** The status and the cleared lease. *)
Definition settle (s : HITLRequestStatus) e : HITLRequestEntity :=
  with_status s (with_response_metadata (clear_lease (en_response_metadata e)) e).
Definition mark_row_completed rid (owner : option string) t :=
  update rid (may_complete owner) (settle COMPLETED) t.
Definition leased (now : Z) (owner : option string) e : HITLRequestEntity :=
  with_response_metadata (Some (merge_lease (en_response_metadata e) now owner)) e.
Definition claim_for_processing (now : Z) rid (owner : option string) t :=
  update rid (has_status ANSWERED) (λ e, with_status PROCESSING (leased now owner e)) t.
Definition may_refresh (owner : option string) e : bool :=
  match owner, processing_owner (en_response_metadata e) with
  | Some o, Some o' => bool_decide (o = o')
  | _, _ => true
  end.
(** A heartbeat between its [SELECT] and its flush: the row, and the metadata
    that the flush will write. *)
Record heartbeat : Type := mkHeartbeat { hb_row : string; hb_metadata : dict }.
Definition refresh_read (now : Z) rid (owner : option string) t : option heartbeat :=
  match dget rid t with
  | Some e =>
      if has_status PROCESSING e && may_refresh owner e
      then Some (mkHeartbeat rid (merge_lease (en_response_metadata e) now owner)) else None
  | None => None
  end.
(** The flush: an [UPDATE] by the primary key alone, which raises when the row
    is gone. *)
Definition refresh_flush (hb : heartbeat) t : table * option HITLRequestEntity :=
  update (hb_row hb) (λ _, true) (with_response_metadata (Some (hb_metadata hb))) t.
(** The method when nothing comes in between. *)
Definition refresh_processing_lease (now : Z) rid (owner : option string) t : table * option HITLRequestEntity :=
  match refresh_read now rid owner t with Some hb => refresh_flush hb t | None => (t, None) end.
(** [coalesce(heartbeat, started) < before], of texts; NULL passes *)
Definition lease_expr (m : option dict) : option string :=
  match json_text heartbeat_key m with Some s => Some s | None => json_text started_key m end.
Definition may_revert (before : option Z) (owner : option string) e : bool :=
  has_status PROCESSING e &&
  match owner, json_text owner_key (en_response_metadata e) with
  | Some o, Some o' => bool_decide (o' = o)
  | _, _ => true
  end &&
  match before, lease_expr (en_response_metadata e) with
  | Some b, Some s => String.ltb s (isoformat b)
  | _, _ => true
  end.
Definition revert_to_answered rid (before : option Z) (owner : option string) t :=
  update rid (may_revert before owner) (settle ANSWERED) t.
Definition delete rid t : table * bool := (ddel rid t, dmem rid t).
(** [expires_at < before]: NULL does not pass *)
Definition overdue (before : Z) e : bool :=
  has_status PENDING e && match en_expires_at e with Some x => (x <? before)%Z | None => false end.
Definition mark_expired_requests (before : Z) t : table * nat :=
  (prod_map id (λ e, if overdue before e then with_status TIMEOUT e else e) <$> t,
   length (filter (λ kv, overdue before kv.2 = true) t)).

(** Queries; rows of one time come in the order of their insertion. *)
Definition newest_first (l : list HITLRequestEntity) : list HITLRequestEntity :=
  sort_by (λ a b, (en_created_at b <=? en_created_at a)%Z) l.
Definition rows (p : HITLRequestEntity → bool) t : list HITLRequestEntity := filter (λ e, p e = true) (dvals t).
Definition get_by_id rid t : option HITLRequestEntity := dget rid t.
Definition get_by_conversation (c : string) t : list HITLRequestEntity :=
  newest_first (rows (λ e, bool_decide (en_conversation e = c)) t).
Definition in_project (tenant project : string) e : bool :=
  bool_decide (en_tenant e = tenant) && bool_decide (en_project e = project).
Definition get_pending_by_conversation (now : Z) (c tenant project : string) (exclude_expired : bool) t :=
  newest_first (rows (λ e, bool_decide (en_conversation e = c) && in_project tenant project e &&
                           has_status PENDING e && (negb exclude_expired || unexpired now e)) t).
Definition get_pending_by_project (tenant project : string) (limit : nat) t : list HITLRequestEntity :=
  take limit (newest_first (rows (λ e, in_project tenant project e && has_status PENDING e) t)).
Definition answered_first (l : list HITLRequestEntity) : list HITLRequestEntity :=
  sort_by (λ a b, (default 0 (en_answered_at a) <=? default 0 (en_answered_at b))%Z) l.
Definition get_unprocessed_answered_requests (limit : nat) t : list HITLRequestEntity :=
  take limit (answered_first (rows (has_status ANSWERED) t)).
Definition get_stale_processing_requests (before : Z) (limit : nat) t : list HITLRequestEntity :=
  filter (λ e, is_processing_lease_stale before e = true)
    (take limit (answered_first (rows (has_status PROCESSING) t))).
End store.

(** * Histories of a table *)

Inductive store_op : Type :=
  | OCreate (e : HITLRequestEntity)
  | OAnswer (now : Z) (rid response : string) (m : option dict)
  | OAnswerV2 (now : Z) (rid response : string) (m : option dict) (revision : Z) (key digest : string)
  | OReopen (rid : string)
  | OTimeout (rid : string) (default_response : option string)
  | OCancel (rid : string)
  | OComplete (rid : string) (owner : option string)
  | OClaim (now : Z) (rid : string) (owner : option string)
  | ORefresh (now : Z) (rid : string) (owner : option string)
  | ORevert (rid : string) (before : option Z) (owner : option string)
  | ODelete (rid : string)
  | OExpire (before : Z).
Definition succeeded (r : table * option HITLRequestEntity) : table * bool := (r.1, bool_decide (is_Some r.2)).
(** The table after a call, and whether the call did something. *)
Definition apply_op (op : store_op) (t : table) : table * bool :=
  match op with
  | OCreate e => match create e t with Some t' => (t', true) | None => (t, false) end
  | OAnswer now rid r m => succeeded (update_response now rid r m t)
  | OAnswerV2 now rid r m v k d =>
      match claim_response_v2 now rid r m v k d t with Ok x => succeeded x | Err _ => (t, false) end
  | OReopen rid => succeeded (reopen_pending rid t)
  | OTimeout rid d => succeeded (mark_row_timeout rid d t)
  | OCancel rid => succeeded (mark_cancelled rid t)
  | OComplete rid o => succeeded (mark_row_completed rid o t)
  | OClaim now rid o => succeeded (claim_for_processing now rid o t)
  | ORefresh now rid o => succeeded (refresh_processing_lease now rid o t)
  | ORevert rid b o => succeeded (revert_to_answered rid b o t)
  | ODelete rid => delete rid t
  | OExpire b => prod_map id (λ n, negb (n =? 0)) (mark_expired_requests b t)
  end.
Definition run_ops (l : list store_op) (t : table) : table := foldl (λ t op, (apply_op op t).1) t l.

(** Calls of several sessions, with heartbeats in flight between their two
    steps. *)
Record sys : Type := mkSys { sys_table : table; in_flight : list heartbeat }.
Inductive sys_op : Type :=
  | SCall (op : store_op)
  | SRead (now : Z) (rid : string) (owner : option string)
  | SFlush (i : nat).
Definition sys_step (o : sys_op) (s : sys) : sys * bool :=
  match o with
  | SCall op => let '(t, b) := apply_op op (sys_table s) in (mkSys t (in_flight s), b)
  | SRead now rid owner =>
      match refresh_read now rid owner (sys_table s) with
      | Some hb => (mkSys (sys_table s) (in_flight s ++ [hb]), true)
      | None => (s, false)
      end
  | SFlush i =>
      match in_flight s !! i with
      | Some hb => let '(t, r) := refresh_flush hb (sys_table s) in
                   (mkSys t (base.delete i (in_flight s)), bool_decide (is_Some r))
      | None => (s, false)
      end
  end.
Definition run_sys (l : list sys_op) (s : sys) : sys := foldl (λ s o, (sys_step o s).1) s l.

(** The status changes of the class's documentation, and three that it does
    not list: an answer that is completed without being claimed, taken back
    ([reopen_pending]) or released ([revert_to_answered]). *)
Definition documented (s s' : HITLRequestStatus) : bool :=
  match s, s' with
  | PENDING, (ANSWERED | TIMEOUT | CANCELLED) | ANSWERED, PROCESSING | PROCESSING, COMPLETED => true
  | _, _ => false
  end.
Definition status_edge (s s' : HITLRequestStatus) : bool :=
  documented s s' ||
  match s, s' with ANSWERED, (COMPLETED | PENDING) | PROCESSING, ANSWERED => true | _, _ => false end.
(** What no operation changes. *)
Definition same_request (e e' : HITLRequestEntity) : Prop :=
  with_answer PENDING None None None e = with_answer PENDING None None None e'.
Definition fits (s : HITLRequestStatus) (r : option string) (a : option Z) : bool :=
  match s, r, a with
  | (PENDING | CANCELLED), None, None | TIMEOUT, _, None => true
  | (ANSWERED | PROCESSING | COMPLETED), Some _, Some _ => true
  | _, _, _ => false
  end.
Definition answer_fits (e : HITLRequestEntity) : bool := fits (en_status e) (en_response e) (en_answered_at e).
Definition table_ok (t : table) : Prop :=
  dict_wf t ∧ ∀ rid e, dget rid t = Some e → en_id e = rid ∧ answer_fits e = true.
Definition op_ok (op : store_op) : Prop := match op with OCreate e => answer_fits e = true | _ => True end.
Definition is_terminal (s : HITLRequestStatus) : bool := bool_decide (s ∈ [COMPLETED; TIMEOUT; CANCELLED]).

(** One row over one operation. *)
Definition moved (e e' : HITLRequestEntity) : Prop :=
  same_request e e' ∧
  (e = e' ∨ (en_status e = PROCESSING ∧ en_status e' = PROCESSING ∧ en_response e = en_response e' ∧
             en_answered_at e = en_answered_at e') ∨
   status_edge (en_status e) (en_status e') = true).
Lemma moved_refl e : moved e e.
Proof. split; [done|by left]. Qed.
(** Two rows that stand for one request, the answer of the later fitting. *)
Definition keeps (p : HITLRequestEntity → bool) (f : HITLRequestEntity → HITLRequestEntity) : Prop :=
  ∀ e, p e = true → answer_fits e = true → moved e (f e) ∧ answer_fits (f e) = true.

Lemma moved_id e e' : moved e e' → en_id e = en_id e'.
Proof. intros [H _]. by injection H. Qed.
Lemma dget_update rid rid' p f t : dget rid' (update rid p f t).1 =
  match dget rid' t with
  | Some e => Some (if bool_decide (rid = rid') && p e then f e else e)
  | None => None
  end.
Proof.
  unfold update. destruct (decide (rid = rid')) as [->|Hne].
  - rewrite bool_decide_true by done. destruct (dget rid' t) as [e|] eqn:Hg; [|done].
    simpl. destruct (p e); simpl; [by rewrite dget_dset_eq|done].
  - rewrite bool_decide_false by done. simpl. destruct (dget rid t) as [e|]; simpl; [|by destruct (dget rid' t)].
    destruct (p e); simpl; [rewrite dget_dset_ne by done|]; by destruct (dget rid' t).
Qed.
Lemma update_wf rid p f t : dict_wf t → dict_wf (update rid p f t).1.
Proof. unfold update. intros H. destruct (dget rid t) as [e|]; [|done]. destruct (p e); [by apply dset_wf|done]. Qed.
Lemma refresh_alone now rid o t : refresh_processing_lease now rid o t =
  update rid (λ e, has_status PROCESSING e && may_refresh o e) (leased now o) t.
Proof.
  unfold refresh_processing_lease, refresh_read, update. destruct (dget rid t) as [e|] eqn:He; [|done].
  destruct (has_status PROCESSING e && may_refresh o e); [|done].
  unfold refresh_flush, update. simpl. by rewrite He.
Qed.
Lemma update_moves rid p f t rid' e : keeps p f → dget rid' t = Some e → answer_fits e = true →
  ∃ e', dget rid' (update rid p f t).1 = Some e' ∧ moved e e' ∧ answer_fits e' = true.
Proof.
  intros Hk He Hf. rewrite dget_update, He. eexists. split; [done|].
  case_bool_decide; simpl; [|by split; [apply moved_refl|]].
  destruct (p e) eqn:Hp; [by apply Hk|by split; [apply moved_refl|]].
Qed.

Ltac row_change :=
  intros [? ? ? ? ? ? ? ? ? ? ? st rs ? ? ? ans];
  unfold answer_fits, may_complete, may_revert, overdue, has_status; simpl; intros Hp Hf;
  split_bools; subst; destruct rs, ans; simpl in *; try discriminate;
  (split; [split; [done|simpl]|simpl]); first [done | by (right; right) | right; left; by split_and!].
Lemma answer_row_keeps now r m :
  keeps (λ e, has_status PENDING e && unexpired now e) (with_answer ANSWERED (Some r) m (Some now)).
Proof. row_change. Qed.
Lemma reopen_keeps : keeps (has_status ANSWERED) (with_answer PENDING None None None).
Proof. row_change. Qed.
Lemma timeout_keeps d m :
  keeps (has_status PENDING) (λ e, with_answer TIMEOUT d m (en_answered_at e) e).
Proof. row_change. Qed.
Lemma cancel_row_keeps : keeps (has_status PENDING) (with_status CANCELLED).
Proof. row_change. Qed.
Lemma complete_keeps o : keeps (may_complete o) (settle COMPLETED).
Proof. destruct o; row_change. Qed.
Lemma claim_keeps now o : keeps (has_status ANSWERED) (λ e, with_status PROCESSING (leased now o e)).
Proof. row_change. Qed.
Lemma refresh_keeps now o : keeps (λ e, has_status PROCESSING e && may_refresh o e) (leased now o).
Proof. row_change. Qed.
Lemma revert_keeps b o : keeps (may_revert b o) (settle ANSWERED).
Proof. row_change. Qed.
Lemma expire_keeps b : keeps (overdue b) (with_status TIMEOUT).
Proof. row_change. Qed.

(** One row over one operation, unless it is deleted. *)
Lemma map_rows_dget (f : HITLRequestEntity → HITLRequestEntity) (rid : string) (t : table) :
  dget rid (prod_map id f <$> t) = f <$> dget rid t.
Proof. induction t as [|[k e] t IH]; simpl; [done|]. by case_decide. Qed.
Lemma map_rows_wf (f : HITLRequestEntity → HITLRequestEntity) (t : table) : dict_wf t → dict_wf (prod_map id f <$> t).
Proof. unfold dict_wf, dkeys. by rewrite <-list_fmap_compose. Qed.
Lemma apply_wf op t : dict_wf t → dict_wf (apply_op op t).1.
Proof.
  intros H. destruct op; simpl; rewrite ?refresh_alone; try by apply update_wf.
  - unfold create. destruct (dmem (en_id e) t); simpl; [done|by apply dset_wf].
  - unfold claim_response_v2. destruct (negb _); simpl; [done|].
    destruct (merge_contract _ _ _ _); simpl; [by apply update_wf|done].
  - by apply ddel_wf.
  - by apply map_rows_wf.
Qed.
Definition deletes (rid : string) (op : store_op) : bool :=
  match op with ODelete r => bool_decide (r = rid) | _ => false end.
Lemma apply_moves op t rid e : dget rid t = Some e → answer_fits e = true → deletes rid op = false →
  ∃ e', dget rid (apply_op op t).1 = Some e' ∧ moved e e' ∧ answer_fits e' = true.
Proof.
  intros He Hf Hop. pose proof (moved_refl e) as Hr.
  destruct op; simpl; rewrite ?refresh_alone; try (apply update_moves; [|done|done]).
  - unfold create. destruct (dmem (en_id e0) t) eqn:Hm; simpl; [eauto|].
    rewrite dget_dset_ne; [by eauto|]. intros Heq. unfold dmem in Hm. by rewrite Heq, He in Hm.
  - apply answer_row_keeps.
  - unfold claim_response_v2. destruct (negb _); simpl; [by eauto|].
    destruct (merge_contract _ _ _ _); simpl; [|by eauto]. apply update_moves; [apply answer_row_keeps|done|done].
  - apply reopen_keeps.
  - intros x. apply (timeout_keeps default_response).
  - apply cancel_row_keeps.
  - apply complete_keeps.
  - apply claim_keeps.
  - apply refresh_keeps.
  - apply revert_keeps.
  - simpl in Hop. split_bools. rewrite dget_ddel_ne by done. eauto.
  - rewrite map_rows_dget, He. simpl. eexists. split; [done|].
    destruct (overdue before e) eqn:Ho; [by apply (expire_keeps before)|done].
Qed.
Lemma apply_ok op t : table_ok t → op_ok op → table_ok (apply_op op t).1.
Proof.
  intros [Hwf Ht] Hop. split; [by apply apply_wf|]. intros rid e' He'.
  destruct (dget rid t) as [e|] eqn:He.
  - destruct (Ht _ _ He) as [Hid Hf]. destruct (deletes rid op) eqn:Hne.
    + destruct op; simpl in Hne; try done. split_bools. subst. simpl in He'. by rewrite dget_ddel_eq in He'.
    + destruct (apply_moves op t rid e He Hf Hne) as (x & Hx & Hm & Hfx). simplify_eq.
      split; [symmetry; by apply moved_id|done].
  - destruct op; simpl in He'; rewrite ?refresh_alone in He'; unfold update_response, reopen_pending, mark_row_timeout,
      mark_cancelled, mark_row_completed, claim_for_processing, revert_to_answered in He';
      try (rewrite dget_update, He in He'; discriminate).
    + unfold create in He'. destruct (dmem (en_id e) t); simpl in He'; [congruence|].
      rewrite dget_dset in He'. case_decide; simplify_eq. by split.
    + unfold claim_response_v2 in He'. destruct (negb _); simpl in He'; [congruence|].
      destruct (merge_contract _ _ _ _); simpl in He'; [|congruence].
      unfold update_response in He'. by rewrite dget_update, He in He'.
    + rewrite dget_ddel in He'. case_decide; congruence.
    + by rewrite map_rows_dget, He in He'.
Qed.
Lemma ops_cons op l t : run_ops (op :: l) t = run_ops l (apply_op op t).1.
Proof. done. Qed.
Lemma ops_app l1 l2 t : run_ops (l1 ++ l2) t = run_ops l2 (run_ops l1 t).
Proof. apply foldl_app. Qed.
Lemma ops_ok l t : table_ok t → Forall op_ok l → table_ok (run_ops l t).
Proof.
  intros Ht Hl. revert t Ht. induction Hl as [|op l Hop _ IH]; intros t Ht; [done|].
  rewrite ops_cons. by apply IH, apply_ok.
Qed.
(** Several moves: the statuses follow the edges, and what ended stays as it is. *)
Definition evolved (e e' : HITLRequestEntity) : Prop :=
  same_request e e' ∧ rtc (λ s s', status_edge s s' = true) (en_status e) (en_status e') ∧
  (is_terminal (en_status e) = true → e' = e).
Lemma evolved_refl e : evolved e e.
Proof. split_and!; [done|apply rtc_refl|done]. Qed.
Lemma terminal_no_edge s s' : is_terminal s = true → status_edge s s' = false.
Proof. by destruct s, s'. Qed.
Lemma evolved_step e e' e'' : moved e e' → evolved e' e'' → evolved e e''.
Proof.
  intros [Hs Hm] (Hs' & Hr & Ht). split_and!.
  - unfold same_request in *. by rewrite Hs.
  - destruct Hm as [->|[(H1 & H2 & _)|He]]; [done|by rewrite H1, <-H2|by eapply rtc_l].
  - intros He. destruct Hm as [->|[(H1 & _)|Hm]]; [by apply Ht|by rewrite H1 in He|].
    by rewrite terminal_no_edge in Hm.
Qed.
Lemma run_evolves l t rid e : table_ok t → Forall op_ok l → dget rid t = Some e →
  Forall (λ op, deletes rid op = false) l → ∃ e', dget rid (run_ops l t) = Some e' ∧ evolved e e'.
Proof.
  intros Ht Hl He Hd. revert t e Ht He. induction l as [|op l IH]; intros t e Ht He.
  { exists e. split; [done|apply evolved_refl]. }
  inversion Hl as [|? ? Hop Hl']. inversion Hd as [|? ? Hdo Hd']. subst.
  destruct (apply_moves op t rid e He (proj2 (proj2 Ht _ _ He)) Hdo) as (e1 & He1 & Hm & _).
  destruct (IH Hl' Hd' (apply_op op t).1 e1 (apply_ok _ _ Ht Hop) He1) as (e2 & He2 & Hev).
  exists e2. split; [done|by eapply evolved_step].
Qed.

(** * Who processes an answer *)

Definition held (o : string) (e : HITLRequestEntity) : bool := has_status PROCESSING e && owned_by o e.
(** The calls by which [o], or someone who names no worker, lets go of a claim. *)
Definition gives_up (rid o : string) (op : store_op) : bool :=
  match op with
  | ODelete r => bool_decide (r = rid)
  | OComplete r o' | ORevert r _ o' => bool_decide (r = rid) && bool_decide (o' = None ∨ o' = Some o)
  | _ => false
  end.
(** The calls that would take it away from [o]. *)
Definition takes (rid o : string) (op : store_op) : bool :=
  match op with
  | OClaim _ r _ | OAnswer _ r _ _ | OAnswerV2 _ r _ _ _ _ _ | OReopen r | OTimeout r _ | OCancel r =>
      bool_decide (r = rid)
  | OComplete r (Some o') | ORevert r _ (Some o') | ORefresh _ r (Some o') =>
      bool_decide (r = rid) && negb (bool_decide (o' = o))
  | _ => false
  end.

Lemma owner_merged m now o : o ≠ "" → json_text owner_key (Some (merge_lease m now (Some o))) = Some o.
Proof.
  intros Ho. unfold merge_lease. apply truthy_true in Ho. rewrite Ho. simpl.
  by rewrite dget_dset_eq.
Qed.
Lemma owner_kept m now : json_text owner_key (Some (merge_lease m now None)) = json_text owner_key m.
Proof.
  unfold merge_lease, json_text. simpl.
  assert (Hn : ∀ k v (d : dict), k ≠ owner_key → dget owner_key (dset k v d) = dget owner_key d)
    by (intros; by apply dget_dset_ne).
  destruct (dmem _ _); rewrite ?Hn by done; by destruct m.
Qed.
Lemma held_spec o e : held o e = true ↔
  en_status e = PROCESSING ∧ json_text owner_key (en_response_metadata e) = Some o.
Proof. unfold held, has_status, owned_by. by rewrite andb_true_iff, !bool_decide_eq_true. Qed.
Lemma held_refreshed o now o' e : o ≠ "" → held o e = true → may_refresh o' e = true →
  held o (leased now o' e) = true.
Proof.
  intros Ho [Hs Hw]%held_spec Hm. apply held_spec. split; [done|]. simpl.
  unfold may_refresh, processing_owner in Hm. rewrite Hw in Hm. simpl in Hm.
  rewrite (proj2 (truthy_true o) Ho) in Hm. destruct o' as [o'|].
  - split_bools. subst. by apply owner_merged.
  - exact (eq_trans (owner_kept _ _) Hw).
Qed.
Lemma update_none rid p f t e : dget rid t = Some e → p e = false → (update rid p f t).2 = None.
Proof. unfold update. intros -> Hp. by rewrite Hp. Qed.
Lemma held_update rid rid' p f t e o : dget rid' t = Some e → held o e = true →
  (rid = rid' → p e = true → held o (f e) = true) →
  ∃ e', dget rid' (update rid p f t).1 = Some e' ∧ held o e' = true.
Proof.
  intros He Hh Hf. rewrite dget_update, He. eexists. split; [done|].
  case_bool_decide; simpl; [|done]. destruct (p e) eqn:Hp; [by apply Hf|done].
Qed.
(** The guards a claimed row does not pass. *)
Lemma held_refuses o e : held o e = true →
  has_status PENDING e = false ∧ has_status ANSWERED e = false ∧
  (∀ o', o' ≠ o → may_complete (Some o') e = false) ∧
  (∀ b o', o' ≠ o → may_revert b (Some o') e = false) ∧
  (∀ o', o ≠ "" → o' ≠ o → may_refresh (Some o') e = false).
Proof.
  intros [Hs Hw]%held_spec. unfold has_status, may_complete, may_revert, owned_by, may_refresh, processing_owner.
  rewrite Hw, Hs. simpl. split_and!; try done.
  - intros o' Ho. rewrite bool_decide_false by congruence. apply andb_false_r.
  - intros b o' Ho. rewrite (bool_decide_false (o = o')) by congruence. by rewrite andb_false_r.
  - intros o' Hn Ho. rewrite (proj2 (truthy_true o) Hn). by apply bool_decide_eq_false.
Qed.
Ltac refuse_with H := intros ? ?; exfalso; simpl in *; rewrite ?H in *; simpl in *; congruence.
Lemma held_apply rid o op t e : o ≠ "" → dget rid t = Some e → held o e = true → gives_up rid o op = false →
  ∃ e', dget rid (apply_op op t).1 = Some e' ∧ held o e' = true.
Proof.
  intros Ho He Hh Hg. destruct (held_refuses o e Hh) as (Hp & Ha & Hc & Hr & _).
  destruct op; simpl in Hg |- *; rewrite ?refresh_alone; try (apply (held_update _ _ _ _ _ e); [done|done|]).
  - unfold create. destruct (dmem (en_id e0) t) eqn:Hm; simpl; [by eauto|].
    rewrite dget_dset_ne; [by eauto|]. intros Heq. unfold dmem in Hm. by rewrite Heq, He in Hm.
  - refuse_with Hp.
  - unfold claim_response_v2. destruct (negb _); simpl; [by eauto|].
    destruct (merge_contract _ _ _ _); simpl; [|by eauto].
    apply (held_update _ _ _ _ _ e); [done|done|]. refuse_with Hp.
  - refuse_with Ha.
  - refuse_with Hp.
  - refuse_with Hp.
  - intros -> Hm. rewrite bool_decide_true in Hg by done. destruct owner as [o'|]; [|done].
    rewrite Hc in Hm; [done|]. intros ->. by rewrite bool_decide_true in Hg by auto.
  - refuse_with Ha.
  - intros _ Hm. apply andb_true_iff in Hm as [_ Hm]. by apply held_refreshed.
  - intros -> Hm. rewrite bool_decide_true in Hg by done. destruct owner as [o'|]; [|done].
    rewrite Hr in Hm; [done|]. intros ->. by rewrite bool_decide_true in Hg by auto.
  - split_bools. rewrite dget_ddel_ne by done. eauto.
  - rewrite map_rows_dget, He. simpl. eexists. split; [done|]. unfold overdue. by rewrite Hp.
Qed.
Lemma held_takes rid o op t e : o ≠ "" → dget rid t = Some e → held o e = true → takes rid o op = true →
  (apply_op op t).2 = false.
Proof.
  intros Ho He Hh Ht. destruct (held_refuses o e Hh) as (Hp & Ha & Hc & Hr & Hf).
  assert (Hnone : ∀ p f, p e = false → (succeeded (update rid p f t)).2 = false).
  { intros p f Hpe. simpl. by rewrite (update_none _ _ _ _ _ He Hpe). }
  destruct op; simpl in Ht; try done; try (destruct owner as [o'|]; [|done]); split_bools; subst.
  - apply Hnone. by rewrite Hp.
  - simpl. unfold claim_response_v2. destruct (negb _); simpl; [done|].
    destruct (merge_contract _ _ _ _); simpl; [|done]. apply (Hnone _ (with_answer _ _ _ _)). by rewrite Hp.
  - by apply Hnone.
  - by apply Hnone.
  - by apply Hnone.
  - apply Hnone. by apply Hc.
  - by apply Hnone.
  - cbn [apply_op]. rewrite refresh_alone. apply Hnone. rewrite Hf by done. apply andb_false_r.
  - apply Hnone. by apply Hr.
Qed.

(** ** With heartbeats in flight *)

(** The steps by which [o], or someone who names no worker, lets go of a claim,
    and those that would take it away. *)
Definition lets_go (rid o : string) (s : sys_op) : bool :=
  match s with SCall op => gives_up rid o op | _ => false end.
Definition takes_over (rid o : string) (s : sys_op) : bool :=
  match s with
  | SCall op => takes rid o op
  | SRead _ r (Some o') => bool_decide (r = rid) && negb (bool_decide (o' = o))
  | _ => false
  end.
(** [o] holds the row, and no heartbeat in flight says otherwise. *)
Definition holds (rid o : string) (s : sys) : Prop :=
  (∃ e, dget rid (sys_table s) = Some e ∧ held o e = true) ∧
  ∀ hb, hb ∈ in_flight s → hb_row hb = rid → json_text owner_key (Some (hb_metadata hb)) = Some o.

Lemma run_sys_app l1 l2 s : run_sys (l1 ++ l2) s = run_sys l2 (run_sys l1 s).
Proof. apply foldl_app. Qed.
Lemma flush_held rid o hb t e : dget rid t = Some e → held o e = true →
  (hb_row hb = rid → json_text owner_key (Some (hb_metadata hb)) = Some o) →
  ∃ e', dget rid (refresh_flush hb t).1 = Some e' ∧ held o e' = true.
Proof.
  intros He Hh Hm. apply (held_update _ _ _ _ _ e); [done..|]. intros Hr _. apply held_spec.
  apply held_spec in Hh as [Hs _]. split; [done|]. by apply Hm.
Qed.
Lemma holds_step rid o op s : o ≠ "" → holds rid o s → lets_go rid o op = false → holds rid o (sys_step op s).1.
Proof.
  intros Ho [(e & He & Hh) Hfl] Hg. destruct op as [op|now r owner|i]; simpl in Hg |- *.
  - destruct (held_apply rid o op _ e Ho He Hh Hg) as (e' & He' & Hh').
    destruct (apply_op op (sys_table s)) as [t b]. split; [by exists e'|done].
  - unfold refresh_read. destruct (dget r (sys_table s)) as [e1|] eqn:He1; [|by split; [exists e|]].
    destruct (has_status PROCESSING e1 && may_refresh owner e1) eqn:Hm; [|by split; [exists e|]].
    split; [by exists e|]. simpl. intros hb [Hin|Hin]%elem_of_app Hr; [by apply Hfl|].
    apply list_elem_of_singleton in Hin as ->. simpl in Hr. subst r. rewrite He in He1. injection He1 as <-. apply andb_true_iff in Hm as [_ Hm].
    pose proof (held_refreshed o now owner e Ho Hh Hm) as Hx. by apply held_spec in Hx as [_ Hx].
  - destruct (in_flight s !! i) as [hb|] eqn:Hi; [|by split; [exists e|]].
    destruct (flush_held rid o hb (sys_table s) e He Hh) as (e' & He' & Hh').
    { intros Hr. apply Hfl; [by eapply list_elem_of_lookup_2|done]. }
    destruct (refresh_flush hb (sys_table s)) as [t r]. split; [by exists e'|]. simpl. intros hb' Hin Hr.
    apply Hfl; [|done]. by eapply elem_of_sublist; [|apply sublist_delete].
Qed.
Lemma holds_run rid o l s : o ≠ "" → holds rid o s → Forall (λ op, lets_go rid o op = false) l → holds rid o (run_sys l s).
Proof.
  intros Ho Hs Hl. revert s Hs. induction Hl as [|op l Hop _ IH]; intros s Hs; [done|]. by apply IH, holds_step.
Qed.
Lemma holds_takes rid o op s : o ≠ "" → holds rid o s → takes_over rid o op = true → (sys_step op s).2 = false.
Proof.
  intros Ho [(e & He & Hh) _] Ht. destruct op as [op|now r owner|i]; simpl in Ht |- *; [| |done].
  - pose proof (held_takes rid o op _ e Ho He Hh Ht) as H. by destruct (apply_op op (sys_table s)).
  - destruct owner as [o'|]; [|done]. split_bools. subst r. unfold refresh_read. rewrite He.
    destruct (held_refuses o e Hh) as (_ & _ & _ & _ & Hf). by rewrite Hf, andb_false_r.
Qed.


(** C12. Once a worker has claimed an answered request, and until it - or a call
    that names no worker - completes, releases or deletes it, the request stays
    its own, provided that no heartbeat of the request was in flight at the
    claim: every other claim, answer, reopening, timeout or cancellation of
    the request, and every completion, release or heartbeat by another worker,
    in whatever order they come and with the reads and the flushes of
    heartbeats apart, does nothing.  The flush of a heartbeat is not guarded:
    one that another worker's heartbeat read before the claim takes the
    request away, so that its holder can no longer complete or release it and
    the other worker can. *)
Theorem claim_exclusive rid o : o ≠ "" →
  (∀ now s l, let claim := SCall (OClaim now rid (Some o)) in let s1 := (sys_step claim s).1 in
    (sys_step claim s).2 = true → Forall (λ h, hb_row h ≠ rid) (in_flight s) →
    Forall (λ op, lets_go rid o op = false) l →
    (∃ e, dget rid (sys_table (run_sys l s1)) = Some e ∧ held o e = true) ∧
    ∀ l1 op l2, l = l1 ++ op :: l2 → takes_over rid o op = true → (sys_step op (run_sys l1 s1)).2 = false) ∧
  (∀ s e i hb o', dget rid (sys_table s) = Some e → held o e = true →
    in_flight s !! i = Some hb → hb_row hb = rid →
    json_text owner_key (Some (hb_metadata hb)) = Some o' → o' ≠ o →
    let s' := (sys_step (SFlush i) s).1 in
    (∃ e', dget rid (sys_table s') = Some e' ∧ held o' e' = true) ∧
    (sys_step (SCall (OComplete rid (Some o))) s').2 = false ∧
    (∀ b, (sys_step (SCall (ORevert rid b (Some o))) s').2 = false) ∧
    (sys_step (SCall (OComplete rid (Some o'))) s').2 = true).
Proof.
  intros Ho. split.
  - intros now s l claim s1 Hc Hfl Hl.
    assert (holds rid o s1) as Hs1.
    { subst s1 claim. simpl in Hc |- *. unfold claim_for_processing in *.
      unfold update in Hc. destruct (dget rid (sys_table s)) as [e|] eqn:He; [|done].
      destruct (has_status ANSWERED e) eqn:Ha; [|done]. split.
      - simpl. rewrite dget_update, He, Ha, bool_decide_true by done. eexists. split; [done|].
        apply held_spec. split; [done|]. by apply owner_merged.
      - simpl. intros hb Hin Hr. by destruct (proj1 (Forall_forall _ _) Hfl hb Hin). }
    split; [by apply holds_run|]. intros l1 op l2 -> Ht. apply Forall_app in Hl as [Hl _].
    apply (holds_takes rid o); [done|by apply holds_run|done].
  - intros s e i hb o' He Hh Hi Hr Hm Hne s'. apply held_spec in Hh as [Hst _].
    assert (dget rid (sys_table s') = Some (with_response_metadata (Some (hb_metadata hb)) e)) as He'.
    { subst s'. simpl. rewrite Hi. unfold refresh_flush. subst rid. unfold update. rewrite He. simpl. by rewrite dget_dset_eq. }
    assert (held o' (with_response_metadata (Some (hb_metadata hb)) e) = true) as Hh' by (by apply held_spec).
    destruct (held_refuses _ _ Hh') as (_ & _ & Hc & Hv & _).
    split_and!; [eauto| | |].
    + simpl. unfold mark_row_completed, update. rewrite He', Hc by done. done.
    + intros b. simpl. unfold revert_to_answered, update. rewrite He', Hv by done. done.
    + simpl. unfold mark_row_completed, update. rewrite He'. unfold may_complete, held in *. by rewrite Hh'.
Qed.

(** The receipt that was attached is the one that is read. *)
Lemma contract_round_trip m r k d m' : merge_contract m r k d = Ok m' →
  read_contract (Some m') = Some (mkReceipt CONTRACT_VERSION PENDING_AUTHORITY_REVISION k d).
Proof.
  unfold merge_contract. destruct (Z.eqb_spec r PENDING_AUTHORITY_REVISION) as [->|]; [simpl|done].
  destruct (valid_key k) eqn:Hk; [simpl|done]. destruct (valid_digest d) eqn:Hd; [simpl|done].
  intros [= <-]. unfold read_contract. simpl default. rewrite dget_dset_eq.
  transitivity (if valid_key k && valid_digest d then Some (mkReceipt CONTRACT_VERSION PENDING_AUTHORITY_REVISION k d)
                else None); [reflexivity|by rewrite Hk, Hd].
Qed.

Definition sample_row : HITLRequestEntity :=
  mkEntity "r1" CLARIFICATION "c" "t" "p" (PStr "Which one?") None None (PList []) (PDict []) None PENDING None
    None 1000000 (Some 301000000%Z) None.
Lemma sample_table_ok : table_ok [("r1", sample_row)].
Proof.
  split; [vm_decide|]. intros rid e He. simpl in He. case_decide; [|done]. simplify_eq. by split; [|vm_compute].
Qed.
Definition sample_ops : list store_op :=
  [OAnswer 2000000 "r1" "left" None; OClaim 3000000 "r1" (Some "w1"); OClaim 3500000 "r1" (Some "w2");
   ORevert "r1" None (Some "w1"); OClaim 4000000 "r1" (Some "w2"); OComplete "r1" (Some "w1");
   OComplete "r1" (Some "w2"); OReopen "r1"].
Definition answered_table : table := run_ops (take 1 sample_ops) [("r1", sample_row)].
(** A heartbeat of the first worker is read before its lease runs out and its
    request goes to the second, and flushed after. *)
Definition late_heartbeat : list sys_op :=
  [SCall (OClaim 3000000 "r1" (Some "w1")); SRead 3100000 "r1" (Some "w1"); SCall (ORevert "r1" None None);
   SCall (OClaim 3500000 "r1" (Some "w2"))].
Lemma claim_exclusive_witness :
  (sys_step (SCall (OClaim 3500000 "r1" (Some "w2")))
     (sys_step (SCall (OClaim 3000000 "r1" (Some "w1"))) (mkSys answered_table [])).1).2 = false ∧
  let s := run_sys late_heartbeat (mkSys answered_table []) in
  (sys_step (SCall (OComplete "r1" (Some "w2"))) s).2 = true ∧
  (sys_step (SCall (OComplete "r1" (Some "w2"))) (sys_step (SFlush 0) s).1).2 = false.
Proof.
  assert (Hw1 : "w1" ≠ "") by done. assert (Hw2 : "w2" ≠ "") by done.
  destruct (claim_exclusive "r1" "w1" Hw1) as [H1 _]. destruct (claim_exclusive "r1" "w2" Hw2) as [_ H2]. split.
  - specialize (H1 3000000%Z (mkSys answered_table []) [SCall (OClaim 3500000 "r1" (Some "w2"))]).
    destruct H1 as [_ H1]; [by vm_compute|constructor|by repeat constructor|].
    apply (H1 [] _ []); [done|by vm_compute].
  - split; [by vm_compute|].
    set (s := run_sys late_heartbeat (mkSys answered_table [])).
    destruct (dget "r1" (sys_table s)) as [e|] eqn:He; [|by vm_compute in He].
    destruct (in_flight s) as [|hb l] eqn:Hf; [by vm_compute in Hf|].
    destruct (H2 s e 0 hb "w1") as (_ & H & _); [exact He| |by rewrite Hf| | |done|exact H].
    + vm_compute in He. injection He as <-. by vm_compute.
    + vm_compute in Hf. by injection Hf as <- _.
    + vm_compute in Hf. injection Hf as <- _. by vm_compute.
Defined.
