(* ===== verification/HitlCoordinator.v ===== *)
(** The coordinator of questions to the user: futures that tools wait on, and
    the answers that are routed to them.

    Source: src/src/infrastructure/agent/hitl/coordinator.py, over the table
    of HitlStore.v and the request types of HitlTypes.v.  Futures and
    coordinators are objects, named by their place in a store; coroutines are
    cut at their awaits, and a call that runs on is an entry of [waits],
    [prepares] or [completions].  Each database call is one step, which may
    fail.  The creation of environment-variable requests and [unescape] are
    parameters. *)

From S2P Require Import Prelude Json HitlTypes HitlStore.

Open Scope string_scope.
Open Scope list_scope.
Open Scope nat_scope.

(** * State *)

Inductive future : Type := FPending | FResult (v : pyval) | FCancelled.
Definition fdone (f : future) : bool := match f with FPending => false | _ => true end.
(** [_PendingHITLRequest] *)
Record pending_request : Type := mkPending { p_future : nat; p_completion : nat; p_request : HITLRequest }.
Inductive ResolveResult : Set := RESOLVED | NOT_FOUND | REJECTED.
#[export] Instance ResolveResult_eq_dec : EqDecision ResolveResult.
Proof. solve_decision. Defined.

Record coordinator : Type := mkCoordinator {
  c_conversation : string;
  c_tenant : string;
  c_project : string;
  c_message : option string;
  c_timeout : Z;
  c_pending : list (string * pending_request) }.

Inductive wait_state : Type :=
  | Waiting                                    (** on the future *)
  | TimingOut                                  (** on the database, after the timeout *)
  | Finished (r : result hitl_error pyval).
Record wait : Type := mkWait {
  w_coord : nat; w_request : string; w_type : HITLType.t; w_future : nat; w_state : wait_state }.
Inductive prepare_state : Type :=
  | Persisting (e : HITLRequestEntity)
  | Prepared (r : result hitl_error string).
Record prepare : Type := mkPrepare { pr_coord : nat; pr_request : string; pr_state : prepare_state }.
(** A [wait_for_completion], and whether it has returned. *)
Record completion : Type := mkCompletion { cw_future : nat; cw_returned : bool }.

Record world : Type := mkWorld {
  futures : list future;
  coords : list coordinator;
  registry : list (string * nat);
  stored : list (string * HITLRequestEntity);
  prepares : list prepare;
  waits : list wait;
  completions : list completion }.

Section coordinator.
Context (unescape : string → string).
Context (create_env_var : Z → string → string → Z → scope → dict → result hitl_error HITLRequest).
Implicit Types (w : world) (rid : string) (ci : nat).

Definition set_futures (l : list future) w : world :=
  mkWorld l (coords w) (registry w) (stored w) (prepares w) (waits w) (completions w).
Definition set_coords (l : list coordinator) w : world :=
  mkWorld (futures w) l (registry w) (stored w) (prepares w) (waits w) (completions w).
Definition set_registry (l : list (string * nat)) w : world :=
  mkWorld (futures w) (coords w) l (stored w) (prepares w) (waits w) (completions w).
Definition set_stored (l : list (string * HITLRequestEntity)) w : world :=
  mkWorld (futures w) (coords w) (registry w) l (prepares w) (waits w) (completions w).
Definition set_prepares (l : list prepare) w : world :=
  mkWorld (futures w) (coords w) (registry w) (stored w) l (waits w) (completions w).
Definition set_waits (l : list wait) w : world :=
  mkWorld (futures w) (coords w) (registry w) (stored w) (prepares w) l (completions w).
Definition set_completions (l : list completion) w : world :=
  mkWorld (futures w) (coords w) (registry w) (stored w) (prepares w) (waits w) l.
Definition with_pending (d : list (string * pending_request)) (c : coordinator) : coordinator :=
  mkCoordinator (c_conversation c) (c_tenant c) (c_project c) (c_message c) (c_timeout c) d.
Definition set_pending ci (d : list (string * pending_request)) w : world :=
  set_coords (alter (with_pending d) ci (coords w)) w.
Definition pending_of ci w : list (string * pending_request) :=
  match coords w !! ci with Some c => c_pending c | None => [] end.
(** [set_result] and [cancel] of a future that is not done *)
Definition settle_future (f : nat) (x : future) w : world :=
  match futures w !! f with
  | Some FPending => set_futures (<[f := x]> (futures w)) w
  | _ => w
  end.
Definition is_done (f : nat) w : bool := match futures w !! f with Some x => fdone x | None => true end.

Definition register_coordinator rid ci w : world := set_registry (dset rid ci (registry w)) w.
Definition unregister_coordinator rid w : world := set_registry (ddel rid (registry w)) w.
(** [_cleanup_pending_request] *)
Definition cleanup ci rid w : world :=
  unregister_coordinator rid (set_pending ci (ddel rid (pending_of ci w)) w).

(** * Asking *)

Definition create_request (ty : HITLType.t) (now : Z) (fresh conv : string) (timeout : Z) (sc : scope) (d : dict)
    : result hitl_error HITLRequest :=
  match ty with
  | HITLType.CLARIFICATION => create_clarification unescape now fresh conv timeout sc d None
  | HITLType.DECISION => create_decision unescape now fresh conv timeout sc d
  | HITLType.ENV_VAR => create_env_var now fresh conv timeout sc d
  | HITLType.PERMISSION => create_permission unescape now fresh conv timeout sc d
  | HITLType.A2UI_ACTION => create_a2ui now fresh conv timeout sc d
  end.
(** [timeout_seconds or self.default_timeout] *)
Definition timeout_or (t : option Z) (c : coordinator) : Z :=
  match t with Some x => if (x =? 0)%Z then c_timeout c else x | None => c_timeout c end.
Definition type_mapping : list (string * HITLRequestType) :=
  [("clarification", CLARIFICATION); ("decision", DECISION); ("env_var", ENV_VAR); ("a2ui_action", A2UI_ACTION)].
Definition persisted_question (ty : HITLType.t) (d : dict) : pyval :=
  let q := get "question" (PStr "") d in
  if negb (py_truth q) && bool_decide (HITLType.value ty = "env_var")
  then let m := get "message" PNone d in
       if py_truth m then m else PStr "Please provide environment variables"
  else q.
(** The entity [_persist_hitl_request] builds. *)
Definition persisted_entity rid (ty : HITLType.t) (c : coordinator) (timeout : Z) (d : dict) (now : Z)
    : result string HITLRequestEntity :=
  validated (mkEntity rid (default CLARIFICATION (dget (HITLType.value ty) type_mapping))
    (c_conversation c) (c_tenant c) (c_project c) (persisted_question ty d) (c_message c) None
    (get "options" (PList []) d) (get "context" (PDict []) d)
    (Some (("hitl_type", PStr (HITLType.value ty)) ::
           filter (λ kv, kv.1 ∉ ["question"; "options"; "context"]) d))
    PENDING None None now (Some (now + timeout)%Z) None).
Definition add_prepare ci rid (s : prepare_state) w : world :=
  set_prepares (prepares w ++ [mkPrepare ci rid s]) w.
(** [prepare_request], up to its await on the database.  A request that cannot
    be an entity is taken back before. *)
Definition prepare_request ci (ty : HITLType.t) (d : dict) (timeout_seconds : option Z) (now : Z) (fresh : string)
    w : option world :=
  c ← coords w !! ci;
  let timeout := timeout_or timeout_seconds c in
  Some match create_request ty now fresh (c_conversation c) timeout
               (mkScope (Some (c_tenant c)) (Some (c_project c)) (c_message c)) d with
  | Err e => add_prepare ci fresh (Prepared (Err e)) w
  | Ok r =>
      let rid := request_id r in
      let n := length (futures w) in
      let w1 := set_futures (futures w ++ [FPending; FPending]) w in
      let w2 := register_coordinator rid ci (set_pending ci (dset rid (mkPending n (S n) r) (c_pending c)) w1) in
      match persisted_entity rid ty c timeout (type_specific_data r) now with
      | Err _ => add_prepare ci rid (Prepared (Err ValueError)) (cleanup ci rid w2)
      | Ok e => add_prepare ci rid (Persisting e) w2
      end
  end.
Definition set_prepare (i : nat) (s : prepare_state) w : world :=
  set_prepares (alter (λ p, mkPrepare (pr_coord p) (pr_request p) s) i (prepares w)) w.
(** The end of the insertion; [up]: the database does what it is asked. *)
Definition persist_end (i : nat) (up : bool) w : option world :=
  p ← prepares w !! i;
  match pr_state p with
  | Persisting e =>
      let fail := set_prepare i (Prepared (Err DatabaseError)) (cleanup (pr_coord p) (pr_request p) w) in
      Some (if up then
              match create e (stored w) with
              | Some t => set_prepare i (Prepared (Ok (pr_request p))) (set_stored t w)
              | None => fail
              end
            else fail)
  | Prepared _ => None
  end.
(** [CancelledError] is no [Exception]: nothing is taken back. *)
Definition persist_cancelled (i : nat) w : option world :=
  p ← prepares w !! i;
  match pr_state p with
  | Persisting _ => Some (set_prepare i (Prepared (Err CancelledError)) w)
  | Prepared _ => None
  end.

(** * Waiting *)

(** [_type_default] *)
Definition type_default (ty : HITLType.t) : pyval :=
  match ty with
  | HITLType.CLARIFICATION | HITLType.DECISION => PStr ""
  | HITLType.ENV_VAR => PDict []
  | HITLType.PERMISSION => PBool false
  | HITLType.A2UI_ACTION => PDict [("action_name", PStr ""); ("cancelled", PBool true)]
  end.
Definition is_env (ty : HITLType.t) : bool := bool_decide (ty = HITLType.ENV_VAR).
(** What [wait_for_response] makes of a dictionary. *)
Definition read_answer (ty : HITLType.t) (d : dict) : result hitl_error pyval :=
  if py_truth (get "timeout" PNone d) then if is_env ty then Ok (PDict d) else Err TimeoutError
  else if py_truth (get "cancelled" PNone d) then Ok (if is_env ty then PDict d else type_default ty)
  else if is_env ty then Ok (PDict [("values", extract_response_value unescape ty (PDict d))])
  else Ok (extract_response_value unescape ty (PDict d)).
(** A text is read as JSON, and handed on as it is where it is none. *)
Definition read_response (ty : HITLType.t) (v : pyval) : result hitl_error pyval :=
  match v with
  | PDict d => read_answer ty d
  | PStr s =>
      match json_loads s with
      | None => Ok v
      | Some (PDict d) => read_answer ty d
      | Some _ => Err AttributeError
      end
  | _ => Err AttributeError
  end.
(** [wait_for_response], up to its await on the future *)
Definition wait_for_response ci rid (ty : HITLType.t) w : option world :=
  c ← coords w !! ci;
  Some (set_waits (waits w ++ [match dget rid (c_pending c) with
                               | Some p => mkWait ci rid ty (p_future p) Waiting
                               | None => mkWait ci rid ty 0 (Finished (Err ValueError))
                               end]) w).
Definition set_wait (i : nat) (s : wait_state) w : world :=
  set_waits (alter (λ x, mkWait (w_coord x) (w_request x) (w_type x) (w_future x) s) i (waits w)) w.
(** A waiting call, and its future. *)
Definition waiting (i : nat) w : option (wait * future) :=
  x ← waits w !! i;
  match w_state x with Waiting => f ← futures w !! w_future x; Some (x, f) | _ => None end.
Definition wait_resume (i : nat) w : option world :=
  '(x, f) ← waiting i w;
  match f with
  | FPending => None
  | FResult v => Some (set_wait i (Finished (read_response (w_type x) v)) w)
  | FCancelled => Some (set_wait i (Finished (Err CancelledError)) w)
  end.
(** The timeout of [asyncio.wait_for]: the future is cancelled, and the call goes
    on to record it.  It may also overtake an answer that was not read yet. *)
Definition wait_timeout (i : nat) w : option world :=
  '(x, f) ← waiting i w;
  Some (set_wait i TimingOut (settle_future (w_future x) FCancelled w)).
(** [mark_hitl_request_timeout] has returned or raised. *)
Definition timeout_recorded (i : nat) (up : bool) w : option world :=
  x ← waits w !! i;
  match w_state x with
  | TimingOut =>
      Some (if up
            then set_wait i (Finished (Err TimeoutError))
                   (cleanup (w_coord x) (w_request x)
                      (set_stored (mark_row_timeout (w_request x) None (stored w)).1 w))
            else set_wait i (Finished (Err DatabaseError)) w)
  | _ => None
  end.
(** The waiting task is cancelled. *)
Definition wait_cancelled (i : nat) w : option world :=
  '(x, f) ← waiting i w;
  Some (set_wait i (Finished (Err CancelledError)) (settle_future (w_future x) FCancelled w)).

(** * Answering *)

(** [_normalize_binding_value] *)
Definition normalize_binding_value (o : option string) : option string := if truthy_opt o then o else None.
Record binding : Type := mkBinding {
  b_tenant : option string; b_project : option string; b_conversation : option string; b_message : option string }.
Definition request_binding (r : HITLRequest) : binding :=
  mkBinding (tenant_id r) (project_id r) (Some (conversation_id r)) (message_id r).
(** One key of [_matches_request_binding] *)
Definition binding_key_matches (strict : bool) (expected received : option string) : bool :=
  match normalize_binding_value expected, normalize_binding_value received with
  | Some e, Some r => bool_decide (e = r)
  | Some _, None => negb strict
  | None, Some _ => false
  | None, None => true
  end.
Definition matches_request_binding (strict : bool) (r : HITLRequest) (b : binding) : bool :=
  let e := request_binding r in
  binding_key_matches strict (b_tenant e) (b_tenant b) && binding_key_matches strict (b_project e) (b_project b) &&
  binding_key_matches strict (b_conversation e) (b_conversation b) &&
  binding_key_matches strict (b_message e) (b_message b).
(** An answer that may be delivered for a request. *)
Definition acceptable (r : HITLRequest) (v : pyval) (b : binding) : result hitl_error bool :=
  match v with
  | PDict d => if matches_request_binding true r b then matches_request_semantics r d else Ok false
  | _ => Ok false
  end.
Definition resolve ci rid (v : pyval) (b : binding) w : world * result hitl_error ResolveResult :=
  match dget rid (pending_of ci w) with
  | None => (w, Ok NOT_FOUND)
  | Some p =>
      if is_done (p_future p) w
      then (w, Ok (if is_done (p_completion p) w then REJECTED else RESOLVED))
      else
        match acceptable (p_request p) v b with
        | Ok true => (settle_future (p_future p) (FResult v) w, Ok RESOLVED)
        | Ok false => (w, Ok REJECTED)
        | Err e => (w, Err e)
        end
  end.
Definition resolve_by_request_id rid (v : pyval) (b : binding) w : world * result hitl_error ResolveResult :=
  match dget rid (registry w) with Some ci => resolve ci rid v b w | None => (w, Ok NOT_FOUND) end.
(** [validate_hitl_response], whose request is rebuilt from what was stored *)
Definition validate_hitl_response (rebuilt : result hitl_error HITLRequest) (v : pyval) (b : binding)
    : result hitl_error (option string) :=
  match v with
  | PDict d =>
      match rebuilt with
      | Err _ => Ok (Some "Rejected HITL response with invalid stored request state")
      | Ok r =>
          if negb (matches_request_binding true r b) then Ok (Some "Rejected HITL response due to binding mismatch")
          else
            ok ← matches_request_semantics r d;
            mret (if (ok : bool) then None else Some "Rejected invalid HITL response semantics")
      end
  | _ => Ok (Some "Rejected non-dict HITL response")
  end.

(** * Letting go *)

(** [complete_request], when [mark_hitl_request_completed] has returned *)
Definition complete_request ci rid w : world :=
  let w1 := cleanup ci rid (set_stored (mark_row_completed rid None (stored w)).1 w) in
  match dget rid (pending_of ci w) with
  | Some p => settle_future (p_completion p) (FResult PNone) w1
  | None => w1
  end.
(** [complete_hitl_request] *)
Definition complete_hitl_request rid (lease_owner : option string) w : world :=
  match dget rid (registry w) with
  | Some ci => complete_request ci rid w
  | None => set_stored (mark_row_completed rid lease_owner (stored w)).1 w
  end.
Definition cancel_request_if_pending ci (rid : option string) w : world :=
  match rid with
  | Some r =>
      if truthy r then
        match dget r (pending_of ci w) with
        | Some p => settle_future (p_completion p) (FResult PNone) (settle_future (p_future p) FCancelled (cleanup ci r w))
        | None => cleanup ci r w
        end
      else w
  | None => w
  end.
Definition cancelled_answer (reason : string) : pyval :=
  PDict [("cancelled", PBool true); ("reason", PStr reason)].
Definition settle_entry (reason : string) w (p : pending_request) : world :=
  settle_future (p_completion p) (FResult PNone) (settle_future (p_future p) (FResult (cancelled_answer reason)) w).
Definition cancel_all ci (reason : string) w : world :=
  let d := pending_of ci w in
  let w1 := foldl (settle_entry reason) w (dvals d) in
  foldl (λ w rid, unregister_coordinator rid w) (set_pending ci [] w1) (dkeys d).
(** [get_request_data] *)
Definition get_request_data ci rid w : option dict :=
  (λ p, [("request_id", PStr rid); ("conversation_id", PStr (conversation_id (p_request p)));
         ("message_id", opt_str (message_id (p_request p))); ("tenant_id", opt_str (tenant_id (p_request p)));
         ("project_id", opt_str (project_id (p_request p)))]) <$> dget rid (pending_of ci w).

(** [wait_for_request_completion], up to its await; it returns at once where
    nothing is pending. *)
Definition wait_for_request_completion rid w : world :=
  match (ci ← dget rid (registry w); dget rid (pending_of ci w)) with
  | Some p => set_completions (completions w ++ [mkCompletion (p_completion p) false]) w
  | None => w
  end.
Definition return_completion (i : nat) w : world :=
  set_completions (alter (λ c, mkCompletion (cw_future c) true) i (completions w)) w.
Definition completion_resume (i : nat) w : option world :=
  c ← completions w !! i;
  if negb (cw_returned c) && is_done (cw_future c) w then Some (return_completion i w) else None.
(** With a timeout, which cancels the future. *)
Definition completion_timeout (i : nat) w : option world :=
  c ← completions w !! i;
  if cw_returned c then None else Some (return_completion i (settle_future (cw_future c) FCancelled w)).

(** * Interleavings *)

Inductive call : Type :=
  | Prepare (ci : nat) (ty : HITLType.t) (d : dict) (timeout : option Z) (now : Z) (fresh : string)
  | PersistEnd (i : nat) (up : bool)
  | PersistCancelled (i : nat)
  | Wait (ci : nat) (rid : string) (ty : HITLType.t)
  | WaitResume (i : nat)
  | WaitTimeout (i : nat)
  | TimeoutRecorded (i : nat) (up : bool)
  | WaitCancelled (i : nat)
  | Resolve (rid : string) (v : pyval) (b : binding)
  | Complete (rid : string) (owner : option string)
  | CancelRequest (ci : nat) (rid : option string)
  | CancelAll (ci : nat) (reason : string)
  | AwaitCompletion (rid : string)
  | CompletionResume (i : nat)
  | CompletionTimeout (i : nat)
  | Store (op : store_op).
(** [None]: the call cannot take place. *)
Definition step (c : call) w : option world :=
  match c with
  | Prepare ci ty d timeout now fresh => prepare_request ci ty d timeout now fresh w
  | PersistEnd i up => persist_end i up w
  | PersistCancelled i => persist_cancelled i w
  | Wait ci rid ty => wait_for_response ci rid ty w
  | WaitResume i => wait_resume i w
  | WaitTimeout i => wait_timeout i w
  | TimeoutRecorded i up => timeout_recorded i up w
  | WaitCancelled i => wait_cancelled i w
  | Resolve rid v b => Some (resolve_by_request_id rid v b w).1
  | Complete rid owner => Some (complete_hitl_request rid owner w)
  | CancelRequest ci rid => Some (cancel_request_if_pending ci rid w)
  | CancelAll ci reason => Some (cancel_all ci reason w)
  | AwaitCompletion rid => Some (wait_for_request_completion rid w)
  | CompletionResume i => completion_resume i w
  | CompletionTimeout i => completion_timeout i w
  | Store op => Some (set_stored (apply_op op (stored w)).1 w)
  end.
Fixpoint run (l : list call) w : option world :=
  match l with [] => Some w | c :: l' => w' ← step c w; run l' w' end.
End coordinator.

Definition new_coordinator (conv tenant project : string) (message : option string) (timeout : Z) : coordinator :=
  mkCoordinator conv tenant project message timeout [].
Definition new_world (cs : list coordinator) (t : list (string * HITLRequestEntity)) : world :=
  mkWorld [] cs [] t [] [] [].
