(* ===== verification/HitlSafety.v ===== *)
(** What the coordinator of questions promises, in every interleaving of
    tools, answers, timeouts and database calls; and what it does not.

    Source: src/src/infrastructure/agent/hitl/coordinator.py, the model of
    HitlCoordinator.v. *)

From S2P Require Import Prelude HitlTypes HitlStore HitlCoordinator.

Open Scope string_scope.
Open Scope list_scope.
Open Scope nat_scope.

Lemma elem_of_alter {A} (g : A → A) i (l : list A) x : x ∈ alter g i l →
  x ∈ l ∨ ∃ y, l !! i = Some y ∧ x = g y.
Proof.
  intros [j Hj]%list_elem_of_lookup. rewrite list_lookup_alter in Hj. destruct (decide (i = j)) as [->|Hne].
  - destruct (l !! j) as [y|] eqn:Hy; simplify_eq/=. right. by exists y.
  - left. by eapply list_elem_of_lookup_2.
Qed.

Section safety.
Context (unescape : string → string).
Context (create_env_var : Z → string → string → Z → scope → dict → result hitl_error HITLRequest).
Notation step := (step unescape create_env_var).
Notation run := (run unescape create_env_var).
Implicit Types (w : world) (tr : list call) (rid : string) (f : nat) (own : nat → option (nat * HITLRequest)).

(** * Where an answer comes from

    [cs]: the coordinators, of whom only the pending requests change. *)
Context (cs : list coordinator).

Definition entry w ci rid (p : pending_request) : Prop := dget rid (pending_of ci w) = Some p.
(** [v] was sent for [r], by the right parties and with a fitting content, or
    stands for the cancellation of everything. *)
Definition delivered tr (r : HITLRequest) (v : pyval) : Prop :=
  (∃ b, Resolve (request_id r) v b ∈ tr ∧ acceptable r v b = Ok true) ∨
  (∃ ci reason, CancelAll ci reason ∈ tr ∧ v = cancelled_answer reason).
Definition future_ok own tr f (x : future) : Prop :=
  ∀ ci r v, own f = Some (ci, r) → x = FResult v → delivered tr r v.
Definition asked tr ci (r : HITLRequest) : Prop :=
  ∃ c ty d timeout now fresh, cs !! ci = Some c ∧ Prepare ci ty d timeout now fresh ∈ tr ∧
    create_request unescape create_env_var ty now fresh (c_conversation c) (timeout_or timeout c)
      (mkScope (Some (c_tenant c)) (Some (c_project c)) (c_message c)) d = Ok r.
Definition wait_ok own tr (x : wait) : Prop :=
  match w_state x with
  | Waiting => ∃ r, own (w_future x) = Some (w_coord x, r) ∧ request_id r = w_request x
  | TimingOut => True
  | Finished (Ok a) => ∃ r v, request_id r = w_request x ∧ asked tr (w_coord x) r ∧ delivered tr r v ∧
      read_response unescape (w_type x) v = Ok a
  | Finished (Err _) => True
  end.
(** [own]: the request of each main future and who asked, nothing for the others. *)
Record inv own tr w : Prop := {
  inv_own : ∀ f ci r, own f = Some (ci, r) → f < length (futures w) ∧ asked tr ci r;
  inv_future : ∀ f x, futures w !! f = Some x → future_ok own tr f x;
  inv_entry : ∀ ci rid p, entry w ci rid p → own (p_future p) = Some (ci, p_request p) ∧
    request_id (p_request p) = rid ∧ own (p_completion p) = None ∧ p_completion p < length (futures w);
  inv_distinct : ∀ ci rid p ci' rid' p', entry w ci rid p → entry w ci' rid' p' →
    p_completion p = p_completion p' → ci = ci' ∧ rid = rid';
  inv_wait : ∀ x, x ∈ waits w → wait_ok own tr x;
  inv_wf : ∀ ci, dict_wf (pending_of ci w);
  inv_coords : ∀ ci, with_pending [] <$> coords w !! ci = with_pending [] <$> cs !! ci;
}.

Lemma delivered_mono tr tr' r v : tr ⊆ tr' → delivered tr r v → delivered tr' r v.
Proof. intros Hs [(b & Hb & ?)|(ci & reason & Hc & ?)]; [left|right]; eauto 6. Qed.
Lemma asked_mono tr tr' ci r : tr ⊆ tr' → asked tr ci r → asked tr' ci r.
Proof.
  intros Hs (c & ty & d & t & now & fresh & ? & ? & ?). exists c, ty, d, t, now, fresh. split_and!; auto.
Qed.
Lemma wait_mono own tr tr' x : tr ⊆ tr' → wait_ok own tr x → wait_ok own tr' x.
Proof.
  unfold wait_ok. intros Hs. destruct (w_state x) as [| |[a|e]]; try done.
  intros (r & v & ? & ? & ? & ?). exists r, v.
  split_and!; [done|by eapply asked_mono|by eapply delivered_mono|done].
Qed.
Lemma inv_mono own tr tr' w : tr ⊆ tr' → inv own tr w → inv own tr' w.
Proof.
  intros Hs [H1 H2 H3 H4 H5 H6 H7]. constructor; try done.
  - intros f ci r Ho. destruct (H1 f ci r Ho). split; [done|by eapply asked_mono].
  - intros f x Hx ci r v Ho Hv. eapply delivered_mono; [done|]. by eapply H2.
  - intros x Hx. eapply wait_mono; [done|]. by apply H5.
Qed.

(** * Steps that allocate nothing

    Such a step writes only to the futures [T], drops entries and lets waiting
    calls go on. *)
Record moves (T : nat → Prop) own tr w w' : Prop := {
  mv_length : length (futures w') = length (futures w);
  mv_future : ∀ f, futures w' !! f = futures w !! f ∨
    (T f ∧ ∃ x, futures w' !! f = Some x ∧ future_ok own tr f x);
  mv_entry : ∀ ci rid p, entry w' ci rid p → entry w ci rid p;
  mv_wait : ∀ x, x ∈ waits w' → x ∈ waits w ∨ wait_ok own tr x;
  mv_wf : ∀ ci, dict_wf (pending_of ci w) → dict_wf (pending_of ci w');
  mv_coords : ∀ ci, with_pending [] <$> coords w' !! ci = with_pending [] <$> coords w !! ci;
}.
Lemma moves_inv T own tr w w' : inv own tr w → moves T own tr w w' → inv own tr w'.
Proof.
  intros [H1 H2 H3 H4 H5 H6 H7] [Hl Hf He Hw Hd Hk]. constructor.
  - intros f ci r Ho. rewrite Hl. by eapply H1.
  - intros f x Hx. destruct (Hf f) as [Heq|(_ & y & Hy & Hok)]; [|by simplify_eq].
    rewrite Heq in Hx. by apply H2.
  - intros ci rid p Hp. rewrite Hl. by apply (H3 ci), He.
  - intros ci rid p ci' rid' p' Hp Hp'. by eapply H4; apply He.
  - intros x Hx. destruct (Hw x Hx); [by apply H5|done].
  - auto.
  - intros ci. by rewrite Hk.
Qed.
Lemma moves_refl T own tr w : moves T own tr w w.
Proof. constructor; auto. Qed.
Lemma moves_trans T own tr w1 w2 w3 : moves T own tr w1 w2 → moves T own tr w2 w3 → moves T own tr w1 w3.
Proof.
  intros [L1 F1 E1 W1 D1 K1] [L2 F2 E2 W2 D2 K2]. constructor.
  - congruence.
  - intros f. destruct (F2 f) as [->|?]; [apply F1|by right].
  - auto.
  - intros x Hx. destruct (W2 x Hx) as [?|?]; [by apply W1|by right].
  - auto.
  - intros ci. by rewrite K2.
Qed.
(** What the invariant does not see. *)
Lemma moves_frame T own tr w w' : futures w' = futures w → coords w' = coords w → waits w' = waits w →
  moves T own tr w w'.
Proof. intros Hf Hc Hw. constructor; unfold entry, pending_of; rewrite ?Hf, ?Hc, ?Hw; auto. Qed.
Lemma moves_settle T own tr w f x : T f → future_ok own tr f x → moves T own tr w (settle_future f x w).
Proof.
  intros HT Hx. unfold settle_future. destruct (futures w !! f) as [[| |]|] eqn:Hf; try apply moves_refl.
  constructor; simpl; auto; [by rewrite length_insert|]. intros g. destruct (decide (f = g)) as [->|Hne].
  - right. split; [done|]. exists x. split; [|done]. apply list_lookup_insert_eq. by eapply lookup_lt_Some.
  - left. by apply list_lookup_insert_ne.
Qed.
Lemma pending_set ci d w ci' : pending_of ci' (set_pending ci d w) =
  if decide (ci = ci') then match coords w !! ci with Some _ => d | None => [] end else pending_of ci' w.
Proof.
  unfold pending_of, set_pending. simpl. rewrite list_lookup_alter.
  case_decide as H; [subst|done]. by destruct (coords w !! ci').
Qed.
Lemma moves_pending T own tr w ci d : (∀ rid p, dget rid d = Some p → entry w ci rid p) →
  (dict_wf (pending_of ci w) → dict_wf d) → moves T own tr w (set_pending ci d w).
Proof.
  intros Hd Hwf. constructor; auto.
  - intros ci' rid p. unfold entry at 1. rewrite pending_set.
    case_decide; [subst|done]. destruct (coords w !! ci'); [by apply Hd|done].
  - intros ci' H. rewrite pending_set. case_decide; [subst|done].
    destruct (coords w !! ci'); [by apply Hwf|constructor].
  - intros ci'. simpl. rewrite list_lookup_alter. case_decide; [subst|done]. by destruct (coords w !! ci').
Qed.
Lemma moves_cleanup T own tr w ci rid : moves T own tr w (cleanup ci rid w).
Proof.
  eapply moves_trans; [apply (moves_pending _ _ _ _ ci (ddel rid (pending_of ci w)))|by apply moves_frame].
  - intros k p. rewrite dget_ddel. by case_decide.
  - apply ddel_wf.
Qed.
Lemma cleanup_entry w ci rid p : ¬ entry (cleanup ci rid w) ci rid p.
Proof.
  unfold entry, cleanup, unregister_coordinator. change (pending_of ci (set_registry ?l ?x)) with (pending_of ci x).
  rewrite pending_set, decide_True by done. destruct (coords w !! ci); [by rewrite dget_ddel_eq|done].
Qed.
Lemma cleanup_sub w ci rid cj k p : entry (cleanup ci rid w) cj k p → entry w cj k p.
Proof.
  unfold entry, cleanup, unregister_coordinator. change (pending_of cj (set_registry ?l ?x)) with (pending_of cj x).
  rewrite pending_set. case_decide; [subst|done]. destruct (coords w !! cj); [|done]. rewrite dget_ddel. by case_decide.
Qed.
Lemma moves_set_wait T own tr w i s :
  (∀ x, waits w !! i = Some x → wait_ok own tr (mkWait (w_coord x) (w_request x) (w_type x) (w_future x) s)) →
  moves T own tr w (set_wait i s w).
Proof.
  intros Hx. constructor; auto. simpl. intros x [?|(y & Hy & ->)]%elem_of_alter; [by left|right].
  by apply Hx.
Qed.

(** The futures a call may write to. *)
Definition touched w (c : call) f : Prop :=
  (∃ ci rid p, entry w ci rid p ∧ (p_future p = f ∨ p_completion p = f)) ∨
  (∃ x, x ∈ waits w ∧ w_state x = Waiting ∧ w_future x = f) ∨
  (∃ i k, c = CompletionTimeout i ∧ completions w !! i = Some k ∧ cw_future k = f).
Definition allocates (c : call) : bool := match c with Prepare _ _ _ _ _ _ => true | _ => false end.

Lemma cancelled_ok own tr f : future_ok own tr f FCancelled.
Proof. by intros ci r v _ [=]. Qed.
Lemma unowned_ok own tr f x : own f = None → future_ok own tr f x.
Proof. intros Ho ci r v. by rewrite Ho. Qed.
Lemma moves_registry T own tr w (l : list string) :
  moves T own tr w (foldl (λ w rid, unregister_coordinator rid w) w l).
Proof.
  revert w. induction l as [|rid l IH]; intros w; [apply moves_refl|].
  cbn [foldl]. apply (moves_trans _ _ _ _ (unregister_coordinator rid w)); [by apply moves_frame|apply IH].
Qed.
Lemma moves_settle_entry own tr w c ci reason (ps : list pending_request) w0 : inv own tr w →
  CancelAll ci reason ∈ tr → (∀ p, p ∈ ps → ∃ rid, entry w ci rid p) →
  moves (touched w c) own tr w0 (foldl (settle_entry reason) w0 ps).
Proof.
  intros Hi Hc. revert w0. induction ps as [|p ps IH]; intros w0 Hps; [apply moves_refl|].
  destruct (Hps p) as [rid Hp]; [left|]. destruct (inv_entry _ _ _ Hi _ _ _ Hp) as (Ho & _ & Hn & _).
  cbn [foldl]. eapply moves_trans; [|apply IH; intros q Hq; apply Hps; by right]. unfold settle_entry.
  eapply moves_trans; apply moves_settle; [left; eauto 6| |left; eauto 6|by apply unowned_ok].
  intros ci' r v _ [= <-]. right. eauto.
Qed.

Lemma waiting_spec i w x fu : waiting i w = Some (x, fu) →
  waits w !! i = Some x ∧ w_state x = Waiting ∧ futures w !! w_future x = Some fu ∧ x ∈ waits w.
Proof.
  unfold waiting. destruct (waits w !! i) as [y|] eqn:Hy; simpl; [|done].
  destruct (w_state y) eqn:Hs; [|done..]. destruct (futures w !! w_future y) eqn:Hf; simpl; [|done].
  intros [= <- <-]. split_and!; [done..|by eapply list_elem_of_lookup_2].
Qed.
Lemma moves_settle_wait T own tr w i x : waits w !! i = Some x → T (w_future x) → ∀ s,
  (s = TimingOut ∨ ∃ e, s = Finished (Err e)) →
  moves T own tr w (set_wait i s (settle_future (w_future x) FCancelled w)).
Proof.
  intros Hx HT s Hs. eapply moves_trans; [by apply moves_settle, cancelled_ok|].
  apply moves_set_wait. intros y _. unfold wait_ok. simpl. by destruct Hs as [->|[e ->]].
Qed.
Lemma moves_cancel T own tr w i e : moves T own tr w (set_wait i (Finished (Err e)) w).
Proof. by apply moves_set_wait. Qed.
Lemma moves_complete own tr w c ci rid : inv own tr w → moves (touched w c) own tr w (complete_request ci rid w).
Proof.
  intros Hi. unfold complete_request. set (w0 := set_stored _ w).
  assert (Hm : moves (touched w c) own tr w (cleanup ci rid w0)).
  { eapply moves_trans; [|apply moves_cleanup]. by apply moves_frame. }
  destruct (dget rid (pending_of ci w)) as [p|] eqn:Hp; [|done]. eapply moves_trans; [done|].
  apply moves_settle; [left; exists ci, rid, p; auto|]. apply unowned_ok. by eapply (inv_entry _ _ _ Hi ci rid).
Qed.
Lemma moves_cancel_request own tr w c ci (o : option string) : inv own tr w →
  moves (touched w c) own tr w (cancel_request_if_pending ci o w).
Proof.
  intros Hi. unfold cancel_request_if_pending. destruct o as [rid|]; [|apply moves_refl].
  destruct (truthy rid); [|apply moves_refl].
  destruct (dget rid (pending_of ci w)) as [p|] eqn:Hp; [|apply moves_cleanup].
  assert (Hn : own (p_completion p) = None) by (by eapply (inv_entry _ _ _ Hi ci rid)).
  eapply moves_trans; [apply moves_cleanup|]. eapply moves_trans; apply moves_settle.
  - left. exists ci, rid, p. auto.
  - apply cancelled_ok.
  - left. exists ci, rid, p. auto.
  - by apply unowned_ok.
Qed.
Lemma moves_cancel_all own tr w c ci reason : inv own tr w → CancelAll ci reason ∈ tr →
  moves (touched w c) own tr w (cancel_all ci reason w).
Proof.
  intros Hi Hc. unfold cancel_all. eapply moves_trans; [|apply moves_registry].
  eapply moves_trans; [|apply moves_pending; [by intros rid p [=]|constructor]].
  eapply moves_settle_entry; [done..|]. intros p Hp. by apply dvals_dget; [eapply inv_wf|].
Qed.
Lemma moves_resolve own tr w c rid v b : inv own tr w → Resolve rid v b ∈ tr →
  moves (touched w c) own tr w (resolve_by_request_id rid v b w).1.
Proof.
  intros Hi Hc. unfold resolve_by_request_id, resolve.
  destruct (dget rid (registry w)) as [ci|]; [|apply moves_refl].
  destruct (dget rid (pending_of ci w)) as [p|] eqn:Hp; [|apply moves_refl].
  destruct (is_done _ _); [apply moves_refl|].
  destruct (acceptable (p_request p) v b) as [[]|] eqn:Ha; [|apply moves_refl..].
  destruct (inv_entry _ _ _ Hi ci rid p Hp) as (Ho & Hr & _).
  apply moves_settle; [left; exists ci, rid, p; auto|]. intros ci' r u Hr' [= <-]. simplify_eq.
  left. by exists b.
Qed.
(** Every call but a new question. *)
Lemma step_moves own tr w c w' : inv own tr w → c ∈ tr → allocates c = false → step c w = Some w' →
  moves (touched w c) own tr w w'.
Proof.
  intros Hi Hc Ha Hs. destruct c; simpl in Ha, Hs; try discriminate.
  - unfold persist_end in Hs. destruct (prepares w !! i) as [p|]; [simpl in Hs|done].
    destruct (pr_state p) as [e|]; simplify_eq/=.
    assert (Hm : moves (touched w (PersistEnd i up)) own tr w
      (set_prepare i (Prepared (Err DatabaseError)) (cleanup (pr_coord p) (pr_request p) w))).
    { eapply moves_trans; [apply moves_cleanup|by apply moves_frame]. }
    destruct up; [|done]. destruct (create e (stored w)); [by apply moves_frame|done].
  - unfold persist_cancelled in Hs. destruct (prepares w !! i) as [p|]; [simpl in Hs|done].
    destruct (pr_state p); simplify_eq. by apply moves_frame.
  - unfold wait_for_response in Hs. destruct (coords w !! ci) as [co|] eqn:Hco; simplify_eq/=.
    constructor; auto. simpl. intros x [?|Hx%list_elem_of_singleton]%elem_of_app; [by left|right]. subst x.
    destruct (dget rid (c_pending co)) as [p|] eqn:Hp; [|done].
    assert (He : entry w ci rid p) by (unfold entry, pending_of; by rewrite Hco).
    destruct (inv_entry _ _ _ Hi _ _ _ He) as (Ho & Hr & _). unfold wait_ok. simpl. eauto.
  - unfold wait_resume in Hs. destruct (waiting i w) as [[x fu]|] eqn:Hw; [simpl in Hs|done].
    apply waiting_spec in Hw as (Hx & Hst & Hf & Hin).
    destruct fu as [|v|]; simplify_eq; [|apply moves_cancel].
    apply moves_set_wait. intros y Hy. simplify_eq. unfold wait_ok. simpl.
    destruct (read_response unescape (w_type x) v) as [a|] eqn:Hrd; [|done].
    pose proof (inv_wait _ _ _ Hi x Hin) as Hok. unfold wait_ok in Hok. rewrite Hst in Hok.
    destruct Hok as (r & Ho & Hr). exists r, v. destruct (inv_own _ _ _ Hi _ _ _ Ho) as [_ Hask].
    split_and!; [done|done| |done]. by apply (inv_future _ _ _ Hi _ _ Hf (w_coord x) r v).
  - unfold wait_timeout in Hs. destruct (waiting i w) as [[x fu]|] eqn:Hw; simplify_eq/=.
    apply waiting_spec in Hw as (Hx & Hst & Hf & Hin). apply moves_settle_wait; [done| |by left].
    right. left. eauto.
  - unfold timeout_recorded in Hs. destruct (waits w !! i) as [x|]; [simpl in Hs|done].
    destruct (w_state x); simplify_eq. destruct up; [|apply moves_cancel].
    eapply moves_trans; [|apply moves_cancel]. eapply moves_trans; [|apply moves_cleanup].
    by apply moves_frame.
  - unfold wait_cancelled in Hs. destruct (waiting i w) as [[x fu]|] eqn:Hw; simplify_eq/=.
    apply waiting_spec in Hw as (Hx & Hst & Hf & Hin). apply moves_settle_wait; [done| |by eauto].
    right. left. eauto.
  - simplify_eq. by apply moves_resolve.
  - simplify_eq. unfold complete_hitl_request. destruct (dget rid (registry w)); [by apply moves_complete|].
    by apply moves_frame.
  - simplify_eq. by apply moves_cancel_request.
  - simplify_eq. by apply moves_cancel_all.
  - simplify_eq. unfold wait_for_request_completion. destruct (_ ≫= _); [by apply moves_frame|apply moves_refl].
  - unfold completion_resume in Hs. destruct (completions w !! i); [simpl in Hs|done].
    destruct (_ && _); simplify_eq. by apply moves_frame.
  - unfold completion_timeout in Hs. destruct (completions w !! i) as [k|] eqn:Hk; [simpl in Hs|done].
    destruct (cw_returned k); simplify_eq.
    apply (moves_trans _ _ _ _ (settle_future (cw_future k) FCancelled w)); [|by apply moves_frame].
    apply moves_settle; [right; right; eauto|apply cancelled_ok].
  - simplify_eq. by apply moves_frame.
Qed.

(** * A new question *)

(** Two new futures, the first for [r]. *)
Definition owning own n (o : nat * HITLRequest) : nat → option (nat * HITLRequest) :=
  λ f, if decide (f = n) then Some o else own f.
Definition opened ci (c : coordinator) (r : HITLRequest) w : world :=
  register_coordinator (request_id r) ci
    (set_pending ci (dset (request_id r) (mkPending (length (futures w)) (S (length (futures w))) r) (c_pending c))
       (set_futures (futures w ++ [FPending; FPending]) w)).
Lemma opened_entry ci c r w ci' rid p : coords w !! ci = Some c → entry (opened ci c r w) ci' rid p →
  (ci' = ci ∧ rid = request_id r ∧ p = mkPending (length (futures w)) (S (length (futures w))) r) ∨ entry w ci' rid p.
Proof.
  unfold entry, opened, register_coordinator. intros Hc.
  change (pending_of ci' (set_registry ?l ?x)) with (pending_of ci' x). rewrite pending_set.
  simpl. rewrite Hc. case_decide as Hd; [subst ci'|by right]. rewrite dget_dset.
  case_decide; [intros [= <-]; by left|right]. unfold pending_of. by rewrite Hc.
Qed.
Lemma inv_opened own tr ci c r w : inv own tr w → coords w !! ci = Some c → asked tr ci r →
  inv (owning own (length (futures w)) (ci, r)) tr (opened ci c r w).
Proof.
  intros [H1 H2 H3 H4 H5 H6 H7] Hc Ha. set (n := length (futures w)).
  assert (Hold : ∀ f o, own f = Some o → owning own n (ci, r) f = Some o).
  { intros f [cj q] Ho. unfold owning. rewrite decide_False; [done|]. intros ->.
    destruct (H1 _ _ _ Ho). subst n. lia. }
  assert (Hlen : length (futures (opened ci c r w)) = n + 2) by (simpl; by rewrite length_app).
  constructor.
  - intros f cj q. rewrite Hlen. unfold owning. case_decide as Hd; [intros [= <- <-]; split; [lia|done]|].
    intros Ho. destruct (H1 _ _ _ Ho). split; [lia|done].
  - intros f x. simpl. intros [Hf|[Hge Hf]]%lookup_app_Some cj q v Ho Hx.
    + apply (H2 _ _ Hf cj q v); [|done]. unfold owning in Ho. rewrite decide_False in Ho; [done|].
      apply lookup_lt_Some in Hf. subst n. lia.
    + subst x. destruct (f - length (futures w)) as [|[|k]]; discriminate.
  - intros cj rid p He. destruct (opened_entry _ _ _ _ _ _ _ Hc He) as [(-> & -> & ->)|Hp].
    + rewrite Hlen. simpl. fold n. unfold owning. rewrite decide_True, decide_False by lia.
      split_and!; [done..| |lia].
      destruct (own (S n)) as [[cj q]|] eqn:Ho; [|done]. destruct (H1 _ _ _ Ho). subst n. lia.
    + destruct (H3 _ _ _ Hp) as (Ho & Hr & Hn & Hl). rewrite Hlen. unfold owning at 2.
      rewrite decide_False by (subst n; lia). split_and!; [by apply Hold|done|done|subst n; lia].
  - intros c1 r1 p1 c2 r2 p2 He1 He2.
    apply (opened_entry _ _ _ _ _ _ _ Hc) in He1, He2.
    destruct He1 as [(-> & -> & ->)|E1], He2 as [(-> & -> & ->)|E2]; simpl; [done| | |by eapply H4].
    + destruct (H3 _ _ _ E2) as (_ & _ & _ & Hl). lia.
    + destruct (H3 _ _ _ E1) as (_ & _ & _ & Hl). lia.
  - intros x Hx. specialize (H5 x Hx). unfold wait_ok in *. destruct (w_state x) as [| |[a|e]]; try done.
    destruct H5 as (q & Ho & Hq). exists q. split; [by apply Hold|done].
  - intros cj. unfold opened, register_coordinator.
    change (pending_of cj (set_registry ?l ?x)) with (pending_of cj x). rewrite pending_set. simpl. rewrite Hc.
    case_decide as Hd; [subst cj|apply H6]. apply dset_wf. specialize (H6 ci). unfold pending_of in H6.
    by rewrite Hc in H6.
  - intros cj. rewrite <-H7. simpl. rewrite list_lookup_alter. case_decide; [subst|done].
    by destruct (coords w !! cj).
Qed.
Lemma inv_frame own tr w w' : futures w' = futures w → coords w' = coords w → waits w' = waits w →
  inv own tr w → inv own tr w'.
Proof. intros ? ? ? Hi. apply (moves_inv (λ _, True) own tr w); [done|by apply moves_frame]. Qed.
Lemma prepare_inv own tr ci ty d timeout now fresh w w' : inv own tr w →
  Prepare ci ty d timeout now fresh ∈ tr →
  prepare_request unescape create_env_var ci ty d timeout now fresh w = Some w' →
  ∃ own', inv own' tr w' ∧ ∀ f, f < length (futures w) → own' f = own f.
Proof.
  intros Hi Hin. unfold prepare_request. destruct (coords w !! ci) as [c|] eqn:Hc; [simpl|done]. intros [= <-].
  destruct (create_request _ _ _ _ _ _ _ _ _) as [r|e] eqn:Hr.
  2: { exists own. split; [by apply (inv_frame _ _ w)|done]. }
  assert (Ha : asked tr ci r).
  { pose proof (inv_coords _ _ _ Hi ci) as Hk. rewrite Hc in Hk. simpl in Hk.
    destruct (cs !! ci) as [c'|] eqn:Hc'; [|done]. simpl in Hk.
    exists c', ty, d, timeout, now, fresh. split_and!; [done|done|].
    destruct c, c'. unfold with_pending in Hk. simpl in *. injection Hk as -> -> -> -> ->. exact Hr. }
  exists (owning own (length (futures w)) (ci, r)). split.
  - pose proof (inv_opened own tr ci c r w Hi Hc Ha) as Ho.
    destruct (persisted_entity _ _ _ _ _ _); [by apply (inv_frame _ _ (opened ci c r w))|].
    apply (inv_frame _ _ (cleanup ci (request_id r) (opened ci c r w))); [done..|].
    eapply (moves_inv (λ _, True)); [exact Ho|]. apply moves_cleanup.
  - intros f Hf. unfold owning. rewrite decide_False by lia. done.
Qed.

(** * Interleavings *)

Lemma step_inv own tr w c w' : inv own tr w → c ∈ tr → step c w = Some w' → ∃ own', inv own' tr w'.
Proof.
  intros Hi Hc Hs. destruct (allocates c) eqn:Ha.
  - destruct c; try done. destruct (prepare_inv _ _ _ _ _ _ _ _ _ _ Hi Hc Hs) as (own' & ? & _). eauto.
  - exists own. eapply moves_inv; [done|]. by apply step_moves.
Qed.
Lemma run_inv own tr l w w' : inv own tr w → run l w = Some w' → ∃ own', inv own' (tr ++ l) w'.
Proof.
  revert own tr w. induction l as [|c l IH]; intros own tr w Hi; simpl.
  { intros [= <-]. rewrite app_nil_r. eauto. }
  destruct (step c w) as [w1|] eqn:Hs; simpl; [|done]. intros Hr.
  destruct (step_inv own (tr ++ [c]) w c w1) as [own1 H1]; [|set_solver|done|].
  { eapply inv_mono; [|done]. set_solver. }
  destruct (IH own1 (tr ++ [c]) w1 H1 Hr) as [own2 H2]. exists own2. by rewrite <-app_assoc in H2.
Qed.

(** * A future nobody will set *)

Definition no_timeout (c : call) : bool := match c with CompletionTimeout _ => false | _ => true end.
(** Neither a main future nor the completion of anything pending. *)
Record orphan own f w : Prop := {
  or_own : own f = None;
  or_future : futures w !! f = Some FPending;
  or_entry : ∀ ci rid p, entry w ci rid p → p_completion p ≠ f;
}.
Lemma prepare_entries ci ty d timeout now fresh w w' :
  prepare_request unescape create_env_var ci ty d timeout now fresh w = Some w' →
  (∃ new, futures w' = futures w ++ new) ∧
  ∀ cj rid p, entry w' cj rid p → entry w cj rid p ∨ p_completion p = S (length (futures w)).
Proof.
  unfold prepare_request. destruct (coords w !! ci) as [c|] eqn:Hc; [simpl|done]. intros [= <-].
  destruct (create_request _ _ _ _ _ _ _ _ _) as [r|e]; [|split; [by exists []; rewrite app_nil_r|by left]].
  assert (Ho : ∀ cj rid p, entry (opened ci c r w) cj rid p →
    entry w cj rid p ∨ p_completion p = S (length (futures w))).
  { intros cj rid p [(-> & -> & ->)|?]%opened_entry; [by right|by left|done]. }
  destruct (persisted_entity _ _ _ _ _ _); split; try (by eexists); [exact Ho|].
  intros cj rid p He. apply Ho. by apply (cleanup_sub (opened ci c r w) ci (request_id r)).
Qed.
Lemma orphan_step own tr w c w' f : inv own tr w → orphan own f w → c ∈ tr → no_timeout c = true →
  step c w = Some w' → ∃ own', inv own' tr w' ∧ orphan own' f w'.
Proof.
  intros Hi [Ho Hf He] Hc Hn Hs. assert (Hlt : f < length (futures w)) by (by eapply lookup_lt_Some).
  destruct (allocates c) eqn:Ha.
  - destruct c; try done. destruct (prepare_inv _ _ _ _ _ _ _ _ _ _ Hi Hc Hs) as (own' & Hi' & Hsame).
    destruct (prepare_entries _ _ _ _ _ _ _ _ Hs) as [[new Hnew] Hents]. exists own'. split; [done|]. constructor.
    + by rewrite Hsame.
    + rewrite Hnew. by apply lookup_app_l_Some.
    + intros cj rid p [Hp|Hp]%Hents; [by eapply He|lia].
  - exists own. pose proof (step_moves own tr w c w' Hi Hc Ha Hs) as Hm.
    split; [by eapply moves_inv|]. constructor; [done| |].
    + destruct (mv_future _ _ _ _ _ Hm f) as [->|[Ht _]]; [done|exfalso].
      destruct Ht as [(ci & rid & p & Hp & [<-|Hx])|[(x & Hx & Hst & <-)|(i & k & -> & _)]]; [| | |done].
      * destruct (inv_entry _ _ _ Hi _ _ _ Hp) as (Hown & _). congruence.
      * by eapply He.
      * pose proof (inv_wait _ _ _ Hi x Hx) as Hok. unfold wait_ok in Hok. rewrite Hst in Hok.
        destruct Hok as (r & Hr & _). congruence.
    + intros ci rid p Hp. by eapply He, (mv_entry _ _ _ _ _ Hm).
Qed.
(** Who waits for it goes on waiting. *)
Lemma completions_settle f x w : completions (settle_future f x w) = completions w.
Proof. unfold settle_future. by destruct (futures w !! f) as [[| |]|]. Qed.
Lemma completions_entries reason (ps : list pending_request) w :
  completions (foldl (settle_entry reason) w ps) = completions w.
Proof.
  revert w. induction ps as [|p ps IH]; intros w; [done|]. cbn [foldl]. rewrite IH. unfold settle_entry.
  by rewrite !completions_settle.
Qed.
Lemma completions_registry (l : list string) w :
  completions (foldl (λ w rid, unregister_coordinator rid w) w l) = completions w.
Proof. revert w. induction l as [|rid l IH]; intros w; [done|]. cbn [foldl]. by rewrite IH. Qed.
Lemma completions_resolve rid v b w : completions (resolve_by_request_id rid v b w).1 = completions w.
Proof.
  unfold resolve_by_request_id, resolve. destruct (dget rid (registry w)) as [ci|]; [|done].
  destruct (dget rid (pending_of ci w)) as [p|]; [|done]. destruct (is_done _ _); [done|].
  destruct (acceptable _ _ _) as [[]|]; [apply completions_settle|done..].
Qed.
Lemma completions_complete ci rid w : completions (complete_request ci rid w) = completions w.
Proof. unfold complete_request. destruct (dget rid _); [by rewrite completions_settle|done]. Qed.
Lemma completions_cancel ci o w : completions (cancel_request_if_pending ci o w) = completions w.
Proof.
  unfold cancel_request_if_pending. destruct o as [rid|]; [|done]. destruct (truthy rid); [|done].
  destruct (dget rid _); [by rewrite !completions_settle|done].
Qed.
Ltac no_completion_change :=
  repeat (simplify_eq/=; match goal with
    | H : (match ?x with _ => _ end) = Some _ |- _ => destruct x eqn:?
    | H : (?x ≫= _) = Some _ |- _ => destruct x as [?|] eqn:?; simpl in H
    end); simplify_eq/=; repeat case_match; simplify_eq/=; rewrite ?completions_settle; try done.
Lemma completion_step w c w' k f : step c w = Some w' → no_timeout c = true → futures w !! f = Some FPending →
  completions w !! k = Some (mkCompletion f false) → completions w' !! k = Some (mkCompletion f false).
Proof.
  intros Hs Hn Hf Hk. destruct c; simpl in Hs, Hn; try discriminate.
  - unfold prepare_request in Hs. no_completion_change.
  - unfold persist_end in Hs. no_completion_change.
  - unfold persist_cancelled in Hs. no_completion_change.
  - unfold wait_for_response in Hs. no_completion_change.
  - unfold wait_resume in Hs. no_completion_change.
  - unfold wait_timeout in Hs. no_completion_change.
  - unfold timeout_recorded in Hs. no_completion_change.
  - unfold wait_cancelled in Hs. no_completion_change.
  - simplify_eq. by rewrite completions_resolve.
  - simplify_eq. unfold complete_hitl_request.
    destruct (dget rid (registry w)); [by rewrite completions_complete|done].
  - simplify_eq. by rewrite completions_cancel.
  - simplify_eq. unfold cancel_all. rewrite completions_registry. simpl. by rewrite completions_entries.
  - simplify_eq. unfold wait_for_request_completion. destruct (_ ≫= _); [|done].
    simpl. by apply lookup_app_l_Some.
  - unfold completion_resume in Hs. destruct (completions w !! i) as [x|] eqn:Hx; [simpl in Hs|done].
    destruct (_ && _) eqn:Hd; simplify_eq. simpl. rewrite list_lookup_alter. case_decide; [subst|done].
    simplify_eq. unfold is_done in Hd. simpl in Hd. by rewrite Hf in Hd.
  - by simplify_eq.
Qed.
Lemma orphan_run own tr w l w' f k : inv own tr w → orphan own f w → forallb no_timeout l = true →
  completions w !! k = Some (mkCompletion f false) → run l w = Some w' →
  completions w' !! k = Some (mkCompletion f false).
Proof.
  revert own tr w. induction l as [|c l IH]; intros own tr w Hi Ho Hl Hk; simpl in *; [by intros [= <-]|].
  apply andb_true_iff in Hl as [Hc Hl]. destruct (step c w) as [w1|] eqn:Hs; simpl; [|done]. intros Hr.
  pose proof (completion_step w c w1 k f Hs Hc (or_future _ _ _ Ho) Hk) as Hk1.
  destruct (orphan_step own (tr ++ [c]) w c w1 f) as (own1 & Hi1 & Ho1); [|done|set_solver|done|done|].
  { eapply inv_mono; [|done]. set_solver. }
  by apply (IH own1 (tr ++ [c]) w1).
Qed.

(** * Theorems *)

Definition fresh_coords : Prop := Forall (λ c, c_pending c = []) cs.
Lemma new_entry t ci rid p : fresh_coords → ¬ entry (new_world cs t) ci rid p.
Proof.
  unfold entry, pending_of, fresh_coords. simpl. intros Hc. destruct (cs !! ci) as [c|] eqn:Hci; [|done].
  rewrite Forall_lookup in Hc. by rewrite (Hc _ _ Hci).
Qed.
Lemma new_inv t : fresh_coords → inv (λ _, None) [] (new_world cs t).
Proof.
  intros Hc. constructor; try done; simpl.
  - intros ci rid p Hp. by apply new_entry in Hp.
  - intros ci rid p ? ? ? Hp. by apply new_entry in Hp.
  - intros x Hx. by apply elem_of_nil in Hx.
  - intros ci. unfold pending_of. simpl. destruct (cs !! ci) as [c|] eqn:Hci; [|constructor].
    unfold fresh_coords in Hc. rewrite Forall_lookup in Hc. rewrite (Hc _ _ Hci). constructor.
Qed.
Lemma reachable_inv t l w : fresh_coords → run l (new_world cs t) = Some w → ∃ own, inv own l w.
Proof. intros Hc Hr. by destruct (run_inv _ [] l _ w (new_inv t Hc) Hr) as [own ?]; exists own. Qed.

(** C3. Whatever asks, answers, timeouts, cancellations and database calls come in
    whatever order: what a tool gets from waiting is read from an answer to the
    very request its coordinator built for it, which came with that request's
    tenant, project, conversation and message and whose content fits the
    request - or from the cancellation of all requests. *)
Theorem answers_checked t l w i x a : fresh_coords → run l (new_world cs t) = Some w →
  waits w !! i = Some x → w_state x = Finished (Ok a) →
  ∃ r v, asked l (w_coord x) r ∧ request_id r = w_request x ∧ delivered l r v ∧
         read_response unescape (w_type x) v = Ok a.
Proof.
  intros Hc Hr Hx Hs. destruct (reachable_inv t l w Hc Hr) as [own Hi].
  pose proof (inv_wait _ _ _ Hi x (list_elem_of_lookup_2 _ _ _ Hx)) as Hok. unfold wait_ok in Hok.
  rewrite Hs in Hok. destruct Hok as (r & v & ? & ? & ? & ?). by exists r, v.
Qed.

Lemma timeout_state w i x p : waits w !! i = Some x → w_state x = Waiting → p_future p = w_future x →
  is_Some (futures w !! w_future x) →
  ∃ w1, wait_timeout i w = Some w1 ∧ is_done (p_future p) w1 = true ∧ coords w1 = coords w ∧
    registry w1 = registry w ∧ completions w1 = completions w ∧
    waits w1 !! i = Some (mkWait (w_coord x) (w_request x) (w_type x) (w_future x) TimingOut) ∧
    ∀ f, f ≠ p_future p → futures w1 !! f = futures w !! f.
Proof.
  intros Hx Hs Hp [fu Hf]. unfold wait_timeout, waiting. rewrite Hx. simpl. rewrite Hs, Hf. simpl.
  eexists. split; [done|]. unfold settle_future, is_done. rewrite Hf, Hp.
  destruct fu; simpl; rewrite ?Hf; rewrite list_lookup_alter, decide_True by done; rewrite ?Hx;
    split_and!; try done.
  - by rewrite list_lookup_insert_eq by (by eapply lookup_lt_Some).
  - intros f Hne. by rewrite list_lookup_insert_ne.
Qed.
Lemma timeout_orphan own tr w i x p : inv own tr w → waits w !! i = Some x → w_state x = TimingOut →
  entry w (w_coord x) (w_request x) p → futures w !! p_completion p = Some FPending →
  ∃ w', timeout_recorded i true w = Some w' ∧ (∃ tr', inv own tr' w') ∧ orphan own (p_completion p) w' ∧
    completions w' = completions w ∧ ∃ y, waits w' !! i = Some y ∧ w_state y = Finished (Err TimeoutError).
Proof.
  intros Hi Hx Hs He Hf. destruct (inv_entry _ _ _ Hi _ _ _ He) as (_ & _ & Hn & _).
  destruct (timeout_recorded i true w) as [w'|] eqn:Ht; unfold timeout_recorded in Ht; rewrite Hx in Ht;
    simpl in Ht; rewrite Hs in Ht; [|done].
  assert (Hstep : step (TimeoutRecorded i true) w = Some w').
  { simpl. unfold timeout_recorded. rewrite Hx. simpl. by rewrite Hs. }
  pose proof (step_moves own (tr ++ [TimeoutRecorded i true]) w (TimeoutRecorded i true) w') as Hm.
  specialize (Hm ltac:(eapply inv_mono; [|done]; set_solver) ltac:(set_solver) eq_refl Hstep).
  exists w'. split; [done|]. split; [|split; [|split]].
  - exists (tr ++ [TimeoutRecorded i true]). eapply moves_inv; [|exact Hm]. eapply inv_mono; [|done]. set_solver.
  - simplify_eq. constructor; [done|done|]. intros ci rid q Hq Heq.
    destruct (inv_distinct _ _ _ Hi ci rid q _ _ p (mv_entry _ _ _ _ _ Hm _ _ _ Hq) He Heq) as [-> ->].
    apply (cleanup_entry _ _ _ q Hq).
  - by simplify_eq.
  - simplify_eq. simpl. rewrite list_lookup_alter, decide_True, Hx by done. by eexists.
Qed.
(** C10. When the timeout of a waiting call fires, its request stays registered while
    the database is told.  Any answer that comes in between - whoever sends it
    and whatever it says - is acknowledged as delivered without a check; the
    tool gets a timeout; and the consumer that waits for the end of the
    processing waits for ever, whatever happens later. *)
Theorem timed_out_answer_lost t l w i x p : fresh_coords → run l (new_world cs t) = Some w →
  waits w !! i = Some x → w_state x = Waiting → dget (w_request x) (registry w) = Some (w_coord x) →
  entry w (w_coord x) (w_request x) p → p_future p = w_future x → is_done (p_completion p) w = false →
  ∃ w1, step (WaitTimeout i) w = Some w1 ∧
    (∀ v b, resolve_by_request_id (w_request x) v b w1 = (w1, Ok RESOLVED)) ∧
    ∃ w2, run [AwaitCompletion (w_request x); TimeoutRecorded i true] w1 = Some w2 ∧
      (∃ y, waits w2 !! i = Some y ∧ w_state y = Finished (Err TimeoutError)) ∧
      ∀ l' w', forallb no_timeout l' = true → run l' w2 = Some w' →
        ∃ c, completions w' !! length (completions w) = Some c ∧ cw_returned c = false.
Proof.
  intros Hc Hr Hx Hs Hreg He Hp Hd. destruct (reachable_inv t l w Hc Hr) as [own Hi].
  destruct (inv_entry _ _ _ Hi _ _ _ He) as (Hown & _ & Hnone & Hlt).
  destruct (inv_own _ _ _ Hi _ _ _ Hown) as [Hlf _].
  destruct (timeout_state w i x p Hx Hs Hp) as (w1 & Hw1 & Hdone & Hco & Hrg & Hcs & Hwt & Hfu).
  { rewrite <-Hp. by apply lookup_lt_is_Some_2. }
  assert (Hne : p_completion p ≠ p_future p) by congruence.
  assert (He1 : dget (w_request x) (pending_of (w_coord x) w1) = Some p) by (unfold pending_of; by rewrite Hco).
  assert (Hpend : futures w !! p_completion p = Some FPending).
  { unfold is_done in Hd. by destruct (futures w !! p_completion p) as [[| |]|]. }
  exists w1. split; [done|]. split.
  { intros v b. unfold resolve_by_request_id, resolve. rewrite Hrg, Hreg, He1, Hdone.
    unfold is_done. by rewrite Hfu, Hpend. }
  assert (Hi0 : inv own (l ++ [WaitTimeout i]) w) by (eapply inv_mono; [|exact Hi]; set_solver).
  assert (Hi1 : inv own (l ++ [WaitTimeout i]) w1).
  { eapply moves_inv; [done|]. apply (step_moves _ _ _ (WaitTimeout i)); [done|set_solver|done|done]. }
  set (w1' := set_completions (completions w1 ++ [mkCompletion (p_completion p) false]) w1).
  assert (Haw : step (AwaitCompletion (w_request x)) w1 = Some w1').
  { simpl. unfold wait_for_request_completion. rewrite Hrg, Hreg. simpl. by rewrite He1. }
  destruct (timeout_orphan own (l ++ [WaitTimeout i]) w1' i _ p (inv_frame _ _ w1 w1' eq_refl eq_refl eq_refl Hi1)
    Hwt eq_refl He1) as (w2 & Ht & [tr' Hi2] & Ho & Hcw & Hy).
  { unfold w1'. simpl. by rewrite Hfu. }
  exists w2. split; [|split; [done|]].
  { cbn [HitlCoordinator.run]. rewrite Haw. cbn [mbind option_bind HitlCoordinator.step]. by rewrite Ht. }
  intros l' w' Hl' Hrun. exists (mkCompletion (p_completion p) false). split; [|done].
  eapply (orphan_run own tr'); [done|done|done| |done]. rewrite Hcw. unfold w1'. simpl. rewrite Hcs.
  by apply list_lookup_middle.
Qed.

Lemma permission_question rid c timeout r now : permission_data r ≠ None → clarification_data r = None →
  decision_data r = None → env_var_data r = None →
  ∃ e, persisted_entity rid HITLType.PERMISSION c timeout (type_specific_data r) now = Err e.
Proof.
  intros Hp Hc Hd He. unfold type_specific_data. rewrite Hc, Hd, He.
  destruct (permission_data r); [|done]. unfold persisted_entity, validated. simpl.
  destruct (negb _); [by eexists|]. destruct (negb _); [by eexists|]. destruct (negb _); by eexists.
Qed.
(** C11. No permission is ever asked for through the coordinator: whatever tool,
    action and description are handed in, [prepare_request] raises - the entity
    needs a question, and a permission's data has none - stores nothing and
    leaves no request pending or registered that was not there before. *)
Theorem permission_never_asked ci d timeout now fresh w w' :
  prepare_request unescape create_env_var ci HITLType.PERMISSION d timeout now fresh w = Some w' →
  (∃ rid e, prepares w' = prepares w ++ [mkPrepare ci rid (Prepared (Err e))]) ∧ stored w' = stored w ∧
  (∀ cj rid p, entry w' cj rid p → entry w cj rid p) ∧
  (∀ rid cj, dget rid (registry w') = Some cj → dget rid (registry w) = Some cj).
Proof.
  unfold prepare_request. destruct (coords w !! ci) as [c|] eqn:Hc; [cbn [mbind option_bind]|done].
  destruct (create_request _ _ _ _ _ _ _ _ _) as [r|e] eqn:Hr; intros [= <-]; [|split_and!; [by eexists _, _|done..]].
  assert (Hdata : permission_data r ≠ None ∧ clarification_data r = None ∧ decision_data r = None ∧ env_var_data r = None).
  { cbn [create_request] in Hr. unfold create_permission in Hr. cbv zeta in Hr.
    repeat apply result_bind_ok in Hr as (? & _ & Hr). by injection Hr as <-. }
  destruct Hdata as (Hp & Hcl & Hde & Hev).
  destruct (permission_question (request_id r) c (timeout_or timeout c) r now Hp Hcl Hde Hev) as [e ->].
  fold (opened ci c r w). split_and!; [by eauto|done| |].
  - intros cj rid p He. destruct (decide (cj = ci ∧ rid = request_id r)) as [[-> ->]|Hne].
    + exfalso. by apply (cleanup_entry (opened ci c r w) ci (request_id r) p).
    + pose proof (cleanup_sub (opened ci c r w) ci (request_id r) cj rid p He) as Ho.
      destruct (opened_entry ci c r w cj rid p Hc Ho) as [(-> & -> & _)|?]; [naive_solver|done].
  - intros rid cj. simpl. rewrite dget_ddel, dget_dset. by case_decide.
Qed.
End safety.

(** * Concrete runs *)

Definition plain (s : string) : string := s.
Definition no_env_var (now : Z) (fresh conv : string) (timeout : Z) (sc : scope) (d : dict)
    : result hitl_error HITLRequest := Err ValueError.
Definition sample_coord : coordinator := new_coordinator "conv" "tenant" "project" (Some "msg") 300000000.
Definition sample_world : world := new_world [sample_coord] [].
Definition sample_question : dict := [("question", PStr "Which side?")].
Definition right_binding : binding := mkBinding (Some "tenant") (Some "project") (Some "conv") (Some "msg").
Definition sample_answer : pyval := PDict [("answer", PStr "left")].
Definition asking : list call :=
  [Prepare 0 HITLType.CLARIFICATION sample_question None 0 "clar_1"; PersistEnd 0 true;
   Wait 0 "clar_1" HITLType.CLARIFICATION].
Definition asked_world : world := default sample_world (run plain no_env_var asking sample_world).
Definition answering : list call :=
  asking ++ [Resolve "clar_1" sample_answer (mkBinding None None None None);
             Resolve "clar_1" sample_answer right_binding; WaitResume 0].

Lemma answers_checked_witness : ∃ w x, run plain no_env_var answering sample_world = Some w ∧
  waits w !! 0 = Some x ∧ w_state x = Finished (Ok (PStr "left")) ∧
  ∃ r v, asked plain no_env_var [sample_coord] answering 0 r ∧ request_id r = "clar_1" ∧
         delivered answering r v ∧ read_response plain HITLType.CLARIFICATION v = Ok (PStr "left").
Proof.
  assert (Hc : fresh_coords [sample_coord]) by (by repeat constructor).
  destruct (run plain no_env_var answering sample_world) as [w|] eqn:Hr; [|by vm_compute in Hr].
  pose proof (answers_checked plain no_env_var [sample_coord] [] answering w 0) as H.
  vm_compute in Hr. injection Hr as <-. eexists _, _. split; [done|]. split; [done|]. split; [done|].
  by apply (H (mkWait 0 "clar_1" HITLType.CLARIFICATION 0 (Finished (Ok (PStr "left"))))).
Defined.
Lemma timed_out_answer_lost_witness : ∃ w1, step plain no_env_var (WaitTimeout 0) asked_world = Some w1 ∧
  resolve_by_request_id "clar_1" sample_answer right_binding w1 = (w1, Ok RESOLVED) ∧
  resolve_by_request_id "clar_1" PNone (mkBinding None None None None) w1 = (w1, Ok RESOLVED).
Proof.
  assert (Hc : fresh_coords [sample_coord]) by (by repeat constructor).
  assert (Hr : run plain no_env_var asking (new_world [sample_coord] []) = Some asked_world) by (by vm_compute).
  destruct (dget "clar_1" (pending_of 0 asked_world)) as [p|] eqn:Hp; [|by vm_compute in Hp].
  destruct (waits asked_world !! 0) as [x|] eqn:Hx; [|by vm_compute in Hx].
  pose proof (timed_out_answer_lost plain no_env_var [sample_coord] [] asking asked_world 0 x p Hc Hr Hx) as H.
  vm_compute in Hp, Hx. injection Hp as <-. injection Hx as <-.
  destruct H as (w1 & Hw1 & Hres & _); [done..|]. exists w1. split; [done|]. split; apply Hres.
Defined.
Lemma permission_never_asked_witness : ∃ w', prepare_request plain no_env_var 0 HITLType.PERMISSION
    [("tool_name", PStr "bash"); ("action", PStr "execute"); ("description", PStr "May I?")] None 0 "perm_1"
    sample_world = Some w' ∧ stored w' = [] ∧ ∀ cj rid p, ¬ entry w' cj rid p.
Proof.
  destruct (prepare_request plain no_env_var 0 HITLType.PERMISSION
    [("tool_name", PStr "bash"); ("action", PStr "execute"); ("description", PStr "May I?")] None 0 "perm_1"
    sample_world) as [w'|] eqn:Hw; [|by vm_compute in Hw].
  exists w'. split; [done|]. destruct (permission_never_asked _ _ _ _ _ _ _ _ _ Hw) as (_ & Hs & He & _).
  split; [done|]. intros cj rid p Hp. apply He in Hp. by eapply new_entry; [|exact Hp]; repeat constructor.
Defined.
