(* ===== verification/HitlWaiters.v ===== *)
(** The registry of sessions that wait for an answer on this worker.

    Source: src/src/infrastructure/agent/hitl/session_registry.py.  A waiter
    is an object that its caller keeps after the registry forgets it: the
    [waiters], named by their place.  The lock makes each of the parts below
    one step; [deliver_begin] and [deliver_end] are apart because the callback
    runs between them without the lock, and so are the scan and the removals of
    [cleanup_expired].  Times are microseconds. *)

From Stdlib Require Import QArith.
From S2P Require Import Prelude.

Open Scope string_scope.
Open Scope list_scope.
Open Scope nat_scope.

(** * State *)

Record HITLWaiter : Type := mkWaiter {
  wt_request : string;
  wt_conversation : string;
  wt_type : string;
  wt_registered_at : Z;
  wt_callback : bool;                 (** there is one *)
  wt_event : bool;                    (** the event is set *)
  wt_data : option pyval }.
Record session_registry : Type := mkRegistry {
  waiters : list HITLWaiter;
  by_request : list (string * nat);
  conversation_requests : list (string * list string);
  total_registered : nat;
  total_delivered : nat;
  total_timeouts : nat }.
Definition new_registry : session_registry := mkRegistry [] [] [] 0 0 0.

Section registry.
Implicit Types (s : session_registry) (rid conv : string).

Definition set_index (ws : list (string * nat)) (cs : list (string * list string)) s : session_registry :=
  mkRegistry (waiters s) ws cs (total_registered s) (total_delivered s) (total_timeouts s).
Definition requests_of conv s : list string := dget_or [] conv (conversation_requests s).
Definition waiter_of rid s : option HITLWaiter := i ← dget rid (by_request s); waiters s !! i.

(** * Operations *)

Definition register_waiter (now : Z) rid conv (ty : string) (callback : bool) s : session_registry :=
  mkRegistry (waiters s ++ [mkWaiter rid conv ty now callback false None])
    (dset rid (length (waiters s)) (by_request s))
    (dset conv (requests_of conv s ++ [rid]) (conversation_requests s))
    (S (total_registered s)) (total_delivered s) (total_timeouts s).
Fixpoint remove_first (x : string) (l : list string) : list string :=
  match l with [] => [] | y :: l' => if decide (x = y) then l' else y :: remove_first x l' end.
(** The index of a conversation without one mention of a request. *)
Definition drop_request rid conv (cs : list (string * list string)) : list (string * list string) :=
  let l := dget_or [] conv cs in
  if decide (rid ∈ l)
  then match remove_first rid l with [] => ddel conv cs | l' => dset conv l' cs end
  else cs.
Definition unregister_waiter rid s : session_registry * bool :=
  match waiter_of rid s with
  | None => (s, false)
  | Some x => (set_index (ddel rid (by_request s)) (drop_request rid (wt_conversation x) (conversation_requests s)) s, true)
  end.
Definition set_waiter (i : nat) (f : HITLWaiter → HITLWaiter) s : session_registry :=
  mkRegistry (alter f i (waiters s)) (by_request s) (conversation_requests s) (total_registered s)
    (total_delivered s) (total_timeouts s).
(** [deliver_response], with the lock: the waiter to call back, if there is one *)
Definition deliver_begin rid (data : pyval) s : session_registry * option nat :=
  match dget rid (by_request s) with
  | None => (s, None)
  | Some i => (set_waiter i (λ x, mkWaiter (wt_request x) (wt_conversation x) (wt_type x) (wt_registered_at x)
                              (wt_callback x) true (Some data)) s, Some i)
  end.
(** After the callback, whose exceptions are caught. *)
Definition deliver_end s : session_registry :=
  mkRegistry (waiters s) (by_request s) (conversation_requests s) (total_registered s)
    (S (total_delivered s)) (total_timeouts s).
(** [wait_for_response]: the waiter whose event is awaited *)
Definition wait_begin rid s : option nat := dget rid (by_request s).
Definition wait_resume (i : nat) s : option (option pyval) :=
  x ← waiters s !! i; if wt_event x then Some (wt_data x) else None.
Definition wait_timeout s : session_registry :=
  mkRegistry (waiters s) (by_request s) (conversation_requests s) (total_registered s)
    (total_delivered s) (S (total_timeouts s)).
Definition has_waiter rid s : bool := dmem rid (by_request s).
Definition get_waiters_by_conversation conv s : list HITLWaiter :=
  omap (λ rid, waiter_of rid s) (requests_of conv s).
Definition delivery_rate s : Q :=
  if 0 <? total_registered s
  then inject_Z (Z.of_nat (total_delivered s)) / inject_Z (Z.of_nat (total_registered s)) else 0.
Definition get_stats s : nat * nat * nat * nat * nat * Q :=
  (length (by_request s), length (conversation_requests s), total_registered s, total_delivered s,
   total_timeouts s, delivery_rate s).
(** [cleanup_expired]: the scan, and the removals one after the other *)
Definition expired (now max_age : Z) s : list string :=
  omap (λ kv, x ← waiters s !! kv.2; if (max_age <? now - wt_registered_at x)%Z then Some kv.1 else None)
    (by_request s).
Definition remove_all (ids : list string) s : session_registry * nat :=
  foldl (λ '(s, n) rid, let '(s', b) := unregister_waiter rid s in (s', n + Nat.b2n b)) (s, 0) ids.
Definition cleanup_expired (now max_age : Z) s : session_registry * nat := remove_all (expired now max_age s) s.
End registry.

(** * Histories *)

Inductive registry_call : Type :=
  | Register (now : Z) (rid conv ty : string) (callback : bool)
  | Unregister (rid : string)
  | Deliver (rid : string) (data : pyval)
  | Delivered
  | Timeout.
Definition registry_step (s : session_registry) (c : registry_call) : session_registry :=
  match c with
  | Register now rid conv ty cb => register_waiter now rid conv ty cb s
  | Unregister rid => (unregister_waiter rid s).1
  | Deliver rid d => (deliver_begin rid d s).1
  | Delivered => deliver_end s
  | Timeout => wait_timeout s
  end.
Fixpoint registry_run (l : list registry_call) (s : session_registry) : session_registry :=
  match l with [] => s | c :: l' => registry_run l' (registry_step s c) end.
(** No request is registered while it is registered. *)
Fixpoint fresh_ids (l : list registry_call) (s : session_registry) : bool :=
  match l with
  | [] => true
  | c :: l' =>
      match c with Register _ rid _ _ _ => negb (has_waiter rid s) | _ => true end &&
      fresh_ids l' (registry_step s c)
  end.

(** * The index of conversations *)

Lemma elem_remove_first x y l : NoDup l → y ∈ remove_first x l ↔ y ∈ l ∧ y ≠ x.
Proof.
  induction 1 as [|z l Hz Hl IH]; simpl; [set_solver|]. case_decide; [subst|].
  - rewrite elem_of_cons. naive_solver.
  - rewrite !elem_of_cons, IH. naive_solver.
Qed.
Lemma nodup_remove_first x l : NoDup l → NoDup (remove_first x l).
Proof.
  induction 1 as [|z l Hz Hl IH]; simpl; [constructor|]. case_decide; [done|]. constructor; [|done].
  rewrite elem_remove_first by done. naive_solver.
Qed.
Lemma requests_dropped rid conv cs conv' : NoDup (dget_or [] conv cs) →
  dget_or [] conv' (drop_request rid conv cs) =
  if decide (conv' = conv) then remove_first rid (dget_or [] conv cs) else dget_or [] conv' cs.
Proof.
  intros Hn. unfold drop_request. destruct (decide (rid ∈ dget_or [] conv cs)) as [Hin|Hin].
  - destruct (remove_first rid (dget_or [] conv cs)) as [|a l] eqn:Hr; unfold dget_or; case_decide; subst.
    + by rewrite dget_ddel_eq.
    + by rewrite dget_ddel_ne.
    + by rewrite dget_dset_eq.
    + by rewrite dget_dset_ne.
  - case_decide; [subst|done]. revert Hin. generalize (dget_or [] conv cs). intros l Hin.
    induction l as [|a l IH]; simpl; [done|]. rewrite decide_False by set_solver. f_equal. apply IH. set_solver.
Qed.

Definition listed (s : session_registry) (rid conv : string) : Prop :=
  ∃ x, waiter_of rid s = Some x ∧ wt_conversation x = conv.
Record indexed (s : session_registry) : Prop := {
  ix_cell : ∀ rid i, dget rid (by_request s) = Some i → ∃ x, waiters s !! i = Some x ∧ wt_request x = rid;
  ix_listed : ∀ conv rid, rid ∈ requests_of conv s ↔ listed s rid conv;
  ix_nodup : ∀ conv, NoDup (requests_of conv s);
  ix_filled : ∀ conv l, dget conv (conversation_requests s) = Some l → l ≠ [];
}.
Lemma register_indexed s now rid conv ty cb : indexed s → has_waiter rid s = false →
  indexed (register_waiter now rid conv ty cb s).
Proof.
  intros [Hc Hl Hn Hf] Hfresh.
  assert (Hnone : dget rid (by_request s) = None) by (unfold has_waiter, dmem in Hfresh; by destruct (dget rid _)).
  assert (Hreq : ∀ conv', requests_of conv' (register_waiter now rid conv ty cb s) =
    if decide (conv = conv') then requests_of conv s ++ [rid] else requests_of conv' s).
  { intros conv'. unfold requests_of, dget_or. simpl. rewrite dget_dset.
    repeat case_decide; by subst. }
  assert (Hnew : ∀ r, waiter_of r (register_waiter now rid conv ty cb s) =
    if decide (r = rid) then Some (mkWaiter rid conv ty now cb false None) else waiter_of r s).
  { intros r. unfold waiter_of. simpl. rewrite dget_dset.
    destruct (decide (r = rid)) as [->|Hne]; [rewrite decide_True by done|rewrite decide_False by congruence]; simpl.
    - by apply list_lookup_middle.
    - destruct (dget r (by_request s)) as [i|] eqn:Hi; simpl; [|done].
      destruct (Hc r i Hi) as (x & Hx & _). rewrite Hx. by apply lookup_app_l_Some. }
  assert (Hno : ∀ c, rid ∉ requests_of c s).
  { intros c Hin. apply Hl in Hin as (x & Hx & _). unfold waiter_of in Hx. by rewrite Hnone in Hx. }
  constructor.
  - intros r i. simpl. rewrite dget_dset. case_decide; [intros [= <-]; subst|intros Hi].
    + eexists. split; [by apply list_lookup_middle|done].
    + destruct (Hc r i Hi) as (x & Hx & ?). exists x. split; [by apply lookup_app_l_Some|done].
  - intros c r. rewrite Hreq. unfold listed. rewrite Hnew. specialize (Hno c).
    destruct (decide (conv = c)) as [->|]; destruct (decide (r = rid)) as [->|]; rewrite ?elem_of_app, ?list_elem_of_singleton.
    + split; [intros _; eauto|intros _; by right].
    + rewrite Hl. unfold listed. naive_solver.
    + split; [done|]. intros (x & [= <-] & ?). done.
    + by rewrite Hl.
  - intros c. rewrite Hreq. case_decide; [subst|done]. apply NoDup_app. split_and!; [done|set_solver|apply NoDup_singleton].
  - intros c l. simpl. rewrite dget_dset. case_decide; [intros [= <-]; by destruct (requests_of conv s)|apply Hf].
Qed.
Lemma unregister_indexed s rid : indexed s → indexed (unregister_waiter rid s).1.
Proof.
  intros Hs. pose proof Hs as [Hc Hl Hn Hf]. unfold unregister_waiter. destruct (waiter_of rid s) as [x|] eqn:Hx; [|done].
  simpl. set (s' := set_index _ _ s).
  assert (Hreq : ∀ c, requests_of c s' =
    if decide (c = wt_conversation x) then remove_first rid (requests_of (wt_conversation x) s) else requests_of c s).
  { intros c. unfold requests_of. simpl. by rewrite requests_dropped by apply Hn. }
  assert (Hw : ∀ r, waiter_of r s' = if decide (r = rid) then None else waiter_of r s).
  { intros r. unfold waiter_of. simpl. rewrite dget_ddel.
    destruct (decide (r = rid)) as [->|]; [by rewrite decide_True|by rewrite decide_False]. }
  constructor.
  - intros r i. simpl. rewrite dget_ddel. case_decide; [done|]. apply Hc.
  - intros c r. rewrite Hreq. unfold listed. rewrite Hw.
    destruct (decide (c = wt_conversation x)) as [->|Hne].
    + rewrite elem_remove_first by apply Hn. rewrite Hl. unfold listed. case_decide; naive_solver.
    + rewrite Hl. unfold listed. case_decide; [subst; naive_solver|done].
  - intros c. rewrite Hreq. case_decide; [by apply nodup_remove_first|done].
  - intros c l. simpl. unfold drop_request. case_decide; [|apply Hf].
    destruct (remove_first _ _) as [|a k] eqn:Hr; [rewrite dget_ddel|rewrite dget_dset]; case_decide; try done.
    + apply Hf.
    + by intros [= <-].
    + apply Hf.
Qed.
Lemma deliver_indexed s rid d : indexed s → indexed (deliver_begin rid d s).1.
Proof.
  intros Hs. pose proof Hs as [Hc Hl Hn Hf]. unfold deliver_begin. destruct (dget rid (by_request s)) as [i|]; [|done].
  simpl. set (s' := set_waiter i _ s).
  assert (Hlook : ∀ j, (wt_request <$> waiters s' !! j) = (wt_request <$> waiters s !! j) ∧
    (wt_conversation <$> waiters s' !! j) = (wt_conversation <$> waiters s !! j)).
  { intros j. simpl. rewrite list_lookup_alter. case_decide; [subst|done]. by destruct (waiters s !! j). }
  constructor; [| |exact Hn|exact Hf].
  - intros r j Hj. destruct (Hc r j Hj) as (x & Hx & Hr). destruct (Hlook j) as [H1 _]. rewrite Hx in H1.
    destruct (waiters s' !! j) as [y|] eqn:Hy; [|done]. simpl in H1. injection H1 as H1. exists y. by rewrite H1.
  - intros c r. change (requests_of c s') with (requests_of c s). rewrite Hl. unfold listed, waiter_of.
    change (by_request s') with (by_request s). destruct (dget r (by_request s)) as [j|]; cbn [mbind option_bind]; [|done].
    destruct (Hlook j) as [_ H2]. destruct (waiters s !! j) as [x|], (waiters s' !! j) as [y|]; try done.
    injection H2 as H2. split; intros (z & Hz0 & Hz); injection Hz0 as <-; eexists; (split; [done|congruence]).
Qed.
(** As long as no request is registered while it still is, a conversation lists
    exactly the requests that are registered for it, each once, and no
    conversation stays behind without one. *)
Lemma registry_indexed l : fresh_ids l new_registry = true → indexed (registry_run l new_registry).
Proof.
  assert (H : ∀ s, indexed s → fresh_ids l s = true → indexed (registry_run l s)).
  { induction l as [|c l IH]; intros s Hs Hl; simpl in *; [done|]. apply andb_true_iff in Hl as [Hc Hl].
    apply IH; [|done]. destruct c; simpl.
    - apply register_indexed; [done|]. by apply negb_true_iff in Hc.
    - by apply unregister_indexed.
    - by apply deliver_indexed.
    - by destruct Hs.
    - by destruct Hs. }
  intros Hl. apply H; [|done]. constructor; try done; [|constructor]. intros c r. split; [set_solver|].
  by intros (x & Hx & _).
Qed.
(** Registered twice, a request is listed twice, and one removal leaves the
    other mention behind. *)
Lemma registered_twice :
  let s := registry_run [Register 0 "r" "c" "decision" false; Register 1 "r" "c" "decision" false] new_registry in
  length (get_waiters_by_conversation "c" s) = 2 ∧
  requests_of "c" (unregister_waiter "r" s).1 = ["r"] ∧ has_waiter "r" (unregister_waiter "r" s).1 = false.
Proof. by vm_compute. Qed.
