(* ===== verification/WtpEnvelope.v ===== *)
(** Envelopes of the workspace task protocol: what a leader and its workers
    send each other, as a record, as a dictionary, and as the metadata and
    content of a message.

    Source: src/src/domain/model/workspace/wtp_envelope.py, and the reader of
    messages of src/src/infrastructure/agent/workspace/workspace_inbox_loop.py.
    An attribute of any type is a [pyval]; the random id of an envelope that
    comes without a correlation is an argument.  A key of a dictionary that is
    no string, which nothing reads, is left out.  Where several required keys
    are wrong, the code reports whichever the hash order puts first. *)

From S2P Require Import Prelude Json.
From Stdlib Require Import Ascii.

Open Scope string_scope.
Open Scope list_scope.
Open Scope nat_scope.

Notation dict := (list (string * pyval)).

(** * Verbs *)

Module WtpVerb.
Inductive t : Set :=
  | TASK_ASSIGN | TASK_REVISE | TASK_CANCEL | TASK_CLARIFY_RESPONSE
  | TASK_PROGRESS | TASK_CLARIFY_REQUEST | TASK_COMPLETED | TASK_BLOCKED | TASK_HEARTBEAT.
#[global] Instance t_eq_dec : EqDecision t.
Proof. solve_decision. Defined.
Definition value (x : t) : string :=
  match x with
  | TASK_ASSIGN => "task.assign" | TASK_REVISE => "task.revise" | TASK_CANCEL => "task.cancel"
  | TASK_CLARIFY_RESPONSE => "task.clarify_response" | TASK_PROGRESS => "task.progress"
  | TASK_CLARIFY_REQUEST => "task.clarify_request" | TASK_COMPLETED => "task.completed"
  | TASK_BLOCKED => "task.blocked" | TASK_HEARTBEAT => "task.heartbeat"
  end.
Definition leader_to_worker : list t := [TASK_ASSIGN; TASK_REVISE; TASK_CANCEL; TASK_CLARIFY_RESPONSE].
Definition worker_to_leader : list t :=
  [TASK_PROGRESS; TASK_CLARIFY_REQUEST; TASK_COMPLETED; TASK_BLOCKED; TASK_HEARTBEAT].
Definition all : list t := leader_to_worker ++ worker_to_leader.
(** [WtpVerb(v)]; [None]: [ValueError] *)
Definition of_value (v : pyval) : option t :=
  match v with PStr s => head (filter (λ x, value x = s) all) | _ => None end.
Definition terminal : list t := [TASK_COMPLETED; TASK_BLOCKED].
Definition request_verbs : list t := [TASK_ASSIGN; TASK_REVISE; TASK_CLARIFY_REQUEST].
Definition is_terminal (x : t) : bool := bool_decide (x ∈ terminal).

Lemma of_value_value x : of_value (PStr (value x)) = Some x.
Proof. destruct x; vm_compute; reflexivity. Qed.
Lemma value_truthy x : py_truth (PStr (value x)) = true.
Proof. by destruct x. Qed.
End WtpVerb.

Inductive AgentMessageType : Set := REQUEST | RESPONSE | NOTIFICATION | ANNOUNCE.
Definition default_message_type (x : WtpVerb.t) : AgentMessageType :=
  if bool_decide (x ∈ [WtpVerb.TASK_ASSIGN; WtpVerb.TASK_REVISE; WtpVerb.TASK_CLARIFY_REQUEST]) then REQUEST
  else if bool_decide (x = WtpVerb.TASK_CLARIFY_RESPONSE) then RESPONSE
  else if WtpVerb.is_terminal x then ANNOUNCE
  else NOTIFICATION.

(** * Envelopes *)

Record WtpEnvelope : Type := mkEnvelope {
  verb : WtpVerb.t;
  workspace_id : string;
  task_id : string;
  attempt_id : string;
  payload : dict;
  correlation_id : string;
  root_goal_task_id : option string;
  parent_message_id : pyval;
  extra_metadata : dict }.

(** What a [WtpValidationError] says. *)
Inductive defect : Type :=
  | BadField (name : string)
  | BadRootGoal
  | MissingKeys (keys : list string)
  | BadValue (key : string)
  | BlankValue (key : string)
  | NoVerb
  | UnknownVerb (v : pyval)
  | NotJson
  | NotADict.
Inductive wtp_error : Type := WtpValidationError (why : defect) | KeyError | TypeError | ValueError.

(** [_REQUIRED_PAYLOAD_KEYS] *)
Definition required_payload_keys (x : WtpVerb.t) : list string :=
  match x with
  | WtpVerb.TASK_ASSIGN => ["title"; "description"]
  | WtpVerb.TASK_REVISE => ["diff"]
  | WtpVerb.TASK_CANCEL => ["reason"]
  | WtpVerb.TASK_CLARIFY_RESPONSE => ["answer"]
  | WtpVerb.TASK_PROGRESS => ["summary"]
  | WtpVerb.TASK_CLARIFY_REQUEST => ["question"]
  | WtpVerb.TASK_COMPLETED => ["summary"]
  | WtpVerb.TASK_BLOCKED => ["reason"]
  | WtpVerb.TASK_HEARTBEAT => []
  end.
(** [isinstance(value, str) and value] *)
Definition filled_text (v : pyval) : bool := match v with PStr s => truthy s | _ => false end.
Definition value_defect (d : dict) (key : string) : option defect :=
  match dget_or PNone key d with
  | PNone | PList _ | PDict _ => None
  | PStr s => if truthy (strip s) then None else Some (BlankValue key)
  | _ => Some (BadValue key)
  end.
Definition first_defect (l : list (option defect)) : option defect := head (omap id l).
Definition id_defect (nv : string * pyval) : option defect :=
  if filled_text nv.2 then None else Some (BadField nv.1).
Definition payload_defect (x : WtpVerb.t) (d : dict) : option defect :=
  match filter (λ k, k ∉ dkeys d) (required_payload_keys x) with
  | [] => first_defect (value_defect d <$> required_payload_keys x)
  | missing => Some (MissingKeys (sort_by String.leb missing))
  end.
(** [validate] of an object with these attributes *)
Definition validate_fields (x : WtpVerb.t) (workspace task attempt correlation root : pyval) (d : dict)
    : option defect :=
  match first_defect (id_defect <$> [("workspace_id", workspace); ("task_id", task); ("attempt_id", attempt);
                                     ("correlation_id", correlation)]) with
  | Some w => Some w
  | None => match root with PNone | PStr _ => payload_defect x d | _ => Some BadRootGoal end
  end.
Definition opt_text (o : option string) : pyval := from_option PStr PNone o.
Definition validate (e : WtpEnvelope) : option defect :=
  validate_fields (verb e) (PStr (workspace_id e)) (PStr (task_id e)) (PStr (attempt_id e))
    (PStr (correlation_id e)) (opt_text (root_goal_task_id e)) (payload e).
Definition text_of (v : pyval) : string := match v with PStr s => s | _ => "" end.
Definition text_opt (v : pyval) : option string := match v with PStr s => Some s | _ => None end.
(** [WtpEnvelope(...)]: the attributes are set and validated. *)
Definition new_envelope (x : WtpVerb.t) (workspace task attempt correlation root parent : pyval) (d extra : dict)
    : result wtp_error WtpEnvelope :=
  match validate_fields x workspace task attempt correlation root d with
  | Some w => Err (WtpValidationError w)
  | None => Ok (mkEnvelope x (text_of workspace) (text_of task) (text_of attempt) d (text_of correlation)
                  (text_opt root) parent extra)
  end.

(** * Writing *)

(** [d.update(new)] *)
Definition update_dict (d new : dict) : dict := foldl (λ d kv, dset kv.1 kv.2 d) d new.
Definition WTP_VERSION : string := "1".
Definition to_metadata (e : WtpEnvelope) : dict :=
  let meta := update_dict (extra_metadata e)
    [("wtp_version", PStr WTP_VERSION); ("wtp_verb", PStr (WtpVerb.value (verb e)));
     ("workspace_id", PStr (workspace_id e)); ("task_id", PStr (task_id e));
     ("attempt_id", PStr (attempt_id e)); ("correlation_id", PStr (correlation_id e))] in
  match root_goal_task_id e with Some r => dset "root_goal_task_id" (PStr r) meta | None => meta end.
Definition to_content (e : WtpEnvelope) : string := json_dumps true false (PDict (payload e)).
Definition to_dict (e : WtpEnvelope) : dict :=
  [("verb", PStr (WtpVerb.value (verb e))); ("workspace_id", PStr (workspace_id e)); ("task_id", PStr (task_id e));
   ("attempt_id", PStr (attempt_id e)); ("correlation_id", PStr (correlation_id e));
   ("root_goal_task_id", opt_text (root_goal_task_id e)); ("parent_message_id", parent_message_id e);
   ("payload", PDict (payload e)); ("extra_metadata", PDict (extra_metadata e))].

(** * Reading *)

(** [v or w] *)
Definition py_or (v w : pyval) : pyval := if py_truth v then v else w.
(** One element of the sequence [dict] is given. *)
Definition dict_item (d : dict) (item : pyval) : result wtp_error dict :=
  match item with
  | PList [k; v] =>
      match k with
      | PStr s => Ok (dset s v d)
      | PList _ | PDict _ => Err TypeError
      | _ => Ok d
      end
  | PStr (String a (String b EmptyString)) => Ok (dset (String a "") (PStr (String b "")) d)
  | PDict [(k, _); (v, _)] => Ok (dset k (PStr v) d)
  | PList _ | PStr _ | PDict _ => Err ValueError
  | PNone | PBool _ | PInt _ => Err TypeError
  end.
(** [dict(v or {})] *)
Definition dict_or_empty (v : pyval) : result wtp_error dict :=
  match py_or v (PDict []) with
  | PDict d => Ok d
  | PList l => foldl (λ acc item, d ← acc; dict_item d item) (Ok []) l
  | PStr _ => Err ValueError
  | _ => Err TypeError
  end.
(** [data[key]] *)
Definition item (key : string) (d : dict) : result wtp_error pyval := of_option (dget key d) KeyError.
Definition from_dict (fresh : string) (data : pyval) : result wtp_error WtpEnvelope :=
  match data with
  | PDict d =>
      match dget "verb" d ≫= WtpVerb.of_value with
      | None => Err (WtpValidationError (UnknownVerb (dget_or PNone "verb" d)))
      | Some x =>
          workspace ← item "workspace_id" d;
          task ← item "task_id" d;
          attempt ← item "attempt_id" d;
          payload ← dict_or_empty (dget_or PNone "payload" d);
          extra ← dict_or_empty (dget_or PNone "extra_metadata" d);
          new_envelope x workspace task attempt (py_or (dget_or PNone "correlation_id" d) (PStr fresh))
            (dget_or PNone "root_goal_task_id" d) (dget_or PNone "parent_message_id" d) payload extra
      end
  | _ => Err TypeError
  end.

Record AgentMessage : Type := mkMessage {
  message_id : string;
  from_agent_id : string;
  to_agent_id : string;
  session_id : string;
  content : string;
  message_type : AgentMessageType;
  metadata : option dict;
  parent_message : option string }.

Definition reserved_keys : list string :=
  ["wtp_verb"; "wtp_version"; "workspace_id"; "task_id"; "attempt_id"; "correlation_id"; "root_goal_task_id"].
(** What is left when the reserved keys are popped. *)
Definition pop_keys (d : dict) : dict := foldl (λ d k, ddel k d) d reserved_keys.
Definition read_content (text : string) : result wtp_error dict :=
  if truthy text then
    match json_loads text with
    | None => Err (WtpValidationError NotJson)
    | Some (PDict d) => Ok d
    | Some _ => Err (WtpValidationError NotADict)
    end
  else Ok [].
Definition from_message (fresh : string) (m : AgentMessage) : result wtp_error WtpEnvelope :=
  let d := default [] (metadata m) in
  let verb_str := dget_or PNone "wtp_verb" d in
  if py_truth verb_str then
    match WtpVerb.of_value verb_str with
    | None => Err (WtpValidationError (UnknownVerb verb_str))
    | Some x =>
        let pop k := py_or (dget_or (PStr "") k d) (PStr "") in
        payload ← read_content (content m);
        new_envelope x (pop "workspace_id") (pop "task_id") (pop "attempt_id")
          (py_or (dget_or (PStr "") "correlation_id" d) (PStr fresh)) (dget_or PNone "root_goal_task_id" d)
          (opt_text (parent_message m)) payload (pop_keys d)
    end
  else Err (WtpValidationError NoVerb).
Definition is_wtp_message (m : AgentMessage) : bool :=
  match default [] (metadata m) with [] => false | d => py_truth (dget_or PNone "wtp_verb" d) end.

(** ** The inbox loop *)

(** The payload [_envelope_from_message] makes of a content. *)
Definition inbox_payload (text : string) : dict :=
  let text := if truthy text then text else "{}" in
  if truthy (strip text) then
    match json_loads text with
    | None => []
    | Some (PDict d) => d
    | Some v => [("_raw", v)]
    end
  else [].
Definition is_none (v : pyval) : bool := match v with PNone => true | _ => false end.
(** The dictionary it composes. *)
Definition inbox_data (m : AgentMessage) (d : dict) : dict :=
  (prod_map id (λ k, dget_or PNone k d) <$>
     [("verb", "wtp_verb"); ("workspace_id", "workspace_id"); ("task_id", "task_id"); ("attempt_id", "attempt_id");
      ("correlation_id", "correlation_id"); ("root_goal_task_id", "root_goal_task_id")]) ++
  [("parent_message_id", opt_text (parent_message m)); ("payload", PDict (inbox_payload (content m)));
   ("extra_metadata", PDict (filter (λ kv, kv.1 ∉ reserved_keys) d))].
(** [_envelope_from_message] *)
Definition envelope_from_message (fresh : string) (m : AgentMessage) : option WtpEnvelope :=
  let d := default [] (metadata m) in
  if is_none (dget_or PNone "wtp_version" d) && is_none (dget_or PNone "wtp_verb" d) then None
  else match from_dict fresh (PDict (inbox_data m d)) with Ok e => Some e | Err _ => None end.

(** * Envelopes are valid *)

Lemma first_defect_none l : first_defect l = None ↔ ∀ x, x ∈ l → x = None.
Proof.
  unfold first_defect. induction l as [|[w|] l IH]; csimpl.
  - split; [intros _ x ?%elem_of_nil; done|done].
  - split; [done|]. intros H. by specialize (H (Some w) ltac:(left)).
  - rewrite IH. split; intros H x; [intros [->|?]%elem_of_cons; auto|intros; apply H; by right].
Qed.
Lemma filled_text_PStr v : filled_text v = true → v = PStr (text_of v).
Proof. by destruct v. Qed.
Lemma py_or_true v w : py_truth v = true → py_or v w = v.
Proof. unfold py_or. by intros ->. Qed.
Lemma filled_truthy v : filled_text v = true → py_truth v = true.
Proof. by destruct v. Qed.

(** What is known of attributes without a defect. *)
Lemma validate_fields_none x ws ta at_ co root d : validate_fields x ws ta at_ co root d = None ↔
  (filled_text ws = true ∧ filled_text ta = true ∧ filled_text at_ = true ∧ filled_text co = true) ∧
  root = opt_text (text_opt root) ∧ payload_defect x d = None.
Proof.
  unfold validate_fields. destruct (first_defect _) as [w|] eqn:Hd.
  - split; [done|]. intros ((H1 & H2 & H3 & H4) & _ & _). cbn in Hd. unfold id_defect in Hd. cbn in Hd.
    by rewrite H1, H2, H3, H4 in Hd.
  - rewrite first_defect_none in Hd. unfold id_defect in Hd. cbn in Hd.
    assert (Hf : ∀ n v, (if filled_text v then None else Some (BadField n)) = None → filled_text v = true).
    { intros n v. by destruct (filled_text v). }
    split.
    + intros H. split; [|by destruct root].
      split_and!; eapply Hf, Hd; repeat (left || right).
    + intros (_ & Hr & Hp). by destruct root.
Qed.
(** Every envelope a constructor returns is valid. *)
Lemma new_envelope_valid x ws ta at_ co root parent d extra e :
  new_envelope x ws ta at_ co root parent d extra = Ok e → validate e = None.
Proof.
  unfold new_envelope. destruct (validate_fields _ _ _ _ _ _ _) eqn:Hv; [done|]. intros [= <-].
  apply validate_fields_none in Hv as ((H1 & H2 & H3 & H4) & Hr & Hp).
  unfold validate. cbn. apply validate_fields_none.
  rewrite <-!filled_text_PStr by done. split_and!; try done. by destruct root.
Qed.
(** A valid envelope is rebuilt from its attributes. *)
Lemma new_envelope_same e : validate e = None →
  new_envelope (verb e) (PStr (workspace_id e)) (PStr (task_id e)) (PStr (attempt_id e)) (PStr (correlation_id e))
    (opt_text (root_goal_task_id e)) (parent_message_id e) (payload e) (extra_metadata e) = Ok e.
Proof.
  unfold validate, new_envelope. intros ->. destruct e as [x ws ta at_ d co [r|] parent extra]; done.
Qed.
Lemma valid_ids e : validate e = None →
  truthy (workspace_id e) = true ∧ truthy (task_id e) = true ∧ truthy (attempt_id e) = true ∧
  truthy (correlation_id e) = true.
Proof. intros [H _]%validate_fields_none. exact H. Qed.

(** * Round trips *)

Lemma dict_or_empty_dict d : dict_or_empty (PDict d) = Ok d.
Proof. by destruct d. Qed.
(** A dictionary keeps every attribute. *)
Lemma envelope_from_to_dict fresh e : validate e = None → from_dict fresh (PDict (to_dict e)) = Ok e.
Proof.
  intros Hv. destruct (valid_ids e Hv) as (_ & _ & _ & Hc).
  unfold from_dict. change (dget "verb" (to_dict e)) with (Some (PStr (WtpVerb.value (verb e)))).
  cbn [mbind option_bind]. rewrite WtpVerb.of_value_value.
  change (dget_or PNone "payload" (to_dict e)) with (PDict (payload e)).
  change (dget_or PNone "extra_metadata" (to_dict e)) with (PDict (extra_metadata e)).
  rewrite !dict_or_empty_dict.
  etrans; [|exact (new_envelope_same e Hv)]. cbn -[new_envelope].
  by rewrite py_or_true.
Qed.

(** What the dictionaries of an envelope have to be for its text to be JSON. *)
Record json_envelope (e : WtpEnvelope) : Prop := {
  payload_json : json_wf (PDict (payload e));
  extra_json : json_wf (PDict (extra_metadata e));
  parent_json : json_wf (parent_message_id e) }.
Lemma to_dict_json e : json_envelope e → json_wf (PDict (to_dict e)).
Proof.
  intros [Hp He Ha]. constructor; [vm_decide|].
  assert (Hr : json_wf (opt_text (root_goal_task_id e))) by (destruct (root_goal_task_id e); constructor).
  unfold to_dict. intros kv. rewrite !elem_of_cons, elem_of_nil.
  intros [->|[->|[->|[->|[->|[->|[->|[->|[->|[]]]]]]]]]]; cbn [snd]; first [assumption|constructor].
Qed.

(** The envelope with the keys of its payload in order. *)
Definition sorted_envelope (e : WtpEnvelope) : WtpEnvelope :=
  mkEnvelope (verb e) (workspace_id e) (task_id e) (attempt_id e) (sorted_dict (payload e)) (correlation_id e)
    (root_goal_task_id e) (parent_message_id e) (extra_metadata e).
Lemma payload_defect_sorted x d : dict_wf d → payload_defect x (sorted_dict d) = payload_defect x d.
Proof.
  intros Hd. unfold payload_defect.
  rewrite (filter_ext_elem (λ k, k ∉ dkeys (sorted_dict d)) (λ k, k ∉ dkeys d))
    by (intros k _; by rewrite sorted_dict_keys).
  case_match; [|done]. f_equal. apply list_fmap_ext. intros _ k _. unfold value_defect, dget_or.
  rewrite dget_sorted by done. by destruct (dget k d) as [[]|].
Qed.
Lemma validate_sorted e : dict_wf (payload e) → validate (sorted_envelope e) = validate e.
Proof. intros Hd. unfold validate, validate_fields. cbn. by rewrite payload_defect_sorted. Qed.

Lemma pop_keys_filter d : pop_keys d = filter (λ kv, kv.1 ∉ reserved_keys) d.
Proof.
  unfold pop_keys, reserved_keys, ddel. cbn [foldl]. rewrite !list_filter_filter. apply list_filter_iff.
  intros kv. cbn. rewrite !not_elem_of_cons. split; [|tauto]. intros. split_and!; try tauto. apply not_elem_of_nil.
Qed.
Lemma filter_dset_out (P : string → Prop) `{!∀ kv : string * pyval, Decision (P kv.1)} k v (d : dict) : ¬ P k →
  filter (λ kv, P kv.1) (dset k v d) = filter (λ kv, P kv.1) d.
Proof.
  intros HP. induction d as [|[k' x] d IH]; cbn [dset].
  - by rewrite filter_cons, decide_False.
  - case_decide; subst; rewrite !filter_cons; cbn [fst]; [by rewrite !decide_False|by rewrite IH].
Qed.
Lemma to_metadata_extra e : filter (λ kv, kv.1 ∉ reserved_keys) (to_metadata e) =
  filter (λ kv, kv.1 ∉ reserved_keys) (extra_metadata e).
Proof.
  assert (Hr : ∀ k, k ∈ reserved_keys → ∀ v (d : dict),
    filter (λ kv, kv.1 ∉ reserved_keys) (dset k v d) = filter (λ kv, kv.1 ∉ reserved_keys) d).
  { intros k Hk v d. apply (filter_dset_out (λ k, k ∉ reserved_keys)). auto. }
  unfold to_metadata. destruct (root_goal_task_id e); cbn -[reserved_keys]; rewrite !Hr by vm_decide; done.
Qed.

(** The message an envelope travels as. *)
Definition carries (m : AgentMessage) (e : WtpEnvelope) : Prop :=
  content m = to_content e ∧ metadata m = Some (to_metadata e) ∧ opt_text (parent_message m) = parent_message_id e.

Lemma to_metadata_get e : 
  (dget "wtp_verb" (to_metadata e) = Some (PStr (WtpVerb.value (verb e))) ∧
   dget "workspace_id" (to_metadata e) = Some (PStr (workspace_id e)) ∧
   dget "task_id" (to_metadata e) = Some (PStr (task_id e)) ∧
   dget "attempt_id" (to_metadata e) = Some (PStr (attempt_id e)) ∧
   dget "correlation_id" (to_metadata e) = Some (PStr (correlation_id e))) ∧
  dget "root_goal_task_id" (to_metadata e) =
    match root_goal_task_id e with Some r => Some (PStr r) | None => dget "root_goal_task_id" (extra_metadata e) end.
Proof.
  unfold to_metadata. destruct (root_goal_task_id e); cbn [update_dict foldl fst snd];
    rewrite !dget_dset; split_and!; reflexivity.
Qed.
Lemma dump_dict_truthy d : truthy (json_dumps true false (PDict d)) = true.
Proof. done. Qed.
Lemma read_content_dumped d : json_wf (PDict d) →
  read_content (json_dumps true false (PDict d)) = Ok (sorted_dict d).
Proof.
  intros Hd. unfold read_content. by rewrite dump_dict_truthy, json_loads_sorted, sorted_value_dict by done.
Qed.
(** What the reserved keys of the extra metadata may do to an envelope. *)
Lemma from_carrying fresh m e : validate e = None → json_wf (PDict (payload e)) → carries m e →
  (root_goal_task_id e = None → "root_goal_task_id" ∉ dkeys (extra_metadata e)) →
  from_message fresh m = Ok (mkEnvelope (verb e) (workspace_id e) (task_id e) (attempt_id e) (sorted_dict (payload e))
    (correlation_id e) (root_goal_task_id e) (parent_message_id e)
    (filter (λ kv, kv.1 ∉ reserved_keys) (extra_metadata e))).
Proof.
  intros Hv Hp (Hc & Hm & Ha) Hroot. unfold from_message. rewrite Hc, Hm, Ha. cbn [from_option id].
  destruct (to_metadata_get e) as ((H1 & H2 & H3 & H4 & H5) & H6).
  assert (Hr : dget_or PNone "root_goal_task_id" (to_metadata e) = opt_text (root_goal_task_id e)).
  { unfold dget_or. rewrite H6. destruct (root_goal_task_id e); [done|].
    by rewrite (proj2 (dget_None_keys _ _)) by auto. }
  rewrite Hr. unfold dget_or. rewrite H1, H2, H3, H4, H5. cbn [from_option id].
  rewrite WtpVerb.value_truthy, WtpVerb.of_value_value. unfold to_content. rewrite read_content_dumped by done.
  destruct (valid_ids e Hv) as (Hw & Ht & Hat & Hco).
  cbn [mbind result_bind]. rewrite !py_or_true, pop_keys_filter, to_metadata_extra by done.
  inversion Hp as [| | | | |d Hd _ Heq]; subst d.
  rewrite <-(validate_sorted e Hd) in Hv. change (validate_fields (verb e) (PStr (workspace_id e)) (PStr (task_id e)) (PStr (attempt_id e))
    (PStr (correlation_id e)) (opt_text (root_goal_task_id e)) (sorted_dict (payload e)) = None) in Hv.
  unfold new_envelope. rewrite Hv. cbn. by destruct (root_goal_task_id e).
Qed.

(** ** The two readers of messages *)

Lemma lstrip_blank s c : lstrip s = "" → c ∈ String.list_ascii_of_string s → is_space c = true.
Proof.
  induction s as [|a s IH]; cbn; [by intros _ ?%elem_of_nil|].
  destruct (is_space a) eqn:Ha; [|done]. intros Hs [->|Hc]%elem_of_cons; auto.
Qed.
Lemma strip_blank s c : strip s = "" → c ∈ String.list_ascii_of_string s → is_space c = true.
Proof.
  intros Hs. destruct (lstrip s) as [|a t] eqn:Hl; [by apply lstrip_blank|]. exfalso.
  assert (is_space a = false) as Ha.
  { clear Hs. revert Hl. induction s as [|b s IH]; [done|]. cbn. destruct (is_space b) eqn:Hb; [auto|].
    intros [= <- <-]. done. }
  apply (strip_keeps a t Ha). unfold strip in *. rewrite Hl in Hs.
  assert (lstrip (String a t) = String a t) as ->; [cbn; by rewrite Ha|done].
Qed.
(** No document is blank. *)
Lemma skip_ws_elem s c : c ∈ skip_ws s → c ∈ s.
Proof.
  induction s as [|a s IH]; [done|]. cbn. destruct (is_ws a); [|done]. intros. right. auto.
Qed.
Lemma read_space fuel c s : is_space c = true → read fuel (c :: s) = None.
Proof.
  intros Hc. destruct fuel as [|fuel]; [done|].
  destruct c as [[] [] [] [] [] [] [] []]; try done; reflexivity.
Qed.
Lemma loads_not_blank s v : json_loads s = Some v → truthy (strip s) = true.
Proof.
  intros Hl. rewrite truthy_true. intros Hs. unfold json_loads in Hl.
  destruct (skip_ws (String.list_ascii_of_string s)) as [|c t] eqn:Hk; [done|].
  rewrite read_space in Hl; [done|]. apply (strip_blank s c Hs), skip_ws_elem. rewrite Hk. left.
Qed.
Lemma inbox_payload_read text d : read_content text = Ok d → inbox_payload text = d.
Proof.
  unfold read_content, inbox_payload. destruct (truthy text) eqn:Ht; [|by intros [= <-]].
  destruct (json_loads text) as [v|] eqn:Hl; [|done]. rewrite (loads_not_blank _ _ Hl).
  by destruct v; intros [= <-].
Qed.
Lemma py_or_missing k (d : dict) w : py_or (dget_or (PStr "") k d) w = py_or (dget_or PNone k d) w.
Proof. unfold dget_or. by destruct (dget k d). Qed.
Lemma filled_or v : filled_text (py_or v (PStr "")) = filled_text v ∧ text_of (py_or v (PStr "")) = text_of v.
Proof. unfold py_or. destruct v as [|b|z|s|l|d]; cbn; repeat case_match; try done. unfold truthy in *. by case_bool_decide; simplify_eq. Qed.
Lemma new_envelope_or x ws ta at_ co root parent d extra :
  new_envelope x (py_or ws (PStr "")) (py_or ta (PStr "")) (py_or at_ (PStr "")) co root parent d extra =
  new_envelope x ws ta at_ co root parent d extra.
Proof.
  destruct (filled_or ws) as [H1 H2], (filled_or ta) as [H3 H4], (filled_or at_) as [H5 H6].
  unfold new_envelope, validate_fields, id_defect. cbn. rewrite H1, H2, H3, H4, H5, H6. done.
Qed.
(** The inbox reads the attributes as [from_message] does. *)
Lemma inbox_reads fresh m d : metadata m = Some d → py_truth (dget_or PNone "wtp_verb" d) = true →
  envelope_from_message fresh m =
    match WtpVerb.of_value (dget_or PNone "wtp_verb" d) with
    | Some x =>
        match new_envelope x (dget_or PNone "workspace_id" d) (dget_or PNone "task_id" d) (dget_or PNone "attempt_id" d)
          (py_or (dget_or PNone "correlation_id" d) (PStr fresh)) (dget_or PNone "root_goal_task_id" d)
          (opt_text (parent_message m)) (inbox_payload (content m)) (pop_keys d) with
        | Ok e => Some e | Err _ => None end
    | None => None
    end.
Proof.
  intros Hm Hv. unfold envelope_from_message. rewrite Hm, pop_keys_filter. cbn [from_option id].
  assert (is_none (dget_or PNone "wtp_verb" d) = false) as -> by by destruct (dget_or PNone "wtp_verb" d).
  rewrite andb_false_r. unfold from_dict.
  change (dget "verb" (inbox_data m d)) with (Some (dget_or PNone "wtp_verb" d)). cbn [mbind option_bind].
  destruct (WtpVerb.of_value _) as [x|]; [|done].
  change (dget_or PNone "payload" (inbox_data m d)) with (PDict (inbox_payload (content m))).
  change (dget_or PNone "extra_metadata" (inbox_data m d)) with (PDict (filter (λ kv, kv.1 ∉ reserved_keys) d)).
  by rewrite !dict_or_empty_dict.
Qed.
Lemma from_message_reads fresh m d p : metadata m = Some d → py_truth (dget_or PNone "wtp_verb" d) = true →
  read_content (content m) = Ok p →
  from_message fresh m =
    match WtpVerb.of_value (dget_or PNone "wtp_verb" d) with
    | Some x =>
        new_envelope x (dget_or PNone "workspace_id" d) (dget_or PNone "task_id" d) (dget_or PNone "attempt_id" d)
          (py_or (dget_or PNone "correlation_id" d) (PStr fresh)) (dget_or PNone "root_goal_task_id" d)
          (opt_text (parent_message m)) p (pop_keys d)
    | None => Err (WtpValidationError (UnknownVerb (dget_or PNone "wtp_verb" d)))
    end.
Proof.
  intros Hm Hv Hp. unfold from_message. rewrite Hm. cbn [from_option id]. rewrite Hv, Hp.
  destruct (WtpVerb.of_value _) as [x|]; [|done]. cbn [mbind result_bind].
  rewrite !py_or_missing. apply new_envelope_or.
Qed.
(** Only a heartbeat needs nothing in its payload. *)
Lemma unread_payload_heartbeat x text w : read_content text = Err w →
  payload_defect x (inbox_payload text) = None → x = WtpVerb.TASK_HEARTBEAT.
Proof.
  unfold read_content, inbox_payload. destruct (truthy text); [|done].
  destruct (json_loads text) as [v|] eqn:Hl.
  - rewrite (loads_not_blank _ _ Hl). destruct v; try done; intros _; by destruct x.
  - intros _. destruct (truthy (strip text)); by destruct x.
Qed.
(** A message that is no envelope is one for neither reader. *)
Lemma inbox_no_verb fresh m : py_truth (dget_or PNone "wtp_verb" (default [] (metadata m))) = false →
  envelope_from_message fresh m = None.
Proof.
  intros Hv. unfold envelope_from_message. set (d := default [] (metadata m)) in *. case_match; [done|].
  unfold from_dict. change (dget "verb" (inbox_data m d)) with (Some (dget_or PNone "wtp_verb" d)).
  cbn [mbind option_bind]. by destruct (dget_or PNone "wtp_verb" d) as [| | |[]| |].
Qed.

(** * Properties *)

(** C21. An envelope survives its two transports: the text a supervisor's
    stream carries gives it back whole, and the message the bus carries gives
    it back with the keys of its payload in order, as long as its extra
    metadata stays away from the keys the protocol reserves. *)
Theorem envelope_roundtrip fresh e : validate e = None → json_envelope e →
  (v ← json_loads (json_dumps false false (PDict (to_dict e))); Some (from_dict fresh v)) = Some (Ok e) ∧
  ∀ m, carries m e → (∀ k, k ∈ reserved_keys → k ∉ dkeys (extra_metadata e)) →
    from_message fresh m = Ok (sorted_envelope e).
Proof.
  intros Hv Hj. split.
  - rewrite json_loads_dumps by by apply to_dict_json. cbn [mbind option_bind]. by rewrite envelope_from_to_dict.
  - intros m Hm Hr. rewrite (from_carrying fresh m e Hv (payload_json _ Hj) Hm) by (intros _; apply Hr; vm_decide).
    rewrite filter_all; [done|]. intros kv Hkv Hk. apply (Hr _ Hk). by apply list_elem_of_fmap_2.
Qed.

(** The two readers of messages agree: where the content is an object or
    empty, the inbox loop accepts exactly what [from_message] accepts, as the
    same envelope; where it is not, [from_message] refuses the message and the
    inbox loop can take it for a heartbeat only. *)
Theorem receivers_agree fresh m :
  match read_content (content m) with
  | Ok _ => envelope_from_message fresh m = match from_message fresh m with Ok e => Some e | Err _ => None end
  | Err _ => (∃ w, from_message fresh m = Err w) ∧
      ∀ e, envelope_from_message fresh m = Some e → verb e = WtpVerb.TASK_HEARTBEAT
  end.
Proof.
  destruct (py_truth (dget_or PNone "wtp_verb" (default [] (metadata m)))) eqn:Hv.
  - destruct (metadata m) as [d|] eqn:Hm; [|done]. cbn [from_option id] in Hv. rewrite (inbox_reads _ _ _ Hm Hv).
    destruct (read_content (content m)) as [p|w] eqn:Hp.
    + rewrite (from_message_reads _ _ _ _ Hm Hv Hp), (inbox_payload_read _ _ Hp).
      by destruct (WtpVerb.of_value _).
    + split; [unfold from_message; rewrite Hm; cbn [from_option id]; rewrite Hv, Hp;
              destruct (WtpVerb.of_value _); eauto|].
      intros e. destruct (WtpVerb.of_value _) as [x|]; [|done]. case_match eqn:Hn; [|done]. intros [= ->].
      unfold new_envelope in Hn. destruct (validate_fields _ _ _ _ _ _ _) eqn:Hf; [done|]. injection Hn as <-.
      apply validate_fields_none in Hf as (_ & _ & Hf). exact (unread_payload_heartbeat _ _ _ Hp Hf).
  - rewrite (inbox_no_verb _ _ Hv). unfold from_message. rewrite Hv.
    case_match; [done|]. split; [eauto|done].
Qed.

(** * Witnesses *)

Definition done_report : WtpEnvelope :=
  mkEnvelope WtpVerb.TASK_COMPLETED "ws" "task" "attempt" [("summary", PStr "built it"); ("artifacts", PList [PStr "a.md"])]
    "corr" (Some "goal") PNone [("worker_agent_id", PStr "w1")].
Definition done_message : AgentMessage :=
  mkMessage "m" "w1" "l1" "s" (to_content done_report) ANNOUNCE (Some (to_metadata done_report)) None.
Lemma envelope_roundtrip_witness :
  from_message "fresh" done_message = Ok (sorted_envelope done_report) ∧
  payload (sorted_envelope done_report) = [("artifacts", PList [PStr "a.md"]); ("summary", PStr "built it")].
Proof.
  assert (json_envelope done_report) as Hj.
  { split; by apply json_ok_wf. }
  pose proof (envelope_roundtrip "fresh" done_report eq_refl Hj) as [_ H].
  split; [|reflexivity]. apply H; [repeat split|]. intros k. revert k. apply Forall_forall. vm_decide.
Defined.
(** Extra metadata under a reserved key is lost, or becomes an attribute. *)
Example reserved_key_lost :
  let e := mkEnvelope WtpVerb.TASK_HEARTBEAT "ws" "task" "attempt" [] "corr" None PNone
             [("task_id", PStr "other"); ("root_goal_task_id", PStr "goal"); ("k", PInt 1)] in
  from_message "" (mkMessage "m" "a" "b" "s" (to_content e) NOTIFICATION (Some (to_metadata e)) None) =
    Ok (mkEnvelope WtpVerb.TASK_HEARTBEAT "ws" "task" "attempt" [] "corr" (Some "goal") PNone [("k", PInt 1)]).
Proof. vm_compute. reflexivity. Qed.
(** A null passes for what the verb requires. *)
Example null_summary : validate (mkEnvelope WtpVerb.TASK_COMPLETED "ws" "task" "attempt" [("summary", PNone)] "c" None PNone [])
  = None.
Proof. vm_compute. reflexivity. Qed.
