(* ===== verification/WtpSupervisor.v ===== *)
(** The supervisor of a workspace's protocol: it reads the stream of envelopes,
    reports what ends an attempt, hands answers to the workers that wait for
    them, and watches over attempts that have gone quiet.

    Source: src/src/infrastructure/agent/workspace/workspace_supervisor.py,
    over the envelopes of WtpEnvelope.v.  The calls of
    [apply_workspace_worker_report] and [deliver_clarification_response] are
    the effects of a step; the state changes before they are awaited, and what
    they raise is logged.  Which entries Redis hands out, and when, is the
    choice of the environment.  Counters, and the retries around the empty
    body of [_persist_progress_once], are left out. *)

From S2P Require Import Prelude Json PyText WtpEnvelope.

Open Scope string_scope.
Open Scope list_scope.
Open Scope nat_scope.

(** * State *)

(** An entry of the liveness table. *)
Record info : Type := mkInfo {
  last_seen_monotonic : Z;
  i_workspace : string;
  i_task : string;
  i_root_goal : string;
  i_leader : pyval;
  i_worker : pyval;
  i_actor : pyval;
  i_conversation : pyval;
  last_verb : string }.
Inductive task_state : Set := NoTask | Running | Ended.
#[export] Instance task_state_eq_dec : EqDecision task_state.
Proof. solve_decision. Defined.
Record supervisor : Type := mkSupervisor {
  has_redis : bool;
  stale_seconds : Z;
  loop_task : task_state;
  watchdog_task : task_state;
  last_id : string;
  liveness : list (string * info);
  terminal_attempts : list string }.
(** [__init__] *)
Definition new_supervisor (redis : bool) (stale : Z) : supervisor :=
  mkSupervisor redis (Z.max 0 stale) NoTask NoTask "$" [] [].
Definition set_tasks (l w : task_state) (s : supervisor) : supervisor :=
  mkSupervisor (has_redis s) (stale_seconds s) l w (last_id s) (liveness s) (terminal_attempts s).
Definition set_last_id (i : string) (s : supervisor) : supervisor :=
  mkSupervisor (has_redis s) (stale_seconds s) (loop_task s) (watchdog_task s) i (liveness s) (terminal_attempts s).
Definition set_tables (l : list (string * info)) (t : list string) (s : supervisor) : supervisor :=
  mkSupervisor (has_redis s) (stale_seconds s) (loop_task s) (watchdog_task s) (last_id s) l t.

(** The arguments of [apply_workspace_worker_report]. *)
Record worker_report : Type := mkReport {
  r_workspace : string;
  r_root_goal : string;
  r_task : string;
  r_attempt : string;
  r_conversation : pyval;
  r_actor : pyval;
  r_worker : pyval;
  r_type : string;
  r_summary : string;
  r_artifacts : option (list string);
  r_leader : option string;
  r_id : string }.
Inductive effect : Type :=
  | Report (r : worker_report)
  | Deliver (e : WtpEnvelope).

(** * Reports *)

(** [envelope.extra_metadata.get(key) or ""] *)
Definition extra_or_empty (key : string) (e : WtpEnvelope) : pyval :=
  py_or (dget_or PNone key (extra_metadata e)) (PStr "").
Definition report_summary (e : WtpEnvelope) (blocked : bool) : string :=
  let d := payload e in
  let s := py_str (py_or (py_or (dget_or PNone "summary" d) (dget_or PNone "reason" d)) (PStr "")) in
  let s := if truthy s then s else ("WTP " ++ WtpVerb.value (verb e) ++ " (no summary)")%string in
  match dget_or PNone "evidence" d with
  | PStr t => if blocked && truthy t then (s ++ String (Ascii.ascii_of_nat 10) (String (Ascii.ascii_of_nat 10) t))%string else s
  | _ => s
  end.
Definition report_artifacts (e : WtpEnvelope) : option (list string) :=
  match dget_or PNone "artifacts" (payload e) with
  | PList l => match filter (λ a, truthy a = true) (omap text_opt l) with [] => None | a => Some a end
  | _ => None
  end.
(** The call [_apply_terminal] makes. *)
Definition terminal_report (e : WtpEnvelope) : worker_report :=
  let blocked := bool_decide (verb e ≠ WtpVerb.TASK_COMPLETED) in
  mkReport (workspace_id e) (default "" (root_goal_task_id e)) (task_id e) (attempt_id e)
    (extra_or_empty "worker_conversation_id" e) (extra_or_empty "actor_user_id" e) (extra_or_empty "worker_agent_id" e)
    (if blocked then "blocked" else "completed") (report_summary e blocked) (report_artifacts e)
    (text_opt (dget_or PNone "leader_agent_id" (extra_metadata e))) (correlation_id e).

(** * Reading the stream *)

Definition envelope_info (now : Z) (e : WtpEnvelope) : info :=
  mkInfo now (workspace_id e) (task_id e) (default "" (root_goal_task_id e)) (extra_or_empty "leader_agent_id" e)
    (extra_or_empty "worker_agent_id" e) (extra_or_empty "actor_user_id" e) (extra_or_empty "worker_conversation_id" e)
    (WtpVerb.value (verb e)).
(** [_dispatch_envelope] *)
Definition dispatch_envelope (now : Z) (e : WtpEnvelope) (s : supervisor) : supervisor * list effect :=
  let a := attempt_id e in
  let ends := WtpVerb.is_terminal (verb e) in
  if bool_decide (a ∈ terminal_attempts s) && negb ends
  then (set_tables (ddel a (liveness s)) (terminal_attempts s) s, [])
  else
    let alive := if truthy a then dset a (envelope_info now e) (liveness s) else liveness s in
    if ends then
      ((if truthy a then set_tables (ddel a alive) (set_add a (terminal_attempts s)) s
        else set_tables alive (terminal_attempts s) s), [Report (terminal_report e)])
    else
      (set_tables alive (terminal_attempts s) s,
       if bool_decide (verb e = WtpVerb.TASK_CLARIFY_RESPONSE) then [Deliver e] else []).

(** The [data] of an entry; bytes are given as the text they decode to. *)
Inductive raw : Type := Absent | Text (s : string) | Undecodable.
Inductive read_result : Type :=
  | Escapes                  (** an exception [_dispatch_entry] does not catch *)
  | Skipped
  | Read (e : WtpEnvelope).
(** The first half of [_dispatch_entry] *)
Definition read_entry (fresh : string) (data : raw) : read_result :=
  match data with
  | Absent => Skipped
  | Undecodable => Escapes
  | Text t =>
      if truthy t then
        match json_loads t with
        | None => Skipped
        | Some v =>
            match from_dict fresh v with
            | Ok e => Read e
            | Err (WtpValidationError _) | Err KeyError | Err TypeError => Skipped
            | Err ValueError => Escapes
            end
        end
      else Skipped
  end.
(** One entry of [_run_loop]; an exception ends its task. *)
Definition loop_entry (now : Z) (fresh id : string) (data : raw) (s : supervisor) : supervisor * list effect :=
  let s := set_last_id id s in
  match read_entry fresh data with
  | Escapes => (set_tasks Ended (watchdog_task s) s, [])
  | Skipped => (s, [])
  | Read e => dispatch_envelope now e s
  end.

(** * The watchdog *)

(** [_attempt_is_still_running] *)
Definition attempt_is_still_running (attempt : string) : bool := false.
(** [str(v or "")] *)
Definition str_or_empty (v : pyval) : string := py_str (py_or v (PStr "")).
Definition stale_report (attempt : string) (i : info) : worker_report :=
  mkReport (i_workspace i) (i_root_goal i) (i_task i) attempt (PStr (str_or_empty (i_conversation i)))
    (PStr (str_or_empty (i_actor i))) (PStr (str_or_empty (i_worker i))) "blocked"
    ("stale_no_heartbeat (last_verb=" ++ last_verb i ++ ")")%string None
    (if py_truth (i_leader i) then Some (py_str (i_leader i)) else None) ("watchdog:" ++ attempt)%string.
(** [_apply_stale_attempt] *)
Definition apply_stale_attempt (ai : string * info) (s : supervisor) : supervisor * list effect :=
  if attempt_is_still_running ai.1 then (s, [Report (stale_report ai.1 ai.2)])
  else (set_tables (liveness s) (set_add ai.1 (terminal_attempts s)) s, []).
Definition is_stale (now : Z) (s : supervisor) (ai : string * info) : bool :=
  negb (now - last_seen_monotonic ai.2 <? stale_seconds s)%Z.
Definition drop_stale (acc : supervisor * list effect) (ai : string * info) : supervisor * list effect :=
  let '(s, effs) := acc in
  let '(s, more) := apply_stale_attempt ai (set_tables (ddel ai.1 (liveness s)) (terminal_attempts s) s) in
  (s, effs ++ more).
(** [_watchdog_tick] *)
Definition watchdog_tick (now : Z) (s : supervisor) : supervisor * list effect :=
  if (stale_seconds s <=? 0)%Z then (s, [])
  else foldl drop_stale (s, []) (filter (λ ai, is_stale now s ai = true) (liveness s)).

(** * Life of a supervisor *)

Definition is_running (s : supervisor) : bool := bool_decide (loop_task s = Running).
Definition start (s : supervisor) : supervisor :=
  if negb (has_redis s) || is_running s then s
  else set_tasks Running
         (if bool_decide (0 < stale_seconds s)%Z && bool_decide (watchdog_task s = NoTask) then Running
          else watchdog_task s) s.
Definition stop (s : supervisor) : supervisor := set_tasks NoTask NoTask s.
Inductive event : Type :=
  | Start
  | Stop
  | Entry (now : Z) (fresh id : string) (data : raw)
  | Tick (now : Z).
(** An entry nobody reads, or a tick without a watchdog, is no step. *)
Definition step (ev : event) (s : supervisor) : supervisor * list effect :=
  match ev with
  | Start => (start s, [])
  | Stop => (stop s, [])
  | Entry now fresh id data => if is_running s then loop_entry now fresh id data s else (s, [])
  | Tick now => if bool_decide (watchdog_task s = Running) then watchdog_tick now s else (s, [])
  end.
Fixpoint run (evs : list event) (s : supervisor) : supervisor * list effect :=
  match evs with
  | [] => (s, [])
  | ev :: evs' => let '(s1, effs) := step ev s in let '(s2, more) := run evs' s1 in (s2, effs ++ more)
  end.

(** The text [publish_envelope] adds to the stream; [None]: nothing is added. *)
Definition publish_envelope (redis up : bool) (e : WtpEnvelope) : option string :=
  if redis && up then Some (json_dumps false false (PDict (to_dict e))) else None.

(** * What a supervisor reports *)

Definition reports (effs : list effect) : list worker_report :=
  omap (λ x, match x with Report r => Some r | Deliver _ => None end) effs.
(** The specification: a reader that is up or down and keeps no table. *)
Definition escapes (r : read_result) : bool := match r with Escapes => true | _ => false end.
Definition entry_reports (r : read_result) : list worker_report :=
  match r with Read e => if WtpVerb.is_terminal (verb e) then [terminal_report e] else [] | _ => [] end.
Fixpoint expected_reports (redis up : bool) (evs : list event) : list worker_report :=
  match evs with
  | [] => []
  | Start :: evs' => expected_reports redis (up || redis) evs'
  | Stop :: evs' => expected_reports redis false evs'
  | Entry _ fresh _ data :: evs' =>
      if up then entry_reports (read_entry fresh data) ++
                 expected_reports redis (negb (escapes (read_entry fresh data))) evs'
      else expected_reports redis up evs'
  | Tick _ :: evs' => expected_reports redis up evs'
  end.

Lemma reports_app a b : reports (a ++ b) = reports a ++ reports b.
Proof. apply omap_app. Qed.
(** A dispatch leaves the tasks alone, and reports exactly a terminal envelope. *)
Lemma dispatch_reports now e s :
  reports (dispatch_envelope now e s).2 = entry_reports (Read e).
Proof.
  unfold dispatch_envelope. cbn. by destruct (WtpVerb.is_terminal (verb e)), (bool_decide (attempt_id e ∈ terminal_attempts s)),
    (truthy (attempt_id e)), (bool_decide (verb e = WtpVerb.TASK_CLARIFY_RESPONSE)).
Qed.
Lemma dispatch_tables now e s : ∃ l t, (dispatch_envelope now e s).1 = set_tables l t s.
Proof.
  unfold dispatch_envelope. destruct (WtpVerb.is_terminal (verb e)), (bool_decide (attempt_id e ∈ terminal_attempts s)),
    (truthy (attempt_id e)); cbn; eauto.
Qed.
Definition drop_all (l d : list (string * info)) : list (string * info) := foldl (λ d ai, ddel ai.1 d) d l.
Definition add_all (l : list (string * info)) (t : list string) : list string := foldl (λ t ai, set_add ai.1 t) t l.
(** The watchdog moves attempts from one table to the other, and does nothing else. *)
Lemma drop_stale_loop l s effs : foldl drop_stale (s, effs) l =
  (set_tables (drop_all l (liveness s)) (add_all l (terminal_attempts s)) s, effs).
Proof.
  revert s. induction l as [|ai l IH]; intros s; [by destruct s|]. cbn [foldl].
  unfold drop_stale at 2. cbn. rewrite app_nil_r, IH. done.
Qed.
Lemma tick_silent now s : (watchdog_tick now s).2 = [].
Proof. unfold watchdog_tick. case_match; [done|]. by rewrite drop_stale_loop. Qed.
Lemma tick_tables now s : ∃ l t, (watchdog_tick now s).1 = set_tables l t s.
Proof.
  unfold watchdog_tick. case_match; [exists (liveness s), (terminal_attempts s); by destruct s|].
  rewrite drop_stale_loop. eauto.
Qed.
Lemma step_reports ev s evs : 
  reports (step ev s).2 ++ expected_reports (has_redis (step ev s).1) (is_running (step ev s).1) evs =
  expected_reports (has_redis s) (is_running s) (ev :: evs).
Proof.
  destruct ev as [| |now fresh id data|now]; cbn [step expected_reports].
  - unfold start. destruct (has_redis s) eqn:Hr, (is_running s) eqn:Hl; cbn; by rewrite ?Hr, ?Hl.
  - done.
  - destruct (is_running s) eqn:Hl; [|cbn; by rewrite Hl]. unfold loop_entry.
    destruct (read_entry fresh data) as [| |e]; cbn -[dispatch_envelope]; [done|by f_equal|].
    rewrite dispatch_reports. destruct (dispatch_tables now e (set_last_id id s)) as (l & t & ->).
    cbn [fst]. change (is_running (set_tables l t (set_last_id id s))) with (is_running s). by rewrite Hl.
  - case_bool_decide; [|done]. rewrite tick_silent. by destruct (tick_tables now s) as (l & t & ->).
Qed.

(** * Which attempts a supervisor watches *)

Record wf (s : supervisor) : Prop := {
  liveness_wf : dict_wf (liveness s);
  ended_unwatched : ∀ a, a ∈ terminal_attempts s → a ∉ dkeys (liveness s) }.

Lemma new_supervisor_wf redis stale : wf (new_supervisor redis stale).
Proof. split; [constructor|]. intros a ?%elem_of_nil. done. Qed.
Lemma set_tasks_wf l w s : wf s → wf (set_tasks l w s).
Proof. by intros [??]. Qed.
Lemma drop_loop_keys l d a : a ∈ dkeys (drop_all l d) ↔ a ∈ dkeys d ∧ a ∉ l.*1.
Proof.
  unfold drop_all. revert d. induction l as [|[k i] l IH]; intros d; cbn [foldl fst]; [csimpl; set_solver|].
  rewrite IH, elem_of_dkeys_ddel, fmap_cons, not_elem_of_cons. tauto.
Qed.
Lemma drop_loop_wf l d : dict_wf d → dict_wf (drop_all l d).
Proof. unfold drop_all. revert d. induction l as [|ai l IH]; intros d Hd; [done|]. cbn. by apply IH, ddel_wf. Qed.
Lemma add_loop_elem l t a : a ∈ add_all l t ↔ a ∈ t ∨ a ∈ l.*1.
Proof.
  unfold add_all.
  revert t. induction l as [|[k i] l IH]; intros t; cbn [foldl fst]; [csimpl; set_solver|].
  rewrite IH, elem_of_set_add, fmap_cons, elem_of_cons. tauto.
Qed.
(** What a tick does to the tables. *)
Lemma tick_spec now s : wf s → (0 < stale_seconds s)%Z →
  (∀ a, a ∈ terminal_attempts (watchdog_tick now s).1 ↔
    a ∈ terminal_attempts s ∨ ∃ i, dget a (liveness s) = Some i ∧ (stale_seconds s <= now - last_seen_monotonic i)%Z) ∧
  (∀ a, a ∈ dkeys (liveness (watchdog_tick now s).1) ↔
    ∃ i, dget a (liveness s) = Some i ∧ (now - last_seen_monotonic i < stale_seconds s)%Z).
Proof.
  intros [Hl _] Hs. unfold watchdog_tick. rewrite (proj2 (Z.leb_gt _ _) Hs), drop_stale_loop.
  cbn [fst liveness terminal_attempts set_tables].
  assert (Hk : ∀ a, a ∈ (filter (λ ai, is_stale now s ai = true) (liveness s)).*1 ↔
    ∃ i, dget a (liveness s) = Some i ∧ (stale_seconds s <= now - last_seen_monotonic i)%Z).
  { intros a. rewrite list_elem_of_fmap. setoid_rewrite list_elem_of_filter. split.
    - intros ([k i] & -> & Hst & Hi). exists i. split; [by apply elem_of_dget|]. unfold is_stale in Hst. cbn in Hst.
      apply negb_true_iff, Z.ltb_ge in Hst. done.
    - intros (i & Hi & Hst). exists (a, i). split_and!; [done| |by apply dget_Some_elem].
      unfold is_stale. cbn. by apply negb_true_iff, Z.ltb_ge. }
  split; intros a; [by rewrite add_loop_elem, Hk|]. rewrite drop_loop_keys, Hk, <-dget_is_Some_keys. split.
  - intros [[i Hi] Hn]. exists i. split; [done|]. apply Z.lt_nge. intros ?. apply Hn. eauto.
  - intros (i & Hi & Hlt). split; [by exists i|]. intros (j & Hj & ?). rewrite Hi in Hj. simplify_eq. lia.
Qed.
Lemma tick_wf now s : wf s → wf (watchdog_tick now s).1 ∧
  ∀ a, a ∈ terminal_attempts s → a ∈ terminal_attempts (watchdog_tick now s).1.
Proof.
  intros Hwf. destruct (Z.le_gt_cases (stale_seconds s) 0) as [Hs|Hs].
  - unfold watchdog_tick. by rewrite (proj2 (Z.leb_le _ _) Hs).
  - destruct (tick_spec now s Hwf Hs) as [Ht Hk]. split; [|intros a Ha; apply Ht; by left]. split.
    + unfold watchdog_tick. rewrite (proj2 (Z.leb_gt _ _) Hs), drop_stale_loop. apply drop_loop_wf, Hwf.
    + intros a Ha (i & Hi & Hlt)%Hk. apply Ht in Ha as [Ha|(j & Hj & ?)].
      * apply (ended_unwatched _ Hwf a Ha), dget_is_Some_keys. by exists i.
      * rewrite Hi in Hj. simplify_eq. lia.
Qed.
Lemma dispatch_wf now e s : wf s → wf (dispatch_envelope now e s).1 ∧
  ∀ a, a ∈ terminal_attempts s → a ∈ terminal_attempts (dispatch_envelope now e s).1.
Proof.
  intros [Hl Ht]. unfold dispatch_envelope. set (x := attempt_id e).
  destruct (bool_decide (x ∈ _) && _) eqn:Hd; cbn.
  - split; [|done]. split; cbn; [by apply ddel_wf|]. intros a Ha [Hk _]%elem_of_dkeys_ddel. by apply (Ht a).
  - destruct (truthy x), (WtpVerb.is_terminal (verb e)); cbn; (split; [split|]); cbn; auto with memstack.
    + intros a [->|Ha]%elem_of_set_add [Hk Hne]%elem_of_dkeys_ddel; [done|].
      apply elem_of_dkeys_dset in Hk as [->|Hk]; [done|by apply (Ht a)].
    + intros a Ha. apply elem_of_set_add. by right.
    + rewrite andb_true_r in Hd. apply bool_decide_eq_false in Hd.
      intros a Ha [->|Hk]%elem_of_dkeys_dset; [done|by apply (Ht a)].
Qed.
Lemma step_wf ev s : wf s → wf (step ev s).1 ∧
  ∀ a, a ∈ terminal_attempts s → a ∈ terminal_attempts (step ev s).1.
Proof.
  intros Hwf. destruct ev as [| |now fresh id data|now]; cbn [step].
  - unfold start. case_match; [done|]. split; [by apply set_tasks_wf|done].
  - split; [by apply set_tasks_wf|done].
  - destruct (is_running s); [|done]. unfold loop_entry.
    assert (wf (set_last_id id s)) as Hw by by destruct Hwf.
    destruct (read_entry fresh data); [split; [by apply set_tasks_wf|done]|done|].
    exact (dispatch_wf now e _ Hw).
  - case_bool_decide; [by apply tick_wf|done].
Qed.
Lemma run_wf evs s : wf s → wf (run evs s).1 ∧ ∀ a, a ∈ terminal_attempts s → a ∈ terminal_attempts (run evs s).1.
Proof.
  revert s. induction evs as [|ev evs IH]; intros s Hwf; [done|]. cbn [run].
  destruct (step_wf ev s Hwf) as [Hw Ht]. destruct (step ev s) as [s1 effs]. cbn in *.
  destruct (IH s1 Hw) as [Hw2 Ht2]. destruct (run evs s1) as [s2 more]. cbn in *. auto.
Qed.

(** An attempt that has ended is no longer listened to. *)
Lemma ended_ignored now e s : wf s → attempt_id e ∈ terminal_attempts s → WtpVerb.is_terminal (verb e) = false →
  dispatch_envelope now e s = (s, []).
Proof.
  intros Hwf Ha He. unfold dispatch_envelope. rewrite bool_decide_true, He by done. cbn. f_equal.
  unfold ddel. rewrite filter_all; [by destruct s|]. intros kv Hkv Hk. apply (ended_unwatched _ Hwf _ Ha).
  rewrite <-Hk. by apply list_elem_of_fmap_2.
Qed.
(** Nothing is read, and nothing done, while the reader is down. *)
Lemma down_silent evs s : is_running s = false → Start ∉ evs →
  is_running (run evs s).1 = false ∧ (run evs s).2 = [].
Proof.
  revert s. induction evs as [|ev evs IH]; intros s Hs Hn; [done|]. cbn [run].
  apply not_elem_of_cons in Hn as [Hev Hn].
  assert (is_running (step ev s).1 = false ∧ (step ev s).2 = []) as [H1 H2].
  { destruct ev as [| |now fresh id data|now]; cbn [step]; [done|done|by rewrite Hs|].
    case_bool_decide; [|done]. split; [|apply tick_silent]. by destruct (tick_tables now s) as (l & t & ->). }
  destruct (step ev s) as [s1 effs]. cbn in *. subst effs.
  destruct (IH s1 H1 Hn) as [H3 H4]. by destruct (run evs s1).
Qed.
Lemma text_payload_escapes d x ws ta at_ t fresh : json_wf (PDict d) →
  dget "verb" d = Some (PStr (WtpVerb.value x)) → dget "workspace_id" d = Some ws → dget "task_id" d = Some ta →
  dget "attempt_id" d = Some at_ → dget "payload" d = Some (PStr t) → truthy t = true →
  read_entry fresh (Text (json_dumps false false (PDict d))) = Escapes.
Proof.
  intros Hd Hx Hw Hta Hat Hp Ht. unfold read_entry.
  assert (truthy (json_dumps false false (PDict d)) = true) as -> by done.
  rewrite json_loads_dumps by done. unfold from_dict, item, dget_or. rewrite Hx, Hw, Hta, Hat, Hp.
  assert (dict_or_empty (PStr t) = Err ValueError) as He by (unfold dict_or_empty; by rewrite py_or_true).
  cbn [mbind option_bind]. rewrite WtpVerb.of_value_value.
  cbn [mbind result_bind of_option from_option id]. by rewrite He.
Qed.

(** * Properties *)

(** C22. What a supervisor reports is decided by the entries it reads, and by
    nothing else: in every sequence of events it is the list of the terminal
    envelopes read while its reader was up, each once, in the order of the
    stream and under the envelope's correlation.  Its tables, the clock and
    the watchdog have no part in it, and the watchdog reports nothing. *)
Theorem supervisor_reports evs s :
  reports (run evs s).2 = expected_reports (has_redis s) (is_running s) evs.
Proof.
  revert s. induction evs as [|ev evs IH]; intros s; [done|]. cbn [run].
  rewrite <-step_reports, <-IH. destruct (step ev s) as [s1 effs]. cbn [fst snd].
  destruct (run evs s1) as [s2 more]. cbn. apply reports_app.
Qed.

(** C16. An attempt that was quiet for the configured time is not reported as
    blocked: the watchdog's next tick takes it for ended without a word, and
    whatever happens later it is never watched again and none of its
    envelopes short of a terminal one, answers to its questions included,
    has any effect. *)
Theorem quiet_attempt_silenced now a i s evs : wf s → watchdog_task s = Running → (0 < stale_seconds s)%Z →
  dget a (liveness s) = Some i → (stale_seconds s <= now - last_seen_monotonic i)%Z →
  (step (Tick now) s).2 = [] ∧
  let s' := (run (Tick now :: evs) s).1 in
  a ∈ terminal_attempts s' ∧ a ∉ dkeys (liveness s') ∧
  ∀ later e, attempt_id e = a → WtpVerb.is_terminal (verb e) = false → dispatch_envelope later e s' = (s', []).
Proof.
  intros Hwf Hw Hs Hi Hq. cbn [run step]. rewrite bool_decide_true by done. split; [apply tick_silent|].
  destruct (tick_wf now s Hwf) as [Hwf1 _]. destruct (tick_spec now s Hwf Hs) as [Ht _].
  assert (a ∈ terminal_attempts (watchdog_tick now s).1) as Ha by (apply Ht; right; eauto).
  destruct (watchdog_tick now s) as [s1 effs]. cbn [fst] in *.
  destruct (run_wf evs s1 Hwf1) as [Hwf2 Hend]. destruct (run evs s1) as [s2 more]. cbn [fst] in *.
  split_and!; [auto|by apply (ended_unwatched _ Hwf2), Hend|].
  intros later e <- He. apply ended_ignored; auto.
Qed.

(** An entry whose payload is a text ends the reader: the exception is
    none of those the reader expects, so no later entry is read and nothing
    has an effect until somebody starts the supervisor again. *)
Theorem text_payload_stops_reader d x ws ta at_ t now fresh id s evs : json_wf (PDict d) →
  dget "verb" d = Some (PStr (WtpVerb.value x)) → dget "workspace_id" d = Some ws → dget "task_id" d = Some ta →
  dget "attempt_id" d = Some at_ → dget "payload" d = Some (PStr t) → truthy t = true → Start ∉ evs →
  let r := run (Entry now fresh id (Text (json_dumps false false (PDict d))) :: evs) s in
  is_running r.1 = false ∧ r.2 = [].
Proof.
  intros Hd Hx Hw Hta Hat Hp Ht Hev. cbn [run step]. destruct (is_running s) eqn:Hs.
  - unfold loop_entry. rewrite (text_payload_escapes d x ws ta at_ t fresh) by done.
    destruct (down_silent evs (set_tasks Ended (watchdog_task s) (set_last_id id s)) eq_refl Hev) as [H1 H2].
    cbn [watchdog_task set_last_id]. by destruct (run evs _).
  - destruct (down_silent evs s Hs Hev) as [H1 H2]. by destruct (run evs s).
Qed.

(** * Witnesses *)

Definition beat (attempt : string) : WtpEnvelope :=
  mkEnvelope WtpVerb.TASK_HEARTBEAT "ws" "task" attempt [] "corr" None PNone [("leader_agent_id", PStr "lead")].
Definition entry_of (now : Z) (e : WtpEnvelope) : event :=
  Entry now "fresh" "1-0" (from_option Text Absent (publish_envelope true true e)).
Definition watching : supervisor := (run [Start; entry_of 0 (beat "a1")] (new_supervisor true 900)).1.
Lemma quiet_attempt_silenced_witness :
  let s' := (run [Tick 1000; entry_of 1001 (beat "a1")] watching).1 in
  "a1" ∈ terminal_attempts s' ∧ "a1" ∉ dkeys (liveness s').
Proof.
  assert (wf watching) as Hwf by apply (run_wf [Start; entry_of 0 (beat "a1")]), new_supervisor_wf.
  destruct (quiet_attempt_silenced 1000 "a1" (envelope_info 0 (beat "a1")) watching [entry_of 1001 (beat "a1")] Hwf)
    as (_ & H1 & H2 & _); [by (vm_compute; reflexivity)..|by vm_compute|by (vm_compute; reflexivity)|by vm_compute|].
  exact (conj H1 H2).
Defined.
Definition text_payload : dict :=
  [("verb", PStr "task.heartbeat"); ("workspace_id", PStr "ws"); ("task_id", PStr "t"); ("attempt_id", PStr "a");
   ("payload", PStr "oops")].
Lemma text_payload_stops_reader_witness :
  let r := run [Entry 0 "f" "1-0" (Text (json_dumps false false (PDict text_payload))); entry_of 1 done_report] watching in
  is_running r.1 = false ∧ r.2 = [].
Proof.
  apply (text_payload_stops_reader text_payload WtpVerb.TASK_HEARTBEAT (PStr "ws") (PStr "t") (PStr "a") "oops");
    try reflexivity; [by apply json_ok_wf|].
  apply not_elem_of_cons. split; [done|apply not_elem_of_nil].
Defined.
