(* ===== verification/WtpTools.v ===== *)
(** The tools a leader and its workers use to speak the workspace protocol:
    whom they let through, which envelopes they build, where these go, and what
    the agent is told.

    Sources: src/src/infrastructure/agent/tools/workspace_wtp.py and
    workspace_leader_wtp.py, the roles of workspace/runtime_role_contract.py,
    and the retired runtime (workspace_core/legacy_runtime.py) behind
    [apply_workspace_worker_report] and the launch of a worker.  A call is a
    function of what the bus and Redis do for it; its effects are a list.  The
    text of a result is given by the dictionary it is dumped from.  A text's
    characters are code points below 256; matching ignores case by matching
    the lower-case text. *)

From stdpp Require Import pretty.
From S2P Require Import Prelude Json PyText WtpEnvelope.
From Stdlib Require Import Ascii.

Open Scope string_scope.
Open Scope list_scope.
Open Scope nat_scope.

(** * Calls *)

Record tool_context : Type := mkContext {
  runtime_context : dict;
  agent_name : string;
  ctx_session : string;
  ctx_user : string }.
Inductive send_result : Type :=
  | SendRaised
  | SendDenied (fields : dict)
  | SendResult (message_id from_agent to_agent : string).
(** What is there to answer a call: the orchestrator, with its answer, and the
    entry ids the two ways to Redis give. *)
Record environment : Type := mkEnvironment {
  orchestrator : option send_result;
  default_publisher : option string;
  fallback_publisher : option string;
  v1_only : string }.
Inductive action : Type :=
  | SendMessage (to text : string) (ty : AgentMessageType) (metadata : dict)
  | Publish (e : WtpEnvelope)
  | Emit (from to from_name to_name preview : string).
Record tool_result : Type := mkResult { output : dict; is_error : bool }.
Definition deny (error : string) (extra : dict) : tool_result :=
  mkResult (update_dict [("error", PStr error)] extra) true.

(** ** Roles *)

Definition runtime_context_string (ctx : tool_context) (key : string) : string :=
  match dget key (runtime_context ctx) with Some (PStr s) => strip s | _ => "" end.
(** [a or b] on strings *)
Definition str_or (a b : string) : string := if truthy a then a else b.
Definition str_opt (s : string) : option string := if truthy s then Some s else None.
Definition require_workspace_session_role (ctx : tool_context) (expected label : string) : option string :=
  let role := runtime_context_string ctx "workspace_session_role" in
  if bool_decide (role = expected) then
    if truthy (runtime_context_string ctx "workspace_id") then None
    else Some "workspace_id is missing from runtime_context — is this a workspace session?"
  else Some (label ++ " may only be called from a workspace " ++ expected ++ " session (current role: " ++
             str_or role "none" ++ ")")%string.
Definition require_worker_role (ctx : tool_context) : option string :=
  require_workspace_session_role ctx "worker" "workspace_report_* tools".
Definition require_leader_role (ctx : tool_context) : option string :=
  require_workspace_session_role ctx "leader" "workspace_assign_task / workspace_cancel_task".

(** * Sending *)

Definition setdefault (k : string) (v : pyval) (d : dict) : dict := if dmem k d then d else dset k v d.
Definition setdefault_if (k s : string) (d : dict) : dict := if truthy s then setdefault k (PStr s) d else d.
Definition sender_ref (ctx : tool_context) : string :=
  str_or (runtime_context_string ctx "selected_agent_id") (agent_name ctx).
Definition sender_name (ctx : tool_context) : string :=
  str_or (runtime_context_string ctx "selected_agent_name") (agent_name ctx).
Definition binding_id (ctx : tool_context) : string := runtime_context_string ctx "workspace_agent_binding_id".
Definition actor_user (ctx : tool_context) : string := str_or (runtime_context_string ctx "user_id") (ctx_user ctx).
(** The metadata of the message *)
Definition sent_metadata (ctx : tool_context) (e : WtpEnvelope) : dict :=
  if truthy (binding_id ctx) then dset "workspace_agent_binding_id" (PStr (binding_id ctx)) (to_metadata e)
  else to_metadata e.
(** The same envelope with other metadata; one that is not valid is published as it was. *)
Definition with_extra (e : WtpEnvelope) (d : dict) : WtpEnvelope :=
  match new_envelope (verb e) (PStr (workspace_id e)) (PStr (task_id e)) (PStr (attempt_id e)) (PStr (correlation_id e))
          (opt_text (root_goal_task_id e)) (parent_message_id e) (payload e) d with
  | Ok e' => e'
  | Err _ => e
  end.
(** [_enrich_envelope_for_supervisor] *)
Definition enrich_envelope (ctx : tool_context) (to : string) (e : WtpEnvelope) : WtpEnvelope :=
  let d := setdefault "leader_agent_id" (PStr to) (extra_metadata e) in
  let d := setdefault "worker_agent_id" (PStr (sender_ref ctx)) d in
  let d := setdefault "worker_conversation_id" (PStr (ctx_session ctx)) d in
  let d := setdefault_if "workspace_agent_binding_id" (binding_id ctx) d in
  with_extra e (setdefault_if "actor_user_id" (actor_user ctx) d).
Definition entry_ok (o : option string) : bool := match o with Some s => truthy (strip s) | None => false end.
(** [_publish_envelope_for_supervisor]; the envelope reaches the stream as
    often as an entry id comes back. *)
Definition publish_for_supervisor (env : environment) (e : WtpEnvelope) : option string * list action :=
  let put o := match o with Some _ => [Publish e] | None => [] end in
  if entry_ok (default_publisher env) then (default_publisher env, put (default_publisher env))
  else (fallback_publisher env, put (default_publisher env) ++ put (fallback_publisher env)).
Definition preview (e : WtpEnvelope) : string :=
  ("[" ++ WtpVerb.value (verb e) ++ "] " ++ String.substring 0 180 (to_content e))%string.
Definition WORKSPACE_PLAN_SYSTEM_ACTOR_ID : string := "workspace-plan:system".
Definition ids_of (e : WtpEnvelope) : dict :=
  [("task_id", PStr (task_id e)); ("attempt_id", PStr (attempt_id e)); ("correlation_id", PStr (correlation_id e))].
Definition sent_output (message : string) (e : WtpEnvelope) : dict :=
  [("ok", PBool true); ("verb", PStr (WtpVerb.value (verb e))); ("message_id", PStr message)] ++ ids_of e.
(** What the agent is told about the answer of the bus. *)
Definition send_reply (r : send_result) (e : WtpEnvelope) : tool_result :=
  match r with
  | SendRaised => deny "internal error while sending WTP envelope" [("verb", PStr (WtpVerb.value (verb e)))]
  | SendDenied fields =>
      mkResult (update_dict [("error", PStr "send_denied"); ("verb", PStr (WtpVerb.value (verb e)))] fields) true
  | SendResult message _ _ => mkResult (sent_output message e) false
  end.
Definition send_action (ctx : tool_context) (to : string) (e : WtpEnvelope) : action :=
  SendMessage to (to_content e) (default_message_type (verb e)) (sent_metadata ctx e).
(** [_send_envelope] of a worker *)
Definition worker_send (env : environment) (ctx : tool_context) (e : WtpEnvelope) (to : string)
    : tool_result * list action :=
  let enriched := enrich_envelope ctx to e in
  if bool_decide (to = WORKSPACE_PLAN_SYSTEM_ACTOR_ID) then
    let '(entry, puts) := publish_for_supervisor env enriched in
    let ok := entry_ok entry in
    (mkResult ([("ok", PBool ok); ("verb", PStr (WtpVerb.value (verb e)));
                ("message_id", PStr (if ok then default "" entry else "local:" ++ correlation_id e))] ++ ids_of e ++
               [("notification_status", PStr (if ok then "local_fan_in" else "local_fan_in_unavailable"))] ++
               (if ok then [] else [("error", PStr "workspace supervisor fan-in unavailable")])) (negb ok),
     puts ++ [Emit (sender_ref ctx) to (sender_name ctx) to (preview e)])
  else
    match orchestrator env with
    | None => (deny "workspace WTP not configured (multi-agent disabled?)" [], [])
    | Some r =>
        (send_reply r e,
         send_action ctx to e ::
         match r with
         | SendResult _ from to' =>
             (publish_for_supervisor env enriched).2 ++ [Emit from to' (sender_name ctx) to (preview e)]
         | _ => []
         end)
    end.
(** [_send_envelope] of a leader; the message of a delivery comes with it. *)
Definition leader_send (env : environment) (ctx : tool_context) (e : WtpEnvelope) (to : string)
    : tool_result * bool * list action :=
  match orchestrator env with
  | None => (deny "workspace leader WTP not configured (multi-agent disabled?)" [], false, [])
  | Some r =>
      let d := setdefault "leader_agent_id" (PStr (sender_ref ctx)) (extra_metadata e) in
      let d := setdefault_if "actor_user_id" (actor_user ctx) (setdefault "worker_agent_id" (PStr to) d) in
      let enriched := with_extra e (setdefault_if "workspace_agent_binding_id" (binding_id ctx) d) in
      let puts := match default_publisher env with Some _ => [Publish enriched] | None => [] end in
      match r with
      | SendResult _ from to' =>
          (send_reply r e, true, send_action ctx to e :: puts ++ [Emit from to' (sender_name ctx) to (preview e)])
      | _ => (send_reply r e, false, [send_action ctx to e])
      end
  end.

(** * The end of an attempt *)

(** [legacy_workspace_runtime_retired] raises, and is the first thing
    [apply_workspace_worker_report] does. *)
Definition legacy_workspace_runtime_retired (capability : string) : string :=
  ("Platform SQL Workspace " ++ capability ++ " is retired; use Avernet Workspace Core")%string.
Inductive applied : Type :=
  | ApplyRaised (text : string)
  | NoTask
  | Task (metadata : option dict) (status : pyval).
Definition apply_workspace_worker_report : applied :=
  ApplyRaised (legacy_workspace_runtime_retired "Workspace worker report").
(** [_terminal_report_application_result] *)
Definition application_result (metadata : option dict) (status : pyval) (attempt kind : string) : dict :=
  let base b := [("applied", PBool b); ("task_status", status); ("attempt_id", PStr attempt); ("report_type", PStr kind)] in
  match metadata with
  | Some d =>
      let a := dget_or PNone "last_worker_report_attempt_id" d in
      let k := dget_or PNone "last_worker_report_type" d in
      if bool_decide (a = PStr attempt) && bool_decide (k = PStr kind) then base true
      else base false ++ [("last_worker_report_attempt_id", a); ("last_worker_report_type", k);
                          ("error", PStr "terminal report was not recorded for the requested attempt")]
  | None => base false ++ [("error", PStr "terminal report application result did not include task metadata")]
  end.
(** [_apply_terminal_report] *)
Definition apply_terminal_report (attempt kind : string) : dict :=
  match apply_workspace_worker_report with
  | ApplyRaised text => [("applied", PBool false); ("error", PStr text)]
  | NoTask => [("applied", PBool false); ("error", PStr "apply_workspace_worker_report returned no task")]
  | Task metadata status => application_result metadata status attempt kind
  end.
(** [_supervisor_only_terminal_path] *)
Definition supervisor_only (env : environment) : bool :=
  bool_decide (lower_str (strip (v1_only env)) ∈ ["1"; "true"; "yes"; "on"]).
Definition applied_flag (d : dict) : option bool := match dget "applied" d with Some (PBool b) => Some b | _ => None end.
(** [_build_terminal_tool_result] *)
Definition terminal_tool_result (sent : tool_result) (applied : dict) : tool_result :=
  let d := dset "applied_report" (PDict applied) (output sent) in
  if is_error sent && bool_decide (applied_flag applied = Some true) then
    let error := dget_or PNone "error" d in
    let d := update_dict d [("ok", PBool true); ("notification_status", PStr "failed")] in
    let d := if py_truth error then dset "notification_error" error d else d in
    mkResult (dset "message" (PStr "Terminal workspace report was applied; leader notification failed and will be reconciled from durable attempt state.") d) false
  else if bool_decide (applied_flag applied = Some false) then
    mkResult (update_dict d [("ok", PBool false); ("error", PStr "terminal_report_apply_failed");
      ("message", py_or (dget_or PNone "error" applied) (PStr "Terminal workspace report was not written to durable task state."))]) true
  else mkResult d (is_error sent).
Definition finish_terminal (env : environment) (attempt kind : string) (sent : tool_result) : tool_result :=
  terminal_tool_result sent
    (if supervisor_only env
     then [("skipped_supervisor_only", PBool true); ("reason", PStr "WORKSPACE_WTP_V1_ONLY")]
     else apply_terminal_report attempt kind).

(** * Building envelopes *)

(** [WtpEnvelope(...)] of a tool; what it raises is told to the agent. *)
Definition tool_envelope (ctx : tool_context) (x : WtpVerb.t) (fresh task attempt : string) (d : dict)
    : result wtp_error WtpEnvelope :=
  new_envelope x (PStr (runtime_context_string ctx "workspace_id")) (PStr task) (PStr attempt) (PStr fresh)
    (opt_text (str_opt (runtime_context_string ctx "root_goal_task_id"))) PNone d [].
(** The text of a [WtpValidationError] *)
Definition defect_text (x : WtpVerb.t) (w : wtp_error) : string :=
  match w with
  | WtpValidationError (BadField n) => (n ++ " must be a non-empty string")%string
  | WtpValidationError (MissingKeys l) =>
      ("verb " ++ str_repr (WtpVerb.value x) ++ " missing required payload keys: " ++ py_repr (PList (PStr <$> l)))%string
  | WtpValidationError (BlankValue k) => ("payload[" ++ str_repr k ++ "] must not be blank")%string
  | _ => ""
  end.
Definition refused (kind : string) (x : WtpVerb.t) (w : wtp_error) : tool_result :=
  deny ("invalid " ++ kind ++ " payload: " ++ defect_text x w)%string [].
Definition field_if (k : string) (s : string) : dict := if truthy s then [(k, PStr s)] else [].
Definition list_if (k : string) (l : list string) : dict := match l with [] => [] | _ => [(k, PList (PStr <$> l))] end.

(** [workspace_report_progress], without a percentage, which is a float *)
Definition report_progress (env : environment) (ctx : tool_context) (fresh task attempt leader summary phase : string)
    : tool_result * list action :=
  match require_worker_role ctx with
  | Some e => (deny e [], [])
  | None =>
      let d := [("summary", PStr summary); ("task_id", PStr task); ("attempt_id", PStr attempt)] ++ field_if "phase" phase in
      match tool_envelope ctx WtpVerb.TASK_PROGRESS fresh task attempt d with
      | Err w => (refused "progress" WtpVerb.TASK_PROGRESS w, [])
      | Ok e => worker_send env ctx e leader
      end
  end.
(** [workspace_report_blocked] *)
Definition report_blocked (env : environment) (ctx : tool_context) (fresh task attempt leader reason evidence : string)
    : tool_result * list action :=
  match require_worker_role ctx with
  | Some e => (deny e [], [])
  | None =>
      let d := [("reason", PStr reason); ("task_id", PStr task); ("attempt_id", PStr attempt)] ++ field_if "evidence" evidence in
      match tool_envelope ctx WtpVerb.TASK_BLOCKED fresh task attempt d with
      | Err w => (refused "blocked" WtpVerb.TASK_BLOCKED w, [])
      | Ok e => let '(sent, acts) := worker_send env ctx e leader in (finish_terminal env attempt "blocked" sent, acts)
      end
  end.

(** ** Evidence of failed tests *)

(** What a pattern finds in front of a text: the length of the match and its
    groups; [prev] is the character before. *)
Definition matcher (A : Type) : Type := option ascii → chars → option (nat * A).
Definition is_digit (c : ascii) : bool := let n := nat_of_ascii c in (48 <=? n) && (n <=? 57).
(** [\w]: letters, digits, the underscore, and the letters and numbers above ASCII *)
Definition is_word (c : ascii) : bool :=
  let n := nat_of_ascii c in
  is_digit c || ((65 <=? n) && (n <=? 90)) || ((97 <=? n) && (n <=? 122)) || (n =? 95) ||
  bool_decide (n ∈ [170; 178; 179; 181; 185; 186; 188; 189; 190]) || ((192 <=? n) && negb (n =? 215) && negb (n =? 247)).
Definition word_opt (o : option ascii) : bool := from_option is_word false o.
(** [\b] between two characters *)
Definition boundary (prev next : option ascii) : bool := xorb (word_opt prev) (word_opt next).
(** The longest prefix with [f], and the rest. *)
Fixpoint take_while (f : ascii → bool) (s : chars) : chars * chars :=
  match s with
  | c :: s' => if f c then let '(a, b) := take_while f s' in (c :: a, b) else ([], s)
  | [] => ([], [])
  end.
Definition last_char (s : chars) : option ascii := last s.
(** The rest after one of the words, which has to end at a boundary. *)
Fixpoint after_word (ws : list string) (s : chars) : option chars :=
  match ws with
  | [] => None
  | w :: ws' =>
      match strip_word (String.list_ascii_of_string w) s with
      | Some r => if boundary (last_char (String.list_ascii_of_string w)) (head r) then Some r else after_word ws' s
      | None => after_word ws' s
      end
  end.
(** [[1-9]\d*], as the number it is *)
Definition number (s : chars) : option (Z * chars) :=
  let '(ds, r) := take_while is_digit s in
  match ds with [] => None | _ => n ← int_digits 0 false ds; Some (n, r) end.
Definition positive (s : chars) : option chars :=
  match s with c :: _ => if bool_decide (c = "0"%char) then None else snd <$> number s | [] => None end.
(** [\s+], and [\s*] *)
Definition some_space (s : chars) : option chars :=
  match take_while is_space s with ([], _) => None | (_, r) => Some r end.
Definition any_space (s : chars) : chars := (take_while is_space s).2.
(** A match of a pattern that starts at a boundary, from the rest behind it. *)
Definition at_boundary {A} (prev : option ascii) (s : chars) (m : option (chars * A)) : option (nat * A) :=
  if boundary prev (head s) then '(r, a) ← m; Some (length s - length r, a) else None.
(** [_FAILED_TEST_COUNT_RE], on lower-case text like the next two *)
Definition failed_test_count : matcher unit := λ prev s,
  at_boundary prev s
    (r ← positive s; r ← some_space r; r ← after_word ["failed"; "failing"; "failure"; "failures"] r; Some (r, tt)).
(** [_NONZERO_EXIT_RE] *)
Definition nonzero_exit : matcher unit := λ prev s,
  at_boundary prev s
    (r ← strip_word (String.list_ascii_of_string "exit") s; r ← some_space r;
     r ← strip_word (String.list_ascii_of_string "code:") r; r ← positive (any_space r);
     if boundary (Some "0"%char) (head r) then Some (r, tt) else None).
(** [_PARTIAL_TEST_BUCKET_RE] *)
Definition partial_bucket : matcher unit := λ prev s,
  at_boundary prev s
    (r ← positive s; r ← some_space r;
     let bucket r := after_word ["partial"; "partials"] r in
     let tests := r ← after_word ["test"; "tests"] r; r ← some_space r; bucket r in
     r ← match tests with Some r => Some r | None => bucket r end; Some (r, tt)).
(** [_PARTIAL_TEST_COUNT_RE] *)
Definition partial_count : matcher (Z * Z) := λ prev s,
  at_boundary prev s
    ('(a, r) ← number s; r ← strip_word ["/"%char] (any_space r); '(b, r) ← number (any_space r);
     if boundary (Some "0"%char) (head r) then Some (r, (a, b)) else None).
(** [_CRITERIA_COUNT_CONTEXT_RE] *)
Definition criteria : matcher unit := λ prev s,
  at_boundary prev s (r ← after_word ["criteria"; "criterion"] s; Some (r, tt)).
(** [finditer]: the matches from left to right, with their start and end;
    the first [skip] characters belong to the match before. *)
Fixpoint finditer {A} (m : matcher A) (pos skip : nat) (prev : option ascii) (s : chars) : list (nat * nat * A) :=
  match s with
  | [] => []
  | c :: s' =>
      match skip with
      | S k => finditer m (S pos) k (Some c) s'
      | 0 =>
          match m prev s with
          | Some (n, a) => (pos, pos + n, a) :: finditer m (S pos) (n - 1) (Some c) s'
          | None => finditer m (S pos) 0 (Some c) s'
          end
      end
  end.
Definition all_matches {A} (m : matcher A) (s : chars) : list (nat * nat * A) := finditer m 0 0 None s.
(** [text[max(0, start - before) : min(len(text), end + after)]] *)
Definition window (before after start stop : nat) (s : chars) : chars :=
  take (stop + after - (start - before)) (drop (start - before) s).
Definition test_hints : list string :=
  ["test"; "test_run:"; "suite"; "spec"; "jest"; "vitest"; "pytest"; "playwright"; "e2e"; "unit"; "pass"; "passed";
   "passing"; "failed"; "failing"; "failure"].
Definition has_hint (s : chars) : bool := existsb (λ h, contains h (String.string_of_list_ascii s)) test_hints.
(** [_has_test_result_context_near] *)
Definition test_context {A} (s : chars) (x : nat * nat * A) : bool := has_hint (window 60 60 x.1.1 x.1.2 s).
(** [_looks_like_verification_criteria_count] *)
Definition criteria_count {A} (s : chars) (x : nat * nat * A) : bool :=
  negb (bool_decide (all_matches criteria (window 40 80 x.1.1 x.1.2 s) = [])).
(** [_is_failed_partial_test_count] *)
Definition failed_partial (s : chars) (x : nat * nat * (Z * Z)) : bool :=
  negb (criteria_count s x) && test_context s x && (0 <? x.2.2)%Z && (x.2.1 <? x.2.2)%Z.
(** [_text_has_failed_completion_evidence] *)
Definition failed_evidence_text (value : string) : bool :=
  let s := String.list_ascii_of_string (lower_str value) in
  existsb (test_context s) (all_matches failed_test_count s) ||
  existsb (test_context s) (all_matches nonzero_exit s) ||
  (has_hint s &&
   (negb (bool_decide (all_matches partial_bucket s = [])) || existsb (failed_partial s) (all_matches partial_count s))).
(** [list(dict.fromkeys(l))] *)
Definition without_repeats (l : list string) : list string := foldl (λ acc x, set_add x acc) [] l.
(** [_failed_completion_evidence] *)
Definition failed_completion_evidence (texts : list string) : list string :=
  without_repeats (filter (λ v, (truthy v && failed_evidence_text v) = true) (strip <$> texts)).
Definition disposition_prefixes : list string :=
  ["contract_disposition:"; "failed_test_disposition:"; "known_failure_disposition:"].
Definition has_disposition (texts : list string) : bool :=
  existsb (λ v, existsb (λ p, String.prefix p (lower_str (strip v))) disposition_prefixes) texts.

(** ** Completion *)

(** [_string_list] *)
Definition string_list (v : pyval) : list string :=
  match v with
  | PStr s => if truthy (strip s) then [strip s] else []
  | PList l => filter (λ s, truthy s = true) ((λ x, strip (py_str x)) <$> l)
  | _ => []
  end.
Record report_fields : Type := mkFields {
  f_artifacts : list string;
  f_verifications : list string;
  f_commit_ref : string;
  f_git_diff_summary : string;
  f_changed_files : list string }.
Definition stripped (v : pyval) : string := match v with PStr s => strip s | _ => "" end.
Definition prefixed_if (p s : string) : list string := if truthy s then [(p ++ s)%string] else [].
(** [_normalize_completion_report_fields] *)
Definition normalize_fields (artifacts verifications commit_ref git_diff_summary changed_files : pyval) : report_fields :=
  let commit := stripped commit_ref in
  let diff := stripped git_diff_summary in
  let files := string_list changed_files in
  mkFields (without_repeats (string_list artifacts ++ prefixed_if "commit_ref:" commit ++
              prefixed_if "git_diff_summary:" diff ++ ((λ f, "changed_file:" ++ f)%string <$> files)))
    (string_list verifications) commit diff files.
(** [_protected_verification_policy] *)
Definition protected_policy (ctx : tool_context) : option dict :=
  match dget "workspace_verification_integrity" (runtime_context ctx) with
  | Some (PDict policy) =>
      let phase := lower_str (strip (py_str (py_or (dget_or PNone "iteration_phase" policy) (PStr "")))) in
      if bool_decide (phase ∈ ["test"; "review"]) && negb (bool_decide (dget "allow_failed_tests" policy = Some (PBool true)))
      then Some policy else None
  | _ => None
  end.
(** [_completion_denial_for_failed_test_evidence]: what is held against the report *)
Definition evidence_against (ctx : tool_context) (summary : string) (f : report_fields) : list string :=
  match protected_policy ctx with
  | None => []
  | Some policy =>
      let refs := f_artifacts f ++ f_verifications f in
      if has_disposition refs then []
      else match failed_completion_evidence (summary :: f_git_diff_summary f :: refs) with
           | [] => failed_completion_evidence (string_list (dget_or PNone "test_contract_hints" policy))
           | l => l
           end
  end.
Definition completion_denied (failed : list string) : tool_result :=
  deny "completion denied: protected test/review node includes failed, failing, non-zero, or partial test evidence without an explicit contract_disposition/failed_test_disposition/known_failure_disposition verification ref. Rerun to 0 failed, provide the explicit disposition ref, or call workspace_report_blocked with the failing command and exact evidence."
    [("failed_evidence", PList (PStr <$> take 5 failed))].
(** [_completion_payload] *)
Definition completion_payload (summary task attempt : string) (f : report_fields) : dict :=
  [("summary", PStr summary); ("task_id", PStr task); ("attempt_id", PStr attempt)] ++
  list_if "artifacts" (f_artifacts f) ++ list_if "verifications" (f_verifications f) ++
  field_if "commit_ref" (f_commit_ref f) ++ field_if "git_diff_summary" (f_git_diff_summary f) ++
  list_if "changed_files" (f_changed_files f).
(** [workspace_report_complete] *)
Definition report_complete (env : environment) (ctx : tool_context) (fresh task attempt leader summary : string)
    (artifacts verifications commit_ref git_diff_summary changed_files : pyval) : tool_result * list action :=
  match require_worker_role ctx with
  | Some e => (deny e [], [])
  | None =>
      let f := normalize_fields artifacts verifications commit_ref git_diff_summary changed_files in
      match evidence_against ctx summary f with
      | (_ :: _) as failed => (completion_denied failed, [])
      | [] =>
          match tool_envelope ctx WtpVerb.TASK_COMPLETED fresh task attempt (completion_payload summary task attempt f) with
          | Err w => (refused "completion" WtpVerb.TASK_COMPLETED w, [])
          | Ok e => let '(sent, acts) := worker_send env ctx e leader in (finish_terminal env attempt "completed" sent, acts)
          end
      end
  end.

(** ** The leader *)

Definition leader_as_worker (ctx : tool_context) (worker : string) : bool :=
  truthy worker && truthy (sender_ref ctx) && bool_decide (worker = sender_ref ctx).
(** The launch of the worker's session, which starts with the retired runtime *)
Definition launch_info : dict :=
  [("scheduled", PBool false); ("error", PStr (legacy_workspace_runtime_retired "Workspace task assignment launch lookup"))].
(** [workspace_assign_task]; [fresh_attempt], [fresh]: the two random ids *)
Definition assign_task (env : environment) (ctx : tool_context)
    (fresh_attempt fresh task worker title description attempt deadline success_criteria : string) : tool_result * list action :=
  match require_leader_role ctx with
  | Some e => (deny e [], [])
  | None =>
      if leader_as_worker ctx worker
      then (deny "worker_agent_id must not equal leader_agent_id (leader-as-worker guard)"
              [("leader_agent_id", PStr (sender_ref ctx)); ("worker_agent_id", PStr worker)], [])
      else
        let attempt := str_or attempt fresh_attempt in
        let d := [("title", PStr title); ("description", PStr description); ("task_id", PStr task); ("attempt_id", PStr attempt)] ++
                 field_if "deadline" deadline ++ field_if "success_criteria" success_criteria in
        match tool_envelope ctx WtpVerb.TASK_ASSIGN fresh task attempt d with
        | Err w => (refused "assign" WtpVerb.TASK_ASSIGN w, [])
        | Ok e =>
            let '(reply, delivered, acts) := leader_send env ctx e worker in
            (if (delivered : bool) then mkResult (dset "launch" (PDict launch_info) (output reply)) (is_error reply) else reply, acts)
        end
  end.
(** [workspace_cancel_task] *)
Definition cancel_task (env : environment) (ctx : tool_context)
    (fresh_attempt fresh task worker reason attempt : string) : tool_result * list action :=
  match require_leader_role ctx with
  | Some e => (deny e [], [])
  | None =>
      if leader_as_worker ctx worker then (deny "worker_agent_id must not equal leader_agent_id" [], [])
      else
        let attempt := str_or attempt fresh_attempt in
        match tool_envelope ctx WtpVerb.TASK_CANCEL fresh task attempt
                [("reason", PStr reason); ("task_id", PStr task); ("attempt_id", PStr attempt)] with
        | Err w => (refused "cancel" WtpVerb.TASK_CANCEL w, [])
        | Ok e => let '(reply, _, acts) := leader_send env ctx e worker in (reply, acts)
        end
  end.

Example evidence_found :
  failed_evidence_text "pytest: 3 failed, 10 passed" = true ∧ failed_evidence_text "0 failed, 12 passed" = false ∧
  failed_evidence_text "npm test: 7/9 passing" = true ∧ failed_evidence_text "tests: 7/9 required criteria met" = false ∧
  failed_evidence_text "pytest ended with Exit code: 2" = true ∧ failed_evidence_text "1 tests partial" = true ∧
  failed_evidence_text "suite 1/2/3" = true ∧ failed_evidence_text "13a failed test" = false.
Proof. vm_compute. repeat split. Qed.

(** ** The launcher of workers *)

(** [_publish_worker_launch_heartbeat] and [_publish_worker_launch_progress], up
    to the markers they refresh; the default publisher is the only one. *)
Record launch : Type := mkLaunch {
  l_workspace : string; l_task : string; l_attempt : string; l_root_goal : string; l_conversation : string;
  l_actor : string; l_worker : string; l_leader : string }.
Definition launch_metadata (l : launch) : dict :=
  [("actor_user_id", PStr (l_actor l)); ("worker_agent_id", PStr (l_worker l)); ("source", PStr "workspace_worker_launch")] ++
  field_if "leader_agent_id" (l_leader l) ++ field_if "worker_conversation_id" (l_conversation l).
Definition launch_publish (env : environment) (x : WtpVerb.t) (fresh : string) (l : launch) (d : dict) : list action :=
  if truthy (l_attempt l) then
    match new_envelope x (PStr (l_workspace l)) (PStr (l_task l)) (PStr (l_attempt l)) (PStr fresh)
            (opt_text (str_opt (l_root_goal l))) PNone d (launch_metadata l) with
    | Ok e => match default_publisher env with Some _ => [Publish e] | None => [] end
    | Err _ => []
    end
  else [].
Definition launch_heartbeat (env : environment) (fresh : string) (l : launch) : list action :=
  launch_publish env WtpVerb.TASK_HEARTBEAT fresh l [].
Definition launch_progress (env : environment) (fresh : string) (l : launch) (summary phase : string) : list action :=
  if truthy (strip summary) then
    launch_publish env WtpVerb.TASK_PROGRESS fresh l [("summary", PStr (strip summary)); ("phase", PStr phase)]
  else [].

(** ** All of them *)

Inductive tool_call : Type :=
  | Progress (task attempt leader summary phase : string)
  | Blocked (task attempt leader reason evidence : string)
  | Complete (task attempt leader summary : string) (artifacts verifications commit_ref diff changed_files : pyval)
  | Assign (fresh_attempt task worker title description attempt deadline success_criteria : string)
  | Cancel (fresh_attempt task worker reason attempt : string).
Definition call_tool (env : environment) (ctx : tool_context) (fresh : string) (c : tool_call) : tool_result * list action :=
  match c with
  | Progress t a l s p => report_progress env ctx fresh t a l s p
  | Blocked t a l r ev => report_blocked env ctx fresh t a l r ev
  | Complete t a l s ar ve co di ch => report_complete env ctx fresh t a l s ar ve co di ch
  | Assign fa t w ti de a dl sc => assign_task env ctx fa fresh t w ti de a dl sc
  | Cancel fa t w r a => cancel_task env ctx fa fresh t w r a
  end.
Definition call_verb (c : tool_call) : WtpVerb.t :=
  match c with
  | Progress _ _ _ _ _ => WtpVerb.TASK_PROGRESS | Blocked _ _ _ _ _ => WtpVerb.TASK_BLOCKED
  | Complete _ _ _ _ _ _ _ _ _ => WtpVerb.TASK_COMPLETED
  | Assign _ _ _ _ _ _ _ _ => WtpVerb.TASK_ASSIGN | Cancel _ _ _ _ _ => WtpVerb.TASK_CANCEL
  end.
Definition call_task (c : tool_call) : string :=
  match c with
  | Progress t _ _ _ _ | Blocked t _ _ _ _ | Complete t _ _ _ _ _ _ _ _ | Assign _ t _ _ _ _ _ _ | Cancel _ t _ _ _ => t
  end.
Definition is_leader_call (c : tool_call) : bool := match c with Assign _ _ _ _ _ _ _ _ | Cancel _ _ _ _ _ => true | _ => false end.

(** * What goes out *)

Definition plain_dict (d : dict) : bool := json_ok (PDict d).
Lemma plain_json d : plain_dict d = true → json_wf (PDict d).
Proof. apply json_ok_wf. Qed.
Lemma setdefault_json k v d : json_wf v → json_wf (PDict d) → json_wf (PDict (setdefault k v d)).
Proof.
  intros Hv Hd. unfold setdefault. destruct (dmem k d); [done|].
  inversion Hd as [| | | | |d' Hwf Hall]; subst. constructor; [by apply dset_wf|].
  intros kv [->|Hkv]%elem_of_dset; auto.
Qed.
Lemma setdefault_if_json k s d : json_wf (PDict d) → json_wf (PDict (setdefault_if k s d)).
Proof. intros Hd. unfold setdefault_if. destruct (truthy s); [|done]. by apply setdefault_json; [constructor|]. Qed.
Lemma texts_json l : json_wf (PList (PStr <$> l)).
Proof. constructor. intros v (s & -> & _)%list_elem_of_fmap. constructor. Qed.

(** An envelope a tool sends: what is read from it again is the same. *)
Record outgoing (x : WtpVerb.t) (task : string) (e : WtpEnvelope) : Prop := {
  out_valid : validate e = None;
  out_json : json_envelope e;
  out_verb : verb e = x;
  out_task : task_id e = task }.
Lemma with_extra_outgoing x task e d : outgoing x task e → json_wf (PDict d) → outgoing x task (with_extra e d).
Proof.
  intros [Hv [Hp He Ha] Hx Ht] Hd. unfold with_extra. destruct (new_envelope _ _ _ _ _ _ _ _ d) as [e'|] eqn:Hn; [|done].
  pose proof (new_envelope_valid _ _ _ _ _ _ _ _ _ _ Hn) as Hv'. unfold new_envelope in Hn.
  case_match; [done|]. injection Hn as <-. by split.
Qed.
Lemma tool_envelope_outgoing ctx x fresh task attempt d e : json_wf (PDict d) →
  tool_envelope ctx x fresh task attempt d = Ok e → outgoing x task e.
Proof.
  intros Hd Hn. pose proof (new_envelope_valid _ _ _ _ _ _ _ _ _ _ Hn) as Hv.
  unfold tool_envelope, new_envelope in Hn. case_match; [done|]. injection Hn as <-.
  split; [done| |done|done]. split; [done|by apply plain_json|constructor].
Qed.
Lemma enrich_outgoing ctx to x task e : outgoing x task e → outgoing x task (enrich_envelope ctx to e).
Proof.
  intros He. apply with_extra_outgoing; [done|].
  repeat first [apply setdefault_if_json | apply setdefault_json; [constructor|]]. apply He.
Qed.
(** What an action may carry. *)
Definition action_ok (x : WtpVerb.t) (task : string) (a : action) : Prop :=
  match a with
  | Publish e => outgoing x task e
  | SendMessage _ text ty metadata => ∃ e ctx, outgoing x task e ∧ text = to_content e ∧
      ty = default_message_type x ∧ metadata = sent_metadata ctx e
  | Emit _ _ _ _ _ => True
  end.
Lemma publish_ok env x task e : outgoing x task e → ∀ a, a ∈ (publish_for_supervisor env e).2 → action_ok x task a.
Proof.
  intros He a. unfold publish_for_supervisor.
  destruct (entry_ok (default_publisher env)), (default_publisher env), (fallback_publisher env); cbn;
    rewrite ?elem_of_cons, ?elem_of_nil; intuition (subst; done).
Qed.
Lemma send_action_ok ctx to x task e : outgoing x task e → action_ok x task (send_action ctx to e).
Proof. intros He. exists e, ctx. split_and!; [done|done|by rewrite (out_verb _ _ _ He)|done]. Qed.
Lemma worker_send_ok env ctx x task e to : outgoing x task e → ∀ a, a ∈ (worker_send env ctx e to).2 → action_ok x task a.
Proof.
  intros He a. pose proof (publish_ok env _ _ _ (enrich_outgoing ctx to _ _ _ He)) as Hp. unfold worker_send.
  destruct (bool_decide _).
  - destruct (publish_for_supervisor env _) as [entry puts]. cbn in *. intros [Ha| ->%list_elem_of_singleton]%elem_of_app; [auto|done].
  - destruct (orchestrator env) as [r|]; [|by intros ?%elem_of_nil]. cbn.
    intros [->|Ha]%elem_of_cons; [by apply send_action_ok|].
    destruct r; [by apply elem_of_nil in Ha..|].
    apply elem_of_app in Ha as [Ha| ->%list_elem_of_singleton]; [auto|done].
Qed.
Lemma leader_send_ok env ctx x task e to : outgoing x task e → ∀ a, a ∈ (leader_send env ctx e to).2 → action_ok x task a.
Proof.
  intros He a. unfold leader_send. destruct (orchestrator env) as [r|]; [|by intros ?%elem_of_nil].
  set (enriched := with_extra e _).
  assert (outgoing x task enriched) as Hx.
  { apply with_extra_outgoing; [done|].
    repeat first [apply setdefault_if_json | apply setdefault_json; [constructor|]]. apply He. }
  pose proof (send_action_ok ctx to _ _ _ He) as Hs.
  destruct r; cbn; [by intros ->%list_elem_of_singleton..|].
  intros [->|[Ha| ->%list_elem_of_singleton]%elem_of_app]%elem_of_cons; [done| |done].
  destruct (default_publisher env); [|by apply elem_of_nil in Ha]. by apply list_elem_of_singleton in Ha as ->.
Qed.
Ltac payload_fields :=
  constructor;
  [ vm_decide
  | intros kv Hkv; cbn [app] in Hkv;
    repeat (apply elem_of_cons in Hkv as [->|Hkv]; [first [apply texts_json|constructor]|]); by apply elem_of_nil in Hkv ].
Ltac payload_json :=
  cbn [extra_metadata payload]; unfold completion_payload, launch_metadata, field_if, list_if; repeat case_match;
  payload_fields.

Lemma launch_publish_ok env x fresh l d : json_wf (PDict d) → ∀ a, a ∈ launch_publish env x fresh l d → action_ok x (l_task l) a.
Proof.
  intros Hd a. unfold launch_publish. destruct (truthy _); [|by intros ?%elem_of_nil].
  destruct (new_envelope _ _ _ _ _ _ _ _ _) as [e|] eqn:Hn; [|by intros ?%elem_of_nil].
  destruct (default_publisher env); [|by intros ?%elem_of_nil]. intros ->%list_elem_of_singleton.
  pose proof (new_envelope_valid _ _ _ _ _ _ _ _ _ _ Hn) as Hv. unfold new_envelope in Hn. case_match; [done|].
  injection Hn as <-. split; [done| |done|done]. split; [done| |constructor]. payload_json.
Qed.
Definition call_role (ctx : tool_context) (c : tool_call) : option string :=
  if is_leader_call c then require_leader_role ctx else require_worker_role ctx.
Definition role_verbs (c : tool_call) : list WtpVerb.t :=
  if is_leader_call c then WtpVerb.leader_to_worker else WtpVerb.worker_to_leader.
Lemma call_verb_role c : call_verb c ∈ role_verbs c.
Proof. destruct c; vm_decide. Qed.

Lemma tools_send_ok env ctx fresh c a : a ∈ (call_tool env ctx fresh c).2 →
  call_role ctx c = None ∧ action_ok (call_verb c) (call_task c) a.
Proof.
  destruct c; cbn [call_tool]; unfold call_role; cbn [is_leader_call];
    unfold report_progress, report_blocked, report_complete, assign_task, cancel_task;
    match goal with |- _ → ?role = None ∧ _ => destruct role; [by intros ?%elem_of_nil|] end.
  - destruct (tool_envelope _ _ _ _ _ _) as [e|] eqn:He; [|by intros ?%elem_of_nil].
    intros Ha. split; [done|]. eapply worker_send_ok, Ha. eapply tool_envelope_outgoing, He. payload_json.
  - destruct (tool_envelope _ _ _ _ _ _) as [e|] eqn:He; [|by intros ?%elem_of_nil].
    destruct (worker_send env ctx e _) as [sent acts] eqn:Hs. cbn. intros Ha. split; [done|].
    eapply worker_send_ok; [|by rewrite Hs]. eapply tool_envelope_outgoing, He. payload_json.
  - destruct (evidence_against _ _ _); [|by intros ?%elem_of_nil].
    destruct (tool_envelope _ _ _ _ _ _) as [e|] eqn:He; [|by intros ?%elem_of_nil].
    destruct (worker_send env ctx e _) as [sent acts] eqn:Hs. cbn. intros Ha. split; [done|].
    eapply worker_send_ok; [|by rewrite Hs]. eapply tool_envelope_outgoing, He. payload_json.
  - destruct (leader_as_worker _ _); [by intros ?%elem_of_nil|].
    destruct (tool_envelope _ _ _ _ _ _) as [e|] eqn:He; [|by intros ?%elem_of_nil].
    destruct (leader_send env ctx e _) as [[sent up] acts] eqn:Hs. cbn. intros Ha. split; [done|].
    eapply leader_send_ok; [|by rewrite Hs]. eapply tool_envelope_outgoing, He. payload_json.
  - destruct (leader_as_worker _ _); [by intros ?%elem_of_nil|].
    destruct (tool_envelope _ _ _ _ _ _) as [e|] eqn:He; [|by intros ?%elem_of_nil].
    destruct (leader_send env ctx e _) as [[sent up] acts] eqn:Hs. cbn. intros Ha. split; [done|].
    eapply leader_send_ok; [|by rewrite Hs]. eapply tool_envelope_outgoing, He. payload_json.
Qed.

(** * Properties *)

(** What a tool sends or publishes stays within the role of its caller:
    only a session of the right role in a workspace has any effect, and what
    goes out are valid envelopes of the one verb of the tool, which the role
    may use, about the task the tool was called for, that their readers read
    back. *)
Theorem tools_keep_to_their_role env ctx fresh c a : a ∈ (call_tool env ctx fresh c).2 →
  call_role ctx c = None ∧ call_verb c ∈ role_verbs c ∧ action_ok (call_verb c) (call_task c) a.
Proof. intros [? ?]%tools_send_ok. split_and!; [done|apply call_verb_role|done]. Qed.

(** As long as the tools and not only the supervisor are to record the
    end of an attempt, a worker is told that its completion or its blocker
    failed, whatever became of its message: what would record it is retired
    and always raises. *)
Theorem terminal_reports_fail env ctx fresh c : supervisor_only env = false → WtpVerb.is_terminal (call_verb c) = true →
  is_error (call_tool env ctx fresh c).1 = true.
Proof.
  intros Hs. assert (∀ attempt kind sent, is_error (finish_terminal env attempt kind sent) = true) as Hf.
  { intros attempt kind sent. unfold finish_terminal, terminal_tool_result. rewrite Hs.
    change (applied_flag (apply_terminal_report attempt kind)) with (Some false).
    rewrite bool_decide_false by done. by rewrite andb_false_r. }
  destruct c; try done; intros _; cbn [call_tool]; unfold report_blocked, report_complete.
  - destruct (require_worker_role ctx); [done|]. destruct (tool_envelope _ _ _ _ _ _) as [e|]; [|done].
    destruct (worker_send env ctx e _). apply Hf.
  - destruct (require_worker_role ctx); [done|]. destruct (evidence_against _ _ _); [|done].
    destruct (tool_envelope _ _ _ _ _ _) as [e|]; [|done]. destruct (worker_send env ctx e _). apply Hf.
Qed.
(** A delivered assignment launches no worker. *)
Lemma assign_launches_nothing env ctx fa fresh t w ti de a dl sc m from to : orchestrator env = Some (SendResult m from to) →
  is_error (assign_task env ctx fa fresh t w ti de a dl sc).1 = false →
  dget "launch" (output (assign_task env ctx fa fresh t w ti de a dl sc).1) = Some (PDict launch_info).
Proof.
  intros Ho. unfold assign_task. destruct (require_leader_role ctx); [done|]. destruct (leader_as_worker _ _); [done|].
  destruct (tool_envelope _ _ _ _ _ _) as [e|]; [|done]. unfold leader_send. rewrite Ho. intros _.
  cbn -[dset launch_info sent_output]. by rewrite dget_dset_eq.
Qed.

(** * Witnesses *)

Definition worker_context : tool_context :=
  mkContext [("workspace_session_role", PStr "worker"); ("workspace_id", PStr "ws"); ("root_goal_task_id", PStr "goal")] "w1" "conv" "u1".
Definition bus_up : environment := mkEnvironment (Some (SendResult "m1" "w1" "lead")) None (Some "1-0") "".
Definition completion : tool_call :=
  Complete "task" "attempt" "lead" "built it" (PList [PStr "a.md"]) PNone (PStr "abc123") PNone PNone.
Definition published (acts : list action) : list WtpEnvelope :=
  omap (λ a, match a with Publish e => Some e | _ => None end) acts.
Lemma tools_keep_to_their_role_witness :
  ∃ e, published (call_tool bus_up worker_context "corr" completion).2 = [e] ∧ action_ok WtpVerb.TASK_COMPLETED "task" (Publish e).
Proof.
  eexists. split; [vm_compute; reflexivity|].
  refine (proj2 (proj2 (tools_keep_to_their_role bus_up worker_context "corr" completion _ _))).
  vm_compute. right. left.
Defined.
Lemma terminal_reports_fail_witness :
  is_error (call_tool bus_up worker_context "corr" completion).1 = true ∧
  length (call_tool bus_up worker_context "corr" completion).2 = 3.
Proof. split; [apply terminal_reports_fail; vm_compute; reflexivity|vm_compute; reflexivity]. Defined.
