(* ===== verification/WtpClarify.v ===== *)
(** Questions of a worker to its leader, in the system they are asked in: the
    calls that wait, the answers, the tools, the stream and its supervisor.

    Source: src/src/infrastructure/agent/tools/workspace_clarification.py, over
    WtpTools.v and WtpSupervisor.v.  A call that waits is named by its place;
    coroutines are cut at their awaits, each piece is a step.  The stream holds
    what the tools and the launcher publish, in order; the supervisor may read
    any of it, at any time, and entries from elsewhere. *)

From S2P Require Import Prelude Json PyText WtpEnvelope WtpSupervisor WtpTools.

Open Scope string_scope.
Open Scope list_scope.
Open Scope nat_scope.

(** * State *)

Inductive future : Type := FPending | FResult (s : string) | FCancelled.
Inductive call_result : Type := Answered (answer : string) | TimedOut | Refused (r : tool_result) | Cancelled.
Inductive call_state : Type := Sending | Waiting | Finished (r : call_result).
(** A call of [workspace_request_clarification], with its future *)
Record clarification : Type := mkCall { cl_correlation : string; cl_future : future; cl_state : call_state }.
Record system : Type := mkSystem {
  calls : list clarification;
  pending : list (string * nat);          (** [_pending_clarifications] *)
  callbacks : list (nat * string);        (** [call_soon_threadsafe] *)
  super : supervisor;
  stream : list string;
  outbox : list action }.
Definition set_calls (l : list clarification) (s : system) : system :=
  mkSystem l (pending s) (callbacks s) (super s) (stream s) (outbox s).
Definition set_pending (d : list (string * nat)) (s : system) : system :=
  mkSystem (calls s) d (callbacks s) (super s) (stream s) (outbox s).
Definition set_callbacks (l : list (nat * string)) (s : system) : system :=
  mkSystem (calls s) (pending s) l (super s) (stream s) (outbox s).
Definition set_super (x : supervisor) (s : system) : system :=
  mkSystem (calls s) (pending s) (callbacks s) x (stream s) (outbox s).
Definition set_future (i : nat) (f : future) (s : system) : system :=
  set_calls (alter (λ x, mkCall (cl_correlation x) f (cl_state x)) i (calls s)) s.
Definition set_state (i : nat) (st : call_state) (s : system) : system :=
  set_calls (alter (λ x, mkCall (cl_correlation x) (cl_future x) st) i (calls s)) s.
Definition new_system (x : supervisor) : system := mkSystem [] [] [] x [] [].
(** Texts a publisher adds to the stream, and messages on the bus *)
Definition act (acts : list action) (s : system) : system :=
  mkSystem (calls s) (pending s) (callbacks s) (super s)
    (stream s ++ omap (publish_envelope true true) (published acts)) (outbox s ++ acts).

(** * Asking *)

Definition question_envelope (ctx : tool_context) (corr task attempt question : string) (blocking : bool)
    : result wtp_error WtpEnvelope :=
  tool_envelope ctx WtpVerb.TASK_CLARIFY_REQUEST corr task attempt
    [("task_id", PStr task); ("attempt_id", PStr attempt); ("question", PStr (strip question)); ("blocking", PBool blocking)].
Definition deny_role (ctx : tool_context) (e : string) : tool_result :=
  deny e [("role", PStr (str_or (runtime_context_string ctx "workspace_session_role") "none"))].
Definition add_call (x : clarification) (s : system) : system := set_calls (calls s ++ [x]) s.
(** [workspace_request_clarification_tool], up to the answer of the bus *)
Definition request_clarification (ctx : tool_context) (configured : bool) (corr task attempt leader question : string)
    (blocking : bool) (s : system) : system :=
  let refuse r := add_call (mkCall corr FPending (Finished (Refused r))) s in
  match require_workspace_session_role ctx "worker" "workspace_request_clarification" with
  | Some e => refuse (deny_role ctx e)
  | None =>
      if truthy task && truthy attempt && truthy leader && truthy (strip question) then
        match question_envelope ctx corr task attempt question blocking with
        | Err w => refuse (refused "clarification" WtpVerb.TASK_CLARIFY_REQUEST w)
        | Ok e =>
            if configured then
              act [send_action ctx leader e]
                (set_pending (dset corr (length (calls s)) (pending s)) (add_call (mkCall corr FPending Sending) s))
            else set_pending (ddel corr (dset corr (length (calls s)) (pending s)))
                   (add_call (mkCall corr FPending (Finished (Refused (deny "workspace WTP not configured" [])))) s)
        end
      else refuse (deny "task_id, attempt_id, leader_agent_id and non-empty question are required" [])
  end.
Definition failed_send (r : send_result) : option tool_result :=
  match r with
  | SendRaised => Some (deny "internal error while sending clarification envelope" [])
  | SendDenied fields =>
      Some (mkResult (update_dict [("error", PStr "send_denied"); ("verb", PStr (WtpVerb.value WtpVerb.TASK_CLARIFY_REQUEST))]
                        fields) true)
  | SendResult _ _ _ => None
  end.
Definition forget (x : clarification) (s : system) : system := set_pending (ddel (cl_correlation x) (pending s)) s.
(** The bus has answered: the call fails, returns an answer that is there
    already, or waits. *)
Definition send_ended (i : nat) (r : send_result) (s : system) : system :=
  match calls s !! i with
  | Some x =>
      match cl_state x, failed_send r, cl_future x with
      | Sending, Some error, _ => set_state i (Finished (Refused error)) (forget x s)
      | Sending, None, FResult a => set_state i (Finished (Answered a)) s
      | Sending, None, _ => set_state i Waiting s
      | _, _, _ => s
      end
  | None => s
  end.
Definition cancel_future (i : nat) (s : system) : system :=
  match calls s !! i with
  | Some x => match cl_future x with FPending => set_future i FCancelled s | _ => s end
  | None => s
  end.
(** [wait_for] gives up, maybe on an answer that was not read yet. *)
Definition time_out (i : nat) (s : system) : system :=
  match calls s !! i with
  | Some x =>
      match cl_state x with
      | Waiting => set_state i (Finished TimedOut) (forget x (cancel_future i s))
      | _ => s
      end
  | None => s
  end.
(** The task of the call is cancelled; what it registered stays. *)
Definition task_cancelled (i : nat) (s : system) : system :=
  match calls s !! i with
  | Some x =>
      match cl_state x with
      | Sending => set_state i (Finished Cancelled) s
      | Waiting => set_state i (Finished Cancelled) (cancel_future i s)
      | Finished _ => s
      end
  | None => s
  end.
Definition resume (i : nat) (s : system) : system :=
  match calls s !! i with
  | Some x =>
      match cl_state x, cl_future x with
      | Waiting, FResult a => set_state i (Finished (Answered a)) s
      | _, _ => s
      end
  | None => s
  end.

(** * Answering *)

Definition answer_text (e : WtpEnvelope) : string := py_str (py_or (dget_or PNone "answer" (payload e)) (PStr "")).
(** [deliver_clarification_response]; [closed]: the loop of the waiting call is *)
Definition deliver_clarification_response (closed : bool) (e : WtpEnvelope) (s : system) : system * bool :=
  if bool_decide (verb e ≠ WtpVerb.TASK_CLARIFY_RESPONSE) then (s, false)
  else
    match dget (correlation_id e) (pending s) with
    | None => (s, false)
    | Some i =>
        let s' := set_pending (ddel (correlation_id e) (pending s)) s in
        match cl_future <$> calls s !! i with
        | Some FPending =>
            (if closed then set_future i (FResult (answer_text e)) s'
             else set_callbacks (callbacks s ++ [(i, answer_text e)]) s', true)
        | _ => (s', false)
        end
    end.
(** The next callback; a future that is done by now refuses the result. *)
Definition run_callback (s : system) : system :=
  match callbacks s with
  | [] => s
  | (i, a) :: rest =>
      let s' := set_callbacks rest s in
      match cl_future <$> calls s !! i with Some FPending => set_future i (FResult a) s' | _ => s' end
  end.
(** [workspace_respond_clarification_tool]: the message of the leader *)
Definition respond_clarification (ctx : tool_context) (configured : bool) (worker task attempt corr answer : string)
    : result tool_result (list action) :=
  match require_workspace_session_role ctx "leader" "workspace_respond_clarification" with
  | Some e => Err (deny_role ctx e)
  | None =>
      if truthy worker && truthy task && truthy attempt && truthy corr && truthy (strip answer) then
        match tool_envelope ctx WtpVerb.TASK_CLARIFY_RESPONSE corr task attempt
                [("task_id", PStr task); ("attempt_id", PStr attempt); ("answer", PStr answer)] with
        | Err w => Err (refused "clarification response" WtpVerb.TASK_CLARIFY_RESPONSE w)
        | Ok e => if configured then Ok [send_action ctx worker e] else Err (deny "workspace WTP not configured" [])
        end
      else Err (deny "worker_agent_id, task_id, attempt_id, correlation_id and non-empty answer are required" [])
  end.

(** * The system *)

Inductive system_event : Type :=
  | Request (ctx : tool_context) (configured : bool) (corr task attempt leader question : string) (blocking : bool)
  | SendEnded (i : nat) (r : send_result)
  | TimeOut (i : nat)
  | TaskCancelled (i : nat)
  | Resume (i : nat)
  | RunCallback
  | Respond (ctx : tool_context) (configured : bool) (worker task attempt corr answer : string)
  | Tool (env : environment) (ctx : tool_context) (fresh : string) (c : tool_call)
  | Heartbeat (env : environment) (fresh : string) (l : launch)
  | LaunchProgress (env : environment) (fresh : string) (l : launch) (summary phase : string)
  | ReadStream (closed : bool) (k : nat) (now : Z) (fresh id : string)
  | Supervise (closed : bool) (ev : event).
Definition apply_effect (closed : bool) (s : system) (x : effect) : system :=
  match x with Deliver e => (deliver_clarification_response closed e s).1 | Report _ => s end.
Definition supervise (closed : bool) (ev : event) (s : system) : system :=
  let '(x, effs) := step ev (super s) in foldl (apply_effect closed) (set_super x s) effs.
(** What the supervisor reads at an event *)
Definition entry_read (ev : event) : list WtpEnvelope :=
  match ev with Entry _ fresh _ data => match read_entry fresh data with Read e => [e] | _ => [] end | _ => [] end.
Definition stream_event (k : nat) (now : Z) (fresh id : string) (s : system) : event :=
  Entry now fresh id (from_option Text Absent (stream s !! k)).
Definition system_step (ev : system_event) (s : system) : system * list WtpEnvelope :=
  match ev with
  | Request ctx configured corr task attempt leader question blocking =>
      (request_clarification ctx configured corr task attempt leader question blocking s, [])
  | SendEnded i r => (send_ended i r s, [])
  | TimeOut i => (time_out i s, [])
  | TaskCancelled i => (task_cancelled i s, [])
  | Resume i => (resume i s, [])
  | RunCallback => (run_callback s, [])
  | Respond ctx configured worker task attempt corr answer =>
      (match respond_clarification ctx configured worker task attempt corr answer with Ok acts => act acts s | Err _ => s end, [])
  | Tool env ctx fresh c => (act (call_tool env ctx fresh c).2 s, [])
  | Heartbeat env fresh l => (act (launch_heartbeat env fresh l) s, [])
  | LaunchProgress env fresh l summary phase => (act (launch_progress env fresh l summary phase) s, [])
  | ReadStream closed k now fresh id =>
      (supervise closed (stream_event k now fresh id s) s, entry_read (stream_event k now fresh id s))
  | Supervise closed ev => (supervise closed ev s, entry_read ev)
  end.
Fixpoint system_run (evs : list system_event) (s : system) : system * list WtpEnvelope :=
  match evs with
  | [] => (s, [])
  | ev :: evs' =>
      let '(s1, log) := system_step ev s in let '(s2, more) := system_run evs' s1 in (s2, log ++ more)
  end.

(** * Where answers come from *)

(** An answer that some envelope read so far carries for a correlation *)
Definition justified (log : list WtpEnvelope) (corr a : string) : Prop :=
  ∃ e, e ∈ log ∧ verb e = WtpVerb.TASK_CLARIFY_RESPONSE ∧ correlation_id e = corr ∧ a = answer_text e.
Definition call_ok (log : list WtpEnvelope) (x : clarification) : Prop :=
  ∀ a, cl_future x = FResult a ∨ cl_state x = Finished (Answered a) → justified log (cl_correlation x) a.
Record answers_ok (log : list WtpEnvelope) (s : system) : Prop := {
  calls_ok : ∀ i x, calls s !! i = Some x → call_ok log x;
  pending_ok : ∀ c i, dget c (pending s) = Some i → ∃ x, calls s !! i = Some x ∧ cl_correlation x = c;
  callbacks_ok : ∀ i a, (i, a) ∈ callbacks s → ∃ x, calls s !! i = Some x ∧ justified log (cl_correlation x) a }.

Lemma justified_more log more corr a : justified log corr a → justified (log ++ more) corr a.
Proof. intros (e & He & ?). exists e. split; [|done]. apply elem_of_app. by left. Qed.
Lemma answers_ok_more log more s : answers_ok log s → answers_ok (log ++ more) s.
Proof.
  intros [H1 H2 H3]. split; [|done|].
  - intros i x Hx a Ha. by eapply justified_more, H1.
  - intros i a Ha. destruct (H3 i a Ha) as (x & ? & ?). exists x. auto using justified_more.
Qed.

Section steps.
Context (log : list WtpEnvelope).
Notation ok := (answers_ok log).

Lemma act_ok acts s : ok s → ok (act acts s).
Proof. by intros []. Qed.
Lemma set_super_ok x s : ok s → ok (set_super x s).
Proof. by intros []. Qed.
Lemma forget_key_ok c s : ok s → ok (set_pending (ddel c (pending s)) s).
Proof.
  intros [H1 H2 H3]. split; [done| |done]. cbn. intros k i. rewrite dget_ddel. case_decide; [done|]. apply H2.
Qed.
(** A call changes, but not its correlation. *)
Lemma alter_ok i f s : ok s → (∀ x, cl_correlation (f x) = cl_correlation x) →
  (∀ x, calls s !! i = Some x → call_ok log (f x)) → ok (set_calls (alter f i (calls s)) s).
Proof.
  intros [H1 H2 H3] Hf Hx.
  assert (Hk : ∀ k x, calls s !! k = Some x →
    ∃ y, alter f i (calls s) !! k = Some y ∧ cl_correlation y = cl_correlation x).
  { intros k x Hk. rewrite list_lookup_alter. case_decide; subst; rewrite Hk; cbn; eauto. }
  split; cbn.
  - intros k x. rewrite list_lookup_alter. case_decide; subst; [|apply H1].
    destruct (calls s !! k) as [y|] eqn:Hy; [|done]. intros [= <-]. auto.
  - intros c k Hc. destruct (H2 c k Hc) as (x & Hx' & <-). by apply Hk.
  - intros k a Ha. destruct (H3 k a Ha) as (x & Hx' & Hj). destruct (Hk k x Hx') as (y & ? & Hy).
    exists y. by rewrite Hy.
Qed.
Lemma set_state_ok i st s : ok s →
  (∀ x a, calls s !! i = Some x → st = Finished (Answered a) → justified log (cl_correlation x) a) → ok (set_state i st s).
Proof.
  intros Hok Hj. apply alter_ok; [done|done|]. intros x Hx a [Ha|Ha]; cbn in *; [|by apply (Hj x)].
  apply (calls_ok _ _ Hok i x Hx). by left.
Qed.
Lemma set_future_ok i f s : ok s →
  (∀ x a, calls s !! i = Some x → f = FResult a → justified log (cl_correlation x) a) → ok (set_future i f s).
Proof.
  intros Hok Hj. apply alter_ok; [done|done|]. intros x Hx a [Ha|Ha]; cbn in *; [by apply (Hj x)|].
  apply (calls_ok _ _ Hok i x Hx). by right.
Qed.
Lemma cancel_future_ok i s : ok s → ok (cancel_future i s).
Proof. intros Hok. unfold cancel_future. repeat case_match; try done. by apply set_future_ok. Qed.
Lemma add_call_ok x s : ok s → call_ok log x → ok (add_call x s).
Proof.
  intros [H1 H2 H3] Hx.
  assert (Hk : ∀ k y, calls s !! k = Some y → (calls s ++ [x]) !! k = Some y) by (intros; by apply lookup_app_l_Some).
  split; cbn.
  - intros k y [Hy|[_ Hy]]%lookup_app_Some; [by eapply H1|]. apply list_lookup_singleton_Some in Hy as [_ <-]. done.
  - intros c k Hc. destruct (H2 c k Hc) as (y & Hy & Hc'). eauto.
  - intros k a Ha. destruct (H3 k a Ha) as (y & Hy & Hj). eauto.
Qed.
Lemma request_ok ctx configured corr t a l q b s : ok s → ok (request_clarification ctx configured corr t a l q b s).
Proof.
  intros Hok.
  assert (Hnew : ∀ st, (∀ x, st ≠ Finished (Answered x)) → ok (add_call (mkCall corr FPending st) s)).
  { intros st Hst. apply add_call_ok; [done|]. intros x [?|Hx]; [done|]. by apply Hst in Hx. }
  assert (Hreg : ∀ st, (∀ x, st ≠ Finished (Answered x)) →
    ok (set_pending (dset corr (length (calls s)) (pending s)) (add_call (mkCall corr FPending st) s))).
  { intros st Hst. destruct (Hnew st Hst) as [H1 H2 H3]. split; [done| |done]. cbn. intros c i. rewrite dget_dset.
    case_decide; [|apply H2]. intros [= <-]. subst. eexists. rewrite lookup_app_r, Nat.sub_diag by done. done. }
  unfold request_clarification. destruct (require_workspace_session_role _ _ _); [by apply Hnew|].
  destruct (_ && _); [|by apply Hnew]. destruct (question_envelope _ _ _ _ _ _); [|by apply Hnew].
  destruct configured; [by apply act_ok, Hreg|].
  exact (forget_key_ok corr _ (Hreg (Finished (Refused (deny "workspace WTP not configured" []))) ltac:(done))).
Qed.
Lemma send_ended_ok i r s : ok s → ok (send_ended i r s).
Proof.
  intros Hok. unfold send_ended. destruct (calls s !! i) as [x|] eqn:Hx; [|done].
  destruct (cl_state x); try (by destruct (failed_send r), (cl_future x)).
  destruct (failed_send r); [by apply set_state_ok; [apply forget_key_ok|]|].
  destruct (cl_future x) eqn:Hf; [by apply set_state_ok| |by apply set_state_ok].
  apply set_state_ok; [done|]. intros y a Hy [= <-]. rewrite Hx in Hy. injection Hy as <-.
  apply (calls_ok _ _ Hok i x Hx). by left.
Qed.
Lemma time_out_ok i s : ok s → ok (time_out i s).
Proof.
  intros Hok. unfold time_out. destruct (calls s !! i) as [x|]; [|done]. destruct (cl_state x); try done.
  apply set_state_ok; [|done]. apply forget_key_ok, cancel_future_ok, Hok.
Qed.
Lemma task_cancelled_ok i s : ok s → ok (task_cancelled i s).
Proof.
  intros Hok. unfold task_cancelled. destruct (calls s !! i) as [x|]; [|done].
  destruct (cl_state x); [by apply set_state_ok|by apply set_state_ok; [apply cancel_future_ok|]|done].
Qed.
Lemma resume_ok i s : ok s → ok (resume i s).
Proof.
  intros Hok. unfold resume. destruct (calls s !! i) as [x|] eqn:Hx; [|done].
  destruct (cl_state x), (cl_future x) eqn:Hf; try done. apply set_state_ok; [done|].
  intros y a Hy [= <-]. rewrite Hx in Hy. injection Hy as <-. apply (calls_ok _ _ Hok i x Hx). by left.
Qed.
Lemma run_callback_ok s : ok s → ok (run_callback s).
Proof.
  intros Hok. unfold run_callback. destruct (callbacks s) as [|[i a] rest] eqn:Hc; [done|].
  assert (ok (set_callbacks rest s)) as Hok'.
  { destruct Hok as [H1 H2 H3]. split; [done|done|]. cbn. intros k b Hb. apply H3. rewrite Hc. by right. }
  destruct (cl_future <$> calls s !! i) as [[]|]; try done. apply set_future_ok; [done|].
  intros x b Hx [= <-]. destruct (callbacks_ok _ _ Hok i a) as (y & Hy & Hj); [rewrite Hc; left|].
  cbn in Hx. rewrite Hx in Hy. by injection Hy as <-.
Qed.
Lemma deliver_ok closed e s : ok s → e ∈ log → ok (deliver_clarification_response closed e s).1.
Proof.
  intros Hok He. unfold deliver_clarification_response. case_bool_decide as Hv; [done|].
  destruct (dget (correlation_id e) (pending s)) as [i|] eqn:Hi; [|done].
  destruct (pending_ok _ _ Hok _ _ Hi) as (x & Hx & Hc). rewrite Hx. cbn.
  assert (justified log (cl_correlation x) (answer_text e)) as Hj by (exists e; auto).
  pose proof (forget_key_ok (correlation_id e) s Hok) as Hok'.
  destruct (cl_future x); [|done|done]. destruct closed; cbn.
  - apply set_future_ok; [done|]. intros y a Hy [= <-]. cbn in Hy. rewrite Hx in Hy. by injection Hy as <-.
  - destruct Hok' as [H1 H2 H3]. split; [done|done|]. cbn.
    intros k a [Ha|[= -> ->]%list_elem_of_singleton]%elem_of_app; [by apply H3|eauto].
Qed.
End steps.

(** Only an envelope that was read is delivered. *)
Lemma step_delivers ev x e : Deliver e ∈ (step ev x).2 → e ∈ entry_read ev.
Proof.
  destruct ev as [| |now fresh id data|now]; cbn [step entry_read fst snd]; try by intros ?%elem_of_nil.
  - destruct (is_running x); [|by intros ?%elem_of_nil]. unfold loop_entry.
    destruct (read_entry fresh data) as [| |e']; try by intros ?%elem_of_nil.
    unfold dispatch_envelope. repeat case_match; cbn; rewrite ?elem_of_cons, ?elem_of_nil; intros; try (naive_solver).
  - case_bool_decide; [|by intros ?%elem_of_nil]. by rewrite tick_silent; intros ?%elem_of_nil.
Qed.
Lemma effects_ok log closed effs s : answers_ok log s → (∀ e, Deliver e ∈ effs → e ∈ log) →
  answers_ok log (foldl (apply_effect closed) s effs).
Proof.
  revert s. induction effs as [|x effs IH]; intros s Hok He; [done|]. cbn [foldl].
  apply IH; [|intros; apply He; by right]. destruct x; cbn; [done|]. apply deliver_ok; [done|]. apply He. left.
Qed.
Lemma supervise_ok log closed ev s : answers_ok log s → answers_ok (log ++ entry_read ev) (supervise closed ev s).
Proof.
  intros Hok. unfold supervise. pose proof (step_delivers ev (super s)) as Hd.
  destruct (step ev (super s)) as [x effs]. apply effects_ok; [by apply set_super_ok, answers_ok_more|].
  intros e He. apply elem_of_app. right. by apply Hd.
Qed.
Lemma system_step_ok log ev s : answers_ok log s → answers_ok (log ++ (system_step ev s).2) (system_step ev s).1.
Proof.
  intros Hok. destruct ev; cbn [system_step fst snd]; rewrite ?app_nil_r; try by apply act_ok.
  - by apply request_ok.
  - by apply send_ended_ok.
  - by apply time_out_ok.
  - by apply task_cancelled_ok.
  - by apply resume_ok.
  - by apply run_callback_ok.
  - destruct (respond_clarification _ _ _ _ _ _ _); [by apply act_ok|done].
  - by apply supervise_ok.
  - by apply supervise_ok.
Qed.
Lemma system_run_ok log evs s : answers_ok log s → answers_ok (log ++ (system_run evs s).2) (system_run evs s).1.
Proof.
  revert log s. induction evs as [|ev evs IH]; intros log s Hok; cbn [system_run]; [by rewrite app_nil_r|].
  pose proof (system_step_ok log ev s Hok) as Hs. destruct (system_step ev s) as [s1 l1]. cbn in Hs.
  specialize (IH _ _ Hs). destruct (system_run evs s1) as [s2 l2]. cbn in *. by rewrite app_assoc.
Qed.
Lemma new_system_ok x : answers_ok [] (new_system x).
Proof.
  split; cbn; [intros i y; by rewrite lookup_nil|done|by intros i a ?%elem_of_nil].
Qed.

(** ** What reaches the stream *)

(** Nobody but the tools and the launcher writes to the stream. *)
Definition closed_event (ev : system_event) : Prop :=
  match ev with Supervise _ (Entry _ _ _ _) => False | _ => True end.
(** The text of an envelope that is no answer *)
Definition no_answer (t : string) : Prop := ∃ x task e, outgoing x task e ∧ x ≠ WtpVerb.TASK_CLARIFY_RESPONSE ∧
  t = json_dumps false false (PDict (to_dict e)).
Lemma act_stream x task acts s t : (∀ a, a ∈ acts → action_ok x task a) → x ≠ WtpVerb.TASK_CLARIFY_RESPONSE →
  t ∈ stream (act acts s) → t ∈ stream s ∨ no_answer t.
Proof.
  intros Ha Hx. cbn. intros [?|(e & He & Ht)%list_elem_of_omap]%elem_of_app; [by left|right].
  apply list_elem_of_omap in He as ([| e'|] & Hin & [= <-]). apply Ha in Hin. injection Ht as <-.
  by exists x, task, e'.
Qed.
Lemma call_verb_no_answer c : call_verb c ≠ WtpVerb.TASK_CLARIFY_RESPONSE.
Proof. by destruct c. Qed.
Lemma apply_effect_stream closed x s : stream (apply_effect closed s x) = stream s.
Proof.
  destruct x as [|e]; [done|]. cbn. unfold deliver_clarification_response. by repeat (case_match || cbn).
Qed.
Lemma supervise_stream closed ev s : stream (supervise closed ev s) = stream s.
Proof.
  unfold supervise. destruct (step ev (super s)) as [x effs].
  transitivity (stream (set_super x s)); [|done]. generalize (set_super x s).
  induction effs as [|y effs IH]; intros s'; [done|]. cbn [foldl]. by rewrite IH, apply_effect_stream.
Qed.
Lemma question_stream acts s : published acts = [] → stream (act acts s) = stream s.
Proof. intros Ha. unfold act. cbn. by rewrite Ha, app_nil_r. Qed.
Lemma respond_publishes_nothing ctx configured w t a c ans acts :
  respond_clarification ctx configured w t a c ans = Ok acts → published acts = [].
Proof. unfold respond_clarification. repeat case_match; by intros [= <-]. Qed.
Lemma request_stream ctx configured corr t a l q b s :
  stream (request_clarification ctx configured corr t a l q b s) = stream s.
Proof. unfold request_clarification. repeat case_match; try done. by rewrite question_stream. Qed.
Lemma stream_step ev s t : t ∈ stream (system_step ev s).1 → t ∈ stream s ∨ no_answer t.
Proof.
  destruct ev; cbn [system_step fst].
  - rewrite request_stream. by left.
  - unfold send_ended. repeat case_match; by left.
  - unfold time_out, cancel_future. repeat case_match; by left.
  - unfold task_cancelled, cancel_future. repeat case_match; by left.
  - unfold resume. repeat case_match; by left.
  - unfold run_callback. repeat case_match; by left.
  - destruct (respond_clarification _ _ _ _ _ _ _) as [acts|] eqn:Hr; [|by left].
    rewrite question_stream by (by eapply respond_publishes_nothing). by left.
  - apply (act_stream (call_verb c) (call_task c)); [|apply call_verb_no_answer]. intros a Ha.
    by apply tools_send_ok in Ha as [_ Ha].
  - apply (act_stream WtpVerb.TASK_HEARTBEAT (l_task l)); [|done]. apply launch_publish_ok. apply plain_json. vm_decide.
  - unfold launch_progress. destruct (truthy (strip summary)).
    + apply (act_stream WtpVerb.TASK_PROGRESS (l_task l)); [|done]. apply launch_publish_ok, plain_json. vm_compute. done.
    + rewrite question_stream by done. by left.
  - rewrite supervise_stream. by left.
  - rewrite supervise_stream. by left.
Qed.
(** What is read from such a text is no answer. *)
Lemma no_answer_read fresh t e : no_answer t → read_entry fresh (Text t) = Read e → verb e ≠ WtpVerb.TASK_CLARIFY_RESPONSE.
Proof.
  intros (x & task & e' & He & Hx & ->). unfold read_entry.
  assert (truthy (json_dumps false false (PDict (to_dict e'))) = true) as -> by done.
  rewrite json_loads_dumps by apply to_dict_json, (out_json _ _ _ He).
  rewrite envelope_from_to_dict by apply (out_valid _ _ _ He). intros [= <-]. by rewrite (out_verb _ _ _ He).
Qed.
Lemma closed_log evs s : (∀ t, t ∈ stream s → no_answer t) → Forall closed_event evs →
  ∀ e, e ∈ (system_run evs s).2 → verb e ≠ WtpVerb.TASK_CLARIFY_RESPONSE.
Proof.
  revert s. induction evs as [|ev evs IH]; intros s Hs Hev e; cbn [system_run]; [by intros ?%elem_of_nil|].
  apply Forall_cons in Hev as [Hc Hev].
  assert (∀ e, e ∈ (system_step ev s).2 → verb e ≠ WtpVerb.TASK_CLARIFY_RESPONSE) as Hstep.
  { intros e'. destruct ev as [| | | | | | | | | |closed k now fresh id|closed [| |now fresh id data|]];
      try done; cbn -[read_entry]; try by intros ?%elem_of_nil.
    destruct (stream s !! k) as [t|] eqn:Ht; cbn -[read_entry]; [|by intros ?%elem_of_nil].
    destruct (read_entry fresh (Text t)) as [| |e''] eqn:Hr; try by intros ?%elem_of_nil.
    intros ->%list_elem_of_singleton. eapply no_answer_read; [|done]. apply Hs. by eapply list_elem_of_lookup_2. }
  assert (∀ t, t ∈ stream (system_step ev s).1 → no_answer t) as Hs1.
  { intros t [Ht|Ht]%stream_step; auto. }
  destruct (system_step ev s) as [s1 l1]. cbn in *. specialize (IH s1 Hs1 Hev e).
  destruct (system_run evs s1) as [s2 l2]. cbn in *. intros [?|?]%elem_of_app; auto.
Qed.

(** * Properties *)

(** C14. In every interleaving, a question that is answered was answered by an
    envelope the supervisor read: an answer of the protocol under the
    question's own correlation, whose text is what the worker gets. *)
Theorem clarification_answered x evs i c a : calls (system_run evs (new_system x)).1 !! i = Some c →
  cl_state c = Finished (Answered a) → justified (system_run evs (new_system x)).2 (cl_correlation c) a.
Proof.
  intros Hi Ha. eapply calls_ok; [|exact Hi|by right]. exact (system_run_ok [] evs _ (new_system_ok x)).
Qed.

(** C15. And no question is ever answered: the leader's answers go to the bus
    and not to the stream, and neither do the other tools or the launcher
    write answers to it.  So in every run in which nobody else writes to the
    stream, whatever leaders answer and the supervisor reads, no call returns
    an answer. *)
Theorem clarification_never_answered x evs : Forall closed_event evs →
  ∀ i c a, calls (system_run evs (new_system x)).1 !! i = Some c → cl_state c ≠ Finished (Answered a).
Proof.
  intros Hev i c a Hi Ha.
  destruct (calls_ok _ _ (system_run_ok [] evs _ (new_system_ok x)) i c Hi a) as (e & He & Hv & _); [by right|].
  revert Hv. refine (closed_log evs _ _ Hev e He). by intros t ?%elem_of_nil.
Qed.

(** * Witnesses *)

Definition leader_context : tool_context :=
  mkContext [("workspace_session_role", PStr "leader"); ("workspace_id", PStr "ws")] "lead" "conv2" "u1".
Definition ask : list system_event :=
  [Supervise false Start; Request worker_context true "corr" "task" "attempt" "lead" "Which port?" true;
   SendEnded 0 (SendResult "m1" "w1" "lead")].
Definition the_answer : WtpEnvelope :=
  mkEnvelope WtpVerb.TASK_CLARIFY_RESPONSE "ws" "task" "attempt" [("answer", PStr "8080")] "corr" None PNone [].
(** An answer that somebody else puts on the stream arrives. *)
Definition answered_run : list system_event :=
  ask ++ [Supervise false (Entry 5 "fresh" "1-0" (from_option Text Absent (publish_envelope true true the_answer)));
          RunCallback; Resume 0].
Lemma clarification_answered_witness :
  cl_state <$> calls (system_run answered_run (new_system (new_supervisor true 900))).1 !! 0 = Some (Finished (Answered "8080")) ∧
  justified (system_run answered_run (new_system (new_supervisor true 900))).2 "corr" "8080".
Proof.
  split; [vm_compute; reflexivity|].
  exact (clarification_answered (new_supervisor true 900) answered_run 0 (mkCall "corr" (FResult "8080") (Finished (Answered "8080"))) "8080"
    ltac:(vm_compute; reflexivity) eq_refl).
Defined.
(** The leader's own answer does not, and the call gives up. *)
Definition unanswered_run : list system_event :=
  ask ++ [Respond leader_context true "w1" "task" "attempt" "corr" "8080"; ReadStream false 0 5 "fresh" "1-0"; Resume 0; TimeOut 0].
Lemma clarification_never_answered_witness :
  length (outbox (system_run unanswered_run (new_system (new_supervisor true 900))).1) = 2 ∧
  ∀ a, calls (system_run unanswered_run (new_system (new_supervisor true 900))).1 !! 0 ≠
       Some (mkCall "corr" FCancelled (Finished (Answered a))).
Proof.
  split; [vm_compute; reflexivity|]. intros a Ha.
  refine (clarification_never_answered (new_supervisor true 900) unanswered_run _ 0 _ a Ha eq_refl). repeat constructor.
Defined.
(** A cancelled call leaves its future behind. *)
Example cancelled_leaks :
  pending (system_run (ask ++ [TaskCancelled 0]) (new_system (new_supervisor true 900))).1 = [("corr", 0)].
Proof. vm_compute. reflexivity. Qed.
